(* ===== verification/_CoqProject ===== *)
-Q . S2P
Prelude.v
Json.v
Typing.v
Models.v
Schemas.v
Database.v
DatabaseSpec.v
DatabaseIndex.v
KeyFormat.v
OffsetWatcher.v
Reader.v
ReaderSpec.v
Compat.v
JsonSchema.v
JsonSchemaSpec.v
JsonSchemaSound.v
JsonSchemaNormal.v
Protobuf.v
ProtobufSpec.v
Registry.v
RegistrySpec.v
RegistryProps.v
Auth.v
Coordinator.v
CoordinatorSpec.v
ProtoReader.v
ProtoReaderSpec.v
ProtoElements.v
ProtoParser.v
ProtoParserSpec.v
ProtoLayout.v
ProtoTokens.v
ProtoPrint.v
ProtoRead.v
ProtoDeclare.v
ProtoRoundTrip.v
ProtoTypes.v
ProtoTypesSpec.v
ProtoNormalize.v
ProtoNormalizeSpec.v
Framing.v
Serialization.v
SerializationSpec.v
KafkaClient.v
KafkaAdmin.v
Rest.v
Consumers.v
ConsumersSpec.v
Controller.v
Api.v
ApiSpec.v
ApiProps.v
ProxyAuth.v
Proxy.v
KafkaRest.v
ProxySpec.v
ProxyProps.v
Rapu.v
RapuSpec.v
ProtoDescriptor.v
ProtoDescriptorSpec.v
ProtobufText.v
ProtobufTextSpec.v
Config.v
Anonymize.v
AvroModels.v
AvroModelsSpec.v
ProtoMessages.v
ProtoMessagesSpec.v
ProtoIO.v
ProtoIOSpec.v
CoordinatorTasks.v
CoordinatorTasksSpec.v
RegistryClient.v
RegistryClientSpec.v
KafkaSetup.v
KafkaSetupSpec.v
Monitoring.v
MonitoringSpec.v
Statistics.v
