(* ===== verification/Prelude.v ===== *)
(** * Karapace: a verification development

    Karapace is a schema registry and a REST proxy for Kafka. The registry keeps schemas of three
    formats (Avro, JSON Schema, protobuf) as versions of subjects, checks each against the versions
    before it, and stores them as records of a Kafka topic that every node reads back into memory.
    The proxy produces and consumes records for HTTP clients, and serialises them with the schemas
    of a registry. The sources are under src/src/karapace; file names below are relative to it.

    ** The parts and how they interact

    A request to the registry meets the gates and routers ([api]), which check the credentials
    ([core/auth.py], [api/oidc]) and either call the controller ([api/controller.py]) or hand the
    request to the primary ([api/forward_client.py]). The controller calls the registry
    ([core/schema_registry.py]), which validates the schema ([core/schema_models.py]), checks it
    against the stored versions ([core/compatibility]) and writes a record through the producer
    ([core/messaging.py], keys from [core/key_format.py]). The schema reader
    ([core/schema_reader.py]) consumes the topic, decodes every record and applies it to the
    in-memory database ([core/in_memory_database.py]); it reports the offsets it has applied to the
    offset watcher ([core/offset_watcher.py]), for which the producer waits. Only the primary writes:
    the coordinator ([core/coordinator]) elects it among the nodes of a Kafka consumer group.
    Protobuf schemas are parsed, printed in a normal form, normalised and compared by
    [core/protobuf].

    A request to the proxy is parsed and routed by [rapu.py] and the base classes of its application,
    reaches [KafkaRest] ([kafka_rest_apis/__init__.py]), which picks the proxy of the user by the
    credentials ([kafka_rest_apis/authentication.py]), and there produces through a Kafka producer
    and the cached metadata of the cluster, or goes to the consumer manager
    ([kafka_rest_apis/consumer_manager.py]). Payloads are framed and encoded by
    [core/serialization.py] with schemas fetched from a registry.

    ** Files

    - Prelude: scope, tactics, hint databases, exceptions, the [result] and state monads, Python
      dictionaries as insertion-ordered association lists with their lemmas. Json: decoded JSON.
    - Typing, Models, Schemas: versions, subjects, modes, types, references, dependencies, typed
      schemas and [parse] ([core/typing.py], [core/schema_references.py], [core/dependency.py],
      [core/schema_models.py]).
    - Database (every operation of [InMemoryDatabase]), DatabaseSpec (invariant, abstract store,
      refinement), DatabaseIndex (the two indexes).
    - KeyFormat, OffsetWatcher, Reader, ReaderSpec: keys, the watcher, the reader with all its record
      handlers and its loop.
    - Compat: directions and modes of a compatibility check. JsonSchema: the comparison of JSON
      schemas; JsonSchemaSpec (termination), JsonSchemaSound (what a positive verdict promises),
      JsonSchemaNormal (normalisation of references). Protobuf, ProtobufSpec: the comparison of
      protobuf schemas with the state it mutates.
    - Registry, RegistrySpec, RegistryProps: the registry with its producer, composed with the reader
      as a record travels through the topic.
    - Auth: users, access lists and reloading. Coordinator, CoordinatorSpec: group membership,
      election and the waiting time of a new primary.
    - ProtoReader, ProtoElements, ProtoParser: the syntax reader, the elements with the texts they
      print, and the recursive-descent parser; ProtoReaderSpec and ProtoParserSpec show that the
      parser terminates and how it fails. ProtoLayout, ProtoTokens, ProtoPrint, ProtoRead,
      ProtoDeclare, ProtoRoundTrip: texts as laid-out tokens and the round trip of printing and
      parsing.
    - ProtoTypes, ProtoTypesSpec: declared and used types and their verification; ProtoNormalize,
      ProtoNormalizeSpec: the normalisation of options and field types. ProtoDescriptor,
      ProtoDescriptorSpec: file descriptors to and from elements
      ([core/protobuf/serialization.py]).
    - Framing (the header, varints and message indexes of a payload), Serialization,
      SerializationSpec: the serialiser with its registry client, caches and subject name strategies.
    - KafkaClient, KafkaAdmin: the consumer, admin and producer wrappers of [core/kafka].
    - Controller, Api, ApiSpec, ApiProps: the controller of the registry, its routers with their
      gates, the forwarding to the primary, and the whole API as a function of a request and a state.
    - Rest (requests, answers and the errors of the proxy), Consumers, ConsumersSpec: the consumer
      manager, over a Kafka consumer that is a class of operations.
    - ProxyAuth, Proxy, KafkaRest: the credentials, the schema cache, the proxy of a user (metadata,
      validation, schema ids, producing) and the table of users with its janitor; ProxySpec and
      ProxyProps: its invariants and properties.
    - Rapu, RapuSpec: headers, body, routes and answers of the HTTP layer, with the route table of
      the proxy over the handlers of KafkaRest and Consumers, the health handler and the metrics
      ([kafka_rest_apis/karapace.py], [core/instrumentation/prometheus.py]), and the table of its
      endpoints as a client sees them.
    - Config: defaults and derived values of the configuration, [ServerContext] and the SSL
      settings. Anonymize: the anonymisation of Avro schemas ([core/anonymize_schemas]).
    - AvroModels, AvroModelsSpec: dataclasses as Avro records ([core/avro_dataclasses]).
    - ProtobufText, ProtobufTextSpec: a protobuf schema from its text, which puts the protobuf files
      together ([ProtobufSchema.__init__], [parse_protobuf_schema_definition]) and discharges what
      Schemas asks of them; the texts handed to the Go library.
    - ProtoMessages (messages to and from dictionaries), ProtoMessagesSpec (the data of a type of message
      and what they are read back as), ProtoIO, ProtoIOSpec: protobuf data with the generated classes and
      the child processes ([core/protobuf/protobuf_to_dict.py], [io.py]).
    - CoordinatorTasks, CoordinatorTasksSpec: the coordination routine, the heartbeat task and the
      master coordinator, over the handlers of Coordinator.
    - RegistryClient, RegistryClientSpec: the HTTP client of the registry with the joining of URLs,
      against the route tables of the routers.
    - KafkaSetup, KafkaSetupSpec: the settings each Kafka client is made with, the consumer and the set-up
      and loop of the schema reader's thread.
    - Monitoring, MonitoringSpec: paths of metrics, request counters and the health check. Statistics:
      the datagrams of statsd and the counters of the registry.

    ** How code is modelled

    A class is a record of its attributes (or an inductive type for tagged values); a method is a
    function on it; code that raises returns [result], code that changes state is in the monad [M]
    of state and result, in which a raised exception keeps the changes made before it. Dictionaries
    keep insertion order, which the code observes. Integers are unbounded in Python and are [Z] here.
    Strings are sequences of characters below 256. Times are rationals. Exceptions are values of
    [exn] without their messages. Code outside the repository (the Avro and jsonschema libraries,
    the JSON codec, hashes, regular expressions, HTTP, Kafka, clocks) is a parameter or a class of
    operations; what is relied on is a class of laws, each with an instance in a witness.

    ** What the theorems show

    - Database: any sequence of operations refines a store of subjects, versions and modes; ids are
      fresh or shared by equal schemas; the index of duplicates is sound where a version that is written
      again keeps its schema, id and references.
    - Reader: whatever the topic holds, the database stays well-formed, tolerant reading goes past
      every record whose key is a UTF-8 text that is a JSON object or no JSON at all, except for named
      exceptions of protobuf texts and a full stack; offsets are acknowledged only once applied.
    - Registry and its API: a request refines the registry operation it stands for, changes nothing
      without the permission, registers all or nothing and only what is compatible with the versions
      in scope; a dry run agrees with the registration; answers show only what the user may read;
      deletions respect referrers and touch nothing else.
    - Compatibility: modes and directions; soundness of the JSON Schema verdict against a semantics of
      acceptance, for the keywords listed there (others are missed by the check); termination; the
      wire format of the fields that compatible protobuf schemas keep; the comparison restores its path
      and locks.
    - Protobuf text: the parser terminates on every text, and the normal form of a plain file reads
      back and is a fixpoint; the trie of declared types is equivalent to a search by name;
      normalisation sorts options stably, shortens the types that are known or uniquely declared, changes
      nothing else and is idempotent; a file serialised as a descriptor reads back without its services,
      extensions, groups and inner options; a text is accepted only when the types it uses are declared, and
      the stored text of a plain schema reads back.
    - Auth and coordination: access decisions, last valid configuration, one primary, a new primary
      waits and catches up before it answers; what the tasks of the coordinator keep of the membership
      while they run, the session limit of a silent coordinator, and a heartbeat task that failed.
    - Proxy: a message is written in the wire format and reads back, a batch returns what was delivered up
      to the size limit, a request touches one consumer or the proxy of one user, metadata is never
      older than the limit, results come in the order of the records (a request fails after records were
      sent only when one of them was cancelled), idle users and no others are closed, with the clients
      of their consumers; a request without credentials is refused but for [OPTIONS], the root, the
      health and the metrics, and every route has the effect of its endpoint.
    - Data and clients: a dataclass in the bounds of Avro and a protobuf datum of the type of its
      message read back as they were written; every request of the registry client, for a server URL
      without a path and a subject that is no dot segment, reaches the route it is meant for; the
      settings reach the clients; the labels of metrics are bounded; a datagram of statsd reads back.

    ** Fuel

    Loops that are not structural take fuel and raise [RecursionError] without it. The parser takes
    the length of the text plus one (options and fields a multiple of it), since every round reads a
    character: parse_terminates shows it is never used up. The JSON Schema comparison takes the size
    of the schemas (json_check_terminates), reference resolution the rank of acyclic references
    (resolve_references_terminates), the protobuf normalisation the height of a type
    (normalize_total), [avro_resolve] the size of the dependency tree (avro_resolve_postorder). The
    lookups of a schema with its references take the rank of the schemas on the registry
    (schema_lookup_terminates), the type of a map field the length of its name (get2_fuel_raises). The
    recursion limit of the interpreter is the parameter [recursion_limit] where a recursion is as deep
    as the data.

    ** Not modelled

    The libraries the sources call are parameters: FastAPI, aiohttp, the dependency injector,
    confluent-kafka and aiokafka, pydantic's reading of settings, the Avro, jsonschema and protobuf
    runtimes, protoc, and the Go library that normalises protobuf text. Left out are the set-up of logging,
    tracing and metric exporters, the wiring and command lines that start a process, the choice of a
    JSON module, the headers of replies other than those a client reads back, token provider classes, and
    the reading of configuration files: they are calls of libraries without a decision of their own, or
    feed nothing back into what is modelled. The enumerations of incompatibilities and the texts of
    messages are left out with the messages of errors, except where a property reports them.

    Threads and locks are not state: operations under a lock are atomic steps, a request on a consumer is
    two of them, and a round of a task is one. Handlers of the proxy are atomic. The schema object of a
    dependency is what its printed text reads as, and characters are below 256. *)

From stdpp Require Export base tactics decidable option list strings gmap.
From Stdlib Require Export ZArith Lia Ascii.
From Stdlib Require Import QArith_base.

(** ** Scope, automation databases and tactics of the development *)

Declare Scope py_scope.
Delimit Scope py_scope with py.

Create Rewrite HintDb pydict.
Create HintDb karapace.

(** Case analysis on the scrutinee of a [match] or [if], with its equation. *)
Ltac split_match :=
  match goal with
  | |- context [match ?x with _ => _ end] => destruct x eqn:?
  | H : context [match ?x with _ => _ end] |- _ => destruct x eqn:?
  end.

(** Normalise dictionary terms with the [pydict] rewriting database. *)
Ltac py_simp := repeat (progress (autorewrite with pydict in *; simpl in *)).

(** Closes the routine goals left by a case analysis. *)
Ltac py_done := simplify_eq/=; eauto with karapace; try done; try lia; try congruence.

(** ** Exceptions and the two effect monads *)

(** The exceptions the modelled code raises or catches: the builtins, the classes of
    [core/errors.py], and the classes of the aiokafka client that the handlers name.
    Messages are not modelled; payloads that a handler reads back are. *)
Inductive exn : Type :=
  (* Python builtins *)
  | KeyError | ValueError | TypeError | AssertionError | RuntimeError | RecursionError | IndexError
  | EOFError | AttributeError | JSONDecodeError
  (* core/errors.py *)
  | VersionNotFoundException | InvalidVersion | IncompatibleSchema | InvalidSchema
  | InvalidSchemaType | InvalidReferences | SchemasNotFoundException
  | SchemaVersionSoftDeletedException | SchemaVersionNotSoftDeletedException
  | SubjectNotFoundException | SubjectNotSoftDeletedException
  | ReferenceExistsException (referenced_by : list Z) (version : Z)
  | SubjectSoftDeletedException | SchemaTooLargeException
  | ShutdownException | CorruptKafkaRecordException
  (* avro.errors.SchemaParseException, jsonschema.SchemaError *)
  | SchemaParseException | SchemaError
  (* protobuf/exception.py *)
  | ProtobufException | IllegalArgumentException | IllegalStateException
  | ProtobufSchemaParseException
  (* api: HTTPException(status_code, error_code) *)
  | HTTPException (status_code : Z) (error_code : option Z)
  (* KarapaceValidationError, the RequestValidationError of FastAPI with an error code *)
  | KarapaceValidationError (error_code : Z)
  (* rapu.HTTPResponse of an error: status and, where the body has one, the error code *)
  | HTTPResponse (status : Z) (sub_code : option Z)
  (* core/auth.py *)
  | AuthenticationError | InvalidConfiguration
  (* core/serialization.py *)
  | DeserializationError | InvalidMessageHeader | InvalidPayload | InvalidMessageSchema
  | SchemaRetrievalError | InvalidRecord
  (* struct.error; the errors of the Avro, protobuf and jsonschema libraries on data *)
  | StructError | UnicodeDecodeError | ZeroDivisionError | OverflowError | AvroTypeException
  | InvalidAvroBinaryEncoding | SchemaResolutionException | DecodeError | ValidationError
  (* protobuf/exception.py, raised by the datum reader and writer *)
  | ProtobufTypeException | ProtobufSchemaResolutionException
  (* aiokafka.errors *)
  | GroupAuthorizationFailedError | TopicAuthorizationFailedError
  | KafkaUnavailableError | MessageSizeTooLargeError | IllegalStateError
  | UnknownTopicOrPartitionError | KafkaTimeoutError | KafkaConfigurationError | UnknownError
  | AuthenticationFailedError | NoBrokersAvailable | KafkaError
  | BrokerResponseError (retriable : bool)
  (* jwt.InvalidTokenError and its subclass jwt.DecodeError; aiohttp.ClientConnectionError *)
  | InvalidTokenError | JWTDecodeError | ClientConnectionError
  (* aiohttp.web.HTTPRequestEntityTooLarge; the LookupError of an unknown codec *)
  | HTTPRequestEntityTooLarge | ConnectionError | LookupError | NotImplementedError
  (* avro_dataclasses/introspect.py, subclasses of NotImplementedError; protobuf_to_dict.py, a
     subclass of ValueError; queue.Empty of the standard library; utils.py *)
  | UnsupportedAnnotation | UnderspecifiedAnnotation | FieldsMissing | QueueEmpty | Timeout
  | NodeNotReadyError | InvalidReplicationFactorError | TopicAlreadyExistsError
  (* asyncio; kafka_rest_apis *)
  | TimeoutError | CancelledError | FormatError | B64DecodeError
  (* confluent_kafka.KafkaException *)
  | KafkaException
  | OtherError.

#[global] Instance exn_eq_dec : EqDecision exn.
Proof. solve_decision. Defined.

(** Outcome of code that returns or raises. *)
Inductive result (A : Type) : Type :=
  | Ok (a : A)
  | Raise (e : exn).
Arguments Ok {A} a.
Arguments Raise {A} e.

#[global] Instance result_ret : MRet result := fun A a => Ok a.
#[global] Instance result_bind : MBind result := fun A B f r =>
  match r with Ok a => f a | Raise e => Raise e end.
#[global] Instance result_fmap : FMap result := fun A B f r =>
  match r with Ok a => Ok (f a) | Raise e => Raise e end.

Definition is_ok {A} (r : result A) : bool :=
  match r with Ok _ => true | Raise _ => false end.

(** [try r except e in catches: raise e'] *)
Definition reraise {A} (catches : exn -> bool) (e' : exn) (r : result A) : result A :=
  match r with
  | Ok a => Ok a
  | Raise e => if catches e then Raise e' else Raise e
  end.

(** [try: r except e: raise f e], where [f] leaves what is not caught as it is. *)
Definition map_raise {A} (f : exn -> exn) (r : result A) : result A :=
  match r with Ok a => Ok a | Raise e => Raise (f e) end.

(** [except ValueError] also catches its subclasses [JSONDecodeError] and [UnicodeDecodeError];
    [except ProtobufException], [except ShutdownException] and [except KafkaError] theirs. *)
Definition is_value_error (e : exn) : bool :=
  match e with ValueError | JSONDecodeError | UnicodeDecodeError | B64DecodeError | FieldsMissing => true | _ => false end.
Definition is_protobuf_exception (e : exn) : bool :=
  match e with
  | ProtobufException | IllegalArgumentException | IllegalStateException
  | ProtobufSchemaParseException | ProtobufTypeException | ProtobufSchemaResolutionException => true
  | _ => false
  end.
Definition is_kafka_error (e : exn) : bool :=
  match e with
  | GroupAuthorizationFailedError | TopicAuthorizationFailedError | KafkaUnavailableError
  | MessageSizeTooLargeError | IllegalStateError | UnknownTopicOrPartitionError
  | KafkaTimeoutError | KafkaConfigurationError | UnknownError | AuthenticationFailedError
  | NoBrokersAvailable | KafkaError | BrokerResponseError _ | NodeNotReadyError
  | InvalidReplicationFactorError | TopicAlreadyExistsError => true
  | _ => false
  end.
Definition is_shutdown (e : exn) : bool :=
  match e with ShutdownException | CorruptKafkaRecordException => true | _ => false end.

(** Code that also mutates a state: the state reached so far survives an exception, as a
    mutated Python object does. *)
Definition M (S A : Type) : Type := S -> S * result A.

#[global] Instance M_ret {S} : MRet (M S) := fun A a s => (s, Ok a).
#[global] Instance M_bind {S} : MBind (M S) := fun A B f m s =>
  match m s with
  | (s', Ok a) => f a s'
  | (s', Raise e) => (s', Raise e)
  end.

Definition raise {S A} (e : exn) : M S A := fun s => (s, Raise e).
Definition lift {S A} (r : result A) : M S A := fun s => (s, r).
Definition gets {S A} (f : S -> A) : M S A := fun s => (s, Ok (f s)).
Definition modify {S} (f : S -> S) : M S () := fun s => (f s, Ok ()).

(** [try: m except e: handler e], the handler deciding whether to raise again. *)
Definition catch {S A} (m : M S A) (handler : exn -> M S A) : M S A := fun s =>
  match m s with
  | (s', Ok a) => (s', Ok a)
  | (s', Raise e) => handler e s'
  end.

(** The same, when all the handler does is to raise. *)
Definition catch_map {S A} (f : exn -> exn) (m : M S A) : M S A := fun s => ((m s).1, map_raise f (m s).2).

(** [for x in l: body x], stopping at the first exception. *)
Fixpoint for_each {S A} (l : list A) (body : A -> M S ()) : M S () :=
  match l with
  | [] => mret ()
  | x :: l' => mbind (fun _ => for_each l' body) (body x)
  end.

(** [[f x for x in l]] in the error monad. *)
Fixpoint map_res {A B} (f : A -> result B) (l : list A) : result (list B) :=
  match l with
  | [] => Ok []
  | x :: l' => y ← f x; ys ← map_res f l'; Ok (y :: ys)
  end.

(** A loop that updates an accumulator and may raise. *)
Fixpoint fold_res {A B} (f : B -> A -> result B) (l : list A) (acc : B) : result B :=
  match l with
  | [] => Ok acc
  | x :: l' => acc' ← f acc x; fold_res f l' acc'
  end.

Lemma bind_Ok {A B} (r : result A) (f : A -> result B) b :
  r ≫= f = Ok b -> exists a, r = Ok a /\ f a = Ok b.
Proof. destruct r; simpl; [eauto | discriminate]. Qed.

Lemma M_bind_inv {S A B} (m : M S A) (f : A -> M S B) s s' r :
  mbind f m s = (s', r) ->
  (exists a s1, m s = (s1, Ok a) /\ f a s1 = (s', r)) \/
  (exists e, m s = (s', Raise e) /\ r = Raise e).
Proof.
  unfold mbind, M_bind. destruct (m s) as [s1 [a|e]]; intros H; simplify_eq; eauto 10.
Qed.

Lemma M_bind_Ok {S A B} (m : M S A) (f : A -> M S B) s s' b :
  mbind f m s = (s', Ok b) -> exists a s1, m s = (s1, Ok a) /\ f a s1 = (s', Ok b).
Proof. intros [(a & s1 & H1 & H2)|(e & _ & ?)]%M_bind_inv; [eauto|done]. Qed.

Lemma M_bind_run {S A B} (m : M S A) (f : A -> M S B) s s1 a : m s = (s1, Ok a) -> mbind f m s = f a s1.
Proof. unfold mbind, M_bind. by intros ->. Qed.

(** *** Two judgements on stateful code

    [steps R m]: whatever [m] does, returning or raising, relates the states by [R].
    [raises P m]: every exception that leaves [m] satisfies [P]. *)

Definition steps {S A} (R : relation S) (m : M S A) : Prop := forall s, R s (m s).1.
Definition raises {S A} (P : exn -> Prop) (m : M S A) : Prop :=
  forall s e, (m s).2 = Raise e -> P e.
Definition raises_res {A} (P : exn -> Prop) (r : result A) : Prop :=
  forall e, r = Raise e -> P e.

Section steps.
Context {S : Type} (R : relation S) `{!PreOrder R}.

Lemma steps_ret {A} (a : A) : steps R (mret a).
Proof. intros s. reflexivity. Qed.
Lemma steps_raise {A} e : steps R (raise (A := A) e).
Proof. intros s. reflexivity. Qed.
Lemma steps_lift {A} (r : result A) : steps R (lift r).
Proof. intros s. reflexivity. Qed.
Lemma steps_gets {A} (f : S -> A) : steps R (gets f).
Proof. intros s. reflexivity. Qed.
Lemma steps_modify f : (forall s, R s (f s)) -> steps R (modify f).
Proof. intros H s. apply H. Qed.
Lemma steps_bind {A B} (m : M S A) (f : A -> M S B) :
  steps R m -> (forall a, steps R (f a)) -> steps R (mbind f m).
Proof.
  intros Hm Hf s. unfold mbind, M_bind. specialize (Hm s).
  destruct (m s) as [s' [a|e]]; simpl in *; [|done]. etrans; [exact Hm|apply Hf].
Qed.
Lemma steps_catch {A} (m : M S A) h :
  steps R m -> (forall e, steps R (h e)) -> steps R (catch m h).
Proof.
  intros Hm Hh s. unfold catch. specialize (Hm s).
  destruct (m s) as [s' [a|e]]; simpl in *; [done|]. etrans; [exact Hm|apply Hh].
Qed.
Lemma steps_catch_map {A} f (m : M S A) : steps R m -> steps R (catch_map f m).
Proof. intros Hm s. apply Hm. Qed.
End steps.

Section raises.
Context {S : Type} (P : exn -> Prop).

Lemma raises_ret {A} (a : A) : raises (S := S) P (mret a).
Proof. done. Qed.
Lemma raises_raise {A} e : P e -> raises (S := S) P (raise (A := A) e).
Proof. intros H s e' [= <-]. done. Qed.
Lemma raises_lift {A} (r : result A) : raises_res P r -> raises (S := S) P (lift r).
Proof. intros H s e He. by apply H. Qed.
Lemma raises_gets {A} (f : S -> A) : raises P (gets f).
Proof. done. Qed.
Lemma raises_modify (f : S -> S) : raises P (modify f).
Proof. done. Qed.
Lemma raises_bind {A B} (m : M S A) (f : A -> M S B) :
  raises P m -> (forall a, raises P (f a)) -> raises P (mbind f m).
Proof.
  intros Hm Hf s e. unfold mbind, M_bind. specialize (Hm s).
  destruct (m s) as [s' [a|e']]; simpl; [apply Hf|]. intros [= <-]. by apply Hm.
Qed.
Lemma raises_res_ok {A} (a : A) : raises_res P (Ok a).
Proof. done. Qed.
Lemma raises_res_raise {A} e : P e -> raises_res P (Raise (A := A) e).
Proof. intros H e' [= <-]. done. Qed.
Lemma raises_res_bind {A B} (r : result A) (f : A -> result B) :
  raises_res P r -> (forall a, raises_res P (f a)) -> raises_res P (r ≫= f).
Proof. intros Hr Hf e. destruct r; simpl; [apply Hf|]. intros [= <-]. by apply Hr. Qed.
Lemma raises_res_reraise {A} c e' (r : result A) :
  P e' -> raises_res (fun e => c e = false -> P e) r -> raises_res P (reraise c e' r).
Proof.
  intros He' Hr e. destruct r as [a|e0]; simpl; [done|].
  destruct (c e0) eqn:E; intros [= <-]; [done|]. by apply (Hr e0).
Qed.
Lemma raises_res_map {A B} (f : A -> result B) l :
  (forall x, raises_res P (f x)) -> raises_res P (map_res f l).
Proof.
  intros Hf. induction l as [|x l IH]; simpl; [done|].
  apply raises_res_bind; [done|]. intros y. by apply raises_res_bind.
Qed.
Lemma raises_weaken {A} (Q : exn -> Prop) (m : M S A) :
  (forall e, P e -> Q e) -> raises P m -> raises Q m.
Proof. intros H Hm s e He. eauto. Qed.
Lemma raises_catch {A} (Q : exn -> Prop) (m : M S A) h :
  raises P m -> (forall e, P e -> raises Q (h e)) -> raises Q (catch m h).
Proof.
  intros Hm Hh s e. unfold catch. specialize (Hm s).
  destruct (m s) as [s' [a|e0]]; simpl; [done|]. by apply Hh, Hm.
Qed.
Lemma raises_res_map_raise {A} (Q : exn -> Prop) f (r : result A) :
  raises_res P r -> (forall e, P e -> Q (f e)) -> raises_res Q (map_raise f r).
Proof. intros Hr Hf e. destruct r as [a|e0]; simpl; [done|]. intros [= <-]. by apply Hf, Hr. Qed.
Lemma raises_catch_map {A} (Q : exn -> Prop) f (m : M S A) :
  raises P m -> (forall e, P e -> Q (f e)) -> raises Q (catch_map f m).
Proof. intros Hm Hf s. exact (raises_res_map_raise Q f (m s).2 (Hm s) Hf). Qed.
Lemma raises_res_weaken {A} (Q : exn -> Prop) (r : result A) :
  (forall e, P e -> Q e) -> raises_res P r -> raises_res Q r.
Proof. intros H Hr e He. eauto. Qed.
End raises.

#[export] Hint Resolve steps_ret steps_raise steps_lift steps_gets steps_bind steps_catch
  steps_modify raises_ret raises_raise raises_lift raises_gets raises_modify raises_bind
  raises_res_ok raises_res_raise raises_res_bind raises_res_map : karapace.

(** Follows the structure of a monadic program, splitting its matches. *)
Ltac monad_steps :=
  repeat first
    [ progress intros
    | match goal with
      | |- PreOrder _ => typeclasses eauto
      | |- steps _ (match ?x with _ => _ end) => destruct x eqn:?
      | |- raises _ (match ?x with _ => _ end) => destruct x eqn:?
      | |- raises_res _ (match ?x with _ => _ end) => destruct x eqn:?
      end
    | first [apply steps_ret | apply steps_raise | apply steps_lift | apply steps_gets];
      typeclasses eauto
    | progress (eauto 2 with karapace)
    | apply steps_bind | apply raises_bind | apply raises_res_bind ].

Lemma for_each_app {S A} (l1 l2 : list A) (body : A -> M S ()) s :
  for_each (l1 ++ l2) body s = mbind (fun _ => for_each l2 body) (for_each l1 body) s.
Proof.
  revert s; induction l1 as [|x l1 IH]; intros s; simpl; [done|].
  unfold mbind, M_bind in *. destruct (body x s) as [s' [[]|e]]; [apply IH|done].
Qed.

Lemma map_res_Forall2 {A B} (f : A -> result B) l ys :
  map_res f l = Ok ys -> Forall2 (fun x y => f x = Ok y) l ys.
Proof.
  revert ys; induction l as [|x l IH]; simpl; intros ys H; [by inv H|].
  destruct (f x) eqn:E; simpl in H; [|done].
  destruct (map_res f l) eqn:E'; simpl in H; [|done]. inv H. eauto.
Qed.

(** ** Numbers *)

(** [int(q)] of a float: the fraction is cut off. *)
Definition int_of_Q (q : Q) : Z := Z.quot (Qnum q) (Zpos (Qden q)).

(** ** Strings *)

(** [s.replace(old, new)] for an [old] that is not empty; [fuel] bounds the occurrences. *)
Fixpoint replace_all (fuel : nat) (old new s : string) : string :=
  match fuel with
  | O => s
  | S fuel =>
      match String.index 0 old s with
      | None => s
      | Some i =>
          let j := (i + String.length old)%nat in
          (String.substring 0 i s +:+ new +:+
           replace_all fuel old new (String.substring j (String.length s - j) s))%string
      end
  end.
Definition str_replace (old new s : string) : string := replace_all (String.length s) old new s.

Lemma string_app_assoc (a b c : string) : ((a +:+ b) +:+ c = a +:+ b +:+ c)%string.
Proof.
  induction a as [|x a IH]; [done|]. change (String x ((a +:+ b) +:+ c)%string = String x (a +:+ b +:+ c)%string). by rewrite IH.
Qed.
Lemma string_app_nil (a : string) : (a +:+ "" = a)%string.
Proof. induction a as [|x a IH]; [done|]. change (String x (a +:+ "")%string = String x a). by rewrite IH. Qed.
Lemma string_length_app (a b : string) : String.length (a +:+ b)%string = (String.length a + String.length b)%nat.
Proof.
  induction a as [|x a IH]; [done|]. change (S (String.length (a +:+ b)%string) = (S (String.length a) + String.length b)%nat).
  by rewrite IH.
Qed.

(** ** Python dictionaries: insertion-ordered association lists

    A [dict] keeps one binding per key; assigning to a present key keeps its position, a
    new key goes last. [dwf] (no duplicate key) is what every operation maintains. *)

Definition dict (K V : Type) : Type := list (K * V).

Section dict.
Context {K V : Type} `{EqDecision K}.
Implicit Types (d : dict K V) (k : K) (v : V).

Fixpoint dget (k : K) (d : dict K V) : option V :=
  match d with
  | [] => None
  | (k', v) :: d' => if decide (k' = k) then Some v else dget k d'
  end.

Fixpoint dset (k : K) (v : V) (d : dict K V) : dict K V :=
  match d with
  | [] => [(k, v)]
  | (k', v') :: d' => if decide (k' = k) then (k, v) :: d' else (k', v') :: dset k v d'
  end.

Fixpoint ddel (k : K) (d : dict K V) : dict K V :=
  match d with
  | [] => []
  | (k', v) :: d' => if decide (k' = k) then ddel k d' else (k', v) :: ddel k d'
  end.

Definition dkeys (d : dict K V) : list K := map fst d.
Definition dvalues (d : dict K V) : list V := map snd d.
Definition din (k : K) (d : dict K V) : bool := match dget k d with Some _ => true | None => false end.

(** [d.setdefault(k, v)] *)
Definition dsetdefault (k : K) (v : V) (d : dict K V) : dict K V :=
  if din k d then d else d ++ [(k, v)].

(** [d[k]], raising [KeyError]. *)
Definition dindex (k : K) (d : dict K V) : result V :=
  match dget k d with Some v => Ok v | None => Raise KeyError end.

(** In-place mutation of the object stored under [k]. *)
Fixpoint dupdate (f : V -> V) (k : K) (d : dict K V) : dict K V :=
  match d with
  | [] => []
  | (k', v) :: d' => if decide (k' = k) then (k', f v) :: d' else (k', v) :: dupdate f k d'
  end.

Definition dfilter (p : V -> bool) (d : dict K V) : dict K V :=
  List.filter (fun kv => p kv.2) d.

Definition dwf (d : dict K V) : Prop := NoDup (dkeys d).

Lemma dget_dset_eq k v d : dget k (dset k v d) = Some v.
Proof. induction d as [|[k' v'] d IH]; simpl; repeat (case_decide; simpl); naive_solver. Qed.

Lemma dget_dset_ne k k' v d : k ≠ k' -> dget k' (dset k v d) = dget k' d.
Proof.
  intros Hne; induction d as [|[k0 v0] d IH]; simpl; repeat (case_decide; simpl); naive_solver.
Qed.

Lemma dget_ddel_eq k d : dget k (ddel k d) = None.
Proof. induction d as [|[k' v'] d IH]; simpl; repeat (case_decide; simpl); naive_solver. Qed.

Lemma dget_ddel_ne k k' d : k ≠ k' -> dget k' (ddel k d) = dget k' d.
Proof.
  intros Hne; induction d as [|[k0 v0] d IH]; simpl; repeat (case_decide; simpl); naive_solver.
Qed.

Lemma dget_dupdate_eq f k d : dget k (dupdate f k d) = f <$> dget k d.
Proof. induction d as [|[k' v'] d IH]; simpl; repeat (case_decide; simpl); naive_solver. Qed.

Lemma dget_dupdate_ne f k k' d : k ≠ k' -> dget k' (dupdate f k d) = dget k' d.
Proof.
  intros Hne; induction d as [|[k0 v0] d IH]; simpl; repeat (case_decide; simpl); naive_solver.
Qed.

Lemma dget_In k v d : dget k d = Some v -> (k, v) ∈ d.
Proof.
  induction d as [|[k' v'] d IH]; simpl; [done|]. case_decide; intros; simplify_eq.
  - by constructor.
  - constructor; auto.
Qed.

Lemma In_dget k v d : dwf d -> (k, v) ∈ d -> dget k d = Some v.
Proof.
  unfold dwf, dkeys. induction d as [|[k' v'] d IH]; simpl; intros Hnd Hin.
  - by apply elem_of_nil in Hin.
  - apply NoDup_cons in Hnd as [Hni Hnd]. apply elem_of_cons in Hin as [Heq|Hin].
    + simplify_eq. by rewrite decide_True.
    + rewrite decide_False; [auto|]. intros ->. apply Hni.
      apply list_elem_of_fmap. by exists (k, v).
Qed.

Lemma dget_None k d : dget k d = None <-> k ∉ dkeys d.
Proof.
  unfold dkeys. induction d as [|[k' v'] d IH]; simpl; [split; [intros _; apply not_elem_of_nil|done]|].
  rewrite elem_of_cons. case_decide; [split; [done|]|rewrite IH]; naive_solver.
Qed.

Lemma dget_Some_key k d : k ∈ dkeys d <-> exists v, dget k d = Some v.
Proof.
  destruct (dget k d) eqn:E.
  - split; [eauto|]. intros _. apply dget_In in E. apply list_elem_of_fmap. by exists (k, v).
  - apply dget_None in E. naive_solver.
Qed.

Lemma din_true k d : din k d = true <-> exists v, dget k d = Some v.
Proof. unfold din. destruct (dget k d); naive_solver. Qed.

Lemma din_false k d : din k d = false <-> dget k d = None.
Proof. unfold din. destruct (dget k d); naive_solver. Qed.

Lemma dkeys_dset k v d :
  dkeys (dset k v d) = match dget k d with Some _ => dkeys d | None => dkeys d ++ [k] end.
Proof.
  unfold dkeys. induction d as [|[k' v'] d IH]; simpl; [done|].
  case_decide; simpl; [by subst|]. rewrite IH. by destruct (dget k d).
Qed.

Lemma dkeys_dupdate f k d : dkeys (dupdate f k d) = dkeys d.
Proof.
  unfold dkeys. induction d as [|[k' v'] d IH]; simpl; [done|].
  case_decide; simpl; congruence.
Qed.

Lemma dkeys_ddel k d : dkeys (ddel k d) = List.filter (fun k' => negb (bool_decide (k' = k))) (dkeys d).
Proof.
  unfold dkeys. induction d as [|[k' v'] d IH]; simpl; [done|].
  case_decide as E; [rewrite bool_decide_true by done|rewrite bool_decide_false by done];
    simpl; congruence.
Qed.

Lemma NoDup_List_filter {A} (p : A -> bool) (l : list A) : NoDup l -> NoDup (List.filter p l).
Proof.
  induction 1 as [|x l Hx Hl IH]; simpl; [constructor|].
  destruct (p x); [|done]. constructor; [|done].
  intros [Hin _]%list_elem_of_In%filter_In. by apply Hx, list_elem_of_In.
Qed.

Lemma dwf_dset k v d : dwf d -> dwf (dset k v d).
Proof.
  unfold dwf. intros H. rewrite dkeys_dset. destruct (dget k d) eqn:E; [done|].
  apply NoDup_app. split_and!; [done| |apply NoDup_singleton].
  intros x Hx ->%list_elem_of_singleton. by apply dget_None in E.
Qed.

Lemma dwf_ddel k d : dwf d -> dwf (ddel k d).
Proof. unfold dwf. intros H. rewrite dkeys_ddel. by apply NoDup_List_filter. Qed.

Lemma dwf_dupdate f k d : dwf d -> dwf (dupdate f k d).
Proof. unfold dwf. by rewrite dkeys_dupdate. Qed.

Lemma dsetdefault_absent k v d : dget k d = None -> dsetdefault k v d = dset k v d.
Proof.
  intros H. unfold dsetdefault, din. rewrite H.
  induction d as [|[k' v'] d IH]; simpl in *; [done|]. case_decide; [done|].
  by rewrite <- IH.
Qed.

Lemma dsetdefault_present k v v' d : dget k d = Some v' -> dsetdefault k v d = d.
Proof. intros H. unfold dsetdefault, din. by rewrite H. Qed.

Lemma dwf_dsetdefault k v d : dwf d -> dwf (dsetdefault k v d).
Proof.
  intros H. destruct (dget k d) eqn:E.
  - by erewrite dsetdefault_present.
  - rewrite dsetdefault_absent by done. by apply dwf_dset.
Qed.

Lemma dkeys_dfilter_subset p d k : k ∈ dkeys (dfilter p d) -> k ∈ dkeys d.
Proof.
  unfold dkeys, dfilter. rewrite !list_elem_of_fmap. intros [[k' v] [-> Hin]].
  apply list_elem_of_In, filter_In in Hin as [Hin _].
  exists (k', v). split; [done|]. by apply list_elem_of_In.
Qed.

Lemma dwf_dfilter p d : dwf d -> dwf (dfilter p d).
Proof.
  unfold dwf. induction d as [|[k v] d IH]; simpl; [done|].
  intros [Hni Hnd]%NoDup_cons. destruct (p v); simpl; [|auto].
  apply NoDup_cons; split; [|auto]. by intros ?%dkeys_dfilter_subset.
Qed.

Lemma dget_dfilter p k d : dwf d ->
  dget k (dfilter p d) = v ← dget k d; if p v then Some v else None.
Proof.
  unfold dwf. induction d as [|[k' v'] d IH]; simpl; [done|].
  intros [Hni Hnd]%NoDup_cons. case_decide as Hk; subst; simpl.
  - destruct (p v') eqn:E; simpl; [by rewrite decide_True|].
    apply dget_None. by intros ?%dkeys_dfilter_subset.
  - destruct (p v'); simpl; [rewrite decide_False by done|]; auto.
Qed.

Lemma dget_dsetdefault_eq k v d : dget k (dsetdefault k v d) = Some (default v (dget k d)).
Proof.
  destruct (dget k d) eqn:E; simpl.
  - by erewrite dsetdefault_present.
  - rewrite dsetdefault_absent by done. apply dget_dset_eq.
Qed.

Lemma dget_dsetdefault_ne k k' v d : k ≠ k' -> dget k' (dsetdefault k v d) = dget k' d.
Proof.
  intros Hne. destruct (dget k d) eqn:E; simpl.
  - by erewrite dsetdefault_present.
  - rewrite dsetdefault_absent by done. by apply dget_dset_ne.
Qed.

Lemma dvalues_In v d : v ∈ dvalues d <-> exists k, (k, v) ∈ d.
Proof.
  unfold dvalues. rewrite list_elem_of_fmap. split.
  - intros [[k v'] [-> H']]. eauto.
  - intros [k H']. by exists (k, v).
Qed.

Lemma list_to_map_dget `{!Countable K} d k : (list_to_map d : gmap K V) !! k = dget k d.
Proof.
  induction d as [|[k' v'] d IH]; simpl; [apply lookup_empty|].
  case_decide; subst; [apply lookup_insert_eq|]. by rewrite lookup_insert_ne.
Qed.

Lemma dict_ext d d' : dwf d -> dkeys d = dkeys d' -> (forall k, dget k d = dget k d') -> d = d'.
Proof.
  unfold dwf, dkeys. revert d'. induction d as [|[k v] d IH]; intros [|[k' v'] d'] Hnd Hk Hg; simplify_eq/=; [done|].
  apply NoDup_cons in Hnd as [Hni Hnd]. f_equal.
  - pose proof (Hg k') as H. rewrite !decide_True in H by done. by simplify_eq.
  - apply IH; [done..|]. intros k. pose proof (Hg k) as H. case_decide; [|done]. subst.
    transitivity (@None V); [|symmetry]; apply dget_None; unfold dkeys; congruence.
Qed.

Lemma ddel_absent k d : dget k d = None -> ddel k d = d.
Proof.
  induction d as [|[k' v'] d IH]; simpl; [done|].
  case_decide; [done|]. intros Hd; by rewrite IH.
Qed.

Lemma dupdate_id f k d : (forall v, dget k d = Some v -> f v = v) -> dupdate f k d = d.
Proof.
  induction d as [|[k' v'] d IH]; simpl; [done|].
  case_decide; intros Hf; [by rewrite Hf|]. by rewrite IH.
Qed.
End dict.

(** [{k: f(v) for k, v in d.items()}] *)
Definition dmap {K V W} (f : V -> W) (d : dict K V) : dict K W := map (prod_map id f) d.

Section dict_map.
Context {K V W : Type} `{EqDecision K}.
Implicit Types (d : dict K V).

Lemma dget_dmap (f : V -> W) k d : dget k (dmap f d) = f <$> dget k d.
Proof. induction d as [|[k' v'] d IH]; simpl; [done|]. by case_decide. Qed.

Lemma dkeys_dmap (f : V -> W) d : dkeys (dmap f d) = dkeys d.
Proof. unfold dkeys, dmap. rewrite map_map. by apply map_ext. Qed.

Lemma dwf_dmap (f : V -> W) d : dwf d -> dwf (dmap f d).
Proof. unfold dwf. by rewrite dkeys_dmap. Qed.
End dict_map.

#[export] Hint Rewrite @dget_dset_eq @dget_ddel_eq @dget_dupdate_eq @dkeys_dupdate @dget_dmap
  @dget_dsetdefault_eq @list_to_map_dget : pydict.
#[export] Hint Rewrite @dget_dset_ne @dget_ddel_ne @dget_dupdate_ne @dget_dsetdefault_ne using done : pydict.
#[export] Hint Resolve dwf_dset dwf_ddel dwf_dupdate dwf_dsetdefault dwf_dfilter dwf_dmap : karapace.

Notation "d @@ k" := (dget k d) (at level 20, no associativity) : py_scope.
