(* ===== verification/Json.v ===== *)
(** * JSON values as the Python code sees them after decoding

    [json_decode] yields nested dicts, lists, strings, numbers, booleans and [None]; this file
    holds that data type, Python's [==] and truth value on it, and [dict.get]. Integers and
    finite floats are kept apart ([JInt], [JFloat] with the float's exact rational value)
    because [isinstance(_, int)] distinguishes them while [==] and [<] do not; [bool] is a
    subclass of [int], so [True == 1]. Strings are sequences of code points below 256. *)

From Stdlib Require Import QArith.
From S2P Require Import Prelude.

Inductive json : Type :=
  | JNull
  | JBool (b : bool)
  | JInt (z : Z)
  | JFloat (q : Q)
  | JStr (s : string)
  | JList (l : list json)
  | JObj (d : list (string * json)).

(** Induction that reaches the elements of lists and the values of objects. *)
Section json_ind'.
Variable P : json -> Prop.
Hypothesis Hnull : P JNull.
Hypothesis Hbool : forall b, P (JBool b).
Hypothesis Hint : forall z, P (JInt z).
Hypothesis Hfloat : forall q, P (JFloat q).
Hypothesis Hstr : forall s, P (JStr s).
Hypothesis Hlist : forall l, Forall P l -> P (JList l).
Hypothesis Hobj : forall d, Forall (fun kv => P kv.2) d -> P (JObj d).

Fixpoint json_ind' (j : json) : P j :=
  match j with
  | JNull => Hnull
  | JBool b => Hbool b
  | JInt z => Hint z
  | JFloat q => Hfloat q
  | JStr s => Hstr s
  | JList l => Hlist l ((fix go l : Forall P l :=
      match l with
      | [] => List.Forall_nil _
      | x :: l' => List.Forall_cons _ _ _ (json_ind' x) (go l')
      end) l)
  | JObj d => Hobj d ((fix go d : Forall (fun kv => P kv.2) d :=
      match d with
      | [] => List.Forall_nil _
      | kv :: d' => List.Forall_cons _ _ _ (json_ind' kv.2) (go d')
      end) d)
  end.
End json_ind'.

(** The numeric value of an int, a float or a bool. *)
Definition num_value (j : json) : option Q :=
  match j with
  | JInt z => Some (inject_Z z)
  | JFloat q => Some q
  | JBool b => Some (inject_Z (if b then 1 else 0))
  | _ => None
  end.

(** Python's [==] on decoded JSON: numbers by value, lists elementwise, dicts by content
    whatever their order. *)
Fixpoint py_eq (a b : json) {struct a} : bool :=
  match a, b with
  | JNull, JNull => true
  | JStr s, JStr t => String.eqb s t
  | JList l, JList l' =>
      (fix go l l' := match l, l' with
        | [], [] => true
        | x :: l, y :: l' => py_eq x y && go l l'
        | _, _ => false
        end) l l'
  | JObj d, JObj d' =>
      Nat.eqb (length d) (length d') &&
      (fix go d := match d with
        | [] => true
        | (k, v) :: d => match dget k d' with Some v' => py_eq v v' | None => false end && go d
        end) d
  | _, _ =>
      match num_value a, num_value b with
      | Some p, Some q => Qeq_bool p q
      | _, _ => false
      end
  end.

(** Python truth value. *)
Definition truthy (j : json) : bool :=
  match j with
  | JNull => false
  | JBool b => b
  | JInt z => negb (Z.eqb z 0)
  | JFloat q => negb (Qeq_bool q 0)
  | JStr s => negb (String.eqb s EmptyString)
  | JList l => match l with [] => false | _ => true end
  | JObj d => match d with [] => false | _ => true end
  end.

(** Truth value of an optional value ([None] is falsy). *)
Definition opt_truthy (o : option json) : bool :=
  match o with Some j => truthy j | None => false end.

(** [None] and JSON [null] are the same Python object. *)
Definition of_opt (o : option json) : json := match o with Some j => j | None => JNull end.
Definition is_none (j : json) : bool := match j with JNull => true | _ => false end.

(** [d.get(k)] on a decoded object: absent and [null] are both [None]. *)
Definition jget (k : string) (d : list (string * json)) : json := of_opt (dget k d).
(** [d.get(k, default)] *)
Definition jget_default (k : string) (dflt : json) (d : list (string * json)) : json :=
  match dget k d with Some j => j | None => dflt end.

(** [data[key]] with the value required to be a string (int): [KeyError] when absent,
    [TypeError] otherwise. *)
Definition read_str (k : string) (d : list (string * json)) : result string :=
  j ← dindex k d; match j with JStr s => Ok s | _ => Raise TypeError end.
Definition read_int (k : string) (d : list (string * json)) : result Z :=
  j ← dindex k d;
  match j with JInt z => Ok z | JBool b => Ok (if b then 1 else 0)%Z | _ => Raise TypeError end.

Lemma num_value_eq_refl j q : num_value j = Some q -> Qeq_bool q q = true.
Proof. intros _. by apply Qeq_bool_iff. Qed.

(** An object as [json_decode] builds it has no duplicate key, at any depth. *)
Fixpoint json_wf (j : json) : Prop :=
  match j with
  | JList l => (fix go l := match l with [] => True | x :: l => json_wf x /\ go l end) l
  | JObj d => dwf d /\
      (fix go d := match d with [] => True | (_, v) :: d => json_wf v /\ go d end) d
  | _ => True
  end.

Lemma py_eq_refl j : json_wf j -> py_eq j j = true.
Proof.
  induction j as [| | | | |l IH|d IH] using json_ind'; simpl; try (intros; by apply Qeq_bool_iff).
  - done.
  - intros _. apply String.eqb_refl.
  - intros H. induction IH as [|x l Hx Hl IH]; simpl; [done|].
    destruct H as [Hw H]. rewrite Hx by done. by apply IH.
  - intros [Hnd H]. rewrite Nat.eqb_refl. simpl.
    assert (Hsub : forall d0, (forall k v, (k, v) ∈ d -> dget k d0 = Some v) ->
      (fix go d := match d with
        | [] => true
        | (k, v) :: d => match dget k d0 with Some v' => py_eq v v' | None => false end && go d
        end) d = true); [|apply Hsub; intros; by apply In_dget].
    clear Hnd. induction IH as [|[k v] d Hx Hl IH]; simpl; [done|]. intros d0 Hsub.
    destruct H as [Hw H]. rewrite (Hsub k v) by constructor. simpl in Hx. rewrite Hx by done.
    simpl. apply IH; [done|]. intros k' v' Hin. apply Hsub. by constructor.
Qed.

(** ** The JSON codec

    [utils.json_encode(..., binary=True, compact=True)] and [utils.json_decode] wrap the [json]
    module of the Python library; they are parameters, with what callers rely on as laws.
    [bytes_decode] is the method [decode()] of bytes: the text of UTF-8 bytes, or
    [UnicodeDecodeError]. *)
Class JsonCodec (bytes : Type) : Type := {
  json_encode : json -> bytes;
  json_decode : bytes -> result json;
  bytes_decode : bytes -> result string;
  empty_bytes : bytes;
  bytes_eq_dec :: EqDecision bytes;
}.

Class JsonCodecLaws (bytes : Type) `{!JsonCodec bytes} : Prop := {
  (** decoding keeps the order of the members, as dicts do *)
  decode_encode : forall j, json_wf j -> json_decode (json_encode j) = Ok j;
  encode_nonempty : forall j, json_encode j ≠ empty_bytes;
}.

Fixpoint json_eqb (a b : json) {struct a} : bool :=
  match a, b with
  | JNull, JNull => true
  | JBool x, JBool y => Bool.eqb x y
  | JInt x, JInt y => Z.eqb x y
  | JFloat x, JFloat y => Z.eqb (Qnum x) (Qnum y) && Pos.eqb (Qden x) (Qden y)
  | JStr x, JStr y => String.eqb x y
  | JList l, JList l' =>
      (fix go l l' := match l, l' with
        | [], [] => true
        | x :: l, y :: l' => json_eqb x y && go l l'
        | _, _ => false
        end) l l'
  | JObj d, JObj d' =>
      (fix go d d' := match d, d' with
        | [], [] => true
        | (k, x) :: d, (k', y) :: d' => String.eqb k k' && json_eqb x y && go d d'
        | _, _ => false
        end) d d'
  | _, _ => false
  end.

Lemma json_eqb_spec a b : json_eqb a b = true <-> a = b.
Proof.
  revert b; induction a as [| | | | |l IH|d IH] using json_ind'; intros [] ; simpl; try done.
  - rewrite Bool.eqb_true_iff. naive_solver.
  - rewrite Z.eqb_eq. naive_solver.
  - rewrite andb_true_iff, Z.eqb_eq, Pos.eqb_eq. destruct q, q0; simpl. naive_solver.
  - rewrite String.eqb_eq. naive_solver.
  - revert l0; induction IH as [|x l Hx Hl IH]; intros [|y l0]; try done.
    rewrite andb_true_iff, Hx, IH. naive_solver.
  - revert d0; induction IH as [|[k x] l Hx Hl IH]; intros [|[k' y] l0]; try done.
    simpl in Hx. rewrite !andb_true_iff, String.eqb_eq, Hx, IH. naive_solver.
Qed.

#[global] Instance json_eq_dec : EqDecision json.
Proof.
  intros a b. destruct (json_eqb a b) eqn:E; [left|right].
  - by apply json_eqb_spec.
  - intros H%json_eqb_spec. congruence.
Defined.

(** A codec that satisfies the laws: values as their own encoding. *)
#[global] Instance identity_codec : JsonCodec (option json) := {|
  json_encode := Some;
  json_decode b := match b with Some j => Ok j | None => Raise JSONDecodeError end;
  bytes_decode _ := Ok "decoded"%string;
  empty_bytes := None;
|}.

#[global] Instance identity_codec_laws : JsonCodecLaws (option json).
Proof. split; done. Qed.
