(* ===== verification/Typing.v ===== *)
(** * Versions, subjects, compatibility modes and schema types

    [core/typing.py], [core/schema_type.py], [core/compatibility/__init__.py] and the
    [Versioner] of [core/schema_models.py]. A [Version] object is its integer value; the
    constructor is [Version_init], which raises on values below -1. *)

From S2P Require Import Prelude Json.
Open Scope Z_scope.

Abbreviation Version := Z (only parsing).
Abbreviation SchemaId := Z (only parsing).
Abbreviation Subject := string (only parsing).

(** ** Version *)

Definition LATEST_VERSION_TAG : string := "latest".
Definition MINUS_1_VERSION_TAG : Z := -1.

(** [Version.__init__]: the argument must be an int (a bool is one) and at least -1. *)
Definition Version_init (v : json) : result Version :=
  match v with
  | JInt z => if z <? MINUS_1_VERSION_TAG then Raise InvalidVersion else Ok z
  | JBool b => Ok (if b then 1 else 0)
  | _ => Raise InvalidVersion
  end.

Definition is_latest (v : Version) : bool := v =? MINUS_1_VERSION_TAG.

(** ** Python's [int(str)] on base-10 literals: surrounding whitespace, a sign, digits with
    single underscores between them. *)

Definition digit_of (c : Ascii.ascii) : option Z :=
  let n := Z.of_nat (Ascii.nat_of_ascii c) in
  if (48 <=? n) && (n <=? 57) then Some (n - 48) else None.

Definition is_space (c : Ascii.ascii) : bool :=
  let n := Z.of_nat (Ascii.nat_of_ascii c) in
  ((9 <=? n) && (n <=? 13)) || ((28 <=? n) && (n <=? 32)) || (n =? 133) || (n =? 160).

Fixpoint lstrip (s : string) : string :=
  match s with
  | String c s' => if is_space c then lstrip s' else s
  | EmptyString => EmptyString
  end.

(** Digits of a literal; [prev] tells whether the previous character was a digit, and only
    trailing whitespace may follow the last digit. *)
Fixpoint parse_digits (acc : Z) (prev : bool) (s : string) : option Z :=
  match s with
  | EmptyString => if prev then Some acc else None
  | String c s' =>
      match digit_of c with
      | Some d => parse_digits (acc * 10 + d) true s'
      | None =>
          if Ascii.eqb c "_"%char then (if prev then parse_digits acc false s' else None)
          else if is_space c && prev && String.eqb (lstrip s') EmptyString then Some acc else None
      end
  end.

Definition py_int (s : string) : option Z :=
  match lstrip s with
  | String c s' =>
      if Ascii.eqb c "-"%char then Z.opp <$> parse_digits 0 false s'
      else if Ascii.eqb c "+"%char then parse_digits 0 false s'
      else parse_digits 0 false (String c s')
  | EmptyString => None
  end.

(** ** Versioner *)

(** [VersionTag = Union[str, int]] *)
Inductive VersionTag : Type :=
  | TagStr (s : string)
  | TagInt (z : Z).

Definition resolve_tag (tag : VersionTag) : result Z :=
  match tag with
  | TagInt z => Ok z
  | TagStr s =>
      if String.eqb s LATEST_VERSION_TAG then Ok MINUS_1_VERSION_TAG
      else match py_int s with Some z => Ok z | None => Raise ValueError end
  end.

Definition validate_tag (tag : VersionTag) : result () :=
  match resolve_tag tag with
  | Ok version =>
      if (version <? MINUS_1_VERSION_TAG) || (version =? 0) then Raise InvalidVersion else Ok ()
  | Raise ValueError =>
      match tag with
      | TagStr s => if String.eqb s LATEST_VERSION_TAG then Ok () else Raise InvalidVersion
      | TagInt _ => Raise InvalidVersion
      end
  | Raise e => Raise e
  end.

Definition Versioner_V (tag : VersionTag) : result Version :=
  _ ← validate_tag tag; z ← resolve_tag tag; Version_init (JInt z).

(** [max(d)] over the keys of a dict of versions; [max] of nothing is a [ValueError]. *)
Definition max_version (vs : list Version) : result Version :=
  match vs with
  | [] => Raise ValueError
  | v :: vs => Ok (fold_left Z.max vs v)
  end.

(** [Versioner.from_schema_versions]; [vs] are the keys of the mapping. *)
Definition from_schema_versions (vs : list Version) (version : Version) : result Version :=
  m ← max_version vs;
  if is_latest version then Ok m
  else if bool_decide (version ∈ vs) && (version <=? m) then Ok version
  else Raise VersionNotFoundException.

(** ** Subject *)

(** [Subject.validate]: no control characters. *)
Definition is_control (c : Ascii.ascii) : bool :=
  let n := Z.of_nat (Ascii.nat_of_ascii c) in (n <=? 31) || ((127 <=? n) && (n <=? 159)).

Definition Subject_validate (s : string) : result Subject :=
  if existsb is_control (String.list_ascii_of_string s) then Raise ValueError else Ok s.

(** ** CompatibilityModes *)

Inductive CompatibilityModes : Type :=
  | BACKWARD | BACKWARD_TRANSITIVE | FORWARD | FORWARD_TRANSITIVE
  | FULL | FULL_TRANSITIVE | NONE.

#[global] Instance CompatibilityModes_eq_dec : EqDecision CompatibilityModes.
Proof. solve_decision. Defined.

Definition mode_value (m : CompatibilityModes) : string :=
  match m with
  | BACKWARD => "BACKWARD" | BACKWARD_TRANSITIVE => "BACKWARD_TRANSITIVE"
  | FORWARD => "FORWARD" | FORWARD_TRANSITIVE => "FORWARD_TRANSITIVE"
  | FULL => "FULL" | FULL_TRANSITIVE => "FULL_TRANSITIVE" | NONE => "NONE"
  end.

Definition all_modes : list CompatibilityModes :=
  [BACKWARD; BACKWARD_TRANSITIVE; FORWARD; FORWARD_TRANSITIVE; FULL; FULL_TRANSITIVE; NONE].

(** [CompatibilityModes(value)] *)
Definition mode_of_string (s : string) : result CompatibilityModes :=
  match List.find (fun m => String.eqb (mode_value m) s) all_modes with
  | Some m => Ok m
  | None => Raise ValueError
  end.

Definition is_transitive (m : CompatibilityModes) : bool :=
  existsb (String.eqb (mode_value m))
    ["BACKWARD_TRANSITIVE"; "FORWARD_TRANSITIVE"; "FULL_TRANSITIVE"]%string.

(** ** SchemaType *)

Inductive SchemaType : Type := AVRO | JSONSCHEMA | PROTOBUF.

#[global] Instance SchemaType_eq_dec : EqDecision SchemaType.
Proof. solve_decision. Defined.

Definition schema_type_value (t : SchemaType) : string :=
  match t with AVRO => "AVRO" | JSONSCHEMA => "JSON" | PROTOBUF => "PROTOBUF" end.

(** [SchemaType(value)]: any JSON value that is not one of the three strings is a
    [ValueError]. *)
Definition schema_type_of_json (j : json) : result SchemaType :=
  match j with
  | JStr s =>
      if String.eqb s "AVRO" then Ok AVRO
      else if String.eqb s "JSON" then Ok JSONSCHEMA
      else if String.eqb s "PROTOBUF" then Ok PROTOBUF
      else Raise ValueError
  | _ => Raise ValueError
  end.

(** ** Lemmas *)

Lemma mode_of_string_value m : mode_of_string (mode_value m) = Ok m.
Proof. by destruct m. Qed.

Lemma schema_type_of_value t : schema_type_of_json (JStr (schema_type_value t)) = Ok t.
Proof. by destruct t. Qed.

Lemma fold_max_spec (vs : list Z) (v : Z) :
  let m := fold_left Z.max vs v in
  (m = v \/ m ∈ vs) /\ v <= m /\ forall x, x ∈ vs -> x <= m.
Proof.
  revert v; induction vs as [|w vs IH]; intros v; simpl.
  - split_and!; [by left|lia|]. intros x Hx. by apply elem_of_nil in Hx.
  - destruct (IH (Z.max v w)) as (H1 & H2 & H3). split_and!.
    + destruct H1 as [->|H1]; [|right; by constructor].
      destruct (Z.max_spec v w) as [[_ ->]|[_ ->]]; [right; by left|by left].
    + lia.
    + intros x [->|Hx]%elem_of_cons; [lia|auto].
Qed.

Lemma max_version_spec (vs : list Z) (m : Z) :
  max_version vs = Ok m -> m ∈ vs /\ forall x, x ∈ vs -> x <= m.
Proof.
  destruct vs as [|v vs]; simpl; [done|]. intros H; simplify_eq.
  destruct (fold_max_spec vs v) as (H1 & H2 & H3). split.
  - destruct H1 as [->|H1]; [by left|by right].
  - intros x [->|Hx]%elem_of_cons; auto.
Qed.

Lemma max_version_some (vs : list Z) : vs ≠ [] -> exists m, max_version vs = Ok m.
Proof. destruct vs; [done|]. simpl; eauto. Qed.

Lemma max_version_upper (vs : list Z) (m : Z) :
  m ∈ vs -> (forall x, x ∈ vs -> x <= m) -> max_version vs = Ok m.
Proof.
  intros Hin Hub. destruct (max_version_some vs) as [m' Hm'].
  - intros ->. by apply elem_of_nil in Hin.
  - rewrite Hm'. f_equal. apply max_version_spec in Hm' as [Hin' Hub'].
    specialize (Hub _ Hin'). specialize (Hub' _ Hin). lia.
Qed.

(** ** Properties *)

(** [Versioner.V] never lets another exception than [InvalidVersion] out, and accepts
    exactly the tag "latest" (as -1), the integer -1 and the integers from 1 up, written as
    ints or as text that [int()] accepts; there is no upper bound. *)
Theorem versioner_V_spec (tag : VersionTag) :
  match Versioner_V tag with
  | Ok v => resolve_tag tag = Ok v /\ (v = -1 \/ 1 <= v)
  | Raise e => e = InvalidVersion /\
      match resolve_tag tag with Ok v => v < -1 \/ v = 0 | Raise _ => True end
  end.
Proof.
  unfold Versioner_V, validate_tag. destruct (resolve_tag tag) as [v|e] eqn:E; simpl.
  - unfold MINUS_1_VERSION_TAG.
    destruct (Z.ltb_spec v (-1)); simpl; [split; [done|lia]|].
    destruct (Z.eqb_spec v 0); simpl; [split; [done|lia]|].
    unfold MINUS_1_VERSION_TAG. destruct (Z.ltb_spec v (-1)); [lia|]. split; [done|lia].
  - destruct tag as [s|z]; simpl in E; [|done].
    destruct (String.eqb s LATEST_VERSION_TAG) eqn:El; simpl in E; [done|].
    destruct (py_int s); simplify_eq/=. done.
Qed.

(** Resolving a version against the versions of a subject yields the greatest one for
    "latest", the version itself when the subject has it, and [VersionNotFoundException]
    otherwise; the answer is always a version of the subject. *)
Theorem from_schema_versions_spec (vs : list Z) (version : Z) :
  vs ≠ [] ->
  match from_schema_versions vs version with
  | Ok v => v ∈ vs /\
      (is_latest version = true -> forall x, x ∈ vs -> x <= v) /\
      (is_latest version = false -> v = version)
  | Raise e => e = VersionNotFoundException /\ is_latest version = false /\ version ∉ vs
  end.
Proof.
  intros Hne. unfold from_schema_versions.
  destruct (max_version_some vs Hne) as [m Hm]. rewrite Hm. simpl.
  destruct (max_version_spec _ _ Hm) as [Hin Hub].
  destruct (is_latest version) eqn:El; [by split_and!|].
  case_bool_decide as Hv; simpl; [|by split_and!].
  destruct (Z.leb_spec version m) as [|Hlt]; [by split_and!|].
  specialize (Hub _ Hv). lia.
Qed.

Lemma from_schema_versions_spec_witness :
  from_schema_versions [1; 4; 2] (-1) = Ok 4 /\
  match from_schema_versions [1; 4; 2] 3 with
  | Ok v => v ∈ [1; 4; 2] /\
      (is_latest 3 = true -> forall x, x ∈ [1; 4; 2] -> x <= v) /\ (is_latest 3 = false -> v = 3)
  | Raise e => e = VersionNotFoundException /\ is_latest 3 = false /\ 3 ∉ [1; 4; 2]
  end.
Proof.
  split; [reflexivity|]. apply (from_schema_versions_spec [1; 4; 2] 3). discriminate.
Defined.
