(* ===== verification/Models.v ===== *)
(** * References, dependencies and typed schemas

    [core/schema_references.py], [core/dependency.py] and the data classes of
    [core/schema_models.py]: [Reference]/[LatestVersionReference] and their dict form,
    [TypedSchema] with its equality and fingerprint, [Dependency], [SchemaVersion], and
    [avro_resolve], the iterative flattening of the dependency tree of an Avro schema. *)

From stdpp Require Import pretty.
From S2P Require Import Prelude Json Typing.
Open Scope Z_scope.

(** ** References *)

Record Reference : Type := mkReference {
  ref_name : string;
  ref_subject : Subject;
  ref_version : Version;
}.

#[global] Instance Reference_eq_dec : EqDecision Reference.
Proof. solve_decision. Defined.

(** A reference whose version is known, or the alias to the latest one. *)
Inductive AnyReference : Type :=
  | Resolved (r : Reference)
  | LatestVersionReference (name : string) (subject : Subject).

Definition LatestVersionReference_resolve (name : string) (subject : Subject) (v : Version)
  : Reference := mkReference name subject v.

Definition reference_subject (r : AnyReference) : Subject :=
  match r with Resolved r => ref_subject r | LatestVersionReference _ s => s end.

Definition reference_to_dict (r : Reference) : json :=
  JObj [("name", JStr (ref_name r)); ("subject", JStr (ref_subject r));
        ("version", JInt (ref_version r))].

(** [repr(reference)], the text that enters the fingerprint. *)
Definition reference_repr (r : Reference) : string :=
  ("{name='" +:+ ref_name r +:+ "', subject='" +:+ ref_subject r +:+ "', version="
   +:+ pretty (ref_version r) +:+ "}")%string.

Definition reference_from_mapping (data : list (string * json)) : result AnyReference :=
  name ← read_str "name" data;
  subject ← read_str "subject" data;
  version ← read_int "version" data;
  if version =? -1 then Ok (LatestVersionReference name subject)
  else v ← Version_init (JInt version); Ok (Resolved (mkReference name subject v)).

(** ** Typed schemas and dependencies *)

(** [TypedSchema]: type, normalised schema string, references and resolved dependencies.
    [Dependency]: a resolved reference together with the schema it names. *)
Inductive TypedSchema : Type := mkTyped {
  schema_type : SchemaType;
  schema_str : string;
  ts_references : option (list Reference);
  ts_dependencies : option (list (string * Dependency));
}
with Dependency : Type := mkDependency {
  dep_name : string;
  dep_subject : Subject;
  dep_version : Version;
  dep_schema : TypedSchema;
}.

(** [Dependency.of] *)
Definition Dependency_of (r : Reference) (target : TypedSchema) : Dependency :=
  mkDependency (ref_name r) (ref_subject r) (ref_version r) target.

(** [TypedSchema.__eq__]: type, string and references; dependencies do not enter it. *)
Definition typed_schema_eqb (a b : TypedSchema) : bool :=
  bool_decide (schema_type a = schema_type b) &&
  String.eqb (schema_str a) (schema_str b) &&
  bool_decide (ts_references a = ts_references b).

Definition schema_equiv (a b : TypedSchema) : Prop :=
  schema_type a = schema_type b /\ schema_str a = schema_str b /\
  ts_references a = ts_references b.

(** ["\n".join(...)] *)
Fixpoint join_with (sep : string) (l : list string) : string :=
  match l with
  | [] => ""
  | [x] => x
  | x :: l' => x +:+ sep +:+ join_with sep l'
  end%string.

Definition newline : string := String (Ascii.ascii_of_nat 10) EmptyString.

(** The text [fingerprint] hashes: the schema string followed by the references' [repr]s. *)
Definition fingerprint_str (s : TypedSchema) : string :=
  match ts_references s with
  | None => schema_str s
  | Some refs => (schema_str s +:+ join_with newline (map reference_repr refs))%string
  end.

(** [TypedSchema.fingerprint], over the hash function of [hashlib]. *)
Definition fingerprint (sha1 : string -> string) (s : TypedSchema) : string :=
  sha1 (fingerprint_str s).

(** [SchemaVersion] *)
Record SchemaVersion : Type := mkSchemaVersion {
  sv_subject : Subject;
  sv_version : Version;
  sv_deleted : bool;
  sv_schema_id : SchemaId;
  sv_schema : TypedSchema;
  sv_references : option (list Reference);
}.

(** [schema_version.deleted = True] *)
Definition mark_deleted (sv : SchemaVersion) : SchemaVersion :=
  mkSchemaVersion (sv_subject sv) (sv_version sv) true (sv_schema_id sv) (sv_schema sv)
    (sv_references sv).

(** ** avro_resolve *)

(** One iteration of the [while stack] loop. The Python list is used as a stack from its end;
    here the head of the list is the top. [merge] is kept newest first. *)
Definition resolve_frame : Type := string * option (list (string * Dependency)).

Definition dep_frame (nd : string * Dependency) : resolve_frame :=
  (schema_str (dep_schema nd.2), ts_dependencies (dep_schema nd.2)).

Definition avro_resolve_step (st : list resolve_frame * list string)
  : list resolve_frame * list string :=
  match st with
  | ([], merge) => ([], merge)
  | ((cur, Some (d :: ds)) :: stack, merge) =>
      (map dep_frame (d :: ds) ++ (cur, None) :: stack, merge)
  | ((cur, _) :: stack, merge) =>
      (stack, if bool_decide (cur ∈ merge) then merge else cur :: merge)
  end.

Fixpoint avro_resolve_loop (fuel : nat) (st : list resolve_frame * list string)
  : option (list string) :=
  match st with
  | ([], merge) => Some (rev merge)
  | _ => match fuel with
         | O => None
         | S fuel => avro_resolve_loop fuel (avro_resolve_step st)
         end
  end.

(** Pops the loop performs for a frame: one for itself, one more when it is pushed back
    below its dependencies. *)
Fixpoint schema_pops (s : TypedSchema) : nat :=
  match ts_dependencies s with
  | Some (d :: ds) => 2 + (fix go l := match l with
        | [] => 0
        | (_, d) :: l => schema_pops (dep_schema d) + go l
        end) (d :: ds)
  | _ => 1
  end%nat.

Definition deps_pops (deps : option (list (string * Dependency))) : nat :=
  match deps with
  | Some (d :: ds) => 2 + list_sum (map (fun nd => schema_pops (dep_schema nd.2)) (d :: ds))
  | _ => 1
  end%nat.

(** [avro_resolve(schema_str, dependencies)]; [norm] is
    [json_encode(json_decode(s), compact=True, sort_keys=True)] of the JSON library. *)
Definition avro_resolve (norm : string -> result string) (s : string)
  (deps : option (list (string * Dependency))) : result (option (list string)) :=
  s' ← norm s; Ok (avro_resolve_loop (deps_pops deps) ([(s', deps)], [])).

(** Reference definition: the post-order of the dependency tree, without repetition. *)
Fixpoint postorder (s : TypedSchema) : list string :=
  (match ts_dependencies s with
   | Some ds => (fix go l := match l with
        | [] => []
        | (_, d) :: l => postorder (dep_schema d) ++ go l
        end) ds
   | None => []
   end) ++ [schema_str s].

Definition deps_postorder (deps : option (list (string * Dependency))) : list string :=
  match deps with
  | Some ds => concat (map (fun nd => postorder (dep_schema nd.2)) ds)
  | None => []
  end.

(** First occurrences, in order, of the elements not already [seen]. *)
Fixpoint dedup (seen : list string) (l : list string) : list string :=
  match l with
  | [] => []
  | x :: l => if bool_decide (x ∈ seen) then dedup seen l else x :: dedup (x :: seen) l
  end.

(** ** Lemmas *)

Lemma typed_schema_eqb_spec a b : typed_schema_eqb a b = true <-> schema_equiv a b.
Proof.
  unfold typed_schema_eqb, schema_equiv.
  rewrite !andb_true_iff, !bool_decide_eq_true, String.eqb_eq. tauto.
Qed.

#[global] Instance schema_equiv_equivalence : Equivalence schema_equiv.
Proof. unfold schema_equiv; split; red; intuition congruence. Qed.

#[global] Instance fingerprint_proper sha1 : Proper (schema_equiv ==> eq) (fingerprint sha1).
Proof.
  intros a b (_ & Hs & Hr). unfold fingerprint, fingerprint_str. by rewrite Hs, Hr.
Qed.

Lemma schema_pops_deps s : schema_pops s = deps_pops (ts_dependencies s).
Proof.
  destruct s as [t str refs [[|d ds]|]]; simpl; [done| |done]. do 2 f_equal. destruct d; simpl.
  f_equal. induction ds as [|[n d'] ds IH]; simpl; [done|]. by rewrite IH.
Qed.

Lemma postorder_deps s :
  postorder s = deps_postorder (ts_dependencies s) ++ [schema_str s].
Proof.
  destruct s as [t str refs [ds|]]; simpl; [|done]. f_equal.
  induction ds as [|[n d'] ds IH]; simpl; [done|]. by rewrite IH.
Qed.

(** What a frame contributes to the output. *)
Definition frame_postorder (f : resolve_frame) : list string := deps_postorder f.2 ++ [f.1].
Definition frame_pops (f : resolve_frame) : nat := deps_pops f.2.

Lemma dedup_app seen l1 l2 :
  dedup seen (l1 ++ l2) = dedup seen l1 ++ dedup (rev (dedup seen l1) ++ seen) l2.
Proof.
  revert seen; induction l1 as [|x l1 IH]; intros seen; simpl; [done|].
  case_bool_decide; [done|]. simpl. rewrite IH. by rewrite <- app_assoc.
Qed.

Lemma frame_pops_dep nd : frame_pops (dep_frame nd) = schema_pops (dep_schema nd.2).
Proof. unfold frame_pops, dep_frame. simpl. by rewrite schema_pops_deps. Qed.

Lemma frame_postorder_dep nd : frame_postorder (dep_frame nd) = postorder (dep_schema nd.2).
Proof. unfold frame_postorder, dep_frame. simpl. by rewrite postorder_deps. Qed.

(** The loop, run on any stack with enough fuel, appends the de-duplicated post-orders of the
    frames to what has been merged already. *)
Lemma avro_resolve_loop_spec fuel stack merge :
  (list_sum (map frame_pops stack) <= fuel)%nat ->
  avro_resolve_loop fuel (stack, merge) =
    Some (rev merge ++ dedup merge (concat (map frame_postorder stack))).
Proof.
  revert stack merge; induction fuel as [|fuel IH]; intros [|[cur deps] stack] merge Hf;
    try (simpl; by rewrite app_nil_r).
  - exfalso. simpl in Hf. unfold frame_pops in Hf; simpl in Hf.
    destruct deps as [[|d ds]|]; simpl in Hf; lia.
  - change (avro_resolve_loop (S fuel) ?st) with (avro_resolve_loop fuel (avro_resolve_step st)).
    change (map ?f (?a :: ?l)) with (f a :: map f l) in *. rewrite concat_cons.
    assert (Hleaf : deps_postorder deps = [] -> deps_pops deps = 1%nat ->
      avro_resolve_loop fuel (stack, if bool_decide (cur ∈ merge) then merge else cur :: merge) =
      Some (rev merge ++ dedup merge (frame_postorder (cur, deps) ++ concat (map frame_postorder stack)))).
    { intros Hd Hp. unfold frame_postorder at 1. cbn [fst snd]. rewrite Hd. cbn [list_sum] in Hf.
      unfold frame_pops in Hf at 1. cbn [fst snd] in Hf. rewrite Hp in Hf.
      rewrite IH by (unfold list_sum in *; simpl in *; lia). simpl.
      case_bool_decide; [done|]. simpl. by rewrite <- app_assoc. }
    destruct deps as [[|d ds]|]; [by apply Hleaf| |by apply Hleaf].
    clear Hleaf. unfold avro_resolve_step.
    assert (Hpops : frame_pops (cur, Some (d :: ds)) =
      (2 + list_sum (map frame_pops (map dep_frame (d :: ds))))%nat).
    { rewrite map_map. by erewrite (map_ext (fun x => frame_pops _)) by apply frame_pops_dep. }
    assert (Hpost : frame_postorder (cur, Some (d :: ds)) =
      concat (map frame_postorder (map dep_frame (d :: ds))) ++ [cur]).
    { rewrite map_map. unfold frame_postorder at 1. cbn [fst snd deps_postorder]. do 2 f_equal.
      apply map_ext. intros nd. by rewrite frame_postorder_dep. }
    set (fs := map dep_frame (d :: ds)) in *. clearbody fs.
    rewrite IH; clear IH.
    + do 3 f_equal. rewrite map_app, concat_app, Hpost, <- app_assoc. done.
    + revert Hf. rewrite map_app, list_sum_app.
      change (list_sum (?a :: ?l)) with (a + list_sum l)%nat. rewrite Hpops.
      change (map frame_pops ((cur, None) :: stack)) with (1%nat :: map frame_pops stack).
      change (list_sum (?a :: ?l)) with (a + list_sum l)%nat. lia.
Qed.

Lemma dedup_NoDup seen l : NoDup (dedup seen l) /\ (forall x, x ∈ dedup seen l <-> x ∈ l /\ x ∉ seen).
Proof.
  revert seen; induction l as [|y l IH]; intros seen; simpl.
  - split; [constructor|]. intros x. rewrite elem_of_nil. tauto.
  - case_bool_decide as Hy.
    + destruct (IH seen) as [H1 H2]. split; [done|]. intros x. rewrite H2, elem_of_cons.
      naive_solver.
    + destruct (IH (y :: seen)) as [H1 H2]. split.
      * apply NoDup_cons. split; [|done]. rewrite H2, elem_of_cons. tauto.
      * intros x. rewrite !elem_of_cons, H2, elem_of_cons.
        destruct (decide (x = y)); naive_solver.
Qed.

(** ** Properties *)

(** [avro_resolve] terminates on every dependency tree and returns the post-order of that
    tree with repetitions removed, the schema itself at its end unless it was already met as a
    dependency: every dependency's schema string is in the output, once. *)
Theorem avro_resolve_postorder norm s s' deps :
  norm s = Ok s' ->
  exists l, avro_resolve norm s deps = Ok (Some l) /\
    l = dedup [] (deps_postorder deps ++ [s']) /\
    NoDup l /\ (forall x, x ∈ l <-> x ∈ deps_postorder deps \/ x = s').
Proof.
  intros Hn. unfold avro_resolve. rewrite Hn. simpl.
  destruct (dedup_NoDup [] (deps_postorder deps ++ [s'])) as [Hnd Hin].
  exists (dedup [] (deps_postorder deps ++ [s'])). split_and!; [|done|done|].
  - rewrite avro_resolve_loop_spec by (unfold frame_pops; simpl; lia).
    simpl. by rewrite app_nil_r.
  - intros x. rewrite Hin, elem_of_app, list_elem_of_singleton.
    pose proof (not_elem_of_nil x). tauto.
Qed.

Lemma avro_resolve_postorder_witness :
  let leaf := mkTyped AVRO "L" None None in
  let mid := mkTyped AVRO "M" None (Some [("l", mkDependency "l" "s" 1 leaf)]) in
  let deps := Some [("m", mkDependency "m" "t" 1 mid); ("l", mkDependency "l" "s" 1 leaf)] in
  avro_resolve Ok "R" deps = Ok (Some ["L"; "M"; "R"]%string) /\
  exists l, avro_resolve Ok "R" deps = Ok (Some l) /\
    l = dedup [] (deps_postorder deps ++ ["R"%string]) /\
    NoDup l /\ (forall x, x ∈ l <-> x ∈ deps_postorder deps \/ x = "R"%string).
Proof.
  intros leaf mid deps. split; [vm_compute; reflexivity|].
  apply (avro_resolve_postorder Ok "R" "R" deps). reflexivity.
Defined.

(** A resolved reference survives the dict form written to the topic and read back by
    [reference_from_mapping], for every version a [Version] can hold except the alias -1. *)
Theorem reference_roundtrip (r : Reference) d :
  0 <= ref_version r -> reference_to_dict r = JObj d ->
  reference_from_mapping d = Ok (Resolved r).
Proof.
  intros Hv Hd. unfold reference_to_dict in Hd. simplify_eq.
  destruct r as [n s v]; simpl in *. unfold reference_from_mapping, read_str, read_int, dindex.
  simpl. destruct (Z.eqb_spec v (-1)); [lia|].
  unfold MINUS_1_VERSION_TAG. destruct (Z.ltb_spec v (-1)); [lia|done].
Qed.

Lemma reference_roundtrip_witness :
  reference_from_mapping
    [("name", JStr "n"); ("subject", JStr "s"); ("version", JInt 3)]%string
  = Ok (Resolved (mkReference "n" "s" 3)).
Proof.
  apply (reference_roundtrip (mkReference "n" "s" 3)); [simpl; lia | reflexivity].
Defined.
