(* ===== verification/Schemas.v ===== *)
(** * Parsing schemas

    The [parse] function of [core/schema_models.py] and the constructors of [TypedSchema],
    [ParsedTypedSchema] and [ValidatedTypedSchema], over the libraries that read schema texts:
    the [json] module, the Avro library, [jsonschema]'s Draft 7 validator, and the protobuf
    parser, which [ProtobufText] composes from the parts of [core/protobuf]. A parsed protobuf schema
    is kept as the outcome of printing it, any other as mere success. *)

From S2P Require Import Prelude Json Typing Models.
Open Scope Z_scope.

Abbreviation Dependencies := (dict string Dependency) (only parsing).

Class SchemaLib : Type := {
  sha1 : string -> string;
  (** [json.dumps(json_decode(s), sort_keys=True)] *)
  json_dumps_sorted : string -> result string;
  (** [json_encode(json_decode(s), compact=True, sort_keys=True)] *)
  normalize_json : string -> result string;
  (** [make_avsc_object] over a list of texts sharing one set of names; [str] of the last *)
  avro_merge_schemas : bool -> bool -> list string -> result string;
  (** [parse_avro_schema_definition(s, validate_enum_symbols, validate_names)] *)
  parse_avro_schema_definition : string -> bool -> bool -> result ();
  (** [parse_jsonschema_definition(s)] *)
  parse_jsonschema_definition : string -> result ();
  (** [parse_protobuf_schema_definition(s, references, dependencies, validate_references,
      normalize, use_protobuf_formatter)]: the schema it returns is what [str] of it gives *)
  parse_protobuf_schema_definition : string -> option (list Reference) -> option Dependencies ->
    bool -> bool -> bool -> result (result string);
}.

Section Schemas.
Context `{!SchemaLib}.

(** [TypedSchema.normalize_schema_str]; [schema] is what the parsed protobuf schema prints when
    the caller passes one. *)
Definition normalize_schema_str (schema_str : string) (schema_type : SchemaType)
  (schema : option (result string)) : result string :=
  match schema_type with
  | AVRO | JSONSCHEMA => normalize_json schema_str
  | PROTOBUF =>
      match schema with
      | Some s => s
      | None => s ← parse_protobuf_schema_definition schema_str None None false false false; s
      end
  end.

(** [TypedSchema.__init__] *)
Definition TypedSchema_init (schema_type : SchemaType) (schema_str : string)
  (schema : option (result string)) (references : option (list Reference))
  (dependencies : option Dependencies) : result TypedSchema :=
  s ← normalize_schema_str schema_str schema_type schema;
  Ok (mkTyped schema_type s references dependencies).

(** The exceptions each branch of [parse] turns into [InvalidSchema]. *)
Definition avro_parse_errors (e : exn) : bool :=
  match e with SchemaParseException | JSONDecodeError | TypeError => true | _ => false end.
Definition jsonschema_parse_errors (e : exn) : bool :=
  match e with TypeError | JSONDecodeError | SchemaError | AssertionError => true | _ => false end.
Definition protobuf_parse_errors (e : exn) : bool :=
  is_protobuf_exception e ||
  match e with TypeError | SchemaError | AssertionError => true | _ => false end.

(** The text given to the Avro parser: the schema itself, or the last of the schemas it
    resolves to. *)
Definition avro_merged_str (schema_str : string) (enum_symbols names : bool)
  (dependencies : option Dependencies) : result string :=
  match dependencies with
  | None | Some [] => Ok schema_str
  | Some _ =>
      schemas_list ← avro_resolve normalize_json schema_str dependencies;
      match schemas_list with
      | Some l => avro_merge_schemas enum_symbols names l
      | None => Raise RuntimeError
      end
  end.

Definition parse (schema_type : SchemaType) (schema_str : string)
  (validate_avro_enum_symbols validate_avro_names : bool) (references : option (list Reference))
  (dependencies : option Dependencies) (normalize use_protobuf_formatter : bool)
  : result TypedSchema :=
  match schema_type with
  | AVRO =>
      reraise avro_parse_errors InvalidSchema
        (merged ← avro_merged_str schema_str validate_avro_enum_symbols validate_avro_names dependencies;
         _ ← parse_avro_schema_definition merged validate_avro_enum_symbols validate_avro_names;
         TypedSchema_init AVRO schema_str None references dependencies)
  | JSONSCHEMA =>
      _ ← reraise jsonschema_parse_errors InvalidSchema (parse_jsonschema_definition schema_str);
      TypedSchema_init JSONSCHEMA schema_str None references dependencies
  | PROTOBUF =>
      parsed ← reraise protobuf_parse_errors InvalidSchema
        (parse_protobuf_schema_definition schema_str references dependencies true normalize
           use_protobuf_formatter);
      TypedSchema_init PROTOBUF schema_str (Some parsed) references dependencies
  end.

(** [ValidatedTypedSchema.parse] and [ParsedTypedSchema.parse] with their default flags. *)
Definition validated_parse (schema_type : SchemaType) (schema_str : string)
  (references : option (list Reference)) (dependencies : option Dependencies)
  : result TypedSchema :=
  parse schema_type schema_str true true references dependencies false false.

Definition parsed_parse (schema_type : SchemaType) (schema_str : string)
  (references : option (list Reference)) (dependencies : option Dependencies)
  : result TypedSchema :=
  parse schema_type schema_str false false references dependencies false false.
End Schemas.

(** ** What is assumed of the libraries, where a theorem needs it *)

(** Re-encoding: normalising an already normalised text, or what the reader re-encodes from
    it, gives it back. *)
Class SchemaLibNorm `{!SchemaLib} : Prop := {
  normalize_dumps : forall s s', normalize_json s = Ok s' ->
    exists d, json_dumps_sorted s' = Ok d /\ normalize_json d = Ok s';
}.

(** A protobuf schema whose printed text reads back and prints as itself *)
Definition reprints `{!SchemaLib} (sch : TypedSchema) : Prop :=
  schema_type sch = PROTOBUF ->
  parse_protobuf_schema_definition (schema_str sch) (ts_references sch) (ts_dependencies sch) false false false =
    Ok (Ok (schema_str sch)).

(** What the parser of protobuf texts, and the printer of what it returns, raise beside the
    exceptions the callers name: a [ValueError] for a text that is not ASCII or names an unknown syntax,
    and for a text that decodes as base64 whatever reading it as a descriptor raises. *)
Definition text_error (e : exn) : Prop :=
  e = ValueError \/ e ∈ [AttributeError; DecodeError; IndexError; NotImplementedError; OtherError].
Definition text_failure (e : exn) : Prop := e = TypeError \/ is_protobuf_exception e = true \/ text_error e.

(** The documented exceptions of each library call. *)
Class SchemaLibErrors `{!SchemaLib} : Prop := {
  json_dumps_sorted_raises s : raises_res (fun e => e = JSONDecodeError) (json_dumps_sorted s);
  normalize_json_raises s : raises_res (fun e => e = JSONDecodeError) (normalize_json s);
  avro_merge_raises a b l : raises_res (fun e => avro_parse_errors e = true) (avro_merge_schemas a b l);
  parse_avro_raises s a b :
    raises_res (fun e => avro_parse_errors e = true) (parse_avro_schema_definition s a b);
  parse_jsonschema_raises s :
    raises_res (fun e => jsonschema_parse_errors e = true) (parse_jsonschema_definition s);
  parse_protobuf_raises s r d v n f :
    raises_res (fun e => e = InvalidSchema \/ e = TypeError \/ is_protobuf_exception e = true \/ text_error e)
      (parse_protobuf_schema_definition s r d v n f);
  print_protobuf_raises s r d v n f p : parse_protobuf_schema_definition s r d v n f = Ok p ->
    raises_res text_failure p;
}.

(** ** Lemmas *)

Lemma text_failure_bounded e : text_failure e -> e ≠ RecursionError.
Proof. intros [->|[He|[->|He]]]; [done| |done|]; intros ->; [done|set_solver]. Qed.

Section lemmas.
Context `{!SchemaLib} `{!SchemaLibErrors}.

Lemma avro_resolve_total s deps :
  raises_res (fun e => e = JSONDecodeError) (avro_resolve normalize_json s deps) /\
  avro_resolve normalize_json s deps ≠ Ok None.
Proof.
  unfold avro_resolve. pose proof (normalize_json_raises s) as Hn.
  destruct (normalize_json s) as [s'|e]; simpl.
  - split; [done|]. rewrite avro_resolve_loop_spec by (unfold frame_pops; simpl; lia). done.
  - split; [|done]. intros e' [= <-]. by apply Hn.
Qed.

Lemma avro_merged_raises s a b deps :
  raises_res (fun e => avro_parse_errors e = true) (avro_merged_str s a b deps).
Proof.
  unfold avro_merged_str. destruct deps as [[|d deps]|]; [done| |done].
  destruct (avro_resolve_total s (Some (d :: deps))) as [Hr Hn].
  destruct (avro_resolve normalize_json s _) as [[l|]|e] eqn:E; simpl; [|done|].
  - apply avro_merge_raises.
  - intros e' [= <-]. by rewrite (Hr e).
Qed.
End lemmas.

Lemma parse_cases `{!SchemaLib} `{!SchemaLibErrors} t s a b refs deps n f :
  match parse t s a b refs deps n f with
  | Ok sch => schema_type sch = t /\ ts_references sch = refs /\ ts_dependencies sch = deps /\
      (t ≠ PROTOBUF -> normalize_json s = Ok (schema_str sch))
  | Raise e => e = InvalidSchema \/ (t = JSONSCHEMA /\ e = JSONDecodeError) \/ (t = PROTOBUF /\ text_failure e)
  end.
Proof.
  pose proof (avro_merged_raises s a b deps) as Hm. pose proof (normalize_json_raises s) as Hn.
  pose proof (parse_jsonschema_raises s) as Hj.
  pose proof (parse_protobuf_raises s refs deps true n f) as Hp.
  unfold parse, TypedSchema_init, normalize_schema_str. destruct t; simpl.
  - destruct (avro_merged_str s a b deps) as [m|e]; simpl; [|rewrite (Hm e) by done; auto].
    pose proof (parse_avro_raises m a b) as Ha.
    destruct (parse_avro_schema_definition m a b) as [[]|e]; simpl; [|rewrite (Ha e) by done; auto].
    destruct (normalize_json s) as [s'|e]; simpl; [by split_and!|]. rewrite (Hn e) by done. simpl. auto.
  - destruct (parse_jsonschema_definition s) as [[]|e]; simpl; [|rewrite (Hj e) by done; simpl; auto].
    destruct (normalize_json s) as [s'|e]; simpl; [by split_and!|]. rewrite (Hn e) by done. simpl. auto.
  - pose proof (print_protobuf_raises s refs deps true n f) as Hs.
    destruct (parse_protobuf_schema_definition s refs deps true n f) as [p|e]; simpl.
    + specialize (Hs _ eq_refl). destruct p as [p|e]; simpl; [by split_and!|]. do 2 right. split; [done|]. by apply Hs.
    + destruct (protobuf_parse_errors e) eqn:Ee; [by left|]. unfold protobuf_parse_errors in Ee.
      destruct (Hp e eq_refl) as [->|[->|[He|He]]]; [by left|done|by rewrite He in Ee|].
      do 2 right. split; [done|]. by do 2 right.
Qed.

(** ** Properties *)

(** Whatever text is submitted, [parse] fails with [InvalidSchema], or for JSON Schema possibly with the
    decoding error of the second normalisation, or for protobuf with an exception of the reading of
    descriptors, of the printing or a [ValueError] that its handlers leave out; the schema it returns has the
    requested type, references and dependencies, and its text is the normalised one. *)
Theorem parse_outcome `{!SchemaLib} `{!SchemaLibErrors} t s a b refs deps n f :
  match parse t s a b refs deps n f with
  | Ok sch => schema_type sch = t /\ ts_references sch = refs /\ ts_dependencies sch = deps /\
      (t ≠ PROTOBUF -> normalize_json s = Ok (schema_str sch))
  | Raise e => e = InvalidSchema \/ (t = JSONSCHEMA /\ e = JSONDecodeError) \/ (t = PROTOBUF /\ text_failure e)
  end.
Proof. apply parse_cases. Qed.

(** A library in which every text is a schema and its own normal form. *)
#[global] Instance trivial_lib : SchemaLib := {|
  sha1 := id;
  json_dumps_sorted := Ok;
  normalize_json := Ok;
  avro_merge_schemas _ _ l := Ok (default "" (last l));
  parse_avro_schema_definition _ _ _ := Ok ();
  parse_jsonschema_definition _ := Ok ();
  parse_protobuf_schema_definition s _ _ _ _ _ := Ok (Ok s);
|}.

#[global] Instance trivial_lib_norm : @SchemaLibNorm trivial_lib.
Proof. split. intros s s' [= <-]. by exists s. Qed.

#[global] Instance trivial_lib_errors : @SchemaLibErrors trivial_lib.
Proof. split; try done. by intros ??????? [= <-]. Qed.

Lemma parse_outcome_witness :
  match @parse trivial_lib AVRO "x" true true None None false false with
  | Ok sch => schema_type sch = AVRO /\ ts_references sch = None /\ ts_dependencies sch = None /\
      (AVRO ≠ PROTOBUF -> @normalize_json trivial_lib "x" = Ok (schema_str sch))
  | Raise e => e = InvalidSchema \/ (AVRO = JSONSCHEMA /\ e = JSONDecodeError) \/ (AVRO = PROTOBUF /\ text_failure e)
  end.
Proof.
  apply (@parse_outcome trivial_lib trivial_lib_errors AVRO "x" true true None None false false).
Defined.
