(* ===== verification/Database.v ===== *)
(** * The in-memory database of schemas and subjects

    [core/in_memory_database.py]. The state is a record with the attributes of
    [InMemoryDatabase]; [subjects], [SubjectData.schemas] and [schemas] are Python dicts whose
    insertion order is observable (listing, "last" version, first match), so they are ordered
    association lists; the two fingerprint maps and [referenced_by] are only looked up, so
    they are finite maps. Locks are not state: every operation is atomic here, as the code
    makes it by holding [schema_lock_thread]. [find_subject_schemas(include_deleted=True)]
    returns the live dict in Python; its callers copy it before any message is sent, so a value
    is returned here. The hash function is a parameter.

    [KarapaceDatabase], the abstract base class, is the type class through which the schema
    reader uses a database. *)

From S2P Require Import Prelude Json Typing Models.
Open Scope Z_scope.

Record SubjectData : Type := mkSubjectData {
  sd_schemas : dict Version SchemaVersion;
  sd_compatibility : option string;
}.

Definition SubjectData_init : SubjectData := mkSubjectData [] None.

Definition set_schemas (d : dict Version SchemaVersion) (sd : SubjectData) : SubjectData :=
  mkSubjectData d (sd_compatibility sd).
Definition set_compatibility (c : option string) (sd : SubjectData) : SubjectData :=
  mkSubjectData (sd_schemas sd) c.

Abbreviation Referents := (gset Z) (only parsing).

Record InMemoryDatabase : Type := mkDB {
  global_schema_id : SchemaId;
  subjects : dict Subject SubjectData;
  schemas : dict SchemaId TypedSchema;
  referenced_by : gmap (string * Z) (gset Z);
  hash_to_schema : gmap string TypedSchema;
  hash_to_schema_id_on_subject : gmap string (gmap string Z);
}.

Definition InMemoryDatabase_init : InMemoryDatabase := mkDB 0 [] [] ∅ ∅ ∅.

(** Attribute assignment. *)
Definition with_global_schema_id v db :=
  mkDB v (subjects db) (schemas db) (referenced_by db) (hash_to_schema db)
    (hash_to_schema_id_on_subject db).
Definition with_subjects v db :=
  mkDB (global_schema_id db) v (schemas db) (referenced_by db) (hash_to_schema db)
    (hash_to_schema_id_on_subject db).
Definition with_schemas v db :=
  mkDB (global_schema_id db) (subjects db) v (referenced_by db) (hash_to_schema db)
    (hash_to_schema_id_on_subject db).
Definition with_referenced_by v db :=
  mkDB (global_schema_id db) (subjects db) (schemas db) v (hash_to_schema db)
    (hash_to_schema_id_on_subject db).
Definition with_hash_to_schema v db :=
  mkDB (global_schema_id db) (subjects db) (schemas db) (referenced_by db) v
    (hash_to_schema_id_on_subject db).
Definition with_fingerprints v db :=
  mkDB (global_schema_id db) (subjects db) (schemas db) (referenced_by db)
    (hash_to_schema db) v.

Section Operations.
Context (sha1 : string -> string).

(** ** Schema ids *)

Definition get_schema_id_from_storage (db : InMemoryDatabase) (new_schema : TypedSchema)
  : option SchemaId :=
  fst <$> List.find (fun kv => typed_schema_eqb kv.2 new_schema) (schemas db).

Definition get_schema_id (db : InMemoryDatabase) (new_schema : TypedSchema)
  : InMemoryDatabase * SchemaId :=
  match get_schema_id_from_storage db new_schema with
  | Some i => (db, i)
  | None => let i := global_schema_id db + 1 in (with_global_schema_id i db, i)
  end.

Definition get_schema_id_if_exists (db : InMemoryDatabase) (subject : Subject)
  (schema : TypedSchema) (include_deleted : bool) : option SchemaId :=
  match hash_to_schema_id_on_subject db !! subject with
  | Some m => m !! fingerprint sha1 schema
  | None => None
  end.

Definition set_schema_id_on_subject (subject : Subject) (schema : TypedSchema)
  (schema_id : SchemaId) (db : InMemoryDatabase) : InMemoryDatabase :=
  let m := default ∅ (hash_to_schema_id_on_subject db !! subject) in
  with_fingerprints
    (<[subject := <[fingerprint sha1 schema := schema_id]> m]> (hash_to_schema_id_on_subject db)) db.

Definition delete_from_schema_id_on_subject (subject : Subject) (schema : TypedSchema)
  (db : InMemoryDatabase) : InMemoryDatabase :=
  match hash_to_schema_id_on_subject db !! subject with
  | Some m =>
      let m' := delete (fingerprint sha1 schema) m in
      with_fingerprints
        (if bool_decide (m' = ∅) then delete subject (hash_to_schema_id_on_subject db)
         else <[subject := m']> (hash_to_schema_id_on_subject db)) db
  | None => db
  end.

Definition delete_subject_from_schema_id_on_subject (subject : Subject)
  (db : InMemoryDatabase) : InMemoryDatabase :=
  with_fingerprints (delete subject (hash_to_schema_id_on_subject db)) db.

(** [setdefault]: the schema already cached under the fingerprint, or this one. *)
Definition get_from_hash_cache (db : InMemoryDatabase) (schema : TypedSchema)
  : InMemoryDatabase * TypedSchema :=
  match hash_to_schema db !! fingerprint sha1 schema with
  | Some s => (db, s)
  | None => (with_hash_to_schema (<[fingerprint sha1 schema := schema]> (hash_to_schema db)) db,
             schema)
  end.

(** ** References between schemas *)

Definition insert_referenced_by (subject : Subject) (version : Version) (schema_id : SchemaId)
  (db : InMemoryDatabase) : InMemoryDatabase :=
  with_referenced_by
    (<[(subject, version) := {[schema_id]} ∪ default ∅ (referenced_by db !! (subject, version))]>
       (referenced_by db)) db.

Definition get_referenced_by (db : InMemoryDatabase) (subject : Subject) (version : Version)
  : option Referents := referenced_by db !! (subject, version).

Definition remove_referenced_by_one (schema_id : SchemaId) (db : InMemoryDatabase)
  (ref : Reference) : InMemoryDatabase :=
  let key := (ref_subject ref, ref_version ref) in
  match referenced_by db !! key with
  | Some s => if bool_decide (schema_id ∈ s)
              then with_referenced_by (<[key := s ∖ {[schema_id]}]> (referenced_by db)) db
              else db
  | None => db
  end.

Definition remove_referenced_by (schema_id : SchemaId) (references : list Reference)
  (db : InMemoryDatabase) : InMemoryDatabase :=
  fold_left (remove_referenced_by_one schema_id) references db.

(** [if references: self._remove_referenced_by(...)] *)
Definition remove_references_of (db : InMemoryDatabase) (sv : SchemaVersion)
  : InMemoryDatabase :=
  remove_referenced_by (sv_schema_id sv) (default [] (sv_references sv)) db.

(** ** Subjects and versions *)

Definition find_subject (db : InMemoryDatabase) (subject : Subject) : option Subject :=
  if din subject (subjects db) then Some subject else None.

Definition insert_subject (subject : Subject) (db : InMemoryDatabase) : InMemoryDatabase :=
  with_subjects (dsetdefault subject SubjectData_init (subjects db)) db.

Definition get_next_version (db : InMemoryDatabase) (subject : Subject) : result Version :=
  sd ← dindex subject (subjects db);
  m ← max_version (dkeys (sd_schemas sd));
  Versioner_V (TagInt (m + 1)).

(** The tail of [insert_schema_version]: a live version is indexed by its fingerprint and
    registered with the schemas it references, a deleted one leaves the index. *)
Definition index_schema_version (subject : Subject) (schema_id : SchemaId) (deleted : bool)
  (schema : TypedSchema) (references : option (list Reference)) (db : InMemoryDatabase)
  : InMemoryDatabase :=
  if negb deleted then
    let db := set_schema_id_on_subject subject schema schema_id db in
    fold_left (fun db ref => insert_referenced_by (ref_subject ref) (ref_version ref) schema_id db)
      (default [] references) db
  else delete_from_schema_id_on_subject subject schema db.

Definition insert_schema_version (subject : Subject) (schema_id : SchemaId)
  (version : Version) (deleted : bool) (schema : TypedSchema)
  (references : option (list Reference)) (db : InMemoryDatabase) : InMemoryDatabase :=
  let db := with_global_schema_id (Z.max (global_schema_id db) schema_id) db in
  let '(db, schema) := get_from_hash_cache db schema in
  let db := match find_subject db subject with
            | None => insert_subject subject db
            | Some _ => db
            end in
  let db := with_schemas (dset schema_id schema (schemas db)) db in
  let sv := mkSchemaVersion subject version deleted schema_id schema references in
  let db := with_subjects
    (dupdate (fun sd => set_schemas (dset version sv (sd_schemas sd)) sd) subject (subjects db)) db in
  index_schema_version subject schema_id deleted schema references db.

Definition get_subject_compatibility (db : InMemoryDatabase) (subject : Subject)
  : option string :=
  sd ← dget subject (subjects db); sd_compatibility sd.

Definition delete_subject_compatibility (subject : Subject) (db : InMemoryDatabase)
  : InMemoryDatabase :=
  with_subjects (dupdate (set_compatibility None) subject (subjects db)) db.

Definition set_subject_compatibility (subject : Subject) (compatibility : string)
  (db : InMemoryDatabase) : InMemoryDatabase :=
  with_subjects (dupdate (set_compatibility (Some compatibility)) subject (subjects db)) db.

Definition find_schema (db : InMemoryDatabase) (schema_id : SchemaId) : result TypedSchema :=
  dindex schema_id (schemas db).

(** [not schema.deleted], the list comprehension's filter. *)
Definition live (sv : SchemaVersion) : bool := negb (sv_deleted sv).

Definition find_schemas (db : InMemoryDatabase) (include_deleted latest_only : bool)
  : dict Subject (list SchemaVersion) :=
  dmap (fun sd =>
    let schemas := dvalues (sd_schemas sd) in
    let selected :=
      if latest_only && (0 <? Z.of_nat (length schemas))
      then match last schemas with Some sv => [sv] | None => [] end
      else schemas in
    if include_deleted then List.filter live selected else selected) (subjects db).

Definition subjects_for_schema (db : InMemoryDatabase) (schema_id : SchemaId)
  : list Subject :=
  dkeys (dfilter (fun sd =>
    existsb (fun sv => live sv && (sv_schema_id sv =? schema_id)) (dvalues (sd_schemas sd)))
    (subjects db)).

Definition find_subject_schemas (db : InMemoryDatabase) (subject : Subject)
  (include_deleted : bool) : dict Version SchemaVersion :=
  match dget subject (subjects db) with
  | None => []
  | Some sd => if include_deleted then sd_schemas sd else dfilter live (sd_schemas sd)
  end.

Definition find_schema_versions_by_schema_id (db : InMemoryDatabase) (schema_id : SchemaId)
  (include_deleted : bool) : list SchemaVersion :=
  concat (map (fun subject =>
    List.filter (fun sv => sv_schema_id sv =? schema_id)
      (dvalues (find_subject_schemas db subject include_deleted))) (dkeys (subjects db))).

Definition find_subjects (db : InMemoryDatabase) (include_deleted : bool) : list Subject :=
  if include_deleted then dkeys (subjects db)
  else List.filter (fun s =>
    match find_subject_schemas db s false with [] => false | _ => true end) (dkeys (subjects db)).

(** ** Deletion *)

(** [delete_subject]: versions up to [version] are marked; every version's fingerprint is
    dropped from the index, marked or not. *)
Definition delete_subject (subject : Subject) (version : Version) (db : InMemoryDatabase)
  : result InMemoryDatabase :=
  sd ← dindex subject (subjects db);
  let db := with_subjects
    (dupdate (fun sd => set_schemas (dmap (fun sv =>
        if sv_version sv <=? version then mark_deleted sv else sv) (sd_schemas sd)) sd)
      subject (subjects db)) db in
  Ok (fold_left (fun db sv => delete_from_schema_id_on_subject subject (sv_schema sv) db)
    (dvalues (sd_schemas sd)) db).

Definition delete_subject_hard (subject : Subject) (db : InMemoryDatabase)
  : result InMemoryDatabase :=
  sd ← dindex subject (subjects db);
  let db := fold_left remove_references_of (dvalues (sd_schemas sd)) db in
  let db := with_subjects (ddel subject (subjects db)) db in
  Ok (delete_subject_from_schema_id_on_subject subject db).

Definition delete_subject_schema (subject : Subject) (version : Version)
  (db : InMemoryDatabase) : result InMemoryDatabase :=
  sd ← dindex subject (subjects db);
  match dget version (sd_schemas sd) with
  | None => Ok db
  | Some sv =>
      let db := with_subjects
        (dupdate (fun sd => set_schemas (ddel version (sd_schemas sd)) sd) subject (subjects db)) db in
      let db := remove_references_of db sv in
      Ok (delete_from_schema_id_on_subject subject (sv_schema sv) db)
  end.

(** ** Counters *)

Definition num_schemas (db : InMemoryDatabase) : nat := length (schemas db).
Definition num_subjects (db : InMemoryDatabase) : nat := length (subjects db).
Definition num_schema_versions (db : InMemoryDatabase) : nat * nat :=
  fold_left (fun '(l, d) sv => if live sv then (S l, d) else (l, S d))
    (concat (map (fun sd => dvalues (sd_schemas sd)) (dvalues (subjects db)))) (O, O).
End Operations.

(** ** The abstract base class [KarapaceDatabase] *)

Class KarapaceDatabase (DB : Type) : Type := {
  db_get_schema_id : DB -> TypedSchema -> DB * SchemaId;
  db_get_schema_id_if_exists : DB -> Subject -> TypedSchema -> bool -> option SchemaId;
  db_get_next_version : DB -> Subject -> result Version;
  db_insert_schema_version :
    Subject -> SchemaId -> Version -> bool -> TypedSchema -> option (list Reference) -> DB -> DB;
  db_insert_subject : Subject -> DB -> DB;
  db_get_subject_compatibility : DB -> Subject -> option string;
  db_delete_subject_compatibility : Subject -> DB -> DB;
  db_set_subject_compatibility : Subject -> string -> DB -> DB;
  db_find_schema : DB -> SchemaId -> result TypedSchema;
  db_find_schemas : DB -> bool -> bool -> dict Subject (list SchemaVersion);
  db_subjects_for_schema : DB -> SchemaId -> list Subject;
  db_find_schema_versions_by_schema_id : DB -> SchemaId -> bool -> list SchemaVersion;
  db_find_subject : DB -> Subject -> option Subject;
  db_find_subjects : DB -> bool -> list Subject;
  db_find_subject_schemas : DB -> Subject -> bool -> dict Version SchemaVersion;
  db_delete_subject : Subject -> Version -> DB -> result DB;
  db_delete_subject_hard : Subject -> DB -> result DB;
  db_delete_subject_schema : Subject -> Version -> DB -> result DB;
  db_num_schemas : DB -> nat;
  db_num_subjects : DB -> nat;
  db_num_schema_versions : DB -> nat * nat;
  db_get_referenced_by : DB -> Subject -> Version -> option Referents;
}.

Definition InMemoryDatabase_KarapaceDatabase (sha1 : string -> string)
  : KarapaceDatabase InMemoryDatabase := {|
  db_get_schema_id := get_schema_id;
  db_get_schema_id_if_exists := get_schema_id_if_exists sha1;
  db_get_next_version := get_next_version;
  db_insert_schema_version := insert_schema_version sha1;
  db_insert_subject := insert_subject;
  db_get_subject_compatibility := get_subject_compatibility;
  db_delete_subject_compatibility := delete_subject_compatibility;
  db_set_subject_compatibility := set_subject_compatibility;
  db_find_schema := find_schema;
  db_find_schemas := find_schemas;
  db_subjects_for_schema := subjects_for_schema;
  db_find_schema_versions_by_schema_id := find_schema_versions_by_schema_id;
  db_find_subject := find_subject;
  db_find_subjects := find_subjects;
  db_find_subject_schemas := find_subject_schemas;
  db_delete_subject := delete_subject sha1;
  db_delete_subject_hard := delete_subject_hard;
  db_delete_subject_schema := delete_subject_schema sha1;
  db_num_schemas := num_schemas;
  db_num_subjects := num_subjects;
  db_num_schema_versions := num_schema_versions;
  db_get_referenced_by := get_referenced_by;
|}.

(** ** Frames: what the index and reference updates leave alone *)

(** Equal but for [referenced_by] and the fingerprint index of subjects. *)
Definition same_store (db db' : InMemoryDatabase) : Prop :=
  global_schema_id db' = global_schema_id db /\ subjects db' = subjects db /\
  schemas db' = schemas db /\ hash_to_schema db' = hash_to_schema db.

#[global] Instance same_store_preorder : PreOrder same_store.
Proof. unfold same_store; split; red; intuition congruence. Qed.

Lemma same_store_fold {A} (f : InMemoryDatabase -> A -> InMemoryDatabase) (l : list A) db :
  (forall db x, same_store db (f db x)) -> same_store db (fold_left f l db).
Proof.
  intros Hf. revert db; induction l as [|x l IH]; intros db; simpl; [reflexivity|].
  etrans; [apply Hf|apply IH].
Qed.

Lemma same_store_set_fp sha1 s sch i db : same_store db (set_schema_id_on_subject sha1 s sch i db).
Proof. done. Qed.

Lemma same_store_del_fp sha1 s sch db :
  same_store db (delete_from_schema_id_on_subject sha1 s sch db).
Proof. unfold delete_from_schema_id_on_subject. by destruct (_ !! s). Qed.

Lemma same_store_ins_ref s v i db : same_store db (insert_referenced_by s v i db).
Proof. done. Qed.

Lemma same_store_remove_one i db ref : same_store db (remove_referenced_by_one i db ref).
Proof.
  unfold remove_referenced_by_one. destruct (_ !! _); [|done]. by case_bool_decide.
Qed.

Lemma same_store_remove_of db sv : same_store db (remove_references_of db sv).
Proof. apply same_store_fold. intros; apply same_store_remove_one. Qed.

Lemma same_store_index sha1 s i del sch refs db :
  same_store db (index_schema_version sha1 s i del sch refs db).
Proof.
  unfold index_schema_version. destruct del; simpl; [apply same_store_del_fp|].
  etrans; [apply (same_store_set_fp sha1 s sch i)|]. apply same_store_fold. done.
Qed.

#[export] Hint Resolve same_store_set_fp same_store_del_fp same_store_ins_ref
  same_store_remove_one same_store_remove_of same_store_fold : karapace.

(** ** Field-by-field description of [insert_schema_version] *)

(** The schema object that ends up stored: the cached one with the same fingerprint. *)
Definition cached (sha1 : string -> string) (db : InMemoryDatabase) (schema : TypedSchema)
  : TypedSchema := default schema (hash_to_schema db !! fingerprint sha1 schema).

Section insert_fields.
Context (sha1 : string -> string).
Context (s : Subject) (i : SchemaId) (v : Version) (del : bool) (sch : TypedSchema)
  (refs : option (list Reference)) (db : InMemoryDatabase).
Let db' := insert_schema_version sha1 s i v del sch refs db.
Let sv := mkSchemaVersion s v del i (cached sha1 db sch) refs.

Lemma insert_subjects :
  subjects db' = dupdate (fun sd => set_schemas (dset v sv (sd_schemas sd)) sd) s
                   (dsetdefault s SubjectData_init (subjects db)) /\
  schemas db' = dset i (cached sha1 db sch) (schemas db) /\
  global_schema_id db' = Z.max (global_schema_id db) i /\
  hash_to_schema db' = <[fingerprint sha1 sch := cached sha1 db sch]> (hash_to_schema db).
Proof.
  subst db' sv. unfold insert_schema_version, get_from_hash_cache, cached.
  set (db1 := with_global_schema_id _ db).
  change (hash_to_schema db1) with (hash_to_schema db).
  destruct (hash_to_schema db !! fingerprint sha1 sch) as [c|] eqn:Ec; simpl;
    match goal with |- context [index_schema_version _ _ _ _ ?c _ ?d] =>
      destruct (same_store_index sha1 s i del c refs d) as (-> & -> & -> & ->) end; simpl;
    unfold find_subject, insert_subject, dsetdefault; simpl.
  - rewrite insert_id by done. by destruct (din s (subjects db)).
  - by destruct (din s (subjects db)).
Qed.
End insert_fields.
