(* ===== verification/DatabaseSpec.v ===== *)
(** * Invariant and abstract specification of the database

    [db_wf] is the well-formedness invariant of [InMemoryDatabase]; the abstract store
    [AStore] is what the database promises its clients: for each subject, a finite map from
    versions to (id, deleted flag, fingerprint, references) and a compatibility level. Every
    mutating operation of the database preserves the invariant and refines its abstract
    counterpart, errors included. *)

From S2P Require Import Prelude Json Typing Models Database.
Open Scope Z_scope.

(** ** Operations as data *)

Inductive DbOp : Type :=
  | OpGetSchemaId (schema : TypedSchema)
  | OpInsert (subject : Subject) (schema_id : SchemaId) (version : Version) (deleted : bool)
      (schema : TypedSchema) (references : option (list Reference))
  | OpInsertSubject (subject : Subject)
  | OpSetCompatibility (subject : Subject) (compatibility : string)
  | OpDeleteCompatibility (subject : Subject)
  | OpDeleteSubject (subject : Subject) (version : Version)
  | OpDeleteSubjectHard (subject : Subject)
  | OpDeleteSubjectSchema (subject : Subject) (version : Version).

Definition run_op (sha1 : string -> string) (op : DbOp) (db : InMemoryDatabase)
  : result InMemoryDatabase :=
  match op with
  | OpGetSchemaId sch => Ok (get_schema_id db sch).1
  | OpInsert s i v del sch refs => Ok (insert_schema_version sha1 s i v del sch refs db)
  | OpInsertSubject s => Ok (insert_subject s db)
  | OpSetCompatibility s c => Ok (set_subject_compatibility s c db)
  | OpDeleteCompatibility s => Ok (delete_subject_compatibility s db)
  | OpDeleteSubject s v => delete_subject sha1 s v db
  | OpDeleteSubjectHard s => delete_subject_hard s db
  | OpDeleteSubjectSchema s v => delete_subject_schema sha1 s v db
  end.

(** ** The invariant *)

Record db_wf (sha1 : string -> string) (db : InMemoryDatabase) : Prop := {
  wf_subjects : dwf (subjects db);
  wf_versions : forall s sd, dget s (subjects db) = Some sd -> dwf (sd_schemas sd);
  (** a version is stored under its own subject and number *)
  wf_entry : forall s sd v sv, dget s (subjects db) = Some sd ->
    dget v (sd_schemas sd) = Some sv -> sv_subject sv = s /\ sv_version sv = v;
  (** every version's id names a stored schema *)
  wf_stored : forall s sd v sv, dget s (subjects db) = Some sd ->
    dget v (sd_schemas sd) = Some sv -> is_Some (dget (sv_schema_id sv) (schemas db));
  wf_schemas : dwf (schemas db);
  (** no id above the counter, so the next one is fresh *)
  wf_ids : forall i sch, dget i (schemas db) = Some sch -> i <= global_schema_id db;
  (** the de-duplication cache is keyed by fingerprint *)
  wf_cache : forall f sch, hash_to_schema db !! f = Some sch -> fingerprint sha1 sch = f;
}.

(** ** The abstract store *)

Record AVersion : Type := mkAVersion {
  av_id : SchemaId;
  av_deleted : bool;
  av_fingerprint : string;
  av_references : option (list Reference);
}.

Record ASubject : Type := mkASubject {
  as_versions : gmap Z AVersion;
  as_compatibility : option string;
}.

Abbreviation AStore := (gmap string ASubject) (only parsing).

Definition abs_version (sha1 : string -> string) (sv : SchemaVersion) : AVersion :=
  mkAVersion (sv_schema_id sv) (sv_deleted sv) (fingerprint sha1 (sv_schema sv)) (sv_references sv).
Definition abs_subject (sha1 : string -> string) (sd : SubjectData) : ASubject :=
  mkASubject (abs_version sha1 <$> (list_to_map (sd_schemas sd) : gmap Z SchemaVersion))
    (sd_compatibility sd).
Definition abs (sha1 : string -> string) (db : InMemoryDatabase) : AStore :=
  abs_subject sha1 <$> (list_to_map (subjects db) : gmap string SubjectData).

Definition a_delete (v : Version) (n : Z) (a : AVersion) : AVersion :=
  if n <=? v then mkAVersion (av_id a) true (av_fingerprint a) (av_references a) else a.

Definition on_versions (f : gmap Z AVersion -> gmap Z AVersion) (a : ASubject) : ASubject :=
  mkASubject (f (as_versions a)) (as_compatibility a).

(** What each operation does to the abstract store. *)
Definition spec_op (sha1 : string -> string) (op : DbOp) (st : AStore) : result AStore :=
  match op with
  | OpGetSchemaId _ => Ok st
  | OpInsert s i v del sch refs =>
      Ok (<[s := on_versions <[v := mkAVersion i del (fingerprint sha1 sch) refs]>
                   (default (mkASubject ∅ None) (st !! s))]> st)
  | OpInsertSubject s => Ok (<[s := default (mkASubject ∅ None) (st !! s)]> st)
  | OpSetCompatibility s c => Ok (alter (fun a => mkASubject (as_versions a) (Some c)) s st)
  | OpDeleteCompatibility s => Ok (alter (fun a => mkASubject (as_versions a) None) s st)
  | OpDeleteSubject s v =>
      match st !! s with
      | None => Raise KeyError
      | Some a => Ok (<[s := on_versions (map_imap (fun n x => Some (a_delete v n x))) a]> st)
      end
  | OpDeleteSubjectHard s =>
      match st !! s with None => Raise KeyError | Some _ => Ok (delete s st) end
  | OpDeleteSubjectSchema s v =>
      match st !! s with
      | None => Raise KeyError
      | Some a => Ok (<[s := on_versions (delete v) a]> st)
      end
  end.

(** ** Lemmas *)

Lemma abs_lookup sha1 db s : abs sha1 db !! s = abs_subject sha1 <$> dget s (subjects db).
Proof. unfold abs. by rewrite lookup_fmap, list_to_map_dget. Qed.

Lemma abs_versions_lookup sha1 sd v :
  as_versions (abs_subject sha1 sd) !! v = abs_version sha1 <$> dget v (sd_schemas sd).
Proof. simpl. by rewrite lookup_fmap, list_to_map_dget. Qed.

Lemma abs_subject_eq sha1 sd a :
  as_compatibility a = sd_compatibility sd ->
  (forall v, as_versions a !! v = abs_version sha1 <$> dget v (sd_schemas sd)) ->
  abs_subject sha1 sd = a.
Proof.
  destruct a as [vs c]. simpl. intros -> Hv. unfold abs_subject. f_equal. apply map_eq.
  intros v. by rewrite Hv, <- abs_versions_lookup.
Qed.

Lemma abs_same_store sha1 db db' : same_store db db' -> abs sha1 db' = abs sha1 db.
Proof. intros (_ & H & _). unfold abs. by rewrite H. Qed.

Lemma wf_same_store sha1 db db' : same_store db db' -> db_wf sha1 db -> db_wf sha1 db'.
Proof. intros (Hg & Hs & Hi & Hc) []. split; rewrite ?Hg, ?Hs, ?Hi, ?Hc; auto. Qed.

Lemma cached_fingerprint sha1 db sch :
  db_wf sha1 db -> fingerprint sha1 (cached sha1 db sch) = fingerprint sha1 sch.
Proof.
  intros H. unfold cached. destruct (hash_to_schema db !! _) eqn:E; simpl; [|done].
  by apply (wf_cache _ _ H) in E.
Qed.

(** Replacing the entry of one subject, seen from the abstract store. *)
Lemma abs_update_subject sha1 db db' s sd' :
  dget s (subjects db') = Some sd' ->
  (forall s', s ≠ s' -> dget s' (subjects db') = dget s' (subjects db)) ->
  abs sha1 db' = <[s := abs_subject sha1 sd']> (abs sha1 db).
Proof.
  intros Hs Hne. apply map_eq. intros s'. rewrite lookup_insert, !abs_lookup.
  case_decide as E; subst; [by rewrite Hs|by rewrite Hne].
Qed.

(** Well-formedness when one subject's entry is replaced and ids only grow. *)
Lemma wf_update_subject sha1 db db' s sd' :
  db_wf sha1 db ->
  dwf (subjects db') -> dget s (subjects db') = Some sd' -> dwf (sd_schemas sd') ->
  (forall s', s ≠ s' -> dget s' (subjects db') = dget s' (subjects db)) ->
  (forall v sv, dget v (sd_schemas sd') = Some sv ->
     sv_subject sv = s /\ sv_version sv = v /\ is_Some (dget (sv_schema_id sv) (schemas db'))) ->
  (forall i, is_Some (dget i (schemas db)) -> is_Some (dget i (schemas db'))) ->
  dwf (schemas db') ->
  (forall i sch, dget i (schemas db') = Some sch -> i <= global_schema_id db') ->
  (forall f sch, hash_to_schema db' !! f = Some sch -> fingerprint sha1 sch = f) ->
  db_wf sha1 db'.
Proof.
  intros [] Hd Hs Hds Hne Hsv Hmono Hdi Hid Hc. split; auto.
  - intros s' sd H. destruct (decide (s = s')) as [<-|E]; [simplify_eq; auto|].
    rewrite Hne in H by done. eauto.
  - intros s' sd v sv H Hv. destruct (decide (s = s')) as [<-|E].
    + simplify_eq. destruct (Hsv _ _ Hv) as (? & ? & _); auto.
    + rewrite Hne in H by done. eauto.
  - intros s' sd v sv H Hv. destruct (decide (s = s')) as [<-|E].
    + simplify_eq. by apply Hsv in Hv as (_ & _ & ?).
    + rewrite Hne in H by done. eauto.
Qed.

Lemma dindex_inv {K V} `{EqDecision K} (k : K) (d : dict K V) v :
  dindex k d = Ok v -> dget k d = Some v.
Proof. unfold dindex. by destruct (dget k d); intros; simplify_eq. Qed.

(** The entry of the subject after [insert_schema_version]. *)
Lemma insert_lookup sha1 s i v del sch refs db :
  let db' := insert_schema_version sha1 s i v del sch refs db in
  let sd := default SubjectData_init (dget s (subjects db)) in
  let sv := mkSchemaVersion s v del i (cached sha1 db sch) refs in
  dget s (subjects db') = Some (set_schemas (dset v sv (sd_schemas sd)) sd) /\
  (forall s', s ≠ s' -> dget s' (subjects db') = dget s' (subjects db)).
Proof.
  intros db' sd sv. destruct (insert_subjects sha1 s i v del sch refs db) as (Hs & _).
  subst db'. rewrite Hs. split.
  - by rewrite dget_dupdate_eq, dget_dsetdefault_eq.
  - intros s' Hne. by rewrite dget_dupdate_ne, dget_dsetdefault_ne.
Qed.

Lemma delete_subject_store sha1 s v db db' :
  delete_subject sha1 s v db = Ok db' ->
  exists sd, dget s (subjects db) = Some sd /\
  same_store (with_subjects
    (dupdate (fun sd => set_schemas (dmap (fun sv =>
      if sv_version sv <=? v then mark_deleted sv else sv) (sd_schemas sd)) sd) s (subjects db)) db) db'.
Proof.
  unfold delete_subject. intros (sd & Hsd%dindex_inv & H)%bind_Ok. exists sd. split; [done|].
  simplify_eq. apply same_store_fold. intros; apply same_store_del_fp.
Qed.

Lemma delete_subject_hard_store s db db' :
  delete_subject_hard s db = Ok db' ->
  is_Some (dget s (subjects db)) /\ same_store (with_subjects (ddel s (subjects db)) db) db'.
Proof.
  unfold delete_subject_hard. intros (sd & Hsd%dindex_inv & H)%bind_Ok. split; [eauto|].
  simplify_eq. destruct (same_store_fold remove_references_of (dvalues (sd_schemas sd)) db)
    as (Hg & Hs & Hi & Hc); [intros; apply same_store_remove_of|].
  unfold same_store. simpl. by rewrite Hg, Hs, Hi, Hc.
Qed.

Lemma delete_subject_schema_store sha1 s v db db' :
  delete_subject_schema sha1 s v db = Ok db' ->
  exists sd, dget s (subjects db) = Some sd /\
  same_store (with_subjects (dupdate (fun sd => set_schemas (ddel v (sd_schemas sd)) sd) s
    (subjects db)) db) db'.
Proof.
  unfold delete_subject_schema. intros (sd & Hsd%dindex_inv & H)%bind_Ok.
  exists sd. split; [done|]. destruct (dget v (sd_schemas sd)) as [sv|] eqn:E; simplify_eq.
  - etrans; [apply same_store_remove_of|apply same_store_del_fp].
  - unfold same_store; simpl. split_and!; try done. rewrite dupdate_id; [done|].
    intros sd' H'. rewrite Hsd in H'. injection H' as <-. rewrite ddel_absent by done.
    by destruct sd.
Qed.

(** *** Preservation of the invariant, operation by operation *)

Lemma wf_get_schema_id sha1 sch db : db_wf sha1 db -> db_wf sha1 (get_schema_id db sch).1.
Proof.
  unfold get_schema_id. destruct (get_schema_id_from_storage db sch); [done|].
  intros []. split; simpl; eauto. intros i sch' Hi. specialize (wf_ids0 _ _ Hi). lia.
Qed.

Lemma dset_is_Some {K V} `{EqDecision K} (k j : K) (x : V) (d : dict K V) :
  is_Some (dget j d) -> is_Some (dget j (dset k x d)).
Proof.
  intros H. destruct (decide (k = j)) as [->|E];
    [rewrite dget_dset_eq|rewrite dget_dset_ne by done]; eauto.
Qed.

Lemma wf_insert sha1 s i v del sch refs db :
  db_wf sha1 db -> db_wf sha1 (insert_schema_version sha1 s i v del sch refs db).
Proof.
  intros Hwf. destruct (insert_lookup sha1 s i v del sch refs db) as [Hs Hne].
  destruct (insert_subjects sha1 s i v del sch refs db) as (Hsub & Hsch & Hid & Hc).
  eapply wf_update_subject; [exact Hwf| |exact Hs| |exact Hne| | | | |];
    rewrite ?Hsub, ?Hsch, ?Hid, ?Hc.
  - apply dwf_dupdate, dwf_dsetdefault, Hwf.
  - apply dwf_dset. destruct (dget s (subjects db)) eqn:E; simpl; [|constructor].
    eapply wf_versions; eauto.
  - simpl. intros n sv Hn. destruct (decide (v = n)) as [<-|En].
    + rewrite dget_dset_eq in Hn. simplify_eq/=. rewrite dget_dset_eq. eauto.
    + rewrite dget_dset_ne in Hn by done.
      destruct (dget s (subjects db)) as [sd|] eqn:E; simpl in Hn; [|done].
      destruct (wf_entry _ _ Hwf _ _ _ _ E Hn) as [-> ->].
      split_and!; [done..|]. apply dset_is_Some. by eapply wf_stored.
  - intros j. apply dset_is_Some.
  - apply dwf_dset, Hwf.
  - intros j x Hx. destruct (decide (i = j)) as [->|Ei]; [lia|].
    rewrite dget_dset_ne in Hx by done. apply (wf_ids _ _ Hwf) in Hx. lia.
  - intros f x. rewrite lookup_insert. case_decide as Ef; subst; [|apply Hwf].
    intros; simplify_eq. by apply cached_fingerprint.
Qed.

Lemma wf_insert_subject sha1 s db : db_wf sha1 db -> db_wf sha1 (insert_subject s db).
Proof.
  intros Hwf. destruct (dget s (subjects db)) as [sd|] eqn:E.
  - unfold insert_subject. erewrite dsetdefault_present by done. by destruct db, Hwf.
  - eapply (wf_update_subject sha1 db _ s SubjectData_init); simpl; auto; try apply Hwf.
    + apply dwf_dsetdefault, Hwf.
    + by rewrite dget_dsetdefault_eq, E.
    + constructor.
    + intros s' Hne. by rewrite dget_dsetdefault_ne.
    + done.
Qed.

(** In-place update of one subject's data that keeps each version's identity. *)
Lemma wf_dupdate sha1 f s db :
  db_wf sha1 db ->
  (forall sd, dget s (subjects db) = Some sd -> dwf (sd_schemas (f sd)) /\
     forall v sv', dget v (sd_schemas (f sd)) = Some sv' ->
     exists sv, dget v (sd_schemas sd) = Some sv /\ sv_subject sv' = sv_subject sv /\
       sv_version sv' = sv_version sv /\ sv_schema_id sv' = sv_schema_id sv) ->
  db_wf sha1 (with_subjects (dupdate f s (subjects db)) db).
Proof.
  intros Hwf Hf. destruct (dget s (subjects db)) as [sd|] eqn:E.
  - destruct (Hf sd eq_refl) as [Hd Hsv]. eapply (wf_update_subject sha1 db _ s (f sd)); simpl; auto;
      try apply Hwf.
    + apply dwf_dupdate, Hwf.
    + by rewrite dget_dupdate_eq, E.
    + intros s' Hne. by rewrite dget_dupdate_ne.
    + intros v sv' Hv. destruct (Hsv _ _ Hv) as (sv & Hg & -> & -> & ->).
      destruct (wf_entry _ _ Hwf _ _ _ _ E Hg) as [-> ->].
      split_and!; [done..|]. by eapply wf_stored.
  - rewrite dupdate_id by congruence. by destruct db, Hwf.
Qed.

Lemma wf_ddel sha1 s db :
  db_wf sha1 db -> db_wf sha1 (with_subjects (ddel s (subjects db)) db).
Proof.
  intros Hwf. assert (Hsub : forall s' sd, dget s' (ddel s (subjects db)) = Some sd ->
    dget s' (subjects db) = Some sd).
  { intros s' sd. destruct (decide (s = s')) as [->|En];
      [by rewrite dget_ddel_eq|by rewrite dget_ddel_ne]. }
  destruct Hwf; split; simpl; eauto with karapace.
Qed.

Lemma run_op_wf sha1 op db db' : db_wf sha1 db -> run_op sha1 op db = Ok db' -> db_wf sha1 db'.
Proof.
  intros Hwf. destruct op as [sch|s i v del sch refs|s|s c|s|s v|s|s v]; simpl run_op; intros H.
  - injection H as <-. by apply wf_get_schema_id.
  - injection H as <-. by apply wf_insert.
  - injection H as <-. by apply wf_insert_subject.
  - injection H as <-. apply wf_dupdate; [done|]. intros sd E. simpl. split; [eapply wf_versions; eauto|].
    eauto 10.
  - injection H as <-. apply wf_dupdate; [done|]. intros sd E. simpl. split; [eapply wf_versions; eauto|].
    eauto 10.
  - apply delete_subject_store in H as (sd & E & Hs). eapply wf_same_store; [exact Hs|].
    apply wf_dupdate; [done|]. intros sd' E'. simpl. split.
    + apply dwf_dmap. by eapply wf_versions.
    + intros n sv'. rewrite dget_dmap. destruct (dget n _) as [sv|] eqn:Ev; simpl; [|done].
      intros; simplify_eq. exists sv. by destruct (sv_version sv <=? v).
  - apply delete_subject_hard_store in H as ([sd E] & Hs). eapply wf_same_store; [exact Hs|].
    by apply wf_ddel.
  - apply delete_subject_schema_store in H as (sd & E & Hs). eapply wf_same_store; [exact Hs|].
    apply wf_dupdate; [done|]. intros sd' E'. simpl. split.
    + apply dwf_ddel. by eapply wf_versions.
    + intros n sv' Hn. destruct (decide (v = n)) as [->|En].
      * rewrite dget_ddel_eq in Hn. discriminate Hn.
      * rewrite dget_ddel_ne in Hn by done. eauto 10.
Qed.

(** *** Refinement, operation by operation *)

Lemma abs_dupdate sha1 f g s db :
  (forall sd, dget s (subjects db) = Some sd -> abs_subject sha1 (f sd) = g (abs_subject sha1 sd)) ->
  abs sha1 (with_subjects (dupdate f s (subjects db)) db) = alter g s (abs sha1 db).
Proof.
  intros Hf. apply map_eq. intros s'. destruct (decide (s = s')) as [<-|Hne].
  - rewrite lookup_alter_eq, !abs_lookup. simpl. rewrite dget_dupdate_eq.
    destruct (dget s (subjects db)) eqn:E; simpl; [|done]. by rewrite Hf.
  - rewrite lookup_alter_ne, !abs_lookup by done. simpl. by rewrite dget_dupdate_ne.
Qed.

Lemma alter_as_insert {A} (g : A -> A) (s : string) (m : gmap string A) a :
  m !! s = Some a -> alter g s m = <[s := g a]> m.
Proof.
  intros E. apply map_eq. intros s'. destruct (decide (s = s')) as [<-|Hne].
  - by rewrite lookup_alter_eq, lookup_insert_eq, E.
  - by rewrite lookup_alter_ne, lookup_insert_ne.
Qed.

Lemma abs_insert sha1 s i v del sch refs db :
  db_wf sha1 db ->
  abs sha1 (insert_schema_version sha1 s i v del sch refs db) =
  <[s := on_versions <[v := mkAVersion i del (fingerprint sha1 sch) refs]>
           (default (mkASubject ∅ None) (abs sha1 db !! s))]> (abs sha1 db).
Proof.
  intros Hwf. destruct (insert_lookup sha1 s i v del sch refs db) as [Hs Hne].
  rewrite (abs_update_subject sha1 db _ s _ Hs Hne). f_equal.
  apply abs_subject_eq; rewrite abs_lookup.
  - by destruct (dget s (subjects db)).
  - intros n. simpl. rewrite lookup_insert. case_decide as En; subst.
    + rewrite dget_dset_eq. simpl. unfold abs_version. simpl. by rewrite cached_fingerprint.
    + rewrite dget_dset_ne by done. destruct (dget s (subjects db)) as [sd|]; simpl.
      * by rewrite lookup_fmap, list_to_map_dget.
      * by rewrite lookup_empty.
Qed.

Lemma abs_insert_subject sha1 s db :
  abs sha1 (insert_subject s db) =
  <[s := default (mkASubject ∅ None) (abs sha1 db !! s)]> (abs sha1 db).
Proof.
  apply map_eq. intros s'. rewrite lookup_insert, !abs_lookup. simpl.
  case_decide as E; subst.
  - rewrite dget_dsetdefault_eq. destruct (dget s' (subjects db)); simpl; [done|].
    by rewrite <- (abs_subject_eq sha1 SubjectData_init (mkASubject ∅ None)).
  - by rewrite dget_dsetdefault_ne.
Qed.

Lemma abs_mark_deleted sha1 v db s sd :
  db_wf sha1 db -> dget s (subjects db) = Some sd ->
  abs_subject sha1 (set_schemas (dmap (fun sv =>
    if sv_version sv <=? v then mark_deleted sv else sv) (sd_schemas sd)) sd) =
  on_versions (map_imap (fun n x => Some (a_delete v n x))) (abs_subject sha1 sd).
Proof.
  intros Hwf E. apply abs_subject_eq; [done|]. intros n. simpl.
  rewrite map_lookup_imap, lookup_fmap, list_to_map_dget, dget_dmap.
  destruct (dget n (sd_schemas sd)) as [sv|] eqn:Ev; simpl; [|done].
  destruct (wf_entry _ _ Hwf _ _ _ _ E Ev) as [_ ->].
  unfold a_delete. by destruct (n <=? v).
Qed.

Lemma abs_ddel sha1 v sd :
  abs_subject sha1 (set_schemas (ddel v (sd_schemas sd)) sd) =
  on_versions (delete v) (abs_subject sha1 sd).
Proof.
  apply abs_subject_eq; [done|]. intros n. simpl.
  rewrite lookup_delete. case_decide as En; subst; [by rewrite dget_ddel_eq|].
  by rewrite dget_ddel_ne, lookup_fmap, list_to_map_dget.
Qed.

(** The missing-subject branch, shared by the three deletions. *)
Lemma dindex_None {K V} `{EqDecision K} (k : K) (d : dict K V) :
  dget k d = None -> dindex k d = Raise KeyError.
Proof. unfold dindex. by intros ->. Qed.

Lemma run_op_raise sha1 op db e :
  run_op sha1 op db = Raise e -> spec_op sha1 op (abs sha1 db) = Raise e.
Proof.
  destruct op as [sch|s i v del sch refs|s|s c|s|s v|s|s v]; simpl run_op; try done;
    unfold delete_subject, delete_subject_hard, delete_subject_schema; simpl;
    rewrite abs_lookup; unfold dindex; destruct (dget s (subjects db)) as [sd|]; simpl;
    try (by intros [= <-]).
  by destruct (dget v (sd_schemas sd)).
Qed.

Lemma run_op_ok sha1 op db db' :
  db_wf sha1 db -> run_op sha1 op db = Ok db' -> spec_op sha1 op (abs sha1 db) = Ok (abs sha1 db').
Proof.
  intros Hwf. destruct op as [sch|s i v del sch refs|s|s c|s|s v|s|s v]; simpl run_op; intros H.
  - injection H as <-. simpl. f_equal. unfold get_schema_id. by destruct get_schema_id_from_storage.
  - injection H as <-. by rewrite abs_insert.
  - injection H as <-. by rewrite abs_insert_subject.
  - injection H as <-. symmetry. simpl. f_equal. by apply abs_dupdate.
  - injection H as <-. symmetry. simpl. f_equal. by apply abs_dupdate.
  - apply delete_subject_store in H as (sd & E & Hs). rewrite (abs_same_store _ _ _ Hs). simpl.
    erewrite abs_dupdate by (intros; by eapply abs_mark_deleted).
    erewrite alter_as_insert by (by rewrite abs_lookup, E). by rewrite abs_lookup, E.
  - apply delete_subject_hard_store in H as ([sd E] & Hs). rewrite (abs_same_store _ _ _ Hs). simpl.
    rewrite abs_lookup, E. simpl. f_equal. apply map_eq. intros s'.
    rewrite lookup_delete, !abs_lookup. simpl.
    case_decide; subst; [by rewrite dget_ddel_eq|by rewrite dget_ddel_ne].
  - apply delete_subject_schema_store in H as (sd & E & Hs). rewrite (abs_same_store _ _ _ Hs). simpl.
    rewrite (abs_dupdate sha1 _ (on_versions (delete v))) by (intros; apply abs_ddel).
    erewrite alter_as_insert by (by rewrite abs_lookup, E). by rewrite abs_lookup, E.
Qed.

Lemma wf_init sha1 : db_wf sha1 InMemoryDatabase_init.
Proof. split; simpl; done || constructor. Qed.

(** *** Sequences of operations *)

Fixpoint run_ops {S} (step : DbOp -> S -> result S) (ops : list DbOp) (st : S) : result S :=
  match ops with
  | [] => Ok st
  | op :: ops => st' ← step op st; run_ops step ops st'
  end.

Lemma run_ops_refines sha1 ops db :
  db_wf sha1 db ->
  match run_ops (run_op sha1) ops db with
  | Ok db' => db_wf sha1 db' /\ run_ops (spec_op sha1) ops (abs sha1 db) = Ok (abs sha1 db')
  | Raise e => run_ops (spec_op sha1) ops (abs sha1 db) = Raise e
  end.
Proof.
  revert db; induction ops as [|op ops IH]; intros db Hwf; simpl; [done|].
  destruct (run_op sha1 op db) as [db1|e] eqn:E; simpl.
  - rewrite (run_op_ok _ _ _ _ Hwf E). apply IH. by eapply run_op_wf.
  - by rewrite (run_op_raise _ _ _ _ E).
Qed.

Lemma get_schema_id_from_storage_spec db sch i :
  get_schema_id_from_storage db sch = Some i ->
  exists sch', (i, sch') ∈ schemas db /\ schema_equiv sch' sch.
Proof.
  unfold get_schema_id_from_storage. destruct (List.find _ _) as [[j sch']|] eqn:E; [|done].
  intros; simplify_eq/=. apply find_some in E as [Hin%list_elem_of_In He]. exists sch'.
  split; [done|]. by apply typed_schema_eqb_spec.
Qed.

Lemma get_schema_id_from_storage_None db sch :
  get_schema_id_from_storage db sch = None ->
  forall i sch', (i, sch') ∈ schemas db -> ~ schema_equiv sch' sch.
Proof.
  unfold get_schema_id_from_storage. destruct (List.find _ _) as [|] eqn:E; [done|].
  intros _ i sch' Hin%list_elem_of_In Heq%typed_schema_eqb_spec.
  pose proof (find_none _ _ E _ Hin) as Hn. simpl in Hn. congruence.
Qed.

Lemma get_next_version_cases sha1 db s :
  db_wf sha1 db ->
  match get_next_version db s with
  | Ok n => exists sd, dget s (subjects db) = Some sd /\
      dget n (sd_schemas sd) = None /\ dget (n - 1) (sd_schemas sd) ≠ None /\
      (forall v, v ∈ dkeys (sd_schemas sd) -> v < n)
  | Raise e =>
      (e = KeyError /\ dget s (subjects db) = None) \/
      (exists sd, dget s (subjects db) = Some sd /\
        ((e = ValueError /\ sd_schemas sd = []) \/
         (e = InvalidVersion /\ exists v, max_version (dkeys (sd_schemas sd)) = Ok v /\
           (v < -2 \/ v = -1))))
  end.
Proof.
  intros Hwf. unfold get_next_version, dindex. destruct (dget s (subjects db)) as [sd|]; simpl; [|eauto].
  destruct (max_version (dkeys (sd_schemas sd))) as [m|e] eqn:Em; simpl.
  - pose proof (max_version_spec _ _ Em) as [Hin Hub].
    unfold Versioner_V, validate_tag, MINUS_1_VERSION_TAG. simpl.
    destruct (Z.ltb_spec (m + 1) (-1)); simpl; [right; exists sd; eauto 10 with lia|].
    destruct (Z.eqb_spec (m + 1) 0); simpl; [right; exists sd; eauto 10 with lia|].
    destruct (Z.ltb_spec (m + 1) MINUS_1_VERSION_TAG); [unfold MINUS_1_VERSION_TAG in *; lia|].
    exists sd. split_and!; [done| | |].
    + apply dget_None. intros Hn. apply Hub in Hn. lia.
    + replace (m + 1 - 1) with m by lia. intros Hn%dget_None. done.
    + intros v Hv%Hub. lia.
  - right. exists sd. split; [done|]. left. destruct (sd_schemas sd); simplify_eq/=. done.
Qed.

(** ** Properties *)

(** C1. Every sequence of database operations, started from an empty database, behaves as the
    abstract store: it raises the same exception at the same point or ends in a well-formed
    database whose abstraction is the abstract result. *)
Theorem database_refines_store sha1 (ops : list DbOp) :
  match run_ops (run_op sha1) ops InMemoryDatabase_init with
  | Ok db => db_wf sha1 db /\ run_ops (spec_op sha1) ops ∅ = Ok (abs sha1 db)
  | Raise e => run_ops (spec_op sha1) ops ∅ = Raise e
  end.
Proof. apply (run_ops_refines sha1 ops InMemoryDatabase_init), wf_init. Qed.

(** [get_schema_id] gives an equal schema the id it already has and changes nothing; a new
    schema gets an id that no stored schema has, one above the counter, which then counts it.
    Asking again for the new schema, once inserted under that id, yields the same id. *)
Theorem get_schema_id_spec sha1 db sch db' i :
  db_wf sha1 db -> get_schema_id db sch = (db', i) ->
  (db' = db /\ exists sch', dget i (schemas db) = Some sch' /\ schema_equiv sch' sch) \/
  (dget i (schemas db) = None /\ (forall j s, dget j (schemas db) = Some s -> j < i) /\
   global_schema_id db' = i /\ (forall j s, dget j (schemas db) = Some s -> ~ schema_equiv s sch)).
Proof.
  intros Hwf. unfold get_schema_id. destruct (get_schema_id_from_storage db sch) eqn:E; intros H;
    simplify_eq/=.
  - left. split; [done|]. apply get_schema_id_from_storage_spec in E as (sch' & Hin & He).
    exists sch'. split; [|done]. apply In_dget; [apply Hwf|done].
  - right. assert (Hlt : forall j s, dget j (schemas db) = Some s -> j < global_schema_id db + 1).
    { intros j s Hj%(wf_ids _ _ Hwf). lia. }
    split_and!; [|done|done|].
    + destruct (dget _ (schemas db)) eqn:Ed; [|done]. apply Hlt in Ed. lia.
    + intros j s Hj%dget_In. by eapply get_schema_id_from_storage_None.
Qed.

Lemma get_schema_id_spec_witness :
  let sch := mkTyped AVRO "A" None None in
  let db := insert_schema_version id "s" 7 1 false sch None InMemoryDatabase_init in
  let new := mkTyped AVRO "B" None None in
  (get_schema_id db new).2 = 8 /\
  (((get_schema_id db new).1 = db /\ exists sch', dget 8 (schemas db) = Some sch' /\ schema_equiv sch' new) \/
  (dget 8 (schemas db) = None /\ (forall j s, dget j (schemas db) = Some s -> j < 8) /\
   global_schema_id (get_schema_id db new).1 = 8 /\
   (forall j s, dget j (schemas db) = Some s -> ~ schema_equiv s new))).
Proof.
  intros sch db new. split; [vm_compute; reflexivity|].
  apply (get_schema_id_spec id db new (get_schema_id db new).1 8);
    [apply wf_insert, wf_init | vm_compute; reflexivity].
Defined.

(** The next version of a subject that has versions is one more than the greatest, deleted
    ones included, so it names no existing version; without the subject it is a [KeyError] and
    with an empty subject the [ValueError] of [max]. *)
Theorem get_next_version_spec sha1 db s :
  db_wf sha1 db ->
  match get_next_version db s with
  | Ok n => exists sd, dget s (subjects db) = Some sd /\
      dget n (sd_schemas sd) = None /\ dget (n - 1) (sd_schemas sd) ≠ None /\
      (forall v, v ∈ dkeys (sd_schemas sd) -> v < n)
  | Raise e =>
      (e = KeyError /\ dget s (subjects db) = None) \/
      (exists sd, dget s (subjects db) = Some sd /\
        ((e = ValueError /\ sd_schemas sd = []) \/
         (e = InvalidVersion /\ exists v, max_version (dkeys (sd_schemas sd)) = Ok v /\
           (v < -2 \/ v = -1))))
  end.
Proof. apply get_next_version_cases. Qed.

Lemma get_next_version_spec_witness :
  let db := insert_schema_version id "s" 7 4 true (mkTyped AVRO "A" None None) None
              InMemoryDatabase_init in
  get_next_version db "s" = Ok 5 /\
  match get_next_version db "s" with
  | Ok n => exists sd, dget "s"%string (subjects db) = Some sd /\
      dget n (sd_schemas sd) = None /\ dget (n - 1) (sd_schemas sd) ≠ None /\
      (forall v, v ∈ dkeys (sd_schemas sd) -> v < n)
  | Raise e =>
      (e = KeyError /\ dget "s"%string (subjects db) = None) \/
      (exists sd, dget "s"%string (subjects db) = Some sd /\
        ((e = ValueError /\ sd_schemas sd = []) \/
         (e = InvalidVersion /\ exists v, max_version (dkeys (sd_schemas sd)) = Ok v /\
           (v < -2 \/ v = -1))))
  end.
Proof.
  intros db. split; [vm_compute; reflexivity|].
  apply (get_next_version_spec id). apply wf_insert, wf_init.
Defined.
