(* ===== verification/DatabaseIndex.v ===== *)
(** * Soundness of the database's two indexes

    [get_schema_id_if_exists] answers from the fingerprint index of a subject, and the delete
    guards of the registry answer from [referenced_by]; neither looks at the versions. This
    file relates both to the stored versions, by induction on the states reachable by database
    operations in which a version, once written, is only rewritten with the same schema, id and
    references (which is how the registry and the reader use it: a version's number is fresh,
    or the message marks it deleted). *)

From S2P Require Import Prelude Json Typing Models Database DatabaseSpec.
Open Scope Z_scope.

(** The version [v] of [s] is stored as [sv]. *)
Definition stored (db : InMemoryDatabase) (s : Subject) (v : Version) (sv : SchemaVersion) : Prop :=
  exists sd, dget s (subjects db) = Some sd /\ dget v (sd_schemas sd) = Some sv.

(** Rewriting a version keeps its schema, id and references. *)
Definition op_guard (sha1 : string -> string) (op : DbOp) (db : InMemoryDatabase) : Prop :=
  match op with
  | OpInsert s i v _ sch refs => forall sv, stored db s v sv ->
      fingerprint sha1 (sv_schema sv) = fingerprint sha1 sch /\ sv_schema_id sv = i /\
      sv_references sv = refs
  | _ => True
  end.

Inductive db_reach (sha1 : string -> string) : InMemoryDatabase -> Prop :=
  | reach_init : db_reach sha1 InMemoryDatabase_init
  | reach_step op db db' :
      db_reach sha1 db -> op_guard sha1 op db -> run_op sha1 op db = Ok db' -> db_reach sha1 db'.

(** Along a history, a version that is written again keeps its schema, id and references. *)
Fixpoint rewrites_agree (sha1 : string -> string) (ops : list DbOp) (db : InMemoryDatabase) : Prop :=
  match ops with
  | [] => True
  | op :: ops => op_guard sha1 op db /\
      match run_op sha1 op db with Ok db' => rewrites_agree sha1 ops db' | Raise _ => True end
  end.

Lemma rewrites_agree_reach sha1 ops db db' :
  db_reach sha1 db -> run_ops (run_op sha1) ops db = Ok db' -> rewrites_agree sha1 ops db -> db_reach sha1 db'.
Proof.
  revert db. induction ops as [|op ops IH]; intros db Hr; simpl; [by intros [= <-]|].
  intros (db1 & H1 & H2)%bind_Ok [Hg Hrest]. rewrite H1 in Hrest. eapply IH; [|done..].
  by eapply reach_step.
Qed.

(** An index entry: the fingerprint [fp] of subject [s] maps to the id [i]. *)
Definition indexed (db : InMemoryDatabase) (s : Subject) (fp : string) (i : SchemaId) : Prop :=
  exists m, hash_to_schema_id_on_subject db !! s = Some m /\ m !! fp = Some i.

Definition index_sound (sha1 : string -> string) (db : InMemoryDatabase) : Prop :=
  forall s fp i, indexed db s fp i -> exists v sv, stored db s v sv /\
    fingerprint sha1 (sv_schema sv) = fp /\ sv_schema_id sv = i /\ sv_deleted sv = false.

(** [i] is registered as referring to version [v] of [s]. *)
Definition refers (db : InMemoryDatabase) (s : Subject) (v : Version) (i : SchemaId) : Prop :=
  exists R, referenced_by db !! (s, v) = Some R /\ i ∈ R.

Definition has_reference (sv : SchemaVersion) (s : Subject) (v : Version) : Prop :=
  exists r, r ∈ default [] (sv_references sv) /\ ref_subject r = s /\ ref_version r = v.

Definition refs_sound (db : InMemoryDatabase) : Prop :=
  forall s v i, refers db s v i -> exists s' v' sv, stored db s' v' sv /\
    sv_schema_id sv = i /\ has_reference sv s v.

(** ** How the operations change the indexes *)

Lemma indexed_set sha1 s sch i db s' fp j :
  indexed (set_schema_id_on_subject sha1 s sch i db) s' fp j ->
  (s' = s /\ fp = fingerprint sha1 sch /\ j = i) \/
  (indexed db s' fp j /\ ~ (s' = s /\ fp = fingerprint sha1 sch)).
Proof.
  intros (m & Hm & Hf). simpl in Hm. unfold indexed.
  destruct (decide (s = s')) as [<-|Hs].
  - rewrite lookup_insert_eq in Hm. simplify_eq.
    destruct (decide (fingerprint sha1 sch = fp)) as [<-|Hfp].
    + rewrite lookup_insert_eq in Hf. simplify_eq. by left.
    + rewrite lookup_insert_ne in Hf by done. right. split; [|naive_solver].
      destruct (hash_to_schema_id_on_subject db !! s); simpl in Hf; [eauto|].
      by rewrite lookup_empty in Hf.
  - rewrite lookup_insert_ne in Hm by done. right. split; [eauto|naive_solver].
Qed.

Lemma indexed_del sha1 s sch db s' fp j :
  indexed (delete_from_schema_id_on_subject sha1 s sch db) s' fp j ->
  indexed db s' fp j /\ ~ (s' = s /\ fp = fingerprint sha1 sch).
Proof.
  intros (m & Hm & Hf). unfold delete_from_schema_id_on_subject in Hm. unfold indexed.
  destruct (hash_to_schema_id_on_subject db !! s) as [m0|] eqn:E; simpl in Hm.
  - destruct (decide (s = s')) as [<-|Hs].
    + case_bool_decide; [by rewrite lookup_delete_eq in Hm|].
      rewrite lookup_insert_eq in Hm. simplify_eq.
      rewrite lookup_delete_Some in Hf. destruct Hf as [Hne Hf]. split; [eauto|naive_solver].
    + case_bool_decide; [rewrite lookup_delete_ne in Hm by done|rewrite lookup_insert_ne in Hm by done];
        (split; [eauto|naive_solver]).
  - split; [eauto|]. intros [-> _]. congruence.
Qed.

Lemma indexed_ext db db' s fp i :
  hash_to_schema_id_on_subject db' = hash_to_schema_id_on_subject db ->
  indexed db' s fp i -> indexed db s fp i.
Proof. intros H (m & Hm & Hf). exists m. by rewrite <- H. Qed.

Lemma indexed_del_fold sha1 s (svs : list SchemaVersion) db s' fp j :
  indexed (fold_left (fun db sv => delete_from_schema_id_on_subject sha1 s (sv_schema sv) db) svs db)
    s' fp j ->
  indexed db s' fp j /\ ~ (s' = s /\ exists sv, sv ∈ svs /\ fp = fingerprint sha1 (sv_schema sv)).
Proof.
  revert db; induction svs as [|sv svs IH]; intros db H; simpl in *.
  - split; [done|]. intros (_ & sv & Hin & _). by apply elem_of_nil in Hin.
  - apply IH in H as [H Hn]. apply indexed_del in H as [H Hn'].
    split; [done|]. intros (-> & sv' & Hin & ->).
    apply elem_of_cons in Hin as [->|Hin]; [by apply Hn'|]. apply Hn. eauto.
Qed.

Lemma fingerprints_ins_fold refs i db :
  hash_to_schema_id_on_subject
    (fold_left (fun db r => insert_referenced_by (ref_subject r) (ref_version r) i db) refs db) =
  hash_to_schema_id_on_subject db.
Proof. revert db; induction refs as [|r refs IH]; intros db; simpl; [done|]. by rewrite IH. Qed.

Lemma fingerprints_remove sv db :
  hash_to_schema_id_on_subject (remove_references_of db sv) = hash_to_schema_id_on_subject db.
Proof.
  unfold remove_references_of, remove_referenced_by. generalize (default [] (sv_references sv)).
  intros refs; revert db; induction refs as [|r refs IH]; intros db; simpl; [done|].
  rewrite IH. unfold remove_referenced_by_one. destruct (_ !! _); [|done]. by case_bool_decide.
Qed.

Lemma fingerprints_remove_fold svs db :
  hash_to_schema_id_on_subject (fold_left remove_references_of svs db) =
  hash_to_schema_id_on_subject db.
Proof.
  revert db; induction svs as [|sv svs IH]; intros db; simpl; [done|].
  by rewrite IH, fingerprints_remove.
Qed.

Lemma refers_ins_fold refs i db s v j :
  refers (fold_left (fun db r => insert_referenced_by (ref_subject r) (ref_version r) i db) refs db) s v j ->
  refers db s v j \/ (j = i /\ exists r, r ∈ refs /\ ref_subject r = s /\ ref_version r = v).
Proof.
  revert db; induction refs as [|r refs IH]; intros db H; simpl in *; [by left|].
  apply IH in H as [(R & HR & Hj)|(-> & r' & Hin & ? & ?)].
  - simpl in HR. rewrite lookup_insert in HR. case_decide as E; simplify_eq.
    + apply elem_of_union in Hj as [->%elem_of_singleton|Hj].
      * right. split; [done|]. exists r. split; [by left|done].
      * left. destruct (referenced_by db !! _) as [R0|] eqn:E0; simpl in Hj; [by exists R0|].
        by apply elem_of_empty in Hj.
    + left. by exists R.
  - right. split; [done|]. exists r'. split; [by right|done].
Qed.

Lemma refers_remove_fold refs i db s v j :
  refers (fold_left (remove_referenced_by_one i) refs db) s v j ->
  refers db s v j /\ ~ (j = i /\ exists r, r ∈ refs /\ ref_subject r = s /\ ref_version r = v).
Proof.
  revert db; induction refs as [|r refs IH]; intros db H; simpl in *.
  - split; [done|]. intros (_ & r & Hin & _). by apply elem_of_nil in Hin.
  - apply IH in H as [H Hn].
    assert (Hstep : refers db s v j /\ ~ (j = i /\ ref_subject r = s /\ ref_version r = v)).
    { destruct H as (R & HR & Hj). unfold remove_referenced_by_one in HR.
      destruct (referenced_by db !! (ref_subject r, ref_version r)) as [R0|] eqn:E.
      - case_bool_decide as Hi; simpl in HR.
        + rewrite lookup_insert in HR. case_decide as Ek; simplify_eq.
          * apply elem_of_difference in Hj as [Hj Hne]. split; [by exists R0|].
            intros (-> & _). apply Hne. by apply elem_of_singleton.
          * split; [by exists R|]. naive_solver.
        + split; [by exists R|]. intros (-> & <- & <-). naive_solver.
      - split; [by exists R|]. intros (-> & <- & <-). congruence. }
    destruct Hstep as [Hr Hn']. split; [done|]. intros (-> & r' & Hin & Hs & Hv).
    apply elem_of_cons in Hin as [->|Hin]; [by apply Hn'|]. apply Hn. eauto 10.
Qed.

Lemma refers_remove_of_fold svs db s v j :
  refers (fold_left remove_references_of svs db) s v j ->
  refers db s v j /\ ~ (exists sv, sv ∈ svs /\ sv_schema_id sv = j /\ has_reference sv s v).
Proof.
  revert db; induction svs as [|sv svs IH]; intros db H; simpl in *.
  - split; [done|]. intros (sv & Hin & _). by apply elem_of_nil in Hin.
  - apply IH in H as [H Hn]. apply refers_remove_fold in H as [H Hn'].
    split; [done|]. intros (sv' & Hin & <- & Hr). apply elem_of_cons in Hin as [->|Hin].
    + by apply Hn'.
    + apply Hn. eauto.
Qed.

Lemma refers_ext db db' s v i :
  referenced_by db' = referenced_by db -> refers db' s v i -> refers db s v i.
Proof. intros H (R & HR & Hi). exists R. by rewrite <- H. Qed.

Lemma referenced_by_del sha1 s sch db :
  referenced_by (delete_from_schema_id_on_subject sha1 s sch db) = referenced_by db.
Proof. unfold delete_from_schema_id_on_subject. by destruct (_ !! s). Qed.

Lemma referenced_by_del_fold sha1 s (svs : list SchemaVersion) db :
  referenced_by (fold_left (fun db sv => delete_from_schema_id_on_subject sha1 s (sv_schema sv) db) svs db)
  = referenced_by db.
Proof.
  revert db; induction svs as [|sv svs IH]; intros db; simpl; [done|].
  by rewrite IH, referenced_by_del.
Qed.

(** ** Stored versions after each operation *)

Lemma stored_insert sha1 s i v del sch refs db :
  let db' := insert_schema_version sha1 s i v del sch refs db in
  stored db' s v (mkSchemaVersion s v del i (cached sha1 db sch) refs) /\
  forall s' v' sv, (s', v') ≠ (s, v) -> stored db s' v' sv -> stored db' s' v' sv.
Proof.
  intros db'. destruct (insert_lookup sha1 s i v del sch refs db) as [Hs Hne]. split.
  - eexists. split; [exact Hs|]. simpl. apply dget_dset_eq.
  - intros s' v' sv Hd (sd & Hsd & Hv). destruct (decide (s = s')) as [<-|E].
    + eexists. split; [exact Hs|]. simpl. rewrite Hsd. simpl. rewrite dget_dset_ne by congruence.
      done.
    + exists sd. by rewrite Hne.
Qed.

(** The index updates of [insert_schema_version] happen last, on unchanged indexes. *)
Lemma insert_index sha1 s i v del sch refs db :
  exists db0, insert_schema_version sha1 s i v del sch refs db =
      index_schema_version sha1 s i del (cached sha1 db sch) refs db0 /\
    hash_to_schema_id_on_subject db0 = hash_to_schema_id_on_subject db /\
    referenced_by db0 = referenced_by db.
Proof.
  unfold insert_schema_version, get_from_hash_cache, cached.
  set (db1 := with_global_schema_id _ db). change (hash_to_schema db1) with (hash_to_schema db).
  destruct (hash_to_schema db !! fingerprint sha1 sch) as [c|]; simpl;
    eexists; (split; [reflexivity|]); unfold find_subject; simpl; by destruct (din s (subjects db)).
Qed.

Lemma stored_same_store db db' s v sv : same_store db db' -> stored db s v sv -> stored db' s v sv.
Proof. intros (_ & H & _) (sd & Hsd & Hv). exists sd. by rewrite H. Qed.

(** In-place update of the data of subject [s]. *)
Lemma stored_dupdate f s db s' v sv :
  (s' = s -> forall sd, dget s (subjects db) = Some sd -> dget v (sd_schemas sd) = Some sv ->
     dget v (sd_schemas (f sd)) = Some sv) ->
  stored db s' v sv -> stored (with_subjects (dupdate f s (subjects db)) db) s' v sv.
Proof.
  intros Hf (sd & Hsd & Hv). unfold stored. simpl. destruct (decide (s = s')) as [<-|E].
  - rewrite dget_dupdate_eq, Hsd. simpl. eauto.
  - rewrite dget_dupdate_ne by done. eauto.
Qed.

Lemma stored_get_schema_id db sch s v sv :
  stored db s v sv -> stored (get_schema_id db sch).1 s v sv.
Proof. unfold get_schema_id. by destruct get_schema_id_from_storage. Qed.

Lemma stored_insert_subject s0 db s v sv : stored db s v sv -> stored (insert_subject s0 db) s v sv.
Proof.
  intros (sd & Hsd & Hv). exists sd. split; [|done]. simpl. destruct (decide (s0 = s)) as [->|E].
  - by rewrite dget_dsetdefault_eq, Hsd.
  - by rewrite dget_dsetdefault_ne.
Qed.

Lemma stored_hard sha1 s db db' s' v sv :
  s' ≠ s -> run_op sha1 (OpDeleteSubjectHard s) db = Ok db' -> stored db s' v sv -> stored db' s' v sv.
Proof.
  intros Hne [_ Hs]%delete_subject_hard_store (sd & Hsd & Hv).
  apply (stored_same_store _ _ _ _ _ Hs). exists sd. simpl. by rewrite dget_ddel_ne.
Qed.

Lemma stored_delete_schema sha1 s v db db' s' v' sv :
  (s', v') ≠ (s, v) -> delete_subject_schema sha1 s v db = Ok db' ->
  stored db s' v' sv -> stored db' s' v' sv.
Proof.
  intros Hne (sd & Hsd & Hs)%delete_subject_schema_store Hst.
  apply (stored_same_store _ _ _ _ _ Hs). apply stored_dupdate; [|done].
  intros -> sd' _ Hv. simpl. rewrite dget_ddel_ne by congruence. done.
Qed.

(** A version marked deleted keeps everything else. *)
Lemma stored_delete_subject sha1 s v db db' s' v' sv :
  delete_subject sha1 s v db = Ok db' -> stored db s' v' sv ->
  (s' ≠ s /\ stored db' s' v' sv) \/
  (s' = s /\ (stored db' s' v' sv \/ stored db' s' v' (mark_deleted sv))).
Proof.
  intros (sd0 & Hsd0 & Hs)%delete_subject_store (sd & Hsd & Hv).
  destruct (decide (s' = s)) as [->|Hne].
  - right. split; [done|].
    destruct (sv_version sv <=? v) eqn:E; [right|left]; apply (stored_same_store _ _ _ _ _ Hs);
      eexists; (split; [simpl; rewrite dget_dupdate_eq, Hsd; reflexivity|]); simpl;
      rewrite dget_dmap, Hv; simpl; by rewrite E.
  - left. split; [done|]. apply (stored_same_store _ _ _ _ _ Hs). apply stored_dupdate; [done|].
    by exists sd.
Qed.

(** ** The invariants *)

Lemma index_sound_insert sha1 s i v del sch refs db :
  db_wf sha1 db -> index_sound sha1 db -> op_guard sha1 (OpInsert s i v del sch refs) db ->
  index_sound sha1 (insert_schema_version sha1 s i v del sch refs db).
Proof.
  intros Hwf Hidx Hg s' fp j Hix. pose proof (stored_insert sha1 s i v del sch refs db) as [Hnew Hold].
  pose proof (cached_fingerprint sha1 db sch Hwf) as Hfp.
  destruct (insert_index sha1 s i v del sch refs db) as (db0 & Heq & Hf0 & _).
  rewrite Heq in Hix. unfold index_schema_version in Hix.
  assert (Hcase : (del = false /\ s' = s /\ fp = fingerprint sha1 (cached sha1 db sch) /\ j = i) \/
    (indexed db s' fp j /\ ~ (s' = s /\ fp = fingerprint sha1 (cached sha1 db sch)))).
  { destruct del; simpl in Hix.
    - apply indexed_del in Hix as [Hix Hn]. right. split; [by eapply indexed_ext|done].
    - eapply indexed_ext in Hix; [|apply fingerprints_ins_fold].
      apply indexed_set in Hix as [Hn|[Hix Hn]]; [left; tauto|right].
      split; [by eapply indexed_ext|done]. }
  rewrite Hfp in Hcase. destruct Hcase as [(-> & -> & -> & ->)|[Hix' Hn]].
  - exists v, (mkSchemaVersion s v false i (cached sha1 db sch) refs). by split_and!.
  - destruct (Hidx _ _ _ Hix') as (v' & sv & Hst & <- & <- & Hlive). exists v', sv.
    split; [|done]. apply Hold; [|done]. intros [= -> ->]. apply Hn. split; [done|].
    by destruct (Hg _ Hst).
Qed.

(** Operations that leave the index alone and keep every stored version. *)
Lemma index_sound_frame sha1 db db' :
  hash_to_schema_id_on_subject db' = hash_to_schema_id_on_subject db ->
  (forall s v sv, stored db s v sv -> stored db' s v sv) ->
  index_sound sha1 db -> index_sound sha1 db'.
Proof.
  intros Hf Hst Hidx s fp i Hix. destruct (Hidx s fp i) as (v & sv & H & Hr);
    [by eapply indexed_ext|]. exists v, sv. auto.
Qed.

Lemma index_sound_delete_subject sha1 s v db db' :
  index_sound sha1 db -> delete_subject sha1 s v db = Ok db' -> index_sound sha1 db'.
Proof.
  intros Hidx Hop s' fp i Hix. pose proof Hop as H. unfold delete_subject in H.
  apply bind_Ok in H as (sd & Hsd%dindex_inv & H). injection H as H. rewrite <- H in Hix.
  apply indexed_del_fold in Hix as [Hix Hn].
  destruct (Hidx s' fp i Hix) as (v' & sv & Hst & Hfp & Hr). exists v', sv. split; [|done].
  destruct (stored_delete_subject _ _ _ _ _ _ _ _ Hop Hst) as [[_ ?]|[-> _]]; [done|].
  destruct Hn. split; [done|]. exists sv. split; [|done].
  destruct Hst as (sd' & Hsd' & Hv). rewrite Hsd in Hsd'. injection Hsd' as <-.
  apply dvalues_In. exists v'. by apply dget_In.
Qed.

Lemma index_sound_delete_hard sha1 s db db' :
  index_sound sha1 db -> delete_subject_hard s db = Ok db' -> index_sound sha1 db'.
Proof.
  intros Hidx Hop s' fp i (m & Hm & Hf). pose proof Hop as H. unfold delete_subject_hard in H.
  apply bind_Ok in H as (sd & Hsd%dindex_inv & H). injection H as H. rewrite <- H in Hm.
  simpl in Hm. apply lookup_delete_Some in Hm as [Hne Hm]. rewrite fingerprints_remove_fold in Hm.
  destruct (Hidx s' fp i) as (v & sv & Hst & Hr); [by exists m|].
  exists v, sv. split; [|done]. by eapply (stored_hard sha1).
Qed.

Lemma index_sound_delete_schema sha1 s v db db' :
  index_sound sha1 db -> delete_subject_schema sha1 s v db = Ok db' -> index_sound sha1 db'.
Proof.
  intros Hidx Hop s' fp i Hix. pose proof Hop as H. unfold delete_subject_schema in H.
  apply bind_Ok in H as (sd & Hsd%dindex_inv & H).
  destruct (dget v (sd_schemas sd)) as [sv0|] eqn:Ev; [|injection H as <-; by apply Hidx].
  injection H as H. rewrite <- H in Hix. apply indexed_del in Hix as [Hix Hn].
  eapply indexed_ext in Hix; [|apply fingerprints_remove].
  destruct (Hidx s' fp i Hix) as (v' & sv & Hst & <- & Hr). exists v', sv.
  split; [|done]. eapply (stored_delete_schema sha1); [|exact Hop|done].
  intros [= -> ->]. apply Hn. split; [done|]. destruct Hst as (sd' & Hsd' & Hv). congruence.
Qed.

Lemma run_op_index_sound sha1 op db db' :
  db_wf sha1 db -> index_sound sha1 db -> op_guard sha1 op db -> run_op sha1 op db = Ok db' ->
  index_sound sha1 db'.
Proof.
  intros Hwf Hidx Hg. destruct op as [sch|s i v del sch refs|s|s c|s|s v|s|s v]; simpl run_op; intros H;
    try injection H as <-.
  - eapply index_sound_frame; [|intros ???; apply stored_get_schema_id|done].
    unfold get_schema_id. by destruct get_schema_id_from_storage.
  - by apply index_sound_insert.
  - eapply index_sound_frame; [|intros ???; apply stored_insert_subject|done]. done.
  - eapply index_sound_frame; [|intros ???; by apply stored_dupdate|done]. done.
  - eapply index_sound_frame; [|intros ???; by apply stored_dupdate|done]. done.
  - by eapply index_sound_delete_subject.
  - by eapply index_sound_delete_hard.
  - by eapply index_sound_delete_schema.
Qed.

(** The reference index. *)
Lemma refs_sound_frame db db' :
  (forall s v i, refers db' s v i -> refers db s v i) ->
  (forall s v sv, stored db s v sv -> exists sv', stored db' s v sv' /\
     sv_schema_id sv' = sv_schema_id sv /\ sv_references sv' = sv_references sv) ->
  refs_sound db -> refs_sound db'.
Proof.
  intros Hr Hst Hs s v i Hi. destruct (Hs s v i) as (s' & v' & sv & H & <- & Hh); [auto|].
  destruct (Hst _ _ _ H) as (sv' & H' & Hid & Href). exists s', v', sv'. split_and!; [done..|].
  unfold has_reference. by rewrite Href.
Qed.

Lemma refs_sound_insert sha1 s i v del sch refs db :
  refs_sound db -> op_guard sha1 (OpInsert s i v del sch refs) db ->
  refs_sound (insert_schema_version sha1 s i v del sch refs db).
Proof.
  intros Hs Hg s0 v0 j Hj. pose proof (stored_insert sha1 s i v del sch refs db) as [Hnew Hold].
  destruct (insert_index sha1 s i v del sch refs db) as (db0 & Heq & _ & Hr0).
  rewrite Heq in Hj. unfold index_schema_version in Hj.
  assert (Hcase : refers db s0 v0 j \/
    (j = i /\ exists r, r ∈ default [] refs /\ ref_subject r = s0 /\ ref_version r = v0)).
  { destruct del; simpl in Hj.
    - left. eapply refers_ext; [exact Hr0|]. eapply refers_ext; [|exact Hj]. apply referenced_by_del.
    - apply refers_ins_fold in Hj as [Hj|Hj]; [left|by right]. by eapply refers_ext. }
  destruct Hcase as [Hj'|[-> Hh]].
  - destruct (Hs _ _ _ Hj') as (s' & v' & sv & Hst & Hid & Hh).
    destruct (decide ((s', v') = (s, v))) as [E|E].
    + injection E as -> ->. destruct (Hg _ Hst) as (_ & Hid' & Href).
      eexists s, v, _. split; [exact Hnew|]. simpl. unfold has_reference in *. simpl.
      split; [congruence|]. by rewrite <- Href.
    + exists s', v', sv. auto.
  - eexists s, v, _. split; [exact Hnew|]. by split.
Qed.

Lemma refs_sound_delete_hard sha1 s db db' :
  refs_sound db -> run_op sha1 (OpDeleteSubjectHard s) db = Ok db' -> refs_sound db'.
Proof.
  intros Hs Hop s0 v0 j Hj. pose proof Hop as H. simpl in H. unfold delete_subject_hard in H.
  apply bind_Ok in H as (sd & Hsd%dindex_inv & H). injection H as H. rewrite <- H in Hj.
  apply (refers_ext (fold_left remove_references_of (dvalues (sd_schemas sd)) db)) in Hj; [|done].
  apply refers_remove_of_fold in Hj as [Hj Hn].
  destruct (Hs _ _ _ Hj) as (s' & v' & sv & Hst & Hid & Hh). exists s', v', sv. split; [|done].
  eapply stored_hard; [|exact Hop|done]. intros ->. destruct Hst as (sd' & Hsd' & Hv).
  apply Hn. exists sv. split; [|done]. apply dvalues_In. exists v'. apply dget_In. congruence.
Qed.

Lemma refs_sound_delete_schema sha1 s v db db' :
  refs_sound db -> delete_subject_schema sha1 s v db = Ok db' -> refs_sound db'.
Proof.
  intros Hs Hop s0 v0 j Hj. pose proof Hop as H. unfold delete_subject_schema in H.
  apply bind_Ok in H as (sd & Hsd%dindex_inv & H).
  destruct (dget v (sd_schemas sd)) as [sv0|] eqn:Ev; [|injection H as <-; by apply Hs].
  injection H as H. rewrite <- H in Hj. eapply refers_ext in Hj; [|apply referenced_by_del].
  apply refers_remove_fold in Hj as [Hj Hn].
  destruct (Hs _ _ _ Hj) as (s' & v' & sv & Hst & Hid & Hh). exists s', v', sv. split; [|done].
  eapply (stored_delete_schema sha1); [|exact Hop|done]. intros [= -> ->].
  destruct Hst as (sd' & Hsd' & Hv). assert (sv = sv0) as -> by congruence.
  apply Hn. split; [done|]. exact Hh.
Qed.

Lemma run_op_refs_sound sha1 op db db' :
  refs_sound db -> op_guard sha1 op db -> run_op sha1 op db = Ok db' -> refs_sound db'.
Proof.
  intros Hs Hg. destruct op as [sch|s i v del sch refs|s|s c|s|s v|s|s v]; intros H.
  - injection H as <-. eapply refs_sound_frame; [| |done].
    + intros s v i. apply refers_ext. unfold get_schema_id. by destruct get_schema_id_from_storage.
    + intros s v sv Hst. exists sv. split; [by apply stored_get_schema_id|done].
  - injection H as <-. by apply refs_sound_insert.
  - injection H as <-. eapply (refs_sound_frame db); [intros ???; by apply refers_ext| |done].
    intros ?? sv Hst. exists sv. split; [by apply stored_insert_subject|done].
  - injection H as <-. eapply (refs_sound_frame db); [intros ???; by apply refers_ext| |done].
    intros ?? sv Hst. exists sv. split; [by apply stored_dupdate|done].
  - injection H as <-. eapply (refs_sound_frame db); [intros ???; by apply refers_ext| |done].
    intros ?? sv Hst. exists sv. split; [by apply stored_dupdate|done].
  - eapply refs_sound_frame; [| |done].
    + intros s' v' i. apply refers_ext. simpl in H. unfold delete_subject in H.
      apply bind_Ok in H as (sd & _ & H). injection H as <-. by rewrite referenced_by_del_fold.
    + intros s' v' sv Hst.
      destruct (stored_delete_subject _ _ _ _ _ _ _ _ H Hst) as [[_ ?]|[_ [?|?]]];
        [by exists sv|by exists sv|by exists (mark_deleted sv)].
  - by eapply refs_sound_delete_hard.
  - by eapply refs_sound_delete_schema.
Qed.

Lemma db_reach_inv sha1 db :
  db_reach sha1 db -> db_wf sha1 db /\ index_sound sha1 db /\ refs_sound db.
Proof.
  induction 1 as [|op db db' _ (Hwf & Hi & Hr) Hg Hop].
  - split_and!; [apply wf_init| |].
    + intros s fp i (m & Hm & _). simpl in Hm. by rewrite lookup_empty in Hm.
    + intros s v i (R & HR & _). simpl in HR. by rewrite lookup_empty in HR.
  - split_and!; [by eapply run_op_wf|by eapply run_op_index_sound|by eapply run_op_refs_sound].
Qed.

Lemma index_live_version sha1 db s sch b i :
  db_reach sha1 db -> get_schema_id_if_exists sha1 db s sch b = Some i ->
  exists v sv, dget v (find_subject_schemas db s false) = Some sv /\
    sv_schema_id sv = i /\ fingerprint sha1 (sv_schema sv) = fingerprint sha1 sch.
Proof.
  intros (Hwf & Hidx & _)%db_reach_inv H. unfold get_schema_id_if_exists in H.
  destruct (hash_to_schema_id_on_subject db !! s) as [m|] eqn:E; [|done].
  destruct (Hidx s (fingerprint sha1 sch) i) as (v & sv & (sd & Hsd & Hv) & Hfp & Hid & Hdel);
    [by exists m|].
  exists v, sv. split; [|done]. unfold find_subject_schemas. rewrite Hsd.
  rewrite dget_dfilter by (by eapply wf_versions). rewrite Hv. unfold live. simpl. by rewrite Hdel.
Qed.

(** ** Properties *)

(** C15. The fast duplicate check is sound: after any history of operations from the empty
    database in which a version that is written again keeps its schema, id and references, when
    [get_schema_id_if_exists] finds an id for a schema under a subject, the subject has a
    version that is not deleted, has that id, and whose schema has the same fingerprint. Without
    the condition it is not: [reassigned_version_unsound]. *)
Theorem get_schema_id_if_exists_sound sha1 ops db s sch b i :
  run_ops (run_op sha1) ops InMemoryDatabase_init = Ok db ->
  rewrites_agree sha1 ops InMemoryDatabase_init ->
  get_schema_id_if_exists sha1 db s sch b = Some i ->
  exists v sv, dget v (find_subject_schemas db s false) = Some sv /\
    sv_schema_id sv = i /\ fingerprint sha1 (sv_schema sv) = fingerprint sha1 sch.
Proof.
  intros Hrun Hagree. apply index_live_version. eapply rewrites_agree_reach; [apply reach_init|done..].
Qed.

(** A version written again under another id leaves the old id in the index: the check answers
    an id that no version has. *)
Lemma reassigned_version_unsound :
  let sch := mkTyped AVRO "A" None None in
  let ops := [OpInsert "a" 1 1 false sch None; OpInsert "a" 2 1 false (mkTyped AVRO "B" None None) None] in
  exists db, run_ops (run_op id) ops InMemoryDatabase_init = Ok db /\
    get_schema_id_if_exists id db "a" sch false = Some 1 /\
    (map (fun kv => sv_schema_id kv.2) (find_subject_schemas db "a" true)) = [2].
Proof. eexists. split; [reflexivity|]. split; vm_compute; reflexivity. Qed.

(** The delete guard reports no phantom: in every reachable database, an id in
    [get_referenced_by subject version] is the id of a stored version, of some subject, whose
    references name that subject and version. *)
Theorem get_referenced_by_sound sha1 db s v R i :
  db_reach sha1 db -> get_referenced_by db s v = Some R -> i ∈ R ->
  exists s' v' sv, dget v' (find_subject_schemas db s' true) = Some sv /\ sv_schema_id sv = i /\
    exists r, r ∈ default [] (sv_references sv) /\ ref_subject r = s /\ ref_version r = v.
Proof.
  intros (_ & _ & Hs)%db_reach_inv HR Hi.
  destruct (Hs s v i) as (s' & v' & sv & (sd & Hsd & Hv) & Hid & Hh); [by exists R|].
  exists s', v', sv. split; [|done]. unfold find_subject_schemas. by rewrite Hsd.
Qed.

(** A reachable database with a referenced schema and a referencing one. *)
Definition example_ops : list DbOp :=
  [OpInsert "a" 1 1 false (mkTyped AVRO "A" None None) None;
   OpInsert "b" 2 1 false (mkTyped AVRO "B" (Some [mkReference "A" "a" 1]) None)
     (Some [mkReference "A" "a" 1])].

Definition example_db : InMemoryDatabase :=
  match run_ops (run_op id) example_ops InMemoryDatabase_init with
  | Ok db => db
  | Raise _ => InMemoryDatabase_init
  end.

Lemma example_db_reach : db_reach id example_db.
Proof.
  eapply (reach_step id (List.nth 1 example_ops (OpInsertSubject "")));
    [eapply (reach_step id (List.nth 0 example_ops (OpInsertSubject ""))); [apply reach_init| |]| |];
    try reflexivity.
  - simpl. intros sv (sd & Hsd & _). by vm_compute in Hsd.
  - simpl. intros sv (sd & Hsd & _). by vm_compute in Hsd.
Qed.

Lemma get_schema_id_if_exists_sound_witness :
  get_schema_id_if_exists id example_db "a" (mkTyped AVRO "A" None None) false = Some 1 /\
  exists v sv, dget v (find_subject_schemas example_db "a" false) = Some sv /\
    sv_schema_id sv = 1 /\
    fingerprint id (sv_schema sv) = fingerprint id (mkTyped AVRO "A" None None).
Proof.
  split; [vm_compute; reflexivity|].
  apply (get_schema_id_if_exists_sound id example_ops example_db "a" (mkTyped AVRO "A" None None) false 1);
    [vm_compute; reflexivity| |vm_compute; reflexivity].
  split; [|split; [|exact I]]; intros sv (sd & Hsd & _); by vm_compute in Hsd.
Defined.

Lemma get_referenced_by_sound_witness :
  get_referenced_by example_db "a" 1 = Some {[2]} /\
  exists s' v' sv, dget v' (find_subject_schemas example_db s' true) = Some sv /\
    sv_schema_id sv = 2 /\
    exists r, r ∈ default [] (sv_references sv) /\ ref_subject r = "a"%string /\ ref_version r = 1.
Proof.
  split; [vm_compute; reflexivity|].
  apply (get_referenced_by_sound id example_db "a" 1 {[2]} 2);
    [apply example_db_reach | vm_compute; reflexivity | by apply elem_of_singleton].
Defined.
