(* ===== verification/KeyFormat.v ===== *)
(** * Record keys of the schemas topic

    [core/key_format.py]: the canonical order of the members of a record key, the detection of
    keys that do not follow it, and the formatter that restores it. *)

From S2P Require Import Prelude Json.
Open Scope Z_scope.

Definition SCHEMA_KEY_ORDER : list string := ["keytype"; "subject"; "version"; "magic"]%string.
Definition CONFIG_KEY_ORDER : list string := ["keytype"; "subject"; "magic"]%string.
Definition NOOP_KEY_ORDER : list string := ["keytype"; "magic"]%string.

Definition CANONICAL_KEY_ORDERS : list (list string) :=
  [SCHEMA_KEY_ORDER; CONFIG_KEY_ORDER; NOOP_KEY_ORDER].

(** [sorted] on strings: by code points. *)
Fixpoint insert_str (x : string) (l : list string) : list string :=
  match l with
  | [] => [x]
  | y :: l' => match String.compare y x with Gt => x :: l | _ => y :: insert_str x l' end
  end.
Definition sorted_str (l : list string) : list string := fold_left (fun acc x => insert_str x acc) l [].

(** The mapping from sorted key tuples to their canonical order. *)
Definition KEY_ORDER : dict (list string) (list string) :=
  [(sorted_str SCHEMA_KEY_ORDER, SCHEMA_KEY_ORDER);
   (sorted_str CONFIG_KEY_ORDER, CONFIG_KEY_ORDER);
   (sorted_str NOOP_KEY_ORDER, NOOP_KEY_ORDER)].

Inductive KeyMode : Type := CANONICAL | DEPRECATED_KARAPACE.

#[global] Instance KeyMode_eq_dec : EqDecision KeyMode.
Proof. solve_decision. Defined.

(** [fixed_order.index(name)]; a name that is absent is a [ValueError] in Python, which cannot
    arise here since [fixed_order] is a permutation of the names. *)
Fixpoint index_of (x : string) (l : list string) : nat :=
  match l with
  | [] => O
  | y :: l' => if String.eqb x y then O else S (index_of x l')
  end.

(** Stable [sorted(items, key=...)]. *)
Fixpoint insert_item (rank : string -> nat) (x : string * json) (l : list (string * json)) :=
  match l with
  | [] => [x]
  | y :: l' => if (rank y.1 <=? rank x.1)%nat then y :: insert_item rank x l' else x :: l
  end.
Definition sorted_items (rank : string -> nat) (l : list (string * json)) : list (string * json) :=
  fold_left (fun acc x => insert_item rank x acc) l [].

(** The dict [corrected_key]. *)
Definition corrected_key (key : list (string * json)) : result (list (string * json)) :=
  keytype ← dindex "keytype" key;
  let subject := match dget "subject" key with Some s => [("subject", s)] | None => [] end in
  let version := match dget "version" key with Some v => [("version", v)] | None => [] end in
  magic ← dindex "magic" key;
  Ok (("keytype", keytype) :: subject ++ version ++ [("magic", magic)])%string.

(** The value [format_key] encodes, in the given mode. *)
Definition ordered_key (keymode : KeyMode) (key : list (string * json))
  : result (list (string * json)) :=
  match keymode with
  | DEPRECATED_KARAPACE => Ok key
  | CANONICAL =>
      corrected ← corrected_key key;
      fixed_order ← dindex (sorted_str (dkeys corrected)) KEY_ORDER;
      Ok (sorted_items (fun k => index_of k fixed_order) corrected)
  end.

Definition is_key_in_canonical_format (key : list (string * json)) : bool :=
  bool_decide (dkeys key ∈ CANONICAL_KEY_ORDERS).

(** [KeyFormatter]: the mode of the node and [format_key(key)] with no explicit mode. *)
Record KeyFormatter : Type := mkKeyFormatter { keymode : KeyMode }.
Definition KeyFormatter_init : KeyFormatter := mkKeyFormatter CANONICAL.
Definition set_keymode (m : KeyMode) (kf : KeyFormatter) : KeyFormatter := mkKeyFormatter m.

Definition format_key {bytes} `{!JsonCodec bytes} (kf : KeyFormatter)
  (key : list (string * json)) (mode : option KeyMode) : result bytes :=
  d ← ordered_key (default (keymode kf) mode) key; Ok (json_encode (JObj d)).

(** ** Lemmas *)

(** The four shapes a corrected key can have; the one without subject but with version has no
    canonical order. *)
Lemma ordered_key_canonical key kt mg :
  dget "keytype"%string key = Some kt -> dget "magic"%string key = Some mg ->
  ordered_key CANONICAL key =
    match dget "subject"%string key, dget "version"%string key with
    | Some s, Some v => Ok [("keytype", kt); ("subject", s); ("version", v); ("magic", mg)]
    | Some s, None => Ok [("keytype", kt); ("subject", s); ("magic", mg)]
    | None, None => Ok [("keytype", kt); ("magic", mg)]
    | None, Some _ => Raise KeyError
    end%string.
Proof.
  intros Hk Hm. assert (Ek : dindex "keytype"%string key = Ok kt) by (unfold dindex; by rewrite Hk).
  assert (Em : dindex "magic"%string key = Ok mg) by (unfold dindex; by rewrite Hm).
  unfold ordered_key, corrected_key. rewrite Ek. simpl. rewrite Em. simpl.
  by destruct (dget "subject" key), (dget "version" key).
Qed.

Lemma ordered_key_missing key :
  dget "keytype"%string key = None \/ dget "magic"%string key = None ->
  ordered_key CANONICAL key = Raise KeyError.
Proof.
  intros H. unfold ordered_key, corrected_key.
  assert (Hi : forall k, dget k key = None -> dindex k key = Raise KeyError)
    by (intros k E; unfold dindex; by rewrite E).
  destruct H as [H|H]; [by rewrite (Hi _ H)|].
  destruct (dindex "keytype"%string key) as [|e] eqn:E; simpl; [by rewrite (Hi _ H)|].
  unfold dindex in E. by destruct (dget "keytype" key); simplify_eq.
Qed.

Lemma json_wf_elem d k v : json_wf (JObj d) -> dget k d = Some v -> json_wf v.
Proof.
  intros [_ H] Hg%dget_In. induction d as [|[k' v'] d IH]; [by apply elem_of_nil in Hg|].
  destruct H as [Hv H]. apply elem_of_cons in Hg as [Heq|Hg]; [by simplify_eq|auto].
Qed.

(** ** Properties *)

(** In canonical mode [format_key] succeeds exactly on keys with a keytype, a magic and
    either no version or a subject; what is written decodes to a key in canonical format whose
    four members have the values of the input; every other key is a [KeyError]. *)
Theorem format_key_canonical {bytes} `{!JsonCodec bytes} `{!JsonCodecLaws bytes}
  (key : list (string * json)) :
  json_wf (JObj key) ->
  match format_key (bytes := bytes) KeyFormatter_init key None with
  | Ok b => exists d, json_decode b = Ok (JObj d) /\ is_key_in_canonical_format d = true /\
      (forall k, k ∈ SCHEMA_KEY_ORDER -> dget k d = dget k key)
  | Raise e => e = KeyError /\
      (dget "keytype"%string key = None \/ dget "magic"%string key = None \/
       (dget "subject"%string key = None /\ dget "version"%string key ≠ None))
  end.
Proof.
  intros Hwf. unfold format_key. cbn [default keymode KeyFormatter_init].
  destruct (dget "keytype"%string key) as [kt|] eqn:Hk;
    [|rewrite ordered_key_missing by tauto; simpl; tauto].
  destruct (dget "magic"%string key) as [mg|] eqn:Hm;
    [|rewrite ordered_key_missing by tauto; simpl; tauto].
  rewrite (ordered_key_canonical key kt mg Hk Hm).
  pose proof (json_wf_elem _ _ _ Hwf Hk) as Wk. pose proof (json_wf_elem _ _ _ Hwf Hm) as Wm.
  destruct (dget "subject"%string key) as [s|] eqn:Hs, (dget "version"%string key) as [v|] eqn:Hv;
    simpl; [| |naive_solver|];
    try (pose proof (json_wf_elem _ _ _ Hwf Hs)); try (pose proof (json_wf_elem _ _ _ Hwf Hv));
    (eexists; split; [apply decode_encode; simpl; split_and!; auto;
       apply (bool_decide_unpack _); vm_compute; exact I|]);
    (split; [reflexivity|]); unfold SCHEMA_KEY_ORDER; intros k Hin;
    repeat (apply elem_of_cons in Hin as [->|Hin]; [simpl; congruence|]);
    by apply elem_of_nil in Hin.
Qed.

Lemma format_key_canonical_witness :
  let key := [("subject", JStr "s"); ("version", JInt 1); ("magic", JInt 1);
              ("keytype", JStr "SCHEMA")]%string in
  match format_key (bytes := option json) KeyFormatter_init key None with
  | Ok b => exists d, json_decode b = Ok (JObj d) /\ is_key_in_canonical_format d = true /\
      (forall k, k ∈ SCHEMA_KEY_ORDER -> dget k d = dget k key)
  | Raise e => e = KeyError /\
      (dget "keytype"%string key = None \/ dget "magic"%string key = None \/
       (dget "subject"%string key = None /\ dget "version"%string key ≠ None))
  end.
Proof.
  intros key. apply format_key_canonical. simpl. split_and!; auto.
  apply (bool_decide_unpack _). vm_compute. exact I.
Defined.
