(* ===== verification/OffsetWatcher.v ===== *)
(** * The offset watcher

    [core/offset_watcher.py]: the schema reader reports the offsets it has processed, the
    producer waits until the offset of its record has been reported. A wait is given the offsets
    reported between its start and its timeout; [Condition.wait_for] tests its predicate first,
    then after every notification. *)

From S2P Require Import Prelude.
Open Scope Z_scope.

Record OffsetWatcher : Type := mkOffsetWatcher { greatest_offset : Z }.

Definition OffsetWatcher_init : OffsetWatcher := mkOffsetWatcher (-1).

Definition offset_seen (new_offset : Z) (w : OffsetWatcher) : OffsetWatcher :=
  mkOffsetWatcher (Z.max (greatest_offset w) new_offset).

Fixpoint wait_for_offset (expected_offset : Z) (reported : list Z) (w : OffsetWatcher)
  : OffsetWatcher * bool :=
  if expected_offset <=? greatest_offset w then (w, true)
  else match reported with
       | [] => (w, false)
       | o :: reported => wait_for_offset expected_offset reported (offset_seen o w)
       end.

(** ** Properties *)

(** A wait returns true exactly when the expected offset is covered by what had been seen
    or by one of the offsets reported before the timeout, in whatever order they come; the
    greatest offset never decreases. *)
Theorem wait_for_offset_spec (expected : Z) (reported : list Z) (w : OffsetWatcher) :
  ((wait_for_offset expected reported w).2 = true <->
     exists o, o ∈ greatest_offset w :: reported /\ expected <= o) /\
  greatest_offset w <= greatest_offset (wait_for_offset expected reported w).1.
Proof.
  revert w; induction reported as [|o l IH]; intros w; simpl;
    destruct (Z.leb_spec expected (greatest_offset w)) as [Hle|Hgt]; simpl.
  - split; [|lia]. split; [|done]. intros _. exists (greatest_offset w). split; [by left|lia].
  - split; [|lia]. split; [done|]. intros (o & Ho%list_elem_of_singleton & H). subst. lia.
  - split; [|lia]. split; [|done]. intros _. exists (greatest_offset w). split; [by left|lia].
  - destruct (IH (offset_seen o w)) as [IH1 IH2]. simpl in IH2. split; [|lia]. rewrite IH1.
    split; intros (x & Hx & Hle).
    + apply elem_of_cons in Hx as [->|Hx].
      * exists o. simpl in Hle. split; [right; by left|lia].
      * exists x. split; [right; by right|done].
    + apply elem_of_cons in Hx as [->|Hx]; [lia|].
      apply elem_of_cons in Hx as [->|Hx].
      * exists (Z.max (greatest_offset w) o). split; [by left|lia].
      * exists x. split; [by right|done].
Qed.
