(* ===== verification/Reader.v ===== *)
(** * The schema reader

    [core/schema_reader.py], [core/kafka_error_handler.py]: the thread that consumes the schemas
    topic and applies every record to the database. The state holds the attributes of
    [KafkaSchemaReader] that change, the database behind its abstract interface, the global
    compatibility level of the shared config, the key formatter and the offset watcher. The
    Kafka consumer is an input: the messages a poll returns and the watermarks it reports. The
    schema libraries are the fields of [SchemaLib].

    Records are decoded JSON objects; a field whose value does not have the type the code
    declares for it (a subject that is not a string, say) is a [TypeError] here, where Python
    would in some cases store it. *)

From S2P Require Import Prelude Json Typing Models Schemas Database KeyFormat OffsetWatcher.
Open Scope Z_scope.

(** ** State *)

Definition OFFSET_UNINITIALIZED : Z := -2.
Definition MAX_MESSAGES_TO_CONSUME_ON_STARTUP : Z := 1000.
Definition MAX_MESSAGES_TO_CONSUME_AFTER_STARTUP : Z := 1.
Definition UNHEALTHY_TIMEOUT_SECONDS : Z := 10.
Definition UNHEALTHY_CONSECUTIVE_ERRORS : Z := 3.

Inductive MessageType : Type := MT_config | MT_schema | MT_delete_subject | MT_no_operation.

(** [MessageType(key["keytype"])] *)
Definition message_type_of (j : json) : result MessageType :=
  match j with
  | JStr s =>
      if String.eqb s "CONFIG" then Ok MT_config
      else if String.eqb s "SCHEMA" then Ok MT_schema
      else if String.eqb s "DELETE_SUBJECT" then Ok MT_delete_subject
      else if String.eqb s "NOOP" then Ok MT_no_operation
      else Raise ValueError
  | _ => Raise ValueError
  end.

(** The metrics the reader reports: record counters and the last gauges. *)
Record Stats : Type := mkStats {
  records_canonical : Z;
  records_deprecated : Z;
  gauge_subjects : nat;
  gauge_schemas : nat;
  gauge_versions : nat * nat;
}.

Record ReaderState (DB : Type) : Type := mkReader {
  database : DB;
  compatibility : string;
  key_formatter : KeyFormatter;
  offset_watcher : OffsetWatcher;
  offset : Z;
  highest_offset_ : Z;
  ready : bool;
  max_messages_to_process : Z;
  startup_previous_processed_offset : Z;
  stats : Stats;
  consecutive_unexpected_errors : Z;
  consecutive_unexpected_errors_start : Z;
  stopped : bool;
  schema_reader_strict_mode : bool;
}.
Arguments mkReader {DB}.
Arguments database {DB}.
Arguments compatibility {DB}.
Arguments key_formatter {DB}.
Arguments offset_watcher {DB}.
Arguments offset {DB}.
Arguments highest_offset_ {DB}.
Arguments ready {DB}.
Arguments max_messages_to_process {DB}.
Arguments startup_previous_processed_offset {DB}.
Arguments stats {DB}.
Arguments consecutive_unexpected_errors {DB}.
Arguments consecutive_unexpected_errors_start {DB}.
Arguments stopped {DB}.
Arguments schema_reader_strict_mode {DB}.

(** [KafkaSchemaReader.__init__], over a fresh database and the configured compatibility level
    and strictness. *)
Definition KafkaSchemaReader_init {DB} (db : DB) (compat : string) (strict : bool)
  : ReaderState DB :=
  mkReader db compat KeyFormatter_init OffsetWatcher_init OFFSET_UNINITIALIZED
    OFFSET_UNINITIALIZED false MAX_MESSAGES_TO_CONSUME_ON_STARTUP 0 (mkStats 0 0 0 0 (O, O))
    0 0 false strict.

Section setters.
Context {DB : Type}.

Definition set_database v (st : ReaderState DB) : ReaderState DB := mkReader v (compatibility st) (key_formatter st)
  (offset_watcher st) (offset st) (highest_offset_ st) (ready st) (max_messages_to_process st)
  (startup_previous_processed_offset st) (stats st) (consecutive_unexpected_errors st)
  (consecutive_unexpected_errors_start st) (stopped st) (schema_reader_strict_mode st).
Definition set_compat_level v (st : ReaderState DB) : ReaderState DB := mkReader (database st) v (key_formatter st)
  (offset_watcher st) (offset st) (highest_offset_ st) (ready st) (max_messages_to_process st)
  (startup_previous_processed_offset st) (stats st) (consecutive_unexpected_errors st)
  (consecutive_unexpected_errors_start st) (stopped st) (schema_reader_strict_mode st).
Definition set_key_formatter v (st : ReaderState DB) : ReaderState DB := mkReader (database st) (compatibility st) v
  (offset_watcher st) (offset st) (highest_offset_ st) (ready st) (max_messages_to_process st)
  (startup_previous_processed_offset st) (stats st) (consecutive_unexpected_errors st)
  (consecutive_unexpected_errors_start st) (stopped st) (schema_reader_strict_mode st).
Definition set_offset_watcher v (st : ReaderState DB) : ReaderState DB := mkReader (database st) (compatibility st)
  (key_formatter st) v (offset st) (highest_offset_ st) (ready st) (max_messages_to_process st)
  (startup_previous_processed_offset st) (stats st) (consecutive_unexpected_errors st)
  (consecutive_unexpected_errors_start st) (stopped st) (schema_reader_strict_mode st).
Definition set_offset v (st : ReaderState DB) : ReaderState DB := mkReader (database st) (compatibility st) (key_formatter st)
  (offset_watcher st) v (highest_offset_ st) (ready st) (max_messages_to_process st)
  (startup_previous_processed_offset st) (stats st) (consecutive_unexpected_errors st)
  (consecutive_unexpected_errors_start st) (stopped st) (schema_reader_strict_mode st).
(** What [_is_ready] writes: highest offset, previous offset, batch size. *)
Definition set_progress h p mx (st : ReaderState DB) : ReaderState DB := mkReader (database st) (compatibility st)
  (key_formatter st) (offset_watcher st) (offset st) h (ready st) mx p (stats st)
  (consecutive_unexpected_errors st) (consecutive_unexpected_errors_start st) (stopped st)
  (schema_reader_strict_mode st).
Definition set_ready v (st : ReaderState DB) : ReaderState DB := mkReader (database st) (compatibility st) (key_formatter st)
  (offset_watcher st) (offset st) (highest_offset_ st) v (max_messages_to_process st)
  (startup_previous_processed_offset st) (stats st) (consecutive_unexpected_errors st)
  (consecutive_unexpected_errors_start st) (stopped st) (schema_reader_strict_mode st).
Definition set_stats v (st : ReaderState DB) : ReaderState DB := mkReader (database st) (compatibility st) (key_formatter st)
  (offset_watcher st) (offset st) (highest_offset_ st) (ready st) (max_messages_to_process st)
  (startup_previous_processed_offset st) v (consecutive_unexpected_errors st)
  (consecutive_unexpected_errors_start st) (stopped st) (schema_reader_strict_mode st).
Definition set_errors n t stop (st : ReaderState DB) : ReaderState DB := mkReader (database st) (compatibility st)
  (key_formatter st) (offset_watcher st) (offset st) (highest_offset_ st) (ready st)
  (max_messages_to_process st) (startup_previous_processed_offset st) (stats st) n t stop
  (schema_reader_strict_mode st).
End setters.

(** [SchemaReaderStoppper]: what the coordinator may do with a reader. *)
Class SchemaReaderStoppper (R : Type) : Type := {
  stoppper_ready : R -> bool;
  stoppper_set_not_ready : R -> R;
}.

#[global] Instance Reader_Stoppper {DB} : SchemaReaderStoppper (ReaderState DB) := {|
  stoppper_ready := ready;
  stoppper_set_not_ready := set_ready false;
|}.

(** A message of the topic, as the consumer yields it; the error is the translated one. *)
Record Message (bytes : Type) : Type := mkMessage {
  msg_key : option bytes;
  msg_value : option bytes;
  msg_error : option exn;
  msg_offset : Z;
}.
Arguments mkMessage {bytes}.
Arguments msg_key {bytes}.
Arguments msg_value {bytes}.
Arguments msg_error {bytes}.
Arguments msg_offset {bytes}.

(** ** Operations *)

Section Reader.
Context {DB : Type} `{!KarapaceDatabase DB} {bytes : Type} `{!JsonCodec bytes} `{!SchemaLib}.
(** Nesting of [resolve_references] calls the interpreter allows; beyond it Python raises
    [RecursionError], a [RuntimeError]. *)
Context (recursion_limit : nat).

Abbreviation State := (ReaderState DB) (only parsing).

(** *** References *)

(** [_resolve_and_validate]; [resolve] is [self.resolve_references]. *)
Definition resolve_and_validate
  (resolve : list AnyReference -> result (list Reference * Dependencies)) (schema : TypedSchema)
  : result TypedSchema :=
  match ts_references schema with
  | Some (r :: refs) =>
      '(references, dependencies) ← resolve (map Resolved (r :: refs));
      validated_parse (schema_type schema) (schema_str schema) (Some references) (Some dependencies)
  | refs =>
      validated_parse (schema_type schema) (schema_str schema) refs (ts_dependencies schema)
  end.

(** [_resolve_reference]; a stored version always has a schema, so the test for a missing one
    never fires. *)
Definition resolve_reference
  (resolve : list AnyReference -> result (list Reference * Dependencies)) (db : DB)
  (reference : AnyReference) : result (Reference * Dependency) :=
  let subject_data := db_find_subject_schemas db (reference_subject reference) false in
  match subject_data with
  | [] => Raise InvalidReferences
  | _ =>
      reference ← match reference with
                  | Resolved r => Ok r
                  | LatestVersionReference name subject =>
                      v ← max_version (dkeys subject_data);
                      Ok (LatestVersionReference_resolve name subject v)
                  end;
      match dget (ref_version reference) subject_data with
      | None => Raise InvalidReferences
      | Some schema_version =>
          validated ← resolve_and_validate resolve (sv_schema schema_version);
          Ok (reference, Dependency_of reference validated)
      end
  end.

(** The loop of [resolve_references]. *)
Fixpoint resolve_loop (resolve1 : AnyReference -> result (Reference * Dependency))
  (references : list AnyReference) (resolved : list Reference) (dependencies : Dependencies)
  : result (list Reference * Dependencies) :=
  match references with
  | [] => Ok (resolved, dependencies)
  | reference :: references =>
      '(r, d) ← resolve1 reference;
      resolve_loop resolve1 references (resolved ++ [r]) (dset (ref_name r) d dependencies)
  end.

Fixpoint resolve_references (depth : nat) (db : DB) (references : list AnyReference)
  : result (list Reference * Dependencies) :=
  match depth with
  | O => Raise RuntimeError
  | S depth =>
      resolve_loop (resolve_reference (resolve_references depth db) db) references [] []
  end.

(** *** Message handlers *)

Definition on_db (f : DB -> DB) : M State () := modify (fun st => set_database (f (database st)) st).
Definition try_db (f : DB -> result DB) : M State () := fun st =>
  match f (database st) with
  | Ok db => (set_database db st, Ok ())
  | Raise e => (st, Raise e)
  end.

Definition read_level (value : list (string * json)) : result string :=
  read_str "compatibilityLevel" value.

Definition handle_msg_config (key : list (string * json)) (value : option (list (string * json)))
  : M State () :=
  match jget "subject" key with
  | JNull =>
      match value with
      | Some value => level ← lift (read_level value); modify (set_compat_level level)
      | None => mret ()
      end
  | JStr subject =>
      found ← gets (fun st => db_find_subject (database st) subject);
      _ ← match found with None => on_db (db_insert_subject subject) | Some _ => mret () end;
      match value with
      | None | Some [] => on_db (db_delete_subject_compatibility subject)
      | Some value =>
          level ← lift (read_level value);
          on_db (db_set_subject_compatibility subject level)
      end
  | _ => raise TypeError
  end.

Definition handle_msg_delete_subject (key : list (string * json))
  (value : option (list (string * json))) : M State () :=
  match value with
  | None => raise ValueError
  | Some value =>
      subject ← lift (read_str "subject" value);
      version ← lift (j ← dindex "version"%string value; Version_init j);
      found ← gets (fun st => db_find_subject (database st) subject);
      match found with
      | None => mret ()
      | Some _ => try_db (db_delete_subject subject version)
      end
  end.

Definition handle_msg_schema_hard_delete (key : list (string * json)) : M State () :=
  subject ← lift (read_str "subject" key);
  version ← lift (j ← dindex "version"%string key; Version_init j);
  found ← gets (fun st => db_find_subject (database st) subject);
  match found with
  | None => mret ()
  | Some _ =>
      present ← gets (fun st => din version (db_find_subject_schemas (database st) subject true));
      if negb present then mret ()
      else
        _ ← try_db (db_delete_subject_schema subject version);
        left ← gets (fun st => db_find_subject_schemas (database st) subject true);
        match left with
        | [] => try_db (db_delete_subject_hard subject)
        | _ => mret ()
        end
  end.

(** [value.get("references", None)] when truthy, as reference objects. *)
Definition read_references (refs : json) : result (list AnyReference) :=
  match refs with
  | JList l => map_res (fun j => match j with
                                 | JObj d => reference_from_mapping d
                                 | _ => Raise TypeError
                                 end) l
  | _ => Raise TypeError
  end.

(** The references and dependencies of a schema record: none for JSON schemas. *)
Definition record_references (db : DB) (schema_type : SchemaType) (refs : json)
  : result (option (list Reference) * option Dependencies) :=
  match schema_type with
  | JSONSCHEMA => Ok (None, None)
  | _ =>
      if truthy refs then
        reraise (fun e => bool_decide (e = InvalidReferences)) InvalidSchema
          (candidate ← read_references refs;
           '(rs, ds) ← resolve_references recursion_limit db candidate;
           Ok (Some rs, Some ds))
      else Ok (None, None)
  end.

(** Re-encoding of the schema text, with the parsed protobuf text when there is one. *)
Definition record_schema_str (schema_type : SchemaType) (schema_str : string)
  (references : option (list Reference)) (dependencies : option Dependencies)
  : result (string * option (result string)) :=
  match schema_type with
  | AVRO | JSONSCHEMA =>
      s ← reraise (fun e => bool_decide (e = JSONDecodeError)) InvalidSchema
            (json_dumps_sorted schema_str);
      Ok (s, None)
  | PROTOBUF =>
      s ← reraise (fun e => bool_decide (e = InvalidSchema) || is_protobuf_exception e) InvalidSchema
            (p ← parse_protobuf_schema_definition schema_str references dependencies false false false; p);
      Ok (s, Some (Ok s))
  end.

(** The part of [_handle_msg_schema] that reads the record and builds the [TypedSchema]. *)
Record SchemaRecord : Type := mkSchemaRecord {
  rec_subject : Subject;
  rec_id : SchemaId;
  rec_version : Version;
  rec_deleted : bool;
  rec_schema : TypedSchema;
  rec_references : option (list Reference);
}.

Definition parse_schema_record (db : DB) (value : list (string * json)) : result SchemaRecord :=
  let schema_type := jget_default "schemaType" (JStr "AVRO") value in
  schema_str ← read_str "schema" value;
  schema_subject ← read_str "subject" value;
  schema_id ← read_int "id" value;
  schema_version ← (j ← dindex "version"%string value; Version_init j);
  let schema_deleted := truthy (jget_default "deleted" (JBool false) value) in
  let schema_references := jget "references" value in
  schema_type_parsed ← reraise is_value_error InvalidSchema (schema_type_of_json schema_type);
  '(references, dependencies) ← record_references db schema_type_parsed schema_references;
  '(schema_str, parsed) ← record_schema_str schema_type_parsed schema_str references dependencies;
  typed_schema ← reraise (fun e => bool_decide (e = InvalidSchema) || bool_decide (e = JSONDecodeError))
    InvalidSchema (TypedSchema_init schema_type_parsed schema_str parsed references dependencies);
  Ok (mkSchemaRecord schema_subject schema_id schema_version schema_deleted typed_schema references).

Definition handle_msg_schema (key : list (string * json)) (value : option (list (string * json)))
  : M State () :=
  match value with
  | None | Some [] => handle_msg_schema_hard_delete key
  | Some value => fun st =>
      match parse_schema_record (database st) value with
      | Ok r => on_db (db_insert_schema_version (rec_subject r) (rec_id r) (rec_version r)
                  (rec_deleted r) (rec_schema r) (rec_references r)) st
      | Raise e => (st, Raise e)
      end
  end.

Definition handle_msg (key : list (string * json)) (value : option (list (string * json)))
  : M State () :=
  match dget "keytype"%string key with
  | None => raise InvalidSchema
  | Some keytype =>
      catch (message_type ← lift (message_type_of keytype);
             match message_type with
             | MT_config => handle_msg_config key value
             | MT_schema => handle_msg_schema key value
             | MT_delete_subject => handle_msg_delete_subject key value
             | MT_no_operation => mret ()
             end)
        (fun e => raise (if bool_decide (e = KeyError) || is_value_error e then InvalidSchema else e))
  end.

(** *** Consuming a batch *)

(** [KafkaErrorHandler.handle_schema_reader_error] *)
Definition handle_schema_reader_error (e : exn) : M State () := fun st =>
  if schema_reader_strict_mode st then (st, Raise CorruptKafkaRecordException) else (st, Ok ()).

Definition bytes_empty (b : option bytes) : bool :=
  match b with None => true | Some b => bool_decide (b = empty_bytes) end.

(** The first [try] block: the decoded key, or [None] for a placeholder record. *)
Definition decode_key (msg : Message bytes) : result (option json) :=
  match msg_error msg with
  | Some e => Raise e
  | None =>
      if bytes_empty (msg_key msg) && bytes_empty (msg_value msg) then Ok None
      else match msg_key msg with
           | None => Raise AssertionError
           | Some b => Some <$> json_decode b
           end
  end.

Definition parse_message_value (raw_value : bytes) : result (option (list (string * json))) :=
  value ← json_decode raw_value;
  match value with
  | JObj d => Ok (Some d)
  | JNull => Ok None
  | JStr s => if String.eqb s "" then Ok None else Raise TypeError
  | _ => Raise TypeError
  end.

(** [if message_value: ...]: [None] or an empty value is no value. *)
Definition message_value (msg : Message bytes) : result (option (list (string * json))) :=
  match msg_value msg with
  | Some b => if bool_decide (b = empty_bytes) then Ok None else parse_message_value b
  | None => Ok None
  end.

Definition detect_keymode (key : list (string * json)) : KeyMode :=
  if is_key_in_canonical_format key then CANONICAL else DEPRECATED_KARAPACE.

Definition update_keymode (msg_keymode : KeyMode) : M State () :=
  modify (fun st =>
    if bool_decide (keymode (key_formatter st) = CANONICAL)
       && bool_decide (msg_keymode = DEPRECATED_KARAPACE)
    then set_key_formatter (set_keymode DEPRECATED_KARAPACE (key_formatter st)) st else st).

(** [msg.key().decode()] *)
Definition decoded_key (msg : Message bytes) : result string :=
  match msg_key msg with Some b => bytes_decode b | None => Raise AttributeError end.

(** What happens to an exception of the first [try] block. A key that is not JSON is decoded for
    the log first, which raises for bytes that are not UTF-8. *)
Definition key_error (msg : Message bytes) (e : exn) : M State () :=
  match e with
  | AssertionError =>
      _ ← modify (set_offset (msg_offset msg)); handle_schema_reader_error e
  | JSONDecodeError =>
      _ ← lift (decoded_key msg);
      _ ← modify (set_offset (msg_offset msg)); handle_schema_reader_error e
  | GroupAuthorizationFailedError | TopicAuthorizationFailedError => fun st =>
      if schema_reader_strict_mode st then (st, Raise ShutdownException) else (st, Ok ())
  | _ => raise e
  end.

(** [try: handle_msg ... finally: self.offset = msg.offset()]; [true] when the record was
    applied, [false] when the error handler let it be skipped. *)
Definition apply_message (msg : Message bytes) (key : list (string * json))
  (value : option (list (string * json))) : M State bool := fun st =>
  let '(st, r) :=
    match handle_msg key value st with
    | (st, Ok _) => (st, Ok true)
    | (st, Raise ((InvalidSchema | InvalidVersion | TypeError) as e)) =>
        (_ ← handle_schema_reader_error e; mret false) st
    | (st, Raise e) => (st, Raise e)
    end in
  (set_offset (msg_offset msg) st, r).

(** One iteration of the loop: the key mode when the record counts as processed. *)
Definition consume_message (watch_offsets : bool) (msg : Message bytes) : M State (option KeyMode) :=
  match decode_key msg with
  | Raise e => _ ← key_error msg e; mret None
  | Ok None => _ ← modify (set_offset (msg_offset msg)); mret None
  | Ok (Some (JObj key)) =>
      let msg_keymode := detect_keymode key in
      _ ← update_keymode msg_keymode;
      match message_value msg with
      | Raise ((JSONDecodeError | TypeError) as e) =>
          _ ← modify (set_offset (msg_offset msg)); _ ← handle_schema_reader_error e; mret None
      | Raise e => raise e
      | Ok value =>
          applied ← apply_message msg key value;
          if negb applied then mret None
          else
            _ ← modify (fun st => if ready st && watch_offsets
                                  then set_offset_watcher (offset_seen (offset st) (offset_watcher st)) st
                                  else st);
            mret (Some msg_keymode)
      end
  | Ok (Some _) => raise AssertionError
  end.

Fixpoint consume_loop (watch_offsets : bool) (msgs : list (Message bytes)) (canonical deprecated : Z)
  : M State (Z * Z) :=
  match msgs with
  | [] => mret (canonical, deprecated)
  | msg :: msgs =>
      counted ← consume_message watch_offsets msg;
      match counted with
      | Some CANONICAL => consume_loop watch_offsets msgs (canonical + 1) deprecated
      | Some DEPRECATED_KARAPACE => consume_loop watch_offsets msgs canonical (deprecated + 1)
      | None => consume_loop watch_offsets msgs canonical deprecated
      end
  end.

Definition update_schema_gauges : M State () := modify (fun st =>
  set_stats (mkStats (records_canonical (stats st)) (records_deprecated (stats st))
    (db_num_subjects (database st)) (db_num_schemas (database st))
    (db_num_schema_versions (database st))) st).

Definition report_schema_metrics (canonical deprecated : Z) : M State () :=
  _ ← modify (fun st => set_stats (mkStats (records_canonical (stats st) + canonical)
        (records_deprecated (stats st) + deprecated) (gauge_subjects (stats st))
        (gauge_schemas (stats st)) (gauge_versions (stats st))) st);
  update_schema_gauges.

Definition consume_messages (msgs : list (Message bytes)) (watch_offsets : bool) : M State () :=
  '(canonical, deprecated) ← consume_loop watch_offsets msgs 0 0;
  report_schema_metrics canonical deprecated.

(** *** Readiness and the main loop *)

(** [_is_ready], given what [get_watermark_offsets] returns or raises. *)
Definition is_ready (watermarks : result (Z * Z)) : M State bool :=
  match watermarks with
  | Raise _ => mret false
  | Ok (_, end_offset) =>
      let highest := end_offset - 1 in
      _ ← modify (fun st => set_progress highest (offset st) (max_messages_to_process st) st);
      caught_up ← gets (fun st => highest <=? offset st);
      if (caught_up : bool) then
        _ ← modify (fun st => set_progress highest (offset st) MAX_MESSAGES_TO_CONSUME_AFTER_STARTUP st);
        _ ← update_schema_gauges;
        mret true
      else mret false
  end.

Definition update_is_ready_flag (watermarks : result (Z * Z)) : M State () :=
  r ← gets (fun st : State => ready st);
  if negb r then new_ready ← is_ready watermarks; modify (set_ready new_ready) else mret ().

(** [handle_messages]; [primary] is [get_master_info().primary] of the coordinator, [None]
    without one. *)
Definition handle_messages (poll : result (list (Message bytes))) (watermarks : result (Z * Z))
  (primary : option bool) : M State () :=
  msgs ← lift poll;
  _ ← update_is_ready_flag watermarks;
  consume_messages msgs (match primary with Some true => true | _ => false end).

(** [_get_beginning_offset] *)
Definition get_beginning_offset (watermarks : result (Z * Z)) : Z :=
  match watermarks with
  | Ok (beginning_offset, _) => beginning_offset - 1
  | Raise _ => OFFSET_UNINITIALIZED
  end.

(** One round of the [while not self._stop_schema_reader.is_set()] loop of [run]; [now] is the
    monotonic clock. *)
Definition run_round (begin_marks : result (Z * Z)) (poll : result (list (Message bytes)))
  (end_marks : result (Z * Z)) (primary : option bool) (now : Z) (st : State) : State :=
  if stopped st then st
  else
    let st := if offset st =? OFFSET_UNINITIALIZED
              then set_offset (get_beginning_offset begin_marks) st else st in
    match handle_messages poll end_marks primary st with
    | (st, Ok _) => set_errors 0 (consecutive_unexpected_errors_start st) (stopped st) st
    | (st, Raise e) =>
        let n := consecutive_unexpected_errors st in
        if is_shutdown e then set_errors n (consecutive_unexpected_errors_start st) true st
        else match e with
             | KafkaUnavailableError =>
                 set_errors (n + 1) (consecutive_unexpected_errors_start st) (stopped st) st
             | _ => set_errors (n + 1)
                      (if n + 1 =? 1 then now else consecutive_unexpected_errors_start st)
                      (stopped st) st
             end
    end.

(** [is_healthy]; [topic_described] tells whether describing the topic succeeded. *)
Definition is_healthy (st : State) (now : Z) (topic_described : bool) : bool :=
  if (UNHEALTHY_CONSECUTIVE_ERRORS <=? consecutive_unexpected_errors st)
     && (UNHEALTHY_TIMEOUT_SECONDS <=? now - consecutive_unexpected_errors_start st)
  then false else topic_described.

Definition highest_offset (st : State) : Z :=
  Z.max (highest_offset_ st) (greatest_offset (offset_watcher st)).
End Reader.
