(* ===== verification/ReaderSpec.v ===== *)
(** * Properties of the schema reader

    The reader's theorems about the database are proved against [DatabaseStep], a relation that
    every mutating operation of a [KarapaceDatabase] respects; the in-memory database provides
    two instances: preservation of its invariant, and growth of the set of known ids. *)

From S2P Require Import Prelude Json Typing Models Schemas Database DatabaseSpec KeyFormat OffsetWatcher Reader.
Open Scope Z_scope.

(** ** The interface *)

Class DatabaseStep {DB : Type} `{!KarapaceDatabase DB} (R : relation DB) : Prop := {
  step_preorder :: PreOrder R;
  step_get_schema_id : forall db sch, R db (db_get_schema_id db sch).1;
  step_insert : forall s i v del sch refs db, R db (db_insert_schema_version s i v del sch refs db);
  step_insert_subject : forall s db, R db (db_insert_subject s db);
  step_set_compatibility : forall s c db, R db (db_set_subject_compatibility s c db);
  step_delete_compatibility : forall s db, R db (db_delete_subject_compatibility s db);
  step_delete_subject : forall s v db db', db_delete_subject s v db = Ok db' -> R db db';
  step_delete_subject_hard : forall s db db', db_delete_subject_hard s db = Ok db' -> R db db';
  step_delete_subject_schema : forall s v db db', db_delete_subject_schema s v db = Ok db' -> R db db';
}.

(** Any relation kept by the operations of [DbOp] is such an interface. *)
Lemma DatabaseStep_of_ops (sha1 : string -> string) (R : relation InMemoryDatabase)
  `{!PreOrder R} :
  (forall op db db', run_op sha1 op db = Ok db' -> R db db') ->
  @DatabaseStep _ (InMemoryDatabase_KarapaceDatabase sha1) R.
Proof.
  intros H. split; [done|..]; simpl; intros.
  - by apply (H (OpGetSchemaId sch)).
  - by apply (H (OpInsert s i v del sch refs)).
  - by apply (H (OpInsertSubject s)).
  - by apply (H (OpSetCompatibility s c)).
  - by apply (H (OpDeleteCompatibility s)).
  - by apply (H (OpDeleteSubject s v)).
  - by apply (H (OpDeleteSubjectHard s)).
  - by apply (H (OpDeleteSubjectSchema s v)).
Qed.

(** The invariant is kept. *)
Definition keeps_wf (sha1 : string -> string) : relation InMemoryDatabase :=
  fun db db' => db_wf sha1 db -> db_wf sha1 db'.

#[global] Instance keeps_wf_preorder sha1 : PreOrder (keeps_wf sha1).
Proof. unfold keeps_wf; split; red; auto. Qed.

#[global] Instance keeps_wf_step sha1 :
  @DatabaseStep _ (InMemoryDatabase_KarapaceDatabase sha1) (keeps_wf sha1).
Proof. apply DatabaseStep_of_ops; [apply _|]. intros op db db' Hop Hwf. by eapply run_op_wf. Qed.

(** Known ids stay known and the id counter never goes back. *)
Definition ids_grow : relation InMemoryDatabase := fun db db' =>
  global_schema_id db <= global_schema_id db' /\
  forall i, is_Some (dget i (schemas db)) -> is_Some (dget i (schemas db')).

#[global] Instance ids_grow_preorder : PreOrder ids_grow.
Proof. unfold ids_grow; split; red; intuition (try lia; eauto). Qed.

Lemma same_store_ids_grow db db' : same_store db db' -> ids_grow db db'.
Proof. intros (Hg & _ & Hi & _). split; [lia|]. by rewrite Hi. Qed.

#[global] Instance ids_grow_step sha1 :
  @DatabaseStep _ (InMemoryDatabase_KarapaceDatabase sha1) ids_grow.
Proof.
  apply DatabaseStep_of_ops; [apply _|]. intros op db db'.
  destruct op as [sch|s i v del sch refs|s|s c|s|s v|s|s v]; intros H; try injection H as <-;
    try (split; simpl; [lia|done]).
  - unfold get_schema_id. destruct (get_schema_id_from_storage db sch); split; simpl; done || lia.
  - destruct (insert_subjects sha1 s i v del sch refs db) as (_ & Hsch & Hid & _).
    split; rewrite ?Hsch, ?Hid; [lia|]. intros j. apply dset_is_Some.
  - apply delete_subject_store in H as (_ & _ & H). by apply same_store_ids_grow in H.
  - apply delete_subject_hard_store in H as (_ & H). by apply same_store_ids_grow in H.
  - apply delete_subject_schema_store in H as (_ & _ & H). by apply same_store_ids_grow in H.
Qed.

(** ** The reader respects the interface *)

Section reader_steps.
Context {DB : Type} `{!KarapaceDatabase DB} {bytes : Type} `{!JsonCodec bytes} `{!SchemaLib}.
Context (recursion_limit : nat) (R : relation DB) `{!DatabaseStep R}.

Definition on_database : relation (ReaderState DB) := fun st st' => R (database st) (database st').

#[local] Instance on_database_preorder : PreOrder on_database.
Proof. unfold on_database; split; red; intros; [reflexivity|etrans; eauto]. Qed.

Lemma steps_on_db f : (forall db, R db (f db)) -> steps on_database (on_db f).
Proof. intros Hf st. apply Hf. Qed.

Lemma steps_try_db f : (forall db db', f db = Ok db' -> R db db') -> steps on_database (try_db f).
Proof.
  intros Hf st. unfold try_db, on_database. destruct (f (database st)) eqn:E; simpl; [auto|reflexivity].
Qed.

Lemma steps_same f : (forall st : ReaderState DB, database (f st) = database st) ->
  steps on_database (modify f).
Proof. intros Hf. apply steps_modify. intros st. unfold on_database. rewrite Hf. reflexivity. Qed.

(** Discharges the step of one database operation. *)
Ltac db_step :=
  first
    [ apply steps_on_db; intros;
      first [apply step_insert | apply step_insert_subject | apply step_set_compatibility
            | apply step_delete_compatibility]
    | apply steps_try_db; intros ??;
      first [apply step_delete_subject | apply step_delete_subject_hard
            | apply step_delete_subject_schema]
    | apply steps_same; done ].

Lemma steps_handle_msg key value : steps on_database (handle_msg recursion_limit key value).
Proof.
  unfold handle_msg. monad_steps. apply steps_catch; [apply _| |monad_steps].
  apply steps_bind; [apply _|apply steps_lift, _|]. intros [].
  - unfold handle_msg_config. monad_steps; db_step.
  - unfold handle_msg_schema, handle_msg_schema_hard_delete. monad_steps; try db_step.
    all: intros st; destruct (parse_schema_record _ _ _); [|reflexivity].
    all: revert st; db_step.
  - unfold handle_msg_delete_subject. monad_steps; db_step.
  - monad_steps.
Qed.

Lemma steps_handle_error e : steps on_database (handle_schema_reader_error e).
Proof. intros st. unfold handle_schema_reader_error. by destruct (schema_reader_strict_mode st). Qed.

Lemma steps_key_error (msg : Message bytes) e : steps on_database (key_error msg e).
Proof.
  unfold key_error. destruct e; monad_steps; try (by apply steps_same); try apply steps_handle_error;
    intros st; by destruct (schema_reader_strict_mode st).
Qed.

Lemma steps_apply_message (msg : Message bytes) key value :
  steps on_database (apply_message recursion_limit msg key value).
Proof.
  intros st. unfold apply_message. pose proof (steps_handle_msg key value st) as Hs.
  destruct (handle_msg recursion_limit key value st) as [st' [u|e]]; simpl in *; [done|].
  assert (He : forall e', R (database st') (database (handle_schema_reader_error e' st').1))
    by (intros e'; apply steps_handle_error).
  unfold on_database in *.
  destruct e; simpl; try done;
    match goal with |- context [handle_schema_reader_error ?e] => specialize (He e) end;
    unfold mbind, M_bind; destruct (handle_schema_reader_error _ st') as [st2 [[]|e']]; simpl in *;
    by etrans.
Qed.

Lemma steps_consume_message w (msg : Message bytes) :
  steps on_database (consume_message recursion_limit w msg).
Proof.
  unfold consume_message, update_keymode. monad_steps;
    try apply steps_key_error; try apply steps_handle_error; try apply steps_apply_message;
    try (apply steps_same; intros st; by repeat split_match).
Qed.

Lemma steps_consume_loop w (msgs : list (Message bytes)) c d :
  steps on_database (consume_loop recursion_limit w msgs c d).
Proof.
  revert c d; induction msgs as [|msg msgs IH]; intros c d; simpl; [monad_steps|].
  apply steps_bind; [apply _|apply steps_consume_message|]. intros [[]|]; apply IH.
Qed.

Lemma steps_consume_messages (msgs : list (Message bytes)) w :
  steps on_database (consume_messages recursion_limit msgs w).
Proof.
  unfold consume_messages. apply steps_bind; [apply _|apply steps_consume_loop|]. intros [c d].
  unfold report_schema_metrics, update_schema_gauges.
  apply steps_bind; [apply _|by apply steps_same|]. intros _. by apply steps_same.
Qed.
End reader_steps.

(** ** Exceptions that leave a handler *)

(** Deletions of the database raise [KeyError] and nothing else. *)
Class DatabaseErrors {DB : Type} `{!KarapaceDatabase DB} : Prop := {
  delete_subject_raises s v (db : DB) : raises_res (fun e => e = KeyError) (db_delete_subject s v db);
  delete_subject_hard_raises s (db : DB) :
    raises_res (fun e => e = KeyError) (db_delete_subject_hard s db);
  delete_subject_schema_raises s v (db : DB) :
    raises_res (fun e => e = KeyError) (db_delete_subject_schema s v db);
}.

Lemma dindex_raises {K V} `{EqDecision K} (k : K) (d : dict K V) :
  raises_res (fun e => e = KeyError) (dindex k d).
Proof. unfold dindex. destruct (dget k d); [done|]. by intros e [= <-]. Qed.

#[global] Instance InMemoryDatabase_errors sha1 :
  @DatabaseErrors _ (InMemoryDatabase_KarapaceDatabase sha1).
Proof.
  split; simpl; intros.
  - apply raises_res_bind; [apply dindex_raises|done].
  - apply raises_res_bind; [apply dindex_raises|done].
  - apply raises_res_bind; [apply dindex_raises|]. intros sd. by destruct (dget v (sd_schemas sd)).
Qed.

(** What can come out of [handle_msg]: what the loop skips, or what leaves it: exhaustion of the stack,
    and what reading or printing a protobuf text raises beside its syntax errors. *)
Definition skipped (e : exn) : Prop := e = InvalidSchema \/ e = InvalidVersion \/ e = TypeError.
Definition unskipped (e : exn) : Prop :=
  e = RuntimeError \/ is_protobuf_exception e = true \/
  e ∈ [AttributeError; DecodeError; IndexError; NotImplementedError; OtherError].
Definition handler_error (e : exn) : Prop := skipped e \/ unskipped e.
(** Inside the handlers, [KeyError] and [ValueError] may also be raised. *)
Definition inner_error (e : exn) : Prop :=
  handler_error e \/ e = KeyError \/ is_value_error e = true.
Definition ref_error (e : exn) : Prop := inner_error e \/ e = InvalidReferences.

Lemma resolve_loop_raises P f refs rs ds :
  Forall (fun r => raises_res P (f r)) refs -> raises_res P (resolve_loop f refs rs ds).
Proof.
  intros Hf. revert rs ds; induction Hf as [|r refs Hr Hrs IH]; intros rs ds; simpl; [done|].
  apply raises_res_bind; [done|]. intros [r' d]. apply IH.
Qed.

Section reader_errors.
Context {DB : Type} `{!KarapaceDatabase DB} `{!DatabaseErrors} {bytes : Type} `{!JsonCodec bytes}
  `{!SchemaLib} `{!SchemaLibErrors}.
Context (recursion_limit : nat).

Ltac inner := unfold ref_error, inner_error, handler_error, skipped, unskipped; naive_solver.

Lemma inner_dindex {K V} `{EqDecision K} (k : K) (d : dict K V) : raises_res inner_error (dindex k d).
Proof. eapply raises_res_weaken; [|apply dindex_raises]. inner. Qed.

Lemma inner_Version_init j : raises_res inner_error (Version_init j).
Proof.
  intros e. destruct j; simpl; try (intros [= <-]; inner); try done.
  destruct (_ <? _); [|done]. intros [= <-]; inner.
Qed.

Lemma inner_read_str k d : raises_res inner_error (read_str k d).
Proof.
  unfold read_str. apply raises_res_bind; [apply inner_dindex|].
  intros []; try done; intros e [= <-]; inner.
Qed.

Lemma inner_read_int k d : raises_res inner_error (read_int k d).
Proof.
  unfold read_int. apply raises_res_bind; [apply inner_dindex|].
  intros []; try done; intros e [= <-]; inner.
Qed.

Lemma inner_reference_from_mapping d : raises_res inner_error (reference_from_mapping d).
Proof.
  unfold reference_from_mapping. apply raises_res_bind; [apply inner_read_str|]. intros n.
  apply raises_res_bind; [apply inner_read_str|]. intros s.
  apply raises_res_bind; [apply inner_read_int|]. intros v. destruct (v =? -1); [done|].
  by apply raises_res_bind; [apply inner_Version_init|].
Qed.

Lemma inner_read_references j : raises_res inner_error (read_references j).
Proof.
  destruct j; try (intros e [= <-]; inner). apply raises_res_map.
  intros []; try (intros e [= <-]; inner). apply inner_reference_from_mapping.
Qed.

Lemma inner_text e : text_failure e -> inner_error e.
Proof. intros [->|[He|[->|He]]]; unfold inner_error, handler_error, unskipped; [inner|tauto|inner|tauto]. Qed.

Lemma inner_validated_parse t s refs deps : raises_res inner_error (validated_parse t s refs deps).
Proof.
  intros e He. pose proof (parse_cases t s true true refs deps false false) as Hc.
  unfold validated_parse in He. rewrite He in Hc. destruct Hc as [->|[[_ ->]|[_ Hc]]]; [inner..|by apply inner_text].
Qed.

Lemma ref_inner {A} (r : result A) : raises_res inner_error r -> raises_res ref_error r.
Proof. apply raises_res_weaken. inner. Qed.

Lemma ref_resolve_reference resolve db r :
  (forall l, raises_res ref_error (resolve l)) -> raises_res ref_error (resolve_reference resolve db r).
Proof.
  intros Hr. unfold resolve_reference. destruct (db_find_subject_schemas _ _ _) as [|p l] eqn:El;
    [intros e [= <-]; inner|].
  apply raises_res_bind.
  - destruct r; [done|]. apply raises_res_bind; [|done]. done.
  - intros rf. destruct (dget _ _); [|intros e [= <-]; inner].
    apply raises_res_bind; [|done]. unfold resolve_and_validate.
    destruct (ts_references _) as [[|x refs]|]; try apply ref_inner, inner_validated_parse.
    apply raises_res_bind; [apply Hr|]. intros [rs ds]. apply ref_inner, inner_validated_parse.
Qed.

Lemma ref_resolve_references depth db refs :
  raises_res ref_error (resolve_references depth db refs).
Proof.
  revert refs; induction depth as [|depth IH]; intros refs; simpl; [intros e [= <-]; inner|].
  apply resolve_loop_raises, Forall_forall. intros r _. by apply ref_resolve_reference.
Qed.

(** Re-encoding and construction of the schema object, with what follows. *)
Lemma inner_record_schema {A} t str refs deps (k : TypedSchema -> result A) :
  (forall sch, raises_res inner_error (k sch)) ->
  raises_res inner_error
    ('(str', parsed) ← record_schema_str t str refs deps;
     typed ← reraise (fun e => bool_decide (e = InvalidSchema) || bool_decide (e = JSONDecodeError))
       InvalidSchema (TypedSchema_init t str' parsed refs deps);
     k typed).
Proof.
  intros Hk. unfold record_schema_str, TypedSchema_init, normalize_schema_str.
  assert (Htext : forall t, raises_res inner_error
    (s ← reraise (fun e => bool_decide (e = JSONDecodeError)) InvalidSchema (json_dumps_sorted str);
     typed ← reraise (fun e => bool_decide (e = InvalidSchema) || bool_decide (e = JSONDecodeError))
       InvalidSchema (s' ← normalize_json s; Ok (mkTyped t s' refs deps)); k typed)).
  { intros t'. pose proof (json_dumps_sorted_raises str) as Hd.
    destruct (json_dumps_sorted str) as [d|e]; simpl; [|rewrite (Hd e) by done; intros e' [= <-]; inner].
    pose proof (normalize_json_raises d) as Hn.
    destruct (normalize_json d) as [n|e]; simpl; [apply Hk|].
    rewrite (Hn e) by done. intros e' [= <-]; inner. }
  pose proof (parse_protobuf_raises str refs deps false false false) as Hp.
  pose proof (print_protobuf_raises str refs deps false false false) as Hs.
  destruct t; simpl; [| |destruct (parse_protobuf_schema_definition str refs deps _ _ _) as [[s|e]|e];
    simpl; [apply Hk| |]].
  - specialize (Htext AVRO). destruct (json_dumps_sorted str); simpl in *; [|case_bool_decide]; done.
  - specialize (Htext JSONSCHEMA). destruct (json_dumps_sorted str); simpl in *; [|case_bool_decide]; done.
  - specialize (Hs _ eq_refl e eq_refl). destruct (_ || _); simpl; intros e' [= <-]; [inner|by apply inner_text].
  - specialize (Hp e eq_refl). destruct (_ || _); simpl; intros e' [= <-]; [inner|].
    destruct Hp as [->|Hp]; [inner|]. by apply inner_text.
Qed.

Lemma inner_parse_schema_record db value :
  raises_res inner_error (parse_schema_record recursion_limit db value).
Proof.
  unfold parse_schema_record.
  apply raises_res_bind; [apply inner_read_str|]. intros str.
  apply raises_res_bind; [apply inner_read_str|]. intros subj.
  apply raises_res_bind; [apply inner_read_int|]. intros i.
  apply raises_res_bind; [apply raises_res_bind; [apply inner_dindex|apply inner_Version_init]|]. intros v.
  apply raises_res_bind.
  { apply raises_res_reraise; [inner|]. intros e He. destruct (jget_default _ _ _); simpl in He;
      repeat case_match; simplify_eq; done. }
  intros t. apply raises_res_bind.
  { unfold record_references. destruct t; try done; destruct (truthy _); try done.
    all: apply raises_res_reraise; [inner|]; eapply (raises_res_weaken ref_error);
      [intros e [He| ->]; [by intros _|done]|].
    all: apply raises_res_bind; [apply ref_inner, inner_read_references|]; intros c.
    all: apply raises_res_bind; [apply ref_resolve_references|by intros [rs ds]]. }
  intros [refs deps]. by apply inner_record_schema.
Qed.
Lemma raises_try_db (f : DB -> result DB) :
  (forall db, raises_res (fun e => e = KeyError) (f db)) -> raises inner_error (try_db f).
Proof.
  intros Hf st e. unfold try_db. specialize (Hf (database st)).
  destruct (f (database st)); simpl; [done|]. intros [= <-]. rewrite (Hf e0) by done. inner.
Qed.

Lemma raises_read {A} (r : result A) :
  raises_res inner_error r -> raises (S := ReaderState DB) inner_error (lift r).
Proof. apply raises_lift. Qed.

Lemma inner_read_version (d : list (string * json)) :
  raises_res inner_error (j ← dindex "version"%string d; Version_init j).
Proof. apply raises_res_bind; [apply inner_dindex|apply inner_Version_init]. Qed.

#[local] Hint Resolve raises_try_db delete_subject_raises delete_subject_hard_raises
  delete_subject_schema_raises inner_read_str inner_read_version raises_read : karapace.

Lemma raises_handle_msg key value :
  raises handler_error (handle_msg (DB := DB) recursion_limit key value).
Proof.
  unfold handle_msg. destruct (dget "keytype"%string key) as [j|];
    [|apply raises_raise; unfold handler_error, skipped; tauto].
  assert (Hbody : raises inner_error
    (message_type ← lift (S := ReaderState DB) (message_type_of j);
     match message_type with
     | MT_config => handle_msg_config key value
     | MT_schema => handle_msg_schema recursion_limit key value
     | MT_delete_subject => handle_msg_delete_subject key value
     | MT_no_operation => mret ()
     end)).
  { apply raises_bind.
    - apply raises_lift. intros e. unfold message_type_of. repeat case_match; try done;
        intros [= <-]; inner.
    - intros []; [| | |done].
      + unfold handle_msg_config, read_level. monad_steps; apply raises_raise; inner.
      + unfold handle_msg_schema.
        assert (Hhard : raises inner_error (handle_msg_schema_hard_delete (DB := DB) key))
          .
        { unfold handle_msg_schema_hard_delete; monad_steps; apply raises_try_db; intros;
          first [apply delete_subject_schema_raises | apply delete_subject_hard_raises]. }
        destruct value as [[|p l]|]; [done| |done]. intros st e.
        pose proof (inner_parse_schema_record (database st) (p :: l)) as Hp.
        destruct (parse_schema_record _ _ _); simpl; [done|]. intros [= <-]. by apply Hp.
      + unfold handle_msg_delete_subject. monad_steps; try (apply raises_raise; inner).
        apply raises_try_db. intros. apply delete_subject_raises. }
  eapply raises_catch; [exact Hbody|]. intros e He. apply raises_raise. unfold handler_error, skipped.
  destruct He as [He|[->|He]]; [|tauto|rewrite He, orb_true_r; tauto].
  case_bool_decide; simpl; [tauto|]. destruct (is_value_error e); [tauto|done].
Qed.
End reader_errors.

(** ** What a handler leaves alone *)

(** Everything but the database and the global compatibility level. *)
Definition handler_frame {DB} : relation (ReaderState DB) := fun st st' =>
  key_formatter st' = key_formatter st /\ offset_watcher st' = offset_watcher st /\
  offset st' = offset st /\ ready st' = ready st /\ stats st' = stats st /\
  schema_reader_strict_mode st' = schema_reader_strict_mode st.

#[global] Instance handler_frame_preorder {DB} : PreOrder (@handler_frame DB).
Proof. unfold handler_frame; split; red; intuition congruence. Qed.

Section frames.
Context {DB : Type} `{!KarapaceDatabase DB} {bytes : Type} `{!JsonCodec bytes} `{!SchemaLib}.
Context (recursion_limit : nat).

Lemma frame_on_db (f : DB -> DB) : steps handler_frame (on_db f).
Proof. intros st. done. Qed.

Lemma frame_try_db (f : DB -> result DB) : steps handler_frame (try_db f).
Proof. intros st. unfold try_db. by destruct (f (database st)). Qed.

#[local] Hint Resolve frame_on_db frame_try_db : karapace.

Lemma frame_handle_msg key value : steps handler_frame (handle_msg (DB := DB) recursion_limit key value).
Proof.
  unfold handle_msg. monad_steps. apply steps_catch; [apply _| |monad_steps].
  apply steps_bind; [apply _|apply steps_lift, _|]. intros [].
  - unfold handle_msg_config. monad_steps. by intros st.
  - unfold handle_msg_schema, handle_msg_schema_hard_delete. monad_steps.
    all: intros st; destruct (parse_schema_record _ _ _); done.
  - unfold handle_msg_delete_subject. monad_steps.
  - monad_steps.
Qed.

(** Bytes that JSON or [JSONDecodeError] is read from: not undecodable, nor nested too deeply. *)
Definition readable (b : bytes) : Prop := raises_res (fun e => e = JSONDecodeError) (json_decode b).

(** A message the consumer delivers without error, whose key is a text that, when it is JSON, is an
    object. *)
Definition well_framed (msg : Message bytes) : Prop :=
  msg_error msg = None /\
  (forall b, msg_key msg = Some b -> readable b /\ (exists s, bytes_decode b = Ok s) /\
     forall j, json_decode b = Ok j -> exists d, j = JObj d) /\
  (forall b, msg_value msg = Some b -> readable b).

(** The key of a message is an object whose members are not in a canonical order. *)
Definition deprecated_key (msg : Message bytes) : bool :=
  match decode_key msg with
  | Ok (Some (JObj d)) => negb (is_key_in_canonical_format d)
  | _ => false
  end.

Definition join_keymode (m : KeyMode) (deprecated : bool) : KeyMode :=
  if deprecated then DEPRECATED_KARAPACE else m.

Lemma update_keymode_spec key st :
  (update_keymode (detect_keymode key) st).2 = Ok () /\
  keymode (key_formatter (update_keymode (detect_keymode key) st).1) =
    join_keymode (keymode (key_formatter st)) (negb (is_key_in_canonical_format key)) /\
  (update_keymode (detect_keymode key) st).1 =
    set_key_formatter (key_formatter (update_keymode (detect_keymode key) st).1) st :> ReaderState DB.
Proof.
  unfold update_keymode, detect_keymode, modify, join_keymode. simpl.
  destruct st as [? ? [[]]]; simpl; destruct (is_key_in_canonical_format key); simpl; done.
Qed.

#[local] Arguments update_keymode {_} _ : simpl never.
#[local] Arguments apply_message : simpl never.

Context `{!DatabaseErrors (DB := DB)} `{!SchemaLibErrors}.

Lemma decode_key_cases (msg : Message bytes) :
  well_framed msg ->
  decode_key msg = Ok None \/ (exists d, decode_key msg = Ok (Some (JObj d))) \/
  decode_key msg = Raise AssertionError \/
  (decode_key msg = Raise JSONDecodeError /\ exists s, decoded_key msg = Ok s).
Proof.
  intros (He & Hk & _). unfold decode_key, decoded_key. rewrite He. destruct (_ && _); [by left|].
  destruct (msg_key msg) as [b|] eqn:Eb; [|tauto]. destruct (Hk b eq_refl) as (Hd & [s Hs] & Hj).
  unfold readable in Hd. destruct (json_decode b) as [j|e] eqn:Ej; simpl.
  - destruct (Hj j eq_refl) as [d ->]. eauto.
  - rewrite (Hd e) by done. eauto 6.
Qed.

(** An invalid key that is not UTF-8 either ends the batch before the offset moves. *)
Lemma undecodable_key_raises w (msg : Message bytes) st :
  decode_key msg = Raise JSONDecodeError -> decoded_key msg = Raise UnicodeDecodeError ->
  consume_message (DB := DB) recursion_limit w msg st = (st, Raise UnicodeDecodeError).
Proof.
  intros Hk Hd. unfold consume_message. rewrite Hk. unfold key_error. by rewrite Hd.
Qed.

Lemma message_value_cases (msg : Message bytes) : well_framed msg ->
  (exists v, message_value msg = Ok v) \/ message_value msg = Raise JSONDecodeError \/
  message_value msg = Raise TypeError.
Proof.
  intros (_ & _ & Hv). unfold message_value, parse_message_value. destruct (msg_value msg) as [b|]; [|eauto].
  case_bool_decide; [eauto|]. pose proof (Hv b eq_refl) as Hd. unfold readable in Hd.
  destruct (json_decode b) as [[]|e]; simpl; eauto; [destruct (String.eqb _ _); eauto|].
  rewrite (Hd e) by done. tauto.
Qed.

(** The tolerant mode: a record is applied or skipped, and the offset moves past it. *)
Lemma apply_message_tolerant (msg : Message bytes) key value st :
  schema_reader_strict_mode st = false ->
  let res := apply_message (DB := DB) recursion_limit msg key value st in
  schema_reader_strict_mode res.1 = false /\ offset res.1 = msg_offset msg /\
  key_formatter res.1 = key_formatter st /\ ready res.1 = ready st /\
  offset_watcher res.1 = offset_watcher st /\
  ((exists b, res.2 = Ok b) \/ exists e, res.2 = Raise e /\ unskipped e).
Proof.
  intros Hs. unfold apply_message. pose proof (frame_handle_msg key value st) as Hf.
  pose proof (raises_handle_msg recursion_limit key value st) as Hr.
  destruct (handle_msg recursion_limit key value st) as [st' [u|e]] eqn:Hm; simpl in *.
  - destruct Hf as (? & ? & ? & ? & ? & ?). split_and!; try congruence; eauto.
  - destruct Hf as (? & ? & ? & ? & ? & ?).
    destruct (Hr e eq_refl) as [[->|[->| ->]]|He].
    1-3: simpl; unfold mbind, M_bind, handle_schema_reader_error;
      replace (schema_reader_strict_mode st') with false by congruence; simpl; split_and!; try congruence; eauto.
    assert (E : apply_message recursion_limit msg key value st = (set_offset (msg_offset msg) st', Raise e)).
    { unfold apply_message. rewrite Hm. destruct e; try done; by destruct He as [He|[He|He]]; [..|set_solver]. }
    unfold apply_message in E. rewrite Hm in E. rewrite E. simpl. split_and!; try congruence. right. eauto.
Qed.

Lemma consume_message_tolerant w (msg : Message bytes) st st' r :
  well_framed msg -> schema_reader_strict_mode st = false ->
  consume_message (DB := DB) recursion_limit w msg st = (st', r) ->
  schema_reader_strict_mode st' = false /\ offset st' = msg_offset msg /\
  ready st' = ready st /\
  keymode (key_formatter st') = join_keymode (keymode (key_formatter st)) (deprecated_key msg) /\
  ((exists c, r = Ok c) \/ exists e, r = Raise e /\ unskipped e).
Proof.
  intros Hw Hs. unfold consume_message, deprecated_key.
  destruct (decode_key_cases msg Hw) as [E|[[d E]|[E|[E [k Ek]]]]]; rewrite E.
  - intros [= <- <-]. simpl. split_and!; eauto.
  - destruct (update_keymode_spec d st) as (H1 & H2 & H3).
    intros [([] & st1 & Hu & Hk)|(e & Hu & _)]%M_bind_inv; rewrite Hu in H1, H2, H3; simpl in *; [|done].
    assert (Hs1 : schema_reader_strict_mode st1 = false) by (by rewrite H3).
    assert (Hr1 : ready st1 = ready st) by (by rewrite H3). clear H1 H3 Hu.
    destruct (message_value_cases msg Hw) as [[v Ev]|[Ev|Ev]]; rewrite Ev in Hk.
    + destruct (apply_message_tolerant msg d v st1 Hs1) as (Ha & Hb & Hc & Hd & _ & He).
      apply M_bind_inv in Hk as [(b & st2 & Ham & Hk)|(e & Ham & ->)]; rewrite Ham in *; simpl in *.
      * destruct b; injection Hk as <- <-; [destruct (ready st2 && w)|]; simpl;
          split_and!; try congruence; eauto.
      * split_and!; try congruence. destruct He as [[? [=]]|(? & [= ->] & He)]. right. eauto.
    + unfold mbind, M_bind, modify, handle_schema_reader_error in Hk; simpl in Hk. rewrite Hs1 in Hk.
      injection Hk as <- <-. simpl. split_and!; eauto.
    + unfold mbind, M_bind, modify, handle_schema_reader_error in Hk; simpl in Hk. rewrite Hs1 in Hk.
      injection Hk as <- <-. simpl. split_and!; eauto.
  - intros Hk. unfold mbind, M_bind, key_error, modify, handle_schema_reader_error in Hk.
    unfold mbind, M_bind in Hk. simpl in Hk. rewrite Hs in Hk.
    injection Hk as <- <-. simpl. split_and!; eauto.
  - intros Hk. unfold mbind, M_bind, key_error, modify, handle_schema_reader_error in Hk. rewrite Ek in Hk.
    unfold mbind, M_bind in Hk. simpl in Hk. rewrite Hs in Hk.
    injection Hk as <- <-. simpl. split_and!; eauto.
Qed.

Definition last_offset (msgs : list (Message bytes)) (default_offset : Z) : Z :=
  match last msgs with Some msg => msg_offset msg | None => default_offset end.

Lemma last_offset_cons msg msgs o : last_offset (msg :: msgs) o = last_offset msgs (msg_offset msg).
Proof.
  destruct msgs as [|m msgs]; [done|]. unfold last_offset.
  change (last (msg :: m :: msgs)) with (last (m :: msgs)).
  destruct (last (m :: msgs)) eqn:E; [done|]. by apply last_None in E.
Qed.

Lemma consume_loop_tolerant w (msgs : list (Message bytes)) c d st st' r :
  Forall well_framed msgs -> schema_reader_strict_mode st = false ->
  consume_loop (DB := DB) recursion_limit w msgs c d st = (st', r) ->
  schema_reader_strict_mode st' = false /\ ready st' = ready st /\
  ((exists cd, r = Ok cd /\ offset st' = last_offset msgs (offset st) /\
     keymode (key_formatter st') =
       join_keymode (keymode (key_formatter st)) (existsb deprecated_key msgs)) \/
   exists e, r = Raise e /\ unskipped e).
Proof.
  intros Hw. revert c d st; induction Hw as [|msg msgs Hm Hms IH]; intros c d st Hs.
  - intros [= <- <-]. split_and!; eauto 10.
  - simpl. intros [(k & st1 & Hc & Hl)|(e & Hc & ->)]%M_bind_inv;
      apply consume_message_tolerant in Hc as (Hs1 & Ho & Hr & Hk & He); auto.
    + rewrite last_offset_cons. assert (Hl' : exists c' d', consume_loop recursion_limit w msgs c' d' st1 = (st', r))
        by (destruct k as [[]|]; eauto). destruct Hl' as (c' & d' & Hl').
      apply IH in Hl' as (Hs' & Hr' & Hcase); [|done].
      split_and!; [done|congruence|]. destruct Hcase as [(cd & -> & Ho' & Hk')|Hcase]; [left|by right].
      exists cd. split_and!; [done|congruence|]. rewrite Hk', Hk. unfold join_keymode.
      by destruct (deprecated_key msg), (existsb deprecated_key msgs).
    + split_and!; [done..|]. right. destruct He as [[? He]|(e1 & He & He1)]; [done|]. injection He as ->. eauto.
Qed.

(** A message whose handling raises ends the batch: the messages behind it are not applied, although the
    consumer has handed them out. *)
Lemma consume_loop_app w (msgs : list (Message bytes)) rest c d st :
  consume_loop (DB := DB) recursion_limit w (msgs ++ rest) c d st =
  let '(st1, r) := consume_loop recursion_limit w msgs c d st in
  match r with Ok (c', d') => consume_loop recursion_limit w rest c' d' st1 | Raise e => (st1, Raise e) end.
Proof.
  revert c d st; induction msgs as [|msg msgs IH]; intros c d st; [done|]. cbn [app consume_loop].
  unfold mbind, M_bind. destruct (consume_message _ _ _ _) as [st1 [[[]|]|e]]; [apply IH..|done].
Qed.
Lemma exception_drops_batch w (msgs : list (Message bytes)) msg rest st st1 cd st2 e :
  consume_loop (DB := DB) recursion_limit w msgs 0 0 st = (st1, Ok cd) ->
  consume_message recursion_limit w msg st1 = (st2, Raise e) ->
  consume_messages recursion_limit (msgs ++ msg :: rest) w st = (st2, Raise e).
Proof.
  intros Hl Hm. unfold consume_messages, mbind, M_bind. rewrite consume_loop_app, Hl. destruct cd as [c d].
  cbn [consume_loop]. unfold mbind, M_bind. by rewrite Hm.
Qed.

Lemma consume_messages_tolerant w (msgs : list (Message bytes)) st st' r :
  Forall well_framed msgs -> schema_reader_strict_mode st = false ->
  consume_messages (DB := DB) recursion_limit msgs w st = (st', r) ->
  (r = Ok () /\ offset st' = last_offset msgs (offset st) /\
     keymode (key_formatter st') =
       join_keymode (keymode (key_formatter st)) (existsb deprecated_key msgs)) \/
  exists e, r = Raise e /\ unskipped e.
Proof.
  intros Hw Hs. unfold consume_messages.
  intros [([c d] & st1 & Hl & Hm)|(e & Hl & ->)]%M_bind_inv;
    apply consume_loop_tolerant in Hl as (_ & _ & Hc); auto.
  - injection Hm as <- <-. left. destruct Hc as [(cd & Hcd & Ho & Hk)|(e1 & He & _)]; [|done]. injection Hcd as <-. by simpl.
  - right. destruct Hc as [(cd & He & _)|(e1 & He & He1)]; [done|]. injection He as ->. eauto.
Qed.
End frames.

(** ** Reference resolution terminates on acyclic references *)

Section termination.
Context {DB : Type} `{!KarapaceDatabase DB} `{!SchemaLib} `{!SchemaLibErrors}.
Context (db : DB) (rank : Subject -> Version -> nat).

(** Every reference of a live version names a version of lower rank. *)
Definition references_ranked : Prop :=
  forall s v sv r, dget v (db_find_subject_schemas db s false) = Some sv ->
    r ∈ default [] (ts_references (sv_schema sv)) ->
    (rank (ref_subject r) (ref_version r) < rank s v)%nat.

(** The version a reference resolves to. *)
Definition target_version (r : AnyReference) : option Version :=
  match r with
  | Resolved r => Some (ref_version r)
  | LatestVersionReference _ s =>
      match max_version (dkeys (db_find_subject_schemas db s false)) with
      | Ok v => Some v
      | Raise _ => None
      end
  end.

Definition ranked_below (n : nat) (r : AnyReference) : Prop :=
  forall v, target_version r = Some v -> (rank (reference_subject r) v < n)%nat.

(** What resolution may raise when the stack is deep enough. *)
Definition resolution_error (e : exn) : Prop :=
  e = InvalidSchema \/ e = InvalidReferences \/ is_value_error e = true \/ text_failure e.

Lemma resolution_validated_parse t s refs deps :
  raises_res resolution_error (validated_parse t s refs deps).
Proof.
  intros e He. pose proof (parse_cases t s true true refs deps false false) as Hc.
  unfold validated_parse in He. rewrite He in Hc. unfold resolution_error.
  destruct Hc as [->|[[_ ->]|[_ Hc]]]; auto.
Qed.

Lemma resolve_reference_ranked resolve n r :
  references_ranked -> ranked_below (S n) r ->
  (forall x refs, Forall (ranked_below n) (map Resolved (x :: refs)) ->
     raises_res resolution_error (resolve (map Resolved (x :: refs)))) ->
  raises_res resolution_error (resolve_reference resolve db r).
Proof.
  intros Hranked Hr Hrec. unfold resolve_reference.
  destruct (db_find_subject_schemas db (reference_subject r) false) as [|p l] eqn:El.
  { intros e [= <-]. unfold resolution_error. auto. }
  assert (Hstep : forall rf, ref_subject rf = reference_subject r ->
    target_version r = Some (ref_version rf) -> raises_res resolution_error
      match dget (ref_version rf) (p :: l) with
      | None => Raise InvalidReferences
      | Some sv => validated ← resolve_and_validate resolve (sv_schema sv);
                   Ok (rf, Dependency_of rf validated)
      end).
  { intros rf Hs Ht. destruct (dget (ref_version rf) (p :: l)) as [sv|] eqn:Esv;
      [|intros e [= <-]; unfold resolution_error; auto].
    apply raises_res_bind; [|done]. unfold resolve_and_validate.
    destruct (ts_references (sv_schema sv)) as [[|x refs]|] eqn:Erefs;
      try apply resolution_validated_parse.
    apply raises_res_bind; [|intros [rs ds]; apply resolution_validated_parse].
    apply Hrec. apply Forall_forall. intros y Hy. apply list_elem_of_fmap in Hy as (z & -> & Hz).
    intros v [= <-]. simpl. specialize (Hr _ Ht). rewrite <- El in Esv.
    specialize (Hranked _ _ _ z Esv). rewrite Erefs in Hranked. specialize (Hranked Hz). lia. }
  destruct r as [rf|name subj]; [by apply Hstep|]. simpl in El.
  unfold target_version in Hstep. rewrite El in Hstep.
  destruct (max_version_some (dkeys (p :: l))) as [v Hv]; [done|].
  rewrite Hv in *. cbn [mbind result_bind]. by apply Hstep.
Qed.

Lemma resolve_references_ranked n refs :
  references_ranked -> Forall (ranked_below (S n)) refs ->
  raises_res resolution_error (resolve_references (S n) db refs).
Proof.
  intros Hranked. revert refs; induction n as [|n IH]; intros refs Hrefs;
    apply resolve_loop_raises; (eapply Forall_impl; [exact Hrefs|]); intros r Hr;
    (eapply resolve_reference_ranked; [done|exact Hr|]); intros x l Hl.
  - apply Forall_cons in Hl as [Hx _]. specialize (Hx _ eq_refl). lia.
  - by apply IH.
Qed.
End termination.

(** ** Acknowledgement *)

Section acknowledgement.
Context {DB : Type} `{!KarapaceDatabase DB} {bytes : Type} `{!JsonCodec bytes} `{!SchemaLib}.
Context (recursion_limit : nat).

Definition same_watcher : relation (ReaderState DB) := fun st st' =>
  offset_watcher st' = offset_watcher st.
#[local] Instance same_watcher_preorder : PreOrder same_watcher.
Proof. unfold same_watcher; split; red; congruence. Qed.

Lemma watcher_handle_error e : steps same_watcher (handle_schema_reader_error e).
Proof. intros st. unfold handle_schema_reader_error. by destruct (schema_reader_strict_mode st). Qed.

Lemma watcher_key_error (msg : Message bytes) e : steps same_watcher (key_error msg e).
Proof.
  unfold key_error. destruct e; monad_steps; try apply watcher_handle_error;
    try (by apply steps_modify); intros st; by destruct (schema_reader_strict_mode st).
Qed.

Lemma apply_message_acknowledges (msg : Message bytes) key value st st' r :
  apply_message recursion_limit msg key value st = (st', r) ->
  offset_watcher st' = offset_watcher st /\
  (r = Ok true -> offset st' = msg_offset msg /\ exists st1,
     handle_msg recursion_limit key value st = (st1, Ok ()) /\ database st' = database st1).
Proof.
  unfold apply_message. pose proof (frame_handle_msg recursion_limit key value st) as (_ & Hw & _).
  destruct (handle_msg recursion_limit key value st) as [st1 [[]|e]]; simpl in *.
  - intros [= <- <-]. eauto.
  - intros Ha. unfold mbind, M_bind in Ha.
    destruct e; simpl in Ha;
      try match type of Ha with context [handle_schema_reader_error ?e st1] =>
        pose proof (watcher_handle_error e st1) as Hw';
        destruct (handle_schema_reader_error e st1) as [st2 [[]|]]; unfold same_watcher in Hw' end;
      injection Ha as <- <-; simpl in *; split; congruence || done.
Qed.
End acknowledgement.

(** ** Properties *)

(** C12. Whatever batch the consumer delivers, valid or not, and whether or not an exception
    interrupts it, the database stays well-formed, its id counter never goes back, and every
    schema id it knew is still known. *)
Theorem reader_keeps_database `{!SchemaLib} {bytes} `{!JsonCodec bytes} limit
  (msgs : list (Message bytes)) watch (st : ReaderState InMemoryDatabase) :
  db_wf sha1 (database st) ->
  let st' := (consume_messages (KarapaceDatabase0 := InMemoryDatabase_KarapaceDatabase sha1)
    limit msgs watch st).1 in
  db_wf sha1 (database st') /\
  global_schema_id (database st) <= global_schema_id (database st') /\
  forall i, is_Some (dget i (schemas (database st))) -> is_Some (dget i (schemas (database st'))).
Proof.
  intros Hwf st'. pose proof (keeps_wf_step sha1). pose proof (ids_grow_step sha1).
  split; [|apply (steps_consume_messages limit ids_grow msgs watch st)].
  by apply (steps_consume_messages limit (keeps_wf sha1) msgs watch st).
Qed.

(** C17. Outside strict mode a batch of well-framed messages (delivered without transport errors,
    their keys UTF-8 texts that are no JSON or a JSON object, their values bytes that JSON can be read from
    or not) is consumed to its end, whatever the keys and values say: the offset becomes
    that of the last message and the key mode is the deprecated one exactly if it was before or
    some key is out of canonical order. The only other outcomes are exhaustion of the stack on a
    deep or cyclic chain of references, and the exceptions of a protobuf text that are neither syntax
    errors nor a [ValueError]: one that decodes as base64 and is no descriptor, or that cannot be
    printed. *)
Theorem reader_progress {DB} `{!KarapaceDatabase DB} `{!DatabaseErrors (DB := DB)} `{!SchemaLib}
  `{!SchemaLibErrors} {bytes} `{!JsonCodec bytes} limit watch (msgs : list (Message bytes))
  (st : ReaderState DB) :
  Forall well_framed msgs -> schema_reader_strict_mode st = false ->
  let '(st', r) := consume_messages limit msgs watch st in
  (r = Ok () /\ offset st' = last_offset msgs (offset st) /\
   keymode (key_formatter st') =
     join_keymode (keymode (key_formatter st)) (existsb deprecated_key msgs)) \/
  exists e, r = Raise e /\ unskipped e.
Proof.
  intros Hw Hs. destruct (consume_messages limit msgs watch st) as [st' r] eqn:E.
  by eapply consume_messages_tolerant.
Qed.

(** C23. A writer is woken only by a record that has been applied: if consuming a message moves
    the offset watcher, the reader was ready and watching, the key and value decoded, the
    handler returned, the database is the one the handler left, and the watcher moved to this
    message's offset at most. *)
Theorem reader_acknowledges_applied {DB} `{!KarapaceDatabase DB} `{!SchemaLib} {bytes}
  `{!JsonCodec bytes} limit watch (msg : Message bytes) (st st' : ReaderState DB) r :
  consume_message limit watch msg st = (st', r) -> offset_watcher st' ≠ offset_watcher st ->
  watch = true /\ ready st' = true /\
  offset_watcher st' = offset_seen (msg_offset msg) (offset_watcher st) /\
  exists key value st1 st2, decode_key msg = Ok (Some (JObj key)) /\ message_value msg = Ok value /\
    database st1 = database st /\ handle_msg limit key value st1 = (st2, Ok ()) /\
    database st' = database st2.
Proof.
  intros Hc Hne. unfold consume_message in Hc. destruct (decode_key msg) as [[j|]|e] eqn:Ek.
  - destruct j as [| | | | | |key]; try (by injection Hc as <- <-).
    destruct (update_keymode_spec key st) as (_ & _ & H3).
    apply M_bind_inv in Hc as [([] & st1 & Hu & Hc)|(e & Hu & ->)]; rewrite Hu in H3; simpl in H3;
      [|by rewrite H3 in Hne].
    assert (Hw1 : offset_watcher st1 = offset_watcher st) by (by rewrite H3).
    assert (Hd1 : database st1 = database st) by (by rewrite H3). clear H3 Hu.
    destruct (message_value msg) as [value|e] eqn:Ev.
    + apply M_bind_inv in Hc as [(b & st2 & Ha & Hc)|(e & Ha & ->)];
        apply apply_message_acknowledges in Ha as [Hw2 Ha]; [|congruence].
      destruct b; injection Hc as <- <-; [|congruence].
      destruct Ha as (Ho & st3 & Hh & Hd); [done|].
      destruct (ready st2) eqn:Er, watch; simpl in *; try congruence.
      split_and!; try done; [by rewrite Ho, Hw2, Hw1|]. by exists key, value, st1, st3.
    + exfalso. apply Hne. rewrite <- Hw1. clear Hne Hw1 Hd1.
      destruct e; simpl in Hc; unfold mbind, M_bind, modify in Hc;
        try match type of Hc with context [handle_schema_reader_error ?e ?s] =>
          pose proof (watcher_handle_error e s) as Hw';
          destruct (handle_schema_reader_error e s) as [s2 [[]|]] end; by injection Hc as <- <-.
  - by injection Hc as <- <-.
  - exfalso. apply Hne. pose proof (watcher_key_error msg e st) as Hw.
    apply M_bind_inv in Hc as [([] & st1 & Hu & Hc)|(e' & Hu & ->)]; rewrite Hu in Hw;
      [by injection Hc as <- <-|done].
Qed.

(** Resolving references never exhausts the stack when the references of live versions are
    acyclic: with a rank that decreases along references and a recursion budget above the ranks
    of the requested versions, resolution returns, or raises for a missing subject or version
    or for a text its parser refuses. *)
Theorem resolve_references_terminates {DB} `{!KarapaceDatabase DB} `{!SchemaLib}
  `{!SchemaLibErrors} (db : DB) (rank : Subject -> Version -> nat) limit refs :
  references_ranked db rank -> Forall (ranked_below db rank limit) refs -> (0 < limit)%nat ->
  match resolve_references limit db refs with
  | Ok _ => True
  | Raise e => resolution_error e
  end.
Proof.
  intros Hr Hrefs Hl. destruct limit as [|n]; [lia|].
  pose proof (resolve_references_ranked db rank n refs Hr Hrefs) as Hres.
  destruct (resolve_references (S n) db refs); [done|]. by apply Hres.
Qed.

(** The readiness flag is raised only by a watermark that the reader's offset has reached,
    and never lowered by the reader itself; when it is raised the batch size drops to one. *)
Theorem ready_only_when_caught_up {DB} `{!KarapaceDatabase DB} marks (st : ReaderState DB) :
  let st' := (update_is_ready_flag marks st).1 in
  database st' = database st /\ offset st' = offset st /\
  (ready st = true -> st' = st) /\
  (ready st = false -> ready st' = true -> exists b e, marks = Ok (b, e) /\ e - 1 <= offset st' /\
     highest_offset_ st' = e - 1 /\
     max_messages_to_process st' = MAX_MESSAGES_TO_CONSUME_AFTER_STARTUP) /\
  (ready st = false -> ready st' = false -> forall b e, marks = Ok (b, e) -> offset st' < e - 1).
Proof.
  unfold update_is_ready_flag, is_ready, mbind, M_bind, gets. simpl.
  destruct (ready st) eqn:Er; simpl; [by split_and!|].
  destruct marks as [[b e]|err]; simpl; [|by split_and!].
  destruct (Z.leb_spec (e - 1) (offset st)); simpl; split_and!; try done; eauto 10 with lia.
  all: intros _ _ b' e' [= <- <-]; lia.
Qed.

(** *** Witnesses *)

Definition demo_message (o : Z) : Message (option json) :=
  mkMessage
    (Some (Some (JObj [("keytype", JStr "SCHEMA"); ("subject", JStr "s"); ("version", JInt 1);
                       ("magic", JInt 1)]%string)))
    (Some (Some (JObj [("subject", JStr "s"); ("version", JInt 1); ("id", JInt 5);
                       ("schema", JStr "A"); ("deleted", JBool false)]%string))) None o.
(** A record with a key that is not JSON. *)
Definition bad_message (o : Z) : Message (option json) :=
  mkMessage (Some None) (Some (Some JNull)) None o.

Definition demo_reader : ReaderState InMemoryDatabase :=
  set_ready true (KafkaSchemaReader_init InMemoryDatabase_init "BACKWARD" false).

Lemma reader_keeps_database_witness :
  let st' := (consume_messages (H := trivial_lib)
    (KarapaceDatabase0 := InMemoryDatabase_KarapaceDatabase id) 10 [demo_message 0] true demo_reader).1 in
  is_Some (dget 5 (schemas (database st'))) /\
  db_wf id (database st') /\
  global_schema_id (database demo_reader) <= global_schema_id (database st') /\
  forall i, is_Some (dget i (schemas (database demo_reader))) -> is_Some (dget i (schemas (database st'))).
Proof.
  split; [vm_compute; eauto|].
  apply (@reader_keeps_database trivial_lib (option json) _ 10 [demo_message 0] true demo_reader).
  apply wf_init.
Defined.

Lemma reader_progress_witness :
  let '(st', r) := consume_messages (H := trivial_lib)
    (KarapaceDatabase0 := InMemoryDatabase_KarapaceDatabase id)
    10 [demo_message 0; bad_message 1] true demo_reader in
  (r = Ok () /\ offset st' = last_offset [demo_message 0; bad_message 1] (offset demo_reader) /\
   keymode (key_formatter st') =
     join_keymode (keymode (key_formatter demo_reader))
       (existsb deprecated_key [demo_message 0; bad_message 1])) \/
  exists e, r = Raise e /\ unskipped e.
Proof.
  apply (@reader_progress InMemoryDatabase (InMemoryDatabase_KarapaceDatabase id)
    (InMemoryDatabase_errors id) trivial_lib trivial_lib_errors (option json) _ 10 true
    [demo_message 0; bad_message 1] demo_reader).
  - assert (Hr : forall b : option json, readable b).
    { intros [j|] e; simpl; [done|]. by intros [= <-]. }
    repeat constructor; try apply Hr; try (by eexists); intros j; simpl in *; simplify_eq; simpl; try done.
    intros [= <-]. eauto.
  - reflexivity.
Defined.

Lemma reader_acknowledges_applied_witness :
  let res := consume_message (H := trivial_lib)
    (KarapaceDatabase0 := InMemoryDatabase_KarapaceDatabase id) 10 true (demo_message 3) demo_reader in
  true = true /\ ready res.1 = true /\
  offset_watcher res.1 = offset_seen 3 (offset_watcher demo_reader) /\
  exists key value st1 st2, decode_key (demo_message 3) = Ok (Some (JObj key)) /\
    message_value (demo_message 3) = Ok value /\ database st1 = database demo_reader /\
    handle_msg (H := trivial_lib) (KarapaceDatabase0 := InMemoryDatabase_KarapaceDatabase id)
      10 key value st1 = (st2, Ok ()) /\ database res.1 = database st2.
Proof.
  intros res.
  apply (@reader_acknowledges_applied InMemoryDatabase (InMemoryDatabase_KarapaceDatabase id)
    trivial_lib (option json) _ 10 true (demo_message 3) demo_reader res.1 res.2).
  - subst res. by destruct (consume_message _ _ _ _).
  - vm_compute. discriminate.
Defined.

(** A database with one version that references another. *)
Definition ranked_db : InMemoryDatabase :=
  insert_schema_version id "b" 2 1 false
    (mkTyped AVRO "B" (Some [mkReference "A" "a" 1]) None) (Some [mkReference "A" "a" 1])
    (insert_schema_version id "a" 1 1 false (mkTyped AVRO "A" None None) None InMemoryDatabase_init).
Definition demo_rank (s : string) (v : Z) : nat := if String.eqb s "b" then 1 else 0.

Lemma resolve_references_terminates_witness :
  let refs := [LatestVersionReference "B" "b"] in
  match resolve_references (H := trivial_lib)
    (KarapaceDatabase0 := InMemoryDatabase_KarapaceDatabase id) 2 ranked_db refs with
  | Ok _ => True
  | Raise e => resolution_error e
  end.
Proof.
  intros refs.
  apply (@resolve_references_terminates InMemoryDatabase (InMemoryDatabase_KarapaceDatabase id)
    trivial_lib trivial_lib_errors ranked_db demo_rank 2 refs).
  - intros s v sv r Hsv Hr. unfold demo_rank.
    assert (Hs : s = "a"%string \/ s = "b"%string).
    { destruct (decide (s = "a"%string)) as [?|Ha]; [tauto|].
      destruct (decide (s = "b"%string)) as [?|Hb]; [tauto|]. exfalso. revert Hsv. simpl.
      unfold find_subject_schemas. vm_compute (subjects ranked_db). simpl.
      by rewrite !decide_False by congruence. }
    destruct Hs as [-> | ->]; simpl in Hsv; apply dget_In in Hsv; vm_compute in Hsv;
      apply list_elem_of_singleton in Hsv; injection Hsv as -> ->; simpl in Hr.
    + by apply elem_of_nil in Hr.
    + apply list_elem_of_singleton in Hr as ->. simpl. lia.
  - repeat constructor.
  - lia.
Defined.
