(* ===== verification/Compat.v ===== *)
(** * Compatibility of two schemas

    [core/compatibility/schema_compatibility.py]: which of the two schemas is the reader and
    which the writer under each mode. The per-format checkers (the Avro library's, the JSON
    Schema one of [compatibility/jsonschema] and the protobuf one of [compatibility/protobuf])
    are the fields of [Checkers], the Avro library's [merge] the one of [AvroMerge]. The texts of
    the messages a result carries are not modelled. *)

From S2P Require Import Prelude Json Typing Models.
Open Scope Z_scope.

(** [avro.compatibility.SchemaCompatibilityType] and [SchemaCompatibilityResult] *)
Inductive SchemaCompatibilityType : Type := compatible | incompatible | recursion_in_progress.

#[global] Instance SchemaCompatibilityType_eq_dec : EqDecision SchemaCompatibilityType.
Proof. solve_decision. Defined.

Record SchemaCompatibilityResult : Type := mkCompat {
  compatibility_type : SchemaCompatibilityType;
  incompatibilities : list string;
  locations : gset string;
}.

Definition compatible_result : SchemaCompatibilityResult := mkCompat compatible [] ∅.

(** [incompatible_schema] of [compatibility/jsonschema/checks.py]: the location is joined with
    slashes, without the first one when it has several tokens. *)
Definition incompatible_schema (incompat_type : string) (location : list string)
  : SchemaCompatibilityResult :=
  let joined := join_with "/" location in
  let locs := if (1 <? length location)%nat then String.substring 1 (String.length joined - 1) joined
              else joined in
  mkCompat incompatible [incompat_type] {[locs]}.

Definition is_incompatible (r : SchemaCompatibilityResult) : bool :=
  bool_decide (compatibility_type r = incompatible).

(** [avro.compatibility.merge] *)
Class AvroMerge : Type := {
  merge : SchemaCompatibilityResult -> SchemaCompatibilityResult -> SchemaCompatibilityResult;
}.

(** It keeps the second verdict when the first is positive, and all incompatibilities. *)
Class AvroMergeLaws `{!AvroMerge} : Prop := {
  merge_type : forall a b, compatibility_type (merge a b) =
    if bool_decide (compatibility_type a = compatible) then compatibility_type b
    else compatibility_type a;
  merge_incompatibilities : forall a b,
    incompatibilities (merge a b) = incompatibilities a ++ incompatibilities b;
}.

(** The checkers of the three formats, as [check reader writer]. *)
Class Checkers : Type := {
  checkers_merge :: AvroMerge;
  (** [AvroChecker().get_compatibility(reader=, writer=)] *)
  avro_check : TypedSchema -> TypedSchema -> result SchemaCompatibilityResult;
  jsonschema_check : TypedSchema -> TypedSchema -> result SchemaCompatibilityResult;
  protobuf_check : TypedSchema -> TypedSchema -> result SchemaCompatibilityResult;
}.

Section Compat.
Context `{!Checkers}.

(** The checker of a format, as [check(reader, writer)]. *)
Definition format_check (t : SchemaType) (reader writer : TypedSchema)
  : result SchemaCompatibilityResult :=
  match t with
  | AVRO => avro_check reader writer
  | JSONSCHEMA => jsonschema_check reader writer
  | PROTOBUF => protobuf_check reader writer
  end.

Definition check_compatibility (old_schema new_schema : TypedSchema)
  (compatibility_mode : CompatibilityModes) : result SchemaCompatibilityResult :=
  if bool_decide (compatibility_mode = NONE) then Ok compatible_result
  else if bool_decide (schema_type old_schema = schema_type new_schema) then
    match compatibility_mode with
    | BACKWARD | BACKWARD_TRANSITIVE => format_check (schema_type old_schema) new_schema old_schema
    | FORWARD | FORWARD_TRANSITIVE => format_check (schema_type old_schema) old_schema new_schema
    | FULL | FULL_TRANSITIVE =>
        result ← format_check (schema_type old_schema) new_schema old_schema;
        result' ← format_check (schema_type old_schema) old_schema new_schema;
        Ok (merge result result')
    | NONE => Ok compatible_result
    end
  else Ok (incompatible_schema "type_mismatch" []).

(** What a mode promises: which schema must be able to read the other's data. *)
Definition new_reads_old (m : CompatibilityModes) : bool :=
  match m with BACKWARD | BACKWARD_TRANSITIVE | FULL | FULL_TRANSITIVE => true | _ => false end.
Definition old_reads_new (m : CompatibilityModes) : bool :=
  match m with FORWARD | FORWARD_TRANSITIVE | FULL | FULL_TRANSITIVE => true | _ => false end.

(** [reader] cannot read what [writer] wrote, by the checker of their format. *)
Definition cannot_read (reader writer : TypedSchema) : Prop :=
  exists r, format_check (schema_type reader) reader writer = Ok r /\ is_incompatible r = true.
End Compat.

Lemma merge_incompatible `{!Checkers} `{!AvroMergeLaws} a b :
  compatibility_type a ≠ recursion_in_progress ->
  is_incompatible (merge a b) = is_incompatible a || is_incompatible b.
Proof.
  unfold is_incompatible. rewrite merge_type. intros Ha.
  destruct (compatibility_type a); simpl; [|done|done]. by case_bool_decide.
Qed.

Lemma cannot_read_iff `{!Checkers} reader writer r :
  format_check (schema_type reader) reader writer = Ok r ->
  cannot_read reader writer <-> is_incompatible r = true.
Proof. unfold cannot_read. intros ->. naive_solver. Qed.

(** A verdict of a format's checker: it answers compatible or incompatible. *)
Definition decides `{!Checkers} : Prop :=
  forall t a b r, format_check t a b = Ok r -> compatibility_type r ≠ recursion_in_progress.

(** ** Properties *)

(** When [check_compatibility] answers, schemas of one type are declared incompatible
    exactly if a reading direction the mode promises fails: new reads old for the backward
    modes, old reads new for the forward ones, either for the full ones, none for NONE;
    schemas of different types are incompatible under every mode but NONE. *)
Theorem check_compatibility_spec `{!Checkers} `{!AvroMergeLaws} old new m r :
  decides -> check_compatibility old new m = Ok r ->
  is_incompatible r = true <->
  if bool_decide (schema_type old = schema_type new) then
    (new_reads_old m = true /\ cannot_read new old) \/ (old_reads_new m = true /\ cannot_read old new)
  else m ≠ NONE.
Proof.
  intros Hdec. unfold check_compatibility. case_bool_decide as Hm.
  { intros [= <-]. subst m. simpl. case_bool_decide; naive_solver. }
  case_bool_decide as Ht; [|intros [= <-]; naive_solver].
  assert (Hb : forall r, format_check (schema_type old) new old = Ok r ->
    cannot_read new old <-> is_incompatible r = true) by (rewrite Ht; intros; by apply cannot_read_iff).
  assert (Hf : forall r, format_check (schema_type old) old new = Ok r ->
    cannot_read old new <-> is_incompatible r = true) by (intros; by apply cannot_read_iff).
  destruct m; simpl; intros Hr; try (specialize (Hb _ Hr); naive_solver);
    try (specialize (Hf _ Hr); naive_solver); try done.
  all: apply bind_Ok in Hr as (r1 & H1 & Hr); apply bind_Ok in Hr as (r2 & H2 & Hr); injection Hr as <-.
  all: rewrite merge_incompatible by (by eapply Hdec); rewrite orb_true_iff.
  all: rewrite (Hb _ H1), (Hf _ H2); naive_solver.
Qed.

(** A checker that refuses to read a text from a different one. *)
#[global] Instance simple_merge : AvroMerge := {|
  merge a b := mkCompat
    (if bool_decide (compatibility_type a = compatible) then compatibility_type b
     else compatibility_type a)
    (incompatibilities a ++ incompatibilities b) (locations a ∪ locations b);
|}.

#[global] Instance simple_merge_laws : @AvroMergeLaws simple_merge.
Proof. by split. Qed.

#[global] Instance text_checkers : Checkers :=
  let check r w := Ok (if String.eqb (schema_str r) (schema_str w) then compatible_result
                       else incompatible_schema "name_mismatch" ["/"%string]) in {|
  checkers_merge := simple_merge;
  avro_check := check;
  jsonschema_check := check;
  protobuf_check := check;
|}.

Lemma text_checkers_decide : @decides text_checkers.
Proof. intros [] a b r; simpl; destruct (String.eqb _ _); by intros [= <-]. Qed.

Lemma check_compatibility_spec_witness :
  let old := mkTyped AVRO "A" None None in
  let new := mkTyped AVRO "B" None None in
  match @check_compatibility text_checkers old new FULL with
  | Ok r => is_incompatible r = true <->
      (if bool_decide (schema_type old = schema_type new) then
        (new_reads_old FULL = true /\ @cannot_read text_checkers new old) \/
        (old_reads_new FULL = true /\ @cannot_read text_checkers old new)
      else FULL ≠ NONE)
  | Raise _ => False
  end.
Proof.
  apply (@check_compatibility_spec text_checkers simple_merge_laws
    (mkTyped AVRO "A" None None) (mkTyped AVRO "B" None None) FULL
    (merge (incompatible_schema "name_mismatch" ["/"%string])
           (incompatible_schema "name_mismatch" ["/"%string])));
    [apply text_checkers_decide | reflexivity].
Defined.
