(* ===== verification/JsonSchema.v ===== *)
(** * Compatibility of JSON schemas

    [core/compatibility/jsonschema]: [types.py], [utils.py] and [checks.py]. Schemas are decoded
    JSON; a check returns a result or raises, as the Python code does on shapes it does not
    expect. [compatibility_rec] is general recursion on smaller schemas and takes fuel. Where the
    code iterates over a set, the order of the reported incompatibilities is unspecified; here
    it is the order of the dict.

    Parameters: [jsonschema]'s reference resolver, [re.match], the maximum matching of networkx
    and the Avro library's [merge]. Ordering comparisons are on numbers and strings; a comparison
    of any other values is a [TypeError]. Message texts are not modelled. *)

From Stdlib Require Import QArith.
From stdpp Require Import pretty.
From S2P Require Import Prelude Json Models Compat.
Open Scope Z_scope.

(** ** types.py *)

Module Keyword.
Definition REF : string := "$ref".
Definition TYPE : string := "type".
Definition MAX_LENGTH : string := "maxLength".
Definition MIN_LENGTH : string := "minLength".
Definition PATTERN : string := "pattern".
Definition MAXIMUM : string := "maximum".
Definition MINIMUM : string := "minimum".
Definition EXCLUSIVE_MAXIMUM : string := "exclusiveMaximum".
Definition EXCLUSIVE_MINIMUM : string := "exclusiveMinimum".
Definition MULTIPLE : string := "multiple".
Definition MAX_PROPERTIES : string := "maxProperties".
Definition MIN_PROPERTIES : string := "minProperties".
Definition ADDITIONAL_PROPERTIES : string := "additionalProperties".
Definition DEPENDENCIES : string := "dependencies".
Definition DEPENDENT_SCHEMAS : string := "dependentSchemas".
Definition PATTERN_PROPERTIES : string := "patternProperties".
Definition PROPERTIES : string := "properties".
Definition REQUIRED : string := "required".
Definition DEFAULT : string := "default".
Definition ITEMS : string := "items".
Definition MAX_ITEMS : string := "maxItems".
Definition MIN_ITEMS : string := "minItems".
Definition ADDITIONAL_ITEMS : string := "additionalItems".
Definition ENUM : string := "enum".
End Keyword.

Inductive Instance_ : Type := NULL | BOOLEAN | NUMBER | STRING | INTEGER | OBJECT | ARRAY.
Inductive Subschema : Type := ANY_OF | ALL_OF | ONE_OF | NOT.

#[global] Instance Instance_eq_dec : EqDecision Instance_.
Proof. solve_decision. Defined.
#[global] Instance Subschema_eq_dec : EqDecision Subschema.
Proof. solve_decision. Defined.

Definition subschema_value (s : Subschema) : string :=
  match s with ANY_OF => "anyOf" | ALL_OF => "allOf" | ONE_OF => "oneOf" | NOT => "not" end.

(** [Instance(value)] *)
Definition instance_of (j : json) : result Instance_ :=
  match j with
  | JStr s =>
      if String.eqb s "null" then Ok NULL
      else if String.eqb s "boolean" then Ok BOOLEAN
      else if String.eqb s "number" then Ok NUMBER
      else if String.eqb s "string" then Ok STRING
      else if String.eqb s "integer" then Ok INTEGER
      else if String.eqb s "object" then Ok OBJECT
      else if String.eqb s "array" then Ok ARRAY
      else Raise ValueError
  | _ => Raise ValueError
  end.

Definition instance_value (i : Instance_) : string :=
  match i with
  | NULL => "null" | BOOLEAN => "boolean" | NUMBER => "number" | STRING => "string"
  | INTEGER => "integer" | OBJECT => "object" | ARRAY => "array"
  end.

(** [JSONSCHEMA_TYPES] *)
Inductive JType : Type :=
  | TInstance (i : Instance_)
  | TSubschema (s : Subschema)
  | TEnum
  | TBooleanSchema.

#[global] Instance JType_eq_dec : EqDecision JType.
Proof. solve_decision. Defined.

(** ** utils.py *)

Definition is_true_schema (schema : json) : bool := match schema with JBool b => b | _ => false end.
Definition is_false_schema (schema : json) : bool := match schema with JBool b => negb b | _ => false end.

(** [allOf], [anyOf], [oneOf] in the order the code looks for them. *)
Fixpoint first_subschemas (types : list Subschema) (d : list (string * json))
  : result (option (list json * Subschema)) :=
  match types with
  | [] => Ok None
  | t :: types =>
      match jget (subschema_value t) d with
      | JNull => first_subschemas types d
      | JList l => Ok (Some (l, t))
      | _ => Raise AssertionError
      end
  end.

Definition maybe_get_subschemas_and_type (schema : json)
  : result (option (list json * Subschema)) :=
  match schema with
  | JObj d =>
      match jget Keyword.TYPE d with
      | JList types => Ok (Some (map (fun t => JObj (dset Keyword.TYPE t d)) types, ANY_OF))
      | _ =>
          found ← first_subschemas [ALL_OF; ANY_OF; ONE_OF] d;
          match found with
          | Some r => Ok (Some r)
          | None =>
              match jget (subschema_value NOT) d with
              | JNull => Ok None
              | s => Ok (Some ([s], NOT))
              end
          end
      end
  | _ => Ok None
  end.

Definition is_tuple (schema : json) : bool :=
  match schema with
  | JObj d => match jget Keyword.ITEMS d with JList _ => true | _ => false end
  | _ => false
  end.

(** [len(value)] *)
Definition py_len (j : json) : result nat :=
  match j with
  | JList l => Ok (length l)
  | JObj d => Ok (length d)
  | JStr s => Ok (String.length s)
  | _ => Raise TypeError
  end.

Definition is_object_content_model_open (schema : json) : result bool :=
  match schema with
  | JObj d =>
      n ← py_len (jget_default Keyword.PATTERN_PROPERTIES (JList []) d);
      Ok (Nat.eqb n 0 && is_true_schema (jget_default Keyword.ADDITIONAL_PROPERTIES (JBool true) d))
  | _ => Ok false
  end.

Definition is_tuple_without_additional_items (schema : json) : bool :=
  match schema with
  | JObj d =>
      is_tuple schema && is_false_schema (jget_default Keyword.ADDITIONAL_ITEMS (JBool true) d)
  | _ => false
  end.

(** Python's [>] on decoded values. *)
Definition py_gt (a b : json) : result bool :=
  match a, b with
  | JStr s, JStr t => Ok (match String.compare s t with Gt => true | _ => false end)
  | _, _ =>
      match num_value a, num_value b with
      | Some p, Some q => Ok (negb (Qle_bool p q))
      | _, _ => Raise TypeError
      end
  end.

Definition gt (left right : json) : result bool :=
  if is_none left || is_none right then Ok false else py_gt left right.
Definition lt (left right : json) : result bool := gt right left.
Definition ne (writer reader : json) : result bool :=
  Ok (negb (is_none reader) && negb (is_none writer) && negb (py_eq reader writer)).

Definition introduced_constraint (reader writer : json) : bool := is_none writer && negb (is_none reader).

Definition get_type_of (schema : json) : result JType :=
  match schema with
  | JNull => Ok (TInstance NULL)
  | JStr _ | JList _ => Raise RuntimeError
  | JBool _ => Ok TBooleanSchema
  | JObj d =>
      sub ← maybe_get_subschemas_and_type schema;
      match sub with
      | Some (_, t) => Ok (TSubschema t)
      | None =>
          let type_value := jget Keyword.TYPE d in
          if truthy type_value then TInstance <$> instance_of type_value
          else if din Keyword.ENUM d then Ok TEnum
          else Ok (TInstance OBJECT)
      end
  | JInt _ | JFloat _ => Raise ValueError
  end.

Definition get_name_of (t : JType) : string :=
  match t with
  | TInstance i => instance_value i
  | TSubschema s => subschema_value s
  | TEnum => Keyword.ENUM
  | TBooleanSchema => ""
  end.

Definition is_simple_subschema (schema : json) : result bool :=
  match schema with
  | JNull => Ok false
  | _ =>
      sub ← maybe_get_subschemas_and_type schema;
      Ok (match sub with Some ([_], _) => true | _ => false end)
  end.

(** [set(value)] as the list of its elements: hashable values only. *)
Definition hashable (j : json) : bool := match j with JList _ | JObj _ => false | _ => true end.
Definition py_set (j : json) : result (list json) :=
  match j with
  | JList l => if forallb hashable l then Ok l else Raise TypeError
  | JObj d => Ok (map JStr (dkeys d))
  | JStr s => Ok (map (fun c => JStr (String c EmptyString)) (String.list_ascii_of_string s))
  | _ => Raise TypeError
  end.
Definition py_mem (x : json) (l : list json) : bool := existsb (py_eq x) l.
(** [a - b] *)
Definition py_diff (a b : list json) : list json := List.filter (fun x => negb (py_mem x b)) a.

Section JsonSchema.
Context `{!AvroMerge}.
(** [re.match(pattern, name)]: raises on a pattern that does not compile *)
Context (re_match : string -> string -> result bool).
(** [len(maximum_matching(Graph(edges), top_nodes)) // 2] *)
Context (maximum_matching : list (nat * nat) -> nat).

Abbreviation Result := (result SchemaCompatibilityResult) (only parsing).
Abbreviation Obj := (list (string * json)) (only parsing).

(** The schema of [patternProperties] or [additionalProperties] for a property name. *)
Fixpoint first_matching (patterns : Obj) (name : string) : result (option json) :=
  match patterns with
  | [] => Ok None
  | (pattern, schema) :: patterns =>
      m ← re_match pattern name;
      if m : bool then Ok (Some schema) else first_matching patterns name
  end.

Definition schema_from_partially_open_content_model (schema : Obj) (name : string) : result json :=
  match jget_default Keyword.PATTERN_PROPERTIES (JObj []) schema with
  | JObj patterns =>
      found ← first_matching patterns name;
      Ok (match found with Some s => s | None => jget Keyword.ADDITIONAL_PROPERTIES schema end)
  | _ => Raise AttributeError
  end.

(** ** checks.py *)

Definition is_compatible (r : SchemaCompatibilityResult) : bool :=
  bool_decide (compatibility_type r = compatible).

Definition add_incompatibility (r : SchemaCompatibilityResult) (incompat_type : string)
  (location : list string) : SchemaCompatibilityResult :=
  let formatted := join_with "/" (match location with _ :: ((_ :: _) as tl) => tl | _ => location end) in
  mkCompat incompatible (incompatibilities r ++ [incompat_type]) (locations r ∪ {[formatted]}).

Definition type_mismatch (location : list string) : SchemaCompatibilityResult :=
  incompatible_schema "type_changed" location.

(** [AssertionCheck]; the comparison takes the reader's value first. *)
Record AssertionCheck : Type := mkCheck {
  check_keyword : string;
  error_when_introducing : string;
  error_when_restricting : string;
  comparison : json -> json -> result bool;
}.

Definition MAX_LENGTH_CHECK := mkCheck Keyword.MAX_LENGTH "max_length_added" "max_length_decreased" lt.
Definition MIN_LENGTH_CHECK := mkCheck Keyword.MIN_LENGTH "min_length_added" "min_length_increased" gt.
Definition PATTERN_CHECK := mkCheck Keyword.PATTERN "pattern_added" "pattern_changed" ne.
Definition MAXIMUM_CHECK := mkCheck Keyword.MAXIMUM "maximum_added" "maximum_decreased" lt.
Definition MINIMUM_CHECK := mkCheck Keyword.MINIMUM "minimum_added" "minimum_increased" gt.
Definition EXCLUSIVE_MAXIMUM_CHECK :=
  mkCheck Keyword.EXCLUSIVE_MAXIMUM "maximum_exclusive_added" "maximum_exclusive_decreased" lt.
Definition EXCLUSIVE_MINIMUM_CHECK :=
  mkCheck Keyword.EXCLUSIVE_MINIMUM "minimum_exclusive_added" "minimum_exclusive_increased" gt.
Definition MAX_PROPERTIES_CHECK :=
  mkCheck Keyword.MAX_PROPERTIES "max_properties_added" "max_properties_decreased" lt.
Definition MIN_PROPERTIES_CHECK :=
  mkCheck Keyword.MIN_PROPERTIES "min_properties_added" "min_properties_increased" gt.
Definition MAX_ITEMS_CHECK := mkCheck Keyword.MAX_ITEMS "max_items_added" "max_items_decreased" lt.
Definition MIN_ITEMS_CHECK := mkCheck Keyword.MIN_ITEMS "min_items_added" "min_items_increased" gt.

Definition check_assertion_compatibility (reader_schema writer_schema : Obj) (c : AssertionCheck)
  (location : list string) : Result :=
  let reader_value := jget (check_keyword c) reader_schema in
  let writer_value := jget (check_keyword c) writer_schema in
  let r := if introduced_constraint reader_value writer_value
           then add_incompatibility compatible_result (error_when_introducing c) location
           else compatible_result in
  restricted ← comparison c reader_value writer_value;
  Ok (if restricted : bool then add_incompatibility r (error_when_restricting c) location else r).

(** The loops over assertion checks. *)
Definition run_checks (reader_schema writer_schema : Obj) (checks : list AssertionCheck)
  (location : list string) (r : SchemaCompatibilityResult) : Result :=
  fold_res (fun r c => check_result ← check_assertion_compatibility reader_schema writer_schema c location;
                       Ok (merge r check_result)) checks r.

Definition all_strings (l : list json) : bool :=
  forallb (fun j => match j with JStr _ => true | _ => false end) l.

(** [compatibility_enum]; joining removed options that are not strings is a [TypeError]. *)
Definition compatibility_enum (reader_schema writer_schema : Obj) (location : list string) : Result :=
  match dget Keyword.ENUM reader_schema, dget Keyword.ENUM writer_schema with
  | Some reader_enum, Some writer_enum =>
      writer_set ← py_set writer_enum;
      reader_set ← py_set reader_enum;
      match py_diff writer_set reader_set with
      | [] => Ok compatible_result
      | removed =>
          if all_strings removed
          then Ok (incompatible_schema "enum_array_narrowed" (location ++ [Keyword.ENUM]))
          else Raise TypeError
      end
  | _, _ => Raise AssertionError
  end.

(** [a % b], on numbers. *)
Definition py_mod_nonzero (a b : json) : result bool :=
  match num_value a, num_value b with
  | Some p, Some q =>
      if Qeq_bool q 0 then Raise ValueError
      else Ok (negb (Z.eqb (Z.modulo (Qnum p * Zpos (Qden q)) (Qnum q * Zpos (Qden p))) 0))
  | _, _ => Raise TypeError
  end.

Definition is_numeric (t : JType) : bool :=
  bool_decide (t = TInstance NUMBER) || bool_decide (t = TInstance INTEGER).

Definition compatibility_numerical (reader_schema writer_schema : Obj) (location : list string)
  : Result :=
  reader_type ← get_type_of (JObj reader_schema);
  writer_type ← get_type_of (JObj writer_schema);
  if negb (is_numeric reader_type && is_numeric writer_type) then Raise AssertionError
  else
    r ← run_checks reader_schema writer_schema
          [MAXIMUM_CHECK; MINIMUM_CHECK; EXCLUSIVE_MAXIMUM_CHECK; EXCLUSIVE_MINIMUM_CHECK]
          location compatible_result;
    let reader_multiple := jget Keyword.MULTIPLE reader_schema in
    let writer_multiple := jget Keyword.MULTIPLE writer_schema in
    let r := if introduced_constraint reader_multiple writer_multiple
             then add_incompatibility r "multiple_added" location else r in
    different ← ne reader_multiple writer_multiple;
    r ← (if different : bool then
           expanded ← py_gt reader_multiple writer_multiple;
           if expanded : bool then Ok (add_incompatibility r "multiple_expanded" location)
           else
             changed ← py_mod_nonzero writer_multiple reader_multiple;
             Ok (if changed : bool then add_incompatibility r "multiple_changed" location else r)
         else Ok r);
    Ok (if bool_decide (reader_type = TInstance INTEGER) && bool_decide (writer_type = TInstance NUMBER)
        then add_incompatibility r "type_narrowed" location else r).

Definition compatibility_string (reader_schema writer_schema : Obj) (location : list string)
  : Result :=
  reader_type ← get_type_of (JObj reader_schema);
  writer_type ← get_type_of (JObj writer_schema);
  if negb (bool_decide (reader_type = TInstance STRING) && bool_decide (writer_type = TInstance STRING))
  then Raise AssertionError
  else run_checks reader_schema writer_schema [MAX_LENGTH_CHECK; MIN_LENGTH_CHECK; PATTERN_CHECK]
         location compatible_result.

(** *** The recursive checks; [rec] is [compatibility_rec] *)
Section recursive.
Context (rec : json -> json -> list string -> Result).

(** [zip] over the items: merge the incompatible results. *)
Fixpoint compare_items (reader_items writer_items : list json) (pos : nat) (location : list string)
  (r : SchemaCompatibilityResult) : Result :=
  match reader_items, writer_items with
  | reader_item :: reader_items, writer_item :: writer_items =>
      rec_result ← rec reader_item writer_item (location ++ ["items"; pretty (Z.of_nat pos)]%string);
      compare_items reader_items writer_items (S pos) location
        (if is_incompatible rec_result then merge r rec_result else r)
  | _, _ => Ok r
  end.

(** The writer's items beyond the reader's, against the schema [true]. *)
Definition check_removed_items (writer_items : list json) (location : list string)
  (r : SchemaCompatibilityResult) : Result :=
  fold_res (fun r writer_item =>
    rec_result ← rec (JBool true) writer_item location;
    Ok (if is_incompatible rec_result
        then add_incompatibility r "item_removed_not_covered_by_partially_open_content_model" location
        else r)) writer_items r.

(** The reader's items beyond the writer's, against the writer's additional items. *)
Fixpoint check_added_items (reader_items : list json) (writer_additional_items : json) (pos : nat)
  (location : list string) (r : SchemaCompatibilityResult) : Result :=
  match reader_items with
  | [] => Ok r
  | reader_item :: reader_items =>
      let location_reader_item := location ++ ["items"; pretty (Z.of_nat pos)]%string in
      rec_result ← rec reader_item writer_additional_items location_reader_item;
      check_added_items reader_items writer_additional_items (S pos) location
        (if is_incompatible rec_result
         then add_incompatibility r "item_added_not_covered_by_partially_open_content_model" location_reader_item
         else r)
  end.

(** [compatibility_array]. When the writer's tuple is shorter, [zip] has taken one more item
    from the reader's iterator than it used, so the later loop starts after it; [pos] is still
    the index of the last pair. *)
Definition compatibility_array (reader_schema writer_schema : Obj) (location : list string)
  : Result :=
  reader_type ← get_type_of (JObj reader_schema);
  writer_type ← get_type_of (JObj writer_schema);
  if negb (bool_decide (reader_type = TInstance ARRAY) && bool_decide (writer_type = TInstance ARRAY))
  then Raise AssertionError
  else
    let reader_items := jget Keyword.ITEMS reader_schema in
    let writer_items := jget Keyword.ITEMS writer_schema in
    if negb (Bool.eqb (is_tuple (JObj reader_schema)) (is_tuple (JObj writer_schema)))
    then Ok (type_mismatch location)
    else
      let '(rs, ws) := match reader_items, writer_items with
                       | JList rs, JList ws => (rs, ws)
                       | _, _ => ([reader_items], [writer_items])
                       end in
      r ← compare_items rs ws 0 location compatible_result;
      let pos := Nat.pred (Nat.min (length rs) (length ws)) in
      let reader_additional_items := jget_default Keyword.ADDITIONAL_ITEMS (JBool true) reader_schema in
      let location_additional_items := location ++ [Keyword.ADDITIONAL_ITEMS] in
      r ← (if (length rs <? length ws)%nat && negb (is_true_schema reader_additional_items)
           then check_removed_items (drop (length rs) ws) location_additional_items r
           else Ok r);
      let writer_additional_items := jget_default Keyword.ADDITIONAL_ITEMS (JBool true) writer_schema in
      r ← (if (length ws <? length rs)%nat then
             r ← (if negb (is_true_schema writer_additional_items)
                  then check_added_items (drop (S (length ws)) rs) writer_additional_items pos location r
                  else Ok r);
             Ok (add_incompatibility r "item_added_to_open_content_model" location)
           else Ok r);
      let r := if is_tuple_without_additional_items (JObj reader_schema)
                  && negb (is_tuple_without_additional_items (JObj writer_schema))
               then add_incompatibility r "additional_items_removed" location_additional_items else r in
      (* [reader_schema.get(Keyword.ITEMS)]: the enum member is not a key, so both are None *)
      rec_result ← rec JNull JNull location_additional_items;
      run_checks reader_schema writer_schema [MAX_ITEMS_CHECK; MIN_ITEMS_CHECK] location (merge r rec_result).

(** [properties] as a dict, empty when absent or falsy. The parser has checked the schema
    against the meta-schema, where nothing else is allowed. *)
Definition properties_of (schema : Obj) : result Obj :=
  match jget Keyword.PROPERTIES schema with
  | JObj d => Ok d
  | j => if truthy j then Raise TypeError else Ok []
  end.

(** [schema.get(keyword)] of a property's schema, which must be a dict. *)
Definition property_get (keyword : string) (schema : json) : result json :=
  match schema with JObj d => Ok (jget keyword d) | _ => Raise AttributeError end.

Definition check_common_property (writer_properties : Obj) (location : list string)
  (r : SchemaCompatibilityResult) (p : string * json) : Result :=
  match dget p.1 writer_properties with
  | None => Ok r
  | Some writer_property =>
      is_required_by_reader ← property_get Keyword.REQUIRED p.2;
      is_required_by_writer ← property_get Keyword.REQUIRED writer_property;
      let r := if negb (truthy is_required_by_writer) && truthy is_required_by_reader
               then add_incompatibility r "required_attribute_added" (location ++ [p.1]) else r in
      rec_result ← rec p.2 writer_property (location ++ [p.1]);
      Ok (if is_incompatible rec_result then merge r rec_result else r)
  end.

Definition check_property_unknown_to_reader (reader_schema : Obj) (location : list string)
  (r : SchemaCompatibilityResult) (p : string * json) : Result :=
  schema_for_property ← schema_from_partially_open_content_model reader_schema p.1;
  if is_none schema_for_property
  then Ok (add_incompatibility r "property_removed_from_closed_content_model" location)
  else
    rec_result ← rec schema_for_property p.2 location;
    Ok (if is_incompatible rec_result
        then add_incompatibility (merge r rec_result)
               "property_removed_not_covered_by_partially_open_content_model" location
        else r).

(** [name in value], for the values of [required]; on a string it looks for a substring. *)
Definition py_contains (value : json) (name : string) : result bool :=
  match value with
  | JStr s => Ok (match String.index 0 name s with Some _ => true | None => false end)
  | JList l => Ok (py_mem (JStr name) l)
  | JObj d => Ok (din name d)
  | _ => Raise TypeError
  end.

Definition check_property_unknown_to_writer (reader_schema writer_schema reader_properties : Obj)
  (location : list string) (r : SchemaCompatibilityResult) (p : string * json) : Result :=
  schema_for_property ← schema_from_partially_open_content_model writer_schema p.1;
  r ← (if negb (is_none schema_for_property) && negb (is_false_schema schema_for_property) then
         rec_result ← rec p.2 schema_for_property location;
         Ok (if is_incompatible rec_result
             then add_incompatibility r "property_added_not_covered_by_partially_open_content_model" location
             else r)
       else Ok r);
  required ← py_contains (jget_default Keyword.REQUIRED (JList []) reader_schema) p.1;
  without_default ← (if required : bool then
      has_default ← py_contains (jget_default Keyword.REQUIRED (JList []) reader_properties) Keyword.DEFAULT;
      Ok (negb has_default)
    else Ok false);
  Ok (if without_default : bool
      then add_incompatibility r "required_property_added_to_unopen_content_model" location else r).

(** The two branches on properties only one side declares. *)
Definition check_unknown_properties (reader_schema writer_schema reader_properties writer_properties : Obj)
  (location : list string) (r : SchemaCompatibilityResult) : Result :=
  let unknown_to_writer := List.filter (fun p => negb (din p.1 writer_properties)) reader_properties in
  let unknown_to_reader := List.filter (fun p => negb (din p.1 reader_properties)) writer_properties in
  reader_open ← match unknown_to_reader with
                | [] => Ok true
                | _ => is_object_content_model_open (JObj reader_schema)
                end;
  if negb reader_open then
    fold_res (check_property_unknown_to_reader reader_schema location) unknown_to_reader r
  else match unknown_to_writer with
       | [] => Ok r
       | _ =>
           writer_open ← is_object_content_model_open (JObj writer_schema);
           if writer_open : bool then Ok (add_incompatibility r "property_added_to_open_content_model" location)
           else fold_res (check_property_unknown_to_writer reader_schema writer_schema reader_properties location)
                  unknown_to_writer r
       end.

Definition check_dependency (reader_dependencies : Obj) (location : list string)
  (r : SchemaCompatibilityResult) (p : string * json) : Result :=
  let reader_attribute_dependencies := jget p.1 reader_dependencies in
  let r := if negb (truthy reader_attribute_dependencies)
           then add_incompatibility r "dependency_array_added" location else r in
  writer_set ← py_set p.2;
  reader_set ← py_set reader_attribute_dependencies;
  Ok (match py_diff writer_set reader_set with
      | [] => r
      | _ => add_incompatibility r "dependency_array_extended" location
      end).

Definition check_dependent_schema (reader_dependent_schemas : Obj) (location : list string)
  (r : SchemaCompatibilityResult) (p : string * json) : Result :=
  rec_result ← rec (jget p.1 reader_dependent_schemas) p.2 location;
  Ok (merge r rec_result).

(** [schema.get(keyword, {})] used as a dict. *)
Definition dict_member (keyword : string) (schema : Obj) : result Obj :=
  match jget_default keyword (JObj []) schema with JObj d => Ok d | _ => Raise AttributeError end.

Definition compatibility_object (reader_schema writer_schema : Obj) (location : list string)
  : Result :=
  reader_type ← get_type_of (JObj reader_schema);
  writer_type ← get_type_of (JObj writer_schema);
  if negb (bool_decide (reader_type = TInstance OBJECT) && bool_decide (writer_type = TInstance OBJECT))
  then Raise AssertionError
  else
    let properties_location := location ++ [Keyword.PROPERTIES] in
    reader_properties ← properties_of reader_schema;
    writer_properties ← properties_of writer_schema;
    r ← fold_res (check_common_property writer_properties properties_location) reader_properties
          compatible_result;
    r ← check_unknown_properties reader_schema writer_schema reader_properties writer_properties
          properties_location r;
    reader_dependencies ← dict_member Keyword.DEPENDENCIES reader_schema;
    writer_dependencies ← dict_member Keyword.DEPENDENCIES writer_schema;
    r ← fold_res (check_dependency reader_dependencies location) writer_dependencies r;
    reader_dependent_schemas ← dict_member Keyword.DEPENDENT_SCHEMAS reader_schema;
    writer_dependent_schemas ← dict_member Keyword.DEPENDENT_SCHEMAS writer_schema;
    r ← fold_res (check_dependent_schema reader_dependent_schemas location) writer_dependent_schemas r;
    r ← run_checks reader_schema writer_schema [MAX_PROPERTIES_CHECK; MIN_PROPERTIES_CHECK] location r;
    let reader_additional_properties := jget Keyword.ADDITIONAL_PROPERTIES reader_schema in
    let writer_additional_properties := jget Keyword.ADDITIONAL_PROPERTIES writer_schema in
    let location_additional_properties := location ++ [Keyword.ADDITIONAL_PROPERTIES] in
    let r := if introduced_constraint reader_additional_properties writer_additional_properties
             then add_incompatibility r "additional_properties_narrowed" location_additional_properties
             else r in
    if truthy reader_additional_properties && truthy writer_additional_properties then
      rec_result ← rec reader_additional_properties writer_additional_properties location_additional_properties;
      Ok (merge r rec_result)
    else Ok r.

(** *** Subschemas *)

Definition check_simple_subschema (simplified_reader_schema simplified_writer_schema : json)
  (location : list string) : Result :=
  rec_result ← rec simplified_reader_schema simplified_writer_schema location;
  Ok (if is_compatible rec_result then rec_result else type_mismatch location).

(** [product(enumerate(reader_schema), enumerate(writer_schema))], the reader's varying slowest. *)
Definition subschema_pairs (reader_schema writer_schema : list json)
  : list ((nat * json) * (nat * json)) :=
  flat_map (fun r => map (fun w => (r, w)) (imap pair writer_schema)) (imap pair reader_schema).

(** The edges of the compatibility graph. *)
Definition compatible_edges (reader_type : JType) (reader_schema writer_schema : list json)
  (location : list string) : result (list (nat * nat)) :=
  fold_res (fun edges p =>
    rec_result ← rec p.1.2 p.2.2 (location ++ [get_name_of reader_type; pretty (Z.of_nat p.2.1)]);
    Ok (if is_compatible rec_result then edges ++ [(p.1.1, p.2.1)] else edges))
    (subschema_pairs reader_schema writer_schema) [].

Definition count_uniquely_compatible_schemas (reader_type : JType)
  (reader_schema writer_schema : list json) (location : list string) : result nat :=
  edges ← compatible_edges reader_type reader_schema writer_schema location;
  Ok (maximum_matching edges).

(** [type_ in (Subschema.ALL_OF, Subschema.ANY_OF, Subschema.ONE_OF)] *)
Definition is_combination (t : JType) : bool :=
  bool_decide (t = TSubschema ALL_OF) || bool_decide (t = TSubschema ANY_OF)
  || bool_decide (t = TSubschema ONE_OF).

(** The first of the reader's alternatives that can read the writer's schema. *)
Fixpoint first_compatible (reader_subschemas : list json) (writer_schema : json)
  (location : list string) : Result :=
  match reader_subschemas with
  | [] => Ok (type_mismatch location)
  | reader_subschema :: reader_subschemas =>
      rec_result ← rec reader_subschema writer_schema location;
      if is_compatible rec_result then Ok rec_result
      else first_compatible reader_subschemas writer_schema location
  end.

(** Both sides are combinations (or negations) of subschemas. *)
Definition compare_combinations (reader_type writer_type : JType)
  (reader_subschemas writer_subschemas : list json) (location : list string) : Result :=
  let all_of := bool_decide (reader_type = TSubschema ALL_OF) in
  let len_reader := length reader_subschemas in
  let len_writer := length writer_subschemas in
  if negb (bool_decide (reader_type = TSubschema ANY_OF) || bool_decide (reader_type = writer_type))
  then Ok (incompatible_schema "combined_type_changed" location)
  else if all_of && (len_writer <? len_reader)%nat
  then Ok (incompatible_schema "product_type_extended" location)
  else if (bool_decide (reader_type = TSubschema ANY_OF) || bool_decide (reader_type = TSubschema ONE_OF))
          && (len_reader <? len_writer)%nat
  then Ok (incompatible_schema "sum_type_narrowed" location)
  else
    let required := if all_of then len_reader else len_writer in
    count ← count_uniquely_compatible_schemas reader_type reader_subschemas writer_subschemas location;
    Ok (if (count <? required)%nat
        then incompatible_schema "combined_type_subschemas_changed" location
        else compatible_result).

(** The subschemas of a schema, if any, and its type. *)
Definition subschemas_of (schema : json) : result (option (list json) * JType) :=
  sub ← maybe_get_subschemas_and_type schema;
  match sub with
  | Some (l, t) => Ok (Some l, TSubschema t)
  | None => t ← get_type_of schema; Ok (None, t)
  end.

Definition compatibility_subschemas (reader_schema writer_schema : json) (location : list string)
  : Result :=
  reader_sub ← subschemas_of reader_schema;
  writer_sub ← subschemas_of writer_schema;
  let '(reader_subschemas, reader_type) := reader_sub in
  let '(writer_subschemas, writer_type) := writer_sub in
  let reader_has_subschema := match reader_subschemas with Some _ => is_combination reader_type | None => false end in
  let writer_has_subschema := match writer_subschemas with Some _ => is_combination writer_type | None => false end in
  reader_simple ← is_simple_subschema reader_schema;
  writer_simple ← is_simple_subschema writer_schema;
  let subschema_location := location ++ [get_name_of reader_type] in
  if reader_has_subschema && negb writer_has_subschema && reader_simple then
    match reader_subschemas with
    | Some (reader_subschema :: _) => check_simple_subschema reader_subschema writer_schema subschema_location
    | _ => Raise AssertionError
    end
  else if negb reader_has_subschema && writer_has_subschema && writer_simple then
    match writer_subschemas with
    | Some (writer_subschema :: _) => check_simple_subschema reader_schema writer_subschema subschema_location
    | _ => Raise AssertionError
    end
  else if (bool_decide (reader_type = TSubschema ANY_OF) || bool_decide (reader_type = TSubschema ONE_OF))
          && negb writer_has_subschema then
    match reader_subschemas with
    | Some l => first_compatible l writer_schema subschema_location
    | None => Raise AssertionError
    end
  else match reader_subschemas, writer_subschemas with
       | Some rs, Some ws => compare_combinations reader_type writer_type rs ws subschema_location
       | _, _ => Ok (type_mismatch subschema_location)
       end.

(** A check on dict schemas; [.get] of anything else is an [AttributeError]. *)
Definition on_dicts (check : Obj -> Obj -> list string -> Result) (reader_schema writer_schema : json)
  (location : list string) : Result :=
  match reader_schema, writer_schema with
  | JObj r, JObj w => check r w location
  | _, _ => Raise AttributeError
  end.

(** The schema [true] as an object schema. *)
Definition object_of_true (schema : json) : json :=
  if is_true_schema schema then JObj [(Keyword.TYPE, JStr (instance_value OBJECT))] else schema.

(** One unfolding of [compatibility_rec]. *)
Definition compatibility_step (reader_schema writer_schema : json) (location : list string) : Result :=
  if introduced_constraint reader_schema writer_schema
  then Ok (incompatible_schema "schema_added" location)
  else if is_none reader_schema && negb (is_none writer_schema)
  then Ok (incompatible_schema "schema_removed" location)
  else
    reader_type ← get_type_of reader_schema;
    writer_type ← get_type_of writer_schema;
    let both_are_numbers := is_numeric reader_type && is_numeric writer_type in
    let either_has_subschema := is_combination reader_type || is_combination writer_type in
    let both_are_object :=
      (bool_decide (reader_type = TInstance OBJECT) || is_true_schema reader_schema)
      && (bool_decide (writer_type = TInstance OBJECT) || is_true_schema writer_schema) in
    if negb both_are_numbers && negb either_has_subschema && negb both_are_object
       && negb (bool_decide (reader_type = writer_type))
    then Ok (type_mismatch location)
    else if both_are_numbers then on_dicts compatibility_numerical reader_schema writer_schema location
    else if either_has_subschema then compatibility_subschemas reader_schema writer_schema location
    else if both_are_object then
      on_dicts compatibility_object (object_of_true reader_schema) (object_of_true writer_schema) location
    else match reader_type with
         | TBooleanSchema => Ok compatible_result
         | TSubschema NOT =>
             match reader_schema, writer_schema with
             | JObj r, JObj w =>
                 reader_not ← dindex (subschema_value NOT) r;
                 writer_not ← dindex (subschema_value NOT) w;
                 rec reader_not writer_not (location ++ [subschema_value NOT])
             | _, _ => Raise TypeError
             end
         | TInstance BOOLEAN => Ok compatible_result
         | TInstance STRING => on_dicts compatibility_string reader_schema writer_schema location
         | TInstance ARRAY => on_dicts compatibility_array reader_schema writer_schema location
         | TEnum => on_dicts compatibility_enum reader_schema writer_schema location
         | TInstance NULL => Ok compatible_result
         | _ => Raise ValueError
         end.
End recursive.

(** [compatibility_rec]; running out of fuel is Python's recursion limit. *)
Fixpoint compatibility_rec (fuel : nat) (reader_schema writer_schema : json) (location : list string)
  : Result :=
  match fuel with
  | O => Raise RecursionError
  | S fuel => compatibility_step (compatibility_rec fuel) reader_schema writer_schema location
  end.
End JsonSchema.

(** ** Resolving references

    The resolver of a [Draft7Validator]: a stack of base URIs, the first
    one that of the schema, and the three functions of the
    library the code calls. [push_scope] joins the new scope to the top of the stack; [resolve]
    raises when a reference does not resolve. *)
Class Resolver : Type := {
  base_uri : string;
  id_of : list (string * json) -> string;
  urljoin : string -> string -> string;
  resolve : string -> string -> result (string * json);
}.

Definition Scopes : Type := list string.

Section normalize.
Context `{!Resolver}.

Definition resolution_scope (stack : Scopes) : string := default "" (head stack).
Definition push_scope (scope : string) : M Scopes () :=
  modify (fun stack => urljoin (resolution_scope stack) scope :: stack).
Definition pop_scope : M Scopes () := modify tail.

(** [dict.update] takes a dict or a sequence of pairs; keys of decoded JSON are strings. *)
Definition pair_of (j : json) : result (string * json) :=
  match j with
  | JList [JStr k; v] => Ok (k, v)
  | JStr (String a (String b EmptyString)) => Ok (String a EmptyString, JStr (String b EmptyString))
  | JList _ | JStr _ => Raise ValueError
  | _ => Raise TypeError
  end.
Definition updates_of (j : json) : result (list (string * json)) :=
  match j with
  | JObj d => Ok d
  | JList l => map_res pair_of l
  | JStr EmptyString => Ok []
  | JStr _ => Raise ValueError
  | _ => Raise TypeError
  end.
Definition dict_of (pairs : list (string * json)) : list (string * json) :=
  fold_left (fun d p => dset p.1 p.2 d) pairs [].

Section normalize_rec.
Context (rec : json -> M Scopes json).

Fixpoint normalize_items (items : list json) : M Scopes (list json) :=
  match items with
  | [] => mret []
  | item :: items => x ← rec item; l ← normalize_items items; mret (x :: l)
  end.

Fixpoint normalize_members (members : list (string * json)) : M Scopes (list (string * json)) :=
  match members with
  | [] => mret []
  | (keyword, schema) :: members => x ← rec schema; l ← normalize_members members; mret ((keyword, x) :: l)
  end.

(** The body of a dict schema: a [$ref] replaces it by the normalised target. *)
Definition normalize_dict (original_schema : list (string * json)) : M Scopes json :=
  match jget Keyword.REF original_schema with
  | JNull => members ← normalize_members original_schema; mret (JObj (dict_of members))
  | JStr ref =>
      stack ← gets (fun stack => stack);
      target ← lift (resolve (resolution_scope stack) ref);
      _ ← push_scope target.1;
      normalized ← rec target.2;
      pairs ← lift (updates_of normalized);
      _ ← pop_scope;
      mret (JObj (dict_of pairs))
  | _ => raise TypeError
  end.
End normalize_rec.

Fixpoint normalize_schema_rec (fuel : nat) (original_schema : json) : M Scopes json :=
  match fuel with
  | O => raise RecursionError
  | S fuel =>
      match original_schema with
      | JObj d =>
          let scope := id_of d in
          let has_scope := negb (String.eqb scope "") in
          _ ← (if has_scope then push_scope scope else mret ());
          normalized ← normalize_dict (normalize_schema_rec fuel) d;
          _ ← (if has_scope then pop_scope else mret ());
          mret normalized
      | JList l => items ← normalize_items (normalize_schema_rec fuel) l; mret (JList items)
      | _ => mret original_schema
      end
  end.

(** [normalize_schema]; the resolver starts with its base URI on the stack. *)
Definition normalize_schema (fuel : nat) (schema : json) : result json :=
  (normalize_schema_rec fuel schema [base_uri]).2.
End normalize.

(** [compatibility]: normalise both schemas, then compare them. *)
Definition compatibility `{!AvroMerge} (re_match : string -> string -> result bool)
  (maximum_matching : list (nat * nat) -> nat) (reader_resolver writer_resolver : Resolver)
  (fuel : nat) (reader writer : json) : result SchemaCompatibilityResult :=
  reader_schema ← @normalize_schema reader_resolver fuel reader;
  writer_schema ← @normalize_schema writer_resolver fuel writer;
  compatibility_rec re_match maximum_matching fuel reader_schema writer_schema [].
