(* ===== verification/JsonSchemaSpec.v ===== *)
(** * Termination of the JSON Schema compatibility check

    The recursion of [compatibility_rec] is on pairs of schemas of decreasing total size: one
    step depends on the recursive answers for smaller pairs only (section [agree]) and raises no
    recursion error of its own (section [errors]), so fuel above the total size never runs out
    and the answer does not depend on it. *)

From Stdlib Require Import QArith.
From stdpp Require Import pretty.
From S2P Require Import Prelude Json Models Compat JsonSchema.
Open Scope Z_scope.

(** ** Termination *)

Fixpoint json_size (j : json) : nat :=
  match j with
  | JList l => S (list_sum (map json_size l))
  | JObj d => S (S (list_sum (map (fun kv => json_size kv.2) d)))
  | _ => 1%nat
  end.

Lemma list_sum_elem {A} (f : A -> nat) x l : x ∈ l -> (f x <= list_sum (map f l))%nat.
Proof. induction 1; simpl; lia. Qed.

Lemma json_size_pos j : (1 <= json_size j)%nat.
Proof. destruct j; simpl; lia. Qed.

Lemma size_item x l : x ∈ l -> (json_size x < json_size (JList l))%nat.
Proof. intros H%(list_sum_elem json_size). simpl. lia. Qed.

Lemma size_member kv d : kv ∈ d -> (S (json_size kv.2) < json_size (JObj d))%nat.
Proof. intros H%(list_sum_elem (fun kv => json_size kv.2)). simpl in *. lia. Qed.

Lemma dget_elem {V} k (d : list (string * V)) v : dget k d = Some v -> (k, v) ∈ d.
Proof.
  induction d as [|[k' v'] d IH]; simpl; [done|]. case_decide; intros; simplify_eq; set_solver.
Qed.

Lemma size_dget k d v : dget k d = Some v -> (json_size v < json_size (JObj d))%nat.
Proof. intros H%dget_elem%size_member. simpl in *. lia. Qed.

Lemma size_jget k d : (json_size (jget k d) < json_size (JObj d))%nat.
Proof.
  unfold jget. destruct (dget k d) eqn:E; simpl of_opt; [by eapply size_dget|simpl; lia].
Qed.

Lemma size_dset k v d v' : dget k d = Some v' -> (json_size v < json_size v')%nat ->
  (json_size (JObj (dset k v d)) < json_size (JObj d))%nat.
Proof.
  induction d as [|[k' w] d IH]; simpl; [done|]. case_decide; simpl.
  - intros [= ->]. lia.
  - intros H1 H2. specialize (IH H1 H2). simpl in IH. lia.
Qed.

#[export] Hint Resolve json_size_pos size_item size_member size_dget size_jget : karapace.

Lemma fold_res_ext {A B} (f g : B -> A -> result B) l acc :
  (forall acc x, x ∈ l -> f acc x = g acc x) -> fold_res f l acc = fold_res g l acc.
Proof.
  revert acc; induction l as [|x l IH]; intros acc H; simpl; [done|].
  rewrite (H acc x) by set_solver. destruct (g acc x); simpl; [|done]. apply IH. set_solver.
Qed.

Lemma bind_ext {A B} (r r' : result A) (f g : A -> result B) :
  r = r' -> (forall a, r = Ok a -> f a = g a) -> r ≫= f = r' ≫= g.
Proof. intros <- H. destruct r; simpl; auto. Qed.

(** A subschema list contains smaller schemas only. *)
Lemma subschemas_size schema l t x :
  maybe_get_subschemas_and_type schema = Ok (Some (l, t)) -> x ∈ l ->
  (json_size x < json_size schema)%nat.
Proof.
  destruct schema as [| | | | |l'|d]; try discriminate. simpl maybe_get_subschemas_and_type.
  assert (Hcases : forall k y, jget k d = JList y -> x ∈ y -> (json_size x < json_size (JObj d))%nat).
  { intros k y E H%size_item. pose proof (size_jget k d) as Hs. rewrite E in Hs. lia. }
  assert (Hnot : (l, t) = ([jget "not" d], NOT) -> x ∈ l ->
    (json_size x < json_size (JObj d))%nat).
  { intros [= -> ->] ->%list_elem_of_singleton. apply size_jget. }
  destruct (jget Keyword.TYPE d) as [| | | | |types|] eqn:E.
  6: { intros [= <- <-] (y & -> & Hy)%list_elem_of_fmap. unfold jget in E.
       destruct (dget Keyword.TYPE d) as [v|] eqn:E'; simpl in E; [|done]. subst v.
       eapply size_dset; [done|]. by apply size_item. }
  all: unfold first_subschemas.
  all: repeat (match goal with |- context [jget ?k ?o] => destruct (jget k o) as [| | | | |?y|] eqn:?; simpl end; try done).
  all: try (intros [= <- <-]; by eauto).
  all: intros [= <- <-]; apply Hnot; congruence.
Qed.

(** *** The step only depends on the recursive answers for smaller pairs *)

Section agree.
Context `{!AvroMerge} (re_match : string -> string -> result bool)
  (maximum_matching : list (nat * nat) -> nat)
  (rec1 rec2 : json -> json -> list string -> result SchemaCompatibilityResult).

Definition agree_below (n : nat) : Prop := forall r w loc,
  (json_size r + json_size w < n)%nat -> rec1 r w loc = rec2 r w loc.

Lemma compare_items_agree n rs ws pos loc res :
  agree_below n -> (forall x y, x ∈ rs -> y ∈ ws -> (json_size x + json_size y < n)%nat) ->
  compare_items rec1 rs ws pos loc res = compare_items rec2 rs ws pos loc res.
Proof.
  intros Hag. revert ws pos res. induction rs as [|x rs IH]; intros [|y ws] pos res Hs; simpl; try done.
  rewrite Hag by (apply Hs; set_solver). apply bind_ext; [done|]. intros ? _. apply IH. set_solver.
Qed.

Lemma check_added_items_agree n rs w pos loc res :
  agree_below n -> (forall x, x ∈ rs -> (json_size x + json_size w < n)%nat) ->
  check_added_items rec1 rs w pos loc res = check_added_items rec2 rs w pos loc res.
Proof.
  intros Hag. revert pos res. induction rs as [|x rs IH]; intros pos res Hs; simpl; [done|].
  rewrite Hag by (apply Hs; set_solver). apply bind_ext; [done|]. intros ? _. apply IH. set_solver.
Qed.

Lemma first_compatible_agree n rs w loc :
  agree_below n -> (forall x, x ∈ rs -> (json_size x + json_size w < n)%nat) ->
  first_compatible rec1 rs w loc = first_compatible rec2 rs w loc.
Proof.
  intros Hag. induction rs as [|x rs IH]; intros Hs; simpl; [done|].
  rewrite Hag by (apply Hs; set_solver). apply bind_ext; [done|]. intros ? _.
  destruct (is_compatible _); [done|]. apply IH. set_solver.
Qed.

Lemma elem_of_drop_inv {A} (x : A) n l : x ∈ drop n l -> x ∈ l.
Proof. intros Hx. rewrite <- (take_drop n l). set_solver. Qed.

Lemma size_jget_default k v d : json_size v = 1%nat ->
  (json_size (jget_default k v d) < json_size (JObj d))%nat.
Proof.
  intros Hv. unfold jget_default. destruct (dget k d) eqn:E; [by eapply size_dget|]. simpl. lia.
Qed.

Lemma compatibility_array_agree r w loc :
  agree_below (json_size (JObj r) + json_size (JObj w)) ->
  compatibility_array rec1 r w loc = compatibility_array rec2 r w loc.
Proof.
  intros Hag. unfold compatibility_array.
  apply bind_ext; [done|intros ? _]. apply bind_ext; [done|intros ? _].
  destruct (negb _); [done|]. destruct (negb _); [done|].
  set (rws := match jget Keyword.ITEMS r with JList _ => _ | _ => _ end).
  assert (Hr : forall x, x ∈ rws.1 -> (json_size x < json_size (JObj r))%nat).
  { intros x Hx. pose proof (size_jget Keyword.ITEMS r) as Hs.
    destruct (jget Keyword.ITEMS r) eqn:E; [..|destruct (jget Keyword.ITEMS w)|];
      subst rws; simpl in Hx; try (apply list_elem_of_singleton in Hx; by subst).
    apply size_item in Hx. lia. }
  assert (Hw : forall x, x ∈ rws.2 -> (json_size x < json_size (JObj w))%nat).
  { intros x Hx. pose proof (size_jget Keyword.ITEMS w) as Hs.
    destruct (jget Keyword.ITEMS r), (jget Keyword.ITEMS w); subst rws; simpl in Hx;
      try (apply list_elem_of_singleton in Hx; by subst).
    apply size_item in Hx. lia. }
  destruct rws as [rs ws]; cbn [fst snd] in Hr, Hw.
  apply bind_ext.
  { eapply compare_items_agree; [done|]. intros x y Hx%Hr Hy%Hw. lia. }
  intros res _. apply bind_ext.
  { destruct (_ && _); [|done]. apply fold_res_ext. intros acc x Hx.
    apply elem_of_drop_inv, Hw in Hx. pose proof (json_size_pos (JObj r)).
    rewrite Hag; [done|]. change (json_size (JBool true)) with 1%nat. lia. }
  intros res2 _. apply bind_ext.
  { destruct (_ <? _)%nat; [|done]. apply bind_ext; [|done]. destruct (negb _); [|done].
    eapply check_added_items_agree; [done|]. intros x Hx%elem_of_drop_inv%Hr.
    pose proof (size_jget_default Keyword.ADDITIONAL_ITEMS (JBool true) w eq_refl). lia. }
  intros res3 _. rewrite Hag; [done|]. simpl. lia.
Qed.

Lemma first_matching_elem patterns name s :
  first_matching re_match patterns name = Ok (Some s) -> exists k, (k, s) ∈ patterns.
Proof.
  induction patterns as [|[k v] patterns IH]; simpl; [done|].
  intros (m & _ & Hm)%bind_Ok. destruct m; [simplify_eq; set_solver|].
  destruct (IH Hm) as [k' Hk]. set_solver.
Qed.

Lemma content_model_size d name s :
  schema_from_partially_open_content_model re_match d name = Ok s ->
  (json_size s < json_size (JObj d))%nat.
Proof.
  unfold schema_from_partially_open_content_model, jget_default.
  destruct (dget Keyword.PATTERN_PROPERTIES d) as [v|] eqn:E.
  - destruct v as [| | | | | |patterns]; try discriminate.
    intros ([v|] & Hv & Hs)%bind_Ok; simplify_eq; [|apply size_jget].
    apply first_matching_elem in Hv as [k Hk]. apply size_member in Hk. apply size_dget in E.
    simpl (snd _) in Hk. lia.
  - simpl. intros [= <-]. apply size_jget.
Qed.

Lemma properties_size d ps p : properties_of d = Ok ps -> p ∈ ps ->
  (json_size p.2 < json_size (JObj d))%nat.
Proof.
  unfold properties_of. pose proof (size_jget Keyword.PROPERTIES d) as Hs.
  intros Hps Hp.
  assert (exists ps', jget Keyword.PROPERTIES d = JObj ps' /\ ps' = ps) as (ps' & E & ->).
  { destruct (jget Keyword.PROPERTIES d); try destruct (truthy _); simplify_eq; eauto;
      by apply not_elem_of_nil in Hp. }
  rewrite E in Hs. apply size_member in Hp. lia.
Qed.

Lemma dict_member_size k d d' p : dict_member k d = Ok d' -> p ∈ d' ->
  (json_size p.2 < json_size (JObj d))%nat.
Proof.
  unfold dict_member, jget_default. destruct (dget k d) as [[| | | | | |v]|] eqn:E; try discriminate.
  - intros [= ->] Hp%size_member. apply size_dget in E. lia.
  - intros [= <-] Hp%not_elem_of_nil. done.
Qed.

(** [a] bounds the schemas [compatibility_object] recurses on in the object schema [d]. *)
Definition measured (d : list (string * json)) (a : nat) : Prop :=
  (forall ps p, properties_of d = Ok ps -> p ∈ ps -> (json_size p.2 < a)%nat) /\
  (forall name s, schema_from_partially_open_content_model re_match d name = Ok s -> is_none s = false ->
    (json_size s < a)%nat) /\
  (forall k d' p, dict_member k d = Ok d' -> p ∈ d' -> (json_size p.2 < a)%nat) /\
  (truthy (jget Keyword.ADDITIONAL_PROPERTIES d) = true ->
    (json_size (jget Keyword.ADDITIONAL_PROPERTIES d) < a)%nat) /\
  (1 <= a)%nat.

Lemma measured_self d : measured d (json_size (JObj d)).
Proof.
  split_and!; eauto using properties_size, content_model_size, dict_member_size, json_size_pos, size_jget.
Qed.

Lemma measured_true : measured [(Keyword.TYPE, JStr (instance_value OBJECT))] 1.
Proof.
  split_and!; try done.
  - intros ps p [= <-] Hp. by apply not_elem_of_nil in Hp.
  - by intros name s [= <-].
  - intros k d' p. unfold dict_member, jget_default. simpl. case_decide; [done|].
    intros [= <-] Hp. by apply not_elem_of_nil in Hp.
Qed.

Lemma check_unknown_properties_agree a b r w rp wp loc res :
  measured r a -> measured w b -> agree_below (a + b) ->
  properties_of r = Ok rp -> properties_of w = Ok wp ->
  check_unknown_properties re_match rec1 r w rp wp loc res =
  check_unknown_properties re_match rec2 r w rp wp loc res.
Proof.
  intros (Hr1 & Hr2 & _) (Hw1 & Hw2 & _) Hag Hrp Hwp. unfold check_unknown_properties. apply bind_ext; [done|intros ro _].
  destruct (negb ro).
  - apply fold_res_ext. intros acc p [Hp _]%list_elem_of_In%filter_In.
    apply list_elem_of_In, (Hw1 _ _ Hwp) in Hp.
    unfold check_property_unknown_to_reader. apply bind_ext; [done|intros s Hs]. specialize (Hr2 _ _ Hs).
    destruct (is_none s); [done|]. specialize (Hr2 eq_refl). rewrite Hag; [done|lia].
  - destruct (List.filter _ rp) as [|p0 l] eqn:El; [done|]. rewrite <- El. clear El p0 l.
    apply bind_ext; [done|intros [] _]; [done|].
    apply fold_res_ext. intros acc p [Hp _]%list_elem_of_In%filter_In.
    apply list_elem_of_In, (Hr1 _ _ Hrp) in Hp.
    unfold check_property_unknown_to_writer. apply bind_ext; [done|intros s Hs]. specialize (Hw2 _ _ Hs).
    apply bind_ext; [|done]. destruct (is_none s); [done|]. specialize (Hw2 eq_refl).
    destruct (_ && _); [|done]. rewrite Hag; [done|lia].
Qed.

Lemma compatibility_object_agree a b r w loc :
  measured r a -> measured w b -> agree_below (a + b) ->
  compatibility_object re_match rec1 r w loc = compatibility_object re_match rec2 r w loc.
Proof.
  intros Hr Hw Hag. pose proof Hr as (Hr1 & _ & Hr3 & Hr4 & Hr5). pose proof Hw as (Hw1 & _ & Hw3 & Hw4 & _).
  unfold compatibility_object.
  apply bind_ext; [done|intros ? _]. apply bind_ext; [done|intros ? _]. destruct (negb _); [done|].
  apply bind_ext; [done|intros rp Hrp]. apply bind_ext; [done|intros wp Hwp].
  apply bind_ext.
  { apply fold_res_ext. intros acc p Hp. unfold check_common_property.
    destruct (dget p.1 wp) as [v|] eqn:Ev; [|done]. apply dget_elem in Ev.
    apply (Hw1 _ _ Hwp) in Ev. apply (Hr1 _ _ Hrp) in Hp. simpl (snd _) in Ev.
    apply bind_ext; [done|intros ? _]. apply bind_ext; [done|intros ? _]. rewrite Hag; [done|lia]. }
  intros res _. apply bind_ext; [by eapply check_unknown_properties_agree|intros res2 _].
  do 3 (apply bind_ext; [done|intros ? _]).
  apply bind_ext; [done|intros rd Hrd]. apply bind_ext; [done|intros wd Hwd].
  apply bind_ext.
  { apply fold_res_ext. intros acc p Hp%(Hw3 _ _ _ Hwd). unfold check_dependent_schema.
    assert (json_size (jget p.1 rd) <= a)%nat.
    { unfold jget. destruct (dget p.1 rd) as [v|] eqn:Ev; [|simpl; lia].
      apply dget_elem, (Hr3 _ _ _ Hrd) in Ev. simpl in *. lia. }
    rewrite Hag; [done|lia]. }
  intros res3 _. apply bind_ext; [done|intros res4 _].
  destruct (truthy (jget Keyword.ADDITIONAL_PROPERTIES r)); [|done].
  destruct (truthy (jget Keyword.ADDITIONAL_PROPERTIES w)); [|done].
  specialize (Hr4 eq_refl). specialize (Hw4 eq_refl). simpl. rewrite Hag; [done|lia].
Qed.

Lemma subschema_pairs_lookup rs ws i x j y :
  ((i, x), (j, y)) ∈ subschema_pairs rs ws -> rs !! i = Some x /\ ws !! j = Some y.
Proof.
  unfold subschema_pairs. rewrite list_elem_of_In, in_flat_map.
  intros (p & Hx & (q & Hpq & Hy)%in_map_iff). injection Hpq as -> ->. rewrite <- list_elem_of_In in Hx, Hy.
  apply elem_of_lookup_imap in Hx as (i' & x' & [= -> ->] & Hx).
  by apply elem_of_lookup_imap in Hy as (j' & y' & [= -> ->] & Hy).
Qed.

Lemma subschema_pairs_elem rs ws p : p ∈ subschema_pairs rs ws -> p.1.2 ∈ rs /\ p.2.2 ∈ ws.
Proof.
  destruct p as [[i x] [j y]]. intros [Hx Hy]%subschema_pairs_lookup. simpl.
  eauto using list_elem_of_lookup_2.
Qed.

Lemma subschemas_of_size s l t x : subschemas_of s = Ok (Some l, t) -> x ∈ l ->
  (json_size x < json_size s)%nat.
Proof.
  unfold subschemas_of. intros ([[l' t']|] & Hm & Hs)%bind_Ok; [|by apply bind_Ok in Hs as (? & ? & ?)].
  simplify_eq. by apply (subschemas_size _ _ _ _ Hm).
Qed.

Lemma compare_combinations_agree n rt wt rs ws loc :
  agree_below n -> (forall x y, x ∈ rs -> y ∈ ws -> (json_size x + json_size y < n)%nat) ->
  compare_combinations maximum_matching rec1 rt wt rs ws loc =
  compare_combinations maximum_matching rec2 rt wt rs ws loc.
Proof.
  intros Hag Hs. unfold compare_combinations. do 3 (destruct (_ : bool); [done|]).
  apply bind_ext; [|done]. apply bind_ext; [|done]. apply fold_res_ext. intros acc p Hp.
  apply subschema_pairs_elem in Hp as [Hx Hy]. rewrite Hag; [done|]. by apply Hs.
Qed.

Lemma compatibility_subschemas_agree r w loc :
  agree_below (json_size r + json_size w) ->
  compatibility_subschemas maximum_matching rec1 r w loc =
  compatibility_subschemas maximum_matching rec2 r w loc.
Proof.
  intros Hag. unfold compatibility_subschemas.
  apply bind_ext; [done|intros [rs rt] Hr]. apply bind_ext; [done|intros [ws wt] Hw].
  do 2 (apply bind_ext; [done|intros ? _]).
  assert (Hsr : forall l x, rs = Some l -> x ∈ l -> (json_size x < json_size r)%nat)
    by (intros l x ->; by apply (subschemas_of_size _ _ _ _ Hr)).
  assert (Hsw : forall l x, ws = Some l -> x ∈ l -> (json_size x < json_size w)%nat)
    by (intros l x ->; by apply (subschemas_of_size _ _ _ _ Hw)).
  destruct (_ && _ && _); [|destruct (_ && _ && _); [|destruct ((_ || _) && _)]].
  - destruct rs as [[|x l]|]; try done. unfold check_simple_subschema. rewrite Hag; [done|].
    specialize (Hsr _ x eq_refl). assert (x ∈ x :: l) by set_solver. naive_solver lia.
  - destruct ws as [[|x l]|]; try done. unfold check_simple_subschema. rewrite Hag; [done|].
    specialize (Hsw _ x eq_refl). assert (x ∈ x :: l) by set_solver. naive_solver lia.
  - destruct rs as [l|]; [|done]. eapply first_compatible_agree; [done|].
    intros x Hx%(Hsr _ _ eq_refl). lia.
  - destruct rs as [l|], ws as [l'|]; try done. eapply compare_combinations_agree; [done|].
    intros x y Hx%(Hsr _ _ eq_refl) Hy%(Hsw _ _ eq_refl). lia.
Qed.

(** Replacing the schema [true] by an object schema exposes nothing to recurse on. *)
Lemma object_of_true_measured s d : object_of_true s = JObj d -> measured d (json_size s).
Proof.
  unfold object_of_true. destruct (is_true_schema s) eqn:Es.
  - intros [= <-]. destruct s; try discriminate. apply measured_true.
  - intros ->. apply measured_self.
Qed.

Lemma object_of_true_agree r w loc :
  agree_below (json_size r + json_size w) ->
  on_dicts (compatibility_object re_match rec1) (object_of_true r) (object_of_true w) loc =
  on_dicts (compatibility_object re_match rec2) (object_of_true r) (object_of_true w) loc.
Proof.
  intros Hag. destruct (object_of_true r) as [| | | | | |dr] eqn:Er; try reflexivity.
  destruct (object_of_true w) as [| | | | | |dw] eqn:Ew; try reflexivity. unfold on_dicts.
  eauto using compatibility_object_agree, object_of_true_measured.
Qed.

Lemma compatibility_step_agree r w loc :
  agree_below (json_size r + json_size w) ->
  compatibility_step re_match maximum_matching rec1 r w loc =
  compatibility_step re_match maximum_matching rec2 r w loc.
Proof.
  intros Hag. unfold compatibility_step. do 2 (destruct (_ : bool); [done|]).
  apply bind_ext; [done|intros rt _]. apply bind_ext; [done|intros wt _].
  destruct (_ : bool); [done|]. destruct (_ : bool); [done|].
  destruct (_ : bool); [by apply compatibility_subschemas_agree|].
  destruct (_ : bool); [by apply object_of_true_agree|].
  destruct rt as [[]|[]| |]; try done.
  - destruct r as [| | | | | |r], w as [| | | | | |w]; try done. by apply compatibility_array_agree.
  - destruct r as [| | | | | |r], w as [| | | | | |w]; try done.
    apply bind_ext; [done|]. unfold dindex. intros x Hx. apply bind_ext; [done|]. intros y Hy.
    destruct (dget _ r) eqn:E1; [|done]. destruct (dget _ w) eqn:E2; [|done]. simplify_eq.
    apply size_dget in E1, E2. rewrite Hag; [done|lia].
Qed.
End agree.

(** *** No check raises a recursion error by itself *)

Section errors.
Context `{!AvroMerge} (re_match : string -> string -> result bool)
  (maximum_matching : list (nat * nat) -> nat).
(** What [P] allows: the errors the checks raise on shapes they do not expect, and those of
    [re.match]. *)
Context (P : exn -> Prop).
Hypothesis HP : forall e, e ∈ [AssertionError; TypeError; AttributeError; ValueError; RuntimeError; KeyError] -> P e.
Hypothesis Hre : forall p s, raises_res P (re_match p s).
Context (rec : json -> json -> list string -> result SchemaCompatibilityResult).
Hypothesis Hrec : forall r w loc, raises_res P (rec r w loc).

Lemma raises_res_fold {A B} (f : B -> A -> result B) l acc :
  (forall acc x, raises_res P (f acc x)) -> raises_res P (fold_res f l acc).
Proof.
  intros Hf. revert acc; induction l as [|x l IH]; intros acc; simpl; [done|].
  apply raises_res_bind; auto.
Qed.

Lemma raises_res_fmap {A B} (f : A -> B) r : raises_res P r -> raises_res P (f <$> r).
Proof. intros Hr e. destruct r; simpl; [done|]. intros [= <-]. by apply Hr. Qed.

Lemma raises_shape {A} e :
  e ∈ [AssertionError; TypeError; AttributeError; ValueError; RuntimeError; KeyError] ->
  raises_res P (Raise (A := A) e).
Proof. intros He. apply raises_res_raise, HP, He. Qed.

Ltac shapes := repeat first
  [ match goal with
    | Hf : forall s, raises_res _ (?f s) |- raises_res _ (?f _) => apply Hf
    | Hf : forall s t, raises_res _ (?f s t) |- raises_res _ (?f _ _) => apply Hf
    | |- raises_res _ (?x ≫= _) => apply raises_res_bind; [|intros]
    | |- raises_res _ (fold_res _ _ _) => apply raises_res_fold; intros
    end
  | progress cbv zeta
  | apply raises_res_ok
  | apply Hrec | apply Hre | assumption
  | apply raises_shape; solve [repeat first [apply list_elem_of_here | apply list_elem_of_further]]
  | match goal with |- raises_res _ (match ?x with _ => _ end) => destruct x end
  | match goal with |- raises_res _ (_ <$> ?x) => apply raises_res_fmap end ].

Lemma maybe_get_raises s : raises_res P (maybe_get_subschemas_and_type s).
Proof.
  unfold maybe_get_subschemas_and_type, first_subschemas. shapes.
Qed.

Lemma get_type_of_raises s : raises_res P (get_type_of s).
Proof.
  unfold get_type_of. pose proof maybe_get_raises as Hm. shapes.
  unfold instance_of. shapes.
Qed.

Lemma run_checks_raises r w checks loc res :
  (forall c a b, c ∈ checks -> raises_res P (comparison c a b)) ->
  raises_res P (run_checks r w checks loc res).
Proof.
  intros Hc. unfold run_checks. revert res. induction checks as [|c checks IH]; intros res; simpl; [done|].
  apply raises_res_bind; [|intros; apply IH; set_solver].
  unfold check_assertion_compatibility. shapes. apply Hc. set_solver.
Qed.

Lemma gt_raises a b : raises_res P (gt a b).
Proof. unfold gt, py_gt. shapes. Qed.

Lemma standard_checks_raise r w checks loc res :
  Forall (fun c => comparison c = gt \/ comparison c = lt \/ comparison c = ne) checks ->
  raises_res P (run_checks r w checks loc res).
Proof.
  rewrite Forall_forall. intros Hc. apply run_checks_raises. intros c a b Hin.
  destruct (Hc c Hin) as [E|[E|E]]; rewrite E; try apply gt_raises. unfold ne. shapes.
Qed.

Lemma compare_items_raises rs ws n loc res : raises_res P (compare_items rec rs ws n loc res).
Proof. revert ws n res. induction rs as [|x rs IH]; intros [|y ws] n res; simpl; shapes; apply IH. Qed.

Lemma check_added_items_raises rs w n loc res : raises_res P (check_added_items rec rs w n loc res).
Proof. revert n res. induction rs as [|x rs IH]; intros n res; simpl; shapes; apply IH. Qed.

Lemma compatibility_array_raises r w loc : raises_res P (compatibility_array rec r w loc).
Proof.
  pose proof get_type_of_raises as Ht. unfold compatibility_array, check_removed_items.
  shapes; auto using compare_items_raises, check_added_items_raises.
  all: apply standard_checks_raise; repeat (apply List.Forall_cons; [simpl; tauto|]); apply List.Forall_nil.
Qed.

Lemma content_model_raises d n : raises_res P (schema_from_partially_open_content_model re_match d n).
Proof.
  unfold schema_from_partially_open_content_model. shapes. rename d0 into l.
  induction l as [|[k v] l IH]; simpl; shapes.
Qed.

Lemma check_unknown_properties_raises r w rp wp loc res :
  raises_res P (check_unknown_properties re_match rec r w rp wp loc res).
Proof.
  pose proof content_model_raises as Hcm. unfold check_unknown_properties, is_object_content_model_open, py_len,
    check_property_unknown_to_reader, check_property_unknown_to_writer, py_contains.
  shapes; auto.
Qed.

Lemma compatibility_object_raises r w loc : raises_res P (compatibility_object re_match rec r w loc).
Proof.
  pose proof get_type_of_raises as Ht. unfold compatibility_object, properties_of, dict_member,
    check_common_property, property_get, check_dependency, check_dependent_schema, py_set.
  shapes; auto using check_unknown_properties_raises.
  all: apply standard_checks_raise; repeat (apply List.Forall_cons; [simpl; tauto|]); apply List.Forall_nil.
Qed.

Lemma compatibility_subschemas_raises r w loc :
  raises_res P (compatibility_subschemas maximum_matching rec r w loc).
Proof.
  pose proof get_type_of_raises as Ht. pose proof maybe_get_raises as Hm.
  unfold compatibility_subschemas, subschemas_of, is_simple_subschema, check_simple_subschema,
    compare_combinations, count_uniquely_compatible_schemas, compatible_edges.
  shapes; auto. all: shapes; auto.
  all: match goal with |- raises_res _ (first_compatible _ ?l _ _) => induction l; simpl; shapes; auto end.
Qed.

Lemma compatibility_step_raises r w loc :
  raises_res P (compatibility_step re_match maximum_matching rec r w loc).
Proof.
  pose proof get_type_of_raises as Ht.
  unfold compatibility_step, on_dicts, dindex, compatibility_numerical, compatibility_string, compatibility_enum, ne,
    py_gt, py_mod_nonzero, py_set.
  shapes; auto using compatibility_subschemas_raises, compatibility_object_raises, compatibility_array_raises.
  all: apply standard_checks_raise; repeat (apply List.Forall_cons; [simpl; tauto|]); apply List.Forall_nil.
Qed.
End errors.

(** ** Enough fuel *)

Section fuel.
Context `{!AvroMerge} (re_match : string -> string -> result bool)
  (maximum_matching : list (nat * nat) -> nat).

(** The recursion started from [bottom]. *)
Definition check_from (bottom : json -> json -> list string -> result SchemaCompatibilityResult)
  (fuel : nat) : json -> json -> list string -> result SchemaCompatibilityResult :=
  Nat.iter fuel (compatibility_step re_match maximum_matching) bottom.

Lemma compatibility_rec_from fuel :
  compatibility_rec re_match maximum_matching fuel = check_from (fun _ _ _ => Raise RecursionError) fuel.
Proof. induction fuel as [|fuel IH]; simpl; [done|]. by rewrite IH. Qed.

Lemma check_from_agree b1 b2 n m r w loc :
  (json_size r + json_size w < n)%nat -> (json_size r + json_size w < m)%nat ->
  check_from b1 n r w loc = check_from b2 m r w loc.
Proof.
  revert m r w loc. induction n as [|n IH]; intros [|m] r w loc Hn Hm; try lia.
  simpl. apply compatibility_step_agree. intros r' w' loc' H'. apply IH; lia.
Qed.

Lemma compatibility_rec_fuel n m r w loc :
  (json_size r + json_size w < n)%nat -> (json_size r + json_size w < m)%nat ->
  compatibility_rec re_match maximum_matching n r w loc =
  compatibility_rec re_match maximum_matching m r w loc.
Proof. intros Hn Hm. rewrite !compatibility_rec_from. by apply check_from_agree. Qed.

Lemma check_from_raises fuel r w loc :
  (forall p s, re_match p s ≠ Raise RecursionError) ->
  check_from (fun _ _ _ => Raise ValueError) fuel r w loc ≠ Raise RecursionError.
Proof.
  intros Hre Hf. cut (raises_res (fun e => e ≠ RecursionError)
    (check_from (fun _ _ _ => Raise ValueError) fuel r w loc)); [intros Hc; by apply (Hc _ Hf)|].
  clear Hf. revert r w loc. induction fuel as [|fuel IH]; intros r w loc; simpl.
  - by intros e [= <-].
  - apply compatibility_step_raises; [set_solver| |exact IH].
    intros p s e He ->. by apply (Hre p s).
Qed.

(** C24. The comparison of two schemas terminates: with more fuel than the schemas have nodes it
    does not run out, and its answer is the one with the least such fuel. *)
Theorem json_check_terminates fuel reader writer location :
  (forall p s, re_match p s ≠ Raise RecursionError) ->
  (json_size reader + json_size writer < fuel)%nat ->
  compatibility_rec re_match maximum_matching fuel reader writer location ≠ Raise RecursionError /\
  compatibility_rec re_match maximum_matching fuel reader writer location =
  compatibility_rec re_match maximum_matching (S (json_size reader + json_size writer)) reader writer location.
Proof.
  intros Hre Hf. split.
  - rewrite compatibility_rec_from.
    rewrite (check_from_agree _ (fun _ _ _ => Raise ValueError) _ fuel) by done.
    by apply check_from_raises.
  - apply compatibility_rec_fuel; lia.
Qed.
End fuel.

(** Patterns that match exactly the names they spell, and the matching of a list of edges that
    share no end. *)
Definition literal_match (p s : string) : result bool := Ok (String.eqb p s).
Definition greedy_matching (edges : list (nat * nat)) : nat :=
  length (fold_left (fun m e =>
    if existsb (fun e' => Nat.eqb e'.1 e.1 || Nat.eqb e'.2 e.2) m then m else m ++ [e]) edges []).

Lemma json_check_terminates_witness :
  let schema := JObj [("type", JStr "object"); ("properties", JObj [("a", JObj [("type", JStr "string")])])]%string in
  (exists r, compatibility_rec literal_match greedy_matching 100 schema schema [] = Ok r /\
     is_compatible r = true) /\
  compatibility_rec literal_match greedy_matching 100 schema schema [] ≠ Raise RecursionError.
Proof.
  split; [eexists; split; [vm_compute; reflexivity|reflexivity]|].
  apply (json_check_terminates literal_match greedy_matching 100); [done|vm_compute; lia].
Defined.
