(* ===== verification/JsonSchemaSound.v ===== *)
(** * What a positive answer of the JSON Schema check promises

    A reference validator ([accepts]) for the schemas of [plain], and the theorem that among them
    a reader that is declared compatible accepts every value the writer accepts. A plain schema is
    a scalar type, an enumeration of strings, a homogeneous array, a list of types, [anyOf] or
    [allOf], with no constraining keyword but those the validator reads. The check does not compare
    the other ones ([enum] or [const] beside [type], [multipleOf], [uniqueItems]):
    [enum_beside_type_missed] and [multiple_of_missed] show that its positive answer promises
    nothing about them. The verdict of every check agrees with the incompatibilities it lists. *)

From Stdlib Require Import QArith.
From stdpp Require Import pretty.
From S2P Require Import Prelude Json Models Compat JsonSchema JsonSchemaSpec.
Open Scope Z_scope.

(** ** The verdict and the incompatibilities *)

(** Compatible with nothing listed, or incompatible with something listed. *)
Definition consistent (r : SchemaCompatibilityResult) : Prop :=
  (compatibility_type r = compatible /\ incompatibilities r = []) \/
  (compatibility_type r = incompatible /\ incompatibilities r ≠ []).

(** What a result, if any, satisfies. *)
Definition yields {A} (Q : A -> Prop) (r : result A) : Prop := forall a, r = Ok a -> Q a.

Lemma yields_bind {A B} (Q : A -> Prop) (Q' : B -> Prop) r (f : A -> result B) :
  yields Q r -> (forall a, Q a -> yields Q' (f a)) -> yields Q' (r ≫= f).
Proof. intros Hr Hf b (a & Ha & Hb)%bind_Ok. eapply Hf; eauto. Qed.

Lemma yields_any {A} (r : result A) : yields (fun _ => True) r.
Proof. done. Qed.

Lemma yields_ok {A} (Q : A -> Prop) a : Q a -> yields Q (Ok a).
Proof. by intros H b [= <-]. Qed.

Lemma yields_raise {A} (Q : A -> Prop) e : yields Q (Raise e).
Proof. by intros b. Qed.

Lemma yields_fold {A B} (Q : B -> Prop) (f : B -> A -> result B) l acc :
  Q acc -> (forall acc x, Q acc -> yields Q (f acc x)) -> yields Q (fold_res f l acc).
Proof.
  intros Ha Hf. revert acc Ha. induction l as [|x l IH]; intros acc Ha; simpl; [by apply yields_ok|].
  eapply yields_bind; [by apply Hf|auto].
Qed.

Lemma yields_fold_elem {A B} (Q : B -> Prop) (f : B -> A -> result B) l acc :
  Q acc -> (forall acc x, Q acc -> x ∈ l -> yields Q (f acc x)) -> yields Q (fold_res f l acc).
Proof.
  revert acc. induction l as [|x l IH]; intros acc Ha Hf; simpl; [by apply yields_ok|].
  eapply yields_bind; [apply Hf; [done|set_solver]|]. intros acc' Ha'. apply IH; [done|]. set_solver.
Qed.

Lemma consistent_compatible : consistent compatible_result.
Proof. by left. Qed.

Lemma consistent_incompatible t loc : consistent (incompatible_schema t loc).
Proof. by right. Qed.

Lemma consistent_add r t loc : consistent (add_incompatibility r t loc).
Proof. right. split; [done|]. simpl. by destruct (incompatibilities r). Qed.

Lemma consistent_merge `{!AvroMerge, !AvroMergeLaws} a b : consistent a -> consistent b -> consistent (merge a b).
Proof.
  unfold consistent. rewrite merge_type, merge_incompatibilities.
  intros [[-> ->]|[-> Ha]] [[-> ->]|[-> Hb]]; simpl; rewrite ?app_nil_r; eauto.
  right. split; [done|]. by destruct (incompatibilities a).
Qed.

Create HintDb jsonschema.
#[export] Hint Resolve consistent_compatible consistent_incompatible consistent_add consistent_merge : jsonschema.

(** Follows the structure of a check whose results must be consistent. *)
Ltac consistency := repeat first
  [ progress cbv zeta
  | match goal with
    | |- yields _ (Ok _) => apply yields_ok
    | |- yields _ (Raise _) => apply yields_raise
    | |- yields _ (fold_res _ _ _) => apply yields_fold; [|intros]
    | Hf : forall r w loc, yields _ (?f r w loc) |- yields _ (?f _ _ _) => apply Hf
    | |- yields _ (mbind (A := SchemaCompatibilityResult) _ _) =>
        apply (yields_bind consistent); [|intros ? ?]
    | |- yields _ (_ ≫= _) => eapply yields_bind; [apply yields_any|intros ? _]
    | |- yields _ (match ?x with _ => _ end) => destruct x
    | |- consistent (match ?x with _ => _ end) => destruct x
    | |- consistent (merge _ _) => apply consistent_merge
    end
  | progress (auto with jsonschema) ].

Section consistent.
Context `{!AvroMerge, !AvroMergeLaws} (re_match : string -> string -> result bool)
  (maximum_matching : list (nat * nat) -> nat)
  (rec : json -> json -> list string -> result SchemaCompatibilityResult).
Hypothesis Hrec : forall r w loc, yields consistent (rec r w loc).


Lemma run_checks_consistent r w checks loc res : consistent res ->
  yields consistent (run_checks r w checks loc res).
Proof.
  intros Hres. unfold run_checks, check_assertion_compatibility. apply yields_fold; [done|]. intros acc c Hacc.
  consistency.
Qed.

Lemma compare_items_consistent rs ws n loc res : consistent res ->
  yields consistent (compare_items rec rs ws n loc res).
Proof.
  revert ws n res. induction rs as [|x rs IH]; intros [|y ws] n res Hres; simpl; consistency.
  apply IH. consistency.
Qed.

Lemma check_added_items_consistent rs w n loc res : consistent res ->
  yields consistent (check_added_items rec rs w n loc res).
Proof.
  revert n res. induction rs as [|x rs IH]; intros n res Hres; simpl; consistency. apply IH. consistency.
Qed.

Hint Resolve run_checks_consistent compare_items_consistent check_added_items_consistent : jsonschema.

Lemma compatibility_array_consistent r w loc : yields consistent (compatibility_array rec r w loc).
Proof.
  unfold compatibility_array, check_removed_items, type_mismatch. consistency.
  all: first [apply run_checks_consistent | apply check_added_items_consistent]; consistency.
Qed.

Lemma check_unknown_properties_consistent r w rp wp loc res : consistent res ->
  yields consistent (check_unknown_properties re_match rec r w rp wp loc res).
Proof.
  intros Hres. unfold check_unknown_properties, check_property_unknown_to_reader, check_property_unknown_to_writer.
  consistency.
Qed.

Hint Resolve check_unknown_properties_consistent : jsonschema.

Lemma compatibility_object_consistent r w loc :
  yields consistent (compatibility_object re_match rec r w loc).
Proof.
  unfold compatibility_object, check_common_property, check_dependency, check_dependent_schema. consistency.
Qed.

Lemma first_compatible_consistent l w loc : yields consistent (first_compatible rec l w loc).
Proof. induction l as [|x l IH]; simpl; unfold type_mismatch; consistency. Qed.

Hint Resolve first_compatible_consistent : jsonschema.

Lemma compatibility_subschemas_consistent r w loc :
  yields consistent (compatibility_subschemas maximum_matching rec r w loc).
Proof.
  unfold compatibility_subschemas, check_simple_subschema, compare_combinations, type_mismatch. consistency.
Qed.

Hint Resolve compatibility_array_consistent compatibility_object_consistent
  compatibility_subschemas_consistent : jsonschema.

Lemma compatibility_step_consistent r w loc :
  yields consistent (compatibility_step re_match maximum_matching rec r w loc).
Proof.
  unfold compatibility_step, on_dicts, type_mismatch. consistency.
  all: unfold compatibility_numerical, compatibility_string, compatibility_enum; consistency.
Qed.
End consistent.

Lemma compatibility_rec_consistent `{!AvroMerge, !AvroMergeLaws} re_match maximum_matching fuel r w loc :
  yields consistent (compatibility_rec re_match maximum_matching fuel r w loc).
Proof.
  revert r w loc. induction fuel as [|fuel IH]; intros r w loc; simpl; [apply yields_raise|].
  by apply compatibility_step_consistent.
Qed.

(** Whatever the schemas, when the check answers, its verdict is compatible exactly when it
    lists no incompatibility, and it is never left undecided. *)
Theorem json_verdict_consistent `{!AvroMerge, !AvroMergeLaws} re_match maximum_matching fuel reader writer
  location r :
  compatibility_rec re_match maximum_matching fuel reader writer location = Ok r ->
  (is_compatible r = true <-> incompatibilities r = []) /\ is_incompatible r = negb (is_compatible r).
Proof.
  intros Hr. pose proof (compatibility_rec_consistent _ _ _ _ _ _ _ Hr) as Hc.
  unfold is_compatible, is_incompatible. destruct Hc as [[-> ->]|[-> Hi]]; [done|].
  split; [|done]. split; [done|]. intros Hn. by rewrite Hn in Hi.
Qed.

Lemma json_verdict_consistent_witness :
  let reader := JObj [("type", JStr "string"); ("maxLength", JInt 3)]%string in
  let writer := JObj [("type", JStr "string"); ("maxLength", JInt 5)]%string in
  match compatibility_rec literal_match greedy_matching 10 reader writer [] with
  | Ok r => incompatibilities r = ["max_length_decreased"%string] /\
      (is_compatible r = true <-> incompatibilities r = []) /\ is_incompatible r = negb (is_compatible r)
  | Raise _ => False
  end.
Proof.
  split; [vm_compute; reflexivity|].
  apply (@json_verdict_consistent simple_merge simple_merge_laws literal_match greedy_matching 10
    (JObj [("type", JStr "string"); ("maxLength", JInt 3)]%string)
    (JObj [("type", JStr "string"); ("maxLength", JInt 5)]%string) []).
  reflexivity.
Defined.

(** ** A reference validator *)

(** The bound a keyword sets, when its value is a number. *)
Definition limit (k : string) (d : list (string * json)) : option Q := num_value (jget k d).

(** A JSON number; [true] and [false] are not numbers. *)
Definition number_value (v : json) : option Q :=
  match v with JInt _ | JFloat _ => num_value v | _ => None end.

Section validator.
(** [re.search(pattern, s)] *)
Context (re_search : string -> string -> bool).

Definition at_most (k : string) (d : list (string * json)) (q : Q) : Prop :=
  forall m, limit k d = Some m -> (q <= m)%Q.
Definition at_least (k : string) (d : list (string * json)) (q : Q) : Prop :=
  forall m, limit k d = Some m -> (m <= q)%Q.

Definition number_ok (d : list (string * json)) (q : Q) : Prop :=
  at_most Keyword.MAXIMUM d q /\ at_least Keyword.MINIMUM d q /\
  (forall m, limit Keyword.EXCLUSIVE_MAXIMUM d = Some m -> (q < m)%Q) /\
  (forall m, limit Keyword.EXCLUSIVE_MINIMUM d = Some m -> (m < q)%Q).

Definition string_ok (d : list (string * json)) (s : string) : Prop :=
  let len := inject_Z (Z.of_nat (String.length s)) in
  at_most Keyword.MAX_LENGTH d len /\ at_least Keyword.MIN_LENGTH d len /\
  (forall p, jget Keyword.PATTERN d = JStr p -> re_search p s = true).

Definition scalar_ok (t : Instance_) (d : list (string * json)) (v : json) : Prop :=
  match t with
  | NUMBER => exists q, number_value v = Some q /\ number_ok d q
  | INTEGER => exists q z, number_value v = Some q /\ (q == inject_Z z)%Q /\ number_ok d q
  | STRING => exists s, v = JStr s /\ string_ok d s
  | BOOLEAN => exists b, v = JBool b
  | NULL => v = JNull
  | OBJECT | ARRAY => False
  end.

Definition array_ok (d : list (string * json)) (vs : list json) : Prop :=
  let len := inject_Z (Z.of_nat (length vs)) in
  at_most Keyword.MAX_ITEMS d len /\ at_least Keyword.MIN_ITEMS d len.

(** [accepts schema v]: the value is valid for the schema, one of [plain] below. *)
Inductive accepts : json -> json -> Prop :=
  | accepts_scalar d t v :
      get_type_of (JObj d) = Ok (TInstance t) -> scalar_ok t d v -> accepts (JObj d) v
  | accepts_enum d l v :
      get_type_of (JObj d) = Ok TEnum -> dget Keyword.ENUM d = Some (JList l) -> v ∈ l ->
      accepts (JObj d) v
  | accepts_array d vs :
      get_type_of (JObj d) = Ok (TInstance ARRAY) -> array_ok d vs ->
      Forall (accepts (jget Keyword.ITEMS d)) vs -> accepts (JObj d) (JList vs)
  | accepts_any d l s v :
      maybe_get_subschemas_and_type (JObj d) = Ok (Some (l, ANY_OF)) -> s ∈ l -> accepts s v ->
      accepts (JObj d) v
  | accepts_all d l v :
      maybe_get_subschemas_and_type (JObj d) = Ok (Some (l, ALL_OF)) ->
      (forall s, s ∈ l -> accepts s v) -> accepts (JObj d) v
  | accepts_true v : accepts (JBool true) v
  | accepts_absent v : accepts JNull v.

(** Keywords that constrain no value. *)
Definition annotations : list string :=
  ["$schema"; "$id"; "$comment"; "title"; "description"; "default"; "examples"; "readOnly"; "writeOnly";
   "format"; "definitions"]%string.

(** The keywords of numbers, strings and arrays that [accepts] reads; beside a [type] of another
    kind a keyword constrains no value. *)
Definition assertions : list string :=
  [Keyword.MAXIMUM; Keyword.MINIMUM; Keyword.EXCLUSIVE_MAXIMUM; Keyword.EXCLUSIVE_MINIMUM;
   Keyword.MAX_LENGTH; Keyword.MIN_LENGTH; Keyword.PATTERN; Keyword.ITEMS; Keyword.MAX_ITEMS; Keyword.MIN_ITEMS].

(** The schema has no keyword but annotations and the listed ones. *)
Definition only (keywords : list string) (d : list (string * json)) : Prop :=
  Forall (fun k => k ∈ keywords ++ annotations) (dkeys d).

(** The schemas the theorem is about. A list of types stands for one schema per type, each with
    the keywords beside the list. *)
Inductive plain : json -> Prop :=
  | plain_scalar d t :
      get_type_of (JObj d) = Ok (TInstance t) -> t ∈ [NUMBER; INTEGER; STRING; BOOLEAN; NULL] ->
      only (Keyword.TYPE :: assertions) d -> plain (JObj d)
  | plain_enum d l :
      get_type_of (JObj d) = Ok TEnum -> dget Keyword.ENUM d = Some (JList l) ->
      all_strings l = true -> only [Keyword.ENUM] d -> plain (JObj d)
  | plain_array d :
      get_type_of (JObj d) = Ok (TInstance ARRAY) -> is_tuple (JObj d) = false ->
      only (Keyword.TYPE :: assertions) d -> plain (jget Keyword.ITEMS d) -> plain (JObj d)
  | plain_combination d l t :
      maybe_get_subschemas_and_type (JObj d) = Ok (Some (l, t)) -> t ∈ [ANY_OF; ALL_OF] -> l ≠ [] ->
      Forall plain l ->
      (exists types, jget Keyword.TYPE d = JList types) \/ only [subschema_value t] d -> plain (JObj d)
  | plain_true : plain (JBool true)
  | plain_absent : plain JNull.
End validator.

(** What the code relies on of a maximum bipartite matching: it is a matching of the graph, and
    no matching of the graph is larger. *)
Definition is_matching (edges m : list (nat * nat)) : Prop :=
  m ⊆ edges /\ NoDup m.*1 /\ NoDup m.*2.
Class MatchingLaws (maximum_matching : list (nat * nat) -> nat) : Prop := {
  matching_exists : forall edges, exists m, is_matching edges m /\ length m = maximum_matching edges;
  matching_maximal : forall edges m, is_matching edges m -> (length m <= maximum_matching edges)%nat;
}.

(** ** Passed checks *)

Section passed.
Context `{!AvroMerge, !AvroMergeLaws}.

Lemma is_compatible_merge a b : consistent a -> is_compatible (merge a b) = true ->
  is_compatible a = true /\ is_compatible b = true.
Proof.
  unfold is_compatible. rewrite merge_type. intros [[-> _]|[-> _]]; simpl; by try case_bool_decide.
Qed.

(** A comparison that neither introduced nor tightened the constraint. *)
Definition not_tightened (c : AssertionCheck) (r w : list (string * json)) : Prop :=
  introduced_constraint (jget (check_keyword c) r) (jget (check_keyword c) w) = false /\
  comparison c (jget (check_keyword c) r) (jget (check_keyword c) w) = Ok false.

Lemma check_assertion_passed r w c loc res :
  check_assertion_compatibility r w c loc = Ok res -> is_compatible res = true -> not_tightened c r w.
Proof.
  unfold check_assertion_compatibility, not_tightened. intros (b & Hb & Hres)%bind_Ok Hc.
  rewrite Hb. destruct b; simplify_eq. by destruct (introduced_constraint _ _).
Qed.

Lemma run_checks_passed r w checks loc res0 res :
  consistent res0 -> run_checks r w checks loc res0 = Ok res -> is_compatible res = true ->
  is_compatible res0 = true /\ Forall (fun c => not_tightened c r w) checks.
Proof.
  unfold run_checks. revert res0. induction checks as [|c checks IH]; intros res0 Hc0; simpl.
  { intros [= <-]. eauto. }
  intros (res1 & (resc & Hc & Hm)%bind_Ok & Hr)%bind_Ok Hres. injection Hm as <-.
  assert (consistent resc).
  { revert Hc. unfold check_assertion_compatibility. intros (? & _ & [= <-])%bind_Ok. consistency. }
  apply IH in Hr as [Hmerge Hf]; [|by apply consistent_merge|done].
  apply is_compatible_merge in Hmerge as [? ?]; [|done]. eauto using check_assertion_passed.
Qed.

(** An upper (lower) bound of the reader follows from one of the writer. *)
Lemma upper_not_tightened c r w m :
  comparison c = lt -> not_tightened c r w -> limit (check_keyword c) r = Some m ->
  exists m', limit (check_keyword c) w = Some m' /\ (m' <= m)%Q.
Proof.
  unfold not_tightened, limit, introduced_constraint, lt, gt, py_gt. intros ->. 
  destruct (jget (check_keyword c) r) eqn:Er; try done;
    destruct (jget (check_keyword c) w) eqn:Ew; simpl; try (by intros []); intros [_ [= Hle]] [= <-];
    eexists; (split; [done|]); by apply Qle_bool_iff, negb_false_iff.
Qed.

Lemma lower_not_tightened c r w m :
  comparison c = gt -> not_tightened c r w -> limit (check_keyword c) r = Some m ->
  exists m', limit (check_keyword c) w = Some m' /\ (m <= m')%Q.
Proof.
  unfold not_tightened, limit, introduced_constraint, gt, py_gt. intros ->.
  destruct (jget (check_keyword c) r) eqn:Er; try done;
    destruct (jget (check_keyword c) w) eqn:Ew; simpl; try (by intros []); intros [_ [= Hle]] [= <-];
    eexists; (split; [done|]); by apply Qle_bool_iff, negb_false_iff.
Qed.

Lemma at_most_mono c r w q : comparison c = lt -> not_tightened c r w ->
  at_most (check_keyword c) w q -> at_most (check_keyword c) r q.
Proof.
  intros Hc Ht Hw m Hm. destruct (upper_not_tightened _ _ _ _ Hc Ht Hm) as (m' & Hm' & Hle).
  eapply Qle_trans; eauto.
Qed.

Lemma at_least_mono c r w q : comparison c = gt -> not_tightened c r w ->
  at_least (check_keyword c) w q -> at_least (check_keyword c) r q.
Proof.
  intros Hc Ht Hw m Hm. destruct (lower_not_tightened _ _ _ _ Hc Ht Hm) as (m' & Hm' & Hle).
  eapply Qle_trans; eauto.
Qed.
End passed.

(** ** Soundness *)

Section sound.
Context `{!AvroMerge, !AvroMergeLaws} (re_match : string -> string -> result bool)
  (maximum_matching : list (nat * nat) -> nat) `{!MatchingLaws maximum_matching}
  (re_search : string -> string -> bool).

Abbreviation accepts := (accepts re_search) (only parsing).

Lemma number_ok_mono r w q :
  Forall (fun c => not_tightened c r w)
    [MAXIMUM_CHECK; MINIMUM_CHECK; EXCLUSIVE_MAXIMUM_CHECK; EXCLUSIVE_MINIMUM_CHECK] ->
  number_ok w q -> number_ok r q.
Proof.
  rewrite !Forall_cons. intros (H1 & H2 & H3 & H4 & _) (Q1 & Q2 & Q3 & Q4). split_and!.
  - by apply (at_most_mono MAXIMUM_CHECK r w).
  - by apply (at_least_mono MINIMUM_CHECK r w).
  - intros m Hm. destruct (upper_not_tightened EXCLUSIVE_MAXIMUM_CHECK _ _ _ eq_refl H3 Hm) as (m' & Hm' & Hle).
    eapply Qlt_le_trans; [by apply Q3|done].
  - intros m Hm. destruct (lower_not_tightened EXCLUSIVE_MINIMUM_CHECK _ _ _ eq_refl H4 Hm) as (m' & Hm' & Hle).
    eapply Qle_lt_trans; [done|by apply Q4].
Qed.

Lemma is_compatible_add r t loc : is_compatible (add_incompatibility r t loc) = true -> False.
Proof. done. Qed.

Lemma numerical_sound r w rt wt loc res v :
  get_type_of (JObj r) = Ok (TInstance rt) -> get_type_of (JObj w) = Ok (TInstance wt) ->
  compatibility_numerical r w loc = Ok res -> is_compatible res = true ->
  scalar_ok re_search wt w v -> scalar_ok re_search rt r v.
Proof.
  intros Hr Hw. unfold compatibility_numerical. rewrite Hr, Hw. simpl.
  destruct (is_numeric (TInstance rt)) eqn:Nr; [|done]. destruct (is_numeric (TInstance wt)) eqn:Nw; [|done].
  simpl. intros (res1 & H1 & (res2 & H2 & H3)%bind_Ok)%bind_Ok Hc. injection H3 as <-.
  destruct (_ && _) eqn:En in Hc; [done|].
  assert (Hc1 : is_compatible res1 = true).
  { destruct (introduced_constraint _ _); destruct (negb _ && _ && _); simplify_eq; try done.
    all: apply bind_Ok in H2 as (e & _ & H2); destruct e; simplify_eq; try done.
    all: apply bind_Ok in H2 as (e & _ & H2); destruct e; simplify_eq; done. }
  apply run_checks_passed in H1 as [_ H1]; [|apply consistent_compatible|done].
  unfold is_numeric in *. destruct rt, wt; try done; simpl.
  - intros (q & Hq & Ho). eauto using number_ok_mono.
  - intros (q & z & Hq & Hz & Ho). eauto using number_ok_mono.
  - intros (q & z & Hq & Hz & Ho). eauto 7 using number_ok_mono.
Qed.

Lemma string_sound r w loc res s :
  compatibility_string r w loc = Ok res -> is_compatible res = true ->
  string_ok re_search w s -> string_ok re_search r s.
Proof.
  unfold compatibility_string. intros (rt & _ & (wt & _ & Hs)%bind_Ok)%bind_Ok Hc.
  destruct (negb _); [done|]. apply run_checks_passed in Hs as [_ Hs]; [|apply consistent_compatible|done].
  rewrite !Forall_cons in Hs. destruct Hs as (H1 & H2 & H3 & _). intros (Q1 & Q2 & Q3). split_and!.
  - by apply (at_most_mono MAX_LENGTH_CHECK r w).
  - by apply (at_least_mono MIN_LENGTH_CHECK r w).
  - intros p Hp. apply Q3. destruct H3 as [Hi Hn]. simpl in Hi, Hn. rewrite Hp in Hi, Hn.
    unfold ne, introduced_constraint in *. destruct (jget Keyword.PATTERN w); try done.
    simpl in Hn. injection Hn as Hn. by apply negb_false_iff, String.eqb_eq in Hn as ->.
Qed.

Lemma all_strings_elem v l : all_strings l = true -> v ∈ l -> exists x, v = JStr x.
Proof.
  unfold all_strings. rewrite forallb_forall. intros Hl Hv%list_elem_of_In%Hl. destruct v; eauto; done.
Qed.

Lemma py_mem_string x l : py_mem (JStr x) l = true <-> JStr x ∈ l.
Proof.
  unfold py_mem. rewrite existsb_exists. split.
  - intros (y & Hy%list_elem_of_In & He). destruct y; simpl in He; try done. by apply String.eqb_eq in He as ->.
  - intros Hl%list_elem_of_In. exists (JStr x). split; [done|]. simpl. by apply String.eqb_eq.
Qed.

Lemma enum_sound r w lr lw loc res v :
  dget Keyword.ENUM r = Some (JList lr) -> dget Keyword.ENUM w = Some (JList lw) ->
  all_strings lw = true ->
  compatibility_enum r w loc = Ok res -> is_compatible res = true -> v ∈ lw -> v ∈ lr.
Proof.
  intros Hr Hw Hs. unfold compatibility_enum. rewrite Hr, Hw. simpl.
  destruct (forallb hashable lw); simpl; [|done]. destruct (forallb hashable lr); simpl; [|done].
  destruct (py_diff lw lr) as [|y l] eqn:Ed; [|intros; case_match; by simplify_eq].
  intros _ _ Hv. destruct (all_strings_elem _ _ Hs Hv) as [x ->]. apply py_mem_string.
  destruct (py_mem (JStr x) lr) eqn:E; [done|].
  assert (Hf : In (JStr x) (py_diff lw lr)) by (apply filter_In; rewrite E; by apply list_elem_of_In in Hv).
  by rewrite Ed in Hf.
Qed.

(** *** Subschemas *)

Lemma compatible_edges_spec rec rt rs ws loc edges i j :
  compatible_edges rec rt rs ws loc = Ok edges -> (i, j) ∈ edges ->
  exists x y loc' res, rs !! i = Some x /\ ws !! j = Some y /\
    rec x y loc' = Ok res /\ is_compatible res = true.
Proof.
  unfold compatible_edges. intros He. revert i j.
  set (Q := fun edges : list (nat * nat) => forall i j, (i, j) ∈ edges ->
    exists x y loc' res, rs !! i = Some x /\ ws !! j = Some y /\
      rec x y loc' = Ok res /\ is_compatible res = true).
  change (Q edges). revert edges He. change (yields Q
    (fold_res (fun edges p => rec_result ← rec p.1.2 p.2.2 (loc ++ [get_name_of rt; pretty (Z.of_nat p.2.1)]);
       Ok (if is_compatible rec_result then edges ++ [(p.1.1, p.2.1)] else edges)) (subschema_pairs rs ws) [])).
  apply yields_fold_elem; [intros i j []%not_elem_of_nil|].
  intros edges [[i x] [j y]] HQ (Hx & Hy)%subschema_pairs_lookup e' (res & Hr & [= <-])%bind_Ok.
  destruct (is_compatible res) eqn:Ec; [|done]. intros i' j' [Hin|[= -> ->]%list_elem_of_singleton]%elem_of_app;
    [by apply HQ|]. simpl in *. eauto 10.
Qed.

(** A duplicate-free list of [n] or more indices below [n] contains them all. *)
Lemma pigeonhole l n : NoDup l -> (forall j, j ∈ l -> (j < n)%nat) -> (n <= length l)%nat ->
  forall j, (j < n)%nat -> j ∈ l.
Proof.
  intros Hnd Hlt Hlen j Hj.
  assert (Hsub : l ⊆+ seq 0 n) by (apply NoDup_submseteq; [done|]; intros k Hk%Hlt; apply elem_of_seq; lia).
  assert (Hp : l ≡ₚ seq 0 n) by (apply submseteq_length_Permutation; [done|rewrite length_seq; lia]).
  rewrite Hp. apply elem_of_seq. lia.
Qed.

(** Enough matched pairs reach every subschema of the writer (of the reader). *)
Lemma matched_writer rec rt rs ws loc count y :
  count_uniquely_compatible_schemas maximum_matching rec rt rs ws loc = Ok count ->
  (length ws <= count)%nat -> y ∈ ws ->
  exists x loc' res, x ∈ rs /\ rec x y loc' = Ok res /\ is_compatible res = true.
Proof.
  intros (edges & He & [= <-])%bind_Ok Hlen [j Hj]%list_elem_of_lookup.
  destruct (matching_exists edges) as (m & (Hsub & _ & Hnd) & Hm).
  assert (Hin : j ∈ m.*2).
  { apply (pigeonhole _ (length ws)); [done| |rewrite length_fmap; lia|by eapply lookup_lt_Some].
    intros k ([i k'] & -> & Hk%Hsub)%list_elem_of_fmap.
    destruct (compatible_edges_spec _ _ _ _ _ _ _ _ He Hk) as (x & y' & _ & _ & _ & Hy & _).
    by apply lookup_lt_Some in Hy. }
  apply list_elem_of_fmap in Hin as ([i j'] & -> & Hk%Hsub).
  destruct (compatible_edges_spec _ _ _ _ _ _ _ _ He Hk) as (x & y' & loc' & res & Hx & Hy & Hr & Hc).
  simpl in Hj. simplify_eq. eauto 10 using list_elem_of_lookup_2.
Qed.

Lemma matched_reader rec rt rs ws loc count x :
  count_uniquely_compatible_schemas maximum_matching rec rt rs ws loc = Ok count ->
  (length rs <= count)%nat -> x ∈ rs ->
  exists y loc' res, y ∈ ws /\ rec x y loc' = Ok res /\ is_compatible res = true.
Proof.
  intros (edges & He & [= <-])%bind_Ok Hlen [i Hi]%list_elem_of_lookup.
  destruct (matching_exists edges) as (m & (Hsub & Hnd & _) & Hm).
  assert (Hin : i ∈ m.*1).
  { apply (pigeonhole _ (length rs)); [done| |rewrite length_fmap; lia|by eapply lookup_lt_Some].
    intros k ([k' j] & -> & Hk%Hsub)%list_elem_of_fmap.
    destruct (compatible_edges_spec _ _ _ _ _ _ _ _ He Hk) as (x' & y' & _ & _ & Hx & _ & _).
    by apply lookup_lt_Some in Hx. }
  apply list_elem_of_fmap in Hin as ([i' j] & -> & Hk%Hsub).
  destruct (compatible_edges_spec _ _ _ _ _ _ _ _ He Hk) as (x' & y' & loc' & res & Hx & Hy & Hr & Hc).
  simpl in Hi. simplify_eq. eauto 10 using list_elem_of_lookup_2.
Qed.

Lemma first_compatible_spec rec l w loc res :
  first_compatible rec l w loc = Ok res -> is_compatible res = true ->
  exists x res', x ∈ l /\ rec x w loc = Ok res' /\ is_compatible res' = true.
Proof.
  induction l as [|x l IH]; simpl; [by intros [= <-]|].
  intros (res' & Hr & Hl)%bind_Ok Hc. destruct (is_compatible res') eqn:E; [set_solver|].
  destruct (IH Hl Hc) as (x' & r' & ? & ?). set_solver.
Qed.

(** The recursive calls are sound. *)
Definition sound (rec : json -> json -> list string -> result SchemaCompatibilityResult) : Prop :=
  forall r w loc res v, plain r -> plain w -> rec r w loc = Ok res -> is_compatible res = true ->
  accepts w v -> accepts r v.

(** The type of a schema is a combination exactly when it has subschemas. *)
Lemma get_type_of_cases d t : get_type_of (JObj d) = Ok t ->
  (exists l k, maybe_get_subschemas_and_type (JObj d) = Ok (Some (l, k)) /\ t = TSubschema k) \/
  (maybe_get_subschemas_and_type (JObj d) = Ok None /\ forall k, t ≠ TSubschema k).
Proof.
  intros ([[l k]|] & Hm & Ht)%bind_Ok; [left; simplify_eq; eauto|right]. split; [done|]. intros k ->.
  cbv zeta in Ht. destruct (truthy (jget Keyword.TYPE d)); [|by destruct (din Keyword.ENUM d)].
  by destruct (instance_of (jget Keyword.TYPE d)).
Qed.

Lemma accepts_combination d l k v :
  maybe_get_subschemas_and_type (JObj d) = Ok (Some (l, k)) -> accepts (JObj d) v ->
  (k = ANY_OF /\ exists x, x ∈ l /\ accepts x v) \/ (k = ALL_OF /\ forall x, x ∈ l -> accepts x v).
Proof.
  intros Hm. inversion 1; subst; try (rewrite Hm in *; simplify_eq; by eauto).
  all: match goal with Ht : get_type_of _ = _ |- _ =>
    apply get_type_of_cases in Ht as [(? & ? & ? & ?)|[Hn ?]]; [done|by rewrite Hm in Hn] end.
Qed.

(** What is known of the subschemas of a plain schema. *)
Lemma plain_subschemas s sub t : plain s -> subschemas_of s = Ok (sub, t) ->
  match sub with
  | Some l => (t = TSubschema ANY_OF \/ t = TSubschema ALL_OF) /\ l ≠ [] /\ Forall plain l /\
      forall v, accepts s v <->
        if bool_decide (t = TSubschema ANY_OF) then exists x, x ∈ l /\ accepts x v
        else forall x, x ∈ l -> accepts x v
  | None => is_combination t = false
  end.
Proof.
  destruct 1 as [d k Ht _ _|d l Ht|d Ht|d l k Hm Hk Hl Hp _| |].
  all: try (unfold subschemas_of; simpl; by intros [= <- <-]).
  1-3: intros (o & Ho & Hs)%bind_Ok; apply get_type_of_cases in Ht as Hc;
    (destruct Hc as [(? & ? & ? & ?)|[Hn _]]; [done|]); rewrite Hn in Ho; injection Ho as <-;
    apply bind_Ok in Hs as (t' & Ht' & Hs); rewrite Ht in Ht'; simplify_eq; try done.
  unfold subschemas_of. rewrite Hm. simpl. intros [= <- <-].
  assert (k = ANY_OF \/ k = ALL_OF) as [->| ->] by set_solver; simpl; (split_and!; eauto; [intros v; split]).
  all: try (intros [[? Ha]|[? Ha]]%(accepts_combination _ _ _ _ Hm); by eauto).
  - intros (x & Hx & Ha). by eapply accepts_any.
  - intros Ha. by eapply accepts_all.
Qed.

(** A schema with a single subschema accepts what that one accepts. *)
Lemma simple_subschema s x l t v : plain s -> subschemas_of s = Ok (Some (x :: l), t) ->
  is_simple_subschema s = Ok true -> plain x /\ (accepts s v <-> accepts x v).
Proof.
  intros Hp Hs Hsimple. destruct (plain_subschemas _ _ _ Hp Hs) as (_ & _ & Hl & Ha).
  assert (l = []) as ->.
  { unfold subschemas_of in Hs. apply bind_Ok in Hs as ([[l' t']|] & Hm & Hs);
      [|by apply bind_Ok in Hs as (? & ? & ?)]. simplify_eq. unfold is_simple_subschema in Hsimple.
    destruct s; try done. rewrite Hm in Hsimple. simpl in Hsimple. by destruct l. }
  split; [by apply Forall_inv in Hl|]. rewrite Ha. case_bool_decide; set_solver.
Qed.

Lemma combinations_sound rec r w rt wt rs ws loc res v :
  sound rec -> plain r -> plain w ->
  subschemas_of r = Ok (Some rs, rt) -> subschemas_of w = Ok (Some ws, wt) ->
  compare_combinations maximum_matching rec rt wt rs ws loc = Ok res -> is_compatible res = true ->
  accepts w v -> accepts r v.
Proof.
  intros Hrec Hr Hw Hrs Hws Hc Hres.
  destruct (plain_subschemas _ _ _ Hr Hrs) as (Hrt & _ & Hpr & Har).
  destruct (plain_subschemas _ _ _ Hw Hws) as (Hwt & Hne & Hpw & Haw). rewrite Forall_forall in Hpr, Hpw.
  rewrite Har, Haw. clear Har Haw. unfold compare_combinations in Hc.
  destruct (negb (_ || _)) eqn:Et in Hc; [by simplify_eq|].
  destruct (_ && _) in Hc; [by simplify_eq|]. destruct (_ && _) in Hc; [by simplify_eq|].
  apply bind_Ok in Hc as (count & Hcount & Hc). destruct (count <? _)%nat eqn:El in Hc; [by simplify_eq|].
  apply Nat.ltb_ge in El. destruct Hrt as [->| ->]; simpl in El |- *.
  - intros Hv. assert (exists y, y ∈ ws /\ accepts y v) as (y & Hy & Hav).
    { case_bool_decide; [done|]. destruct ws as [|y ws]; [done|]. set_solver. }
    destruct (matched_writer _ _ _ _ _ _ _ Hcount El Hy) as (x & loc' & res' & Hx & Hr' & Hc').
    exists x. split; [done|]. eapply (Hrec x y); eauto.
  - destruct Hwt as [->| ->]; simpl in *; [done|]. intros Hv x Hx.
    destruct (matched_reader _ _ _ _ _ _ _ Hcount El Hx) as (y & loc' & res' & Hy & Hr' & Hc').
    eapply (Hrec x y); eauto.
Qed.

Lemma subschemas_sound rec r w loc res v :
  sound rec -> plain r -> plain w ->
  compatibility_subschemas maximum_matching rec r w loc = Ok res -> is_compatible res = true ->
  accepts w v -> accepts r v.
Proof.
  intros Hrec Hr Hw Hc Hres. unfold compatibility_subschemas in Hc.
  apply bind_Ok in Hc as ([rs rt] & Hrs & Hc). apply bind_Ok in Hc as ([ws wt] & Hws & Hc).
  apply bind_Ok in Hc as (rsimple & Hrsimple & Hc). apply bind_Ok in Hc as (wsimple & Hwsimple & Hc).
  pose proof (plain_subschemas _ _ _ Hr Hrs) as Har.
  destruct (_ && _ && rsimple) eqn:E1 in Hc.
  { destruct rs as [[|x l]|]; try done. apply andb_true_iff in E1 as [_ ->].
    destruct (simple_subschema _ _ _ _ v Hr Hrs Hrsimple) as [Hx ->].
    apply bind_Ok in Hc as (res' & Hrr & Hc). destruct (is_compatible res') eqn:Ec; simplify_eq.
    by eapply Hrec. }
  destruct (_ && _ && wsimple) eqn:E2 in Hc.
  { destruct ws as [[|x l]|]; try done. apply andb_true_iff in E2 as [_ ->].
    destruct (simple_subschema _ _ _ _ v Hw Hws Hwsimple) as [Hx ->].
    apply bind_Ok in Hc as (res' & Hrr & Hc). destruct (is_compatible res') eqn:Ec; simplify_eq.
    by eapply Hrec. }
  destruct ((_ || _) && _) eqn:E3 in Hc.
  { destruct rs as [l|]; [|done]. destruct Har as (Hrt & _ & Hl & ->).
    destruct (first_compatible_spec _ _ _ _ _ Hc Hres) as (x & res' & Hx & Hrr & Hc').
    destruct Hrt as [->| ->]; [|done]. simpl. rewrite Forall_forall in Hl. intros Hv.
    exists x. split; [done|]. eapply (Hrec x w); eauto. }
  destruct rs as [l|], ws as [l'|]; try by simplify_eq. by eapply combinations_sound.
Qed.

(** *** Arrays *)

Lemma array_step rec r w loc res :
  (forall r w loc, yields consistent (rec r w loc)) ->
  is_tuple (JObj r) = false -> is_tuple (JObj w) = false ->
  compatibility_array rec r w loc = Ok res -> is_compatible res = true ->
  (exists loc' res', rec (jget Keyword.ITEMS r) (jget Keyword.ITEMS w) loc' = Ok res' /\ is_compatible res' = true) /\
  Forall (fun c => not_tightened c r w) [MAX_ITEMS_CHECK; MIN_ITEMS_CHECK].
Proof.
  intros Hcons Hr Hw Ha Hc. unfold compatibility_array in Ha.
  apply bind_Ok in Ha as (rt & _ & Ha). apply bind_Ok in Ha as (wt & _ & Ha).
  destruct (negb _) in Ha; [done|]. unfold is_tuple_without_additional_items in Ha.
  rewrite Hr, Hw in Ha. simpl negb in Ha. cbv iota in Ha.
  assert (Hitems : (match jget Keyword.ITEMS r, jget Keyword.ITEMS w with
                    | JList rs, JList ws => (rs, ws)
                    | _, _ => ([jget Keyword.ITEMS r], [jget Keyword.ITEMS w])
                    end) = ([jget Keyword.ITEMS r], [jget Keyword.ITEMS w])).
  { simpl in Hr. by destruct (jget Keyword.ITEMS r). }
  rewrite Hitems in Ha. simpl in Ha.
  apply bind_Ok in Ha as (res1 & (res0 & Hrec & [= <-])%bind_Ok & Ha).
  apply bind_Ok in Ha as (res2 & Hrec2 & Ha).
  pose proof (Hcons _ _ _ _ Hrec) as Hc0. pose proof (Hcons _ _ _ _ Hrec2) as Hc2.
  assert (Hc1 : consistent (if is_incompatible res0 then merge compatible_result res0 else compatible_result))
    by (destruct (is_incompatible res0); auto with jsonschema).
  apply run_checks_passed in Ha as [Hm Hf]; [|by apply consistent_merge|done].
  split; [|done]. apply is_compatible_merge in Hm as [Hm _]; [|done].
  eexists _, res0. split; [done|]. destruct Hc0 as [[Ht _]|[Ht _]]; unfold is_incompatible, is_compatible in *;
    rewrite Ht in *; [done|]. simpl in Hm. by rewrite merge_type in Hm; simpl in Hm; rewrite Ht in Hm.
Qed.

Lemma plain_array_inv d : get_type_of (JObj d) = Ok (TInstance ARRAY) -> plain (JObj d) ->
  is_tuple (JObj d) = false /\ plain (jget Keyword.ITEMS d).
Proof.
  intros Ht. inversion 1 as [d' t Ht' Hin|d' l Ht'|d'|d' l t Hm| |]; subst; try congruence; [|done|].
  - rewrite Ht in Ht'. simplify_eq. set_solver.
  - apply get_type_of_cases in Ht as [(? & ? & _ & ?)|[Hn _]]; [done|congruence].
Qed.

Lemma array_sound rec r w loc res v :
  sound rec -> (forall r w loc, yields consistent (rec r w loc)) ->
  get_type_of (JObj r) = Ok (TInstance ARRAY) -> get_type_of (JObj w) = Ok (TInstance ARRAY) ->
  plain (JObj r) -> plain (JObj w) ->
  compatibility_array rec r w loc = Ok res -> is_compatible res = true ->
  accepts (JObj w) v -> accepts (JObj r) v.
Proof.
  intros Hrec Hcons Hrt Hwt Hr Hw Ha Hc Hv.
  apply (plain_array_inv _ Hrt) in Hr as [Hrtuple Hr]. apply (plain_array_inv _ Hwt) in Hw as [Hwtuple Hw].
  destruct (array_step _ _ _ _ _ Hcons Hrtuple Hwtuple Ha Hc) as [(loc' & res' & Hi & Hic) Hf].
  rewrite !Forall_cons in Hf. destruct Hf as (H1 & H2 & _).
  inversion Hv as [d t v' Ht Hs|d l v' Ht|d vs Ht [Q1 Q2] Hvs|d l s v' Hm|d l v' Hm| |]; subst; try congruence.
  - rewrite Hwt in Ht. by simplify_eq.
  - apply accepts_array; [done| |].
    + split; [by apply (at_most_mono MAX_ITEMS_CHECK r w)|by apply (at_least_mono MIN_ITEMS_CHECK r w)].
    + eapply Forall_impl; [exact Hvs|]. intros x Hx. by eapply (Hrec _ (jget Keyword.ITEMS w)).
  - apply get_type_of_cases in Hwt as [(? & ? & _ & ?)|[Hn _]]; [done|congruence].
  - apply get_type_of_cases in Hwt as [(? & ? & _ & ?)|[Hn _]]; [done|congruence].
Qed.

(** *** One step, and the recursion *)

Lemma accepts_scalar_inv d t v : get_type_of (JObj d) = Ok (TInstance t) -> t ≠ ARRAY ->
  accepts (JObj d) v -> scalar_ok re_search t d v.
Proof.
  intros Ht Hne Hv.
  inversion Hv as [d' t' v' Ht' Hs|d' l v' Ht'|d' vs Ht' _ _|d' l s v' Hm|d' l v' Hm| |]; subst; try congruence.
  all: apply get_type_of_cases in Ht as [(? & ? & _ & ?)|[Hn _]]; [done|congruence].
Qed.

Lemma plain_type d t : plain (JObj d) -> get_type_of (JObj d) = Ok t ->
  t = TEnum \/ is_combination t = true \/
  exists k, t = TInstance k /\ k ∈ [NUMBER; INTEGER; STRING; BOOLEAN; NULL; ARRAY].
Proof.
  intros Hp Ht. inversion Hp as [d' k Ht' Hin|d' l Ht'|d' Ht'|d' l k Hm Hk| |]; subst.
  1-3: rewrite Ht in Ht'; injection Ht' as ->; set_solver.
  apply get_type_of_cases in Ht as [(l' & k' & Hm' & ->)|[Hn _]]; [|congruence].
  rewrite Hm in Hm'. simplify_eq. right. left. by assert (k' = ANY_OF \/ k' = ALL_OF) as [->| ->] by set_solver.
Qed.

Lemma plain_enum_inv d : get_type_of (JObj d) = Ok TEnum -> plain (JObj d) ->
  exists l, dget Keyword.ENUM d = Some (JList l) /\ all_strings l = true.
Proof.
  intros Ht. inversion 1 as [d' t Ht'|d' l Ht'|d' Ht'|d' l t Hm| |]; subst; try congruence; [eauto|].
  apply get_type_of_cases in Ht as [(? & ? & _ & ?)|[Hn _]]; [done|congruence].
Qed.

Lemma step_sound rec :
  sound rec -> (forall r w loc, yields consistent (rec r w loc)) ->
  sound (compatibility_step re_match maximum_matching rec).
Proof.
  intros Hrec Hcons r w loc res v Hr Hw Hs Hc Hv. unfold compatibility_step in Hs.
  destruct (introduced_constraint r w) eqn:Ei; [by simplify_eq|].
  destruct (is_none r && _) eqn:En; [by simplify_eq|].
  apply bind_Ok in Hs as (rt & Hrt & Hs). apply bind_Ok in Hs as (wt & Hwt & Hs).
  assert (r = JBool true \/ r = JNull \/ exists d, r = JObj d) as [->|[->|[rd ->]]]
    by (destruct Hr; eauto); [constructor|constructor|].
  assert (Hro : rt ≠ TInstance OBJECT).
  { destruct (plain_type _ _ Hr Hrt) as [->|[?|(k & -> & Hk)]]; [done|by intros ->|]. intros [= ->]. set_solver. }
  destruct (negb _ && _ && _ && _) eqn:E1 in Hs; [by simplify_eq|].
  destruct (is_numeric rt && is_numeric wt) eqn:E2.
  { destruct w as [| | | | | |wd]; try done. apply andb_true_iff in E2 as [E2 E3].
    assert (exists k k', rt = TInstance k /\ wt = TInstance k' /\ k ≠ ARRAY /\ k' ≠ ARRAY)
      as (k & k' & -> & -> & ? & ?) by (destruct rt as [[]| | |], wt as [[]| | |]; try done; eauto 10).
    eapply accepts_scalar; [done|]. eapply numerical_sound; eauto using accepts_scalar_inv. }
  destruct (is_combination rt || is_combination wt) eqn:E3; [by eapply subschemas_sound|].
  destruct (_ && _) eqn:E4 in Hs.
  { apply andb_true_iff in E4 as [E4 _]. simpl in E4. by rewrite orb_false_r, bool_decide_eq_true in E4. }
  rewrite E4 in E1. simpl in E1. apply negb_false_iff, bool_decide_eq_true in E1 as ->.
  destruct w as [|b| | | | |wd]; try done.
  { injection Hwt as <-. by destruct (plain_type _ _ Hr Hrt) as [?|[?|(k & ? & _)]]. }
  destruct (plain_type _ _ Hr Hrt) as [->|[Hk|(k & -> & Hk)]]; [| by rewrite Hk in E3|].
  - inversion Hv as [d' t' v' Ht' Hs'|d' lw v' Ht' Hlw Hin|d' vs Ht' _ _|d' l s v' Hm|d' l v' Hm| |]; subst;
      try congruence; try (apply get_type_of_cases in Hwt as [(? & ? & _ & ?)|[Hn _]]; [done|congruence]).
    destruct (plain_enum_inv _ Hrt Hr) as (lr & Hlr & _). destruct (plain_enum_inv _ Hwt Hw) as (lw' & Hlw' & Hsw).
    rewrite Hlw in Hlw'. injection Hlw' as <-.
    eapply accepts_enum; [done..|]. by eapply (enum_sound rd wd lr lw loc res).
  - destruct k; try (set_solver); try done.
    + eapply accepts_scalar; [done|]. by apply (accepts_scalar_inv _ _ _ Hwt).
    + eapply accepts_scalar; [done|]. by apply (accepts_scalar_inv _ _ _ Hwt).
    + eapply accepts_scalar; [done|]. apply (accepts_scalar_inv _ _ _ Hwt) in Hv as (s & -> & Hv); [|done].
      exists s. split; [done|]. by eapply string_sound.
    + by apply (array_sound rec rd wd loc res v).
Qed.

Lemma compatibility_rec_sound fuel : sound (compatibility_rec re_match maximum_matching fuel).
Proof.
  induction fuel as [|fuel IH]; simpl; [by intros r w loc res v _ _|].
  apply step_sound; [done|]. intros. apply compatibility_rec_consistent.
Qed.

(** C6. When the check declares the reader compatible with the writer, every value valid for the
    writer is valid for the reader, for schemas built from scalar types with their bounds,
    lengths and patterns, enumerations of strings, homogeneous arrays with their size bounds,
    lists of types, [anyOf] and [allOf], where no schema has another constraining keyword (such as
    [enum], [const], [multipleOf], [not] or [uniqueItems] beside [type]). *)
Theorem json_compatibility_sound fuel reader writer location r v :
  plain reader -> plain writer ->
  compatibility_rec re_match maximum_matching fuel reader writer location = Ok r ->
  is_compatible r = true -> accepts writer v -> accepts reader v.
Proof. apply compatibility_rec_sound. Qed.
End sound.

(** ** A maximum matching by enumeration, for concrete instances *)

Fixpoint sublists {A} (l : list A) : list (list A) :=
  match l with
  | [] => [[]]
  | x :: l => map (cons x) (sublists l) ++ sublists l
  end.

Lemma sublists_subseteq {A} (l m : list A) : m ∈ sublists l -> m ⊆ l.
Proof.
  revert m. induction l as [|x l IH]; simpl; intros m; [intros ->%list_elem_of_singleton; set_solver|].
  rewrite elem_of_app. intros [(m' & -> & Hm%IH)%list_elem_of_fmap|Hm%IH]; set_solver.
Qed.

Lemma sublists_filter {A} (P : A -> Prop) `{!forall x, Decision (P x)} (l : list A) :
  filter P l ∈ sublists l.
Proof.
  induction l as [|x l IH]; simpl; [set_solver|]. rewrite filter_cons, elem_of_app. case_decide; [left|by right].
  apply list_elem_of_fmap. eauto.
Qed.

Definition brute_matching (edges : list (nat * nat)) : nat :=
  max_list_with length
    (filter (fun m => NoDup m.*1 /\ NoDup m.*2) (sublists (remove_dups edges))).

Lemma max_list_with_attained {A} (f : A -> nat) l : l ≠ [] -> exists x, x ∈ l /\ f x = max_list_with f l.
Proof.
  induction l as [|x l IH]; [done|]. intros _. simpl. destruct l as [|y l].
  - exists x. split; [set_solver|]. simpl. lia.
  - destruct IH as (z & Hz & Hf); [done|]. destruct (decide (f x <= f z)%nat).
    + exists z. split; [set_solver|lia].
    + exists x. split; [set_solver|]. lia.
Qed.

Lemma max_list_with_upper {A} (f : A -> nat) l x : x ∈ l -> (f x <= max_list_with f l)%nat.
Proof. induction 1; simpl; lia. Qed.

#[global] Instance brute_matching_laws : MatchingLaws brute_matching.
Proof.
  split.
  - intros edges. unfold brute_matching.
    destruct (max_list_with_attained length
      (filter (fun m => NoDup m.*1 /\ NoDup m.*2) (sublists (remove_dups edges)))) as (m & Hm & Hl).
    { intros Hn. assert (Hin : filter (fun _ => False) (remove_dups edges) ∈
        filter (fun m => NoDup m.*1 /\ NoDup m.*2) (sublists (remove_dups edges))).
      { apply list_elem_of_filter. split; [|apply sublists_filter].
        assert (Hf : filter (fun _ => False) (remove_dups edges) = []).
        { clear Hn. by induction (remove_dups edges). }
        rewrite Hf. split; apply NoDup_nil_2. }
      rewrite Hn in Hin. by apply not_elem_of_nil in Hin. }
    exists m. split; [|done]. apply list_elem_of_filter in Hm as [[H1 H2] Hm]. split_and!; try done.
    intros e He. apply (sublists_subseteq _ _ Hm) in He. by apply elem_of_remove_dups.
  - intros edges m (Hsub & H1 & H2). assert (Hnd : NoDup m) by (by eapply NoDup_fmap_1).
    assert (Hp : filter (fun e => e ∈ m) (remove_dups edges) ≡ₚ m).
    { apply NoDup_Permutation; [apply NoDup_filter, NoDup_remove_dups|done|]. intros e.
      rewrite list_elem_of_filter, elem_of_remove_dups. set_solver. }
    rewrite <- Hp. apply max_list_with_upper, list_elem_of_filter.
    split; [by rewrite Hp|apply sublists_filter].
Qed.

Lemma json_compatibility_sound_witness :
  let reader := JObj [("title", JStr "quantity"); ("type", JList [JStr "number"; JStr "string"]); ("maximum", JInt 10)]%string in
  let writer := JObj [("type", JStr "integer"); ("maximum", JInt 7)]%string in
  (exists r, compatibility_rec literal_match brute_matching 30 reader writer [] = Ok r /\ is_compatible r = true) /\
  accepts (fun _ _ => true) reader (JInt 5).
Proof.
  split; [eexists; split; [vm_compute; reflexivity|reflexivity]|].
  eapply (json_compatibility_sound literal_match brute_matching (fun _ _ => true) 30 _
    (JObj [("type", JStr "integer"); ("maximum", JInt 7)]%string) []).
  - eapply plain_combination; [reflexivity|set_solver|done| |left; eexists; reflexivity].
    apply List.Forall_cons; [|apply List.Forall_cons; [|apply List.Forall_nil]];
      (eapply plain_scalar; [reflexivity|set_solver|apply (bool_decide_unpack _); vm_compute; exact I]).
  - eapply plain_scalar; [reflexivity|set_solver|apply (bool_decide_unpack _); vm_compute; exact I].
  - vm_compute. reflexivity.
  - reflexivity.
  - eapply accepts_scalar; [reflexivity|]. exists (inject_Z 5), 5. split_and!; try reflexivity.
    split_and!; unfold at_most, at_least, limit; simpl; intros m [= <-]; by apply Qle_bool_iff.
Defined.

(** ** What the check does not compare

    Keywords beside [type] that it does not read can be introduced by the reader. *)

Definition declared_compatible (reader writer : json) : bool :=
  match compatibility_rec literal_match brute_matching 30 reader writer [] with
  | Ok r => is_compatible r
  | Raise _ => false
  end.

Lemma enum_beside_type_missed :
  declared_compatible (JObj [("type", JStr "string"); ("enum", JList [JStr "a"])]%string)
    (JObj [("type", JStr "string")]%string) = true.
Proof. vm_compute. reflexivity. Qed.

Lemma multiple_of_missed :
  declared_compatible (JObj [("type", JStr "integer"); ("multipleOf", JInt 2)]%string)
    (JObj [("type", JStr "integer")]%string) = true.
Proof. vm_compute. reflexivity. Qed.
