(* ===== verification/JsonSchemaNormal.v ===== *)
(** * Normalisation of JSON schemas

    [normalize_schema] replaces every [$ref] by its target. Its result has no reference left, it
    leaves the resolver's stack of base URIs as it found it, and a schema that has no reference is
    returned as it is. *)

From S2P Require Import Prelude Json Models Compat JsonSchema JsonSchemaSpec.
Open Scope Z_scope.

(** No dict in the schema has a [$ref] member (a null one does not count). *)
Inductive ref_free : json -> Prop :=
  | ref_free_atom j : (forall l, j ≠ JList l) -> (forall d, j ≠ JObj d) -> ref_free j
  | ref_free_list l : Forall ref_free l -> ref_free (JList l)
  | ref_free_dict d : (forall v, (Keyword.REF, v) ∈ d -> v = JNull) -> Forall (fun kv => ref_free kv.2) d -> ref_free (JObj d).

(** A reference resolves to a part of a decoded document that is a schema: a dict or a boolean. *)
Class ResolverLaws (R : Resolver) : Prop := {
  resolve_schema : forall scope ref url t, resolve scope ref = Ok (url, t) ->
    json_wf t /\ ((exists d, t = JObj d) \/ (exists b, t = JBool b));
}.

Lemma json_wf_list l : json_wf (JList l) <-> Forall json_wf l.
Proof.
  simpl. induction l as [|x l IH]; [by split; constructor|]. rewrite Forall_cons, IH. done.
Qed.

Lemma json_wf_dict d : json_wf (JObj d) <-> dwf d /\ Forall (fun kv => json_wf kv.2) d.
Proof.
  simpl. apply and_iff_compat_l. induction d as [|[k x] d IH]; [by split; constructor|].
  rewrite Forall_cons, IH. done.
Qed.

Lemma dset_elem {V} k (v : V) (d : list (string * V)) p : p ∈ dset k v d -> p = (k, v) \/ p ∈ d.
Proof. induction d as [|[k' v'] d IH]; simpl; [set_solver|]. case_decide; set_solver. Qed.

Lemma dict_of_subseteq pairs : dict_of pairs ⊆ pairs.
Proof.
  unfold dict_of. cut (forall acc, fold_left (fun d p => dset p.1 p.2 d) pairs acc ⊆ acc ++ pairs);
    [intros Hc; apply (Hc [])|].
  induction pairs as [|[k v] pairs IH]; simpl; intros acc; [by rewrite app_nil_r|].
  intros p [Hp|Hp]%IH%elem_of_app; [apply dset_elem in Hp|]; set_solver.
Qed.

Lemma dset_fresh {V} k (v : V) (d : list (string * V)) : k ∉ dkeys d -> dset k v d = d ++ [(k, v)].
Proof.
  induction d as [|[k' v'] d IH]; simpl; [done|]. intros Hk. case_decide; [set_solver|].
  rewrite IH; [done|set_solver].
Qed.

Lemma dict_of_id d : dwf d -> dict_of d = d.
Proof.
  unfold dict_of, dwf. intros Hd. cut (forall acc, NoDup (dkeys (acc ++ d)) ->
    fold_left (fun d p => dset p.1 p.2 d) d acc = acc ++ d); [intros Hc; by apply (Hc [])|].
  clear Hd. induction d as [|[k v] d IH]; simpl; intros acc Hnd; [by rewrite app_nil_r|].
  rewrite dset_fresh, IH; [by rewrite <- app_assoc|by rewrite <- app_assoc|].
  unfold dkeys in *. rewrite map_app in Hnd. simpl in Hnd. apply NoDup_app in Hnd as (_ & Hd & _).
  intros Hin. apply (Hd k); set_solver.
Qed.

Section normal.
Context `{!Resolver, !ResolverLaws _}.

(** On success the stack is what it was and the result has no reference. *)
Definition clean {A} (Q : A -> Prop) (m : M Scopes A) : Prop :=
  forall s s' a, m s = (s', Ok a) -> s' = s /\ Q a.

(** Dicts go to dicts, lists to lists, anything else to itself. *)
Definition same_shape (j a : json) : Prop :=
  match j with JObj _ => exists d, a = JObj d | JList _ => exists l, a = JList l | _ => a = j end.

(** What is returned, if anything is. *)
Definition gives {A} (Q : A -> Prop) (m : M Scopes A) : Prop := forall s s' a, m s = (s', Ok a) -> Q a.

Lemma gives_bind {A B} (Q : B -> Prop) (m : M Scopes A) f : (forall a, gives Q (f a)) -> gives Q (m ≫= f).
Proof. intros Hf s s' b [(a & s1 & _ & H2)|(e & _ & ?)]%M_bind_inv; [|done]. by apply (Hf a) in H2. Qed.

Lemma gives_ret {A} (Q : A -> Prop) a : Q a -> gives Q (mret a).
Proof. by intros Ha s s' b [= <- <-]. Qed.

Lemma clean_bind {A B} (P : A -> Prop) (Q : B -> Prop) (m : M Scopes A) f :
  clean P m -> (forall a, P a -> clean Q (f a)) -> clean Q (m ≫= f).
Proof.
  intros Hm Hf s s' b [(a & s1 & H1 & H2)|(e & _ & ?)]%M_bind_inv; [|done].
  apply Hm in H1 as [-> Ha]. by apply (Hf a Ha).
Qed.

Lemma clean_ret {A} (Q : A -> Prop) a : Q a -> clean Q (mret a).
Proof. by intros Ha s s' b [= <- <-]. Qed.

Section step.
Context (rec : json -> M Scopes json).
Hypothesis Hrec : forall j, json_wf j -> clean ref_free (rec j).
Hypothesis Hshape : forall j, gives (same_shape j) (rec j).

Lemma normalize_items_clean l : Forall json_wf l -> clean (Forall ref_free) (normalize_items rec l).
Proof.
  induction 1 as [|x l Hx Hl IH]; simpl; [apply clean_ret; constructor|].
  eapply clean_bind; [by apply Hrec|]. intros x' Hx'. eapply clean_bind; [done|]. intros l' Hl'.
  apply clean_ret. by constructor.
Qed.

(** A key keeps its place, and a null member stays null. *)
Lemma normalize_members_clean d : Forall (fun kv => json_wf kv.2) d ->
  clean (fun d' => Forall (fun kv => ref_free kv.2) d' /\
    forall k, (forall v, (k, v) ∈ d -> v = JNull) -> forall v', (k, v') ∈ d' -> v' = JNull)
    (normalize_members rec d).
Proof.
  induction 1 as [|[k x] d Hx Hd IH]; simpl.
  { apply clean_ret. split; [constructor|]. intros k _ v []%not_elem_of_nil. }
  apply (clean_bind (fun x' => ref_free x' /\ (x = JNull -> x' = JNull))).
  { intros s s' a Ha. pose proof (Hrec _ Hx _ _ _ Ha) as [-> ?]. split; [done|]. split; [done|].
    simpl in Ha. intros ->. by apply Hshape in Ha. }
  intros x' [Hx' Hn]. eapply clean_bind; [exact IH|]. intros d' [Hd' Hk].
  apply clean_ret. split; [by constructor|]. intros k' Hk' v' [[= -> ->]|Hin]%elem_of_cons.
  - apply Hn, Hk'. by left.
  - eapply Hk; [|done]. intros v Hv. apply Hk'. by right.
Qed.

Lemma ref_free_dict_of d : (forall v, (Keyword.REF, v) ∈ d -> v = JNull) ->
  Forall (fun kv => ref_free kv.2) d -> ref_free (JObj (dict_of d)).
Proof.
  intros Hr Hf. apply ref_free_dict; [intros v Hv%dict_of_subseteq; auto|].
  rewrite Forall_forall in *. intros kv Hkv%dict_of_subseteq. auto.
Qed.

Lemma normalize_dict_clean d : json_wf (JObj d) -> clean ref_free (normalize_dict rec d).
Proof.
  intros [Hwf Hd]%json_wf_dict. unfold normalize_dict. destruct (jget Keyword.REF d) as [| | | |ref| |] eqn:Er.
  2-4, 6-7: by intros s s' a.
  - eapply clean_bind; [by apply normalize_members_clean|]. intros d' [Hd' Hk]. apply clean_ret.
    apply ref_free_dict_of; [|done]. apply Hk. intros v Hv.
    unfold jget in Er. rewrite (In_dget _ _ _ Hwf Hv) in Er. done.
  - intros s s' a. simpl. intros [(st & s1 & [= <- <-] & H1)|(e & ? & ?)]%M_bind_inv; [|done].
    apply M_bind_inv in H1 as [([url t] & s2 & [= <- Hres] & H2)|(e & ? & ?)]; [|done].
    apply resolve_schema in Hres as [Ht Hs].
    apply M_bind_inv in H2 as [([] & s3 & [= <-] & H3)|(e & ? & ?)]; [|done].
    apply M_bind_inv in H3 as [(n & s4 & H3 & H4)|(e & ? & ?)]; [|done]. apply Hshape in H3 as Hn'.
    apply (Hrec _ Ht) in H3 as [-> Hn].
    apply M_bind_inv in H4 as [(pairs & s5 & [= <- Hp] & H5)|(e & ? & ?)]; [|done]. injection H5 as <- <-.
    split; [done|]. destruct Hs as [[d' ->]|[b ->]]; simpl in Hn'; [|by subst n].
    destruct Hn' as [d'' ->]. injection Hp as ->. inversion Hn as [? _ Hobj| |]; [by destruct (Hobj pairs)|].
    by apply ref_free_dict_of.
Qed.

Lemma normalize_dict_shape d : gives (same_shape (JObj d)) (normalize_dict rec d).
Proof.
  unfold normalize_dict. destruct (jget Keyword.REF d); try (by intros s s' a).
  all: repeat (apply gives_bind; intros); apply gives_ret; simpl; eauto.
Qed.
End step.

Lemma normalize_rec_shape fuel j : gives (same_shape j) (normalize_schema_rec fuel j).
Proof.
  destruct fuel as [|fuel]; [by intros s s' a|].
  destruct j as [| | | | |l|d]; simpl; try (by apply gives_ret).
  - apply gives_bind. intros l'. apply gives_ret. simpl. eauto.
  - apply gives_bind. intros _ s s' a [(n & s1 & Hn & H2)|(e & _ & ?)]%M_bind_inv; [|done].
    apply normalize_dict_shape in Hn. revert H2. apply gives_bind. intros _. by apply gives_ret.
Qed.

Lemma normalize_rec_clean fuel j : json_wf j -> clean ref_free (normalize_schema_rec fuel j).
Proof.
  revert j. induction fuel as [|fuel IH]; intros j Hj; [by intros s s' a|]. simpl.
  destruct j as [| | | | |l|d]; try (apply clean_ret; by constructor).
  - eapply clean_bind; [apply normalize_items_clean; [apply IH|by apply json_wf_list]|].
    intros l' Hl'. apply clean_ret. by constructor.
  - assert (Hd : clean ref_free (normalize_dict (normalize_schema_rec fuel) d))
      by (apply normalize_dict_clean; auto using normalize_rec_shape).
    destruct (negb _).
    + intros s s' a. intros [([] & s1 & [= <-] & H1)|(e & _ & ?)]%M_bind_inv; [|done].
      apply M_bind_inv in H1 as [(n & s2 & Hn & H2)|(e & _ & ?)]; [|done]. apply Hd in Hn as [-> Hn].
      by injection H2 as <- <-.
    + eapply (clean_bind (fun _ => True)); [by apply clean_ret|]. intros [] _.
      eapply clean_bind; [exact Hd|]. intros n Hn.
      eapply (clean_bind (fun _ => True)); [by apply clean_ret|]. intros [] _. by apply clean_ret.
Qed.

(** Without references nothing changes. *)
Definition same {A} (m : M Scopes A) (a : A) : Prop := forall s, m s = (s, Ok a).

Lemma same_bind {A B} (m : M Scopes A) (f : A -> M Scopes B) a b : same m a -> same (f a) b -> same (m ≫= f) b.
Proof. intros Hm Hf s. unfold mbind, M_bind. rewrite Hm. apply Hf. Qed.

Lemma normalize_items_same rec l : (forall x, x ∈ l -> same (rec x) x) -> same (normalize_items rec l) l.
Proof.
  induction l as [|x l IH]; intros Hl; simpl; [done|].
  eapply same_bind; [apply Hl; set_solver|]. eapply same_bind; [apply IH; set_solver|done].
Qed.

Lemma normalize_members_same rec d : (forall kv, kv ∈ d -> same (rec kv.2) kv.2) -> same (normalize_members rec d) d.
Proof.
  induction d as [|[k x] d IH]; intros Hd; simpl; [done|].
  eapply same_bind; [apply (Hd (k, x)); set_solver|]. eapply same_bind; [apply IH; set_solver|done].
Qed.

Lemma normalize_rec_same fuel j : json_wf j -> ref_free j -> (json_size j < fuel)%nat ->
  same (normalize_schema_rec fuel j) j.
Proof.
  revert j. induction fuel as [|fuel IH]; intros j Hj Hr Hf; [lia|]. simpl.
  destruct j as [| | | | |l|d]; try done.
  - apply json_wf_list in Hj. inversion Hr as [? Hl|? Hl|]; [by destruct (Hl l)|subst].
    rewrite Forall_forall in Hj, Hl. eapply same_bind; [|done].
    apply normalize_items_same. intros x Hx. pose proof (size_item _ _ Hx). apply IH; auto. lia.
  - apply json_wf_dict in Hj as [Hwf Hj].
    inversion Hr as [? _ Hd| |? Href Hd]; [by destruct (Hd d)|subst]. rewrite Forall_forall in Hj, Hd.
    assert (Hn : same (normalize_dict (normalize_schema_rec fuel) d) (JObj d)).
    { unfold normalize_dict. assert (jget Keyword.REF d = JNull) as ->.
      { unfold jget. destruct (dget Keyword.REF d) as [v|] eqn:E; [|done]. by apply Href, dget_elem. }
      eapply same_bind; [|rewrite (dict_of_id _ Hwf); done].
      apply normalize_members_same. intros kv Hkv. pose proof (size_member _ _ Hkv). apply IH; auto. lia. }
    intros s. destruct (negb _); unfold mbind, M_bind; simpl; by rewrite Hn.
Qed.

(** A normalised schema has no reference left, whatever the references of the original
    resolve to, and normalising leaves the resolver's stack as it was; a schema without
    references is returned unchanged, given fuel above its size. *)
Theorem normalize_schema_spec fuel schema : json_wf schema ->
  (forall r, normalize_schema fuel schema = Ok r -> ref_free r) /\
  (forall stack stack' r, normalize_schema_rec fuel schema stack = (stack', Ok r) -> stack' = stack) /\
  (ref_free schema -> (json_size schema < fuel)%nat -> normalize_schema fuel schema = Ok schema).
Proof.
  intros Hwf. split_and!.
  - unfold normalize_schema. intros r Hr. destruct (normalize_schema_rec fuel schema [base_uri]) as [s' a] eqn:E.
    simpl in Hr. subst a. by apply normalize_rec_clean in E as [_ ?].
  - intros st st' r E. by apply normalize_rec_clean in E as [? _].
  - intros Hr Hf. unfold normalize_schema. by rewrite normalize_rec_same.
Qed.
End normal.

(** A resolver of references into one document of definitions. *)
#[global] Instance one_definition : Resolver := {|
  base_uri := "";
  id_of d := match jget "$id" d with JStr s => s | _ => "" end;
  urljoin base s := s;
  resolve scope ref :=
    if String.eqb ref "#/definitions/name" then Ok (ref, JObj [("type", JStr "string")]%string)
    else Raise KeyError;
|}.

#[global] Instance one_definition_laws : ResolverLaws one_definition.
Proof.
  split. intros scope ref url t. simpl. destruct (String.eqb _ _); [|done]. intros [= <- <-].
  split; [|eauto]. simpl. split; [|done]. unfold dwf. simpl. repeat constructor. set_solver.
Qed.

Lemma normalize_schema_spec_witness :
  let schema := JObj [("$id", JStr "http://x/"); ("items", JObj [("$ref", JStr "#/definitions/name")])]%string in
  let target := JObj [("$id", JStr "http://x/"); ("items", JObj [("type", JStr "string")])]%string in
  normalize_schema 20 schema = Ok target /\ ref_free target.
Proof.
  assert (E : normalize_schema 20 (JObj [("$id", JStr "http://x/");
      ("items", JObj [("$ref", JStr "#/definitions/name")])]%string) =
    Ok (JObj [("$id", JStr "http://x/"); ("items", JObj [("type", JStr "string")])]%string)) by reflexivity.
  split; [exact E|]. eapply (proj1 (normalize_schema_spec 20 _ _)). exact E.
  Unshelve. simpl. unfold dwf; simpl. split_and!; try done; repeat constructor; set_solver.
Defined.
