(* ===== verification/Protobuf.v ===== *)
(** * Compatibility of protobuf schemas

    [core/protobuf]: [compare_result.py], [proto_type.py], [compare_type_storage.py],
    [compare_type_lists.py], the [compare] methods of the elements of a parsed file, and
    [core/compatibility/protobuf/checks.py]. The comparison mutates two shared objects, the
    [CompareResult] and the [CompareTypes]; both are the state [Comparison] threaded through.

    A parsed file is data here: the text parser and the descriptor reader that build it are not
    modelled. Of an element the parts that comparing or testing equality reads are kept. A
    [Location] has no [__eq__], so it is kept as the identity of the object; an option compares by
    its text, so it is kept as that. The elements recurse through type names, so [run] takes fuel
    and ends in Python's [RecursionError]. Where the code iterates over a difference of key sets,
    the order of the records is unspecified; here it is the order of the dict. *)

From stdpp Require Import pretty.
From S2P Require Import Prelude Typing Models Compat.
Open Scope Z_scope.

(** ** compare_result.py *)

Inductive Modification : Type :=
  | PACKAGE_ALTER | SYNTAX_ALTER | MESSAGE_ADD | MESSAGE_DROP | MESSAGE_MOVE
  | ENUM_CONSTANT_ADD | ENUM_CONSTANT_ALTER | ENUM_CONSTANT_DROP | ENUM_ADD | ENUM_DROP
  | TYPE_ALTER | FIELD_ADD | FIELD_DROP | FIELD_MOVE | FIELD_LABEL_ALTER | FIELD_NAME_ALTER
  | FIELD_KIND_ALTER | FIELD_TYPE_ALTER | FIELD_TAG_ALTER | ONE_OF_ADD | ONE_OF_DROP
  | ONE_OF_MOVE | ONE_OF_FIELD_ADD | ONE_OF_FIELD_DROP | ONE_OF_FIELD_MOVE
  | FEW_FIELDS_CONVERTED_TO_ONE_OF.

#[global] Instance Modification_eq_dec : EqDecision Modification.
Proof. solve_decision. Defined.

Definition modification_is_compatible (m : Modification) : bool :=
  match m with
  | MESSAGE_MOVE | MESSAGE_DROP | FIELD_LABEL_ALTER | FIELD_KIND_ALTER | FIELD_TYPE_ALTER
  | FIELD_TAG_ALTER | ONE_OF_FIELD_DROP | FEW_FIELDS_CONVERTED_TO_ONE_OF => false
  | _ => true
  end.

(** [str(modification)], for the incompatible ones. *)
Definition modification_str (m : Modification) : string :=
  match m with
  | MESSAGE_MOVE => "Modification.MESSAGE_MOVE"
  | MESSAGE_DROP => "Modification.MESSAGE_DROP"
  | FIELD_LABEL_ALTER => "Modification.FIELD_LABEL_ALTER"
  | FIELD_KIND_ALTER => "Modification.FIELD_KIND_ALTER"
  | FIELD_TYPE_ALTER => "Modification.FIELD_TYPE_ALTER"
  | FIELD_TAG_ALTER => "Modification.FIELD_TAG_ALTER"
  | ONE_OF_FIELD_DROP => "Modification.ONE_OF_FIELD_DROP"
  | FEW_FIELDS_CONVERTED_TO_ONE_OF => "Modification.FEW_FIELDS_CONVERTED_TO_ONE_OF"
  | _ => "Modification"
  end.

(** [ModificationRecord]: the message is a function of the modification. *)
Record ModificationRecord : Type := mkRecord { modification : Modification; record_path : string }.

(** ** The elements of a file *)

Inductive Label : Type := OPTIONAL | REQUIRED | REPEATED | ONE_OF.
#[global] Instance Label_eq_dec : EqDecision Label.
Proof. solve_decision. Defined.

Record FieldElement : Type := mkField {
  field_label : option Label;
  element_type : string;
  field_name : string;
  field_tag : Z;
}.

Record OneOfElement : Type := mkOneOf { one_of_name : string; one_of_fields : list FieldElement }.
Record EnumConstantElement : Type := mkConstant { constant_name : string; constant_tag : Z }.

(** [TypeElement] and its two subclasses; the first four arguments are the location (its
    identity), the name, the documentation and the texts of the options. *)
Inductive TypeElement : Type :=
  | MessageElement (location : N) (name documentation : string) (options : list string)
      (nested_types : list TypeElement) (fields : list FieldElement) (one_ofs : list OneOfElement)
  | EnumElement (location : N) (name documentation : string) (options : list string)
      (constants : list EnumConstantElement).

Definition type_name (t : TypeElement) : string :=
  match t with MessageElement _ n _ _ _ _ _ | EnumElement _ n _ _ _ => n end.
Definition nested_types_of (t : TypeElement) : list TypeElement :=
  match t with MessageElement _ _ _ _ l _ _ => l | EnumElement _ _ _ _ _ => [] end.
Definition is_message (t : TypeElement) : bool :=
  match t with MessageElement _ _ _ _ _ _ _ => true | EnumElement _ _ _ _ _ => false end.
Definition is_enum (t : TypeElement) : bool := negb (is_message t).

Definition options_eqb (a b : list string) : bool := bool_decide (a = b).

(** The [__eq__] of the dataclass [TypeElement], which its subclasses inherit: same class, and
    equal location, name, documentation, options and nested types; fields, oneofs and constants
    are not compared. *)
Fixpoint type_eqb (a b : TypeElement) {struct a} : bool :=
  match a, b with
  | MessageElement l n d o nt _ _, MessageElement l' n' d' o' nt' _ _ =>
      N.eqb l l' && String.eqb n n' && String.eqb d d' && options_eqb o o' &&
      (fix go l l' := match l, l' with
        | [], [] => true
        | x :: l, y :: l' => type_eqb x y && go l l'
        | _, _ => false
        end) nt nt'
  | EnumElement l n d o _, EnumElement l' n' d' o' _ =>
      N.eqb l l' && String.eqb n n' && String.eqb d d' && options_eqb o o'
  | _, _ => false
  end.

(** ** proto_type.py *)

Inductive ProtoType : Type :=
  mkProtoType (is_scalar : bool) (text : string) (map_types : option (ProtoType * ProtoType)).

Definition pt_is_scalar (t : ProtoType) : bool := let '(mkProtoType b _ _) := t in b.
Definition pt_string (t : ProtoType) : string := let '(mkProtoType _ s _) := t in s.
Definition pt_map (t : ProtoType) : option (ProtoType * ProtoType) := let '(mkProtoType _ _ m) := t in m.
Definition is_map (t : ProtoType) : bool := match pt_map t with Some _ => true | None => false end.

Definition SCALAR_TYPES : list string :=
  ["bool"; "bytes"; "double"; "float"; "fixed32"; "fixed64"; "int32"; "int64"; "sfixed32";
   "sfixed64"; "sint32"; "sint64"; "string"; "uint32"; "uint64"]%string.
Definition is_scalar_name (name : string) : bool := existsb (String.eqb name) SCALAR_TYPES.

(** [ProtoType(False, string, key_type, value_type)] *)
Definition map_type_of (text : string) (key_type value_type : ProtoType) : result ProtoType :=
  if pt_is_scalar key_type
     && negb (existsb (String.eqb (pt_string key_type)) ["bytes"; "double"; "float"]%string)
  then Ok (mkProtoType false text (Some (key_type, value_type)))
  else Raise IllegalArgumentException.

(** [s.rfind(c)] *)
Fixpoint rfind (c : ascii) (s : string) : option nat :=
  match s with
  | EmptyString => None
  | String d s' =>
      match rfind c s' with
      | Some i => Some (S i)
      | None => if Ascii.eqb c d then Some O else None
      end
  end.
Definition string_reverse (s : string) : string :=
  String.string_of_list_ascii (rev (String.list_ascii_of_string s)).
Definition strip (s : string) : string := string_reverse (lstrip (string_reverse (lstrip s))).
Definition drop_chars (n : nat) (s : string) : string := String.substring n (String.length s - n) s.
Definition endswith (suffix s : string) : bool :=
  String.prefix (string_reverse suffix) (string_reverse s).

(** [ProtoType.get2]; the fuel is the length of the name, which the parts of a map are below. *)
Fixpoint get2_fuel (fuel : nat) (name : string) : result ProtoType :=
  match fuel with
  | O => Raise RecursionError
  | S fuel =>
      if is_scalar_name name then Ok (mkProtoType true name None)
      else if String.eqb name "" || match rfind "#"%char name with Some _ => true | None => false end
      then Raise IllegalArgumentException
      else if String.prefix "map<" name && endswith ">" name then
        match rfind ","%char name with
        | None => Raise IllegalArgumentException
        | Some comma =>
            key ← get2_fuel fuel (strip (String.substring 4 (comma - 4) name));
            value ← get2_fuel fuel (strip (String.substring (comma + 1) (String.length name - 1 - (comma + 1)) name));
            map_type_of name key value
        end
      else Ok (mkProtoType false name None)
  end.
Definition get2 (name : string) : result ProtoType := get2_fuel (S (String.length name)) name.

Definition simple_name (t : ProtoType) : string :=
  match rfind "."%char (pt_string t) with
  | Some dot => drop_chars (S dot) (pt_string t)
  | None => pt_string t
  end.

Inductive CompatibilityKind : Type :=
  | VARIANT | SVARIANT | FIXED64 | LENGTH_DELIMITED | FIXED32 | DOUBLE | FLOAT.
#[global] Instance CompatibilityKind_eq_dec : EqDecision CompatibilityKind.
Proof. solve_decision. Defined.

Definition kind_table : list (string * CompatibilityKind) :=
  [("int32", VARIANT); ("int64", VARIANT); ("uint32", VARIANT); ("uint64", VARIANT); ("bool", VARIANT);
   ("sint32", SVARIANT); ("sint64", SVARIANT); ("double", DOUBLE); ("fixed64", FIXED64);
   ("sfixed64", FIXED64); ("float", FLOAT); ("fixed32", FIXED32); ("sfixed32", FIXED32);
   ("string", LENGTH_DELIMITED); ("bytes", LENGTH_DELIMITED)]%string.

Definition compatibility_kind (t : ProtoType) (is_enum : bool) : result CompatibilityKind :=
  if is_enum then Ok VARIANT
  else match dget (simple_name t) kind_table with
       | Some k => Ok k
       | None => Raise IllegalArgumentException
       end.

(** The kinds a change of label alters. *)
Definition label_matters (k : CompatibilityKind) : bool := negb (bool_decide (k = LENGTH_DELIMITED)).

(** ** compare_type_storage.py *)

(** [TypeRecord]; a [TypeRecordMap] also has the key and value fields. *)
Record TypeRecord : Type := mkTypeRecord {
  record_package : option string;
  type_element : TypeElement;
  map_fields : option (option FieldElement * option FieldElement);
}.

(** The [CompareResult] and the [CompareTypes] of one comparison. *)
Record Comparison : Type := mkComparison {
  cmp_result : list ModificationRecord;
  cmp_path : list string;
  cmp_canonical_name : list string;
  self_package_name : string;
  other_package_name : string;
  self_types : dict string TypeRecord;
  other_types : dict string TypeRecord;
  locked_messages : list TypeElement;
}.

Definition set_result (r : list ModificationRecord) (c : Comparison) : Comparison :=
  mkComparison r (cmp_path c) (cmp_canonical_name c) (self_package_name c) (other_package_name c)
    (self_types c) (other_types c) (locked_messages c).
Definition set_paths (p n : list string) (c : Comparison) : Comparison :=
  mkComparison (cmp_result c) p n (self_package_name c) (other_package_name c)
    (self_types c) (other_types c) (locked_messages c).
Definition set_self_types (t : dict string TypeRecord) (c : Comparison) : Comparison :=
  mkComparison (cmp_result c) (cmp_path c) (cmp_canonical_name c) (self_package_name c)
    (other_package_name c) t (other_types c) (locked_messages c).
Definition set_other_types (t : dict string TypeRecord) (c : Comparison) : Comparison :=
  mkComparison (cmp_result c) (cmp_path c) (cmp_canonical_name c) (self_package_name c)
    (other_package_name c) (self_types c) t (locked_messages c).
Definition set_locked (l : list TypeElement) (c : Comparison) : Comparison :=
  mkComparison (cmp_result c) (cmp_path c) (cmp_canonical_name c) (self_package_name c)
    (other_package_name c) (self_types c) (other_types c) l.

Abbreviation Cmp := (M Comparison) (only parsing).

(** [CompareResult.push_path], [pop_path] and [add_modification]; [list.pop] removes the last
    element and raises on an empty list. *)
Definition push_path (name_element : string) (canonical : bool) : Cmp () :=
  modify (fun c => set_paths (cmp_path c ++ [name_element])
    (if canonical then cmp_canonical_name c ++ [name_element] else cmp_canonical_name c) c).

Definition list_pop {A} (l : list A) : result (list A) :=
  match l with [] => Raise IndexError | _ => Ok (removelast l) end.

Definition pop_path (canonical : bool) : Cmp () :=
  c ← gets (fun c => c);
  names ← lift (if canonical then list_pop (cmp_canonical_name c) else Ok (cmp_canonical_name c));
  path ← lift (list_pop (cmp_path c));
  modify (set_paths path names).

Definition add_modification (m : Modification) : Cmp () :=
  modify (fun c => set_result (cmp_result c ++ [mkRecord m (join_with "." (cmp_path c))]) c).

Definition result_is_compatible (records : list ModificationRecord) : bool :=
  forallb (fun r => modification_is_compatible (modification r)) records.

(** [compute_name]: the innermost scope of the path in which the name is known. *)
Fixpoint pretender (n : nat) (canonical_name : list string) (text : string) (types : dict string TypeRecord)
  : option string :=
  match n with
  | O => None
  | S n' =>
      let name := join_with "." (take n canonical_name) +:+ "." +:+ text in
      if din name types then Some name else pretender n' canonical_name text types
  end.

Definition compute_name (t : ProtoType) (result_path : list string) (package_name : string)
  (types : dict string TypeRecord) : option string :=
  let text := pt_string t in
  if String.prefix "." text then
    let name := drop_chars 1 text in
    if din name types then Some name else None
  else
    let canonical_name := if String.eqb package_name "" then result_path else package_name :: result_path in
    match pretender (length canonical_name) canonical_name text types with
    | Some name => Some name
    | None => if din text types then Some text else None
    end.

(** [prefix + "." + name] when the prefix is truthy. *)
Definition scoped (prefix : option string) (name : string) : string :=
  match prefix with
  | Some p => if String.eqb p "" then name else p +:+ "." +:+ name
  | None => name
  end.

Definition find_field (name : string) (fields : list FieldElement) : option FieldElement :=
  List.find (fun f => String.eqb (field_name f) name) fields.

Definition type_record (package_name : option string) (t : TypeElement) : TypeRecord :=
  match t with
  | MessageElement _ _ _ options _ fields _ =>
      if existsb (String.eqb "map_entry") options
      then mkTypeRecord package_name t (Some (find_field "key" fields, find_field "value" fields))
      else mkTypeRecord package_name t None
  | EnumElement _ _ _ _ _ => mkTypeRecord package_name t None
  end.

(** [add_a_type]: the type and the types nested in it. *)
Fixpoint add_a_type (prefix package_name : option string) (t : TypeElement) (types : dict string TypeRecord)
  : dict string TypeRecord :=
  let name := scoped prefix (type_name t) in
  let types := dset name (type_record package_name t) types in
  match t with
  | MessageElement _ _ _ _ nested_types _ _ =>
      (fix go l types := match l with
        | [] => types
        | nested :: l => go l (add_a_type (Some name) package_name nested types)
        end) nested_types types
  | EnumElement _ _ _ _ _ => types
  end.

Definition add_self_type (package_name : option string) (t : TypeElement) : Cmp () :=
  modify (fun c => set_self_types (add_a_type package_name package_name t (self_types c)) c).
Definition add_other_type (package_name : option string) (t : TypeElement) : Cmp () :=
  modify (fun c => set_other_types (add_a_type package_name package_name t (other_types c)) c).

Definition self_name (t : ProtoType) (c : Comparison) : option string :=
  compute_name t (cmp_path c) (self_package_name c) (self_types c).
Definition other_name (t : ProtoType) (c : Comparison) : option string :=
  compute_name t (cmp_path c) (other_package_name c) (other_types c).

Definition get_self_type (t : ProtoType) (c : Comparison) : option TypeRecord :=
  name ← self_name t c; dget name (self_types c).
Definition get_other_type (t : ProtoType) (c : Comparison) : option TypeRecord :=
  name ← other_name t c; dget name (other_types c).

(** The name without the package of its record. *)
Definition short_name (name : option string) (types : dict string TypeRecord) : result string :=
  match name with
  | None => Raise IllegalArgumentException
  | Some name =>
      match dget name types with
      | None => Raise AttributeError
      | Some r =>
          Ok (match record_package r with
              | None => name
              | Some package =>
                  if String.prefix package name then drop_chars (String.length package + 1) name else name
              end)
      end
  end.
Definition self_type_short_name (t : ProtoType) (c : Comparison) : result string :=
  short_name (self_name t c) (self_types c).
Definition other_type_short_name (t : ProtoType) (c : Comparison) : result string :=
  short_name (other_name t c) (other_types c).

(** [lock_message] and [unlock_message]: membership is by [__eq__]; [remove] takes the first. *)
Definition is_locked (message : TypeElement) (c : Comparison) : bool :=
  existsb (type_eqb message) (locked_messages c).
Definition lock_message (message : TypeElement) : Cmp bool :=
  locked ← gets (is_locked message);
  if locked : bool then mret false
  else _ ← modify (fun c => set_locked (locked_messages c ++ [message]) c); mret true.

Fixpoint remove_first (message : TypeElement) (l : list TypeElement) : list TypeElement :=
  match l with
  | [] => []
  | x :: l => if type_eqb message x then l else x :: remove_first message l
  end.
Definition unlock_message (message : TypeElement) : Cmp () :=
  modify (fun c => set_locked (remove_first message (locked_messages c)) c).

(** [TypeRecordMap.map_type] *)
Definition map_type (r : TypeRecord) : result ProtoType :=
  match map_fields r with
  | Some (Some key, Some value) => get2 ("map<" +:+ element_type key +:+ ", " +:+ element_type value +:+ ">")
  | _ => Raise AttributeError
  end.

(** ** The comparisons *)

(** What the methods call each other for: [TypeElement.compare], and [FieldElement.compare_type]
    for a field of the given label. *)
Inductive Task : Type :=
  | CompareElement (self other : TypeElement)
  | CompareType (label : option Label) (self_type other_type : ProtoType) (other_label : option Label).

(** [{f.tag: f for f in fields}] and the like: the last one with a key stays, in the first
    one's place. *)
Definition index_by {K V} `{!EqDecision K} (key : V -> K) (l : list V) : dict K V :=
  fold_left (fun d v => dset (key v) v d) l [].

(** [chain(a.keys(), b.keys() - a.keys())] *)
Definition all_keys {K V W} `{!EqDecision K} (a : dict K V) (b : dict K W) : list K :=
  dkeys a ++ List.filter (fun k => negb (din k a)) (dkeys b).

Definition tag_str (tag : Z) : string := pretty tag.

Section compare.
Context (rec : Task -> Cmp ()).

(** *** field_element.py *)

Definition compare_message (self_type other_type : ProtoType) : Cmp () :=
  c ← gets (fun c => c);
  match get_self_type self_type c, get_other_type other_type c with
  | Some self_record, Some other_record =>
      self_short ← lift (self_type_short_name self_type c);
      other_short ← lift (other_type_short_name other_type c);
      if negb (String.eqb self_short other_short) then add_modification FIELD_NAME_ALTER
      else rec (CompareElement (type_element self_record) (type_element other_record))
  | _, _ =>
      if negb (String.eqb (pt_string self_type) (pt_string other_type))
      then add_modification FIELD_TYPE_ALTER else mret ()
  end.

Definition compare_map (label : option Label) (self_map other_map : ProtoType) : Cmp () :=
  match pt_map self_map, pt_map other_map with
  | Some (self_key, self_value), Some (other_key, other_value) =>
      _ ← rec (CompareType label self_key other_key None);
      rec (CompareType label self_value other_value None)
  | _, _ => raise AssertionError
  end.

(** The type a record stands for: a map for a map entry. *)
Definition expand_map (t : ProtoType) (r : option TypeRecord) : result ProtoType :=
  match r with
  | Some r => match map_fields r with Some _ => map_type r | None => Ok t end
  | None => Ok t
  end.
Definition record_is_enum (r : option TypeRecord) : bool :=
  match r with Some r => is_enum (type_element r) | None => false end.

(** [compare_type] between two scalars or enums. *)
Definition compare_scalar (label : option Label) (self_type other_type : ProtoType) (self_is_enum other_is_enum : bool)
  (other_label : option Label) : Cmp () :=
  self_kind ← lift (compatibility_kind self_type self_is_enum);
  other_kind ← lift (compatibility_kind other_type other_is_enum);
  _ ← (if negb (bool_decide (label = other_label)) && label_matters self_kind
       then add_modification FIELD_LABEL_ALTER else mret ());
  if negb (bool_decide (self_kind = other_kind)) then add_modification FIELD_KIND_ALTER else mret ().

Definition compare_type (label : option Label) (self_type other_type : ProtoType)
  (other_label : option Label) : Cmp () :=
  c ← gets (fun c => c);
  let self_record := get_self_type self_type c in
  let other_record := get_other_type other_type c in
  self_type ← lift (expand_map self_type self_record);
  other_type ← lift (expand_map other_type other_record);
  let self_is_enum := record_is_enum self_record in
  let other_is_enum := record_is_enum other_record in
  let self_is_scalar := pt_is_scalar self_type || self_is_enum in
  let other_is_scalar := pt_is_scalar other_type || other_is_enum in
  if Bool.eqb self_is_scalar other_is_scalar && Bool.eqb (is_map self_type) (is_map other_type) then
    if is_map self_type then compare_map label self_type other_type
    else if self_is_scalar
    then compare_scalar label self_type other_type self_is_enum other_is_enum other_label
    else compare_message self_type other_type
  else add_modification FIELD_KIND_ALTER.

Definition field_compare (self other : FieldElement) : Cmp () :=
  _ ← (if negb (String.eqb (field_name self) (field_name other))
       then add_modification FIELD_NAME_ALTER else mret ());
  self_type ← lift (get2 (element_type self));
  other_type ← lift (get2 (element_type other));
  rec (CompareType (field_label self) self_type other_type (field_label other)).

(** *** one_of_element.py *)

(** One key of two indexed lists: only here, only there, or in both. *)
Definition compare_key {V} (self other : option V) (added dropped : Modification)
  (both : V -> V -> Cmp ()) : Cmp () :=
  match self, other with
  | None, _ => add_modification added
  | Some _, None => add_modification dropped
  | Some a, Some b => both a b
  end.

Definition one_of_compare (self other : OneOfElement) : Cmp () :=
  let self_tags := index_by field_tag (one_of_fields self) in
  let other_tags := index_by field_tag (one_of_fields other) in
  for_each (all_keys self_tags other_tags) (fun tag =>
    _ ← push_path (tag_str tag) false;
    _ ← compare_key (dget tag self_tags) (dget tag other_tags) ONE_OF_FIELD_ADD ONE_OF_FIELD_DROP field_compare;
    pop_path false).

(** *** enum_element.py *)

Definition constant_compare (self other : EnumConstantElement) : Cmp () :=
  if negb (String.eqb (constant_name self) (constant_name other))
  then add_modification ENUM_CONSTANT_ALTER else mret ().

Definition enum_compare (self_constants other_constants : list EnumConstantElement) : Cmp () :=
  let self_tags := index_by constant_tag self_constants in
  let other_tags := index_by constant_tag other_constants in
  for_each (all_keys self_tags other_tags) (fun tag =>
    _ ← push_path (tag_str tag) false;
    _ ← compare_key (dget tag self_tags) (dget tag other_tags) ENUM_CONSTANT_ADD ENUM_CONSTANT_DROP constant_compare;
    pop_path false).

(** *** message_element.py *)

(** The fields of one oneof of the other message leave the plain fields of this one. *)
Definition convert_fields (self_tags : dict Z FieldElement) (fields : list FieldElement)
  : dict Z FieldElement * nat :=
  fold_left (fun acc subfield =>
    if din (field_tag subfield) acc.1 then (ddel (field_tag subfield) acc.1, S acc.2) else acc)
    fields (self_tags, O).

Fixpoint convert_one_ofs (self_tags : dict Z FieldElement) (one_ofs : list OneOfElement)
  : Cmp (dict Z FieldElement) :=
  match one_ofs with
  | [] => mret self_tags
  | one_of :: one_ofs =>
      _ ← push_path (one_of_name one_of) false;
      let converted := convert_fields self_tags (one_of_fields one_of) in
      _ ← (if (1 <? converted.2)%nat then add_modification FEW_FIELDS_CONVERTED_TO_ONE_OF else mret ());
      _ ← pop_path false;
      convert_one_ofs converted.1 one_ofs
  end.

(** The field of this tag has another tag under the same name. *)
Definition tag_altered (tag : Z) (self_tags : dict Z FieldElement)
  (self_names other_names : dict string FieldElement) : option string :=
  field ← dget tag self_tags;
  if String.eqb (field_name field) "" then None
  else
    self_field ← dget (field_name field) self_names;
    other_field ← dget (field_name field) other_names;
    if Z.eqb (field_tag self_field) (field_tag other_field) then None else Some (field_name field).

Definition compare_tag (self_tags other_tags : dict Z FieldElement)
  (self_names other_names : dict string FieldElement) (tag : Z) : Cmp () :=
  _ ← push_path (tag_str tag) false;
  _ ← match tag_altered tag self_tags self_names other_names with
      | Some field_name =>
          _ ← pop_path false;
          _ ← push_path field_name false;
          _ ← add_modification FIELD_TAG_ALTER;
          _ ← pop_path false;
          push_path (tag_str tag) false
      | None => mret ()
      end;
  _ ← compare_key (dget tag self_tags) (dget tag other_tags) FIELD_ADD FIELD_DROP field_compare;
  pop_path false.

Definition compare_one_ofs (self_one_ofs other_one_ofs : dict string OneOfElement) (name : string) : Cmp () :=
  _ ← push_path name false;
  _ ← compare_key (dget name self_one_ofs) (dget name other_one_ofs) ONE_OF_ADD ONE_OF_DROP one_of_compare;
  pop_path false.

(** *** compare_type_lists.py *)

Definition add_modification_for (t : TypeElement) (message enum : Modification) : Cmp () :=
  add_modification (if is_message t then message else enum).

Definition compare_named (self_types other_types : dict string TypeElement) (name : string) : Cmp () :=
  _ ← push_path name true;
  _ ← match dget name self_types, dget name other_types with
      | None, None => mret ()
      | None, Some other => add_modification_for other MESSAGE_ADD ENUM_ADD
      | Some self, None => add_modification_for self MESSAGE_DROP ENUM_DROP
      | Some self, Some other =>
          if Bool.eqb (is_message self) (is_message other) then rec (CompareElement self other)
          else add_modification TYPE_ALTER
      end;
  pop_path true.

Definition compare_type_lists (self_types_list other_types_list : list TypeElement) : Cmp () :=
  _ ← for_each self_types_list (fun t =>
        package ← gets self_package_name; add_self_type (Some package) t);
  _ ← for_each other_types_list (fun t =>
        package ← gets other_package_name; add_other_type (Some package) t);
  let self_types := index_by type_name self_types_list in
  let other_types := index_by type_name other_types_list in
  for_each (all_keys self_types other_types) (compare_named self_types other_types).

Definition message_compare (self : TypeElement) (nested_types other_nested : list TypeElement)
  (fields other_fields : list FieldElement) (one_ofs other_one_ofs : list OneOfElement) : Cmp () :=
  locked ← lock_message self;
  if locked : bool then
    let other_tags := index_by field_tag other_fields in
    let self_names := index_by field_name fields in
    let other_names := index_by field_name other_fields in
    let self_one_ofs := index_by one_of_name one_ofs in
    let other_one_ofs' := index_by one_of_name other_one_ofs in
    self_tags ← convert_one_ofs (index_by field_tag fields) other_one_ofs;
    _ ← for_each (all_keys self_tags other_tags) (compare_tag self_tags other_tags self_names other_names);
    _ ← for_each (all_keys self_one_ofs other_one_ofs') (compare_one_ofs self_one_ofs other_one_ofs');
    _ ← compare_type_lists nested_types other_nested;
    unlock_message self
  else mret ().

(** [TypeElement.compare] of the class of [self]. *)
Definition element_compare (self other : TypeElement) : Cmp () :=
  match self, other with
  | MessageElement _ _ _ _ nested fields one_ofs, MessageElement _ _ _ _ nested' fields' one_ofs' =>
      message_compare self nested nested' fields fields' one_ofs one_ofs'
  | EnumElement _ _ _ _ constants, EnumElement _ _ _ _ constants' => enum_compare constants constants'
  | _, _ => add_modification TYPE_ALTER
  end.

Definition run_task (t : Task) : Cmp () :=
  match t with
  | CompareElement self other => element_compare self other
  | CompareType label self_type other_type other_label => compare_type label self_type other_type other_label
  end.
End compare.

Fixpoint run (fuel : nat) (t : Task) : Cmp () :=
  match fuel with
  | O => raise RecursionError
  | S fuel => run_task (run fuel) t
  end.

(** ** proto_file_element.py and checks.py *)

Record ProtoFileElement : Type := mkFile {
  package_name : option string;
  syntax : option string;
  types : list TypeElement;
}.

(** A parsed schema and the ones it depends on. *)
Inductive ProtobufSchema : Type :=
  mkSchema (proto_file_element : ProtoFileElement) (dependencies : option (list (string * ProtobufSchema))).

Definition proto_file_element (s : ProtobufSchema) : ProtoFileElement := let '(mkSchema f _) := s in f.
Definition dependencies (s : ProtobufSchema) : option (list (string * ProtobufSchema)) :=
  let '(mkSchema _ d) := s in d.

(** [_collect_dependencies_types]: the first dependency without dependencies of its own ends
    the loop it is in. *)
Fixpoint dependencies_types (s : ProtobufSchema) : list (option string * TypeElement) :=
  match s with
  | mkSchema _ None => []
  | mkSchema _ (Some deps) =>
      (fix go deps := match deps with
        | [] => []
        | (_, dep) :: deps =>
            map (fun t => (package_name (proto_file_element dep), t)) (types (proto_file_element dep)) ++
            match dependencies dep with
            | None => []
            | Some _ => dependencies_types dep ++ go deps
            end
        end) deps
  end.

Definition collect_dependencies_types (s : ProtobufSchema) (is_self : bool) : Cmp () :=
  for_each (dependencies_types s) (fun pt =>
    if is_self then add_self_type pt.1 pt.2 else add_other_type pt.1 pt.2).

Definition new_comparison (self other : ProtoFileElement) : Comparison :=
  mkComparison [] [] [] (default ""%string (package_name self)) (default ""%string (package_name other)) [] [] [].

Definition file_compare (fuel : nat) (self other : ProtobufSchema) : Cmp () :=
  let self_file := proto_file_element self in
  let other_file := proto_file_element other in
  _ ← (if negb (bool_decide (package_name self_file = package_name other_file))
       then add_modification PACKAGE_ALTER else mret ());
  _ ← (if negb (bool_decide (syntax self_file = syntax other_file))
       then add_modification SYNTAX_ALTER else mret ());
  _ ← collect_dependencies_types self true;
  _ ← collect_dependencies_types other false;
  compare_type_lists (run fuel) (types self_file) (types other_file).

Definition check_protobuf_schema_compatibility (fuel : nat) (reader writer : ProtobufSchema)
  : result SchemaCompatibilityResult :=
  match file_compare fuel writer reader (new_comparison (proto_file_element writer) (proto_file_element reader)) with
  | (_, Raise e) => Raise e
  | (c, Ok tt) =>
      let records := cmp_result c in
      if result_is_compatible records then Ok compatible_result
      else
        let bad := List.filter (fun r => negb (modification_is_compatible (modification r))) records in
        Ok (mkCompat incompatible (map (fun r => modification_str (modification r)) bad)
              (list_to_set (map record_path bad)))
  end.
