(* ===== verification/ProtobufSpec.v ===== *)
(** * Properties of the protobuf comparison

    The comparison threads one mutable state through methods that call each other: a call that
    returns leaves the path and the locks as it found them and only appends records ([frame]).
    From this, a positive answer about two files means that nothing a reader relies on was lost:
    every message of the writer is still there, and a field both have keeps its wire format. *)

From stdpp Require Import pretty.
From S2P Require Import Prelude Typing Models Compat Protobuf.
Open Scope Z_scope.

(** Induction that reaches the nested types. *)
Section TypeElement_ind'.
Variable P : TypeElement -> Prop.
Hypothesis Hmessage : forall l n d o nested fields one_ofs,
  Forall P nested -> P (MessageElement l n d o nested fields one_ofs).
Hypothesis Henum : forall l n d o constants, P (EnumElement l n d o constants).

Fixpoint TypeElement_ind' (t : TypeElement) : P t :=
  match t with
  | MessageElement l n d o nested fields one_ofs => Hmessage l n d o nested fields one_ofs
      ((fix go nested : Forall P nested :=
        match nested with
        | [] => List.Forall_nil _
        | x :: nested => List.Forall_cons _ _ _ (TypeElement_ind' x) (go nested)
        end) nested)
  | EnumElement l n d o constants => Henum l n d o constants
  end.
End TypeElement_ind'.

Lemma type_eqb_refl t : type_eqb t t = true.
Proof.
  assert (Ho : forall o, options_eqb o o = true) by (intros o; by apply bool_decide_eq_true).
  induction t as [l n d o nested fields one_ofs IH|l n d o constants] using TypeElement_ind';
    simpl; rewrite N.eqb_refl, !String.eqb_refl, Ho; simpl; [|done].
  induction IH as [|x nested Hx _ IH]; [done|]. by rewrite Hx.
Qed.

Lemma index_by_Forall {A V} `{!EqDecision A} (key : V -> A) (P : V -> Prop) l k v :
  Forall P l -> dget k (index_by key l) = Some v -> P v.
Proof.
  intros Hl Hv. apply dget_In in Hv. revert Hv. unfold index_by.
  cut (forall acc : dict A V, (forall kv, kv ∈ acc -> P kv.2) ->
    forall kv, kv ∈ fold_left (fun d v => dset (key v) v d) l acc -> P kv.2).
  { intros Hc. apply (Hc [] ltac:(set_solver) (k, v)). }
  induction Hl as [|x l Hx Hl IH]; simpl; [done|]. intros acc Hacc. apply IH. clear -Hacc Hx.
  induction acc as [|[k' v'] acc IHa]; simpl.
  - intros kv ->%list_elem_of_singleton. done.
  - case_decide; intros kv [->|Hin]%elem_of_cons; try done.
    + apply Hacc. by right.
    + apply Hacc. by left.
    + apply IHa; [|done]. intros kv' Hkv'. apply Hacc. by right.
Qed.

(** ** Frames *)

(** What a call that returns may change: the records, by appending, and the tables of types. *)
Record frame (c c' : Comparison) : Prop := mkFrame {
  frame_path : cmp_path c' = cmp_path c;
  frame_names : cmp_canonical_name c' = cmp_canonical_name c;
  frame_locks : locked_messages c' = locked_messages c;
  frame_self_package : self_package_name c' = self_package_name c;
  frame_other_package : other_package_name c' = other_package_name c;
  frame_records : cmp_result c `prefix_of` cmp_result c';
}.

#[global] Instance frame_preorder : PreOrder frame.
Proof.
  split; [by intros c; split|].
  intros a b c [H1 H2 H3 H4 H5 H6] [K1 K2 K3 K4 K5 K6]. split; try congruence. by etrans.
Qed.

(** The element and name predicates a table of types may satisfy: closed under nesting, and
    implied for every name a type is registered under. *)
Class TypePredicate (F : TypeElement -> Prop) (K : string -> Prop) : Prop := {
  predicate_nested : forall t, F t -> Forall F (nested_types_of t);
  predicate_name : forall t prefix, F t -> K (scoped prefix (type_name t));
}.

Section frames.
Context (F : TypeElement -> Prop) (K : string -> Prop) `{!TypePredicate F K}.

Definition table_ok (types : dict string TypeRecord) : Prop :=
  Forall (fun kr => K kr.1 /\ F (type_element kr.2)) types.
Definition tables_ok (c : Comparison) : Prop := table_ok (self_types c) /\ table_ok (other_types c).

(** [framed m]: a run of [m] that returns is a frame and keeps the tables. *)
Definition framed {A} (m : M Comparison A) : Prop := forall c c' a,
  tables_ok c -> m c = (c', Ok a) -> frame c c' /\ tables_ok c'.

Lemma framed_ret {A} (a : A) : framed (mret a).
Proof. by intros c c' b Ht [= <- <-]. Qed.

Lemma framed_bind {A B} (m : M Comparison A) (f : A -> M Comparison B) :
  framed m -> (forall a, framed (f a)) -> framed (m ≫= f).
Proof.
  intros Hm Hf c c' b Ht (a & c1 & H1 & H2)%M_bind_Ok.
  destruct (Hm _ _ _ Ht H1) as [Hf1 Ht1]. destruct (Hf _ _ _ _ Ht1 H2) as [Hf2 Ht2].
  split; [by etrans|done].
Qed.

Lemma framed_gets {A B} (g : Comparison -> A) (f : A -> M Comparison B) :
  (forall c, tables_ok c -> framed (f (g c))) -> framed (gets g ≫= f).
Proof.
  intros Hf c c' b Ht (a & c1 & [= <- <-] & H2)%M_bind_Ok. by apply (Hf c Ht _ _ _ Ht H2).
Qed.

Lemma framed_lift {A} (r : result A) : framed (lift r).
Proof. by intros c c' a Ht [= <- _]. Qed.

Lemma framed_raise {A} e : framed (raise (A := A) e).
Proof. by intros c c' a. Qed.

Lemma framed_add (m : Modification) : framed (add_modification m).
Proof.
  intros c c' a Ht [= <- _]. split; [|done]. split; try done. simpl. by apply prefix_app_r.
Qed.

Lemma framed_for_each {A} (l : list A) (f : A -> M Comparison ()) :
  (forall x, x ∈ l -> framed (f x)) -> framed (for_each l f).
Proof.
  induction l as [|x l IH]; intros Hf; simpl; [apply framed_ret|].
  apply framed_bind; [apply Hf; set_solver|intros _; apply IH; set_solver].
Qed.

Lemma set_paths_id (c : Comparison) : set_paths (cmp_path c) (cmp_canonical_name c) c = c.
Proof. by destruct c. Qed.

(** What [pop_path] does after [push_path] and a frame. *)
Lemma pop_after_push c c' x (canonical : bool) c'' a :
  frame (set_paths (cmp_path c ++ [x])
    (if canonical then cmp_canonical_name c ++ [x] else cmp_canonical_name c) c) c' ->
  pop_path canonical c' = (c'', Ok a) -> c'' = set_paths (cmp_path c) (cmp_canonical_name c) c'.
Proof.
  intros [Hp Hn _ _ _ _]. simpl in Hp, Hn. unfold pop_path, mbind, M_bind, gets, lift. rewrite Hp, Hn.
  assert (Hpop : forall A (l : list A) y, list_pop (l ++ [y]) = Ok l).
  { intros A l y. unfold list_pop. rewrite removelast_last. by destruct l. }
  destruct canonical; rewrite !Hpop; by intros [= <- _].
Qed.

Lemma framed_bracket {A} x canonical (m : M Comparison A) :
  framed m -> framed (_ ← push_path x canonical; _ ← m; pop_path canonical).
Proof.
  intros Hm c c' a Ht (u & c1 & [= <- _] & H2)%M_bind_Ok.
  apply M_bind_Ok in H2 as (b & c2 & H2 & H3).
  destruct (Hm _ _ _ (conj (proj1 Ht) (proj2 Ht) : tables_ok (set_paths _ _ c)) H2) as [Hf Ht2].
  pose proof (pop_after_push _ _ _ _ _ _ Hf H3) as ->. split; [|done].
  destruct Hf as [_ _ Hl Hs Ho Hr]. by split.
Qed.

Lemma table_ok_dset k r types : K k -> F (type_element r) -> table_ok types -> table_ok (dset k r types).
Proof.
  intros Hk Hr. induction 1 as [|[k' r'] types Hx Ht IH]; simpl; [by repeat constructor|].
  case_decide; by constructor.
Qed.

Lemma type_element_record p t : type_element (type_record p t) = t.
Proof. destruct t as [l n d o nested f one|]; [|done]. unfold type_record. by destruct (existsb _ o). Qed.

Lemma add_a_type_message prefix package l n d o nested fields one_ofs types :
  add_a_type prefix package (MessageElement l n d o nested fields one_ofs) types =
  fold_left (fun types x => add_a_type (Some (scoped prefix n)) package x types) nested
    (dset (scoped prefix n) (type_record package (MessageElement l n d o nested fields one_ofs)) types).
Proof.
  cbn [add_a_type type_name]. generalize (dset (scoped prefix n)
    (type_record package (MessageElement l n d o nested fields one_ofs)) types) as types'.
  induction nested as [|x nested IH]; intros types'; simpl; [done|]. apply IH.
Qed.

Lemma add_a_type_ok prefix package t types : F t -> table_ok types ->
  table_ok (add_a_type prefix package t types).
Proof.
  revert prefix types. induction t as [l n d o nested fields one_ofs IH|l n d o constants] using TypeElement_ind';
    intros prefix types Ht Htypes.
  - pose proof (predicate_nested _ Ht) as Hn. simpl in Hn.
    rewrite add_a_type_message. assert (Hs : table_ok (dset (scoped prefix n)
      (type_record package (MessageElement l n d o nested fields one_ofs)) types)).
    { apply table_ok_dset; [by apply (predicate_name _ prefix Ht)|by rewrite type_element_record|done]. }
    revert Hs. generalize (dset (scoped prefix n)
      (type_record package (MessageElement l n d o nested fields one_ofs)) types) as types'.
    clear Ht Htypes. induction IH as [|x nested Hx _ IH]; intros types' Ht; [done|].
    apply Forall_cons in Hn as [Hfx Hn]. simpl. apply IH; [done|]. by apply Hx.
  - simpl. apply table_ok_dset; [by apply (predicate_name _ prefix Ht)|done|done].
Qed.

Lemma framed_add_self package t : F t -> framed (add_self_type package t).
Proof.
  intros Ht c c' a [Hs Ho] [= <- _]. split; [by split|]. split; [by apply add_a_type_ok|done].
Qed.
Lemma framed_add_other package t : F t -> framed (add_other_type package t).
Proof.
  intros Ht c c' a [Hs Ho] [= <- _]. split; [by split|]. split; [done|by apply add_a_type_ok].
Qed.

Lemma table_ok_dget k types r : table_ok types -> dget k types = Some r -> K k /\ F (type_element r).
Proof. unfold table_ok. rewrite Forall_forall. intros Ht Hr%dget_In. by apply Ht in Hr. Qed.

Lemma get_self_type_ok t c r : tables_ok c -> get_self_type t c = Some r -> F (type_element r).
Proof. intros [Hs _] (n & _ & Hr)%bind_Some. apply (table_ok_dget _ _ _ Hs Hr). Qed.
Lemma get_other_type_ok t c r : tables_ok c -> get_other_type t c = Some r -> F (type_element r).
Proof. intros [_ Hs] (n & _ & Hr)%bind_Some. apply (table_ok_dget _ _ _ Hs Hr). Qed.

(** *** Every comparison is framed, given that the ones it calls are *)

Definition task_ok (t : Task) : Prop :=
  match t with CompareElement a b => F a /\ F b | CompareType _ _ _ _ => True end.

Section step.
Context (rec : Task -> M Comparison ()).
Hypothesis Hrec : forall t, task_ok t -> framed (rec t).

Lemma framed_if (b : bool) (m : M Comparison ()) : framed m -> framed (if b then m else mret ()).
Proof. destruct b; [done|]. intros _. apply framed_ret. Qed.

Lemma compare_message_framed s o : framed (compare_message rec s o).
Proof.
  apply framed_gets. intros c Ht. destruct (get_self_type s c) as [sr|] eqn:Es; [|apply framed_if, framed_add].
  destruct (get_other_type o c) as [r|] eqn:Eo; [|apply framed_if, framed_add].
  apply framed_bind; [apply framed_lift|intros ss]. apply framed_bind; [apply framed_lift|intros os].
  destruct (negb _); [apply framed_add|]. apply Hrec.
  split; [by eapply get_self_type_ok|by eapply get_other_type_ok].
Qed.

Lemma compare_type_framed l s o l' : framed (compare_type rec l s o l').
Proof.
  apply framed_gets. intros c Ht. apply framed_bind; [apply framed_lift|intros s'].
  apply framed_bind; [apply framed_lift|intros o']. cbv zeta. destruct (_ && _); [|apply framed_add].
  destruct (is_map s').
  - unfold compare_map. destruct (pt_map s') as [[]|]; [|apply framed_raise].
    destruct (pt_map o') as [[]|]; [|apply framed_raise].
    apply framed_bind; [by apply Hrec|intros _; by apply Hrec].
  - destruct (_ || _); [|apply compare_message_framed].
    do 2 (apply framed_bind; [apply framed_lift|intros ?]).
    apply framed_bind; [apply framed_if, framed_add|intros _; apply framed_if, framed_add].
Qed.

Lemma field_compare_framed a b : framed (field_compare rec a b).
Proof.
  apply framed_bind; [apply framed_if, framed_add|intros _].
  do 2 (apply framed_bind; [apply framed_lift|intros ?]). by apply Hrec.
Qed.

Lemma compare_key_framed {V} (a b : option V) m m' both :
  (forall x y, a = Some x -> b = Some y -> framed (both x y)) -> framed (compare_key a b m m' both).
Proof. intros Hb. destruct a, b; simpl; auto using framed_add. Qed.

Lemma one_of_compare_framed a b : framed (one_of_compare rec a b).
Proof.
  apply framed_for_each. intros tag _. apply framed_bracket, compare_key_framed. intros. apply field_compare_framed.
Qed.

Lemma enum_compare_framed a b : framed (enum_compare a b).
Proof.
  apply framed_for_each. intros tag _. apply framed_bracket, compare_key_framed. intros. apply framed_if, framed_add.
Qed.

Lemma convert_one_ofs_framed tags l : framed (convert_one_ofs tags l).
Proof.
  revert tags. induction l as [|x l IH]; intros tags; simpl; [apply framed_ret|].
  intros c c' a Ht (u & c1 & Hc1 & H2)%M_bind_Ok.
  apply M_bind_Ok in H2 as (u2 & c2 & Hc2 & H3). apply M_bind_Ok in H3 as (u3 & c3 & Hc3 & H4).
  destruct (framed_bracket (one_of_name x) false (if (1 <? (convert_fields tags (one_of_fields x)).2)%nat
    then add_modification FEW_FIELDS_CONVERTED_TO_ONE_OF else mret ()) (framed_if _ _ (framed_add _)) c c3 u3 Ht)
    as [Hf Ht3].
  { unfold mbind, M_bind in *. by rewrite Hc1, Hc2. }
  destruct (IH _ _ _ _ Ht3 H4) as [Hf' Ht']. split; [by etrans|done].
Qed.

Lemma compare_tag_framed st ot sn on tag : framed (compare_tag rec st ot sn on tag).
Proof.
  unfold compare_tag. destruct (tag_altered tag st sn on) as [f|].
  - intros c c' a Ht (u & c1 & [= <- _] & H2)%M_bind_Ok. apply M_bind_Ok in H2 as (u2 & c2 & H2 & H3).
    set (c1 := set_paths _ _ _) in H2. apply M_bind_Ok in H2 as (u3 & c3 & Hpop & H2).
    pose proof (pop_after_push c c1 (tag_str tag) false c3 u3 (reflexivity c1) Hpop) as ->.
    apply M_bind_Ok in H2 as (u4 & c4 & Hpush & H2). apply M_bind_Ok in H2 as (u5 & c5 & Hadd & H2).
    apply M_bind_Ok in H2 as (u6 & c6 & Hpop' & Hpush').
    destruct (framed_bracket f false (add_modification FIELD_TAG_ALTER) (framed_add _)
      (set_paths (cmp_path c) (cmp_canonical_name c) c1) c6 u6 Ht) as [Hf Ht6].
    { unfold mbind, M_bind. by rewrite Hpush, Hadd. }
    destruct (framed_bracket (tag_str tag) false (compare_key (dget tag st) (dget tag ot) FIELD_ADD FIELD_DROP
      (field_compare rec)) (compare_key_framed _ _ _ _ _ (fun x y _ _ => field_compare_framed x y)) c6 c' a Ht6) as [Hf' Ht'].
    { unfold mbind, M_bind in *. by rewrite Hpush'. }
    split; [|done]. etrans; [|exact Hf']. etrans; [|exact Hf]. by split.
  - exact (framed_bracket (tag_str tag) false (compare_key (dget tag st) (dget tag ot) FIELD_ADD FIELD_DROP
      (field_compare rec)) (compare_key_framed _ _ _ _ _ (fun x y _ _ => field_compare_framed x y))).
Qed.

Lemma compare_named_framed st ot name :
  (forall k t, dget k st = Some t -> F t) -> (forall k t, dget k ot = Some t -> F t) ->
  framed (compare_named rec st ot name).
Proof.
  intros Hs Ho. apply framed_bracket. destruct (dget name st) as [a|] eqn:Ea, (dget name ot) as [b|] eqn:Eb;
    try apply framed_ret; try apply framed_add.
  destruct (Bool.eqb _ _); [apply Hrec; split; eauto|apply framed_add].
Qed.

Lemma add_types_framed (l : list TypeElement) (pkg : Comparison -> string) (add : option string -> TypeElement -> M Comparison ()) :
  (forall p t, F t -> framed (add p t)) -> Forall F l ->
  framed (for_each l (fun t => package ← gets pkg; add (Some package) t)).
Proof.
  intros Ha Hl. rewrite Forall_forall in Hl. apply framed_for_each. intros t Ht. apply framed_gets. auto.
Qed.

Lemma compare_type_lists_framed l l' : Forall F l -> Forall F l' -> framed (compare_type_lists rec l l').
Proof.
  intros Hl Hl'. unfold compare_type_lists.
  apply framed_bind; [apply add_types_framed; auto using framed_add_self|intros _].
  apply framed_bind; [apply add_types_framed; auto using framed_add_other|intros _].
  apply framed_for_each. intros name _. apply compare_named_framed; intros k t Hkt;
    by apply (index_by_Forall type_name F) in Hkt.
Qed.

Lemma remove_first_last t l : existsb (type_eqb t) l = false -> remove_first t (l ++ [t]) = l.
Proof.
  induction l as [|x l IH]; simpl; [by rewrite type_eqb_refl|].
  destruct (type_eqb t x); [done|]. simpl. intros Hl. by rewrite IH.
Qed.

(** What [message_compare] runs between locking and unlocking. *)
Definition message_body (nested nested' : list TypeElement) (fields fields' : list FieldElement)
  (one_ofs one_ofs' : list OneOfElement) : M Comparison () :=
  self_tags ← convert_one_ofs (index_by field_tag fields) one_ofs';
  _ ← for_each (all_keys self_tags (index_by field_tag fields')) (compare_tag rec self_tags
        (index_by field_tag fields') (index_by field_name fields) (index_by field_name fields'));
  _ ← for_each (all_keys (index_by one_of_name one_ofs) (index_by one_of_name one_ofs'))
        (compare_one_ofs rec (index_by one_of_name one_ofs) (index_by one_of_name one_ofs'));
  compare_type_lists rec nested nested'.

Lemma message_body_framed nested nested' fields fields' one_ofs one_ofs' :
  Forall F nested -> Forall F nested' ->
  framed (message_body nested nested' fields fields' one_ofs one_ofs').
Proof.
  intros Hn Hn'. apply framed_bind; [apply convert_one_ofs_framed|intros tags].
  apply framed_bind; [apply framed_for_each; intros; apply compare_tag_framed|intros _].
  apply framed_bind; [|intros _; by apply compare_type_lists_framed].
  apply framed_for_each. intros name _. apply framed_bracket, compare_key_framed. intros. apply one_of_compare_framed.
Qed.

(** A message already being compared is skipped; otherwise its parts are compared under its
    lock. *)
Lemma message_compare_cases self nested nested' fields fields' one_ofs one_ofs' c c' a :
  message_compare rec self nested nested' fields fields' one_ofs one_ofs' c = (c', Ok a) ->
  (is_locked self c = true /\ c' = c) \/
  (is_locked self c = false /\ exists c1, message_body nested nested' fields fields' one_ofs one_ofs'
      (set_locked (locked_messages c ++ [self]) c) = (c1, Ok tt) /\
    c' = set_locked (remove_first self (locked_messages c1)) c1).
Proof.
  unfold message_compare, lock_message. intros (b & c1 & H1 & H2)%M_bind_Ok.
  apply M_bind_Ok in H1 as (locked & c0 & [= <- <-] & H1).
  destruct (is_locked self c) eqn:E; [injection H1 as <- <-; injection H2 as <-; by left|right].
  apply M_bind_Ok in H1 as (u & c2 & [= <-] & [= <- <-]). split; [done|].
  apply M_bind_Ok in H2 as (tags & c3 & H3 & H4). apply M_bind_Ok in H4 as ([] & c4 & H4 & H5).
  apply M_bind_Ok in H5 as ([] & c5 & H5 & H6). apply M_bind_Ok in H6 as ([] & c6 & H6 & H7).
  exists c6. split; [|by injection H7 as <-]. unfold message_body, mbind, M_bind in *.
  by rewrite H3, H4, H5.
Qed.

Lemma element_compare_framed a b : F a -> F b -> framed (element_compare rec a b).
Proof.
  intros Ha%predicate_nested Hb%predicate_nested.
  destruct a as [l n d o nested fields one_ofs|], b as [l' n' d' o' nested' fields' one_ofs'|];
    simpl; try apply framed_add; [|apply enum_compare_framed].
  intros c c' u Ht [[_ ->]|(Hl & c1 & Hb1 & ->)]%message_compare_cases; [done|].
  destruct (message_body_framed _ _ fields fields' one_ofs one_ofs' Ha Hb _ _ _
    (conj (proj1 Ht) (proj2 Ht) : tables_ok (set_locked _ c)) Hb1) as [[H1 H2 H3 H4 H5 H6] Ht1].
  split; [|done]. split; try done. simpl in *. rewrite H3. by apply remove_first_last.
Qed.

Lemma run_task_framed t : task_ok t -> framed (run_task rec t).
Proof. destruct t; simpl; [intros []; by apply element_compare_framed|intros; apply compare_type_framed]. Qed.
End step.

Lemma run_framed fuel t : task_ok t -> framed (run fuel t).
Proof.
  revert t. induction fuel as [|fuel IH]; intros t Ht; simpl; [apply framed_raise|]. by apply run_task_framed.
Qed.
End frames.

#[global] Instance any_type : TypePredicate (fun _ => True) (fun _ => True).
Proof. split; [|done]. intros t _. by apply Forall_true. Qed.

(** A comparison of two elements or of two field types that returns restores the path, the
    canonical name and the locks it was called with, and only appends to the records. *)
Theorem protobuf_comparison_framed fuel t c c' :
  run fuel t c = (c', Ok tt) -> frame c c'.
Proof.
  intros H. eapply (run_framed (fun _ => True) (fun _ => True)); [|split|exact H]; try by apply Forall_true.
  by destruct t.
Qed.

Definition point (kind : string) (fields : list FieldElement) : TypeElement :=
  MessageElement 1 "Point" "" [] [EnumElement 2 "Unit" "" [] [mkConstant "METRE" 0]] (fields ++ [mkField None kind "y" 2]) [].

Lemma protobuf_comparison_framed_witness :
  let a := point "int32" [mkField None "Unit" "unit" 1] in
  let b := point "float" [mkField None "Unit" "unit" 1] in
  let c := mkComparison [] ["Point"%string] ["Point"%string] "" "" [] [] [] in
  match run 20 (CompareElement a b) c with
  | (c', Ok tt) => cmp_result c' = [mkRecord FIELD_KIND_ALTER "Point.2"] /\ frame c c'
  | _ => False
  end.
Proof.
  intros a b c. destruct (run 20 (CompareElement a b) c) as [c' r] eqn:E.
  assert (Er : r = Ok tt) by (apply (f_equal snd) in E; vm_compute in E; by rewrite <- E).
  subst r. split.
  - apply (f_equal fst) in E. simpl in E. rewrite <- E. vm_compute. reflexivity.
  - apply (protobuf_comparison_framed 20 (CompareElement a b)). exact E.
Defined.

(** ** Names of scalar types *)

Fixpoint contains_dot (s : string) : bool :=
  match s with EmptyString => false | String c s' => Ascii.eqb c "."%char || contains_dot s' end.

(** What follows the last dot. *)
Fixpoint last_segment (s : string) : string :=
  match s with
  | EmptyString => EmptyString
  | String c s' => if contains_dot s' then last_segment s' else if Ascii.eqb c "."%char then s' else s
  end.

Lemma last_segment_no_dot s : contains_dot s = false -> last_segment s = s.
Proof. destruct s as [|c s]; simpl; [done|]. intros [-> ->]%orb_false_iff. done. Qed.

Lemma contains_dot_app p s : contains_dot (p +:+ s) = contains_dot p || contains_dot s.
Proof. induction p as [|c p IH]; simpl; [done|]. rewrite IH. by rewrite orb_assoc. Qed.

Lemma last_segment_scoped p x : last_segment (p +:+ "." +:+ x) = last_segment x.
Proof.
  induction p as [|c p IH].
  - change (last_segment (String "." x) = last_segment x). simpl.
    destruct (contains_dot x) eqn:E; [reflexivity|]. symmetry. by apply last_segment_no_dot.
  - change (last_segment (String c (p +:+ "." +:+ x)) = last_segment x). simpl.
    rewrite contains_dot_app. simpl. rewrite orb_true_r. done.
Qed.

Lemma scalar_name_cases s : is_scalar_name s = true -> s ∈ SCALAR_TYPES.
Proof.
  unfold is_scalar_name. rewrite existsb_exists. intros (x & Hx & ->%String.eqb_eq). by apply list_elem_of_In.
Qed.

Lemma scalar_facts s : is_scalar_name s = true ->
  last_segment s = s /\ String.prefix "." s = false /\ exists k, dget s kind_table = Some k /\
  simple_name (mkProtoType true s None) = s.
Proof.
  intros Hs%scalar_name_cases. unfold SCALAR_TYPES in Hs.
  repeat (apply elem_of_cons in Hs as [->|Hs]; [by vm_compute; eauto 10|]). by apply not_elem_of_nil in Hs.
Qed.

Definition not_scalar (k : string) : Prop := is_scalar_name (last_segment k) = false.

(** No type of the file is named after a scalar. *)
Fixpoint sane_names (t : TypeElement) : Prop :=
  not_scalar (type_name t) /\
  match t with
  | MessageElement _ _ _ _ nested _ _ => (fix go l := match l with [] => True | x :: l => sane_names x /\ go l end) nested
  | EnumElement _ _ _ _ _ => True
  end.

#[global] Instance sane_type : TypePredicate sane_names not_scalar.
Proof.
  split.
  - intros [l n d o nested fields one_ofs|]; simpl; [|by constructor]. intros [_ Hn].
    induction nested as [|x nested IH]; [constructor|]. destruct Hn as [Hx Hn]. constructor; auto.
  - intros t prefix Ht. assert (Hn : not_scalar (type_name t)) by (by destruct t; destruct Ht).
    unfold not_scalar, scoped in *. destruct prefix as [p|]; [|done]. destruct (String.eqb p ""); [done|].
    by rewrite last_segment_scoped.
Qed.

(** A scalar name is never resolved to a type. *)
Lemma scalar_not_resolved s path package types :
  is_scalar_name s = true -> Forall (fun kr => not_scalar kr.1) types ->
  compute_name (mkProtoType true s None) path package types = None.
Proof.
  intros Hs Ht. destruct (scalar_facts s Hs) as (Hl & Hp & _).
  assert (Hk : forall k, last_segment k = s -> din k types = false).
  { intros k Hk. unfold din. destruct (dget k types) as [v|] eqn:E; [|done]. apply dget_In in E.
    rewrite Forall_forall in Ht. apply Ht in E. unfold not_scalar in E. simpl in E. by rewrite Hk, Hs in E. }
  unfold compute_name. simpl. rewrite Hp.
  assert (Hpre : forall n l, pretender n l s types = None).
  { intros n l. induction n as [|n IH]; simpl; [done|]. rewrite Hk; [done|]. rewrite last_segment_scoped. done. }
  rewrite Hpre. by rewrite Hk.
Qed.

(** ** What a positive answer means *)

Lemma result_is_compatible_prefix l l' : l `prefix_of` l' ->
  result_is_compatible l' = true -> result_is_compatible l = true.
Proof. intros [k ->]. unfold result_is_compatible. rewrite forallb_app, andb_true_iff. by intros []. Qed.

Lemma added_incompatible c m c' u : add_modification m c = (c', Ok u) ->
  result_is_compatible (cmp_result c') = true -> modification_is_compatible m = true.
Proof.
  intros [= <- _]. unfold result_is_compatible. simpl. rewrite forallb_app, andb_true_iff. simpl.
  rewrite andb_true_r. by intros [].
Qed.

(** The wire format of a scalar field. *)
Definition wire_kind (f : FieldElement) : option CompatibilityKind := dget (element_type f) kind_table.

Lemma wire_kind_scalar f k : wire_kind f = Some k -> is_scalar_name (element_type f) = true.
Proof.
  unfold wire_kind. intros Hk%dget_In. revert Hk. generalize (element_type f) as s. intros s Hs.
  unfold kind_table in Hs. repeat (apply elem_of_cons in Hs as [[= -> ->]|Hs]; [reflexivity|]).
  by apply not_elem_of_nil in Hs.
Qed.

Abbreviation sane_tables := (tables_ok sane_names not_scalar) (only parsing).

Lemma sane_tables_names c : sane_tables c ->
  Forall (fun kr => not_scalar kr.1) (self_types c) /\ Forall (fun kr => not_scalar kr.1) (other_types c).
Proof. intros [Hs Ho]. split; [apply (Forall_impl _ _ _ Hs)|apply (Forall_impl _ _ _ Ho)]; by intros kr []. Qed.

Lemma compare_scalars_detect fuel l l' f f' k k' c c' u :
  sane_tables c -> wire_kind f = Some k -> wire_kind f' = Some k' ->
  run fuel (CompareType l (mkProtoType true (element_type f) None) (mkProtoType true (element_type f') None) l') c
    = (c', Ok u) ->
  result_is_compatible (cmp_result c') = true ->
  k = k' /\ (label_matters k = true -> l = l').
Proof.
  intros [Hs Ho]%sane_tables_names Hf Hf'. destruct fuel as [|fuel]; [done|]. simpl. unfold compare_type.
  intros (c0 & c1 & [= <- <-] & H1)%M_bind_Ok. revert H1. unfold get_self_type, get_other_type, self_name, other_name.
  pose proof (wire_kind_scalar _ _ Hf) as Hsc. pose proof (wire_kind_scalar _ _ Hf') as Hsc'.
  rewrite !scalar_not_resolved by done. intros H1. simpl in H1.
  apply M_bind_Ok in H1 as (st & c2 & [= <- <-] & H1). apply M_bind_Ok in H1 as (ot & c3 & [= <- <-] & H1).
  simpl in H1. unfold compare_scalar, compatibility_kind in H1.
  destruct (scalar_facts _ Hsc) as (_ & _ & k0 & Hk & Hn). destruct (scalar_facts _ Hsc') as (_ & _ & k0' & Hk' & Hn').
  rewrite Hn, Hn', Hk, Hk' in H1. unfold wire_kind in Hf, Hf'. simplify_eq.
  apply M_bind_Ok in H1 as (a & c4 & [= <- <-] & H1). apply M_bind_Ok in H1 as (b & c5 & [= <- <-] & H1).
  apply M_bind_Ok in H1 as ([] & c6 & Hlabel & Hkind). intros Hc.
  case_bool_decide as Ek; [|by apply (added_incompatible _ FIELD_KIND_ALTER) in Hkind].
  split; [done|]. intros Hm. injection Hkind as -> _. rewrite Hm in Hlabel.
  case_bool_decide as El; [done|]. by apply (added_incompatible _ FIELD_LABEL_ALTER) in Hlabel.
Qed.

Lemma get2_scalar s : is_scalar_name s = true -> get2 s = Ok (mkProtoType true s None).
Proof. intros Hs. unfold get2. simpl. by rewrite Hs. Qed.

(** A loop passes through each of its elements. *)
Lemma for_each_visit {A} F K `{!TypePredicate F K} (l : list A) f c c' u x :
  (forall y, y ∈ l -> framed F K (f y)) -> tables_ok F K c -> for_each l f c = (c', Ok u) -> x ∈ l ->
  exists c1 c2, frame c c1 /\ tables_ok F K c1 /\ f x c1 = (c2, Ok tt) /\ frame c2 c'.
Proof.
  revert c. induction l as [|y l IH]; intros c Hf Ht Hl Hx; [by apply not_elem_of_nil in Hx|].
  simpl in Hl. apply M_bind_Ok in Hl as ([] & c1 & H1 & H2).
  destruct (Hf y ltac:(set_solver) _ _ _ Ht H1) as [Hf1 Ht1].
  apply elem_of_cons in Hx as [->|Hx].
  - exists c, c1. split_and!; try done. 
    by apply (framed_for_each F K l f) in H2 as [? _]; [|set_solver|].
  - destruct (IH c1 ltac:(set_solver) Ht1 H2 Hx) as (c2 & c3 & ? & ? & ? & ?).
    exists c2, c3. split_and!; try done. by etrans.
Qed.

Lemma dget_all_keys_l {A V W} `{!EqDecision A} (a : dict A V) (b : dict A W) k v :
  dget k a = Some v -> k ∈ all_keys a b.
Proof. intros Hk. apply elem_of_app. left. apply dget_Some_key. eauto. Qed.

(** Only fields that join a oneof leave the plain ones. *)
Lemma convert_fields_other tags fields tag :
  (forall f, f ∈ fields -> field_tag f ≠ tag) -> dget tag (convert_fields tags fields).1 = dget tag tags.
Proof.
  unfold convert_fields. generalize O as n. revert tags.
  induction fields as [|f fields IH]; intros tags n Hf; simpl; [done|].
  assert (field_tag f ≠ tag) by (apply Hf; set_solver).
  destruct (din (field_tag f) tags); rewrite IH by set_solver; [|done]. by apply dget_ddel_ne.
Qed.

Lemma convert_one_ofs_other tags one_ofs tag c c' tags' :
  (forall o f, o ∈ one_ofs -> f ∈ one_of_fields o -> field_tag f ≠ tag) ->
  convert_one_ofs tags one_ofs c = (c', Ok tags') -> dget tag tags' = dget tag tags.
Proof.
  revert tags c. induction one_ofs as [|o one_ofs IH]; intros tags c Ho; simpl; [by intros [= _ ->]|].
  intros (u1 & c1 & _ & H1)%M_bind_Ok. apply M_bind_Ok in H1 as (u2 & c2 & _ & H1).
  apply M_bind_Ok in H1 as (u3 & c3 & _ & H1). apply IH in H1; [|set_solver].
  rewrite H1. apply convert_fields_other. intros f Hf. apply (Ho o f); set_solver.
Qed.

(** The types a comparison of the schema registers are sane. *)
Definition sane_schema (s : ProtobufSchema) : Prop :=
  Forall sane_names (types (proto_file_element s)) /\ Forall (fun pt => sane_names pt.2) (dependencies_types s).

Abbreviation sane_framed := (framed sane_names not_scalar) (only parsing).

Lemma run_sane fuel t : task_ok sane_names t -> sane_framed (run fuel t).
Proof. apply run_framed. typeclasses eauto. Qed.

Lemma pop_path_inv canonical c c' u : pop_path canonical c = (c', Ok u) -> exists p n, c' = set_paths p n c.
Proof.
  unfold pop_path. intros (c0 & c1 & [= <- <-] & H1)%M_bind_Ok.
  apply M_bind_Ok in H1 as (n & c2 & [= <- _] & H1). apply M_bind_Ok in H1 as (p & c3 & [= <- _] & H1).
  injection H1 as <- _. eauto.
Qed.

(** [compare_tag] compares the two fields of the tag. *)
Lemma compare_tag_fields rec st ot sn on tag f f' c c' u :
  dget tag st = Some f -> dget tag ot = Some f' -> compare_tag rec st ot sn on tag c = (c', Ok u) ->
  exists c1 c2, self_types c1 = self_types c /\ other_types c1 = other_types c /\
    field_compare rec f f' c1 = (c2, Ok tt) /\ cmp_result c' = cmp_result c2.
Proof.
  intros Hf Hf'. unfold compare_tag. rewrite Hf, Hf'. intros (u1 & d1 & Hd1 & H1)%M_bind_Ok.
  apply M_bind_Ok in H1 as (u2 & d2 & Hd2 & H1). apply M_bind_Ok in H1 as ([] & d3 & Hd3 & H1).
  apply pop_path_inv in H1 as (p & n & ->). exists d2, d3. split_and!; try done; injection Hd1 as <- _.
  all: destruct (tag_altered _ _ _ _); [|by injection Hd2 as <- _].
  all: apply M_bind_Ok in Hd2 as (u3 & e1 & (p1 & n1 & ->)%pop_path_inv & Hd2);
    apply M_bind_Ok in Hd2 as (u4 & e2 & [= <- _] & Hd2); apply M_bind_Ok in Hd2 as (u5 & e3 & [= <- _] & Hd2);
    apply M_bind_Ok in Hd2 as (u6 & e4 & (p2 & n2 & ->)%pop_path_inv & Hd2); by injection Hd2 as <- _.
Qed.

(** A key of two indexed lists, compared below its path. *)
Lemma bracketed_key {V} x (a b : option V) added dropped both c c' u :
  (_ ← push_path x false; _ ← compare_key a b added dropped both; pop_path false) c = (c', Ok u) ->
  exists c1 c2, self_types c1 = self_types c /\ other_types c1 = other_types c /\
    compare_key a b added dropped both c1 = (c2, Ok tt) /\ cmp_result c' = cmp_result c2.
Proof.
  intros (u1 & d1 & Hd1 & H1)%M_bind_Ok. apply M_bind_Ok in H1 as ([] & d2 & Hd2 & (p & n & ->)%pop_path_inv).
  exists d1, d2. split_and!; try done; by injection Hd1 as <- _.
Qed.

(** Two scalar fields are encoded alike, with the same label where it changes the encoding. *)
Definition same_wire_format (f f' : FieldElement) : Prop := forall k k',
  wire_kind f = Some k -> wire_kind f' = Some k' ->
  k = k' /\ (label_matters k = true -> field_label f = field_label f').

(** Comparing two scalar fields. *)
Lemma field_compare_detect fuel f f' c c' u :
  sane_tables c ->
  field_compare (run fuel) f f' c = (c', Ok u) -> result_is_compatible (cmp_result c') = true ->
  same_wire_format f f'.
Proof.
  intros Ht Hc Hok k k' Hk Hk'. revert Hc Hok. unfold field_compare. rewrite !get2_scalar by (by eapply wire_kind_scalar).
  intros (u1 & c1 & H1 & H2)%M_bind_Ok. apply M_bind_Ok in H2 as (t & c2 & [= <- <-] & H2).
  apply M_bind_Ok in H2 as (t' & c3 & [= <- <-] & H2).
  eapply compare_scalars_detect; [|done..]. by destruct (negb _); injection H1 as <- _.
Qed.

(** The parts of a comparison of two messages that records nothing incompatible: it passed through
    the tag of each plain field and the name of each oneof. *)
Lemma message_parts fuel nested nested' fields fields' one_ofs one_ofs' c c' :
  Forall sane_names nested -> Forall sane_names nested' -> sane_tables c ->
  message_body (run fuel) nested nested' fields fields' one_ofs one_ofs' c = (c', Ok tt) ->
  result_is_compatible (cmp_result c') = true ->
  exists tags c0 c1, convert_one_ofs (index_by field_tag fields) one_ofs' c0 = (c1, Ok tags) /\
  (forall tag, is_Some (dget tag tags) -> exists d1 d2, sane_tables d1 /\
     compare_tag (run fuel) tags (index_by field_tag fields') (index_by field_name fields)
       (index_by field_name fields') tag d1 = (d2, Ok tt) /\ result_is_compatible (cmp_result d2) = true) /\
  (forall name, is_Some (dget name (index_by one_of_name one_ofs)) -> exists d1 d2, sane_tables d1 /\
     compare_one_ofs (run fuel) (index_by one_of_name one_ofs) (index_by one_of_name one_ofs') name d1
       = (d2, Ok tt) /\ result_is_compatible (cmp_result d2) = true).
Proof.
  intros Hn Hn' Ht Hbody Hc. pose proof (run_sane fuel) as Hrec.
  unfold message_body in Hbody. apply M_bind_Ok in Hbody as (tags & c1 & H1 & Hbody). exists tags, c, c1.
  split; [done|]. destruct (convert_one_ofs_framed sane_names not_scalar _ _ _ _ _ Ht H1) as [_ Ht1].
  apply M_bind_Ok in Hbody as ([] & c2 & H2 & Hbody). apply M_bind_Ok in Hbody as ([] & c3 & H3 & Hbody).
  assert (Hft : forall y, sane_framed (compare_tag (run fuel) tags (index_by field_tag fields')
    (index_by field_name fields) (index_by field_name fields') y)) by (intros y; by apply compare_tag_framed).
  assert (Hfo : forall y, sane_framed (compare_one_ofs (run fuel) (index_by one_of_name one_ofs)
    (index_by one_of_name one_ofs') y)).
  { intros y. apply framed_bracket, compare_key_framed. intros.
    apply (one_of_compare_framed sane_names not_scalar _ Hrec). }
  destruct (framed_for_each sane_names not_scalar _ _ (fun y _ => Hft y) _ _ _ Ht1 H2) as [_ Ht2].
  destruct (framed_for_each sane_names not_scalar _ _ (fun y _ => Hfo y) _ _ _ Ht2 H3) as [Hf3 Ht3].
  destruct (compare_type_lists_framed sane_names not_scalar _ Hrec _ _ Hn Hn' _ _ _ Ht3 Hbody) as [Hfr _].
  apply (result_is_compatible_prefix _ _ (frame_records _ _ Hfr)) in Hc.
  pose proof (result_is_compatible_prefix _ _ (frame_records _ _ Hf3) Hc) as Hc2.
  split.
  - intros tag [f Hf]. destruct (for_each_visit sane_names not_scalar _ _ _ _ _ tag (fun y _ => Hft y) Ht1 H2
      (dget_all_keys_l _ _ _ _ Hf)) as (d1 & d2 & _ & Htd & Hd & Hfd).
    exists d1, d2. split_and!; try done. eapply result_is_compatible_prefix; [apply frame_records, Hfd|done].
  - intros name [o Ho]. destruct (for_each_visit sane_names not_scalar _ _ _ _ _ name (fun y _ => Hfo y) Ht2 H3
      (dget_all_keys_l _ _ _ _ Ho)) as (d1 & d2 & _ & Htd & Hd & Hfd).
    exists d1, d2. split_and!; try done. eapply result_is_compatible_prefix; [apply frame_records, Hfd|done].
Qed.

(** A plain field on both sides keeps its wire format. *)
Lemma tag_kept fuel tags ot sn on tag f f' c c' :
  sane_tables c -> dget tag tags = Some f -> dget tag ot = Some f' ->
  compare_tag (run fuel) tags ot sn on tag c = (c', Ok tt) -> result_is_compatible (cmp_result c') = true ->
  same_wire_format f f'.
Proof.
  intros Ht Hf Hf' Hd Hc.
  destruct (compare_tag_fields _ _ _ _ _ _ _ _ _ _ _ Hf Hf' Hd) as (e1 & e2 & Es & Eo & He & Er).
  eapply (field_compare_detect fuel f f' e1 e2); [|done|by rewrite <- Er]. unfold tables_ok. by rewrite Es, Eo.
Qed.

(** A oneof on both sides keeps its tags and their wire formats. *)
Lemma one_of_kept fuel so oo name a b tag f c c' :
  sane_tables c -> dget name so = Some a -> dget name oo = Some b ->
  compare_one_ofs (run fuel) so oo name c = (c', Ok tt) -> result_is_compatible (cmp_result c') = true ->
  dget tag (index_by field_tag (one_of_fields a)) = Some f ->
  exists f', dget tag (index_by field_tag (one_of_fields b)) = Some f' /\ same_wire_format f f'.
Proof.
  intros Ht Ha Hb Hd Hc Hf.
  apply bracketed_key in Hd as (c1 & c2 & Es & Eo & Hd & Er). rewrite Ha, Hb in Hd. simpl in Hd.
  rewrite Er in Hc. unfold one_of_compare in Hd.
  assert (Ht1 : sane_tables c1) by (unfold tables_ok; by rewrite Es, Eo).
  pose proof (run_sane fuel) as Hrec.
  match type of Hd with for_each ?l ?g _ = _ =>
    destruct (for_each_visit sane_names not_scalar l g c1 c2 tt tag) as (d1 & d2 & _ & Htd & Hv & Hfd) end.
  { intros y _. apply framed_bracket, compare_key_framed. intros.
    apply (field_compare_framed sane_names not_scalar _ Hrec). }
  { exact Ht1. } { exact Hd. } { by eapply dget_all_keys_l. }
  apply (result_is_compatible_prefix _ _ (frame_records _ _ Hfd)) in Hc. simpl in Hv.
  apply bracketed_key in Hv as (e1 & e2 & Es1 & Eo1 & Hv & Er1). rewrite Er1 in Hc. rewrite Hf in Hv.
  destruct (dget tag (index_by field_tag (one_of_fields b))) as [f'|] eqn:Ef; simpl in Hv;
    [|by apply (added_incompatible _ ONE_OF_FIELD_DROP) in Hv].
  exists f'. split; [done|]. eapply (field_compare_detect fuel f f' e1 e2); [|done..].
  unfold tables_ok. by rewrite Es1, Eo1.
Qed.

(** The files compared, after the types of their dependencies are registered. *)
Lemma check_compatible_run fuel reader writer r :
  sane_schema reader -> sane_schema writer ->
  check_protobuf_schema_compatibility fuel reader writer = Ok r -> compatibility_type r = compatible ->
  exists c c', sane_tables c /\ locked_messages c = [] /\
    for_each (all_keys (index_by type_name (types (proto_file_element writer)))
                       (index_by type_name (types (proto_file_element reader))))
      (compare_named (run fuel) (index_by type_name (types (proto_file_element writer)))
        (index_by type_name (types (proto_file_element reader)))) c = (c', Ok tt) /\
    result_is_compatible (cmp_result c') = true.
Proof.
  intros [Hr Hrd] [Hw Hwd] Hcheck Hc. unfold check_protobuf_schema_compatibility in Hcheck.
  destruct (file_compare _ _ _ _) as [c' [[]|e]] eqn:E; [|done].
  destruct (result_is_compatible (cmp_result c')) eqn:Ec; [|by simplify_eq].
  unfold file_compare in E. apply M_bind_Ok in E as (u1 & c1 & H1 & E). apply M_bind_Ok in E as (u2 & c2 & H2 & E).
  apply M_bind_Ok in E as (u3 & c3 & H3 & E). apply M_bind_Ok in E as (u4 & c4 & H4 & E).
  unfold compare_type_lists in E. apply M_bind_Ok in E as (u5 & c5 & H5 & E). apply M_bind_Ok in E as (u6 & c6 & H6 & E).
  set (c0 := new_comparison _ _) in H1.
  assert (Hall : sane_framed (_ ← (if negb (bool_decide (package_name (proto_file_element writer) = package_name (proto_file_element reader)))
       then add_modification PACKAGE_ALTER else mret ());
     _ ← (if negb (bool_decide (syntax (proto_file_element writer) = syntax (proto_file_element reader)))
       then add_modification SYNTAX_ALTER else mret ());
     _ ← collect_dependencies_types writer true; _ ← collect_dependencies_types reader false;
     _ ← for_each (types (proto_file_element writer)) (fun t => package ← gets self_package_name; add_self_type (Some package) t);
     for_each (types (proto_file_element reader)) (fun t => package ← gets other_package_name; add_other_type (Some package) t))).
  { rewrite Forall_forall in Hrd, Hwd.
    do 2 (apply framed_bind; [apply framed_if, framed_add|intros _]).
    apply framed_bind; [apply (framed_for_each sane_names not_scalar); intros pt Hpt;
      apply (framed_add_self sane_names not_scalar), Hwd, Hpt|intros _].
    apply framed_bind; [apply (framed_for_each sane_names not_scalar); intros pt Hpt;
      apply (framed_add_other sane_names not_scalar), Hrd, Hpt|intros _].
    apply framed_bind; [apply (add_types_framed sane_names not_scalar); [apply (framed_add_self sane_names not_scalar)|done]|intros _].
    apply (add_types_framed sane_names not_scalar); [apply (framed_add_other sane_names not_scalar)|done]. }
  destruct (Hall c0 c6 u6) as [Hf Ht].
  - by split; constructor.
  - unfold mbind, M_bind in *. by rewrite H1, H2, H3, H4, H5.
  - exists c6, c'. split_and!; try done. by rewrite (frame_locks _ _ Hf).
Qed.

(** C7. When the check declares a reader schema compatible, the name of every message the writer
    declares at the top level is still declared by the reader, as a message or as an enum (the
    check takes a message that became an enum for compatible). Where it is a message, a scalar field
    that is plain on both sides keeps its wire format (the same encoding, and the same label where
    the label changes the encoding), and a oneof both sides have keeps each of its tags, those of
    scalar fields with their wire format. Nothing is said of a plain field that joins a oneof of
    the reader, nor of a oneof that the reader dropped. Types must not be named after scalars. *)
Theorem protobuf_wire_format_kept fuel reader writer r name l n d o nested fields one_ofs :
  sane_schema reader -> sane_schema writer ->
  check_protobuf_schema_compatibility fuel reader writer = Ok r -> compatibility_type r = compatible ->
  dget name (index_by type_name (types (proto_file_element writer)))
    = Some (MessageElement l n d o nested fields one_ofs) ->
  exists t, dget name (index_by type_name (types (proto_file_element reader))) = Some t /\
  forall l' n' d' o' nested' fields' one_ofs',
    t = MessageElement l' n' d' o' nested' fields' one_ofs' ->
    (forall tag f f', dget tag (index_by field_tag fields) = Some f -> dget tag (index_by field_tag fields') = Some f' ->
       (forall oo g, oo ∈ one_ofs' -> g ∈ one_of_fields oo -> field_tag g ≠ tag) -> same_wire_format f f') /\
    (forall one_of a b tag f, dget one_of (index_by one_of_name one_ofs) = Some a ->
       dget one_of (index_by one_of_name one_ofs') = Some b ->
       dget tag (index_by field_tag (one_of_fields a)) = Some f ->
       exists f', dget tag (index_by field_tag (one_of_fields b)) = Some f' /\ same_wire_format f f').
Proof.
  intros Hr Hw Hcheck Hc Hname. destruct (check_compatible_run _ _ _ _ Hr Hw Hcheck Hc) as (c & c' & Ht & Hl & Hfor & Hok).
  destruct Hr as [Hr _], Hw as [Hw _].
  assert (Hst : forall k t, dget k (index_by type_name (types (proto_file_element writer))) = Some t -> sane_names t)
    by (intros k t; by apply (index_by_Forall type_name)).
  assert (Hot : forall k t, dget k (index_by type_name (types (proto_file_element reader))) = Some t -> sane_names t)
    by (intros k t; by apply (index_by_Forall type_name)).
  destruct (for_each_visit sane_names not_scalar _ _ _ _ _ name
    (fun y _ => compare_named_framed sane_names not_scalar _ (run_sane fuel) _ _ y Hst Hot) Ht Hfor
    (dget_all_keys_l _ _ _ _ Hname)) as (c1 & c2 & Hf1 & Ht1 & Hn & Hf2).
  eapply result_is_compatible_prefix in Hok; [|apply frame_records, Hf2].
  unfold compare_named in Hn. rewrite Hname in Hn. apply M_bind_Ok in Hn as (u & d1 & [= <- _] & Hn).
  apply M_bind_Ok in Hn as ([] & d2 & Hn & (p2 & n2 & ->)%pop_path_inv). simpl in Hok.
  destruct (dget name (index_by type_name (types (proto_file_element reader)))) as [t|] eqn:Et;
    [|by apply (added_incompatible _ MESSAGE_DROP) in Hn].
  exists t. split; [done|]. intros l' n' d' o' nested' fields' one_ofs' ->. simpl in Hn.
  destruct fuel as [|fuel]; [done|]. simpl in Hn.
  apply message_compare_cases in Hn as [[Hlock _]|(_ & d3 & Hbody & ->)].
  { unfold is_locked in Hlock. simpl in Hlock. by rewrite (frame_locks _ _ Hf1), Hl in Hlock. }
  pose proof (predicate_nested _ (Hst _ _ Hname)) as Hsn. pose proof (predicate_nested _ (Hot _ _ Et)) as Hon.
  simpl in Hsn, Hon.
  destruct (message_parts _ _ _ _ _ _ _ (set_locked _ (set_paths _ _ c1)) _ Hsn Hon Ht1 Hbody Hok) as (tags & e0 & e1 & Hconv & Htags & Hones).
  split.
  - intros tag f f' Hf Hf' Hoo. rewrite <- (convert_one_ofs_other _ _ tag _ _ _ Hoo Hconv) in Hf.
    destruct (Htags tag ltac:(eauto)) as (g1 & g2 & Hg & Hcmp & Hres). by eapply tag_kept.
  - intros one_of a b tag f Ha Hb Hf. destruct (Hones one_of ltac:(eauto)) as (g1 & g2 & Hg & Hcmp & Hres).
    by eapply (one_of_kept fuel _ _ one_of a b).
Qed.

(** A message with two plain fields and a oneof. *)
Definition sample_message (scalar text choice : string) : ProtobufSchema :=
  mkSchema (mkFile None None [MessageElement 1 "Point" "" [] []
    [mkField None scalar "x" 1; mkField None text "label" 2]
    [mkOneOf "kind" [mkField None choice "a" 3]]]) None.

Lemma protobuf_wire_format_kept_witness :
  let reader := sample_message "int64" "bytes" "sint64" in
  (exists r, check_protobuf_schema_compatibility 10 reader (sample_message "int32" "string" "sint32") = Ok r /\
     compatibility_type r = compatible) /\
  exists t, dget "Point"%string (index_by type_name (types (proto_file_element reader))) = Some t.
Proof.
  split; [eexists; split; [vm_compute; reflexivity|reflexivity]|].
  edestruct (protobuf_wire_format_kept 10 (sample_message "int64" "bytes" "sint64")
    (sample_message "int32" "string" "sint32")
    compatible_result "Point" 1 "Point" "" [] []
    [mkField None "int32" "x" 1; mkField None "string" "label" 2]
    [mkOneOf "kind" [mkField None "sint32" "a" 3]]) as (t & Ht & _).
  - by repeat constructor.
  - by repeat constructor.
  - vm_compute. reflexivity.
  - reflexivity.
  - reflexivity.
  - exists t. exact Ht.
Defined.

(** A message that becomes an enum is declared compatible. *)
Lemma message_becomes_enum :
  let reader := mkSchema (mkFile None None [EnumElement 1 "Point" "" [] []]) None in
  exists r, check_protobuf_schema_compatibility 10 reader (sample_message "int32" "string" "sint32") = Ok r /\
    compatibility_type r = compatible.
Proof. eexists. split; [vm_compute; reflexivity|reflexivity]. Qed.

(** ** Enums *)

(** The change of the constant of one number. *)
Definition constant_change (self other : option EnumConstantElement) : option Modification :=
  match self, other with
  | None, _ => Some ENUM_CONSTANT_ADD
  | Some _, None => Some ENUM_CONSTANT_DROP
  | Some a, Some b => if String.eqb (constant_name a) (constant_name b) then None else Some ENUM_CONSTANT_ALTER
  end.

(** The records of comparing two enums: one for each number whose constant changed, at its path. *)
Definition enum_records (path : list string) (self other : list EnumConstantElement) : list ModificationRecord :=
  let a := index_by constant_tag self in
  let b := index_by constant_tag other in
  omap (fun tag => m ← constant_change (dget tag a) (dget tag b);
                   Some (mkRecord m (join_with "." (path ++ [tag_str tag])))) (all_keys a b).

Lemma pop_pushed c x r : pop_path false (set_result r (set_paths (cmp_path c ++ [x]) (cmp_canonical_name c) c))
  = (set_result r c, Ok tt).
Proof.
  unfold pop_path, mbind, M_bind, gets, lift, modify. simpl.
  assert (Hp : list_pop (cmp_path c ++ [x]) = Ok (cmp_path c)).
  { unfold list_pop. rewrite removelast_last. by destruct (cmp_path c). }
  rewrite Hp. by destruct c.
Qed.

(** One number of the enum. *)
Lemma constant_step a b tag c :
  (_ ← push_path (tag_str tag) false;
   _ ← compare_key a b ENUM_CONSTANT_ADD ENUM_CONSTANT_DROP constant_compare; pop_path false) c =
  (set_result (cmp_result c ++ option_list (m ← constant_change a b;
     Some (mkRecord m (join_with "." (cmp_path c ++ [tag_str tag]))))) c, Ok tt).
Proof.
  assert (Hstep : compare_key a b ENUM_CONSTANT_ADD ENUM_CONSTANT_DROP constant_compare
      (set_paths (cmp_path c ++ [tag_str tag]) (cmp_canonical_name c) c) =
    (set_result (cmp_result c ++ option_list (m ← constant_change a b;
       Some (mkRecord m (join_with "." (cmp_path c ++ [tag_str tag])))))
       (set_paths (cmp_path c ++ [tag_str tag]) (cmp_canonical_name c) c), Ok tt)).
  { destruct a as [a|], b as [b|]; simpl; try done. unfold constant_compare.
    destruct (String.eqb _ _); simpl; [|done]. rewrite app_nil_r. by destruct c. }
  erewrite M_bind_run by reflexivity. erewrite M_bind_run by exact Hstep. apply pop_pushed.
Qed.

(** Comparing two enums returns, with exactly one record for each number whose constant was
    added, dropped or renamed, at the path of the number; none of them is an incompatibility. *)
Theorem enum_compare_spec self other c :
  enum_compare self other c
    = (set_result (cmp_result c ++ enum_records (cmp_path c) self other) c, Ok tt) /\
  result_is_compatible (enum_records (cmp_path c) self other) = true.
Proof.
  unfold enum_compare, enum_records. cbv zeta.
  generalize (index_by constant_tag self) as a. generalize (index_by constant_tag other) as b. intros b a.
  split.
  - generalize (all_keys a b) as tags. intros tags. revert c. induction tags as [|tag tags IH]; intros c.
    + simpl. rewrite app_nil_r. by destruct c.
    + cbn [for_each]. erewrite M_bind_run by apply constant_step. rewrite IH. simpl.
      destruct c as [r p n s o st ot lk]. unfold set_result. simpl.
      destruct (constant_change (dget tag a) (dget tag b)); simpl; rewrite <- ?app_assoc, ?app_nil_r; done.
  - unfold result_is_compatible. rewrite forallb_forall. intros r Hr%list_elem_of_In%list_elem_of_omap.
    destruct Hr as (tag & _ & (m & Hm & [= <-])%bind_Some). simpl.
    unfold constant_change in Hm. destruct (dget tag a), (dget tag b); simplify_eq; try done.
    destruct (String.eqb _ _); by simplify_eq.
Qed.
