(* ===== verification/Registry.v ===== *)
(** * The schema registry

    [core/schema_registry.py] and [core/messaging.py]: the operations behind the REST API. A
    write appends a record to the schemas topic and returns once the reader of the same node has
    reported the record's offset; nothing else changes the database, but for the id counter that
    [get_schema_id] advances. The state is the reader's together with the topic and what the
    coordinator says of this node. The asyncio lock makes each operation atomic.

    The environment of a send is [Env]: whether the broker accepts the record, and whether the
    reader thread gets to it before the timeout. A record the reader reaches is consumed by
    [consume_messages]; an exception of the reader stays in its thread. *)

From stdpp Require Import sorting.
From S2P Require Import Prelude Json Typing Models Schemas Database KeyFormat OffsetWatcher Reader Compat.
Open Scope Z_scope.

(** [PrimaryInfo] *)
Record PrimaryInfo : Type := mkPrimaryInfo {
  primary : bool;
  primary_url : option string;
}.

Record KarapaceSchemaRegistry (bytes : Type) : Type := mkRegistry {
  schema_reader : ReaderState InMemoryDatabase;
  topic : list (Message bytes);
  master_info : PrimaryInfo;
}.
Arguments mkRegistry {bytes}.
Arguments schema_reader {bytes}.
Arguments topic {bytes}.
Arguments master_info {bytes}.

Record Env (bytes : Type) : Type := mkEnv {
  (** [future.result()]: the broker's answer to a record *)
  accepts : bytes -> bytes -> result ();
  (** the reader consumes the record at this offset before the timeout *)
  reader_in_time : Z -> bool;
}.
Arguments mkEnv {bytes}.
Arguments accepts {bytes}.
Arguments reader_in_time {bytes}.

Section Registry.
Context {bytes : Type} `{!JsonCodec bytes} `{!SchemaLib} `{!Checkers}.
Context (env : Env bytes) (recursion_limit : nat).

Abbreviation State := (KarapaceSchemaRegistry bytes) (only parsing).

#[local] Instance registry_database : KarapaceDatabase InMemoryDatabase :=
  InMemoryDatabase_KarapaceDatabase sha1.

Definition db_of (st : State) : InMemoryDatabase := database (schema_reader st).
Definition set_reader (r : ReaderState InMemoryDatabase) (st : State) : State :=
  mkRegistry r (topic st) (master_info st).
Definition set_db (db : InMemoryDatabase) (st : State) : State :=
  set_reader (set_database db (schema_reader st)) st.

(** [get_master] *)
Definition get_master (st : State) : PrimaryInfo :=
  if negb (ready (schema_reader st)) then mkPrimaryInfo false (primary_url (master_info st))
  else master_info st.

(** ** Producing records *)

(** The reader's round for one new record. *)
Definition reader_consumes (msg : Message bytes) (st : State) : State :=
  set_reader (consume_messages recursion_limit [msg] (primary (master_info st)) (schema_reader st)).1 st.

(** [KarapaceProducer._send_kafka_message] *)
Definition send_kafka_message (key value : bytes) : M State () := fun st =>
  match accepts env key value with
  | Raise MessageSizeTooLargeError => (st, Raise SchemaTooLargeException)
  | Raise e => (st, Raise e)
  | Ok _ =>
      let sent_offset := Z.of_nat (length (topic st)) in
      let msg := mkMessage (Some key) (Some value) None sent_offset in
      let st := mkRegistry (schema_reader st) (topic st ++ [msg]) (master_info st) in
      let st := if reader_in_time env sent_offset then reader_consumes msg st else st in
      if (wait_for_offset sent_offset [] (offset_watcher (schema_reader st))).2 then (st, Ok ())
      else (st, Raise RuntimeError)
  end.

(** [KarapaceProducer.send_message] *)
Definition send_message (key : list (string * json)) (value : option (list (string * json)))
  : M State () :=
  key_bytes ← (fun st => (st, format_key (key_formatter (schema_reader st)) key None));
  let value_bytes := match value with Some d => json_encode (JObj d) | None => empty_bytes end in
  send_kafka_message key_bytes value_bytes.

Definition schema_key (subject : Subject) (version : Version) : list (string * json) :=
  [("subject", JStr subject); ("version", JInt version); ("magic", JInt 1);
   ("keytype", JStr "SCHEMA")]%string.

Definition schema_value (subject : Subject) (schema : TypedSchema) (schema_id : SchemaId)
  (version : Version) (deleted : bool) (references : option (list Reference))
  : list (string * json) :=
  ([("subject", JStr subject); ("version", JInt version); ("id", JInt schema_id);
    ("schema", JStr (schema_str schema)); ("deleted", JBool deleted)]%string
   ++ match references with
      | Some (r :: rs) => [("references"%string, JList (map reference_to_dict (r :: rs)))]
      | _ => []
      end
   ++ if bool_decide (schema_type schema = AVRO) then []
      else [("schemaType"%string, JStr (schema_type_value (schema_type schema)))]).

Definition send_schema_message (subject : Subject) (schema : option TypedSchema)
  (schema_id : SchemaId) (version : Version) (deleted : bool)
  (references : option (list Reference)) : M State () :=
  send_message (schema_key subject version)
    ((fun s => schema_value subject s schema_id version deleted references) <$> schema).

Definition config_key (subject : option Subject) : list (string * json) :=
  [("subject", match subject with Some s => JStr s | None => JNull end); ("magic", JInt 0);
   ("keytype", JStr "CONFIG")]%string.

Definition send_config_message (compatibility_level : CompatibilityModes)
  (subject : option Subject) : M State () :=
  send_message (config_key subject)
    (Some [("compatibilityLevel"%string, JStr (mode_value compatibility_level))]).

Definition send_config_subject_delete_message (subject : Subject) : M State () :=
  send_message (config_key (Some subject)) None.

Definition send_delete_subject_message (subject : Subject) (version : Version) : M State () :=
  send_message
    [("subject", JStr subject); ("magic", JInt 0); ("keytype", JStr "DELETE_SUBJECT")]%string
    (Some [("subject", JStr subject); ("version", JInt version)]%string).

(** ** Reading *)

Definition subjects_list (db : InMemoryDatabase) (include_deleted : bool) : list Subject :=
  find_subjects db include_deleted.

Definition get_schemas (db : InMemoryDatabase) (subject : Subject) (include_deleted : bool)
  : list SchemaVersion := dvalues (find_subject_schemas db subject include_deleted).

Definition get_compatibility_mode (st : State) (subject : Subject) : result CompatibilityModes :=
  mode_of_string (default (compatibility (schema_reader st)) (get_subject_compatibility (db_of st) subject)).

Definition schemas_list (db : InMemoryDatabase) (include_deleted latest_only : bool)
  : dict Subject (list SchemaVersion) := find_schemas db include_deleted latest_only.

(** The schema with, on request, the greatest id handed out. *)
Definition schemas_get (db : InMemoryDatabase) (schema_id : SchemaId) (fetch_max_id : bool)
  : option (TypedSchema * option SchemaId) :=
  match find_schema db schema_id with
  | Ok schema => Some (schema, if fetch_max_id then Some (global_schema_id db) else None)
  | Raise _ => None
  end.

(** [subject_get]; an empty subject name is falsy and counts as not found. *)
Definition subject_get (db : InMemoryDatabase) (subject : Subject) (include_deleted : bool)
  : result (dict Version SchemaVersion) :=
  match find_subject db subject with
  | None | Some EmptyString => Raise SubjectNotFoundException
  | Some _ =>
      match find_subject_schemas db subject include_deleted with
      | [] => Raise SchemasNotFoundException
      | schemas => Ok schemas
      end
  end.

Definition subject_version_find (db : InMemoryDatabase) (subject : Subject) (version : Version)
  (include_deleted : bool) : result (Version * SchemaVersion) :=
  schema_versions ← subject_get db subject include_deleted;
  resolved_version ← from_schema_versions (dkeys schema_versions) version;
  match dget resolved_version schema_versions with
  | None => Raise VersionNotFoundException
  | Some schema_data => Ok (resolved_version, schema_data)
  end.

Definition subject_version_get (db : InMemoryDatabase) (subject : Subject) (version : Version)
  (include_deleted : bool) : result (list (string * json)) :=
  '(resolved_version, schema_data) ← subject_version_find db subject version include_deleted;
  let schema := sv_schema schema_data in
  Ok ([("subject", JStr subject); ("version", JInt resolved_version);
       ("id", JInt (sv_schema_id schema_data)); ("schema", JStr (schema_str schema))]%string
      ++ match ts_references schema with
         | Some refs => [("references"%string, JList (map reference_to_dict refs))]
         | None => []
         end
      ++ (if bool_decide (schema_type schema = AVRO) then []
          else [("schemaType"%string, JStr (schema_type_value (schema_type schema)))])
      ++ match get_subject_compatibility db subject with
         | None | Some EmptyString => []
         | Some c => [("compatibility"%string, JStr c)]
         end).

Definition subject_version_referencedby_get (db : InMemoryDatabase) (subject : Subject)
  (version : Version) (include_deleted : bool) : result (list SchemaId) :=
  '(_, schema_data) ← subject_version_find db subject version include_deleted;
  Ok (elements (default ∅ (get_referenced_by db (sv_subject schema_data) (sv_version schema_data)))).

(** Subjects and versions that carry an id, sorted by subject, then version. *)
Definition subject_version_le (a b : Subject * Version) : Prop :=
  match String.compare a.1 b.1 with Lt => True | Gt => False | Eq => a.2 <= b.2 end.

#[global] Instance subject_version_le_dec a b : Decision (subject_version_le a b).
Proof. unfold subject_version_le. destruct (String.compare a.1 b.1); apply _. Defined.

Definition get_subject_versions_for_schema (db : InMemoryDatabase) (schema_id : SchemaId)
  (include_deleted : bool) : list (Subject * Version) :=
  merge_sort subject_version_le
    (map (fun sv => (sv_subject sv, sv_version sv))
       (find_schema_versions_by_schema_id db schema_id include_deleted)).

(** ** Compatibility *)

Definition get_live_versions_sorted (all_schema_versions : dict Version SchemaVersion)
  : list Version := merge_sort Z.le (dkeys (dfilter live all_schema_versions)).

Definition registry_resolve_references (db : InMemoryDatabase) (references : option (list AnyReference))
  : result (option (list Reference) * option Dependencies) :=
  match references with
  | None | Some [] => Ok (None, None)
  | Some refs =>
      '(rs, ds) ← resolve_references recursion_limit db refs; Ok (Some rs, Some ds)
  end.

Definition resolve_and_parse (db : InMemoryDatabase) (schema : TypedSchema) : result TypedSchema :=
  '(references, dependencies) ←
    registry_resolve_references db (map Resolved <$> ts_references schema);
  parsed_parse (schema_type schema) (schema_str schema) references dependencies.

(** The versions a new schema is compared with. *)
Definition versions_to_check (mode : CompatibilityModes) (live_versions : list Version)
  : list Version :=
  match last live_versions with
  | None => []
  | Some v => if is_transitive mode then live_versions else [v]
  end.

Fixpoint check_versions (db : InMemoryDatabase) (new_schema : TypedSchema)
  (mode : CompatibilityModes) (all_schema_versions : dict Version SchemaVersion)
  (old_versions : list Version) (result : SchemaCompatibilityResult)
  : Prelude.result SchemaCompatibilityResult :=
  match old_versions with
  | [] => Ok result
  | old_version :: old_versions =>
      sv ← dindex old_version all_schema_versions;
      old_parsed_schema ← resolve_and_parse db (sv_schema sv);
      result ← check_compatibility old_parsed_schema new_schema mode;
      if is_incompatible result then Ok result
      else check_versions db new_schema mode all_schema_versions old_versions result
  end.

Definition check_schema_compatibility (st : State) (new_schema : TypedSchema) (subject : Subject)
  : result SchemaCompatibilityResult :=
  mode ← get_compatibility_mode st subject;
  let all_schema_versions := find_subject_schemas (db_of st) subject true in
  let live_versions := get_live_versions_sorted all_schema_versions in
  check_versions (db_of st) new_schema mode all_schema_versions
    (versions_to_check mode live_versions) compatible_result.

(** ** Writing *)

(** [self.database.get_schema_id(new_schema)] *)
Definition take_schema_id (new_schema : TypedSchema) : M State SchemaId := fun st =>
  let '(db, i) := get_schema_id (db_of st) new_schema in (set_db db st, Ok i).

(** Allocate the version and the id, then send. *)
Definition register_as (subject : Subject) (new_schema : TypedSchema)
  (new_schema_references : option (list Reference)) (version : result Version)
  : M State SchemaId :=
  version ← lift version;
  schema_id ← take_schema_id new_schema;
  _ ← send_schema_message subject (Some new_schema) schema_id version false new_schema_references;
  mret schema_id.

Definition write_new_schema_local (subject : Subject) (new_schema : TypedSchema)
  (new_schema_references : option (list Reference)) : M State SchemaId := fun st =>
  match get_schema_id_if_exists sha1 (db_of st) subject new_schema false with
  | Some schema_id => (st, Ok schema_id)
  | None =>
      let all_schema_versions := find_subject_schemas (db_of st) subject true in
      match all_schema_versions with
      | [] => register_as subject new_schema new_schema_references (Version_init (JInt 1)) st
      | _ =>
          let next := get_next_version (db_of st) subject in
          match get_live_versions_sorted all_schema_versions with
          | [] => register_as subject new_schema new_schema_references next st
          | _ =>
              match check_schema_compatibility st new_schema subject with
              | Raise e => (st, Raise e)
              | Ok result =>
                  if is_incompatible result then
                    (_ ← lift (get_compatibility_mode st subject); raise IncompatibleSchema) st
                  else register_as subject new_schema new_schema_references next st
              end
          end
      end
  end.

(** [if referenced_by and len(referenced_by) > 0: raise ReferenceExistsException(...)] *)
Definition check_not_referenced (db : InMemoryDatabase) (subject : Subject) (version : Version)
  : result () :=
  match elements (default ∅ (get_referenced_by db subject version)) with
  | [] => Ok ()
  | refs => Raise (ReferenceExistsException refs version)
  end.

Definition all_deleted (schema_versions : dict Version SchemaVersion) : bool :=
  forallb (fun kv => sv_deleted kv.2) schema_versions.

(** The permanent branch: every version is checked, then a tombstone sent for each. *)
Definition subject_delete_permanent (subject : Subject) (schema_versions : dict Version SchemaVersion)
  : M State (list Version) :=
  _ ← for_each schema_versions (fun kv st =>
        (st, check_not_referenced (db_of st) subject (sv_version kv.2)));
  _ ← for_each schema_versions (fun kv =>
        send_schema_message subject None (sv_schema_id kv.2) kv.1 true (sv_references kv.2));
  mret (dkeys schema_versions).

(** The soft branch: the last live version is checked and named in the message. *)
Definition subject_delete_soft (subject : Subject) : M State (list Version) := fun st =>
  match subject_get (db_of st) subject false with
  | Raise SchemasNotFoundException =>
      (latest ← lift (Versioner_V (TagInt MINUS_1_VERSION_TAG));
       _ ← lift (check_not_referenced (db_of st) subject latest);
       _ ← send_delete_subject_message subject latest;
       mret []) st
  | Raise e => (st, Raise e)
  | Ok schema_versions_live =>
      let version_list := dkeys schema_versions_live in
      match last version_list with
      | None => (st, Ok [])
      | Some latest =>
          (_ ← lift (check_not_referenced (db_of st) subject latest);
           _ ← send_delete_subject_message subject latest;
           mret version_list) st
      end
  end.

Definition subject_delete_local (subject : Subject) (permanent : bool) : M State (list Version) :=
  schema_versions ← (fun st => (st, subject_get (db_of st) subject true));
  if permanent && negb (all_deleted schema_versions) then raise SubjectNotSoftDeletedException
  else if negb permanent && all_deleted schema_versions then raise SubjectSoftDeletedException
  else if permanent then subject_delete_permanent subject schema_versions
  else subject_delete_soft subject.

(** The version a delete request names, among the live ones for a soft "latest". *)
Definition version_to_delete (db : InMemoryDatabase) (subject : Subject) (version : Version)
  (permanent : bool) : result (Version * SchemaVersion) :=
  schema_versions ← subject_get db subject true;
  let schema_versions := if negb permanent && is_latest version then dfilter live schema_versions
                         else schema_versions in
  resolved_version ← from_schema_versions (dkeys schema_versions) version;
  match dget resolved_version schema_versions with
  | None => Raise VersionNotFoundException
  | Some sv =>
      if sv_deleted sv && negb permanent then Raise SchemaVersionSoftDeletedException
      else if permanent && negb (sv_deleted sv) then Raise SchemaVersionNotSoftDeletedException
      else Ok (resolved_version, sv)
  end.

Definition subject_version_delete_local (subject : Subject) (version : Version) (permanent : bool)
  : M State Version :=
  '(resolved_version, sv) ←
     (fun st => (st, version_to_delete (db_of st) subject version permanent));
  _ ← (fun st => (st, check_not_referenced (db_of st) subject resolved_version));
  _ ← send_schema_message subject (if permanent then None else Some (sv_schema sv))
        (sv_schema_id sv) resolved_version true (sv_references sv);
  mret resolved_version.
End Registry.
