(* ===== verification/RegistrySpec.v ===== *)
(** * Properties of the schema registry

    What each operation of the registry does to the database, through the record it produces and
    the reader that consumes it. *)

From stdpp Require Import sorting.
From S2P Require Import Prelude Json Typing Models Schemas Database DatabaseSpec DatabaseIndex KeyFormat OffsetWatcher Reader ReaderSpec Compat Registry.
Open Scope Z_scope.

(** ** Sending a record that the node's reader consumes *)

(** The broker accepts every record and the reader reaches it in time. *)
Definition env_live {bytes} (env : Env bytes) : Prop :=
  (forall k v, accepts env k v = Ok ()) /\ (forall o, reader_in_time env o = true).

(** A primary whose reader has caught up and has not acknowledged offsets still to come. *)
Definition synced {bytes} (st : KarapaceSchemaRegistry bytes) : Prop :=
  ready (schema_reader st) = true /\ primary (master_info st) = true /\
  greatest_offset (offset_watcher (schema_reader st)) < Z.of_nat (length (topic st)).

Section send.
Context {bytes : Type} `{!JsonCodec bytes} `{!JsonCodecLaws bytes} `{!SchemaLib}.
Context (env : Env bytes) (limit : nat) (Henv : env_live env).

#[local] Instance spec_database : KarapaceDatabase InMemoryDatabase :=
  InMemoryDatabase_KarapaceDatabase sha1.

Definition encode_value (value : option (list (string * json))) : bytes :=
  match value with Some d => json_encode (JObj d) | None => empty_bytes end.

Definition value_wf (value : option (list (string * json))) : Prop :=
  match value with Some d => json_wf (JObj d) | None => True end.

Lemma decode_own_key d v o :
  json_wf (JObj d) ->
  decode_key (mkMessage (Some (json_encode (JObj d))) v None o) = Ok (Some (JObj d)).
Proof.
  intros Hd. unfold decode_key, bytes_empty. simpl.
  rewrite bool_decide_false by apply encode_nonempty. simpl. by rewrite decode_encode.
Qed.

Lemma decode_own_value k value o :
  value_wf value -> message_value (mkMessage k (Some (encode_value value)) None o) = Ok value.
Proof.
  intros Hv. unfold message_value. simpl. destruct value as [d|]; simpl.
  - rewrite bool_decide_false by apply encode_nonempty. unfold parse_message_value.
    by rewrite decode_encode.
  - by rewrite bool_decide_true.
Qed.

(** Consuming a record the node has just produced applies its handler. *)
Lemma consume_own_record d value o (rd : ReaderState InMemoryDatabase) db' :
  json_wf (JObj d) -> value_wf value -> ready rd = true ->
  (forall rd1, database rd1 = database rd -> exists rd2,
     handle_msg limit d value rd1 = (rd2, Ok ()) /\ database rd2 = db') ->
  let rd' := (consume_messages limit
    [mkMessage (Some (json_encode (JObj d))) (Some (encode_value value)) None o] true rd).1 in
  database rd' = db' /\ ready rd' = true /\ offset_watcher rd' = offset_seen o (offset_watcher rd).
Proof.
  intros Hd Hv Hr Hh. unfold consume_messages, consume_loop, consume_message, detect_keymode.
  rewrite decode_own_key by done. rewrite decode_own_value by done.
  set (rd1 := (update_keymode (if is_key_in_canonical_format d then CANONICAL else DEPRECATED_KARAPACE) rd).1).
  assert (Hu : update_keymode (if is_key_in_canonical_format d then CANONICAL else DEPRECATED_KARAPACE) rd = (rd1, Ok ()))
    by done.
  assert (H1 : database rd1 = database rd /\ ready rd1 = ready rd /\ offset_watcher rd1 = offset_watcher rd).
  { subst rd1. unfold update_keymode, modify. simpl.
    by destruct (bool_decide (keymode _ = _) && _). }
  clearbody rd1. destruct H1 as (Hdb & Hr1 & Hw1).
  destruct (Hh rd1 Hdb) as (rd2 & Hm & Hdb2).
  pose proof (frame_handle_msg limit d value rd1) as Hf. rewrite Hm in Hf. simpl in Hf.
  destruct Hf as (_ & Hw2 & _ & Hr2 & _).
  unfold mbind, M_bind. rewrite Hu. unfold apply_message. rewrite Hm. simpl.
  rewrite Hr2, Hr1, Hr. simpl. destruct (is_key_in_canonical_format d); simpl;
    rewrite Hr2, Hr1, Hr, Hw2, Hw1; done.
Qed.

(** A record whose handler returns is sent, applied and acknowledged. *)
Lemma send_applied key d value (st : KarapaceSchemaRegistry bytes) db' :
  synced st -> ordered_key (keymode (key_formatter (schema_reader st))) key = Ok d ->
  json_wf (JObj d) -> value_wf value ->
  (forall rd1, database rd1 = db_of st -> exists rd2,
     handle_msg limit d value rd1 = (rd2, Ok ()) /\ database rd2 = db') ->
  exists st', send_message env limit key value st = (st', Ok ()) /\ db_of st' = db' /\ synced st' /\
    topic st' = topic st ++ [mkMessage (Some (json_encode (JObj d))) (Some (encode_value value)) None
                  (Z.of_nat (length (topic st)))].
Proof.
  intros (Hr & Hp & Hg) Hk Hd Hv Hh. destruct Henv as [Hacc Htime].
  unfold send_message, mbind, M_bind, format_key. simpl. rewrite Hk. simpl.
  unfold send_kafka_message. rewrite Hacc, Htime. unfold reader_consumes. simpl. rewrite Hp.
  set (o := Z.of_nat (length (topic st))) in *.
  destruct (consume_own_record d value o (schema_reader st) db' Hd Hv Hr Hh) as (H1 & H2 & H3).
  change (match value with Some d0 => json_encode (JObj d0) | None => empty_bytes end)
    with (encode_value value).
  set (rd' := (consume_messages limit _ true (schema_reader st)).1) in *. clearbody rd'.
  rewrite H3. simpl. rewrite (proj2 (Z.leb_le _ _)) by lia. simpl.
  eexists. split; [reflexivity|]. unfold synced, db_of. simpl. split_and!; try done.
  rewrite H3, length_app. simpl. subst o. lia.
Qed.
End send.

(** ** Reading back a schema record *)

Section readback.
Context {bytes : Type} `{!JsonCodec bytes} `{!JsonCodecLaws bytes} `{!SchemaLib}.
Context (limit : nat).

#[local] Instance readback_database : KarapaceDatabase InMemoryDatabase :=
  InMemoryDatabase_KarapaceDatabase sha1.

Lemma resolve_loop_ext f g refs rs ds :
  (forall r, f r = g r) -> resolve_loop f refs rs ds = resolve_loop g refs rs ds.
Proof.
  intros Hfg. revert rs ds; induction refs as [|r refs IH]; intros rs ds; simpl; [done|].
  rewrite Hfg. destruct (g r) as [[r' d]|]; simpl; [apply IH|done].
Qed.

(** Resolution only looks at the live versions. *)
Lemma resolve_references_ext db1 db2 n refs :
  (forall s, find_subject_schemas db1 s false = find_subject_schemas db2 s false) ->
  resolve_references n db1 refs = resolve_references n db2 refs.
Proof.
  intros Hdb. revert refs; induction n as [|n IH]; intros refs; simpl; [done|].
  apply resolve_loop_ext. intros r. unfold resolve_reference. simpl. rewrite Hdb.
  destruct (find_subject_schemas db2 _ _) as [|p l]; [done|].
  destruct (match r with Resolved r0 => _ | _ => _ end) as [rf|]; cbn [mbind result_bind]; [|done].
  destruct (dget _ (p :: l)) as [sv|]; [|done]. unfold resolve_and_validate.
  destruct (ts_references (sv_schema sv)) as [[|x l']|]; try done. by rewrite IH.
Qed.

(** Resolving what has been resolved gives the same references and dependencies. *)
Lemma resolve_references_idempotent db n refs rs ds :
  resolve_references n db refs = Ok (rs, ds) ->
  resolve_references n db (map Resolved rs) = Ok (rs, ds).
Proof.
  destruct n as [|n]; [done|]. simpl. set (f := resolve_reference (resolve_references n db) db).
  assert (Hone : forall r rf d, f r = Ok (rf, d) -> f (Resolved rf) = Ok (rf, d)).
  { intros r rf d. subst f. unfold resolve_reference. simpl.
    destruct (find_subject_schemas db (reference_subject r) false) as [|p l] eqn:E; [done|].
    intros (rf' & Hrf & Hd)%bind_Ok. destruct (dget _ (p :: l)) as [sv|] eqn:Esv; [|done].
    apply bind_Ok in Hd as (val & Hval & [= -> <-]).
    assert (Hs : ref_subject rf = reference_subject r).
    { destruct r as [r0|]; [by injection Hrf as ->|].
      by apply bind_Ok in Hrf as (v & _ & [= <-]). }
    rewrite Hs, E. cbn [mbind result_bind]. by rewrite Esv, Hval. }
  assert (Hloop : forall refs acc ds0 rs' ds', resolve_loop f refs acc ds0 = Ok (rs', ds') ->
    exists new, rs' = acc ++ new /\
      forall acc', resolve_loop f (map Resolved new) acc' ds0 = Ok (acc' ++ new, ds')).
  { clear refs rs ds. induction refs as [|r refs IH]; intros acc ds0 rs' ds'; simpl.
    - intros [= <- <-]. exists []. rewrite app_nil_r. split; [done|]. intros acc'. by rewrite app_nil_r.
    - intros ([rf d] & Hf & Hl)%bind_Ok. apply IH in Hl as (new & -> & Hnew). exists (rf :: new).
      rewrite <- app_assoc. split; [done|]. intros acc'. simpl. rewrite (Hone _ _ _ Hf). simpl.
      rewrite Hnew. by rewrite <- app_assoc. }
  intros Hr. apply Hloop in Hr as (new & -> & Hr). apply Hr.
Qed.

(** A schema with these record references reads back from its record as itself. *)
Definition reread (db : InMemoryDatabase) (sch : TypedSchema) (refs : option (list Reference))
  (deps : option Dependencies) : Prop :=
  match refs with
  | None => deps = None
  | Some l => l ≠ [] /\ Forall (fun r => 0 <= ref_version r) l /\ schema_type sch ≠ JSONSCHEMA /\
      exists ds, deps = Some ds /\ resolve_references limit db (map Resolved l) = Ok (l, ds)
  end /\
  match schema_type sch with
  | PROTOBUF =>
      parse_protobuf_schema_definition (schema_str sch) refs deps false false false = Ok (Ok (schema_str sch))
  | _ => exists d, json_dumps_sorted (schema_str sch) = Ok d /\ normalize_json d = Ok (schema_str sch)
  end.

Lemma read_own_references l :
  Forall (fun r => 0 <= ref_version r) l ->
  read_references (JList (map reference_to_dict l)) = Ok (map Resolved l).
Proof.
  intros Hl. simpl. induction Hl as [|r l Hr Hl IH]; simpl in *; [done|]. rewrite IH.
  unfold reference_from_mapping, read_str, read_int, dindex. simpl.
  destruct (Z.eqb_spec (ref_version r) (-1)); [lia|].
  unfold MINUS_1_VERSION_TAG. destruct (Z.ltb_spec (ref_version r) (-1)); [lia|]. simpl.
  by destruct r.
Qed.

Lemma record_references_own db sch refs deps :
  reread db sch refs deps ->
  record_references limit db (schema_type sch)
    (match refs with Some (r :: rs) => JList (map reference_to_dict (r :: rs)) | _ => JNull end)
  = Ok (refs, deps).
Proof.
  intros [Hr _]. destruct refs as [[|r l]|]; [by destruct Hr| |].
  - destruct Hr as (_ & Hv & Ht & ds & -> & Hres).
    pose proof (read_own_references _ Hv) as Hread.
    unfold record_references. destruct (schema_type sch); [|done|];
      rewrite Hread; cbn [truthy map]; cbn [mbind result_bind];
      change (Resolved r :: map Resolved l) with (map Resolved (r :: l)); by rewrite Hres.
  - rewrite Hr. by destruct (schema_type sch).
Qed.

Lemma parse_own_record db subject sch i v del refs deps :
  -1 <= v -> reread db sch refs deps ->
  parse_schema_record limit db (schema_value subject sch i v del refs) =
    Ok (mkSchemaRecord subject i v del (mkTyped (schema_type sch) (schema_str sch) refs deps) refs).
Proof.
  intros Hv Hr. pose proof (record_references_own _ _ _ _ Hr) as Hrefs.
  destruct Hr as [_ Htext]. unfold parse_schema_record.
  assert (Hfields : let d := schema_value subject sch i v del refs in
    read_str "schema" d = Ok (schema_str sch) /\ read_str "subject" d = Ok subject /\
    read_int "id" d = Ok i /\ dindex "version"%string d = Ok (JInt v) /\
    jget_default "deleted" (JBool false) d = JBool del /\
    jget "references" d =
      (match refs with Some (r :: rs) => JList (map reference_to_dict (r :: rs)) | _ => JNull end) /\
    schema_type_of_json (jget_default "schemaType" (JStr "AVRO") d) = Ok (schema_type sch)).
  { unfold schema_value. destruct refs as [[|r rs]|], (schema_type sch); by split_and!. }
  destruct Hfields as (-> & -> & -> & -> & -> & -> & ->). cbn [mbind result_bind].
  unfold Version_init, MINUS_1_VERSION_TAG. destruct (Z.ltb_spec v (-1)); [lia|].
  cbn [mbind result_bind reraise]. rewrite Hrefs. cbn [mbind result_bind].
  unfold record_schema_str, TypedSchema_init, normalize_schema_str.
  destruct (schema_type sch); [destruct Htext as (d & -> & Hn)..|rewrite Htext];
    simpl; rewrite ?Hn; done.
Qed.
End readback.

(** ** Keys and values of the records are well-formed *)

(** Lists of pairs with distinct literal keys are dicts. *)
Ltac literal_wf :=
  repeat match goal with |- _ /\ _ => split end; auto; apply (bool_decide_unpack _); vm_compute; exact I.

Lemma ordered_schema_key mode subject v :
  exists d, ordered_key mode (schema_key subject v) = Ok d /\ json_wf (JObj d) /\
    dget "keytype"%string d = Some (JStr "SCHEMA") /\
    dget "subject"%string d = Some (JStr subject) /\ dget "version"%string d = Some (JInt v).
Proof. destruct mode; (eexists; split; [reflexivity|]); simpl; split_and!; try done; literal_wf. Qed.

Lemma ordered_delete_key mode subject :
  exists d, ordered_key mode
      [("subject", JStr subject); ("magic", JInt 0); ("keytype", JStr "DELETE_SUBJECT")]%string = Ok d /\
    json_wf (JObj d) /\ dget "keytype"%string d = Some (JStr "DELETE_SUBJECT").
Proof. destruct mode; (eexists; split; [reflexivity|]); simpl; split_and!; try done; literal_wf. Qed.

Lemma ordered_config_key mode subject :
  exists d, ordered_key mode (config_key subject) = Ok d /\ json_wf (JObj d) /\
    dget "keytype"%string d = Some (JStr "CONFIG") /\
    jget "subject" d = match subject with Some s => JStr s | None => JNull end.
Proof.
  destruct mode, subject; (eexists; split; [reflexivity|]); simpl; split_and!; try done; literal_wf.
Qed.

Lemma references_wf (l : list Reference) : json_wf (JList (map reference_to_dict l)).
Proof. simpl. induction l as [|r l IH]; simpl; [done|]. split; [|done]. simpl. literal_wf. Qed.

Lemma schema_value_wf subject sch i v del refs :
  json_wf (JObj (schema_value subject sch i v del refs)).
Proof.
  unfold schema_value. destruct refs as [[|r rs]|], (bool_decide (schema_type sch = AVRO));
    cbn -[reference_to_dict]; try literal_wf.
  all: pose proof (references_wf (r :: rs)) as Hr; cbn -[reference_to_dict] in Hr; destruct Hr; literal_wf.
Qed.

(** ** Registering a schema *)

Section write.
Context {bytes : Type} `{!JsonCodec bytes} `{!JsonCodecLaws bytes} `{!SchemaLib} `{!Checkers}.
Context (env : Env bytes) (limit : nat) (Henv : env_live env).

#[local] Instance write_database : KarapaceDatabase InMemoryDatabase :=
  InMemoryDatabase_KarapaceDatabase sha1.

Lemma handle_schema_record key value r (rd : ReaderState InMemoryDatabase) :
  value ≠ [] -> dget "keytype"%string key = Some (JStr "SCHEMA") ->
  parse_schema_record limit (database rd) value = Ok r ->
  handle_msg limit key (Some value) rd =
    (set_database (insert_schema_version sha1 (rec_subject r) (rec_id r) (rec_version r)
       (rec_deleted r) (rec_schema r) (rec_references r) (database rd)) rd, Ok ()).
Proof.
  intros Hv Hk Hp. unfold handle_msg. rewrite Hk. unfold catch, mbind, M_bind, lift. simpl.
  destruct value as [|p l]; [done|]. unfold handle_msg_schema. by rewrite Hp.
Qed.

(** The record of a schema inserts the version. *)
Lemma send_schema_applied subject sch i v del refs deps (st : KarapaceSchemaRegistry bytes) :
  synced st -> -1 <= v -> reread limit (db_of st) sch refs deps ->
  exists st', send_schema_message env limit subject (Some sch) i v del refs st = (st', Ok ()) /\
    db_of st' = insert_schema_version sha1 subject i v del
                  (mkTyped (schema_type sch) (schema_str sch) refs deps) refs (db_of st) /\
    synced st'.
Proof.
  intros Hs Hv Hr.
  destruct (ordered_schema_key (keymode (key_formatter (schema_reader st))) subject v)
    as (d & Hk & Hd & Hkt & _ & _).
  destruct (send_applied env limit Henv (schema_key subject v) d
    (Some (schema_value subject sch i v del refs)) st
    (insert_schema_version sha1 subject i v del
       (mkTyped (schema_type sch) (schema_str sch) refs deps) refs (db_of st)))
    as (st' & H1 & H2 & H3 & _); [done|done|done|apply schema_value_wf| |eauto].
  intros rd1 Hdb. erewrite handle_schema_record; [|done|done|].
  2: { rewrite Hdb. by apply parse_own_record. }
  eexists. split; [reflexivity|]. simpl. by rewrite Hdb.
Qed.

Lemma get_schema_id_subjects db sch : subjects (get_schema_id db sch).1 = subjects db.
Proof. unfold get_schema_id. by destruct get_schema_id_from_storage. Qed.

Lemma find_subject_schemas_ext db1 db2 s b :
  subjects db1 = subjects db2 -> find_subject_schemas db1 s b = find_subject_schemas db2 s b.
Proof. intros Hs. unfold find_subject_schemas. by rewrite Hs. Qed.

Lemma reread_ext db1 db2 sch refs deps :
  subjects db1 = subjects db2 -> reread limit db1 sch refs deps -> reread limit db2 sch refs deps.
Proof.
  intros Hs [Hr Ht]. split; [|done]. destruct refs as [l|]; [|done].
  destruct Hr as (? & ? & ? & ds & ? & Hres). split_and!; try done. exists ds. split; [done|].
  rewrite <- Hres. apply resolve_references_ext. intros s. by apply find_subject_schemas_ext.
Qed.

Lemma register_as_applied subject sch refs deps v (st : KarapaceSchemaRegistry bytes) :
  synced st -> -1 <= v -> reread limit (db_of st) sch refs deps ->
  exists st', register_as env limit subject sch refs (Ok v) st =
      (st', Ok (get_schema_id (db_of st) sch).2) /\
    db_of st' = insert_schema_version sha1 subject (get_schema_id (db_of st) sch).2 v false
                  (mkTyped (schema_type sch) (schema_str sch) refs deps) refs
                  (get_schema_id (db_of st) sch).1 /\
    synced st'.
Proof.
  intros Hs Hv Hr. unfold register_as, mbind, M_bind, lift, take_schema_id.
  pose proof (get_schema_id_subjects (db_of st) sch) as Hsub.
  destruct (get_schema_id (db_of st) sch) as [db i]. simpl in *.
  destruct (send_schema_applied subject sch i v false refs deps (set_db db st)) as (st' & -> & Hdb & Hs');
    [done|done|by eapply reread_ext|]. by exists st'.
Qed.
(** The schema object the reader builds from the record. *)
Definition read_schema (sch : TypedSchema) (refs : option (list Reference))
  (deps : option Dependencies) : TypedSchema := mkTyped (schema_type sch) (schema_str sch) refs deps.

(** The new version is acceptable: nothing live to compare with, or the check passed. *)
Definition admitted (st : KarapaceSchemaRegistry bytes) (subject : Subject) (sch : TypedSchema) : Prop :=
  get_live_versions_sorted (find_subject_schemas (db_of st) subject true) = [] \/
  exists res, check_schema_compatibility limit st sch subject = Ok res /\ is_incompatible res = false.

Lemma empty_not_stored db s v sv :
  find_subject_schemas db s true = [] -> ~ stored db s v sv.
Proof.
  unfold find_subject_schemas. intros He (sd & Hsd & Hv). rewrite Hsd in He. simpl in He.
  by rewrite He in Hv.
Qed.

Lemma next_version_fresh db s v :
  db_wf sha1 db -> get_next_version db s = Ok v ->
  -1 <= v /\ forall sv, ~ stored db s v sv.
Proof.
  intros Hwf Hn. pose proof (get_next_version_cases sha1 db s Hwf) as Hc. rewrite Hn in Hc.
  destruct Hc as (sd & Hsd & Hnone & _). split.
  - unfold get_next_version, Versioner_V in Hn.
    apply bind_Ok in Hn as (? & _ & Hn). apply bind_Ok in Hn as (m & _ & Hn).
    apply bind_Ok in Hn as ([] & _ & Hn). apply bind_Ok in Hn as (z & _ & Hn).
    unfold Version_init, MINUS_1_VERSION_TAG in Hn. destruct (Z.ltb_spec z (-1)); [done|].
    injection Hn as <-. lia.
  - intros sv (sd' & Hsd' & Hv). congruence.
Qed.

(** The three ways a registration ends. *)
Lemma write_cases subject sch refs deps st :
  synced st -> db_wf sha1 (db_of st) -> reread limit (db_of st) sch refs deps ->
  let '(st', r) := write_new_schema_local env limit subject sch refs st in
  (st' = st /\ exists i, r = Ok i /\
     get_schema_id_if_exists sha1 (db_of st) subject sch false = Some i) \/
  (st' = st /\ exists e, r = Raise e) \/
  (exists v, r = Ok (get_schema_id (db_of st) sch).2 /\ -1 <= v /\
     (forall sv, ~ stored (db_of st) subject v sv) /\ admitted st subject sch /\ synced st' /\
     db_of st' = insert_schema_version sha1 subject (get_schema_id (db_of st) sch).2 v false
                   (read_schema sch refs deps) refs (get_schema_id (db_of st) sch).1).
Proof.
  intros Hs Hwf Hr. unfold write_new_schema_local.
  destruct (get_schema_id_if_exists sha1 (db_of st) subject sch false) as [i|] eqn:Ei; [left; eauto|].
  assert (Hreg : forall vr, (forall v, vr = Ok v -> -1 <= v /\ (forall sv, ~ stored (db_of st) subject v sv)) ->
    admitted st subject sch ->
    let '(st', r) := register_as env limit subject sch refs vr st in
    (st' = st /\ exists e, r = Raise e) \/
    (exists v, r = Ok (get_schema_id (db_of st) sch).2 /\ -1 <= v /\
       (forall sv, ~ stored (db_of st) subject v sv) /\ admitted st subject sch /\ synced st' /\
       db_of st' = insert_schema_version sha1 subject (get_schema_id (db_of st) sch).2 v false
                     (read_schema sch refs deps) refs (get_schema_id (db_of st) sch).1)).
  { intros [v|e] Hv Ha; [|left; eauto]. destruct (Hv v eq_refl) as [Hge Hfresh].
    destruct (register_as_applied subject sch refs deps v st Hs Hge Hr) as (st' & -> & Hdb & Hs').
    right. exists v. by split_and!. }
  pose proof (next_version_fresh (db_of st) subject) as Hnext.
  destruct (find_subject_schemas (db_of st) subject true) as [|p l] eqn:El.
  - specialize (Hreg (Version_init (JInt 1))). destruct (register_as _ _ _ _ _ _ _). right.
    apply Hreg; [|left; by rewrite El]. intros v [= <-]. split; [lia|]. intros sv. by apply empty_not_stored.
  - specialize (Hreg (get_next_version (db_of st) subject)).
    destruct (get_live_versions_sorted (p :: l)) as [|w ws] eqn:Elive.
    + destruct (register_as _ _ _ _ _ _ _). right. apply Hreg; [by auto|left; by rewrite El].
    + destruct (check_schema_compatibility limit st sch subject) as [res|e] eqn:Ec; [|right; left; eauto].
      destruct (is_incompatible res) eqn:Einc.
      * unfold mbind, M_bind, lift. destruct (get_compatibility_mode st subject); simpl; right; left; eauto.
      * destruct (register_as _ _ _ _ _ _ _). right. apply Hreg; [by auto|right; eauto].
Qed.

(** The state after registering a new version is reachable by database operations. *)
Lemma write_reach subject sch refs deps v (st st' : KarapaceSchemaRegistry bytes) :
  db_reach sha1 (db_of st) -> (forall sv, ~ stored (db_of st) subject v sv) ->
  db_of st' = insert_schema_version sha1 subject (get_schema_id (db_of st) sch).2 v false
                (read_schema sch refs deps) refs (get_schema_id (db_of st) sch).1 ->
  db_reach sha1 (db_of st').
Proof.
  intros Hreach Hfresh ->.
  apply (reach_step sha1 (OpInsert subject (get_schema_id (db_of st) sch).2 v false
    (read_schema sch refs deps) refs) (get_schema_id (db_of st) sch).1); [|intros sv|done].
  - by apply (reach_step sha1 (OpGetSchemaId sch) (db_of st)).
  - intros (sd & Hsd & Hv). exfalso. apply (Hfresh sv). exists sd. by rewrite <- (get_schema_id_subjects _ sch).
Qed.

(** After inserting a live version, the index knows its schema. *)
Lemma insert_indexed s i v sch sch' refs db :
  db_wf sha1 db -> fingerprint sha1 sch' = fingerprint sha1 sch ->
  get_schema_id_if_exists sha1 (insert_schema_version sha1 s i v false sch refs db) s sch' false = Some i.
Proof.
  intros Hwf Hfp. destruct (insert_index sha1 s i v false sch refs db) as (db0 & -> & _ & _).
  unfold index_schema_version, get_schema_id_if_exists. simpl.
  rewrite fingerprints_ins_fold. simpl. rewrite lookup_insert_eq, cached_fingerprint by done.
  by rewrite Hfp, lookup_insert_eq.
Qed.

Lemma read_schema_fingerprint sch refs deps :
  ts_references sch = refs -> fingerprint sha1 (read_schema sch refs deps) = fingerprint sha1 sch.
Proof. intros Hr. unfold fingerprint, fingerprint_str, read_schema. simpl. by rewrite Hr. Qed.
End write.

(** ** Deleting *)

(** The stored version [v] of subject [s], deleted or not. *)
Definition version_of (db : InMemoryDatabase) (s : Subject) (v : Version) : option SchemaVersion :=
  dget v (find_subject_schemas db s true).

Lemma version_of_same_store db db' s v : same_store db db' -> version_of db' s v = version_of db s v.
Proof. intros (_ & Hs & _). unfold version_of, find_subject_schemas. by rewrite Hs. Qed.

Lemma version_of_dupdate f s db s' v :
  version_of (with_subjects (dupdate f s (subjects db)) db) s' v =
  if decide (s = s') then sd ← dget s (subjects db); dget v (sd_schemas (f sd)) else version_of db s' v.
Proof.
  unfold version_of, find_subject_schemas. simpl. case_decide as E; subst.
  - rewrite dget_dupdate_eq. by destruct (dget s' (subjects db)).
  - by rewrite dget_dupdate_ne.
Qed.

Lemma version_of_delete_schema sha1 s v db db' s' v' :
  delete_subject_schema sha1 s v db = Ok db' ->
  version_of db' s' v' = if decide ((s, v) = (s', v')) then None else version_of db s' v'.
Proof.
  intros (sd & Hsd & Hs)%delete_subject_schema_store. rewrite (version_of_same_store _ _ _ _ Hs).
  rewrite version_of_dupdate, Hsd. unfold version_of, find_subject_schemas.
  case_decide as E1; case_decide as E2; simplify_eq; simpl; try done.
  - by rewrite dget_ddel_eq.
  - rewrite Hsd, dget_ddel_ne by congruence. done.
Qed.

Lemma version_of_delete_hard s db db' s' v' :
  delete_subject_hard s db = Ok db' ->
  version_of db' s' v' = if decide (s = s') then None else version_of db s' v'.
Proof.
  intros [_ Hs]%delete_subject_hard_store. rewrite (version_of_same_store _ _ _ _ Hs).
  unfold version_of, find_subject_schemas. simpl. case_decide as E; subst.
  - by rewrite dget_ddel_eq.
  - by rewrite dget_ddel_ne.
Qed.

Lemma version_of_delete_subject sha1 s v db db' s' v' :
  db_wf sha1 db -> delete_subject sha1 s v db = Ok db' ->
  version_of db' s' v' =
    sv ← version_of db s' v'; Some (if decide (s = s') then if v' <=? v then mark_deleted sv else sv else sv).
Proof.
  intros Hwf (sd & Hsd & Hs)%delete_subject_store. rewrite (version_of_same_store _ _ _ _ Hs).
  rewrite version_of_dupdate, Hsd. unfold version_of, find_subject_schemas.
  case_decide as E; subst; simpl.
  - rewrite Hsd, dget_dmap. destruct (dget v' (sd_schemas sd)) as [sv|] eqn:Ev; simpl; [|done].
    by destruct (wf_entry _ _ Hwf _ _ _ _ Hsd Ev) as [_ ->].
  - by destruct (dget v' _).
Qed.

(** The effect of a handler on the database depends on the database alone. *)
Section independence.
Context {DB : Type} `{!KarapaceDatabase DB} `{!SchemaLib}.
Context (limit : nat).

Definition db_determined {A} (m : M (ReaderState DB) A) : Prop := forall st1 st2,
  database st1 = database st2 ->
  (m st1).2 = (m st2).2 /\ database (m st1).1 = database (m st2).1.

Lemma det_bind {A B} (m : M (ReaderState DB) A) (f : A -> M (ReaderState DB) B) :
  db_determined m -> (forall a, db_determined (f a)) -> db_determined (mbind f m).
Proof.
  intros Hm Hf st1 st2 Hdb. unfold mbind, M_bind. destruct (Hm st1 st2 Hdb) as [Hr Hd].
  destruct (m st1) as [s1 [a1|e1]], (m st2) as [s2 [a2|e2]]; simplify_eq/=; [by apply Hf|done].
Qed.
Lemma det_gets {A} (f : DB -> A) : db_determined (gets (fun st => f (database st))).
Proof. intros st1 st2 Hdb. simpl. by rewrite Hdb. Qed.
Lemma det_lift {A} (r : result A) : db_determined (lift r).
Proof. done. Qed.
Lemma det_on_db f : db_determined (on_db f).
Proof. intros st1 st2 Hdb. simpl. by rewrite Hdb. Qed.
Lemma det_try_db f : db_determined (try_db f).
Proof. intros st1 st2 Hdb. unfold try_db. rewrite Hdb. by destruct (f (database st2)). Qed.
Lemma det_compat level : db_determined (modify (set_compat_level level)).
Proof. done. Qed.
Lemma det_ret {A} (a : A) : db_determined (mret a).
Proof. done. Qed.
Lemma det_raise {A} e : db_determined (raise (A := A) e).
Proof. done. Qed.

Lemma handle_msg_db key value : db_determined (handle_msg (DB := DB) limit key value).
Proof.
  assert (Hall : forall (A : Type) (m : M (ReaderState DB) A) h, db_determined m ->
    (forall e, db_determined (h e)) -> db_determined (catch m h)).
  { intros A m h Hm Hh st1 st2 Hdb. unfold catch. destruct (Hm st1 st2 Hdb) as [Hr Hd].
    destruct (m st1) as [s1 [a1|e1]], (m st2) as [s2 [a2|e2]]; simplify_eq/=; [done|by apply Hh]. }
  unfold handle_msg. destruct (dget _ key); [|apply det_raise]. apply Hall; [|intros; apply det_raise].
  apply det_bind; [apply det_lift|]. intros [].
  - unfold handle_msg_config. repeat first [apply det_lift | apply det_compat | apply det_on_db
      | apply det_ret | apply det_raise | apply (det_gets (fun db => db_find_subject db _)) | apply det_bind | progress intros | case_match].
  - unfold handle_msg_schema. assert (Hhard : db_determined (handle_msg_schema_hard_delete (DB := DB) key)).
    { unfold handle_msg_schema_hard_delete. repeat first [apply det_lift | apply det_try_db
      | apply det_ret | apply (det_gets (fun db => db_find_subject db _))
      | apply (det_gets (fun db => din _ (db_find_subject_schemas db _ true)))
      | apply (det_gets (fun db => db_find_subject_schemas db _ true))
      | apply det_bind | progress intros | case_match]. }
    destruct value as [[|p l]|]; [done| |done]. intros st1 st2 Hdb. rewrite Hdb.
    destruct (parse_schema_record limit (database st2) (p :: l)); [|done]. by apply det_on_db.
  - unfold handle_msg_delete_subject. repeat first [apply det_lift | apply det_try_db
      | apply det_ret | apply det_raise | apply (det_gets (fun db => db_find_subject db _)) | apply det_bind | progress intros | case_match].
  - apply det_ret.
Qed.
End independence.

Section delete.
Context {bytes : Type} `{!JsonCodec bytes} `{!JsonCodecLaws bytes} `{!SchemaLib} `{!Checkers}.
Context (env : Env bytes) (limit : nat) (Henv : env_live env).

#[local] Instance delete_database : KarapaceDatabase InMemoryDatabase :=
  InMemoryDatabase_KarapaceDatabase sha1.

(** What the tombstone of a stored version does. *)
Lemma handle_tombstone key s v sv (rd : ReaderState InMemoryDatabase) :
  dget "keytype"%string key = Some (JStr "SCHEMA") -> dget "subject"%string key = Some (JStr s) ->
  dget "version"%string key = Some (JInt v) -> -1 <= v -> version_of (database rd) s v = Some sv ->
  exists rd', handle_msg limit key None rd = (rd', Ok ()) /\
    forall s' v', version_of (database rd') s' v' =
      if decide ((s, v) = (s', v')) then None else version_of (database rd) s' v'.
Proof.
  intros Hk Hsub Hver Hv Hsv. unfold version_of, find_subject_schemas in Hsv.
  destruct (dget s (subjects (database rd))) as [sd|] eqn:Hsd; [|done].
  unfold handle_msg. rewrite Hk. unfold catch, handle_msg_schema, handle_msg_schema_hard_delete.
  unfold mbind, M_bind, lift, gets, read_str, dindex. rewrite Hsub, Hver. simpl.
  unfold MINUS_1_VERSION_TAG. destruct (Z.ltb_spec v (-1)); [lia|].
  unfold find_subject, din. rewrite Hsd. unfold find_subject_schemas. rewrite Hsd, Hsv.
  simpl. unfold try_db. simpl.
  destruct (delete_subject_schema sha1 s v (database rd)) as [db1|e] eqn:E1.
  2: { unfold delete_subject_schema, dindex in E1. rewrite Hsd in E1. simpl in E1. by rewrite Hsv in E1. }
  pose proof (fun s' v' => version_of_delete_schema sha1 s v _ _ s' v' E1) as Hd1.
  simpl. destruct (match dget s (subjects db1) with Some sd0 => sd_schemas sd0 | None => [] end) eqn:El.
  - change (database (set_database db1 rd)) with db1.
    destruct (delete_subject_hard s db1) as [db2|e] eqn:E2.
    + pose proof (fun s' v' => version_of_delete_hard s _ _ s' v' E2) as Hd2.
      eexists. split; [reflexivity|]. simpl. intros s' v'. rewrite Hd2. case_decide as Es.
      * subst s'. rewrite <- Hd1. unfold version_of, find_subject_schemas.
        destruct (dget s (subjects db1)); [by rewrite El|done].
      * by rewrite Hd1.
    + exfalso. apply delete_subject_schema_store in E1 as (sd1 & Hsd1 & Hs1).
      destruct Hs1 as (_ & Hs1 & _). unfold delete_subject_hard, dindex in E2.
      rewrite Hs1 in E2. simpl in E2. rewrite dget_dupdate_eq, Hsd1 in E2. done.
  - eexists. split; [reflexivity|]. simpl. intros s' v'. apply Hd1.
Qed.
(** Sending a tombstone removes the version and nothing else. *)
Lemma send_tombstone_applied s i v sv refs (st : KarapaceSchemaRegistry bytes) :
  synced st -> -1 <= v -> version_of (db_of st) s v = Some sv ->
  exists st', send_schema_message env limit s None i v true refs st = (st', Ok ()) /\ synced st' /\
    forall s' v', version_of (db_of st') s' v' =
      if decide ((s, v) = (s', v')) then None else version_of (db_of st) s' v'.
Proof.
  intros Hs Hv Hsv.
  destruct (ordered_schema_key (keymode (key_formatter (schema_reader st))) s v)
    as (d & Hk & Hd & Hkt & Hsub & Hver).
  destruct (handle_tombstone d s v sv (schema_reader st) Hkt Hsub Hver Hv Hsv) as (rd0 & Hm0 & Heff).
  destruct (send_applied env limit Henv (schema_key s v) d None st (database rd0))
    as (st' & H1' & H2' & H3' & _); [done|done|done|done| |].
  - intros rd1 Hdb. pose proof Hsv as Hsv1. unfold db_of in Hdb, Hsv1. rewrite <- Hdb in Hsv1.
    pose proof (handle_msg_db limit d None rd1 (schema_reader st) Hdb) as [Hr He].
    rewrite Hm0 in Hr, He. destruct (handle_msg limit d None rd1) as [rd2 r]; simpl in *. subst r. eauto.
  - exists st'. rewrite H2'. split_and!; try done.
Qed.

Lemma send_delete_subject_applied s v (st : KarapaceSchemaRegistry bytes) :
  synced st -> db_wf sha1 (db_of st) -> -1 <= v -> is_Some (dget s (subjects (db_of st))) ->
  exists st', send_delete_subject_message env limit s v st = (st', Ok ()) /\ synced st' /\
    delete_subject sha1 s v (db_of st) = Ok (db_of st').
Proof.
  intros Hs Hwf Hv [sd Hsd].
  destruct (ordered_delete_key (keymode (key_formatter (schema_reader st))) s) as (d & Hk & Hd & Hkt).
  destruct (delete_subject sha1 s v (db_of st)) as [db'|e] eqn:E.
  2: { unfold delete_subject, dindex in E. by rewrite Hsd in E. }
  destruct (send_applied env limit Henv
    [("subject", JStr s); ("magic", JInt 0); ("keytype", JStr "DELETE_SUBJECT")]%string d
    (Some [("subject", JStr s); ("version", JInt v)]%string) st db')
    as (st' & H1' & H2' & H3' & _); [done|done|done|simpl; literal_wf| |].
  - intros rd1 Hdb. unfold handle_msg. rewrite Hkt. unfold catch, mbind, M_bind, lift, gets. simpl.
    unfold mbind, M_bind. simpl. unfold MINUS_1_VERSION_TAG. destruct (Z.ltb_spec v (-1)); [lia|]. simpl.
    unfold find_subject, din. rewrite Hdb, Hsd. unfold try_db. rewrite Hdb. simpl. rewrite E.
    eexists. split; [reflexivity|]. done.
  - exists st'. by rewrite H2'.
Qed.
End delete.
