(* ===== verification/RegistryProps.v ===== *)
(** * The registry's guarantees

    The theorems a client of the registry relies on: registration stores what was submitted and
    is idempotent, only admitted schemas are registered, deletions respect their guards and do
    what they say, and the database stays well-formed under every sequence of operations,
    whatever the broker and the reader thread do. *)

From stdpp Require Import sorting.
From S2P Require Import Prelude Json Typing Models Schemas Database DatabaseSpec DatabaseIndex KeyFormat OffsetWatcher Reader ReaderSpec Compat Registry RegistrySpec.
Open Scope Z_scope.

(** ** Operations as data *)

Inductive RegistryOp : Type :=
  | RWrite (subject : Subject) (schema : TypedSchema) (references : option (list Reference))
  | RDeleteSubject (subject : Subject) (permanent : bool)
  | RDeleteVersion (subject : Subject) (version : Version) (permanent : bool)
  | RSetConfig (level : CompatibilityModes) (subject : option Subject)
  | RDeleteConfig (subject : Subject).

Section operations.
Context {bytes : Type} `{!JsonCodec bytes} `{!SchemaLib} `{!Checkers}.
Context (env : Env bytes) (limit : nat).

(** The state an operation leaves, whether it returns or raises. *)
Definition run_registry_op (op : RegistryOp) (st : KarapaceSchemaRegistry bytes)
  : KarapaceSchemaRegistry bytes :=
  match op with
  | RWrite s sch refs => (write_new_schema_local env limit s sch refs st).1
  | RDeleteSubject s p => (subject_delete_local env limit s p st).1
  | RDeleteVersion s v p => (subject_version_delete_local env limit s v p st).1
  | RSetConfig l s => (send_config_message env limit l s st).1
  | RDeleteConfig s => (send_config_subject_delete_message env limit s st).1
  end.

#[local] Instance props_database : KarapaceDatabase InMemoryDatabase :=
  InMemoryDatabase_KarapaceDatabase sha1.

Context (R : relation InMemoryDatabase) `{!DatabaseStep R}.

Definition on_registry : relation (KarapaceSchemaRegistry bytes) := fun st st' =>
  R (db_of st) (db_of st').

#[local] Instance on_registry_preorder : PreOrder on_registry.
Proof. unfold on_registry; split; red; intros; [reflexivity|etrans; eauto]. Qed.

Lemma steps_send_message key value : steps on_registry (send_message env limit key value).
Proof.
  unfold send_message. apply steps_bind; [apply _|intros st; reflexivity|]. intros kb st.
  unfold send_kafka_message, on_registry.
  destruct (accepts env kb _) as [u|e]; [|destruct e; reflexivity].
  match goal with |- context [wait_for_offset _ _ ?w] => destruct (wait_for_offset _ _ w).2 end;
    simpl; (destruct (reader_in_time env _); [|reflexivity]); unfold db_of; simpl;
    apply (steps_consume_messages limit R).
Qed.

Lemma steps_read {A} (f : KarapaceSchemaRegistry bytes -> result A) :
  steps on_registry (fun st => (st, f st)).
Proof. intros st. reflexivity. Qed.

Lemma steps_for_each {A} (l : list A) (body : A -> M (KarapaceSchemaRegistry bytes) ()) :
  (forall x, steps on_registry (body x)) -> steps on_registry (for_each l body).
Proof.
  intros Hb. induction l as [|x l IH]; simpl; [apply steps_ret, _|].
  apply steps_bind; [apply _|apply Hb|]. intros _. exact IH.
Qed.

Lemma steps_register_as s sch refs v : steps on_registry (register_as env limit s sch refs v).
Proof.
  unfold register_as. apply steps_bind; [apply _|apply steps_lift, _|]. intros v'.
  apply steps_bind; [apply _| |].
  - intros st. unfold take_schema_id, on_registry.
    pose proof (step_get_schema_id (R := R) (db_of st) sch) as Hs. simpl in Hs.
    destruct (get_schema_id (db_of st) sch) as [db i]. done.
  - intros i. apply steps_bind; [apply _|apply steps_send_message|]. intros _. apply steps_ret, _.
Qed.

Lemma steps_delete_soft s : steps on_registry (subject_delete_soft env limit s).
Proof.
  intros st. unfold subject_delete_soft.
  assert (Hsend : forall v (l : list Version), steps on_registry
    (_ ← lift (check_not_referenced (db_of st) s v); _ ← send_delete_subject_message env limit s v; mret l)).
  { intros v l. apply steps_bind; [apply _|apply steps_lift, _|]. intros _.
    apply steps_bind; [apply _|apply steps_send_message|]. intros _. apply steps_ret, _. }
  destruct (subject_get (db_of st) s false) as [live|e].
  - destruct (last (dkeys live)); [apply Hsend|reflexivity].
  - destruct e; try reflexivity. apply Hsend.
Qed.

Lemma registry_op_step op st : R (db_of st) (db_of (run_registry_op op st)).
Proof.
  destruct op as [s sch refs|s p|s v p|l s|s]; simpl.
  - unfold write_new_schema_local. destruct (get_schema_id_if_exists _ _ _ _ _); [reflexivity|].
    pose proof (fun v => steps_register_as s sch refs v st) as Hr.
    destruct (find_subject_schemas _ _ _); [apply Hr|].
    destruct (get_live_versions_sorted _); [apply Hr|].
    destruct (check_schema_compatibility _ _ _ _) as [res|e]; [|reflexivity].
    destruct (is_incompatible res); [|apply Hr].
    unfold mbind, M_bind, lift. destruct (get_compatibility_mode st s); reflexivity.
  - revert st. change (steps on_registry (subject_delete_local env limit s p)).
    unfold subject_delete_local. apply steps_bind; [apply _|apply steps_read|]. intros svs.
    destruct (p && _); [apply steps_raise, _|]. destruct (negb p && _); [apply steps_raise, _|].
    destruct p.
    + unfold subject_delete_permanent. apply steps_bind; [apply _| |intros _; apply steps_bind; [apply _| |intros _; apply steps_ret, _]].
      * apply steps_for_each. intros kv. apply steps_read.
      * apply steps_for_each. intros kv. apply steps_send_message.
    + apply steps_delete_soft.
  - revert st. change (steps on_registry (subject_version_delete_local env limit s v p)).
    unfold subject_version_delete_local. apply steps_bind; [apply _|apply steps_read|]. intros [v' sv].
    apply steps_bind; [apply _|apply steps_read|]. intros _.
    apply steps_bind; [apply _|apply steps_send_message|]. intros _. apply steps_ret, _.
  - apply steps_send_message.
  - apply steps_send_message.
Qed.

Lemma registry_ops_step ops st : R (db_of st) (db_of (fold_left (fun st op => run_registry_op op st) ops st)).
Proof.
  revert st; induction ops as [|op ops IH]; intros st; simpl; [reflexivity|].
  etrans; [apply registry_op_step|apply IH].
Qed.
End operations.

(** ** Lemmas for the guards *)

Section guards.
Context {bytes : Type} `{!JsonCodec bytes} `{!SchemaLib} `{!Checkers}.

Lemma subject_get_versions db s b d :
  subject_get db s b = Ok d -> d = find_subject_schemas db s b /\ d ≠ [] /\ is_Some (dget s (subjects db)).
Proof.
  unfold subject_get, find_subject, din. destruct (dget s (subjects db)) eqn:E; [|done].
  destruct s; [done|]. destruct (find_subject_schemas _ _ _) eqn:Ef; [done|]. intros [= <-]. eauto.
Qed.

Lemma check_not_referenced_ok db s v :
  check_not_referenced db s v = Ok () -> default ∅ (get_referenced_by db s v) = ∅.
Proof.
  unfold check_not_referenced. destruct (elements _) eqn:E; [|done]. intros _.
  by apply leibniz_equiv, elements_empty_inv.
Qed.

Lemma version_to_delete_ok db s version p v sv :
  db_wf sha1 db -> version_to_delete db s version p = Ok (v, sv) ->
  version_of db s v = Some sv /\ sv_deleted sv = p /\ (is_latest version = false -> v = version).
Proof.
  intros Hwf. unfold version_to_delete. intros (d & Hd & H1)%bind_Ok.
  apply subject_get_versions in Hd as (-> & _ & _). apply bind_Ok in H1 as (v' & Hv & H1).
  assert (Hd : forall sv', dget v' (if negb p && is_latest version
    then dfilter live (find_subject_schemas db s true) else find_subject_schemas db s true) = Some sv' ->
    version_of db s v' = Some sv').
  { intros sv'. destruct (negb p && _); [|done]. unfold version_of, find_subject_schemas.
    destruct (dget s (subjects db)) as [sd|] eqn:E; [|done].
    rewrite dget_dfilter by (by eapply wf_versions). destruct (dget v' (sd_schemas sd)) as [x|]; simpl; [|done].
    destruct (live x); congruence. }
  destruct (dget v' _) as [sv'|]; [|done]. specialize (Hd _ eq_refl).
  assert (Hlat : is_latest version = false -> v' = version).
  { intros Hl. unfold from_schema_versions in Hv. apply bind_Ok in Hv as (m & _ & Hv).
    rewrite Hl in Hv. destruct (_ && _); congruence. }
  destruct (sv_deleted sv') eqn:Edel, p; simpl in H1; simplify_eq; eauto.
Qed.
End guards.

Section compat.
Context {bytes : Type} `{!JsonCodec bytes} `{!SchemaLib} `{!Checkers}.
Context (limit : nat).

(** Version [v] of the subject, re-parsed, is incompatible with the new schema. *)
Definition conflicts (db : InMemoryDatabase) (mode : CompatibilityModes) (new_schema : TypedSchema)
  (svs : dict Version SchemaVersion) (v : Version) : Prop :=
  exists sv old res, dget v svs = Some sv /\ resolve_and_parse limit db (sv_schema sv) = Ok old /\
    check_compatibility old new_schema mode = Ok res /\ is_incompatible res = true.

Lemma check_versions_spec db mode new_schema svs vs res0 res :
  is_incompatible res0 = false ->
  check_versions limit db new_schema mode svs vs res0 = Ok res ->
  is_incompatible res = true <-> exists v, v ∈ vs /\ conflicts db mode new_schema svs v.
Proof.
  revert res0; induction vs as [|v vs IH]; intros res0 Hinit; simpl.
  - intros [= <-]. rewrite Hinit. split; [done|]. intros (v & Hv & _). by apply elem_of_nil in Hv.
  - intros (sv & Hsv%dindex_inv & H1)%bind_Ok. apply bind_Ok in H1 as (old & Hold & H1).
    apply bind_Ok in H1 as (r & Hr & H1). destruct (is_incompatible r) eqn:Er.
    + injection H1 as <-. rewrite Er. split; [|done]. intros _. exists v. split; [by left|].
      by exists sv, old, r.
    + rewrite (IH r Er H1). split.
      * intros (w & Hw & Hc). exists w. split; [by right|done].
      * intros (w & Hw & Hc). apply elem_of_cons in Hw as [->|Hw]; [|by exists w].
        destruct Hc as (sv' & old' & r' & ? & ? & ? & ?). congruence.
Qed.

#[local] Instance Zle_total : Total Z.le.
Proof. intros x y. lia. Qed.

(** The sorted live versions: exactly the live ones, the greatest last. *)
Lemma live_versions_elem (svs : dict Version SchemaVersion) v :
  dwf svs -> v ∈ get_live_versions_sorted svs <->
  exists sv, dget v svs = Some sv /\ sv_deleted sv = false.
Proof.
  intros Hwf. unfold get_live_versions_sorted. rewrite merge_sort_Permutation, dget_Some_key.
  split; intros [sv Hsv].
  - rewrite dget_dfilter in Hsv by done. destruct (dget v svs) as [sv'|]; [|done]. simpl in Hsv.
    unfold live in Hsv. destruct (sv_deleted sv') eqn:E; simplify_eq/=. eauto.
  - exists sv. rewrite dget_dfilter by done. destruct Hsv as [-> Hd]. simpl. unfold live. by rewrite Hd.
Qed.

Lemma sorted_last_max (l : list Z) m :
  Sorted Z.le l -> last l = Some m -> forall x, x ∈ l -> x <= m.
Proof.
  intros Hs%Sorted_StronglySorted Hl x Hx; [|intros ???; lia].
  apply last_Some in Hl as [l' ->]. apply elem_of_app in Hx as [Hx|Hx%list_elem_of_singleton]; [|lia].
  apply (StronglySorted_app_1_elem_of _ _ _ _ _ Hs Hx). by left.
Qed.

Lemma last_live_is_greatest svs m v :
  last (get_live_versions_sorted svs) = Some m -> v ∈ get_live_versions_sorted svs -> v <= m.
Proof. intros Hl Hv. eapply sorted_last_max; [|exact Hl|exact Hv]. apply Sorted_merge_sort, _. Qed.
End compat.

(** ** Properties *)

(** Under every sequence of registry operations, with any broker, any timing of the reader
    and any schema library, the database stays well-formed, the id counter never goes back and
    no schema id is ever forgotten. *)
Theorem registry_keeps_database {bytes} `{!JsonCodec bytes} `{!SchemaLib} `{!Checkers}
  (env : Env bytes) limit (ops : list RegistryOp) (st : KarapaceSchemaRegistry bytes) :
  db_wf sha1 (db_of st) ->
  let st' := fold_left (fun st op => run_registry_op env limit op st) ops st in
  db_wf sha1 (db_of st') /\ global_schema_id (db_of st) <= global_schema_id (db_of st') /\
  forall i, is_Some (dget i (schemas (db_of st))) -> is_Some (dget i (schemas (db_of st'))).
Proof.
  intros Hwf st'. pose proof (keeps_wf_step sha1). pose proof (ids_grow_step sha1).
  split; [|apply (registry_ops_step env limit ids_grow ops st)].
  by apply (registry_ops_step env limit (keeps_wf sha1) ops st).
Qed.

(** Registering a schema, on a primary whose reader is in step, either leaves the state as
    it was and raises, or returns the id of a version of the subject that is not deleted and has
    the submitted schema's fingerprint. A version is added only if the subject had nothing live
    or the compatibility check passed, and under a number the subject had never used. *)
Theorem write_new_schema_correct {bytes} `{!JsonCodec bytes} `{!JsonCodecLaws bytes} `{!SchemaLib}
  `{!Checkers} (env : Env bytes) limit subject sch refs deps (st : KarapaceSchemaRegistry bytes) :
  env_live env -> synced st -> db_reach sha1 (db_of st) ->
  reread limit (db_of st) sch refs deps -> ts_references sch = refs ->
  let '(st', r) := write_new_schema_local env limit subject sch refs st in
  match r with
  | Raise _ => st' = st
  | Ok i =>
      synced st' /\ db_reach sha1 (db_of st') /\
      (exists v sv, dget v (find_subject_schemas (db_of st') subject false) = Some sv /\
        sv_schema_id sv = i /\ fingerprint sha1 (sv_schema sv) = fingerprint sha1 sch) /\
      (st' = st \/ (admitted limit st subject sch /\ exists v,
         version_of (db_of st) subject v = None /\ is_Some (version_of (db_of st') subject v)))
  end.
Proof.
  intros Henv Hs Hreach Hrr Hrefs. pose proof (db_reach_inv _ _ Hreach) as (Hwf & Hidx & _).
  pose proof (write_cases env limit Henv subject sch refs deps st Hs Hwf Hrr) as Hc.
  destruct (write_new_schema_local env limit subject sch refs st) as [st' r].
  destruct Hc as [(-> & i & -> & Hi)|[(-> & e & ->)|(v & -> & Hv & Hfresh & Hadm & Hs' & Hdb)]]; [|done|].
  - split_and!; [done|done| |by left]. by eapply index_live_version.
  - pose proof (write_reach subject sch refs deps v st st' Hreach Hfresh Hdb) as Hreach'.
    split_and!; [done|done| |].
    + eapply index_live_version; [exact Hreach'|]. rewrite Hdb. apply insert_indexed.
      * by apply wf_get_schema_id.
      * by rewrite read_schema_fingerprint.
    + right. split; [done|]. exists v. split.
      * destruct (version_of (db_of st) subject v) as [sv|] eqn:E; [|done]. exfalso.
        apply (Hfresh sv). unfold version_of, find_subject_schemas in E.
        destruct (dget subject (subjects (db_of st))) as [sd|] eqn:Esd; [by exists sd|done].
      * rewrite Hdb. destruct (stored_insert sha1 subject (get_schema_id (db_of st) sch).2 v false
          (read_schema sch refs deps) refs (get_schema_id (db_of st) sch).1) as [(sd & Hsd & Hsv) _].
        unfold version_of, find_subject_schemas. rewrite Hsd. eauto.
Qed.

(** Registration is idempotent: once a schema has been registered under a subject, asking
    again returns the same id, writes nothing to the topic and changes nothing. *)
Theorem write_new_schema_idempotent {bytes} `{!JsonCodec bytes} `{!JsonCodecLaws bytes}
  `{!SchemaLib} `{!Checkers} (env : Env bytes) limit subject sch refs deps
  (st st' : KarapaceSchemaRegistry bytes) i :
  env_live env -> synced st -> db_wf sha1 (db_of st) ->
  reread limit (db_of st) sch refs deps -> ts_references sch = refs ->
  write_new_schema_local env limit subject sch refs st = (st', Ok i) ->
  write_new_schema_local env limit subject sch refs st' = (st', Ok i).
Proof.
  intros Henv Hs Hwf Hrr Hrefs Hw.
  pose proof (write_cases env limit Henv subject sch refs deps st Hs Hwf Hrr) as Hc. rewrite Hw in Hc.
  unfold write_new_schema_local.
  destruct Hc as [(-> & j & [= <-] & Hi)|[(_ & e & [=])|(v & [= ->] & Hv & Hfresh & Hadm & Hs' & Hdb)]].
  - by rewrite Hi.
  - rewrite Hdb at 1. rewrite insert_indexed; [done|by apply wf_get_schema_id|].
    by rewrite read_schema_fingerprint.
Qed.

(** What the REST layer submits reads back from the topic as itself: references that the
    registry resolved and a schema that was validated with them satisfy the hypothesis of the
    two theorems above, for every format (JSON Schema being submitted without references, and protobuf
    schemas printing as texts that read back). *)
Theorem submitted_schema_rereads `{!SchemaLib} `{!SchemaLibErrors} `{!SchemaLibNorm} limit db
  candidates refs deps t s normalize formatter sch :
  registry_resolve_references limit db candidates = Ok (refs, deps) ->
  parse t s true true refs deps normalize formatter = Ok sch ->
  (t = JSONSCHEMA -> refs = None) -> (forall l, refs = Some l -> l ≠ [] /\ Forall (fun r => 0 <= ref_version r) l) ->
  reprints sch ->
  reread limit db sch refs deps /\ ts_references sch = refs /\ schema_type sch = t.
Proof.
  intros Hres Hparse Hjson Hver Hre.
  pose proof (parse_cases t s true true refs deps normalize formatter) as Hc. rewrite Hparse in Hc. destruct Hc as (Ht & Hr & Hd & Hn).
  split_and!; [split|done|done].
  - destruct refs as [l|].
    + destruct (Hver l eq_refl) as [Hne Hv]. split_and!; [done|done|rewrite Ht; by intros ?%Hjson|].
      unfold registry_resolve_references in Hres. destruct candidates as [[|c cs]|]; [done| |done].
      apply bind_Ok in Hres as ([rs ds] & Hrs & [= -> <-]). exists ds. split; [done|].
      by eapply resolve_references_idempotent.
    + unfold registry_resolve_references in Hres. destruct candidates as [[|c cs]|]; [by injection Hres| |by injection Hres].
      by apply bind_Ok in Hres as ([rs ds] & Hrs & [=]).
  - rewrite Ht. destruct t; [by apply (normalize_dumps s), Hn..|].
    specialize (Hre Ht). by rewrite Hr, Hd in Hre.
Qed.

(** C16. Deleting a version is guarded: with any broker and reader, either the request is
    refused and nothing changes, or it names a stored version that is already soft-deleted for
    a permanent deletion and live for a soft one, and that no registered schema refers to. *)
Theorem version_delete_guarded {bytes} `{!JsonCodec bytes} `{!SchemaLib} (env : Env bytes) limit s
  version permanent (st : KarapaceSchemaRegistry bytes) :
  db_wf sha1 (db_of st) ->
  let '(st', r) := subject_version_delete_local env limit s version permanent st in
  (st' = st /\ exists e, r = Raise e) \/
  (exists v sv, version_of (db_of st) s v = Some sv /\ sv_deleted sv = permanent /\
     (is_latest version = false -> v = version) /\
     default ∅ (get_referenced_by (db_of st) s v) = ∅).
Proof.
  intros Hwf. unfold subject_version_delete_local, mbind, M_bind.
  destruct (version_to_delete (db_of st) s version permanent) as [[v sv]|e] eqn:Ev; [|left; eauto].
  pose proof (version_to_delete_ok _ _ _ _ _ _ Hwf Ev) as (H1 & H2 & H3).
  destruct (check_not_referenced (db_of st) s v) as [[]|e] eqn:Ec; [|left; eauto].
  apply check_not_referenced_ok in Ec.
  destruct (send_schema_message _ _ _ _ _ _ _ _ _) as [st' [[]|]]; right; exists v, sv; done.
Qed.

(** A permanent version deletion that passes its guards removes exactly that version: it
    is gone, and every other version of every subject is stored as before. *)
Theorem permanent_version_delete_removes {bytes} `{!JsonCodec bytes} `{!JsonCodecLaws bytes}
  `{!SchemaLib} `{!Checkers} (env : Env bytes) limit s version (st : KarapaceSchemaRegistry bytes) v sv :
  env_live env -> synced st -> db_wf sha1 (db_of st) -> -1 <= v ->
  version_to_delete (db_of st) s version true = Ok (v, sv) ->
  check_not_referenced (db_of st) s v = Ok () ->
  exists st', subject_version_delete_local env limit s version true st = (st', Ok v) /\ synced st' /\
    forall s' v', version_of (db_of st') s' v' =
      if decide ((s, v) = (s', v')) then None else version_of (db_of st) s' v'.
Proof.
  intros Henv Hs Hwf Hv Hd Hc. pose proof (version_to_delete_ok _ _ _ _ _ _ Hwf Hd) as (Hsv & _ & _).
  destruct (send_tombstone_applied env limit Henv s (sv_schema_id sv) v sv (sv_references sv) st Hs Hv Hsv)
    as (st' & Hsend & Hs' & Heff).
  exists st'. split; [|done]. unfold subject_version_delete_local, mbind, M_bind.
  rewrite Hd, Hc. by rewrite Hsend.
Qed.

(** A soft subject deletion that passes its guards answers the live versions and marks as
    deleted every version up to the last of them, leaving all other versions, of this subject
    and of the others, as they were. *)
Theorem soft_subject_delete_marks {bytes} `{!JsonCodec bytes} `{!JsonCodecLaws bytes} `{!SchemaLib}
  `{!Checkers} (env : Env bytes) limit s (st : KarapaceSchemaRegistry bytes) all live_versions latest :
  env_live env -> synced st -> db_wf sha1 (db_of st) ->
  subject_get (db_of st) s true = Ok all -> all_deleted all = false ->
  subject_get (db_of st) s false = Ok live_versions -> last (dkeys live_versions) = Some latest ->
  -1 <= latest -> check_not_referenced (db_of st) s latest = Ok () ->
  exists st', subject_delete_local env limit s false st = (st', Ok (dkeys live_versions)) /\
    synced st' /\
    forall s' v', version_of (db_of st') s' v' =
      sv ← version_of (db_of st) s' v';
      Some (if decide (s = s') then if v' <=? latest then mark_deleted sv else sv else sv).
Proof.
  intros Henv Hs Hwf Hall Hdel Hlive Hlast Hv Hc.
  pose proof (subject_get_versions _ _ _ _ Hall) as (_ & _ & Hsome).
  destruct (send_delete_subject_applied env limit Henv s latest st Hs Hwf Hv Hsome)
    as (st' & Hsend & Hs' & Heff).
  exists st'. split_and!; [|done|intros; by eapply version_of_delete_subject].
  unfold subject_delete_local, mbind, M_bind. rewrite Hall. simpl. rewrite Hdel. simpl.
  unfold subject_delete_soft. rewrite Hlive, Hlast. unfold mbind, M_bind, lift. rewrite Hc.
  by rewrite Hsend.
Qed.

(** C11. When the registry's compatibility check answers, it reports an incompatibility exactly
    if some version in scope conflicts with the new schema under the subject's mode; in scope
    are all live versions for a transitive mode and the greatest live version otherwise. *)
Theorem registry_compatibility_spec {bytes} `{!SchemaLib} `{!Checkers} limit
  (st : KarapaceSchemaRegistry bytes) sch s mode res :
  db_wf sha1 (db_of st) -> get_compatibility_mode st s = Ok mode ->
  check_schema_compatibility limit st sch s = Ok res ->
  let svs := find_subject_schemas (db_of st) s true in
  let is_live v := exists sv, dget v svs = Some sv /\ sv_deleted sv = false in
  is_incompatible res = true <->
  exists v, is_live v /\ conflicts limit (db_of st) mode sch svs v /\
    (is_transitive mode = true \/ forall w, is_live w -> w <= v).
Proof.
  intros Hwf Hm Hc svs is_live. unfold check_schema_compatibility in Hc. rewrite Hm in Hc. simpl in Hc.
  rewrite (check_versions_spec _ _ _ _ _ _ _ _ (eq_refl : is_incompatible compatible_result = false) Hc).
  fold svs. assert (Hdwf : dwf svs).
  { subst svs. unfold find_subject_schemas. destruct (dget s (subjects (db_of st))) eqn:E; [by eapply wf_versions|constructor]. }
  assert (Hlive : forall v, v ∈ get_live_versions_sorted svs <-> is_live v)
    by (intros; by apply live_versions_elem).
  unfold versions_to_check. destruct (last (get_live_versions_sorted svs)) as [m|] eqn:El.
  - assert (Hmin : m ∈ get_live_versions_sorted svs).
    { apply last_Some in El as [l' ->]. apply elem_of_app. right. by left. }
    destruct (is_transitive mode); split.
    + intros (v & Hv & Hcf). exists v. split_and!; [by apply Hlive|done|by left].
    + intros (v & Hv & Hcf & _). exists v. split; [by apply Hlive|done].
    + intros (v & ->%list_elem_of_singleton & Hcf). exists m. split_and!; [by apply Hlive|done|].
      right. intros w Hw%Hlive. by eapply last_live_is_greatest.
    + intros (v & Hv & Hcf & [[=]|Hmax]). exists m. split; [by left|].
      apply Hlive in Hv as Hv'. pose proof (last_live_is_greatest _ _ _ El Hv') as Hle.
      specialize (Hmax m). rewrite <- Hlive in Hmax. specialize (Hmax Hmin). by replace m with v by lia.
  - apply last_None in El. split.
    + intros (v & Hv & _). by apply elem_of_nil in Hv.
    + intros (v & Hv%Hlive & _). rewrite El in Hv. by apply elem_of_nil in Hv.
Qed.

(** Setting the compatibility level of a subject takes effect: once the call returns, the
    mode used for that subject is the one given, and the stored versions are untouched. *)
Theorem subject_config_takes_effect {bytes} `{!JsonCodec bytes} `{!JsonCodecLaws bytes} `{!SchemaLib}
  (env : Env bytes) limit s level (st : KarapaceSchemaRegistry bytes) :
  env_live env -> synced st ->
  exists st', send_config_message env limit level (Some s) st = (st', Ok ()) /\ synced st' /\
    get_compatibility_mode st' s = Ok level /\
    forall s' v, version_of (db_of st') s' v = version_of (db_of st) s' v.
Proof.
  intros Henv Hs.
  destruct (ordered_config_key (keymode (key_formatter (schema_reader st))) (Some s))
    as (d & Hk & Hd & Hkt & Hsub).
  set (db1 := match find_subject (db_of st) s with None => insert_subject s (db_of st) | Some _ => db_of st end).
  destruct (send_applied env limit Henv (config_key (Some s)) d
    (Some [("compatibilityLevel"%string, JStr (mode_value level))]) st
    (set_subject_compatibility s (mode_value level) db1)) as (st' & Hsend & Hdb & Hs' & _);
    [done|done|done|simpl; literal_wf| |].
  - intros rd1 Hdb1. unfold handle_msg. rewrite Hkt. unfold catch, mbind, M_bind, lift. simpl.
    unfold handle_msg_config. rewrite Hsub. unfold mbind, M_bind, gets, lift, read_level. simpl.
    rewrite Hdb1. subst db1. unfold on_db, modify, mret, M_ret.
    destruct (find_subject (db_of st) s); simpl; eexists; (split; [reflexivity|]); simpl;
      by rewrite Hdb1.
  - exists st'. split_and!; [done|done| |].
    + unfold get_compatibility_mode, get_subject_compatibility. rewrite Hdb. simpl.
      rewrite dget_dupdate_eq.
      assert (Hin : is_Some (dget s (subjects db1))).
      { subst db1. unfold find_subject, din. destruct (dget s (subjects (db_of st))) eqn:E; [by rewrite E|].
        simpl. rewrite dget_dsetdefault_eq. eauto. }
      destruct Hin as [sd ->]. simpl. apply mode_of_string_value.
    + intros s' v. rewrite Hdb. unfold set_subject_compatibility. rewrite version_of_dupdate.
      assert (Hv1 : forall x, version_of db1 x v = version_of (db_of st) x v).
      { intros x. subst db1. unfold find_subject, din. destruct (dget s (subjects (db_of st))) eqn:E; [done|].
        unfold version_of, find_subject_schemas. simpl. destruct (decide (s = x)) as [<-|Hne].
        - by rewrite dget_dsetdefault_eq, E.
        - by rewrite dget_dsetdefault_ne. }
      case_decide; subst; [|apply Hv1]. rewrite <- Hv1. unfold version_of, find_subject_schemas.
      by destruct (dget s' (subjects db1)).
Qed.

(** *** Witnesses: a primary node with a library that takes every text *)

Definition demo_env : Env (option json) := mkEnv (fun _ _ => Ok ()) (fun _ => true).
Definition demo_registry : KarapaceSchemaRegistry (option json) :=
  mkRegistry demo_reader [] (mkPrimaryInfo true None).
Definition demo_schema : TypedSchema := mkTyped AVRO "A" None None.

Definition demo_write (s : string) (sch : TypedSchema) (st : KarapaceSchemaRegistry (option json)) :=
  write_new_schema_local (H := trivial_lib) (H0 := text_checkers) demo_env 5 s sch None st.
(** One version, then also soft-deleted. *)
Definition demo_one : KarapaceSchemaRegistry (option json) := (demo_write "s" demo_schema demo_registry).1.
Definition demo_soft : KarapaceSchemaRegistry (option json) :=
  (subject_delete_local (H := trivial_lib) demo_env 5 "s" false demo_one).1.

Lemma demo_env_live : env_live demo_env.
Proof. done. Qed.

Ltac demo_synced := vm_compute; split_and!; reflexivity.

Lemma demo_reread db : @reread trivial_lib 5 db demo_schema None None.
Proof. split; [reflexivity|]. by exists "A"%string. Qed.

Lemma demo_ops_wf ops :
  db_wf id (db_of (fold_left (fun st op => run_registry_op (H := trivial_lib) (H0 := text_checkers)
    demo_env 5 op st) ops demo_registry)).
Proof.
  pose proof (keeps_wf_step id) as Hstep.
  apply (@registry_ops_step (option json) _ trivial_lib text_checkers demo_env 5 (keeps_wf id) Hstep), wf_init.
Qed.

Lemma demo_one_wf : db_wf id (db_of demo_one).
Proof. apply (demo_ops_wf [RWrite "s" demo_schema None]). Qed.
Lemma demo_soft_wf : db_wf id (db_of demo_soft).
Proof. apply (demo_ops_wf [RWrite "s" demo_schema None; RDeleteSubject "s" false]). Qed.

Lemma write_new_schema_idempotent_witness :
  demo_write "s" demo_schema demo_one = (demo_one, Ok 1).
Proof.
  apply (@write_new_schema_idempotent (option json) _ _ trivial_lib text_checkers demo_env 5 "s"
    demo_schema None None demo_registry demo_one 1).
  - exact demo_env_live.
  - demo_synced.
  - apply wf_init.
  - apply demo_reread.
  - reflexivity.
  - vm_compute. reflexivity.
Defined.

Lemma version_delete_guarded_witness :
  let '(st', r) := subject_version_delete_local (H := trivial_lib) demo_env 5 "s" 1 true demo_one in
  (st' = demo_one /\ exists e, r = Raise e) \/
  (exists v sv, version_of (db_of demo_one) "s" v = Some sv /\ sv_deleted sv = true /\
     (is_latest 1 = false -> v = 1) /\ default ∅ (get_referenced_by (db_of demo_one) "s" v) = ∅).
Proof.
  apply (@version_delete_guarded (option json) _ trivial_lib demo_env 5 "s" 1 true demo_one).
  apply demo_one_wf.
Defined.

Lemma permanent_version_delete_removes_witness :
  exists st', subject_version_delete_local (H := trivial_lib) demo_env 5 "s" 1 true demo_soft = (st', Ok 1) /\
    synced st' /\
    forall s' v', version_of (db_of st') s' v' =
      if decide (("s"%string, 1) = (s', v')) then None else version_of (db_of demo_soft) s' v'.
Proof.
  eapply (@permanent_version_delete_removes (option json) _ _ trivial_lib text_checkers demo_env 5 "s" 1 demo_soft 1).
  - exact demo_env_live.
  - demo_synced.
  - apply demo_soft_wf.
  - lia.
  - vm_compute. reflexivity.
  - vm_compute. reflexivity.
Defined.

Lemma soft_subject_delete_marks_witness :
  exists st', subject_delete_local (H := trivial_lib) demo_env 5 "s" false demo_one = (st', Ok [1]) /\
    synced st' /\
    forall s' v', version_of (db_of st') s' v' =
      sv ← version_of (db_of demo_one) s' v';
      Some (if decide ("s"%string = s') then if v' <=? 1 then mark_deleted sv else sv else sv).
Proof.
  apply (@soft_subject_delete_marks (option json) _ _ trivial_lib text_checkers demo_env 5 "s" demo_one
    (find_subject_schemas (db_of demo_one) "s" true) (find_subject_schemas (db_of demo_one) "s" false) 1).
  - exact demo_env_live.
  - demo_synced.
  - apply demo_one_wf.
  - vm_compute. reflexivity.
  - vm_compute. reflexivity.
  - vm_compute. reflexivity.
  - vm_compute. reflexivity.
  - lia.
  - vm_compute. reflexivity.
Defined.

Lemma registry_compatibility_spec_witness :
  let svs := find_subject_schemas (db_of demo_one) "s" true in
  let is_live v := exists sv, dget v svs = Some sv /\ sv_deleted sv = false in
  let res := incompatible_schema "name_mismatch" ["/"%string] in
  is_incompatible res = true <->
  exists v, is_live v /\
    @conflicts trivial_lib text_checkers 5 (db_of demo_one) BACKWARD (mkTyped AVRO "B" None None) svs v /\
    (is_transitive BACKWARD = true \/ forall w, is_live w -> w <= v).
Proof.
  apply (@registry_compatibility_spec (option json) trivial_lib text_checkers 5 demo_one
    (mkTyped AVRO "B" None None) "s" BACKWARD).
  - apply demo_one_wf.
  - vm_compute. reflexivity.
  - vm_compute. reflexivity.
Defined.

Lemma subject_config_takes_effect_witness :
  exists st', send_config_message (H := trivial_lib) demo_env 5 FULL (Some "s"%string) demo_one = (st', Ok ()) /\
    synced st' /\ get_compatibility_mode st' "s" = Ok FULL /\
    forall s' v, version_of (db_of st') s' v = version_of (db_of demo_one) s' v.
Proof.
  apply (@subject_config_takes_effect (option json) _ _ trivial_lib demo_env 5 "s" FULL demo_one).
  - exact demo_env_live.
  - demo_synced.
Defined.
