(* ===== verification/Auth.v ===== *)
(** * Authentication and authorisation

    [core/auth.py]: the users and access-control entries of the auth file, [ACLAuthorizer],
    [HTTPAuthorizer] (loading, reloading on changes, authenticating) and [NoAuthAndAuthz].
    Parameters: the password hashes of [hashlib], and [re.compile] with [Pattern.match]. The file is
    read as decoded JSON with its modification time, or fails to be read; its members are strings,
    as [UserData] and [ACLEntryData] declare, and anything else is a [TypeError]. *)

From stdpp Require Import pretty.
From S2P Require Import Prelude Json.
Open Scope Z_scope.

Inductive Operation : Type := Read | Write.
Inductive HashAlgorithm : Type := SHA1 | SHA256 | SHA512 | SCRYPT.

#[global] Instance Operation_eq_dec : EqDecision Operation.
Proof. solve_decision. Defined.

Definition operation_of (s : string) : result Operation :=
  if String.eqb s "Read" then Ok Read else if String.eqb s "Write" then Ok Write else Raise ValueError.

Definition hash_algorithm_of (s : string) : result HashAlgorithm :=
  if String.eqb s "sha1" then Ok SHA1
  else if String.eqb s "sha256" then Ok SHA256
  else if String.eqb s "sha512" then Ok SHA512
  else if String.eqb s "scrypt" then Ok SCRYPT
  else Raise ValueError.

(** The functions of [hashlib] (their result in base64) and of [re]. *)
Class AuthLib : Type := {
  pbkdf2_hmac : string -> string -> string -> string;
  scrypt : string -> string -> string;
  Pattern : Type;
  re_compile : string -> result Pattern;
  pattern_match : Pattern -> string -> bool;
}.

Definition is_ascii (s : string) : bool :=
  forallb (fun c => (N_of_ascii c <? 128)%N) (String.list_ascii_of_string s).

(** Digests in base64 are ASCII. *)
Class AuthLibLaws `{!AuthLib} : Prop := {
  pbkdf2_hmac_ascii name password salt : is_ascii (pbkdf2_hmac name password salt) = true;
  scrypt_ascii password salt : is_ascii (scrypt password salt) = true;
}.

Section Auth.
Context `{!AuthLib}.

Definition hash_password (algorithm : HashAlgorithm) (salt plaintext_password : string) : string :=
  match algorithm with
  | SHA1 => pbkdf2_hmac "sha1" plaintext_password salt
  | SHA256 => pbkdf2_hmac "sha256" plaintext_password salt
  | SHA512 => pbkdf2_hmac "sha512" plaintext_password salt
  | SCRYPT => scrypt plaintext_password salt
  end.

Record User : Type := mkUser {
  username : string;
  algorithm : HashAlgorithm;
  salt : string;
  password_hash : string;
}.

(** [hmac.compare_digest] of two strings, which must be ASCII. *)
Definition compare_digest (a b : string) : result bool :=
  if is_ascii a && is_ascii b then Ok (String.eqb a b) else Raise TypeError.

Definition compare_password (u : User) (plaintext_password : string) : result bool :=
  compare_digest (password_hash u) (hash_password (algorithm u) (salt u) plaintext_password).

Record ACLEntry : Type := mkACLEntry { acl_username : string; acl_operation : Operation; resource : Pattern }.

(** *** ACLAuthorizer *)

Record ACLAuthorizer : Type := mkAuthorizer { user_db : dict string User; permissions : list ACLEntry }.

Definition get_user (a : ACLAuthorizer) (name : string) : option User := dget name (user_db a).

Definition check_resources (resources : list string) (aclentry : ACLEntry) : bool :=
  existsb (pattern_match (resource aclentry)) resources.

Definition check_operation (operation : Operation) (aclentry : ACLEntry) : bool :=
  bool_decide (operation = Read) || bool_decide (acl_operation aclentry = Write).

Definition check_authorization_any (a : ACLAuthorizer) (user : option User) (operation : Operation)
  (resources : list string) : bool :=
  match user with
  | None => false
  | Some u =>
      existsb (fun aclentry => String.eqb (acl_username aclentry) (username u)
        && check_operation operation aclentry && check_resources resources aclentry) (permissions a)
  end.

Definition check_authorization (a : ACLAuthorizer) (user : option User) (operation : Operation)
  (res : string) : bool :=
  match user with
  | None => false
  | Some u =>
      existsb (fun aclentry => String.eqb (acl_username aclentry) (username u)
        && check_operation operation aclentry && check_resources [res] aclentry) (permissions a)
  end.

(** *** HTTPAuthorizer *)

Record HTTPAuthorizer : Type := mkHTTP { acl : ACLAuthorizer; auth_mtime : Z }.

Definition read_user (j : json) : result (string * User) :=
  match j with
  | JObj d =>
      name ← read_str "username" d;
      algorithm ← (s ← read_str "algorithm" d; hash_algorithm_of s);
      salt ← read_str "salt" d;
      hash ← read_str "password_hash" d;
      Ok (name, mkUser name algorithm salt hash)
  | _ => Raise TypeError
  end.

Definition read_entry (j : json) : result ACLEntry :=
  match j with
  | JObj d =>
      name ← read_str "username" d;
      operation ← (s ← read_str "operation" d; operation_of s);
      pattern ← (s ← read_str "resource" d; re_compile s);
      Ok (mkACLEntry name operation pattern)
  | _ => Raise TypeError
  end.

Definition read_list (k : string) (d : list (string * json)) : result (list json) :=
  j ← dindex k d; match j with JList l => Ok l | _ => Raise TypeError end.

(** The users and the entries of the file; a later user replaces an earlier one of that name. *)
Definition parse_authdata (authdata : json) : result ACLAuthorizer :=
  match authdata with
  | JObj d =>
      users ← (l ← read_list "users" d; map_res read_user l);
      entries ← (l ← read_list "permissions" d; map_res read_entry l);
      Ok (mkAuthorizer (fold_left (fun db p => dset p.1 p.2 db) users []) entries)
  | _ => Raise TypeError
  end.

(** [_load_authfile]: any failure is an [InvalidConfiguration], before anything is assigned. *)
Definition load_authfile (file : result (Z * json)) : M HTTPAuthorizer () := fun st =>
  match (content ← file; parsed ← parse_authdata content.2; Ok (content.1, parsed)) with
  | Ok (mtime, parsed) => (mkHTTP parsed mtime, Ok ())
  | Raise _ => (st, Raise InvalidConfiguration)
  end.

(** [_refresh_authfile] over a sequence of change events: an invalid file is logged and the loop
    goes on. *)
Definition refresh_authfile (files : list (result (Z * json))) : M HTTPAuthorizer () :=
  for_each files (fun file =>
    catch (load_authfile file) (fun e =>
      if bool_decide (e = InvalidConfiguration) then mret () else raise e)).

Definition authenticate (h : HTTPAuthorizer) (name password : string) : result User :=
  match get_user (acl h) name with
  | Some u =>
      matches ← compare_password u password;
      if matches : bool then Ok u else Raise AuthenticationError
  | None => Raise AuthenticationError
  end.

Definition new_http_authorizer : HTTPAuthorizer := mkHTTP (mkAuthorizer [] []) (-1).

(** [start] and the refresh task it creates, over the file at the start and its later changes. *)
Definition start (file : result (Z * json)) (changes : list (result (Z * json))) : M HTTPAuthorizer () :=
  _ ← load_authfile file; refresh_authfile changes.

(** [NoAuthAndAuthz], the authorizer of an installation without an auth file. *)
Definition noauth_authenticate (name password : string) : option User := None.
Definition noauth_get_user (name : string) : option User := None.
Definition noauth_check_authorization (user : option User) (operation : Operation) (res : string) : bool := true.
Definition noauth_check_authorization_any (user : option User) (operation : Operation)
  (resources : list string) : bool := true.

(** [get_authorizer]: the one that is used, for the configured [registry_authfile]. *)
Inductive Authorizer : Type := WithFile (h : HTTPAuthorizer) | NoAuthAndAuthz.
Definition get_authorizer (registry_authfile : option string) (h : HTTPAuthorizer) : Authorizer :=
  match registry_authfile with
  | Some f => if String.eqb f "" then NoAuthAndAuthz else WithFile h
  | None => NoAuthAndAuthz
  end.
Definition must_authenticate (a : Authorizer) : bool := match a with WithFile _ => true | NoAuthAndAuthz => false end.
Definition authorizer_check (a : Authorizer) (user : option User) (operation : Operation) (res : string) : bool :=
  match a with
  | WithFile h => check_authorization (acl h) user operation res
  | NoAuthAndAuthz => noauth_check_authorization user operation res
  end.
Definition authorizer_check_any (a : Authorizer) (user : option User) (operation : Operation)
  (resources : list string) : bool :=
  match a with
  | WithFile h => check_authorization_any (acl h) user operation resources
  | NoAuthAndAuthz => noauth_check_authorization_any user operation resources
  end.

(** ** Lemmas *)

Lemma check_authorization_single a user op res :
  check_authorization a user op res = check_authorization_any a user op [res].
Proof. done. Qed.

Lemma check_authorization_any_iff a u op resources :
  check_authorization_any a (Some u) op resources = true <->
  exists e res, e ∈ permissions a /\ acl_username e = username u /\
    (op = Read \/ acl_operation e = Write) /\ res ∈ resources /\ pattern_match (resource e) res = true.
Proof.
  simpl. rewrite existsb_exists. unfold check_operation, check_resources. split.
  - intros (e & He & [[Hu Ho]%andb_true_iff Hr]%andb_true_iff).
    apply String.eqb_eq in Hu. apply orb_true_iff in Ho as [Ho|Ho]; apply bool_decide_eq_true in Ho;
      apply existsb_exists in Hr as (res & Hin & Hm); exists e, res; rewrite !list_elem_of_In; auto 10.
  - intros (e & res & He & Hu & Ho & Hin & Hm). exists e. rewrite list_elem_of_In in He. split; [done|].
    rewrite Hu, String.eqb_refl. simpl. apply andb_true_iff. split.
    + apply orb_true_iff. rewrite !bool_decide_eq_true. done.
    + apply existsb_exists. exists res. by rewrite list_elem_of_In in Hin.
Qed.

(** The state a file leads to, if it is valid. *)
Definition file_state (file : result (Z * json)) : option HTTPAuthorizer :=
  match file with
  | Ok (mtime, content) =>
      match parse_authdata content with Ok a => Some (mkHTTP a mtime) | Raise _ => None end
  | Raise _ => None
  end.

Lemma load_authfile_cases file st :
  load_authfile file st =
  match file_state file with Some st' => (st', Ok ()) | None => (st, Raise InvalidConfiguration) end.
Proof. unfold load_authfile, file_state. destruct file as [[mtime content]|e]; simpl; [|done]. by destruct (parse_authdata content). Qed.

(** ** Properties *)

(** C25. A user is authorised for one of some resources exactly when an entry for that user allows
    the operation (every entry allows reading, one for writing allows both) and its pattern
    matches one of them; without a user nothing is authorised; the check of a single resource is
    the one of the list of it; and being allowed to write implies being allowed to read. *)
Theorem authorization_spec a op res resources :
  check_authorization_any a None op resources = false /\ check_authorization a None op res = false /\
  forall u,
    (check_authorization_any a (Some u) op resources = true <->
      exists e r, e ∈ permissions a /\ acl_username e = username u /\
        (op = Read \/ acl_operation e = Write) /\ r ∈ resources /\ pattern_match (resource e) r = true) /\
    check_authorization a (Some u) op res = check_authorization_any a (Some u) op [res] /\
    (check_authorization a (Some u) Write res = true -> check_authorization a (Some u) Read res = true).
Proof.
  split_and!; try done. intros u. split_and!; [apply check_authorization_any_iff|done|].
  rewrite !check_authorization_single, !check_authorization_any_iff.
  intros (e & r & He & Hu & Ho & Hr). exists e, r. tauto.
Qed.

(** Reloading never fails and keeps the last good configuration: after any sequence of
    changes of the auth file, unreadable or invalid ones included, the users, the entries and the
    modification time are together those of the last valid version, or the ones held before. *)
Theorem refresh_keeps_last_valid files st :
  refresh_authfile files st = (default st (last (omap file_state files)), Ok ()).
Proof.
  revert st. induction files as [|file files IH]; intros st; [done|].
  change (omap file_state (file :: files)) with
    (match file_state file with Some x => x :: omap file_state files | None => omap file_state files end).
  assert (Hstep : catch (load_authfile file) (fun e =>
      if bool_decide (e = InvalidConfiguration) then mret () else raise e) st = (default st (file_state file), Ok ())).
  { unfold catch. rewrite load_authfile_cases. by destruct (file_state file). }
  unfold refresh_authfile in *. cbn [for_each]. unfold mbind, M_bind. rewrite Hstep, IH.
  destruct (file_state file) as [st'|]; [|done].
  rewrite last_cons. by destruct (last (omap file_state files)).
Qed.

Lemma hash_password_ascii `{!AuthLibLaws} algorithm salt password :
  is_ascii (hash_password algorithm salt password) = true.
Proof. destruct algorithm; simpl; [apply pbkdf2_hmac_ascii..|apply scrypt_ascii]. Qed.

(** Authentication succeeds exactly for a user of the file whose stored hash is that of the
    password under the user's own algorithm and salt, and yields that user; it is refused exactly
    for an unknown user or another hash; only a stored hash that is not ASCII makes it fail
    otherwise. *)
Theorem authenticate_spec `{!AuthLibLaws} h name password :
  (forall u, authenticate h name password = Ok u <->
    get_user (acl h) name = Some u /\ password_hash u = hash_password (algorithm u) (salt u) password) /\
  (authenticate h name password = Raise AuthenticationError <->
    (forall u, get_user (acl h) name = Some u -> is_ascii (password_hash u) = true /\
      password_hash u ≠ hash_password (algorithm u) (salt u) password)) /\
  (authenticate h name password = Raise TypeError <->
    exists u, get_user (acl h) name = Some u /\ is_ascii (password_hash u) = false).
Proof.
  unfold authenticate, compare_password, compare_digest.
  destruct (get_user (acl h) name) as [u|]; [|split_and!; naive_solver].
  rewrite hash_password_ascii, andb_true_r. pose proof (hash_password_ascii (algorithm u) (salt u) password) as Ha.
  destruct (is_ascii (password_hash u)) eqn:Ea; simpl.
  - destruct (String.eqb_spec (password_hash u) (hash_password (algorithm u) (salt u) password)) as [E|E].
    + split_and!; [by split; [intros [= <-]|intros [[= <-] _]]|split; [done|]|split; [done|]].
      * intros Hu. by destruct (Hu u eq_refl).
      * intros (v & [= <-] & Hv). congruence.
    + split_and!; [by split; [|intros [[= <-] ?]]|split; [by intros _ v [= <-]|done]|split; [done|]].
      intros (v & [= <-] & Hv). congruence.
  - split_and!; [intros v; split; [done|intros [[= <-] E]; congruence]|split; [done|]|naive_solver].
    intros Hu. destruct (Hu u eq_refl). congruence.
Qed.
End Auth.

(** A library with two digests and literal patterns. *)
#[local] Instance plain_lib : AuthLib :=
  {| pbkdf2_hmac name password salt := if String.eqb password "secret" then "c2VjcmV0" else "b3RoZXI="; 
     scrypt password salt := if String.eqb password "secret" then "c2NyeXB0" else "b3RoZXI=";
     Pattern := string; re_compile := Ok; pattern_match := String.eqb |}.
#[local] Instance plain_lib_laws : AuthLibLaws.
Proof. split; intros; simpl; by destruct (String.eqb password "secret"). Qed.

Lemma authenticate_spec_witness :
  let jo := mkUser "jo" SCRYPT "x" "c2NyeXB0" in
  let h := mkHTTP (mkAuthorizer [("jo"%string, jo)] []) 7 in
  authenticate h "jo" "secret" = Ok jo /\ authenticate h "jo" "wrong" = Raise AuthenticationError.
Proof.
  set (jo := mkUser "jo" SCRYPT "x" "c2NyeXB0"). set (h := mkHTTP (mkAuthorizer [("jo"%string, jo)] []) 7). cbv zeta.
  destruct (authenticate_spec h "jo" "secret") as [Hok _]. destruct (authenticate_spec h "jo" "wrong") as (_ & Hno & _).
  split; [apply Hok; by split|apply Hno]. intros u [= <-]. by split.
Defined.
