(* ===== verification/Coordinator.v ===== *)
(** * Election of the primary

    [core/coordinator/schema_coordinator.py] and [get_master_info] of [master_coordinator.py]: the
    group membership, the assignment the group leader computes, what a member does with its assignment, and when a member
    that was elected starts acting as primary. The broker is outside: its replies to the
    requests of the group protocol are arguments, and so is the order in which the background tasks
    and the API call the operations, a sequence of [Event]s.

    Times are readings of the monotonic clock in milliseconds. [float("infinity")] and
    [float("-infinity")] are [Infinity] and the absence of a time. The stopper's flag, which the
    coordinator reads and clears, is the reader's readiness. *)

From stdpp Require Import pretty.
From S2P Require Import Prelude Json Typing Models Registry.
Open Scope Z_scope.

Record MemberIdentity : Type := mkIdentity {
  host : string;
  port : Z;
  scheme : string;
  master_eligibility : bool;
}.

Definition get_member_url (scheme host : string) (port : Z) : string :=
  scheme +:+ "://" +:+ host +:+ ":" +:+ pretty port.

Definition identity_url (i : MemberIdentity) : string := get_member_url (scheme i) (host i) (port i).

(** [get_member_configuration], for the version of the running server. *)
Definition get_member_configuration (karapace_version : string) (i : MemberIdentity) : json :=
  JObj [("version", JInt 2); ("karapace_version", JStr karapace_version); ("host", JStr (host i));
        ("port", JInt (port i)); ("scheme", JStr (scheme i));
        ("master_eligibility", JBool (master_eligibility i))]%string.

(** The members of a decoded identity, which have the types [MemberIdentity] declares; a member of
    another type is a [TypeError]. *)
Definition read_identity (j : json) : result MemberIdentity :=
  match j with
  | JObj d =>
      eligible ← dindex "master_eligibility"%string d;
      s ← read_str "scheme" d;
      h ← read_str "host" d;
      p ← read_int "port" d;
      match eligible with JBool b => Ok (mkIdentity h p s b) | _ => Raise TypeError end
  | _ => Raise TypeError
  end.

Inductive Stamp : Type := Infinity | At (t : Z).

(** The state of a [SchemaCoordinator], its stopper's readiness included. *)
Record Coordinator : Type := mkCoordinator {
  coord_ready : bool;
  master_url : option string;
  are_we_master_flag : option bool;
  initial_election : option Stamp;
  last_time_leader : option Z;
  reader_ready : bool;
  generation : Z;
  member_id : string;
  coordinator_id : option Z;
  rejoin_needed : bool;
}.

Definition new_coordinator (reader_ready : bool) : Coordinator :=
  mkCoordinator false None (Some false) (Some Infinity) None reader_ready (-1) "" None false.

Definition set_master (flag : option bool) (c : Coordinator) : Coordinator :=
  mkCoordinator (coord_ready c) (master_url c) flag (initial_election c) (last_time_leader c)
    (reader_ready c) (generation c) (member_id c) (coordinator_id c) (rejoin_needed c).
Definition set_url (url : option string) (c : Coordinator) : Coordinator :=
  mkCoordinator (coord_ready c) url (are_we_master_flag c) (initial_election c) (last_time_leader c)
    (reader_ready c) (generation c) (member_id c) (coordinator_id c) (rejoin_needed c).
Definition set_ready (b : bool) (c : Coordinator) : Coordinator :=
  mkCoordinator b (master_url c) (are_we_master_flag c) (initial_election c) (last_time_leader c)
    (reader_ready c) (generation c) (member_id c) (coordinator_id c) (rejoin_needed c).
Definition set_election (e : option Stamp) (c : Coordinator) : Coordinator :=
  mkCoordinator (coord_ready c) (master_url c) (are_we_master_flag c) e (last_time_leader c)
    (reader_ready c) (generation c) (member_id c) (coordinator_id c) (rejoin_needed c).
Definition set_last_leader (t : option Z) (c : Coordinator) : Coordinator :=
  mkCoordinator (coord_ready c) (master_url c) (are_we_master_flag c) (initial_election c) t
    (reader_ready c) (generation c) (member_id c) (coordinator_id c) (rejoin_needed c).
Definition set_reader (b : bool) (c : Coordinator) : Coordinator :=
  mkCoordinator (coord_ready c) (master_url c) (are_we_master_flag c) (initial_election c)
    (last_time_leader c) b (generation c) (member_id c) (coordinator_id c) (rejoin_needed c).
Definition set_member (g : Z) (m : string) (c : Coordinator) : Coordinator :=
  mkCoordinator (coord_ready c) (master_url c) (are_we_master_flag c) (initial_election c)
    (last_time_leader c) (reader_ready c) g m (coordinator_id c) (rejoin_needed c).
Definition set_coordinator_id (i : option Z) (c : Coordinator) : Coordinator :=
  mkCoordinator (coord_ready c) (master_url c) (are_we_master_flag c) (initial_election c)
    (last_time_leader c) (reader_ready c) (generation c) (member_id c) i (rejoin_needed c).
Definition set_rejoin (b : bool) (c : Coordinator) : Coordinator :=
  mkCoordinator (coord_ready c) (master_url c) (are_we_master_flag c) (initial_election c)
    (last_time_leader c) (reader_ready c) (generation c) (member_id c) (coordinator_id c) b.

Section Coordinator.
Context {bytes : Type} `{!JsonCodec bytes}.
(** [__version__], [election_strategy] and [waiting_time_before_acting_as_master_ms] *)
Context (karapace_version election_strategy : string) (waiting_time : Z).

(** *** perform_assignment *)

(** [sorted(urls, reverse=reverse)[0]] *)
Definition first_sorted (reverse : bool) (urls : list string) : result string :=
  match urls with
  | [] => Raise IndexError
  | u :: us => Ok (fold_left (fun best url =>
      if (if reverse then String.leb best url else String.leb url best) then url else best) us u)
  end.

(** [str.lower] on the letters A to Z. *)
Definition lower_char (c : ascii) : ascii :=
  let n := N_of_ascii c in if (65 <=? n)%N && (n <=? 90)%N then ascii_of_N (n + 32) else c.
Definition lower (s : string) : string :=
  String.string_of_list_ascii (map lower_char (String.list_ascii_of_string s)).
Definition highest : bool := String.eqb (lower election_strategy) "highest".

Record JoinGroupMemberData : Type := mkMember { group_member_id : string; member_data : bytes }.

(** The loop over the members: eligible ones and the others, by URL. *)
Definition sort_member (urls : dict string (string * bytes) * dict string (string * bytes))
  (m : JoinGroupMemberData) : result (dict string (string * bytes) * dict string (string * bytes)) :=
  identity ← (j ← json_decode (member_data m); read_identity j);
  let entry := (group_member_id m, member_data m) in
  Ok (if master_eligibility identity then (dset (identity_url identity) entry urls.1, urls.2)
      else (urls.1, dset (identity_url identity) entry urls.2)).

Definition choose (urls : dict string (string * bytes)) : result (string * bytes) :=
  chosen_url ← first_sorted highest (dkeys urls);
  dindex chosen_url urls.

Definition assignment (schema_master_id : string) (identity : MemberIdentity) : bytes :=
  json_encode (JObj [("master", JStr schema_master_id);
    ("master_identity", get_member_configuration karapace_version identity); ("error", JInt 0)]%string).

Definition elect (members : list JoinGroupMemberData) : result (list (string * bytes)) :=
  urls ← fold_res sort_member members ([], []);
  chosen ← (if (0 <? length urls.1)%nat then choose urls.1 else choose urls.2);
  identity ← (j ← json_decode chosen.2; read_identity j);
  Ok (map (fun m => (group_member_id m, assignment chosen.1 identity)) members).

Definition perform_assignment (members : list JoinGroupMemberData) : M Coordinator (list (string * bytes)) :=
  _ ← modify (set_master None);
  lift (elect members).

(** *** _on_join_complete *)

Definition on_join_complete (now : Z) (joined_as : string) (metadata : bytes) : M Coordinator () :=
  member_assignment ← lift (json_decode metadata);
  fields ← lift (match member_assignment with
                 | JObj d => i ← dindex "master_identity"%string d; Ok (i, d)
                 | _ => Raise TypeError
                 end);
  identity ← lift (read_identity fields.1);
  master ← lift (dindex "master"%string fields.2);
  let url := identity_url identity in
  _ ← (if py_eq master (JStr joined_as) && master_eligibility identity then
         _ ← modify (set_url (Some url));
         _ ← modify (set_master (Some true));
         c ← gets (fun c => c);
         let must_wait := match last_time_leader c with
                          | None => true
                          | Some t => t + waiting_time <? now
                          end in
         if must_wait : bool then
           _ ← modify (set_reader false);
           modify (set_election (Some (At now)))
         else mret ()
       else if negb (master_eligibility identity) then
         _ ← modify (set_url None); modify (set_master (Some false))
       else
         _ ← modify (set_url (Some url)); modify (set_master (Some false)));
  modify (set_ready true).

(** *** are_we_master *)

Definition are_we_master (now : Z) : M Coordinator bool :=
  c ← gets (fun c => c);
  match are_we_master_flag c with
  | None => mret false
  | Some flag =>
      if negb (coord_ready c) || negb (reader_ready c) then mret false
      else match flag, initial_election c with
           | true, Some stamp =>
               let passed := match stamp with Infinity => false | At t => t + waiting_time <? now end in
               if passed : bool then
                 _ ← modify (set_election None);
                 _ ← modify (set_reader false);
                 mret false
               else mret false
           | _, _ => mret flag
           end
  end.

(** *** Losing the group *)

(** The futures [rejoin_needed_fut] and [_coordinator_dead_fut] exist once the coordinator is
    started; the first is done when [rejoin_needed], the second while the coordinator is unknown. *)
Definition request_rejoin : M Coordinator () := modify (set_rejoin true).

Definition need_rejoin : M Coordinator bool := gets rejoin_needed.

Definition coordinator_dead : M Coordinator () :=
  c ← gets (fun c => c);
  match coordinator_id c with
  | None => mret ()
  | Some _ =>
      _ ← modify (set_master (Some false));
      _ ← modify (set_coordinator_id None);
      request_rejoin
  end.

Definition reset_generation : M Coordinator () :=
  _ ← modify (set_master (Some false));
  _ ← modify (set_member (-1) "");
  request_rejoin.

(** [Errors.for_code] of the error codes the code tells apart. *)
Inductive ErrorType : Type :=
  | NoError | GroupCoordinatorNotAvailable | NotCoordinatorForGroup | RebalanceInProgress
  | IllegalGeneration | UnknownMemberId | GroupAuthorizationFailed | MemberIdRequired
  | GroupLoadInProgress | InconsistentGroupProtocol | InvalidSessionTimeout | InvalidGroupId
  | OtherErrorType.

(** The reply of the broker to a request, [None] for a Kafka error of the client. *)
Definition send_req {A} (reply : option A) : M Coordinator A :=
  c ← gets (fun c => c);
  match coordinator_id c, reply with
  | None, _ => raise KafkaError
  | Some _, Some resp => mret resp
  | Some _, None => _ ← coordinator_dead; raise KafkaError
  end.

(** [try: resp = await self.send_req(...) except Errors.KafkaError]: [None] in the handler. *)
Definition try_send {A} (reply : option A) : M Coordinator (option A) :=
  catch (resp ← send_req reply; mret (Some resp))
    (fun e => if is_kafka_error e then mret None else raise e).

(** Before rejoining, a primary notes the time it was last one. *)
Definition record_leadership (now : Z) : M Coordinator () :=
  master ← are_we_master now;
  if master : bool then modify (set_last_leader (Some now)) else mret ().

(** [_maybe_leave_group]; there is no [group_instance_id], so the request is sent whenever there is
    a generation. *)
Definition maybe_leave_group (reply : option ErrorType) (now : Z) : M Coordinator () :=
  g ← gets generation;
  _ ← (if 0 <? g then _ ← try_send reply; mret () else mret ());
  _ ← record_leadership now;
  reset_generation.

(** *** _do_heartbeat *)

Definition do_heartbeat (reply : option ErrorType) : M Coordinator bool :=
  resp ← try_send reply;
  match resp with
  | None => mret false
  | Some NoError => mret true
  | Some (GroupCoordinatorNotAvailable | NotCoordinatorForGroup) => _ ← coordinator_dead; mret false
  | Some RebalanceInProgress => _ ← request_rejoin; mret true
  | Some (IllegalGeneration | UnknownMemberId) => _ ← reset_generation; mret false
  | Some GroupAuthorizationFailed => raise GroupAuthorizationFailedError
  | Some _ => raise KafkaError
  end.

(** *** SchemaCoordinatorGroupRebalance *)

Record JoinGroupResponse : Type := mkJoin {
  join_error : ErrorType;
  join_member_id : string;
  join_generation_id : Z;
  join_leader_id : string;
  join_members : list JoinGroupMemberData;
}.

(** The reply to a SyncGroup request: an error, or the assignment of this member. *)
Record SyncGroupResponse : Type := mkSync { sync_error : ErrorType; sync_assignment : bytes }.

(** [_send_sync_group_request] *)
Definition send_sync_group_request (reply : option SyncGroupResponse) : M Coordinator (option bytes) :=
  _ ← modify (set_rejoin false);
  c ← gets (fun c => c);
  response ← try_send reply;
  match response with
  | None => _ ← request_rejoin; mret None
  | Some r =>
      match sync_error r with
      | NoError => _ ← modify (set_member (generation c) (member_id c)); mret (Some (sync_assignment r))
      | e =>
          _ ← request_rejoin;
          match e with
          | RebalanceInProgress => mret None
          | UnknownMemberId | IllegalGeneration => _ ← reset_generation; mret None
          | GroupCoordinatorNotAvailable | NotCoordinatorForGroup => _ ← coordinator_dead; mret None
          | GroupAuthorizationFailed => raise GroupAuthorizationFailedError
          | _ => raise KafkaError
          end
      end
  end.

(** What the broker answers to the assignments a member sends, none for a follower. *)
Abbreviation SyncReply := (list (string * bytes) -> option SyncGroupResponse) (only parsing).

Definition on_join_follower (sync : SyncReply) : M Coordinator (option bytes) :=
  send_sync_group_request (sync []).

Definition on_join_leader (sync : SyncReply) (response : JoinGroupResponse) : M Coordinator (option bytes) :=
  group_assignment ← catch (perform_assignment (join_members response)) (fun _ => raise KafkaError);
  send_sync_group_request (sync group_assignment).

(** The loop that joins again while the broker asks for a member id. [replies] are the outcomes of
    the JoinGroup requests in order; where they end the connection is lost. *)
Fixpoint send_join_requests (replies : list (option JoinGroupResponse)) : M Coordinator (option JoinGroupResponse) :=
  response ← try_send (default None (head replies));
  match response, replies with
  | Some r, _ :: replies' =>
      match join_error r with
      | MemberIdRequired =>
          c ← gets (fun c => c);
          _ ← modify (set_member (generation c) (join_member_id r));
          send_join_requests replies'
      | _ => mret (Some r)
      end
  | _, _ => mret None
  end.

Definition perform_group_join (replies : list (option JoinGroupResponse)) (sync : SyncReply)
  : M Coordinator (option bytes) :=
  response ← send_join_requests replies;
  match response with
  | None => mret None
  | Some r =>
      match join_error r with
      | NoError =>
          _ ← modify (set_member (join_generation_id r) (join_member_id r));
          if String.eqb (join_leader_id r) (join_member_id r) then on_join_leader sync r
          else on_join_follower sync
      | GroupLoadInProgress => mret None
      | UnknownMemberId => _ ← reset_generation; mret None
      | GroupCoordinatorNotAvailable | NotCoordinatorForGroup => _ ← coordinator_dead; mret None
      | GroupAuthorizationFailed => raise GroupAuthorizationFailedError
      | _ => raise KafkaError
      end
  end.

Definition do_rejoin_group (replies : list (option JoinGroupResponse)) (sync : SyncReply) (now : Z)
  : M Coordinator bool :=
  assignment ← perform_group_join replies sync;
  match assignment with
  | None => mret false
  | Some metadata =>
      c ← gets (fun c => c);
      _ ← on_join_complete now (member_id c) metadata;
      mret true
  end.

(** *** The coordination routine *)

(** [ensure_coordinator_known]: a known coordinator is kept; otherwise the lookup, retried until it
    yields a reachable one, is stored. *)
Definition ensure_coordinator_known (found : Z) : M Coordinator () :=
  c ← gets (fun c => c);
  match coordinator_id c with
  | Some _ => mret ()
  | None => modify (set_coordinator_id (Some found))
  end.

(** One round of the loop up to where it waits: whether the member has an assignment. *)
Definition coordination_round (found : Z) (replies : list (option JoinGroupResponse)) (sync : SyncReply)
  (now : Z) : M Coordinator bool :=
  _ ← ensure_coordinator_known found;
  rejoin ← need_rejoin;
  if rejoin : bool then
    _ ← record_leadership now;
    do_rejoin_group replies sync now
  else mret true.

(** *** master_coordinator.py *)

(** [sub in s] *)
Definition contains (sub s : string) : bool :=
  match String.index 0 sub s with Some _ => true | None => false end.

(** [get_master_info], for the address and the advertised address of the configuration. *)
Definition get_master_info (address advertised : string) (now : Z) (sc : option Coordinator)
  : option Coordinator * PrimaryInfo :=
  match sc with
  | None => (None, mkPrimaryInfo false None)
  | Some c =>
      if negb (coord_ready c) then (Some c, mkPrimaryInfo false None)
      else
        let url := match master_url c with
                   | Some u => if negb (contains address u) && negb (contains advertised u) then Some u else None
                   | None => None
                   end in
        match are_we_master now c with
        | (c', Ok b) => (Some c', mkPrimaryInfo b url)
        | (c', Raise _) => (Some c', mkPrimaryInfo false url)
        end
  end.
End Coordinator.
