(* ===== verification/CoordinatorSpec.v ===== *)
(** * Properties of the election

    The assignment is the same for every member, so that at most one of them takes itself for the
    primary, the eligible one with the first (or last) URL; and a newly elected primary does not act
    before it has waited and its reader has caught up once more. *)

From stdpp Require Import pretty.
From S2P Require Import Prelude Json Typing Models Registry Coordinator.
Open Scope Z_scope.

(** ** The order on URLs *)

Lemma ascii_compare_lt a b c : Ascii.compare a b = Lt -> Ascii.compare b c = Lt -> Ascii.compare a c = Lt.
Proof. unfold Ascii.compare. rewrite !N.compare_lt_iff. lia. Qed.

Lemma ascii_compare_eq a b : Ascii.compare a b = Eq -> a = b.
Proof.
  unfold Ascii.compare. intros H%N.compare_eq_iff. by rewrite <- (ascii_N_embedding a), H, ascii_N_embedding.
Qed.

Lemma string_leb_cons a s b t :
  String.leb (String a s) (String b t) = true <->
  Ascii.compare a b = Lt \/ (a = b /\ String.leb s t = true).
Proof.
  unfold String.leb. simpl. destruct (Ascii.compare a b) eqn:E.
  - apply ascii_compare_eq in E. naive_solver.
  - naive_solver.
  - assert (a ≠ b). { intros ->. unfold Ascii.compare in E. by rewrite N.compare_refl in E. } naive_solver.
Qed.

Lemma string_leb_trans s t u : String.leb s t = true -> String.leb t u = true -> String.leb s u = true.
Proof.
  revert t u. induction s as [|a s IH]; intros [|b t] [|c u]; try done.
  rewrite !string_leb_cons. intros [H1|[-> H1]] [H2|[-> H2]]; eauto using ascii_compare_lt.
Qed.

(** [url] comes before [url'] for the strategy. *)
Definition precedes (reverse : bool) (url url' : string) : Prop :=
  if reverse then String.leb url' url = true else String.leb url url' = true.

Lemma precedes_refl reverse u : precedes reverse u u.
Proof. destruct (String.leb_total u u); by destruct reverse. Qed.

Lemma precedes_trans reverse u v x : precedes reverse u v -> precedes reverse v x -> precedes reverse u x.
Proof. destruct reverse; simpl; eauto using string_leb_trans. Qed.

Lemma first_sorted_spec reverse urls : urls ≠ [] ->
  exists u, first_sorted reverse urls = Ok u /\ u ∈ urls /\ forall v, v ∈ urls -> precedes reverse u v.
Proof.
  destruct urls as [|u us]; [done|]. intros _. simpl. eexists. split; [done|].
  set (f := fun best url : string => _).
  assert (Hf : forall best url, precedes reverse (f best url) best /\ precedes reverse (f best url) url /\
    (f best url = best \/ f best url = url)).
  { intros best url. pose proof (precedes_refl reverse best). pose proof (precedes_refl reverse url).
    pose proof (String.leb_total best url). unfold f. destruct reverse.
    - destruct (String.leb best url) eqn:E; split_and!; auto. destruct H1; [congruence|done].
    - destruct (String.leb url best) eqn:E; split_and!; auto. destruct H1; [done|congruence]. }
  clearbody f. revert u. induction us as [|x us IH]; intros u; simpl.
  - split; [set_solver|]. intros v ->%list_elem_of_singleton. apply precedes_refl.
  - destruct (IH (f u x)) as [Hin Hbest]. destruct (Hf u x) as (H1 & H2 & H3). split.
    { apply elem_of_cons in Hin as [E|Hin]; [|by right; right]. rewrite E.
      destruct H3 as [->| ->]; [left|right; left]. }
    assert (Hfx : precedes reverse (fold_left f us (f u x)) (f u x)) by (apply Hbest; left).
    intros v [->|[->|Hv]%elem_of_cons]%elem_of_cons.
    + by eapply precedes_trans.
    + by eapply precedes_trans.
    + apply Hbest. by right.
Qed.

(** ** The election *)

Section election.
Context {bytes : Type} `{!JsonCodec bytes, !JsonCodecLaws bytes}.
Context (karapace_version election_strategy : string) (waiting_time : Z).

(** A group member: its id, and the identity it sends. *)
Abbreviation Member := (string * MemberIdentity)%type (only parsing).
Definition joined (m : Member) : JoinGroupMemberData :=
  mkMember m.1 (json_encode (get_member_configuration karapace_version m.2)).

Lemma configuration_wf i : json_wf (get_member_configuration karapace_version i).
Proof.
  simpl. unfold dwf. simpl. split_and!; try done.
  repeat (apply NoDup_cons; split; [set_solver|]). apply NoDup_nil_2.
Qed.

Lemma read_configuration i : read_identity (get_member_configuration karapace_version i) = Ok i.
Proof. by destruct i. Qed.

(** The entries of a table of URLs come from members, and cover them. *)
Definition table_of (P : Member -> Prop) (table : dict string (string * bytes)) : Prop :=
  (forall u e, dget u table = Some e -> exists m, P m /\ u = identity_url m.2 /\
    e = (group_member_id (joined m), member_data (joined m))) /\
  (forall m, P m -> is_Some (dget (identity_url m.2) table)).

Lemma table_of_add P m table : table_of P table ->
  table_of (fun m' => P m' \/ m' = m)
    (dset (identity_url m.2) (group_member_id (joined m), member_data (joined m)) table).
Proof.
  intros [H1 H2]. split.
  - intros u e. destruct (decide (identity_url m.2 = u)) as [<-|Hne].
    + rewrite dget_dset_eq. intros [= <-]. eauto.
    + rewrite dget_dset_ne by done. intros (m' & Hm' & Hu & He)%H1. eauto.
  - intros m' Hm'. destruct (decide (identity_url m.2 = identity_url m'.2)) as [E|Hne].
    + rewrite <- E, dget_dset_eq. eauto.
    + rewrite dget_dset_ne by done. destruct Hm' as [Hm'| ->]; [by apply H2|done].
Qed.

Lemma table_of_ext P Q table : (forall m, P m <-> Q m) -> table_of P table -> table_of Q table.
Proof.
  intros HPQ [H1 H2]. split; [|intros m Hm; by apply H2, HPQ].
  intros u e (m & Hm & Hr)%H1. exists m. split; [by apply HPQ|done].
Qed.

Lemma sort_member_joined urls m :
  sort_member urls (joined m) =
  Ok (if master_eligibility m.2
      then (dset (identity_url m.2) (group_member_id (joined m), member_data (joined m)) urls.1, urls.2)
      else (urls.1, dset (identity_url m.2) (group_member_id (joined m), member_data (joined m)) urls.2)).
Proof.
  unfold sort_member, joined. cbn [member_data group_member_id].
  rewrite (decode_encode _ (configuration_wf _)). cbn [mbind result_bind]. by rewrite read_configuration.
Qed.

Lemma sort_members l l0 urls :
  table_of (fun m => m ∈ l0 /\ master_eligibility m.2 = true) urls.1 ->
  table_of (fun m => m ∈ l0 /\ master_eligibility m.2 = false) urls.2 ->
  exists urls', fold_res sort_member (map joined l) urls = Ok urls' /\
    table_of (fun m => m ∈ l0 ++ l /\ master_eligibility m.2 = true) urls'.1 /\
    table_of (fun m => m ∈ l0 ++ l /\ master_eligibility m.2 = false) urls'.2.
Proof.
  revert l0 urls. induction l as [|m l IH]; intros l0 urls H1 H2.
  { exists urls. by rewrite app_nil_r. }
  cbn [map fold_res]. rewrite sort_member_joined. cbn [mbind result_bind].
  destruct (IH (l0 ++ [m]) (if master_eligibility m.2
    then (dset (identity_url m.2) (group_member_id (joined m), member_data (joined m)) urls.1, urls.2)
    else (urls.1, dset (identity_url m.2) (group_member_id (joined m), member_data (joined m)) urls.2)))
    as (urls' & Hf & H1' & H2').
  - destruct (master_eligibility m.2) eqn:E; simpl.
    + eapply table_of_ext; [|by apply table_of_add]. intros m'. simpl. rewrite elem_of_app, list_elem_of_singleton. naive_solver.
    + eapply table_of_ext; [|done]. intros m'. simpl. rewrite elem_of_app, list_elem_of_singleton. naive_solver congruence.
  - destruct (master_eligibility m.2) eqn:E; simpl.
    + eapply table_of_ext; [|done]. intros m'. simpl. rewrite elem_of_app, list_elem_of_singleton. naive_solver congruence.
    + eapply table_of_ext; [|by apply table_of_add]. intros m'. simpl. rewrite elem_of_app, list_elem_of_singleton. naive_solver.
  - exists urls'. rewrite <- app_assoc in H1', H2'. by split_and!.
Qed.

(** Choosing from a table that covers at least one member. *)
Lemma choose_spec P table m0 : table_of P table -> P m0 ->
  exists m, choose election_strategy table = Ok (m.1, member_data (joined m)) /\ P m /\
    forall m', P m' -> precedes (highest election_strategy) (identity_url m.2) (identity_url m'.2).
Proof.
  intros [H1 H2] Hm0. unfold choose.
  destruct (first_sorted_spec (highest election_strategy) (dkeys table)) as (u & -> & Hu & Hbest).
  { destruct (H2 _ Hm0) as [e He]. intros Hn. assert (Hin : identity_url m0.2 ∈ dkeys table)
      by (apply dget_Some_key; eauto). rewrite Hn in Hin. by apply not_elem_of_nil in Hin. }
  apply dget_Some_key in Hu as [e He]. destruct (H1 _ _ He) as (m & Hm & -> & ->).
  exists m. simpl. unfold dindex. rewrite He. split; [done|]. split; [done|].
  intros m' Hm'. apply Hbest, dget_Some_key. destruct (H2 _ Hm') as [e' He']. eauto.
Qed.

(** The group leader's choice. *)
Lemma elect_spec l : l ≠ [] ->
  exists m, m ∈ l /\
    elect karapace_version election_strategy (map joined l)
      = Ok (map (fun p => (p.1, assignment karapace_version m.1 m.2)) l) /\
    (forall m', m' ∈ l -> master_eligibility m'.2 = true -> master_eligibility m.2 = true /\
      precedes (highest election_strategy) (identity_url m.2) (identity_url m'.2)).
Proof.
  intros Hl. unfold elect.
  destruct (sort_members l [] ([], [])) as (urls & -> & H1 & H2).
  { split; [done|]. intros m [Hm _]. by apply not_elem_of_nil in Hm. }
  { split; [done|]. intros m [Hm _]. by apply not_elem_of_nil in Hm. }
  simpl in H1, H2.
  assert (Hchoice : exists m, m ∈ l /\
    (if (0 <? length urls.1)%nat then choose election_strategy urls.1 else choose election_strategy urls.2)
      = Ok (m.1, member_data (joined m)) /\
    (forall m', m' ∈ l -> master_eligibility m'.2 = true -> master_eligibility m.2 = true /\
      precedes (highest election_strategy) (identity_url m.2) (identity_url m'.2))).
  { destruct (Nat.ltb_spec 0 (length urls.1)) as [Hlen|Hlen].
    - destruct urls.1 as [|[u e] rest] eqn:Eu; [simpl in Hlen; lia|].
      destruct (proj1 H1 u e) as (m0 & Hm0 & _); [simpl; by rewrite decide_True|].
      destruct (choose_spec _ _ m0 H1 Hm0) as (m & Hc & [Hm He] & Hbest).
      exists m. split_and!; [done|done|]. intros m' Hm' He'. split; [done|]. by apply Hbest.
    - destruct l as [|m0 l]; [done|].
      assert (Hnone : forall m, m ∈ m0 :: l -> master_eligibility m.2 = false).
      { intros m Hm. destruct (master_eligibility m.2) eqn:E; [|done].
        destruct (proj2 H1 m (conj Hm E)) as [e He]. destruct urls.1; [done|simpl in Hlen; lia]. }
      assert (Hin0 : m0 ∈ m0 :: l) by left.
      destruct (choose_spec _ _ m0 H2 (conj Hin0 (Hnone _ Hin0))) as (m & Hc & [Hm He] & Hbest).
      exists m. split_and!; [done|done|]. intros m' Hm' He'. by rewrite Hnone in He'. }
  destruct Hchoice as (m & Hm & Hc & Hbest). exists m. split_and!; [done| |done].
  cbn [mbind result_bind].
  match goal with |- ?x ≫= _ = _ => assert (Hx : x = Ok (m.1, member_data (joined m))) by exact Hc; rewrite Hx end.
  unfold joined. cbn [mbind result_bind snd fst member_data]. rewrite (decode_encode _ (configuration_wf _)). cbn [mbind result_bind]. rewrite read_configuration.
  cbn [mbind result_bind]. f_equal. rewrite map_map. done.
Qed.

Lemma assignment_wf id i : json_wf (JObj [("master", JStr id);
  ("master_identity", get_member_configuration karapace_version i); ("error", JInt 0)]%string).
Proof.
  pose proof (configuration_wf i) as Hc. remember (get_member_configuration karapace_version i) as j.
  simpl. split_and!; try done. unfold dwf. simpl.
  repeat (apply NoDup_cons; split; [set_solver|]). apply NoDup_nil_2.
Qed.

(** What a member makes of the assignment that names [m]. *)
Lemma on_join_complete_spec now id m c :
  exists c', on_join_complete waiting_time now id (assignment karapace_version m.1 m.2) c = (c', Ok tt) /\
    coord_ready c' = true /\
    are_we_master_flag c' = Some (bool_decide (id = m.1) && master_eligibility m.2) /\
    master_url c' = if master_eligibility m.2 then Some (identity_url m.2) else None.
Proof.
  unfold on_join_complete, assignment. rewrite (decode_encode _ (assignment_wf _ _)).
  do 2 erewrite M_bind_run by reflexivity. cbn [fst snd]. rewrite read_configuration.
  do 2 erewrite M_bind_run by reflexivity.
  change (py_eq (JStr m.1) (JStr id)) with (String.eqb m.1 id).
  assert (Hb : String.eqb m.1 id = bool_decide (id = m.1)).
  { destruct (String.eqb_spec m.1 id); case_bool_decide; congruence. }
  rewrite Hb. clear Hb. destruct (bool_decide (id = m.1)), (master_eligibility m.2) eqn:E; cbn [andb negb];
    try (eexists; split_and!; reflexivity).
  unfold mbind, M_bind, modify, gets, mret, M_ret.
  change (last_time_leader (set_master (Some true) (set_url (Some (identity_url m.2)) c))) with (last_time_leader c).
  destruct (match last_time_leader c with Some t => t + waiting_time <? now | None => true end);
    eexists; split_and!; reflexivity.
Qed.

(** C14. The election is uniform and safe: whatever non-empty group joins, the leader's computation
    succeeds and names one member; every member that applies its assignment becomes ready and takes
    itself for the primary exactly if it is the named one and is eligible, and learns the same URL;
    if any member is eligible the named one is, and its URL comes first for the strategy among
    the eligible ones. *)
Theorem election_unique_primary l now : l ≠ [] ->
  exists m assignments, m ∈ l /\
    elect karapace_version election_strategy (map joined l) = Ok assignments /\
    map fst assignments = map fst l /\
    (forall id data c, (id, data) ∈ assignments ->
      exists c', on_join_complete waiting_time now id data c = (c', Ok tt) /\ coord_ready c' = true /\
        are_we_master_flag c' = Some (bool_decide (id = m.1) && master_eligibility m.2) /\
        master_url c' = if master_eligibility m.2 then Some (identity_url m.2) else None) /\
    (forall m', m' ∈ l -> master_eligibility m'.2 = true -> master_eligibility m.2 = true /\
      precedes (highest election_strategy) (identity_url m.2) (identity_url m'.2)).
Proof.
  intros Hl. destruct (elect_spec l Hl) as (m & Hm & He & Hbest). eexists m, _. split_and!; [done|exact He| | |done].
  - rewrite map_map. done.
  - intros id data c (p & [= -> ->] & Hp)%list_elem_of_fmap. apply on_join_complete_spec.
Qed.
End election.

Definition two_members : list (string * MemberIdentity) :=
  [("a", mkIdentity "alpha" 8081 "http" false); ("b", mkIdentity "beta" 8081 "http" true)]%string.

Lemma election_unique_primary_witness :
  exists m assignments, m ∈ two_members /\
    elect "1" "lowest" (map (joined (bytes := option json) "1") two_members) = Ok assignments /\
    map fst assignments = ["a"; "b"]%string /\ m.1 = "b"%string.
Proof.
  destruct (election_unique_primary (bytes := option json) "1" "lowest" 5000 two_members 0)
    as (m & assignments & Hm & He & Hids & _ & Hbest); [done|].
  exists m, assignments. split_and!; [done|exact He|exact Hids|].
  assert (Hb : ("b"%string, mkIdentity "beta" 8081 "http" true) ∈ two_members) by (right; left).
  destruct (Hbest _ Hb eq_refl) as [Heligible _].
  apply elem_of_cons in Hm as [->|[->|Hm]%elem_of_cons]; [discriminate|reflexivity|by apply not_elem_of_nil in Hm].
Defined.

(** ** Frames of the group protocol *)

Section protocol.
Context {bytes : Type} `{!JsonCodec bytes}.
Context (karapace_version election_strategy : string) (waiting_time : Z).

(** Neither the wait of a new primary nor its reader is touched. *)
Definition same_wait (c c' : Coordinator) : Prop :=
  initial_election c' = initial_election c /\ reader_ready c' = reader_ready c.
(** A member does not come to take itself for the primary. *)
Definition no_promotion (c c' : Coordinator) : Prop :=
  are_we_master_flag c' = Some true -> are_we_master_flag c = Some true.
(** A need to rejoin is not forgotten. *)
Definition still_rejoining (c c' : Coordinator) : Prop := rejoin_needed c = true -> rejoin_needed c' = true.

#[local] Instance same_wait_preorder : PreOrder same_wait.
Proof. split; [by split|]. intros x y z [] []; split; congruence. Qed.
#[local] Instance no_promotion_preorder : PreOrder no_promotion.
Proof. unfold no_promotion. split; red; auto. Qed.
#[local] Instance still_rejoining_preorder : PreOrder still_rejoining.
Proof. unfold still_rejoining. split; red; auto. Qed.

(** What the handlers of the group protocol leave alone. *)
Definition frame (c c' : Coordinator) : Prop := same_wait c c' /\ no_promotion c c' /\ still_rejoining c c'.
#[local] Instance frame_preorder : PreOrder frame.
Proof.
  split.
  - intros c. split; [reflexivity|]. split; reflexivity.
  - intros x y z (H1 & H2 & H3) (H4 & H5 & H6). split; [by etrans|]. split; by etrans.
Qed.

Ltac frames := unfold frame, same_wait, no_promotion, still_rejoining; simpl; naive_solver.

Lemma frame_coordinator_dead : steps frame coordinator_dead.
Proof. intros c. unfold coordinator_dead, mbind, M_bind, gets. destruct (coordinator_id c); frames. Qed.
Lemma frame_reset_generation : steps frame reset_generation.
Proof. intros c. frames. Qed.
Lemma frame_request_rejoin : steps frame request_rejoin.
Proof. intros c. frames. Qed.
#[local] Hint Resolve frame_coordinator_dead frame_reset_generation frame_request_rejoin : karapace.

Lemma frame_try_send {A} (reply : option A) : steps frame (try_send reply).
Proof. unfold try_send, send_req. apply steps_catch; [typeclasses eauto|monad_steps|]. intros e. monad_steps. Qed.
#[local] Hint Resolve frame_try_send : karapace.

Lemma frame_do_heartbeat reply : steps frame (do_heartbeat reply).
Proof. unfold do_heartbeat. monad_steps. Qed.

Lemma frame_perform_assignment members :
  steps frame (perform_assignment (bytes := bytes) karapace_version election_strategy members).
Proof. unfold perform_assignment. apply steps_bind; [typeclasses eauto| |by intros; apply steps_lift; typeclasses eauto]. intros c. frames. Qed.

Lemma frame_set_member g m : steps frame (modify (set_member g m)).
Proof. intros c. frames. Qed.
#[local] Hint Resolve frame_set_member frame_perform_assignment : karapace.

Lemma frame_send_join_requests replies : steps frame (send_join_requests (bytes := bytes) replies).
Proof.
  induction replies as [|reply replies IH]; simpl; apply steps_bind; try typeclasses eauto; auto with karapace;
    intros response; monad_steps.
Qed.

(** An attempt that yields an assignment clears the need to rejoin; one that does not leaves it. *)
Definition attempt (c : Coordinator) (outcome : Coordinator * result (option bytes)) : Prop :=
  let '(c', r) := outcome in
  same_wait c c' /\ no_promotion c c' /\
  (forall data, r = Ok (Some data) -> rejoin_needed c' = false) /\
  ((forall data, r ≠ Ok (Some data)) -> still_rejoining c c').

Lemma attempt_frame c c' r : frame c c' -> (forall data, r ≠ Ok (Some data)) -> attempt c (c', r).
Proof. unfold frame, attempt. naive_solver. Qed.
Lemma attempt_trans c c1 outcome : frame c c1 -> attempt c1 outcome -> attempt c outcome.
Proof.
  destruct outcome as [c' r]. intros (A1 & A2 & A3) (B1 & B2 & B3 & B4). split; [by etrans|]. split; [by etrans|]. split; [done|].
  intros Hr. etrans; [exact A3|by apply B4].
Qed.
Lemma attempt_steps (m : M Coordinator (option bytes)) c : steps frame m ->
  (forall s data, (m s).2 ≠ Ok (Some data)) -> attempt c (m c).
Proof. intros Hm Hn. rewrite (surjective_pairing (m c)). apply attempt_frame; [apply Hm|apply Hn]. Qed.

Lemma attempt_sync reply c :
  attempt c (send_sync_group_request reply c).
Proof.
  unfold send_sync_group_request, try_send, send_req, coordinator_dead, reset_generation, request_rejoin, catch,
    mbind, M_bind, gets, modify, mret, M_ret, raise, attempt.
  simpl. destruct (coordinator_id c) eqn:Ec; simpl; [|frames].
  destruct reply as [[e data]|]; simpl; [|rewrite Ec; frames].
  destruct e; simpl; rewrite ?Ec; frames.
Qed.

Lemma attempt_leader sync resp c :
  attempt c (on_join_leader karapace_version election_strategy sync resp c).
Proof.
  unfold on_join_leader, catch, mbind, M_bind.
  pose proof (frame_perform_assignment (join_members resp) c) as Hf.
  destruct (perform_assignment _ _ _ c) as [c1 [g|e]]; simpl in *; [|by apply attempt_frame].
  eapply attempt_trans; [exact Hf|apply attempt_sync].
Qed.

Lemma attempt_join replies sync c :
  attempt c (perform_group_join karapace_version election_strategy replies sync c).
Proof.
  unfold perform_group_join. cbv [mbind M_bind]. pose proof (frame_send_join_requests replies c) as Hf.
  destruct (send_join_requests replies c) as [c1 [[resp|]|e]]; simpl in Hf;
    [|by apply (attempt_frame c c1 (Ok None))|by apply (attempt_frame c c1 (Raise e))].
  eapply attempt_trans; [exact Hf|]. clear Hf.
  assert (Hdead : attempt c1 ((_ ← coordinator_dead; mret None : M Coordinator (option bytes)) c1)).
  { apply attempt_steps; [monad_steps|]. intros s data. unfold coordinator_dead, mbind, M_bind, gets.
    by destruct (coordinator_id s). }
  destruct (join_error resp); try done; try (apply attempt_steps; [by monad_steps|done]).
  unfold mbind, M_bind. simpl. eapply attempt_trans; [apply (frame_set_member (join_generation_id resp) (join_member_id resp))|].
  destruct (String.eqb _ _); [apply attempt_leader|apply attempt_sync].
Qed.

(** An assignment is read before it is applied: a malformed one changes nothing. *)
Lemma on_join_complete_outcome now id metadata c :
  let '(c', r) := on_join_complete waiting_time now id metadata c in
  match r with
  | Ok _ => coord_ready c' = true /\ rejoin_needed c' = rejoin_needed c /\ is_Some (are_we_master_flag c')
  | Raise _ => c' = c
  end.
Proof.
  unfold on_join_complete, mbind, M_bind, lift, gets, modify, mret, M_ret.
  destruct (json_decode metadata) as [j|e]; [|done]. destruct j; try done.
  cbv [result_bind]. destruct (dindex "master_identity"%string _) as [i|e]; [|done]. simpl.
  destruct (read_identity i) as [identity|e]; [|done]. destruct (dindex "master"%string _) as [master|e]; [|done].
  destruct (_ && _); [|destruct (negb _)]; [|simpl; eauto..].
  destruct (match _ with Some _ => _ | None => _ end); simpl; eauto.
Qed.

(** Rejoining settles the group membership. When a rejoin reports success, the member is ready,
    knows whether it is the primary and needs no further rejoin. When it reports failure, the need
    to rejoin is kept, so that the routine tries again; when it raises, it is kept too, unless the
    group protocol had succeeded and the assignment could not be read. A failed rejoin neither makes
    a member take itself for the primary nor touches its wait. *)
Theorem rejoin_settles replies sync now c :
  match do_rejoin_group karapace_version election_strategy waiting_time replies sync now c with
  | (c', Ok true) => coord_ready c' = true /\ rejoin_needed c' = false /\ is_Some (are_we_master_flag c')
  | (c', Ok false) => same_wait c c' /\ no_promotion c c' /\ still_rejoining c c'
  | (c', Raise _) => same_wait c c' /\ no_promotion c c' /\
      (still_rejoining c c' \/
       exists data, (perform_group_join karapace_version election_strategy replies sync c).2 = Ok (Some data))
  end.
Proof.
  pose proof (attempt_join replies sync c) as Hj. unfold do_rejoin_group, mbind, M_bind.
  destruct (perform_group_join _ _ replies sync c) as [c1 [[data|]|e]]; destruct Hj as (H1 & H2 & H3 & H4); simpl in *.
  - specialize (H3 data eq_refl). pose proof (on_join_complete_outcome now (member_id c1) data c1) as Ho.
    destruct (on_join_complete _ _ _ _ c1) as [c2 [[]|e]]; simpl.
    + destruct Ho as (? & -> & ?). done.
    + subst c2. split_and!; [done|done|]. right. by exists data.
  - split_and!; [done|done|]. by apply H4.
  - split_and!; [done|done|]. left. by apply H4.
Qed.

(** ** Waiting before acting as primary *)

(** What may happen to a coordinator between two elections, at its time. *)
Inductive Event : Type :=
  | Query                                  (* [are_we_master] is asked *)
  | RecordLeadership                       (* before rejoining *)
  | ReaderCaughtUp                         (* the reader becomes ready *)
  | ReaderNotReady                         (* the reader stops being ready *)
  | Heartbeat (reply : option ErrorType)
  | CoordinatorDead                        (* the session of the heartbeats expired *)
  | CoordinatorKnown (found : Z)
  | Join (replies : list (option (JoinGroupResponse (bytes := bytes))))
      (sync : list (string * bytes) -> option (SyncGroupResponse (bytes := bytes)))
  | Leave (reply : option ErrorType).

Definition react (now : Z) (e : Event) (c : Coordinator) : Coordinator :=
  match e with
  | Query => (are_we_master waiting_time now c).1
  | RecordLeadership => (record_leadership waiting_time now c).1
  | ReaderCaughtUp => set_reader true c
  | ReaderNotReady => set_reader false c
  | Heartbeat reply => (do_heartbeat reply c).1
  | CoordinatorDead => (coordinator_dead c).1
  | CoordinatorKnown found => (ensure_coordinator_known found c).1
  | Join replies sync => (perform_group_join karapace_version election_strategy replies sync c).1
  | Leave reply => (maybe_leave_group waiting_time reply now c).1
  end.

(** The run of a trace of events. *)
Definition execute (trace : list (Z * Event)) (c : Coordinator) : Coordinator :=
  fold_left (fun c te => react te.1 te.2 c) trace c.

(** The events that ask whether the member is the primary. *)
Definition asks (e : Event) : bool :=
  match e with Query | RecordLeadership | Leave _ => true | _ => false end.

(** The wait ended: the member was asked after its time and waits for its reader. *)
Definition wait_ended (now : Z) (c c' : Coordinator) : Prop :=
  exists t, initial_election c = Some (At t) /\ t + waiting_time < now /\
    initial_election c' = None /\ reader_ready c' = false.

Lemma are_we_master_wait now c :
  same_wait c (are_we_master waiting_time now c).1 \/
  (wait_ended now c (are_we_master waiting_time now c).1 /\ (are_we_master waiting_time now c).2 = Ok false).
Proof.
  unfold are_we_master, mbind, M_bind, gets, modify, mret, M_ret.
  destruct (are_we_master_flag c) as [flag|]; [|by left]. destruct (_ || _); [by left|].
  destruct flag; [|by left]. destruct (initial_election c) as [[|t]|] eqn:E; [by left| |by left].
  destruct (Z.ltb_spec (t + waiting_time) now); [right|by left]. split; [|done]. exists t. by split_and!.
Qed.

Lemma record_leadership_wait now c :
  same_wait c (record_leadership waiting_time now c).1 \/ wait_ended now c (record_leadership waiting_time now c).1.
Proof.
  unfold record_leadership, mbind, M_bind.
  destruct (are_we_master_wait now c) as [H|[H Hr]]; destruct (are_we_master waiting_time now c) as [c' [[]|e]];
    simpl in *; by eauto.
Qed.

Lemma frame_same_wait {A} (m : M Coordinator A) c : steps frame m -> same_wait c (m c).1.
Proof. intros H. apply H. Qed.

Lemma maybe_leave_group_wait reply now c :
  same_wait c (maybe_leave_group waiting_time reply now c).1 \/ wait_ended now c (maybe_leave_group waiting_time reply now c).1.
Proof.
  unfold maybe_leave_group, mbind, M_bind, gets.
  set (m := if 0 <? generation c then _ else _).
  assert (Hm : steps frame m) by (unfold m; monad_steps).
  assert (H1 := frame_same_wait m c Hm). destruct (m c) as [c1 [[]|e]]; simpl in *; [|by left].
  destruct (record_leadership_wait now c1) as [H2|H2];
    destruct (record_leadership waiting_time now c1) as [c2 [[]|e]]; simpl in *; try (left; by etrans);
    right; destruct H1, H2 as (t & ? & ? & ? & ?); exists t; split_and!; (congruence || done).
Qed.

Lemma react_wait now e c : e ≠ ReaderCaughtUp -> e ≠ ReaderNotReady ->
  same_wait c (react now e c) \/ (asks e = true /\ wait_ended now c (react now e c)).
Proof.
  intros H1 H2. destruct e; simpl; try done.
  - destruct (are_we_master_wait now c) as [|[]]; auto.
  - destruct (record_leadership_wait now c); auto.
  - left. apply frame_same_wait, frame_do_heartbeat.
  - left. apply frame_same_wait, frame_coordinator_dead.
  - left. unfold ensure_coordinator_known, mbind, M_bind, gets. by destruct (coordinator_id c).
  - left. pose proof (attempt_join replies sync c) as H. destruct (perform_group_join _ _ replies sync c). apply H.
  - destruct (maybe_leave_group_wait reply now c); auto.
Qed.

(** One event changes neither the time of the election nor an unready reader, except that a
    question after the waiting time ends the wait and that the reader catches up. *)
Lemma react_election now e c :
  initial_election (react now e c) = initial_election c \/ (asks e = true /\ wait_ended now c (react now e c)).
Proof.
  destruct e as [| | | |r|id|f|j s|l] eqn:E; try (by left);
    (edestruct (react_wait now e c) as [[]|]; subst e; [done|done|by left|by right]).
Qed.

Lemma react_reader now e c : e ≠ ReaderCaughtUp -> reader_ready c = false -> reader_ready (react now e c) = false.
Proof.
  intros He Hr. assert (Hd : e = ReaderNotReady \/ e ≠ ReaderNotReady) by (destruct e; auto).
  destruct Hd as [->|Hd]; [done|]. destruct (react_wait now e c He Hd) as [[_ H]|[_ (t & H)]]; [congruence|tauto].
Qed.

(** An unready reader that is ready at the end has caught up on the way. *)
Lemma reader_caught_up trace c : reader_ready c = false -> reader_ready (execute trace c) = true ->
  exists t1 now t2, trace = t1 ++ (now, ReaderCaughtUp) :: t2.
Proof.
  revert c. induction trace as [|[now e] trace IH]; intros c Hr; [simpl; congruence|].
  simpl. intros Hend. assert (Hd : e = ReaderCaughtUp \/ e ≠ ReaderCaughtUp) by (destruct e; auto).
  destruct Hd as [->|Hne]; [by exists [], now, trace|].
  destruct (IH (react now e c)) as (t1 & n & t2 & ->); [by apply react_reader|done|by exists ((now, e) :: t1), n, t2].
Qed.

(** C20. A member elected at time [t0] that must wait does not act as primary too early: whatever
    happens without a new assignment being applied (joins and leaves included), when it answers that it is the primary, it was asked at
    some time later than [t0] plus the waiting time, which made it wait for its reader again, and
    the reader has caught up after that. *)
Theorem new_primary_waits trace c t0 now c' :
  initial_election c = Some (At t0) ->
  are_we_master waiting_time now (execute trace c) = (c', Ok true) ->
  exists before asked e between caught after,
    trace = before ++ (asked, e) :: between ++ (caught, ReaderCaughtUp) :: after /\
    asks e = true /\ t0 + waiting_time < asked.
Proof.
  intros H0 Hq.
  assert (Hend : initial_election (execute trace c) = None /\ reader_ready (execute trace c) = true).
  { revert Hq. unfold are_we_master, mbind, M_bind, gets, modify, mret, M_ret.
    destruct (are_we_master_flag _) as [flag|]; [|done].
    destruct (reader_ready (execute trace c)); [|by rewrite orb_true_r].
    destruct (_ || _); [done|]. destruct flag; [|done].
    destruct (initial_election (execute trace c)) as [stamp|]; [|done].
    by destruct (match stamp with Infinity => false | At t => t + waiting_time <? now end). }
  destruct Hend as [Hnone Hready]. clear Hq. revert c H0 Hnone Hready.
  induction trace as [|[asked e] trace IH]; intros c H0 Hnone Hready; simpl in *; [congruence|].
  destruct (react_election asked e c) as [Hsame|(He & t & Ht & Hlt & Hel & Hrd)].
  - destruct (IH (react asked e c)) as (before & asked' & e' & between & caught & after & -> & He' & Hlt);
      [congruence|done|done|].
    by exists ((asked, e) :: before), asked', e', between, caught, after.
  - destruct (reader_caught_up trace (react asked e c) Hrd Hready) as (between & caught & after & ->).
    exists [], asked, e, between, caught, after. split_and!; [done|done|]. congruence.
Qed.
End protocol.

Lemma new_primary_waits_witness :
  let c := mkCoordinator true (Some "http://a:1"%string) (Some true) (Some (At 1000)) None false 3 "a" (Some 0) false in
  let trace : list (Z * Event (bytes := option json)) := [(1100, ReaderCaughtUp); (2000, Query); (6500, Query); (6600, ReaderCaughtUp)] in
  (are_we_master 5000 6700 (execute (bytes := option json) "1" "lowest" 5000 trace c)).2 = Ok true /\
  exists before asked e between caught after,
    trace = before ++ (asked, e) :: between ++ (caught, ReaderCaughtUp) :: after /\
    asks e = true /\ 1000 + 5000 < asked.
Proof.
  split; [reflexivity|]. eapply (new_primary_waits (bytes := option json) "1" "lowest" 5000 _
    (mkCoordinator true (Some "http://a:1"%string) (Some true) (Some (At 1000)) None false 3 "a" (Some 0) false) 1000 6700);
    reflexivity.
Defined.
