(* ===== verification/ProtoReader.v ===== *)
(** * Reading the characters of a .proto text

    [core/protobuf/syntax_reader.py]: [SyntaxReader], the position-based reader under the parser of
    protobuf schemas. The text is a list of characters (code points below 256; an octal escape of a
    larger one ends in [OtherError]); the reader is its position, line count and line start.
    [expect] and [unexpected] raise [IllegalStateException]; messages are left out.

    Loops that advance by one character recurse on the unread text. [skip_whitespace],
    [read_documentation] and [read_quoted_string] advance by comments too and take fuel; running out
    of it is a [RecursionError], which the length of the text rules out (see [ProtoReaderSpec]). *)

From S2P Require Import Prelude Typing.

Abbreviation text := (list ascii) (only parsing).

Definition to_text (s : string) : text := String.list_ascii_of_string s.
Definition of_text (t : text) : string := String.string_of_list_ascii t.

Definition LF : ascii := "010"%char.
Definition CR : ascii := "013"%char.
Definition TAB : ascii := "009"%char.
Definition SPACE : ascii := " "%char.
Definition SLASH : ascii := "/"%char.
Definition STAR : ascii := "*"%char.
Definition BACKSLASH : ascii := "\"%char.
Definition QUOTE : ascii := "034"%char.
Definition APOSTROPHE : ascii := "'"%char.

Definition is_char (c d : ascii) : bool := Ascii.eqb c d.
Definition is_blank (c : ascii) : bool := is_char c SPACE || is_char c TAB || is_char c CR || is_char c LF.
Definition is_quote (c : ascii) : bool := is_char c QUOTE || is_char c APOSTROPHE.
Definition in_range (a b c : ascii) : bool :=
  (N_of_ascii a <=? N_of_ascii c)%N && (N_of_ascii c <=? N_of_ascii b)%N.
Definition is_word_char (c : ascii) : bool :=
  in_range "a" "z" c || in_range "A" "Z" c || in_range "0" "9" c
  || is_char c "_" || is_char c "-" || is_char c ".".

(** [str.strip] on characters. *)
Fixpoint lstrip_text (t : text) : text :=
  match t with c :: t' => if is_space c then lstrip_text t' else t | [] => [] end.
Definition strip_text (t : text) : text := rev (lstrip_text (rev (lstrip_text t))).

(** [int(tag, 16)], for a tag that starts with [0x] or [0X]. *)
Definition hex_digit (c : ascii) : option Z :=
  let n := Z.of_N (N_of_ascii c) in
  if in_range "0" "9" c then Some (n - 48)%Z
  else if in_range "a" "f" c then Some (n - 87)%Z
  else if in_range "A" "F" c then Some (n - 55)%Z
  else None.
Definition octal_digit (c : ascii) : option Z :=
  if in_range "0" "7" c then Some (Z.of_N (N_of_ascii c) - 48)%Z else None.
Fixpoint hex_digits (acc : Z) (prev : bool) (t : text) : option Z :=
  match t with
  | [] => if prev then Some acc else None
  | c :: t' =>
      match hex_digit c with
      | Some d => hex_digits (acc * 16 + d) true t'
      | None => if is_char c "_" && prev then hex_digits acc false t' else None
      end
  end.
Definition py_int16 (t : text) : option Z :=
  match t with
  | _ :: _ :: "_"%char :: t' => hex_digits 0 false t'
  | _ :: _ :: t' => hex_digits 0 false t'
  | _ => None
  end.

Record Reader : Type := mkReader { pos : nat; line : nat; line_start : nat }.
Definition new_reader : Reader := mkReader 0 0 0.

(** [self._location.at(line + 1, pos - line_start + 1)]; base and path are those of the file. *)
Record Location : Type := mkLocation { loc_line : Z; loc_column : Z }.
Definition DEFAULT_LOCATION : Location := mkLocation (-1) (-1).

Section Reader.
Context (data : text).

Abbreviation R := (M Reader).

(** The text that is not read yet. *)
Definition rest (r : Reader) : text := drop (pos r) data.

Definition advance (n : nat) : R () := modify (fun r => mkReader (pos r + n)%nat (line r) (line_start r)).
Definition back (n : nat) : R () := modify (fun r => mkReader (pos r - n)%nat (line r) (line_start r)).
Definition newline : R () := modify (fun r => mkReader (pos r) (S (line r)) (pos r)).
Definition location : R Location :=
  gets (fun r => mkLocation (Z.of_nat (line r) + 1) (Z.of_nat (pos r) - Z.of_nat (line_start r) + 1)).

Definition unexpected {A} : R A := raise IllegalStateException.
Definition expect (condition : bool) : R () := if condition then mret () else unexpected.

Definition exhausted : R bool := gets (fun r => Nat.eqb (pos r) (length data)).

(** *** Comments *)

(** The loop of a [/*] comment over the unread text: the body when it is closed. [newline] is
    called before the line feed is stepped over. *)
Fixpoint read_star_comment (s : text) (buffer : text) (start_of_line : bool) : R text :=
  match s with
  | c :: (d :: s'') as s' =>
      if is_char c STAR && is_char d SLASH then _ ← advance 2; mret (strip_text buffer)
      else if is_char c LF then
        _ ← newline; _ ← advance 1; read_star_comment s' (buffer ++ [LF]) true
      else if negb start_of_line then _ ← advance 1; read_star_comment s' (buffer ++ [c]) false
      else if is_char c STAR then
        if is_char d SPACE then _ ← advance 2; read_star_comment s'' buffer false
        else _ ← advance 1; read_star_comment s' buffer true
      else if negb (is_space c) then _ ← advance 1; read_star_comment s' (buffer ++ [c]) false
      else _ ← advance 1; read_star_comment s' buffer true
  | _ => mret []
  end.

(** The loop of a [//] comment: the characters it steps over, its line feed included. *)
Fixpoint read_line_comment (s : text) : R text :=
  match s with
  | [] => mret []
  | c :: s' =>
      _ ← advance 1;
      if is_char c LF then _ ← newline; mret [c]
      else t ← read_line_comment s'; mret (c :: t)
  end.

Definition non_empty (t : text) : bool := match t with [] => false | _ => true end.

(** [read_comment]: a [//] comment drops its last character, the line feed unless the text ends
    there; a comment without text is an error. *)
Definition read_comment : R text :=
  s ← gets rest;
  match s with
  | c :: s' =>
      if negb (is_char c SLASH) then unexpected
      else
        _ ← advance 1;
        result ← (match s' with
                  | d :: s'' =>
                      _ ← advance 1;
                      if is_char d STAR then
                        body ← read_star_comment s'' [] true;
                        _ ← expect (non_empty body); mret body
                      else if is_char d SLASH then
                        s3 ← (match s'' with
                              | b :: s3 => if is_char b SPACE then _ ← advance 1; mret s3 else mret s''
                              | [] => mret s''
                              end);
                        t ← read_line_comment s3; mret (removelast t)
                      else mret []
                  | [] => mret []
                  end);
        _ ← expect (non_empty result); mret result
  | [] => unexpected
  end.

(** *** Whitespace *)

Fixpoint skip_whitespace_fuel (fuel : nat) (skip_comments : bool) : R () :=
  match fuel with
  | O => raise RecursionError
  | S fuel =>
      s ← gets rest;
      match s with
      | [] => mret ()
      | c :: _ =>
          if is_blank c then
            _ ← advance 1;
            _ ← (if is_char c LF then newline else mret ());
            skip_whitespace_fuel fuel skip_comments
          else if skip_comments && is_char c SLASH then
            _ ← read_comment; skip_whitespace_fuel fuel skip_comments
          else mret ()
      end
  end.
Definition skip_whitespace (skip_comments : bool) : R () := skip_whitespace_fuel (S (length data)) skip_comments.

(** [peek_char()] *)
Definition peek_char : R ascii :=
  _ ← skip_whitespace true;
  s ← gets rest;
  match s with c :: _ => mret c | [] => unexpected end.

(** [peek_char(ch)]: consumes [ch] if it comes next. *)
Definition peek_is (ch : ascii) : R bool :=
  c ← peek_char;
  if is_char c ch then _ ← advance 1; mret true else mret false.

Definition read_char : R ascii := c ← peek_char; _ ← advance 1; mret c.
Definition require (ch : ascii) : R () := c ← read_char; expect (is_char c ch).

(** [push_back]: [self.data[self.pos - 1]], which is the last character at position 0. *)
Definition push_back (ch : ascii) : R () :=
  r ← gets id;
  match (if Nat.eqb (pos r) 0 then last data else data !! (pos r - 1)%nat) with
  | Some c => if is_char c ch then back 1 else mret ()
  | None => raise IndexError
  end.

(** *** Words and numbers *)

Fixpoint span_word (s : text) : text :=
  match s with c :: s' => if is_word_char c then c :: span_word s' else [] | [] => [] end.

Definition read_word : R string :=
  _ ← skip_whitespace true;
  s ← gets rest;
  let word := span_word s in
  _ ← advance (length word);
  _ ← expect (non_empty word);
  mret (of_text word).

Definition has_hex_prefix (t : text) : bool :=
  match t with "0"%char :: c :: _ => is_char c "x" || is_char c "X" | _ => false end.

Definition read_int : R Z :=
  tag ← read_word;
  match (if has_hex_prefix (to_text tag) then py_int16 (to_text tag) else py_int tag) with
  | Some z => mret z
  | None => unexpected
  end.

Definition read_name : R string :=
  c ← peek_char;
  if is_char c "(" then
    _ ← advance 1; result ← read_word; close ← read_char; _ ← expect (is_char close ")"); mret result
  else if is_char c "[" then
    _ ← advance 1; result ← read_word; close ← read_char; _ ← expect (is_char close "]"); mret result
  else read_word.

(** [read_data_type] and [read_data_type_by_name], which nest through [map<...>]. *)
Fixpoint read_data_type_by_name (fuel : nat) (name : string) : R string :=
  match fuel with
  | O => raise RecursionError
  | S fuel =>
      if String.eqb name "map" then
        c ← read_char; _ ← expect (is_char c "<");
        key_type ← (n ← read_word; read_data_type_by_name fuel n);
        c ← read_char; _ ← expect (is_char c ",");
        value_type ← (n ← read_word; read_data_type_by_name fuel n);
        c ← read_char; _ ← expect (is_char c ">");
        mret ("map<" +:+ key_type +:+ ", " +:+ value_type +:+ ">")%string
      else mret name
  end.
Definition data_type_by_name (name : string) : R string := read_data_type_by_name (S (length data)) name.
Definition read_data_type : R string := name ← read_word; data_type_by_name name.

(** *** Quoted strings *)

(** [read_numeric_escape(radix, length)] over the unread text: the digits it steps over. *)
Fixpoint span_digits (digit : ascii -> option Z) (length : nat) (s : text) : list Z :=
  match length, s with
  | S length, c :: s' => match digit c with Some d => d :: span_digits digit length s' | None => [] end
  | _, _ => []
  end.
Definition chr (value : Z) : R ascii :=
  if (value <? 256)%Z then mret (ascii_of_N (Z.to_N value)) else raise OtherError.
Definition read_numeric_escape (radix : Z) (digit : ascii -> option Z) (len : nat) : R ascii :=
  s ← gets rest;
  let digits := span_digits digit len s in
  _ ← advance (length digits);
  match digits with
  | [] => unexpected
  | _ => chr (fold_left (fun value d => value * radix + d)%Z digits 0%Z)
  end.

(** The table of single-character escapes. *)
Definition escape_char (c : ascii) : option ascii :=
  if is_char c "a" then Some "007"%char else if is_char c "b" then Some "008"%char
  else if is_char c "f" then Some "012"%char else if is_char c "n" then Some LF
  else if is_char c "r" then Some CR else if is_char c "t" then Some TAB
  else if is_char c "v" then Some "011"%char else None.

(** The character after a backslash. *)
Definition read_escape : R ascii :=
  s ← gets rest;
  match s with
  | [] => unexpected
  | c :: _ =>
      _ ← advance 1;
      match escape_char c with
      | Some d => mret d
      | None =>
          if is_char c "x" || is_char c "X" then read_numeric_escape 16 hex_digit 2
          else if in_range "0" "7" c then _ ← back 1; read_numeric_escape 8 octal_digit 3
          else mret c
      end
  end.

Fixpoint read_quoted_fuel (fuel : nat) (start_quote : ascii) (result : text) : R string :=
  match fuel with
  | O => raise RecursionError
  | S fuel =>
      s ← gets rest;
      match s with
      | [] => unexpected
      | c :: _ =>
          _ ← advance 1;
          if is_char c start_quote then
            next ← peek_char;
            if is_quote next then q ← read_char; read_quoted_fuel fuel q result
            else mret (of_text result)
          else
            c ← (if is_char c BACKSLASH then read_escape else mret c);
            _ ← (if is_char c LF then newline else mret ());
            read_quoted_fuel fuel start_quote (result ++ [c])
      end
  end.
Definition read_quoted_string : R string :=
  start_quote ← read_char;
  if is_quote start_quote then read_quoted_fuel (S (length data)) start_quote [] else unexpected.

Definition read_string : R string :=
  c ← peek_char;
  if is_quote c then read_quoted_string else read_word.

(** *** Documentation *)

Fixpoint read_documentation_fuel (fuel : nat) (result : text) : R text :=
  match fuel with
  | O => raise RecursionError
  | S fuel =>
      _ ← skip_whitespace false;
      s ← gets rest;
      match s with
      | c :: _ =>
          if is_char c SLASH then
            comment ← read_comment;
            read_documentation_fuel fuel (if non_empty result then result ++ LF :: comment else comment)
          else mret result
      | [] => mret result
      end
  end.
Definition read_documentation : R string :=
  t ← read_documentation_fuel (S (length data)) []; mret (of_text t).

(** *** Trailing documentation *)

(** The first loop: the outcome is whether a slash was stepped over, nothing was found, or
    something else comes next. *)
Inductive Trailing : Type := TrailingSlash | TrailingEnd | TrailingOther.
Fixpoint find_trailing (s : text) : R Trailing :=
  match s with
  | [] => mret TrailingEnd
  | c :: s' =>
      if is_char c SPACE || is_char c TAB then _ ← advance 1; find_trailing s'
      else if is_char c SLASH then _ ← advance 1; mret TrailingSlash
      else mret TrailingOther
  end.

(** Steps to the end of a star comment; the length of its body. *)
Fixpoint find_star_end (s : text) (n : nat) : R nat :=
  match s with
  | [] => unexpected
  | c :: s' =>
      match s' with
      | d :: _ => if is_char c STAR && is_char d SLASH then _ ← advance 2; mret n
                  else _ ← advance 1; find_star_end s' (S n)
      | [] => _ ← advance 1; find_star_end s' (S n)
      end
  end.

(** Only blanks may follow it on the line. *)
Fixpoint nothing_follows (s : text) : R () :=
  match s with
  | [] => mret ()
  | c :: s' =>
      _ ← advance 1;
      if is_char c LF then newline
      else _ ← expect (is_char c SPACE || is_char c TAB); nothing_follows s'
  end.

(** Steps over a line comment and its line feed; the length of its body. *)
Fixpoint find_line_end (s : text) (n : nat) : R nat :=
  match s with
  | [] => mret n
  | c :: s' =>
      _ ← advance 1;
      if is_char c LF then _ ← newline; mret n else find_line_end s' (S n)
  end.

(** Blanks are dropped from the end down to the first character. *)
Fixpoint drop_trailing (t : text) : text :=
  match t with
  | [] => []
  | [c] => [c]
  | c :: t' =>
      match drop_trailing t' with
      | [d] => if is_char d SPACE || is_char d TAB then [c] else [c; d]
      | t'' => c :: t''
      end
  end.

Definition try_append_trailing_documentation (documentation : string) : R string :=
  s ← gets rest;
  found ← find_trailing s;
  match found with
  | TrailingOther => mret documentation
  | _ =>
      s ← gets rest;
      match s with
      | c :: s1 =>
          if is_char c SLASH || is_char c STAR then
            let is_star := is_char c STAR in
            _ ← advance 1;
            s2 ← (match s1 with
                  | b :: s2 => if is_char b SPACE then _ ← advance 1; mret s2 else mret s1
                  | [] => mret s1
                  end);
            n ← (if is_star then
                   n ← find_star_end s2 0; s3 ← gets rest; _ ← nothing_follows s3; mret n
                 else find_line_end s2 0);
            let body := drop_trailing (take n s2) in
            if Nat.eqb (length body) 1 then mret documentation
            else if non_empty (strip_text (to_text documentation))
                 then mret (documentation +:+ of_text (LF :: body))%string
                 else mret (of_text body)
          else _ ← back 1; unexpected
      | [] => _ ← back 1; unexpected
      end
  end.
End Reader.
