(* ===== verification/ProtoReaderSpec.v ===== *)
(** * The reader makes progress and fails only on the text

    [safe data n k m]: from a position with at most [n] characters left, [m] either returns having
    read at least [k] of them and stays within the text, or raises an error that the text explains.
    In particular no loop runs out of fuel. *)

From S2P Require Import Prelude Typing ProtoReader.
Open Scope nat_scope.

(** The exceptions that leave the parser: a syntax error, a duplicate definition, a bound of an
    extension range that is not a number, an option map whose values cannot be merged, an option
    that cannot be printed when [default] is taken out, an escape beyond the modelled characters. *)
Definition parse_error (e : exn) : Prop :=
  match e with
  | IllegalStateException | ProtobufSchemaParseException | ValueError | TypeError | AttributeError | OtherError => True
  | _ => False
  end.

Lemma length_drop_S {A} n (x : A) l l' : drop n l = x :: l' -> drop (S n) l = l' /\ n < length l.
Proof.
  intros H. split.
  - replace (S n) with (n + 1) by lia. rewrite <- drop_drop, H. done.
  - apply (f_equal length) in H. rewrite length_drop in H. simpl in H. lia.
Qed.

(** Computes the primitive steps of the reader. *)
Ltac reader_step := unfold mbind, M_bind, advance, back, newline, modify, gets, mret, M_ret, expect, unexpected, raise in *; simpl in *.

Section safe.
Context (data : list ascii).

Definition safe {A} (n k : nat) (m : M Reader A) : Prop :=
  forall r, pos r <= length data -> length data - pos r <= n ->
    match m r with
    | (r', Ok _) => pos r + k <= pos r' /\ pos r' <= length data
    | (_, Raise e) => parse_error e
    end.

Lemma safe_ret {A} n (a : A) : safe n 0 (mret a).
Proof. intros r ??. simpl. lia. Qed.
Lemma safe_raise {A} n k e : parse_error e -> safe n k (raise (A := A) e).
Proof. intros H r ??. done. Qed.
Lemma safe_gets {A} n (f : Reader -> A) : safe n 0 (gets f).
Proof. intros r ??. simpl. lia. Qed.
Lemma safe_newline n : safe n 0 newline.
Proof. intros r ??. simpl. lia. Qed.
Lemma safe_location n : safe n 0 location.
Proof. apply safe_gets. Qed.
Lemma safe_unexpected {A} n k : safe n k (unexpected (A := A)).
Proof. by apply safe_raise. Qed.
Lemma safe_expect n b : safe n 0 (expect b).
Proof. unfold expect. destruct b; [apply safe_ret|apply safe_unexpected]. Qed.
Lemma safe_lift {A} n (x : result A) : raises_res parse_error x -> safe n 0 (lift x).
Proof. intros H r ??. simpl. destruct x; [lia|by apply H]. Qed.

Lemma safe_weaken {A} n n' k k' (m : M Reader A) : safe n k m -> n' <= n -> k' <= k -> safe n' k' m.
Proof.
  intros H Hn Hk r Hr Hr'. specialize (H r Hr ltac:(lia)). destruct (m r) as [r' [a|e]]; [lia|done].
Qed.

(** What was read before is off the count, and was there to be read. *)
Lemma safe_bind {A B} n k1 k2 (m : M Reader A) (f : A -> M Reader B) :
  safe n k1 m -> (forall a, k1 <= n -> safe (n - k1) k2 (f a)) -> safe n (k1 + k2) (mbind f m).
Proof.
  intros Hm Hf r Hr Hn. unfold mbind, M_bind. specialize (Hm r Hr Hn). destruct (m r) as [r1 [a|e]]; [|done].
  specialize (Hf a ltac:(lia) r1 ltac:(lia) ltac:(lia)). destruct (f a r1) as [r2 [b|e]]; [lia|done].
Qed.
Lemma safe_seq {A B} n (m : M Reader A) (f : A -> M Reader B) k :
  safe n 0 m -> (forall a, safe n k (f a)) -> safe n k (mbind f m).
Proof.
  intros Hm Hf. apply (safe_bind n 0 k); [done|]. intros a _. by rewrite Nat.sub_0_r.
Qed.
Lemma safe_after {A B} n k1 k (m : M Reader A) (f : A -> M Reader B) :
  safe n k1 m -> (forall a, k1 <= n -> safe (n - k1) (k - k1) (f a)) -> safe n k (mbind f m).
Proof. intros Hm Hf. eapply safe_weaken; [by apply safe_bind|lia..]. Qed.

(** ** Loops on the unread text *)

(** [m] started at [r]: it moves on by at least [k] within the text. *)
Definition runs {A} (k : nat) (m : M Reader A) (r : Reader) : Prop :=
  match m r with
  | (r', Ok _) => pos r + k <= pos r' /\ pos r' <= length data
  | (_, Raise e) => parse_error e
  end.

Lemma safe_runs {A} n k (m : M Reader A) :
  (forall r, pos r <= length data -> length data - pos r <= n -> runs k m r) -> safe n k m.
Proof. done. Qed.

(** The text left after stepping over [j] characters of it. *)
Lemma rest_advance j r s1 s2 : rest data r = s1 ++ s2 -> length s1 = j ->
  rest data (mkReader (pos r + j) (line r) (line_start r)) = s2 /\ pos r + j <= length data \/ pos r + j > length data /\ j = 0.
Proof.
  unfold rest. simpl. intros H <-. destruct (decide (pos r <= length data)) as [Hle|Hgt].
  - left. split; [by rewrite <- drop_drop, H, drop_app_length|].
    apply (f_equal length) in H. rewrite length_drop, length_app in H. lia.
  - right. apply (f_equal length) in H. rewrite length_drop, length_app in H. lia.
Qed.

Lemma rest_cons r c s : rest data r = c :: s ->
  pos r < length data /\ forall l ls, rest data (mkReader (pos r + 1) l ls) = s.
Proof.
  intros H. unfold rest in *. apply length_drop_S in H as [H Hlt]. split; [done|]. intros l ls. simpl.
  by rewrite Nat.add_1_r.
Qed.

Lemma runs_advance {A} j k (m : M Reader A) r :
  runs k m (mkReader (pos r + j) (line r) (line_start r)) -> runs (j + k) (_ ← advance j; m) r.
Proof. unfold runs. reader_step. destruct (m _) as [r' [a|e]]; simpl; [lia|done]. Qed.
Lemma runs_newline {A} k (m : M Reader A) r :
  runs k m (mkReader (pos r) (S (line r)) (pos r)) -> runs k (_ ← newline; m) r.
Proof. done. Qed.
Lemma runs_ret {A} (a : A) r : pos r <= length data -> runs 0 (mret a) r.
Proof. unfold runs. simpl. lia. Qed.
Lemma runs_weaken {A} k k' (m : M Reader A) r : runs k m r -> k' <= k -> runs k' m r.
Proof. unfold runs. destruct (m r) as [r' [a|e]]; [lia|done]. Qed.

Lemma read_star_comment_eq c d s buffer sol : read_star_comment (c :: d :: s) buffer sol =
  if is_char c STAR && is_char d SLASH then _ ← advance 2; mret (strip_text buffer)
  else if is_char c LF then _ ← newline; _ ← advance 1; read_star_comment (d :: s) (buffer ++ [LF]) true
  else if negb sol then _ ← advance 1; read_star_comment (d :: s) (buffer ++ [c]) false
  else if is_char c STAR then
    if is_char d SPACE then _ ← advance 2; read_star_comment s buffer false
    else _ ← advance 1; read_star_comment (d :: s) buffer true
  else if negb (is_space c) then _ ← advance 1; read_star_comment (d :: s) (buffer ++ [c]) false
  else _ ← advance 1; read_star_comment (d :: s) buffer true.
Proof. done. Qed.

Lemma runs_star_comment n : forall s buffer sol r, length s <= n -> rest data r = s -> pos r <= length data ->
  runs 0 (read_star_comment s buffer sol) r.
Proof.
  induction n as [|n IH]; intros s buffer sol r Hlen Hs Hr.
  { destruct s; [by apply runs_ret|simpl in Hlen; lia]. }
  destruct s as [|c [|d s]]; [by apply runs_ret..|].
  destruct (rest_cons _ _ _ Hs) as [Hlt Hnext].
  destruct (rest_cons _ _ _ (Hnext (line r) (line_start r))) as [Hlt' Hnext']. simpl in Hlt'.
  assert (H1 : forall buffer sol, runs 0 (_ ← advance 1; read_star_comment (d :: s) buffer sol) r).
  { intros. eapply runs_weaken; [apply runs_advance, IH|lia]; [simpl in *; lia|apply Hnext|simpl; lia]. }
  assert (H2 : forall buffer sol, runs 0 (_ ← newline; _ ← advance 1; read_star_comment (d :: s) buffer sol) r).
  { intros. apply runs_newline. eapply runs_weaken; [apply runs_advance, IH|lia]; [simpl in *; lia|apply Hnext|simpl; lia]. }
  assert (H3 : forall l ls, rest data (mkReader (pos r + 2) l ls) = s).
  { intros l ls. replace (pos r + 2) with (pos r + 1 + 1) by lia. apply Hnext'. }
  rewrite read_star_comment_eq. destruct (is_char c STAR && is_char d SLASH).
  { eapply runs_weaken; [apply runs_advance, runs_ret|lia]. simpl. lia. }
  destruct (is_char c LF); [apply H2|]. destruct sol; [|apply H1]. cbn [negb].
  destruct (is_char c STAR); [destruct (is_char d SPACE); [|apply H1]|by destruct (negb (is_space c)); apply H1].
  eapply runs_weaken; [apply runs_advance, IH|lia]; [simpl in *; lia|apply H3|simpl; lia].
Qed.

(** Loops that advance one character a round. *)
Lemma runs_line_comment s : forall r, rest data r = s -> pos r <= length data -> runs 0 (read_line_comment s) r.
Proof.
  induction s as [|c s IH]; intros r Hs Hr; [unfold runs; simpl; lia|].
  destruct (rest_cons _ _ _ Hs) as [Hlt Hnext]. specialize (IH _ (Hnext (line r) (line_start r)) ltac:(simpl; lia)).
  unfold runs in *. simpl. reader_step. destruct (is_char c LF); simpl; [lia|].
  destruct (read_line_comment s _) as [r' [a|e]]; simpl in *; [lia|done].
Qed.

Lemma runs_find_trailing s : forall r, rest data r = s -> pos r <= length data -> runs 0 (find_trailing s) r.
Proof.
  induction s as [|c s IH]; intros r Hs Hr; [unfold runs; simpl; lia|].
  destruct (rest_cons _ _ _ Hs) as [Hlt Hnext]. specialize (IH _ (Hnext (line r) (line_start r)) ltac:(simpl; lia)).
  unfold runs in *. simpl. destruct (is_char c SPACE || is_char c TAB).
  - reader_step. destruct (find_trailing s _) as [r' [a|e]]; simpl in *; [lia|done].
  - destruct (is_char c SLASH); reader_step; lia.
Qed.

Lemma runs_find_star_end s : forall n r, rest data r = s -> pos r <= length data -> runs 0 (find_star_end s n) r.
Proof.
  induction s as [|c s IH]; intros n r Hs Hr; [done|].
  destruct (rest_cons _ _ _ Hs) as [Hlt Hnext]. specialize (IH (S n) _ (Hnext (line r) (line_start r)) ltac:(simpl; lia)).
  assert (Hgo : runs 0 (_ ← advance 1; find_star_end s (S n)) r).
  { unfold runs in *. reader_step. destruct (find_star_end s (S n) _) as [r' [a|e]]; simpl in *; [lia|done]. }
  simpl. destruct s as [|d s]; [done|]. destruct (is_char c STAR && is_char d SLASH); [|done].
  unfold runs. reader_step. destruct (rest_cons _ _ _ (Hnext (line r) (line_start r))). simpl in *. lia.
Qed.

Lemma runs_nothing_follows s : forall r, rest data r = s -> pos r <= length data -> runs 0 (nothing_follows s) r.
Proof.
  induction s as [|c s IH]; intros r Hs Hr; [unfold runs; simpl; lia|].
  destruct (rest_cons _ _ _ Hs) as [Hlt Hnext]. specialize (IH _ (Hnext (line r) (line_start r)) ltac:(simpl; lia)).
  unfold runs in *. simpl. reader_step. destruct (is_char c LF); simpl; [lia|].
  destruct (is_char c SPACE || is_char c TAB); [|done]. unfold mret, M_ret.
  destruct (nothing_follows s _) as [r' [a|e]]; simpl in *; [lia|done].
Qed.

Lemma runs_find_line_end s : forall n r, rest data r = s -> pos r <= length data -> runs 0 (find_line_end s n) r.
Proof.
  induction s as [|c s IH]; intros n r Hs Hr; [unfold runs; simpl; lia|].
  destruct (rest_cons _ _ _ Hs) as [Hlt Hnext]. specialize (IH (S n) _ (Hnext (line r) (line_start r)) ltac:(simpl; lia)).
  unfold runs in *. simpl. reader_step. destruct (is_char c LF); simpl; [lia|].
  destruct (find_line_end s _ _) as [r' [a|e]]; simpl in *; [lia|done].
Qed.

(** ** Tokens *)

Lemma runs_bind {A B} k1 k2 (m : M Reader A) (f : A -> M Reader B) r :
  runs k1 m r -> (forall a r1, m r = (r1, Ok a) -> pos r + k1 <= pos r1 -> pos r1 <= length data -> runs k2 (f a) r1) ->
  runs (k1 + k2) (mbind f m) r.
Proof.
  unfold runs, mbind, M_bind. intros Hm Hf. destruct (m r) as [r1 [a|e]]; [|done].
  specialize (Hf a r1 eq_refl ltac:(lia) ltac:(lia)). destruct (f a r1) as [r2 [b|e]]; [lia|done].
Qed.
Lemma runs_expect b r : pos r <= length data -> runs 0 (expect b) r.
Proof. intros Hr. unfold expect. destruct b; [by apply runs_ret|done]. Qed.
Lemma runs_safe {A} n k (m : M Reader A) r : safe n k m -> pos r <= length data -> length data - pos r <= n -> runs k m r.
Proof. intros H. apply H. Qed.

Lemma read_comment_body_runs r s : rest data r = s -> pos r <= length data ->
  runs 0 (match s with
          | d :: s'' =>
              _ ← advance 1;
              if is_char d STAR then body ← read_star_comment s'' [] true; _ ← expect (non_empty body); mret body
              else if is_char d SLASH then
                s3 ← (match s'' with
                      | b :: s3 => if is_char b SPACE then _ ← advance 1; mret s3 else mret s''
                      | [] => mret s''
                      end);
                t ← read_line_comment s3; mret (removelast t)
              else mret []
          | [] => mret []
          end) r.
Proof.
  intros Hs Hr. destruct s as [|d s]; [by apply runs_ret|]. destruct (rest_cons _ _ _ Hs) as [Hlt Hnext].
  eapply runs_weaken; [apply runs_advance|lia]. set (r1 := mkReader _ _ _).
  assert (Hr1 : pos r1 <= length data) by (simpl; lia). assert (Hs1 : rest data r1 = s) by apply Hnext.
  instantiate (1 := 0). destruct (is_char d STAR).
  { apply (runs_bind 0 0); [by eapply runs_star_comment|]. intros body r2 _ ? ?.
    apply (runs_bind 0 0); [by apply runs_expect|]. intros [] r3 _ ? ?. by apply runs_ret. }
  destruct (is_char d SLASH); [|by apply runs_ret].
  assert (Hline : forall r' s', rest data r' = s' -> pos r' <= length data ->
    runs 0 (t ← read_line_comment s'; mret (removelast t)) r').
  { intros r' s' ??. apply (runs_bind 0 0); [by apply runs_line_comment|]. intros. by apply runs_ret. }
  destruct s as [|b s]; [by apply (Hline r1 [])|]. destruct (is_char b SPACE); [|by apply Hline].
  destruct (rest_cons _ _ _ Hs1) as [Hlt1 Hnext1].
  change (runs 0 (_ ← advance 1; t ← read_line_comment s; mret (removelast t)) r1).
  eapply runs_weaken; [apply runs_advance, Hline; [apply Hnext1|simpl in *; lia]|lia].
Qed.

Lemma safe_read_comment n : safe n 1 (read_comment data).
Proof.
  intros r Hr Hn. change (runs 1 (read_comment data) r). unfold read_comment.
  apply (runs_bind 0 1); [unfold runs; simpl; lia|]. intros s r1 [= <- <-] _ _.
  destruct (rest data r) as [|c s] eqn:E; [done|]. destruct (negb (is_char c SLASH)); [done|].
  destruct (rest_cons _ _ _ E) as [Hlt Hnext]. apply (runs_advance 1 0).
  apply (runs_bind 0 0); [apply read_comment_body_runs; [apply Hnext|simpl; lia]|].
  intros result r2 _ ??. apply (runs_bind 0 0); [by apply runs_expect|]. intros. by apply runs_ret.
Qed.

Lemma safe_skip_whitespace_fuel fuel skip n : n < fuel -> safe n 0 (skip_whitespace_fuel data fuel skip).
Proof.
  revert n. induction fuel as [|fuel IH]; intros n Hf; [lia|]. intros r Hr Hn.
  change (runs 0 (skip_whitespace_fuel data (S fuel) skip) r). cbn [skip_whitespace_fuel].
  apply (runs_bind 0 0); [unfold runs; simpl; lia|]. intros s r1 [= <- <-] _ _.
  destruct (rest data r) as [|c s] eqn:E; [by apply runs_ret|]. destruct (rest_cons _ _ _ E) as [Hlt _].
  destruct (is_blank c).
  - eapply runs_weaken; [apply runs_advance|lia]. apply (runs_bind 0 0).
    { destruct (is_char c LF); [unfold runs; simpl; lia|apply runs_ret; simpl; lia]. }
    intros [] r2 _ Hp ?. simpl in Hp. eapply runs_safe; [apply (IH (n - 1))|done|]; lia.
  - destruct (skip && is_char c SLASH); [|by apply runs_ret].
    eapply runs_weaken; [apply (runs_bind 1 0); [by eapply runs_safe; [apply (safe_read_comment n)|..]|]|lia].
    intros _ r2 _ ??. eapply runs_safe; [apply (IH (n - 1))|done|]; lia.
Qed.

Lemma safe_skip_whitespace n skip : safe n 0 (skip_whitespace data skip).
Proof.
  apply safe_runs. intros r Hr Hn. eapply runs_safe; [apply (safe_skip_whitespace_fuel _ _ (length data))|..]; lia.
Qed.

(** What [peek_char] returns comes next. *)
Lemma peek_char_next r r' c : peek_char data r = (r', Ok c) -> exists s, rest data r' = c :: s.
Proof.
  unfold peek_char. intros (u & r1 & _ & H)%M_bind_Ok. unfold mbind, M_bind, gets in H.
  destruct (rest data r1) as [|d s] eqn:E; [done|]. injection H as <- <-. eauto.
Qed.
Lemma safe_peek_char n : safe n 0 (peek_char data).
Proof.
  apply safe_seq; [apply safe_skip_whitespace|]. intros _ r Hr Hn. unfold mbind, M_bind, gets.
  destruct (rest data r); simpl; [done|lia].
Qed.
Lemma safe_peek {B} n k (f : ascii -> M Reader B) :
  (forall c r s, rest data r = c :: s -> pos r < length data -> length data - pos r <= n -> runs k (f c) r) ->
  safe n k (mbind f (peek_char data)).
Proof.
  intros Hf r Hr Hn. change (runs k (mbind f (peek_char data)) r). apply (runs_bind 0 k); [by apply (safe_peek_char n)|].
  intros c r1 H ??. apply peek_char_next in H as [s Hs]. destruct (rest_cons _ _ _ Hs). eapply Hf; [exact Hs|lia..].
Qed.

Lemma safe_peek_is n ch : safe n 0 (peek_is data ch).
Proof.
  apply safe_peek. intros c r s Hs Hlt Hn. destruct (is_char c ch); [|apply runs_ret; lia].
  eapply runs_weaken; [apply runs_advance, runs_ret; simpl; lia|lia].
Qed.
Lemma safe_read_char n : safe n 1 (read_char data).
Proof. apply safe_peek. intros c r s Hs Hlt Hn. apply (runs_advance 1 0), runs_ret. simpl. lia. Qed.
Lemma safe_require n ch : safe n 1 (require data ch).
Proof. eapply safe_after; [apply safe_read_char|]. intros. apply safe_expect. Qed.

Lemma span_word_length s : length (span_word s) <= length s.
Proof. induction s as [|c s IH]; simpl; [lia|]. destruct (is_word_char c); simpl; lia. Qed.

Lemma safe_read_word n : safe n 1 (read_word data).
Proof.
  apply safe_seq; [apply safe_skip_whitespace|]. intros _ r Hr Hn. unfold mbind, M_bind, gets.
  pose proof (span_word_length (rest data r)) as Hl. unfold rest in Hl at 2. rewrite length_drop in Hl.
  unfold advance, modify. cbv zeta beta. destruct (span_word (rest data r)) as [|c w]; [done|]. simpl in *. lia.
Qed.
Lemma safe_read_int n : safe n 1 (read_int data).
Proof.
  eapply safe_after; [apply safe_read_word|]. intros tag _.
  destruct (if has_hex_prefix (to_text tag) then _ else _); [apply safe_ret|apply safe_unexpected].
Qed.
End safe.

#[export] Hint Resolve safe_ret safe_gets safe_newline safe_location safe_unexpected safe_expect safe_lift
  safe_read_comment safe_skip_whitespace safe_peek_char safe_peek_is safe_read_char safe_require safe_read_word
  safe_read_int : karapace.

(** Follows a program of the reader with what its calls are known to read. *)
Ltac safe_steps :=
  repeat first
    [ progress intros
    | match goal with |- safe _ _ _ (match ?x with _ => _ end) => destruct x eqn:? end
    | solve [eauto 2 with karapace]
    | solve [eapply safe_weaken; [solve [eauto 2 with karapace]|reflexivity|lia]]
    | eapply safe_after; [solve [eauto 2 with karapace]|] ].

Section tokens.
Context (data : list ascii).

Lemma safe_read_name n : safe data n 1 (read_name data).
Proof.
  apply safe_peek. intros c r s Hs Hlt Hn.
  assert (Hclosed : forall close, runs data 1 (_ ← advance 1; result ← read_word data; ch ← read_char data; _ ← expect (is_char ch close); mret result) r).
  { intros close. apply (runs_weaken _ (1 + 2)); [|lia]. apply runs_advance.
    eapply (runs_safe _ n); [|simpl; lia..]. safe_steps. }
  destruct (is_char c "("); [apply Hclosed|]. destruct (is_char c "["); [apply Hclosed|].
  eapply runs_safe; [apply (safe_read_word _ n)|lia..].
Qed.

Lemma safe_read_data_type_by_name fuel n name : n < fuel -> safe data n 0 (read_data_type_by_name data fuel name).
Proof.
  revert n name. induction fuel as [|fuel IH]; intros n name Hf; [lia|]. cbn [read_data_type_by_name].
  destruct (String.eqb name "map"); [|apply safe_ret].
  assert (Hty : forall n', n' <= fuel -> safe data n' 1 (n ← read_word data; read_data_type_by_name data fuel n)).
  { intros n' Hn'. eapply safe_after; [apply safe_read_word|]. intros. apply IH. lia. }
  eapply safe_after; [apply safe_read_char|]. intros c Hn. eapply safe_seq; [apply safe_expect|]. intros _.
  eapply safe_after; [apply Hty; lia|]. intros key _.
  eapply safe_after; [apply safe_read_char|]. intros c2 Hn2. eapply safe_seq; [apply safe_expect|]. intros _.
  eapply safe_after; [apply Hty; lia|]. intros value _. safe_steps.
Qed.
Lemma safe_data_type_by_name n name : safe data n 0 (data_type_by_name data name).
Proof.
  apply safe_runs. intros r Hr Hn. eapply runs_safe; [apply (safe_read_data_type_by_name _ (length data))|..]; lia.
Qed.
Lemma safe_read_data_type n : safe data n 1 (read_data_type data).
Proof. eapply safe_after; [apply safe_read_word|]. intros. apply safe_data_type_by_name. Qed.

(** ** Quoted strings *)

Lemma span_digits_length digit len s : length (span_digits digit len s) <= length s.
Proof.
  revert s. induction len as [|len IH]; intros [|c s]; simpl; try lia. destruct (digit c); simpl; [|lia].
  specialize (IH s). lia.
Qed.
Lemma runs_numeric_escape radix digit len r : pos r <= length data -> runs data 1 (read_numeric_escape data radix digit len) r.
Proof.
  intros Hr. unfold runs, read_numeric_escape, mbind, M_bind, gets, advance, modify.
  pose proof (span_digits_length digit len (rest data r)) as Hl. unfold rest in Hl at 2. rewrite length_drop in Hl.
  cbv zeta beta. destruct (span_digits digit len (rest data r)) as [|d ds]; [done|]. simpl in Hl.
  unfold chr. destruct (_ <? 256)%Z; simpl; [lia|done].
Qed.

Lemma safe_read_escape n : safe data n 1 (read_escape data).
Proof.
  intros r Hr Hn. change (runs data 1 (read_escape data) r). unfold read_escape.
  apply (runs_bind _ 0 1); [unfold runs; simpl; lia|]. intros s r1 [= <- <-] _ _.
  destruct (rest data r) as [|c s] eqn:E; [done|]. destruct (rest_cons _ _ _ _ E) as [Hlt _].
  assert (Hret : forall d, runs data 0 (mret d : M Reader ascii) (mkReader (pos r + 1) (line r) (line_start r))).
  { intros d. apply runs_ret. simpl. lia. }
  destruct (escape_char c); [by apply (runs_advance _ 1 0)|].
  destruct (is_char c "x" || is_char c "X").
  { eapply runs_weaken; [apply runs_advance, runs_numeric_escape; simpl; lia|lia]. }
  destruct (in_range "0" "7" c); [|by apply (runs_advance _ 1 0)].
  pose proof (runs_numeric_escape 8 octal_digit 3 (mkReader (pos r + 1 - 1) (line r) (line_start r)) ltac:(simpl; lia)) as H.
  unfold runs in *. reader_step.
  destruct (read_numeric_escape data 8 octal_digit 3 _) as [r' [a|e]]; [lia|done].
Qed.

Lemma safe_read_quoted_fuel fuel n q t : n < fuel -> safe data n 0 (read_quoted_fuel data fuel q t).
Proof.
  revert n q t. induction fuel as [|fuel IH]; intros n q t Hf; [lia|]. intros r Hr Hn.
  change (runs data 0 (read_quoted_fuel data (S fuel) q t) r). cbn [read_quoted_fuel].
  apply (runs_bind _ 0 0); [unfold runs; simpl; lia|]. intros s r1 [= <- <-] _ _.
  destruct (rest data r) as [|c s] eqn:E; [done|]. destruct (rest_cons _ _ _ _ E) as [Hlt _].
  apply (runs_weaken _ (1 + 0)); [|lia]. apply runs_advance. eapply (runs_safe _ (n - 1)); [|simpl; lia..].
  destruct (is_char c q).
  - eapply safe_seq; [apply safe_peek_char|]. intros next. destruct (is_quote next); [|apply safe_ret].
    eapply safe_after; [apply safe_read_char|]. intros q' Hq. eapply safe_weaken; [apply (IH (n - 1))|..]; lia.
  - eapply safe_seq; [destruct (is_char c BACKSLASH)|].
    + eapply safe_weaken; [apply (safe_read_escape (n - 1))|lia..].
    + apply safe_ret.
    + intros c'. eapply safe_seq; [destruct (is_char c' LF); [apply safe_newline|apply safe_ret]|]. intros _. apply IH. lia.
Qed.
Lemma safe_read_quoted_string n : safe data n 1 (read_quoted_string data).
Proof.
  eapply safe_after; [apply safe_read_char|]. intros q Hn. destruct (is_quote q); [|apply safe_unexpected].
  apply safe_runs. intros r Hr Hr'. eapply runs_safe; [apply (safe_read_quoted_fuel _ (length data))|..]; lia.
Qed.
Lemma safe_read_string n : safe data n 1 (read_string data).
Proof.
  eapply safe_seq; [apply safe_peek_char|]. intros c. destruct (is_quote c); [apply safe_read_quoted_string|apply safe_read_word].
Qed.

(** ** Documentation *)

Lemma safe_read_documentation_fuel fuel n t : n < fuel -> safe data n 0 (read_documentation_fuel data fuel t).
Proof.
  revert n t. induction fuel as [|fuel IH]; intros n t Hf; [lia|]. cbn [read_documentation_fuel].
  eapply safe_seq; [apply safe_skip_whitespace|]. intros _. eapply safe_seq; [apply safe_gets|]. intros s.
  destruct s as [|c s]; [apply safe_ret|]. destruct (is_char c SLASH); [|apply safe_ret].
  eapply safe_after; [apply safe_read_comment|]. intros comment Hn. apply IH. lia.
Qed.
Lemma safe_read_documentation n : safe data n 0 (read_documentation data).
Proof.
  eapply safe_seq; [|intros; apply safe_ret].
  apply safe_runs. intros r Hr Hr'. eapply runs_safe; [apply (safe_read_documentation_fuel _ (length data))|..]; lia.
Qed.

Lemma safe_try_append n d : safe data n 0 (try_append_trailing_documentation data d).
Proof.
  intros r Hr Hn. change (runs data 0 (try_append_trailing_documentation data d) r). unfold try_append_trailing_documentation.
  apply (runs_bind _ 0 0); [unfold runs; simpl; lia|]. intros s r1 [= <- <-] _ _.
  apply (runs_bind _ 0 0); [by apply runs_find_trailing|]. intros found r1 _ _ Hr1.
  assert (Htail : runs data 0 (s ← gets (rest data);
      match s with
      | c :: s1 =>
          if is_char c SLASH || is_char c STAR then
            let is_star := is_char c STAR in
            _ ← advance 1;
            s2 ← (match s1 with
                  | b :: s2 => if is_char b SPACE then _ ← advance 1; mret s2 else mret s1
                  | [] => mret s1
                  end);
            n ← (if is_star then
                   n ← find_star_end s2 0; s3 ← gets (rest data); _ ← nothing_follows s3; mret n
                 else find_line_end s2 0);
            let body := drop_trailing (take n s2) in
            if Nat.eqb (length body) 1 then mret d
            else if non_empty (strip_text (to_text d))
                 then mret (d +:+ of_text (LF :: body))%string
                 else mret (of_text body)
          else _ ← back 1; unexpected
      | [] => _ ← back 1; unexpected
      end) r1); [|by destruct found; [..|apply runs_ret]].
  apply (runs_bind _ 0 0); [unfold runs; simpl; lia|]. intros s r2 [= <- <-] _ _.
  destruct (rest data r1) as [|c s1] eqn:E; [done|]. destruct (is_char c SLASH || is_char c STAR); [|done].
  destruct (rest_cons _ _ _ _ E) as [Hlt Hnext]. cbv zeta.
  apply (runs_weaken _ (1 + 0)); [|lia]. apply runs_advance. set (r2 := mkReader _ _ _).
  assert (Hr2 : pos r2 <= length data) by (simpl; lia). assert (Hs2 : rest data r2 = s1) by apply Hnext.
  assert (Hbody : forall r3 s3, rest data r3 = s3 -> pos r3 <= length data -> runs data 0 (
      n ← (if is_char c STAR then
             n ← find_star_end s3 0; s3 ← gets (rest data); _ ← nothing_follows s3; mret n
           else find_line_end s3 0);
      if Nat.eqb (length (drop_trailing (take n s3))) 1 then mret d
      else if non_empty (strip_text (to_text d)) then mret (d +:+ of_text (LF :: drop_trailing (take n s3)))%string
      else mret (of_text (drop_trailing (take n s3)))) r3).
  { intros r3 s3 Hs3 Hr3. apply (runs_bind _ 0 0).
    - destruct (is_char c STAR); [|by apply runs_find_line_end].
      apply (runs_bind _ 0 0); [by apply runs_find_star_end|]. intros k r4 _ _ ?.
      apply (runs_bind _ 0 0); [unfold runs; simpl; lia|]. intros s4 r5 [= <- <-] _ _.
      apply (runs_bind _ 0 0); [by apply runs_nothing_follows|]. intros. by apply runs_ret.
    - intros k r4 _ _ ?. destruct (Nat.eqb _ 1); [by apply runs_ret|]. by destruct (non_empty _); apply runs_ret. }
  destruct s1 as [|b s1]; [by apply (Hbody r2 [])|]. destruct (is_char b SPACE); [|by apply Hbody].
  destruct (rest_cons _ _ _ _ Hs2) as [Hlt2 Hnext2].
  change (runs data 0 (_ ← advance 1; n ← (if is_char c STAR then
             n ← find_star_end s1 0; s3 ← gets (rest data); _ ← nothing_follows s3; mret n
           else find_line_end s1 0);
      if Nat.eqb (length (drop_trailing (take n s1))) 1 then mret d
      else if non_empty (strip_text (to_text d)) then mret (d +:+ of_text (LF :: drop_trailing (take n s1)))%string
      else mret (of_text (drop_trailing (take n s1)))) r2).
  apply (runs_weaken _ (1 + 0)); [|lia]. apply runs_advance, Hbody; [apply Hnext2|simpl in *; lia].
Qed.
End tokens.

#[export] Hint Resolve safe_read_name safe_data_type_by_name safe_read_data_type safe_read_quoted_string
  safe_read_string safe_read_documentation safe_try_append : karapace.
