(* ===== verification/ProtoElements.v ===== *)
(** * The elements of a .proto file and their text

    The classes of [core/protobuf] a parsed file consists of ([option_element.py],
    [field_element.py], [one_of_element.py], [group_element.py], [enum_element.py],
    [message_element.py], [reserved_element.py], [extensions_element.py], [extend_element.py],
    [rpc_element.py], [service_element.py], [proto_file_element.py]), with their [to_schema] methods,
    and the normalised text of [schema.py]. Appending to a list of strings that is joined at the end
    is concatenation here. The value of an option agrees with its kind, as the option reader
    makes it; any other combination is a [TypeError]. *)

From stdpp Require Import pretty.
From S2P Require Import Prelude Typing Protobuf ProtoReader.

(** A literal of the source. *)
Definition lit (s : string) : text := to_text s.
Arguments lit s%_string.

(** ** Lines *)

(** [value.split("\n")] *)
Fixpoint split_lines (s : text) : list text :=
  match s with
  | [] => [[]]
  | c :: s' =>
      if is_char c LF then [] :: split_lines s'
      else match split_lines s' with l :: ls => (c :: l) :: ls | [] => [[c]] end
  end.

(** An empty last line is dropped. *)
Definition text_lines (s : text) : list text :=
  let lines := split_lines s in
  if (1 <? length lines)%nat && negb (non_empty (default [] (last lines))) then removelast lines else lines.

Definition append_indented (value : text) : text :=
  concat (map (fun line => [SPACE; SPACE] ++ line ++ [LF]) (text_lines value)).

Definition append_documentation (documentation : string) : text :=
  if String.eqb documentation "" then []
  else concat (map (fun line => lit "// " ++ line ++ [LF]) (text_lines (to_text documentation))).

Definition show_Z (z : Z) : text := to_text (pretty z).

(** ** Options *)

Inductive Kind : Type := STRING | BOOLEAN | NUMBER | ENUM | MAP | LIST | OPTION.

Inductive OptionValue : Type :=
  | VStr (s : string)
  | VList (l : list OptionValue)
  | VDict (d : list (string * OptionValue))
  | VOption (o : OptionElement)
with OptionElement : Type :=
  mkOption (option_name : string) (option_kind : Kind) (option_value : OptionValue) (is_parenthesized : bool).

Definition option_name (o : OptionElement) : string := let '(mkOption n _ _ _) := o in n.
Definition option_kind (o : OptionElement) : Kind := let '(mkOption _ k _ _) := o in k.
Definition option_value (o : OptionElement) : OptionValue := let '(mkOption _ _ v _) := o in v.
Definition option_parenthesized (o : OptionElement) : bool := let '(mkOption _ _ _ p) := o in p.

(** [repr] of a string. *)
Definition hex_char (n : N) : ascii := if (n <? 10)%N then ascii_of_N (48 + n) else ascii_of_N (87 + n).
Definition repr_char (quote c : ascii) : text :=
  let n := N_of_ascii c in
  if is_char c quote || is_char c BACKSLASH then [BACKSLASH; c]
  else if is_char c TAB then lit "\t" else if is_char c LF then lit "\n" else if is_char c CR then lit "\r"
  else if (n <? 32)%N || ((127 <=? n) && (n <=? 160))%N || (n =? 173)%N
  then [BACKSLASH; "x"%char; hex_char (n / 16); hex_char (n mod 16)]
  else [c].
Definition repr_str (s : string) : text :=
  let cs := to_text s in
  let quote := if existsb (is_char APOSTROPHE) cs && negb (existsb (is_char QUOTE) cs) then QUOTE else APOSTROPHE in
  [quote] ++ concat (map (repr_char quote) cs) ++ [quote].

Fixpoint join (sep : text) (l : list text) : text :=
  match l with [] => [] | [x] => x | x :: l' => x ++ sep ++ join sep l' end.

(** The lines of a list in text: indented, separated by commas. *)
Fixpoint indented_items (items : list text) : text :=
  match items with
  | [] => []
  | [x] => append_indented x
  | x :: l' => append_indented (x ++ lit ",") ++ indented_items l'
  end.

(** [append_options] once its members are text. *)
Definition bracketed (items : list text) : text :=
  match items with
  | [x] => lit "[" ++ x ++ lit "]"
  | _ => lit "[" ++ [LF] ++ indented_items items ++ lit "]"
  end.

Definition lower_ascii (c : ascii) : ascii :=
  if in_range "A" "Z" c then ascii_of_N (N_of_ascii c + 32) else c.

Definition formatted_name (name : string) (parenthesized : bool) : text :=
  if parenthesized then lit "(" ++ to_text name ++ lit ")" else to_text name.

(** [OptionElement.to_schema], [repr] and [format_option_map_value], which is also what
    [format_option_map] and [format_list_map_value] apply to members. *)
Fixpoint option_to_schema (o : OptionElement) {struct o} : result text :=
  let '(mkOption name kind value parenthesized) := o in
  let head := formatted_name name parenthesized in
  match kind, value with
  | STRING, VStr s => Ok (head ++ lit " = " ++ [QUOTE] ++ to_text s ++ [QUOTE])
  | BOOLEAN, VStr s => Ok (head ++ lit " = " ++ map lower_ascii (to_text s))
  | (NUMBER | ENUM), VStr s => Ok (head ++ lit " = " ++ to_text s)
  | OPTION, VOption o' => s ← option_to_schema o'; Ok (head ++ lit "." ++ s)
  | MAP, VDict _ => s ← format_option_map_value value; Ok (head ++ lit " = " ++ s)
  | LIST, VList l =>
      items ← (fix go (l : list OptionValue) : result (list text) :=
                 match l with
                 | [] => Ok []
                 | v :: l' =>
                     s ← (match v with
                          | VStr s => Ok (to_text s)
                          | VOption o' => option_to_schema o'
                          | _ => Raise AttributeError
                          end);
                     ss ← go l'; Ok (s :: ss)
                 end) l;
      Ok (head ++ lit " = " ++ bracketed items)
  | _, _ => Raise TypeError
  end
with format_option_map_value (v : OptionValue) {struct v} : result text :=
  match v with
  | VStr s => Ok ([QUOTE] ++ to_text s ++ [QUOTE])
  | VDict d =>
      items ← (fix go (d : list (string * OptionValue)) : result (list text) :=
                 match d with
                 | [] => Ok []
                 | (key, v) :: d' =>
                     s ← format_option_map_value v; ss ← go d'; Ok ((to_text key ++ lit ": " ++ s) :: ss)
                 end) d;
      Ok (lit "{" ++ [LF] ++ indented_items items ++ lit "}")
  | VList l =>
      items ← (fix go (l : list OptionValue) : result (list text) :=
                 match l with
                 | [] => Ok []
                 | v :: l' => s ← format_option_map_value v; ss ← go l'; Ok (s :: ss)
                 end) l;
      Ok (lit "[" ++ [LF] ++ indented_items items ++ lit "]")
  | VOption o => option_to_schema o
  end.

Definition to_schema_declaration (o : OptionElement) : result text :=
  s ← option_to_schema o; Ok (lit "option " ++ s ++ lit ";" ++ [LF]).

Definition append_options (options : list OptionElement) : result text :=
  items ← map_res option_to_schema options; Ok (bracketed items).

(** [str] of the value of an option. *)
Fixpoint py_repr (v : OptionValue) : result text :=
  match v with
  | VStr s => Ok (repr_str s)
  | VList l =>
      items ← (fix go (l : list OptionValue) : result (list text) :=
                 match l with
                 | [] => Ok []
                 | v :: l' => s ← py_repr v; ss ← go l'; Ok (s :: ss)
                 end) l;
      Ok (lit "[" ++ join (lit ", ") items ++ lit "]")
  | VDict d =>
      items ← (fix go (d : list (string * OptionValue)) : result (list text) :=
                 match d with
                 | [] => Ok []
                 | (key, v) :: d' => s ← py_repr v; ss ← go d'; Ok ((repr_str key ++ lit ": " ++ s) :: ss)
                 end) d;
      Ok (lit "{" ++ join (lit ", ") items ++ lit "}")
  | VOption o => option_to_schema o
  end.
Definition py_str (v : OptionValue) : result string :=
  match v with VStr s => Ok s | _ => s ← py_repr v; Ok (of_text s) end.

(** ** Elements *)

Record FieldElement : Type := mkField {
  f_location : Location;
  f_label : option Label;
  element_type : string;
  f_name : string;
  default_value : option string;
  json_name : option string;
  f_tag : Z;
  f_documentation : string;
  f_options : list OptionElement;
}.

Record GroupElement : Type := mkGroup {
  g_label : option Label;
  g_location : Location;
  g_name : string;
  g_tag : Z;
  g_documentation : string;
  g_fields : list FieldElement;
}.

Record OneOfElement : Type := mkOneOf {
  o_name : string;
  o_documentation : string;
  o_fields : list FieldElement;
  o_groups : list GroupElement;
  o_options : list OptionElement;
}.

Record EnumConstantElement : Type := mkConstant {
  c_location : Location;
  c_name : string;
  c_tag : Z;
  c_documentation : string;
  c_options : list OptionElement;
}.

(** A member of a [reserved] or [extensions] list; a reserved one may be a name. *)
Inductive RangeValue : Type :=
  | Name (s : string)
  | Tag (z : Z)
  | KotlinRange (minimum maximum : Z).

Record ReservedElement : Type := mkReserved {
  r_location : Location; r_documentation : string; r_values : list RangeValue }.
Record ExtensionsElement : Type := mkExtensions {
  x_location : Location; x_documentation : string; x_values : list RangeValue }.
Record ExtendElement : Type := mkExtend {
  e_location : Location; e_name : string; e_documentation : string; e_fields : list FieldElement }.

Record RpcElement : Type := mkRpc {
  rpc_location : Location;
  rpc_name : string;
  rpc_documentation : string;
  request_type : string;
  response_type : string;
  request_streaming : bool;
  response_streaming : bool;
  rpc_options : list OptionElement;
}.
Record ServiceElement : Type := mkService {
  s_location : Location; s_name : string; s_documentation : string;
  s_rpcs : list RpcElement; s_options : list OptionElement }.

Inductive TypeElement : Type :=
  | MessageElement (location : Location) (name documentation : string) (nested_types : list TypeElement)
      (options : list OptionElement) (reserveds : list ReservedElement) (fields : list FieldElement)
      (one_ofs : list OneOfElement) (extensions : list ExtensionsElement) (groups : list GroupElement)
  | EnumElement (location : Location) (name documentation : string) (options : list OptionElement)
      (constants : list EnumConstantElement).

Definition element_name (e : TypeElement) : string :=
  match e with MessageElement _ n _ _ _ _ _ _ _ _ | EnumElement _ n _ _ _ => n end.
Definition is_message_element (e : TypeElement) : bool :=
  match e with MessageElement _ _ _ _ _ _ _ _ _ _ => true | EnumElement _ _ _ _ _ => false end.

Inductive Syntax : Type := PROTO_2 | PROTO_3.
Definition syntax_str (s : Syntax) : string := match s with PROTO_2 => "proto2" | PROTO_3 => "proto3" end.

Record ProtoFileElement : Type := mkFile {
  file_package : option string;
  file_syntax : option Syntax;
  file_imports : list string;
  file_public_imports : list string;
  file_types : list TypeElement;
  file_services : list ServiceElement;
  file_extends : list ExtendElement;
  file_options : list OptionElement;
}.

(** ** to_schema *)

(** [ProtoType.to_kind] *)
Definition to_kind (p : ProtoType) : Kind :=
  let n := simple_name p in
  if String.eqb n "bool" then BOOLEAN
  else if String.eqb n "string" then STRING
  else if existsb (String.eqb n) ["bytes"; "double"; "float"; "fixed32"; "fixed64"; "int32"; "int64"; "sfixed32";
    "sfixed64"; "sint32"; "sint64"; "uint32"; "uint64"]%string then NUMBER
  else ENUM.

Definition truthy_str (s : option string) : option string :=
  match s with Some s => if String.eqb s "" then None else Some s | None => None end.

Definition options_with_special_values (f : FieldElement) : result (list OptionElement) :=
  default_option ← (match truthy_str (default_value f) with
                    | Some d => p ← get2 (element_type f); Ok [mkOption "default" (to_kind p) (VStr d) false]
                    | None => Ok []
                    end);
  Ok (f_options f ++ default_option ++
      match truthy_str (json_name f) with
      | Some j => [mkOption "json_name" STRING (VStr j) false]
      | None => []
      end).

Definition label_text (l : option Label) : text :=
  match l with
  | Some OPTIONAL => lit "optional " | Some REQUIRED => lit "required "
  | Some REPEATED => lit "repeated " | Some ONE_OF => lit "one_of " | None => []
  end.

Definition optional_options (options : list OptionElement) : result text :=
  match options with [] => Ok [] | _ => s ← append_options options; Ok (lit " " ++ s) end.

Definition field_to_schema (f : FieldElement) : result text :=
  options ← options_with_special_values f;
  s ← optional_options options;
  Ok (append_documentation (f_documentation f) ++ label_text (f_label f) ++
      to_text (element_type f) ++ lit " " ++ to_text (f_name f) ++ lit " = " ++ show_Z (f_tag f) ++ s ++ lit ";" ++ [LF]).

(** [append_indented] of the text of every member. *)
Definition indented {A} (show : A -> result text) (l : list A) : result text :=
  items ← map_res show l; Ok (concat (map append_indented items)).

(** A section of a body: nothing for no members, else a line feed first. *)
Definition section {A} (show : A -> result text) (l : list A) : result text :=
  match l with [] => Ok [] | _ => s ← indented show l; Ok (LF :: s) end.
(** A line feed before every member. *)
Definition spaced {A} (show : A -> result text) (l : list A) : result text :=
  items ← map_res show l; Ok (concat (map (fun i => LF :: append_indented i) items)).

Definition group_to_schema (g : GroupElement) : result text :=
  fields ← section field_to_schema (g_fields g);
  Ok (append_documentation (g_documentation g) ++ label_text (g_label g) ++ lit "group " ++ to_text (g_name g) ++
      lit " = " ++ show_Z (g_tag g) ++ lit " {" ++ fields ++ lit "}" ++ [LF]).

Definition one_of_to_schema (o : OneOfElement) : result text :=
  options ← section to_schema_declaration (o_options o);
  fields ← section field_to_schema (o_fields o);
  groups ← section group_to_schema (o_groups o);
  Ok (append_documentation (o_documentation o) ++ lit "oneof " ++ to_text (o_name o) ++ lit " {" ++
      options ++ fields ++ groups ++ lit "}" ++ [LF]).

Definition constant_to_schema (c : EnumConstantElement) : result text :=
  options ← optional_options (c_options c);
  Ok (append_documentation (c_documentation c) ++ to_text (c_name c) ++ lit " = " ++ show_Z (c_tag c) ++
      options ++ lit ";" ++ [LF]).

Definition enum_to_schema (name documentation : string) (options : list OptionElement)
  (constants : list EnumConstantElement) : result text :=
  opts ← indented to_schema_declaration options;
  consts ← indented constant_to_schema constants;
  Ok (append_documentation documentation ++ lit "enum " ++ to_text name ++ lit " {" ++
      (match options, constants with [], [] => [] | _, _ => [LF] end) ++ opts ++ consts ++ lit "}" ++ [LF]).

(** The greatest tag, printed as [max] in extensions. *)
Definition MAX_TAG_VALUE : Z := (Z.land (Z.shiftl 1 29) 0xFFFFFFFFFFFFFFFF - 1)%Z.

Definition reserved_value (v : RangeValue) : text :=
  match v with
  | Name s => [QUOTE] ++ to_text s ++ [QUOTE]
  | Tag z => show_Z z
  | KotlinRange a b => show_Z a ++ lit " to " ++ show_Z b
  end.
Definition reserved_to_schema (r : ReservedElement) : result text :=
  Ok (append_documentation (r_documentation r) ++ lit "reserved " ++
      join (lit ", ") (map reserved_value (r_values r)) ++ lit ";" ++ [LF]).

Definition extensions_value (v : RangeValue) : result text :=
  match v with
  | Name _ => Raise ValueError
  | Tag z => Ok (show_Z z)
  | KotlinRange a b => Ok (show_Z a ++ lit " to " ++ if (b <? MAX_TAG_VALUE)%Z then show_Z b else lit "max")
  end.
Definition extensions_to_schema (x : ExtensionsElement) : result text :=
  values ← map_res extensions_value (x_values x);
  Ok (append_documentation (x_documentation x) ++ lit "extensions " ++ join (lit ", ") values ++ lit ";" ++ [LF]).

Definition extend_to_schema (e : ExtendElement) : result text :=
  fields ← section field_to_schema (e_fields e);
  Ok (append_documentation (e_documentation e) ++ lit "extend " ++ to_text (e_name e) ++ lit " {" ++ fields ++ lit "}" ++ [LF]).

Definition rpc_to_schema (r : RpcElement) : result text :=
  options ← indented to_schema_declaration (rpc_options r);
  Ok (append_documentation (rpc_documentation r) ++ lit "rpc " ++ to_text (rpc_name r) ++ lit " (" ++
      (if request_streaming r then lit "stream " else []) ++ to_text (request_type r) ++ lit ") returns (" ++
      (if response_streaming r then lit "stream " else []) ++ to_text (response_type r) ++ lit ")" ++
      (match rpc_options r with [] => [] | _ => lit " {" ++ [LF] ++ options ++ lit "}" end) ++ lit ";" ++ [LF]).

Definition service_to_schema (s : ServiceElement) : result text :=
  options ← section to_schema_declaration (s_options s);
  rpcs ← section rpc_to_schema (s_rpcs s);
  Ok (append_documentation (s_documentation s) ++ lit "service " ++ to_text (s_name s) ++ lit " {" ++
      options ++ rpcs ++ lit "}" ++ [LF]).

(** [TypeElement.to_schema] *)
Fixpoint type_to_schema (e : TypeElement) : result text :=
  match e with
  | MessageElement _ name documentation nested_types options reserveds fields one_ofs extensions groups =>
      reserveds ← section reserved_to_schema reserveds;
      options ← section to_schema_declaration options;
      fields ← spaced field_to_schema fields;
      one_ofs ← spaced one_of_to_schema one_ofs;
      groups ← spaced group_to_schema groups;
      extensions ← section extensions_to_schema extensions;
      nested ← section type_to_schema nested_types;
      Ok (append_documentation documentation ++ lit "message " ++ to_text name ++ lit " {" ++
          reserveds ++ options ++ fields ++ one_ofs ++ groups ++ extensions ++ nested ++ lit "}" ++ [LF])
  | EnumElement _ name documentation options constants => enum_to_schema name documentation options constants
  end.

(** [ProtoFileElement.to_schema], with the path of its location. *)
Definition imports_text (imports public_imports : list string) : text :=
  concat (map (fun f => lit "import " ++ [QUOTE] ++ to_text f ++ [QUOTE] ++ lit ";" ++ [LF]) imports) ++
  concat (map (fun f => lit "import public " ++ [QUOTE] ++ to_text f ++ [QUOTE] ++ lit ";" ++ [LF]) public_imports).
Definition syntax_text (s : Syntax) : text :=
  lit "syntax = " ++ [QUOTE] ++ to_text (syntax_str s) ++ [QUOTE] ++ lit ";" ++ [LF].
Definition has_imports (f : ProtoFileElement) : bool :=
  match file_imports f, file_public_imports f with [], [] => false | _, _ => true end.

Definition file_to_schema (path : string) (f : ProtoFileElement) : result text :=
  options ← map_res to_schema_declaration (file_options f);
  types ← map_res type_to_schema (file_types f);
  extends ← map_res extend_to_schema (file_extends f);
  services ← map_res service_to_schema (file_services f);
  let each items := concat (map (fun i => LF :: i) items) in
  Ok (lit "// Proto schema formatted by Wire, do not edit." ++ [LF] ++ lit "// Source: " ++ to_text path ++ [LF] ++
      (match file_syntax f with Some s => LF :: syntax_text s | None => [] end) ++
      (match truthy_str (file_package f) with Some p => LF :: lit "package " ++ to_text p ++ lit ";" ++ [LF] | None => [] end) ++
      (if has_imports f then LF :: imports_text (file_imports f) (file_public_imports f) else []) ++
      (match file_options f with [] => [] | _ => LF :: concat options end) ++
      each types ++ each extends ++ each services).

(** ** The normalised text of schema.py *)

Definition add_slashes_char (c : ascii) : text :=
  if is_char c "007" then lit "\a" else if is_char c "008" then lit "\b"
  else if is_char c "012" then lit "\f" else if is_char c LF then lit "\n"
  else if is_char c CR then lit "\r" else if is_char c TAB then lit "\t"
  else if is_char c "011" then lit "\v" else if is_char c APOSTROPHE then [BACKSLASH; APOSTROPHE]
  else if is_char c QUOTE then [BACKSLASH; QUOTE] else if is_char c BACKSLASH then [BACKSLASH; BACKSLASH]
  else [c].
Definition add_slashes (s : text) : text := concat (map add_slashes_char s).

Definition option_element_string (o : OptionElement) : result text :=
  s ← (match option_kind o with
       | STRING =>
           v ← py_str (option_value o);
           Ok (formatted_name (option_name o) (option_parenthesized o) ++ lit " = " ++ [QUOTE] ++
               add_slashes (to_text v) ++ [QUOTE])
       | _ => option_to_schema o
       end);
  Ok (lit "option " ++ s ++ lit ";" ++ [LF]).

(** [message_element_string] and [enum_element_string]: nested messages come before nested enums. *)
Fixpoint type_string (e : TypeElement) : result text :=
  match e with
  | MessageElement _ name documentation nested_types options reserveds fields one_ofs extensions groups =>
      reserveds ← section reserved_to_schema reserveds;
      options ← section option_element_string options;
      fields ← section field_to_schema fields;
      one_ofs ← section one_of_to_schema one_ofs;
      groups ← section group_to_schema groups;
      extensions ← section extensions_to_schema extensions;
      nested ← (fix go (l : list TypeElement) : result (text * text) :=
                  match l with
                  | [] => Ok ([], [])
                  | e :: l' =>
                      s ← type_string e; rest ← go l';
                      let s := append_indented s in
                      Ok (if is_message_element e then (s ++ rest.1, rest.2) else (rest.1, s ++ rest.2))
                  end) nested_types;
      Ok (append_documentation documentation ++ lit "message " ++ to_text name ++ lit " {" ++
          reserveds ++ options ++ fields ++ one_ofs ++ groups ++ extensions ++
          (match nested_types with [] => [] | _ => LF :: nested.1 ++ nested.2 end) ++ lit "}" ++ [LF])
  | EnumElement _ name documentation options constants => enum_to_schema name documentation options constants
  end.

(** [ProtobufSchema.to_schema] *)
Definition schema_to_schema (f : ProtoFileElement) : result text :=
  options ← map_res option_element_string (file_options f);
  messages ← map_res type_string (List.filter is_message_element (file_types f));
  enums ← map_res type_string (List.filter (fun e => negb (is_message_element e)) (file_types f));
  extends ← map_res extend_to_schema (file_extends f);
  services ← map_res service_to_schema (file_services f);
  let part {A} (l : list A) (s : text) := match l with [] => [] | _ => LF :: s end in
  Ok ((match file_syntax f with Some s => syntax_text s | None => [] end) ++
      (match truthy_str (file_package f) with Some p => lit "package " ++ to_text p ++ lit ";" ++ [LF] | None => [] end) ++
      (if has_imports f then LF :: imports_text (file_imports f) (file_public_imports f) else []) ++
      part (file_options f) (concat options) ++ part (file_types f) (concat messages ++ concat enums) ++
      part (file_extends f) (concat extends) ++ part (file_services f) (concat services)).
