(* ===== verification/ProtoParser.v ===== *)
(** * Parsing .proto files

    [core/protobuf/option_reader.py] and [core/protobuf/proto_parser.py]: [OptionReader] on top of the
    reader, and [ProtoParser] with the lists and names it collects. Loops that end at a closing
    bracket and the recursion through nested declarations take fuel, and end in [RecursionError]
    when it runs out; [parse] passes enough for every text (see [ProtoParserSpec]). *)

From S2P Require Import Prelude Typing Protobuf ProtoReader ProtoElements.

Section Parser.
Context (data : text).

(** ** OptionReader *)

Definition falsy (v : OptionValue) : bool :=
  match v with
  | VStr s => String.eqb s "" | VList l => match l with [] => true | _ => false end
  | VDict d => match d with [] => true | _ => false end | VOption _ => false
  end.

(** [add_to_list] *)
Definition add_to_list (l : list OptionValue) (value : OptionValue) : list OptionValue :=
  match value with VList vs => l ++ vs | v => l ++ [v] end.

(** What [read_map] does with an option it has read. *)
Definition map_add (result : dict string OptionValue) (option : OptionElement)
  : Prelude.result (dict string OptionValue) :=
  let name := option_name option in
  match option_value option with
  | VOption o =>
      match dget name result with
      | None => Ok (dset name (VDict [(option_name o, option_value o)]) result)
      | Some nested =>
          if falsy nested then Ok (dset name (VDict [(option_name o, option_value o)]) result)
          else match nested with
               | VDict d => Ok (dset name (VDict (dset (option_name o) (option_value o) d)) result)
               | _ => Raise TypeError
               end
      end
  | value =>
      match dget name result with
      | None => Ok (dset name value result)
      | Some previous =>
          if falsy previous then Ok (dset name value result)
          else match previous with
               | VList l => Ok (dset name (VList (add_to_list l value)) result)
               | _ => Ok (dset name (VList (add_to_list [previous] value)) result)
               end
      end
  end.

(** [s.split(".")] *)
Fixpoint split_dots (s : text) : list text :=
  match s with
  | [] => [[]]
  | c :: s' =>
      if is_char c "." then [] :: split_dots s'
      else match split_dots s' with l :: ls => (c :: l) :: ls | [] => [[c]] end
  end.

(** The nested options that sub-names stand for. *)
Definition nest_option (sub_names : list string) (kv : Kind * OptionValue) : Kind * OptionValue :=
  fold_left (fun kv sub_name => (OPTION, VOption (mkOption sub_name kv.1 kv.2 false))) (rev sub_names) kv.

(** The bounds are those of [range(ord("0"), ord("9"))], which leaves the digit 9 out. *)
Definition starts_number (c : ascii) : bool := in_range "0" "8" c || is_char c "-".

(** The nested field name after a dot, as in [(foo.bar).baz = 12], and the next character. *)
Definition read_sub_names (c : ascii) : M Reader (list string * ascii) :=
  if is_char c "." then
    n ← read_name data; c ← read_char data; mret (map of_text (split_dots (to_text n)), c)
  else mret ([], c).

(** The head of an option: its name, whether it is parenthesized, and its sub-names. *)
Definition read_option_head (key_value_separator : ascii) : M Reader (string * bool * list string) :=
  c ← peek_char data;
  let is_extension := is_char c "[" in
  let is_parenthesized := is_char c "(" in
  name ← read_name data;
  let name := if is_extension then ("[" +:+ name +:+ "]")%string else name in
  c ← read_char data;
  read ← read_sub_names c;
  _ ← (if is_char key_value_separator ":" && is_char read.2 "{" then push_back data "{"
       else expect (is_char read.2 key_value_separator));
  mret (name, is_parenthesized, read.1).

Fixpoint read_option (fuel : nat) (key_value_separator : ascii) {struct fuel} : M Reader OptionElement :=
  match fuel with
  | O => raise RecursionError
  | S fuel =>
      head ← read_option_head key_value_separator;
      kv ← read_kind_and_value fuel;
      let kv := nest_option head.2 kv in
      mret (mkOption head.1.1 kv.1 kv.2 head.1.2)
  end
with read_kind_and_value (fuel : nat) {struct fuel} : M Reader (Kind * OptionValue) :=
  match fuel with
  | O => raise RecursionError
  | S fuel =>
      peeked ← peek_char data;
      if is_char peeked "{" then
        open ← read_char data;
        if is_char open "{" then d ← read_map fuel []; mret (MAP, VDict d) else raise AssertionError
      else if is_char peeked "[" then
        _ ← require data "["; l ← read_list fuel []; mret (LIST, VList l)
      else if is_quote peeked then s ← read_string data; mret (STRING, VStr s)
      else if starts_number peeked then w ← read_word data; mret (NUMBER, VStr w)
      else
        word ← read_word data;
        if String.eqb word "true" then mret (BOOLEAN, VStr "true")
        else if String.eqb word "false" then mret (BOOLEAN, VStr "false")
        else mret (ENUM, VStr word)
  end
with read_map (fuel : nat) (result : dict string OptionValue) {struct fuel} : M Reader (dict string OptionValue) :=
  match fuel with
  | O => raise RecursionError
  | S fuel =>
      close ← peek_is data "}";
      if close : bool then mret result
      else
        option ← read_option fuel ":";
        result ← lift (map_add result option);
        comma ← peek_is data ",";
        _ ← (if comma : bool then mret true else peek_is data ";");
        read_map fuel result
  end
with read_list (fuel : nat) (result : list OptionValue) {struct fuel} : M Reader (list OptionValue) :=
  match fuel with
  | O => raise RecursionError
  | S fuel =>
      close ← peek_is data "]";
      if close : bool then mret result
      else
        kv ← read_kind_and_value fuel;
        let result := result ++ [kv.2] in
        comma ← peek_is data ",";
        if comma : bool then read_list fuel result
        else c ← peek_char data; _ ← expect (is_char c "]"); read_list fuel result
  end.

(** The fuel of options: every round reads a character, in at most four calls. *)
Definition option_fuel : nat := 4 * length data + 8.

Fixpoint read_options_loop (fuel : nat) (result : list OptionElement) : M Reader (list OptionElement) :=
  match fuel with
  | O => raise RecursionError
  | S fuel =>
      o ← read_option option_fuel "=";
      let result := result ++ [o] in
      close ← peek_is data "]";
      if close : bool then mret result
      else comma ← peek_is data ","; _ ← expect comma; read_options_loop fuel result
  end.
Definition read_options : M Reader (list OptionElement) :=
  open ← peek_is data "[";
  if open : bool then read_options_loop (S (length data)) [] else mret [].

(** ** ProtoParser *)

Inductive Context : Type := FILE | MESSAGE | ENUM_CONTEXT | RPC | EXTEND | SERVICE.

Definition permits_package (c : Context) : bool := match c with FILE => true | _ => false end.
Definition permits_syntax := permits_package.
Definition permits_import := permits_package.
Definition permits_extensions (c : Context) : bool := match c with MESSAGE => true | _ => false end.
Definition permits_rpc (c : Context) : bool := match c with SERVICE => true | _ => false end.
Definition permits_one_of := permits_extensions.
Definition permits_message (c : Context) : bool := match c with FILE | MESSAGE => true | _ => false end.
Definition permits_service := permits_package.
Definition permits_enum := permits_message.
Definition permits_extend := permits_message.

Record Parser : Type := mkParser {
  reader : Reader;
  imports : list string;
  public_imports : list string;
  parsed_types : list TypeElement;
  services : list ServiceElement;
  extends_list : list ExtendElement;
  parsed_options : list OptionElement;
  declaration_count : nat;
  syntax : option Syntax;
  package_name : option string;
  prefix : string;
}.
Definition new_parser : Parser := mkParser new_reader [] [] [] [] [] [] 0 None None "".

Definition set_reader (r : Reader) (p : Parser) : Parser :=
  mkParser r (imports p) (public_imports p) (parsed_types p) (services p) (extends_list p) (parsed_options p)
    (declaration_count p) (syntax p) (package_name p) (prefix p).
Definition add_import (public : bool) (f : string) (p : Parser) : Parser :=
  mkParser (reader p) (if public then imports p else imports p ++ [f])
    (if public then public_imports p ++ [f] else public_imports p) (parsed_types p) (services p) (extends_list p)
    (parsed_options p) (declaration_count p) (syntax p) (package_name p) (prefix p).
Definition add_type (e : TypeElement) (p : Parser) : Parser :=
  mkParser (reader p) (imports p) (public_imports p) (parsed_types p ++ [e]) (services p) (extends_list p)
    (parsed_options p) (declaration_count p) (syntax p) (package_name p) (prefix p).
Definition add_service (s : ServiceElement) (p : Parser) : Parser :=
  mkParser (reader p) (imports p) (public_imports p) (parsed_types p) (services p ++ [s]) (extends_list p)
    (parsed_options p) (declaration_count p) (syntax p) (package_name p) (prefix p).
Definition add_extend (e : ExtendElement) (p : Parser) : Parser :=
  mkParser (reader p) (imports p) (public_imports p) (parsed_types p) (services p) (extends_list p ++ [e])
    (parsed_options p) (declaration_count p) (syntax p) (package_name p) (prefix p).
Definition add_option (o : OptionElement) (p : Parser) : Parser :=
  mkParser (reader p) (imports p) (public_imports p) (parsed_types p) (services p) (extends_list p)
    (parsed_options p ++ [o]) (declaration_count p) (syntax p) (package_name p) (prefix p).
Definition count_declaration (p : Parser) : Parser :=
  mkParser (reader p) (imports p) (public_imports p) (parsed_types p) (services p) (extends_list p)
    (parsed_options p) (S (declaration_count p)) (syntax p) (package_name p) (prefix p).
Definition set_syntax (s : Syntax) (p : Parser) : Parser :=
  mkParser (reader p) (imports p) (public_imports p) (parsed_types p) (services p) (extends_list p)
    (parsed_options p) (declaration_count p) (Some s) (package_name p) (prefix p).
Definition set_package (n : string) (p : Parser) : Parser :=
  mkParser (reader p) (imports p) (public_imports p) (parsed_types p) (services p) (extends_list p)
    (parsed_options p) (declaration_count p) (syntax p) (Some n) (n +:+ ".")%string.
Definition set_prefix (s : string) (p : Parser) : Parser :=
  mkParser (reader p) (imports p) (public_imports p) (parsed_types p) (services p) (extends_list p)
    (parsed_options p) (declaration_count p) (syntax p) (package_name p) s.

Abbreviation P := (M Parser).

(** A call of [self.reader]. *)
Definition rd {A} (m : M Reader A) : P A := fun p => let '(r, x) := m (reader p) in (set_reader r p, x).

Inductive Declared : Type :=
  | DNone
  | DOption (o : OptionElement)
  | DReserved (r : ReservedElement)
  | DRpc (r : RpcElement)
  | DType (e : TypeElement)
  | DConstant (c : EnumConstantElement)
  | DService (s : ServiceElement)
  | DExtend (e : ExtendElement)
  | DExtensions (x : ExtensionsElement)
  | DOneOf (o : OneOfElement)
  | DGroup (g : GroupElement)
  | DField (f : FieldElement).

(** *** Fields *)

(** [options.remove(element)], by identity or equal text. *)
Fixpoint remove_option (i : nat) (element : OptionElement) (options : list (nat * OptionElement))
  : result (list (nat * OptionElement)) :=
  match options with
  | [] => Raise ValueError
  | (j, o) :: options' =>
      if Nat.eqb i j then Ok options'
      else
        a ← option_to_schema o;
        b ← option_to_schema element;
        if decide (a = b) then Ok options'
        else options'' ← remove_option i element options'; Ok ((j, o) :: options'')
  end.

(** [strip_value]: the loop over a copy of the options. *)
Fixpoint strip_value_loop (name : string) (copy options : list (nat * OptionElement)) (found : option string)
  : result (option string * list (nat * OptionElement)) :=
  match copy with
  | [] => Ok (found, options)
  | (i, element) :: copy' =>
      if String.eqb (option_name element) name then
        options' ← remove_option i element options;
        value ← py_str (option_value element);
        strip_value_loop name copy' options' (Some value)
      else strip_value_loop name copy' options found
  end.
Definition number_from {A} (n : nat) (l : list A) : list (nat * A) := combine (seq n (length l)) l.
Definition strip_value (name : string) (options : list OptionElement)
  : result (option string * list OptionElement) :=
  r ← strip_value_loop name (number_from 0 options) (number_from 0 options) None;
  Ok (r.1, map snd r.2).

Definition read_field_with_label (location : Location) (documentation : string) (label : option Label)
  (atype : string) : P FieldElement :=
  name ← rd (read_name data);
  _ ← rd (require data "=");
  tag ← rd (read_int data);
  options ← rd read_options;
  default_value ← lift (strip_value "default" options);
  json_name ← lift (strip_value "json_name" default_value.2);
  _ ← rd (require data ";");
  documentation ← rd (try_append_trailing_documentation data documentation);
  mret (ProtoElements.mkField location label atype name default_value.1 json_name.1 tag documentation json_name.2).

(** The label that [word] is, if it is one, and the type of the field. *)
Definition read_label_and_type (word : string) : P (option Label * string) :=
  syntax ← gets syntax;
  if String.eqb word "required" then
    _ ← rd (expect (match syntax with Some PROTO_3 => false | _ => true end));
    atype ← rd (read_data_type data); mret (Some REQUIRED, atype)
  else if String.eqb word "optional" then
    atype ← rd (read_data_type data); mret (Some OPTIONAL, atype)
  else if String.eqb word "repeated" then
    atype ← rd (read_data_type data); mret (Some REPEATED, atype)
  else
    ok ← (match syntax with
          | Some PROTO_3 => mret true
          | _ => if String.eqb word "map" then c ← rd (peek_char data); mret (is_char c "<") else mret false
          end);
    _ ← rd (expect ok);
    atype ← rd (data_type_by_name data word); mret (None, atype).

(** [read_field] and [read_group] *)
Fixpoint read_field (fuel : nat) (documentation : string) (location : Location) (word : string) {struct fuel}
  : P Declared :=
  match fuel with
  | O => raise RecursionError
  | S fuel =>
      typed ← read_label_and_type word;
      let '(label, atype) := typed in
      _ ← rd (expect (negb (String.prefix "map<" atype) || match label with None => true | Some _ => false end));
      if String.eqb atype "group" then g ← read_group fuel location documentation label; mret (DGroup g)
      else f ← read_field_with_label location documentation label atype; mret (DField f)
  end
with read_group (fuel : nat) (location : Location) (documentation : string) (label : option Label) {struct fuel}
  : P GroupElement :=
  match fuel with
  | O => raise RecursionError
  | S fuel =>
      name ← rd (read_word data);
      _ ← rd (require data "=");
      tag ← rd (read_int data);
      _ ← rd (require data "{");
      fields ← read_group_fields fuel [];
      mret (mkGroup label location name tag documentation fields)
  end
with read_group_fields (fuel : nat) (fields : list FieldElement) {struct fuel} : P (list FieldElement) :=
  match fuel with
  | O => raise RecursionError
  | S fuel =>
      nested_documentation ← rd (read_documentation data);
      close ← rd (peek_is data "}");
      if close : bool then mret fields
      else
        field_location ← rd location;
        field_label ← rd (read_word data);
        field ← read_field fuel nested_documentation field_location field_label;
        match field with
        | DField f => read_group_fields fuel (fields ++ [f])
        | _ => rd unexpected
        end
  end.

(** The fuel of fields: every round reads a character, in at most three calls. *)
Definition field_fuel : nat := 3 * length data + 6.

(** *** Bodies without nested declarations *)

Fixpoint read_one_of_body (fuel : nat) (fields : list FieldElement) (groups : list GroupElement)
  (options : list OptionElement) : P (list FieldElement * list GroupElement * list OptionElement) :=
  match fuel with
  | O => raise RecursionError
  | S fuel =>
      nested_documentation ← rd (read_documentation data);
      close ← rd (peek_is data "}");
      if close : bool then mret (fields, groups, options)
      else
        loc ← rd location;
        atype ← rd (read_data_type data);
        if String.eqb atype "group" then
          g ← read_group field_fuel loc nested_documentation None;
          read_one_of_body fuel fields (groups ++ [g]) options
        else if String.eqb atype "option" then
          o ← rd (read_option option_fuel "="); _ ← rd (require data ";");
          read_one_of_body fuel fields groups (options ++ [o])
        else
          f ← read_field_with_label loc nested_documentation None atype;
          read_one_of_body fuel (fields ++ [f]) groups options
  end.
Definition read_one_of (documentation : string) : P OneOfElement :=
  name ← rd (read_name data);
  _ ← rd (require data "{");
  body ← read_one_of_body (S (length data)) [] [] [];
  mret (ProtoElements.mkOneOf name documentation body.1.1 body.1.2 body.2).

(** Whether a list of values goes on after this one. *)
Definition list_goes_on : M Reader bool :=
  ch ← read_char data;
  if is_char ch ";" then mret false else if is_char ch "," then mret true else unexpected.

Fixpoint read_reserved_values (fuel : nat) (values : list RangeValue) : M Reader (list RangeValue) :=
  match fuel with
  | O => raise RecursionError
  | S fuel =>
      ch ← peek_char data;
      value ← (if is_quote ch then s ← read_quoted_string data; mret (Name s)
               else
                 tag_start ← read_int data;
                 ch ← peek_char data;
                 if is_char ch "," || is_char ch ";" then mret (Tag tag_start)
                 else
                   w ← read_word data; _ ← expect (String.eqb w "to");
                   tag_end ← read_int data; mret (KotlinRange tag_start tag_end));
      let values := values ++ [value] in
      more ← list_goes_on;
      if more : bool then read_reserved_values fuel values else mret values
  end.
Definition read_reserved (location : Location) (documentation : string) : P ReservedElement :=
  values ← rd (read_reserved_values (S (length data)) []);
  _ ← rd (expect (match values with [] => false | _ => true end));
  documentation ← rd (try_append_trailing_documentation data documentation);
  mret (mkReserved location documentation values).

Fixpoint read_extensions_values (fuel : nat) (values : list RangeValue) : M Reader (list RangeValue) :=
  match fuel with
  | O => raise RecursionError
  | S fuel =>
      start ← read_int data;
      ch ← peek_char data;
      value ← (if is_char ch "," || is_char ch ";" then mret (Tag start)
               else
                 w ← read_word data; _ ← expect (String.eqb w "to");
                 s ← read_word data;
                 if String.eqb s "max" then mret (KotlinRange start MAX_TAG_VALUE)
                 else match py_int s with Some e => mret (KotlinRange start e) | None => raise ValueError end);
      let values := values ++ [value] in
      more ← list_goes_on;
      if more : bool then read_extensions_values fuel values else mret values
  end.
Definition read_extensions (location : Location) (documentation : string) : P ExtensionsElement :=
  values ← rd (read_extensions_values (S (length data)) []);
  mret (mkExtensions location documentation values).

Definition read_enum_constant (documentation : string) (location : Location) (label : string)
  : P EnumConstantElement :=
  _ ← rd (require data "=");
  tag ← rd (read_int data);
  options ← rd read_options;
  _ ← rd (require data ";");
  documentation ← rd (try_append_trailing_documentation data documentation);
  mret (ProtoElements.mkConstant location label tag documentation options).

(** *** Bodies of declarations *)

Section Declarations.
(** [body context]: the declarations up to the closing brace. *)
Context (body : Context -> P (list Declared)).

Definition read_message (location : Location) (documentation : string) : P TypeElement :=
  name ← rd (read_name data);
  previous_prefix ← gets prefix;
  _ ← modify (set_prefix (previous_prefix +:+ name +:+ ".")%string);
  _ ← rd (require data "{");
  declared ← body MESSAGE;
  _ ← modify (set_prefix previous_prefix);
  mret (ProtoElements.MessageElement location name documentation
    (omap (fun d => match d with DType e => Some e | _ => None end) declared)
    (omap (fun d => match d with DOption o => Some o | _ => None end) declared)
    (omap (fun d => match d with DReserved r => Some r | _ => None end) declared)
    (omap (fun d => match d with DField f => Some f | _ => None end) declared)
    (omap (fun d => match d with DOneOf o => Some o | _ => None end) declared)
    (omap (fun d => match d with DExtensions x => Some x | _ => None end) declared)
    (omap (fun d => match d with DGroup g => Some g | _ => None end) declared)).

Definition read_extend (location : Location) (documentation : string) : P ExtendElement :=
  name ← rd (read_name data);
  _ ← rd (require data "{");
  declared ← body EXTEND;
  mret (mkExtend location name documentation
    (omap (fun d => match d with DField f => Some f | _ => None end) declared)).

Definition read_service (location : Location) (documentation : string) : P ServiceElement :=
  name ← rd (read_name data);
  _ ← rd (require data "{");
  declared ← body SERVICE;
  mret (mkService location name documentation
    (omap (fun d => match d with DRpc r => Some r | _ => None end) declared)
    (omap (fun d => match d with DOption o => Some o | _ => None end) declared)).

Definition read_enum_element (location : Location) (documentation : string) : P TypeElement :=
  name ← rd (read_name data);
  _ ← rd (require data "{");
  declared ← body ENUM_CONTEXT;
  mret (ProtoElements.EnumElement location name documentation
    (omap (fun d => match d with DOption o => Some o | _ => None end) declared)
    (omap (fun d => match d with DConstant c => Some c | _ => None end) declared)).

Definition read_streamed_type : M Reader (bool * string) :=
  word ← read_word data;
  if String.eqb word "stream" then ty ← read_data_type data; mret (true, ty)
  else ty ← data_type_by_name data word; mret (false, ty).

Definition read_rpc (location : Location) (documentation : string) : P RpcElement :=
  name ← rd (read_name data);
  _ ← rd (require data "(");
  request ← rd read_streamed_type;
  _ ← rd (require data ")");
  w ← rd (read_word data);
  _ ← rd (expect (String.eqb w "returns"));
  _ ← rd (require data "(");
  response ← rd read_streamed_type;
  _ ← rd (require data ")");
  open ← rd (peek_is data "{");
  options ← (if open : bool then
               declared ← body RPC;
               mret (omap (fun d => match d with DOption o => Some o | _ => None end) declared)
             else _ ← rd (require data ";"); mret []);
  mret (mkRpc location name documentation request.2 response.2 request.1 response.1 options).

Definition read_syntax (index : nat) : P () :=
  syntax ← gets syntax;
  _ ← rd (expect (match syntax with Some _ => false | None => true end));
  _ ← rd (require data "=");
  _ ← rd (expect (Nat.eqb index 0));
  s ← rd (read_quoted_string data);
  _ ← (if String.eqb s "proto2" then modify (set_syntax PROTO_2)
       else if String.eqb s "proto3" then modify (set_syntax PROTO_3)
       else rd unexpected);
  rd (require data ";").

Definition read_import : P () :=
  import_string ← rd (read_string data);
  _ ← (if String.eqb import_string "public" then f ← rd (read_string data); modify (add_import true f)
       else modify (add_import false import_string));
  rd (require data ";").

Definition declares {A} (f : A -> Declared) (m : P A) : P Declared := a ← m; mret (f a).

(** The cases of [read_declaration] on the word it starts with. *)
Definition read_labelled (index : nat) (location : Location) (label documentation : string) (context : Context)
  : P Declared :=
  let labelled (s : string) (permitted : bool) := String.eqb label s && permitted in
  if labelled "package"%string (permits_package context) then
    n ← rd (read_name data); _ ← modify (set_package n); _ ← rd (require data ";"); mret DNone
  else if labelled "import"%string (permits_import context) then _ ← read_import; mret DNone
  else if labelled "syntax"%string (permits_syntax context) then _ ← read_syntax index; mret DNone
  else if labelled "option"%string true then
    o ← rd (read_option option_fuel "="); _ ← rd (require data ";"); mret (DOption o)
  else if labelled "reserved"%string true then declares DReserved (read_reserved location documentation)
  else if labelled "message"%string (permits_message context) then declares DType (read_message location documentation)
  else if labelled "enum"%string (permits_enum context) then declares DType (read_enum_element location documentation)
  else if labelled "service"%string (permits_service context) then declares DService (read_service location documentation)
  else if labelled "extend"%string (permits_extend context) then declares DExtend (read_extend location documentation)
  else if labelled "rpc"%string (permits_rpc context) then declares DRpc (read_rpc location documentation)
  else if labelled "oneof"%string (permits_one_of context) then declares DOneOf (read_one_of documentation)
  else if labelled "extensions"%string (permits_extensions context) then
    declares DExtensions (read_extensions location documentation)
  else match context with
       | MESSAGE | EXTEND => read_field field_fuel documentation location label
       | ENUM_CONTEXT => declares DConstant (read_enum_constant documentation location label)
       | _ => rd unexpected
       end.

Definition read_declaration (documentation : string) (context : Context) : P Declared :=
  index ← gets declaration_count;
  _ ← modify count_declaration;
  semicolon ← rd (peek_is data ";");
  if semicolon : bool then mret DNone
  else
    loc ← rd location;
    label ← rd (read_word data);
    read_labelled index loc label documentation context.
End Declarations.

(** The loop over the declarations of a body. Extend declarations of a message go to the file. *)
Fixpoint read_body (fuel : nat) (context : Context) : P (list Declared) :=
  match fuel with
  | O => raise RecursionError
  | S fuel =>
      documentation ← rd (read_documentation data);
      close ← rd (peek_is data "}");
      if close : bool then mret []
      else
        declared ← read_declaration (read_body fuel) documentation context;
        _ ← (match declared, context with DExtend e, MESSAGE => modify (add_extend e) | _, _ => mret () end);
        rest ← read_body fuel context;
        mret (declared :: rest)
  end.

(** *** read_proto_file *)

Definition file_element (p : Parser) : ProtoFileElement :=
  mkFile (package_name p) (syntax p) (imports p) (public_imports p) (parsed_types p) (services p) (extends_list p)
    (parsed_options p).

Definition add_declaration (declaration : Declared) : P () :=
  match declaration with
  | DType e =>
      p ← gets id;
      if existsb (fun x => String.eqb (element_name x) (element_name e)) (parsed_types p)
      then raise ProtobufSchemaParseException
      else modify (add_type e)
  | DService s =>
      p ← gets id;
      if existsb (fun x => String.eqb (s_name x) (s_name s)) (services p)
      then raise ProtobufSchemaParseException
      else modify (add_service s)
  | DOption o => modify (add_option o)
  | DExtend e => modify (add_extend e)
  | _ => mret ()
  end.

(** The fuel of bodies: every declaration reads a character. *)
Definition body_fuel : nat := S (length data).

Fixpoint read_proto_file (fuel : nat) : P ProtoFileElement :=
  match fuel with
  | O => raise RecursionError
  | S fuel =>
      documentation ← rd (read_documentation data);
      done ← rd (exhausted data);
      if done : bool then gets file_element
      else
        declaration ← read_declaration (read_body body_fuel) documentation FILE;
        _ ← add_declaration declaration;
        read_proto_file fuel
  end.

Definition parse : result ProtoFileElement := (read_proto_file (S (length data)) new_parser).2.
End Parser.
