(* ===== verification/ProtoParserSpec.v ===== *)
(** * The parser terminates and fails only on the text

    Every loop of the parser of protobuf schemas reads at least one character a round, so the fuel
    [parse] passes is enough for every text, and what it raises is one of the [parse_error]s. *)

From S2P Require Import Prelude Typing Protobuf ProtoReader ProtoReaderSpec ProtoElements ProtoParser.
Open Scope nat_scope.

(** ** Printing options *)

Lemma option_to_schema_raises (o : OptionElement) : raises_res parse_error (option_to_schema o)
with format_value_raises (v : OptionValue) : raises_res parse_error (format_option_map_value v).
Proof.
  - destruct o as [name kind value parenthesized]. cbn [option_to_schema]. pose proof (format_value_raises value) as Hvalue.
    destruct kind, value as [s|l|d|o']; try (apply raises_res_ok); try (by apply raises_res_raise).
    + apply raises_res_bind; [exact Hvalue|]. intros. apply raises_res_ok.
    + clear Hvalue. apply raises_res_bind; [|intros; apply raises_res_ok].
      induction l as [|v l IH]; [apply raises_res_ok|]. apply raises_res_bind.
      * destruct v as [s|l'|d'|o']; [apply raises_res_ok|by apply raises_res_raise..|apply option_to_schema_raises].
      * intros s. apply raises_res_bind; [exact IH|intros; apply raises_res_ok].
    + apply raises_res_bind; [apply option_to_schema_raises|]. intros. apply raises_res_ok.
  - destruct v as [s|l|d|o']; cbn [format_option_map_value].
    + apply raises_res_ok.
    + apply raises_res_bind; [|intros; apply raises_res_ok].
      induction l as [|v l IH]; [apply raises_res_ok|]. apply raises_res_bind; [apply format_value_raises|].
      intros s. apply raises_res_bind; [exact IH|intros; apply raises_res_ok].
    + apply raises_res_bind; [|intros; apply raises_res_ok].
      induction d as [|[key v] d IH]; [apply raises_res_ok|]. apply raises_res_bind; [apply format_value_raises|].
      intros s. apply raises_res_bind; [exact IH|intros; apply raises_res_ok].
    + apply option_to_schema_raises.
Qed.

Lemma py_repr_raises (v : OptionValue) : raises_res parse_error (py_repr v).
Proof.
  revert v. fix rec 1. intros v. destruct v as [s|l|d|o']; cbn [py_repr].
  - apply raises_res_ok.
  - apply raises_res_bind; [|intros; apply raises_res_ok].
    induction l as [|v l IH]; [apply raises_res_ok|]. apply raises_res_bind; [apply rec|].
    intros s. apply raises_res_bind; [exact IH|intros; apply raises_res_ok].
  - apply raises_res_bind; [|intros; apply raises_res_ok].
    induction d as [|[key v] d IH]; [apply raises_res_ok|]. apply raises_res_bind; [apply rec|].
    intros s. apply raises_res_bind; [exact IH|intros; apply raises_res_ok].
  - apply option_to_schema_raises.
Qed.
Lemma py_str_raises v : raises_res parse_error (py_str v).
Proof. destruct v; try apply raises_res_ok; (apply raises_res_bind; [apply py_repr_raises|intros; apply raises_res_ok]). Qed.

Lemma remove_option_raises i e l : raises_res parse_error (remove_option i e l).
Proof.
  induction l as [|[j o] l IH]; [by apply raises_res_raise|]. simpl. destruct (Nat.eqb i j); [apply raises_res_ok|].
  apply raises_res_bind; [apply option_to_schema_raises|]. intros a.
  apply raises_res_bind; [apply option_to_schema_raises|]. intros b.
  destruct (decide (a = b)); [apply raises_res_ok|]. apply raises_res_bind; [done|]. intros. apply raises_res_ok.
Qed.
Lemma strip_value_raises name options : raises_res parse_error (strip_value name options).
Proof.
  apply raises_res_bind; [|intros; apply raises_res_ok].
  generalize (number_from 0 options) at 2 as l. generalize (None : option string) as found.
  induction (number_from 0 options) as [|[i e] copy IH]; intros found l; [apply raises_res_ok|]. simpl.
  destruct (String.eqb _ _); [|apply IH]. apply raises_res_bind; [apply remove_option_raises|]. intros l'.
  apply raises_res_bind; [apply py_str_raises|]. intros v. apply IH.
Qed.
Lemma map_add_raises r o : raises_res parse_error (map_add r o).
Proof.
  unfold map_add. destruct (option_value o), (dget (option_name o) r) as [v|]; try (apply raises_res_ok);
    destruct (falsy v); try (apply raises_res_ok); destruct v; (apply raises_res_ok || by apply raises_res_raise).
Qed.
#[export] Hint Resolve py_str_raises strip_value_raises map_add_raises : karapace.

(** ** Options *)

Section parser.
Context (data : list ascii).

(** Pushing back the brace just read. *)
Lemma runs_push_back ch r : 0 < pos r -> pos r <= length data ->
  exists r', push_back data ch r = (r', Ok ()) /\ pos r - 1 <= pos r' /\ pos r' <= length data.
Proof.
  intros H0 Hr. unfold push_back, mbind, M_bind, gets, id. destruct (Nat.eqb_spec (pos r) 0); [lia|].
  destruct (lookup_lt_is_Some_2 data (pos r - 1)) as [c ->]; [lia|].
  destruct (is_char c ch); [eexists (mkReader (pos r - 1) (line r) (line_start r))|exists r]; simpl; (split; [done|lia]).
Qed.

Lemma safe_read_sub_names n c : safe data n 0 (read_sub_names data c).
Proof. unfold read_sub_names. safe_steps. Qed.

(** The last characters of the head of an option: its separator or, in text format, the brace that
    is put back. *)
Lemma safe_separator {A} n sep (f : list string * ascii -> A) :
  safe data n 0 (
    c ← read_char data; read ← read_sub_names data c;
    _ ← (if is_char sep ":" && is_char read.2 "{" then push_back data "{" else expect (is_char read.2 sep));
    mret (f read)).
Proof.
  intros r Hr Hn. pose proof (safe_read_char data n r Hr Hn) as Hc. unfold mbind, M_bind.
  destruct (read_char data r) as [r1 [c|e]]; [|done].
  pose proof (safe_read_sub_names (length data) c r1 ltac:(lia) ltac:(lia)) as Hs.
  destruct (read_sub_names data c r1) as [r2 [read|e]]; [|done].
  destruct (is_char sep ":" && is_char read.2 "{").
  - destruct (runs_push_back "{" r2) as (r3 & -> & ?); [lia..|]. simpl. lia.
  - unfold expect. destruct (is_char read.2 sep); simpl; [lia|done].
Qed.

Lemma safe_read_option_head n sep : safe data n 1 (read_option_head data sep).
Proof.
  eapply safe_seq; [apply safe_peek_char|]. intros c. eapply safe_after; [apply safe_read_name|]. intros name Hn.
  apply (safe_separator _ sep (fun read => (if is_char c "[" then ("[" +:+ name +:+ "]")%string else name, is_char c "(", read.1))).
Qed.

Lemma safe_options fuel :
  (forall n sep, 2 * n + 1 <= fuel -> safe data n 1 (read_option data fuel sep)) /\
  (forall n, 2 * n + 1 <= fuel -> safe data n 1 (read_kind_and_value data fuel)) /\
  (forall n d, 2 * n + 2 <= fuel -> safe data n 0 (read_map data fuel d)) /\
  (forall n l, 2 * n + 2 <= fuel -> safe data n 0 (read_list data fuel l)).
Proof.
  induction fuel as [|fuel (IHo & IHk & IHm & IHl)]; [split_and!; intros; lia|]. split_and!.
  - intros n sep Hf. cbn [read_option]. eapply safe_after; [apply safe_read_option_head|]. intros head Hn.
    eapply safe_after; [apply (IHk (n - 1)); lia|]. intros kv _. apply safe_ret.
  - intros n Hf. cbn [read_kind_and_value]. eapply safe_peek. intros c r s Hs Hlt Hn.
    destruct (is_char c "{") eqn:Ec.
    { (* the brace that was seen is read *)
      assert (Hrd : read_char data r = (mkReader (pos r + 1) (line r) (line_start r), Ok c)).
      { unfold read_char, peek_char, skip_whitespace. unfold rest in Hs. cbn [skip_whitespace_fuel].
        unfold mbind, M_bind, gets, rest. rewrite Hs.
        assert (is_blank c = false) as -> by (apply Ascii.eqb_eq in Ec as ->; done).
        assert (is_char c SLASH = false) as -> by (apply Ascii.eqb_eq in Ec as ->; done).
        simpl. rewrite Hs. done. }
      unfold runs, mbind, M_bind. rewrite Hrd, Ec.
      pose proof (IHm (n - 1) [] ltac:(lia) (mkReader (pos r + 1) (line r) (line_start r)) ltac:(simpl; lia) ltac:(simpl; lia)) as H.
      destruct (read_map data fuel [] _) as [r' [d|e]]; simpl in *; [lia|done]. }
    eapply (runs_safe _ n); [|lia..]. destruct (is_char c "[").
    { eapply safe_after; [apply safe_require|]. intros _ Hn1. eapply safe_seq; [apply IHl; lia|]. safe_steps. }
    destruct (is_quote c); [safe_steps|]. destruct (starts_number c); [safe_steps|].
    eapply safe_after; [apply safe_read_word|]. intros word _. safe_steps.
  - intros n d Hf. cbn [read_map]. eapply safe_seq; [apply safe_peek_is|]. intros [|]; [apply safe_ret|].
    eapply safe_after; [apply IHo; lia|]. intros o Hn. eapply safe_seq; [apply safe_lift, map_add_raises|]. intros d'.
    eapply safe_seq; [apply safe_peek_is|]. intros comma. eapply safe_seq; [destruct comma; [apply safe_ret|apply safe_peek_is]|].
    intros _. apply IHm. lia.
  - intros n l Hf. cbn [read_list]. eapply safe_seq; [apply safe_peek_is|]. intros [|]; [apply safe_ret|].
    eapply safe_after; [apply IHk; lia|]. intros kv Hn. eapply safe_seq; [apply safe_peek_is|]. intros [|]; [apply IHl; lia|].
    eapply safe_seq; [apply safe_peek_char|]. intros c. eapply safe_seq; [apply safe_expect|]. intros _. apply IHl. lia.
Qed.

Lemma safe_read_option n sep : safe data n 1 (read_option data (option_fuel data) sep).
Proof.
  apply safe_runs. intros r Hr Hn. eapply runs_safe; [apply (proj1 (safe_options _) (length data))|..]; unfold option_fuel; lia.
Qed.

Lemma safe_read_options_loop fuel n l : n < fuel -> safe data n 0 (read_options_loop data fuel l).
Proof.
  revert n l. induction fuel as [|fuel IH]; intros n l Hf; [lia|]. cbn [read_options_loop].
  eapply safe_after; [apply safe_read_option|]. intros o Hn. eapply safe_seq; [apply safe_peek_is|]. intros [|]; [apply safe_ret|].
  eapply safe_seq; [apply safe_peek_is|]. intros comma. eapply safe_seq; [apply safe_expect|]. intros _. apply IH. lia.
Qed.
Lemma safe_read_options n : safe data n 0 (read_options data).
Proof.
  eapply safe_seq; [apply safe_peek_is|]. intros [|]; [|apply safe_ret].
  apply safe_runs. intros r Hr Hn. eapply runs_safe; [apply (safe_read_options_loop _ (length data))|..]; lia.
Qed.
End parser.
#[export] Hint Resolve safe_read_option safe_read_options : karapace.

(** ** Declarations *)

Section declarations.
Context (data : list ascii).
Abbreviation len := (length data).

(** [safe] for the parser, which moves its reader. *)
Definition psafe {A} (n k : nat) (m : M Parser A) : Prop :=
  forall p, pos (reader p) <= len -> len - pos (reader p) <= n ->
    match m p with
    | (p', Ok _) => pos (reader p) + k <= pos (reader p') /\ pos (reader p') <= len
    | (_, Raise e) => parse_error e
    end.

Lemma psafe_rd {A} n k (m : M Reader A) : safe data n k m -> psafe n k (rd m).
Proof. intros H p Hp Hn. unfold rd. specialize (H _ Hp Hn). by destruct (m (reader p)) as [r [a|e]]. Qed.
Lemma psafe_ret {A} n (a : A) : psafe n 0 (mret a).
Proof. intros p ??. simpl. lia. Qed.
Lemma psafe_raise {A} n k e : parse_error e -> psafe n k (raise (A := A) e).
Proof. intros H p ??. done. Qed.
Lemma psafe_gets {A} n (f : Parser -> A) : psafe n 0 (gets f).
Proof. intros p ??. simpl. lia. Qed.
Lemma psafe_modify n f : (forall p, reader (f p) = reader p) -> psafe n 0 (modify f).
Proof. intros H p ??. simpl. rewrite H. lia. Qed.
Lemma psafe_lift {A} n (x : result A) : raises_res parse_error x -> psafe n 0 (lift x).
Proof. intros H p ??. simpl. destruct x; [lia|by apply H]. Qed.
Lemma psafe_weaken {A} n n' k k' (m : M Parser A) : psafe n k m -> n' <= n -> k' <= k -> psafe n' k' m.
Proof. intros H Hn Hk p Hp Hp'. specialize (H p Hp ltac:(lia)). destruct (m p) as [p' [a|e]]; [lia|done]. Qed.
Lemma psafe_after {A B} n k1 k (m : M Parser A) (f : A -> M Parser B) :
  psafe n k1 m -> (forall a, k1 <= n -> psafe (n - k1) (k - k1) (f a)) -> psafe n k (mbind f m).
Proof.
  intros Hm Hf p Hp Hn. unfold mbind, M_bind. specialize (Hm p Hp Hn). destruct (m p) as [p1 [a|e]]; [|done].
  specialize (Hf a ltac:(lia) p1 ltac:(lia) ltac:(lia)). destruct (f a p1) as [p2 [b|e]]; [lia|done].
Qed.
(** With the whole text as the bound. *)
Lemma psafe_total {A} n k (m : M Parser A) : psafe len k m -> psafe n k m.
Proof. intros H p Hp Hn. apply H; lia. Qed.

Hint Resolve psafe_rd psafe_ret psafe_gets psafe_lift : karapace.
Hint Extern 1 (psafe _ _ (modify _)) => (apply psafe_modify; done) : karapace.

Ltac psafe_steps :=
  repeat first
    [ progress intros
    | match goal with |- psafe _ _ (match ?x with _ => _ end) => destruct x eqn:? end
    | solve [eauto 4 with karapace]
    | solve [eapply psafe_weaken; [solve [eauto 4 with karapace]|reflexivity|lia]]
    | eapply psafe_after; [solve [eauto 4 with karapace]|] ].

Lemma psafe_read_field_with_label n loc doc label ty : psafe n 1 (read_field_with_label data loc doc label ty).
Proof. unfold read_field_with_label. psafe_steps. Qed.
Hint Resolve psafe_read_field_with_label : karapace.

Lemma psafe_read_label_and_type n w : psafe n 0 (read_label_and_type data w).
Proof.
  unfold read_label_and_type. eapply psafe_after; [apply psafe_gets|]. intros syn _.
  destruct (String.eqb w "required"); [psafe_steps|]. destruct (String.eqb w "optional"); [psafe_steps|].
  destruct (String.eqb w "repeated"); [psafe_steps|]. eapply (psafe_after _ 0); [psafe_steps|]. intros ok _. psafe_steps.
Qed.
Hint Resolve psafe_read_label_and_type : karapace.

Lemma psafe_fields fuel :
  (forall n doc loc w, 3 * n + 2 <= fuel -> psafe n 0 (read_field data fuel doc loc w)) /\
  (forall n loc doc label, 3 * n + 1 <= fuel -> psafe n 1 (read_group data fuel loc doc label)) /\
  (forall n fields, 3 * n + 1 <= fuel -> psafe n 0 (read_group_fields data fuel fields)).
Proof.
  induction fuel as [|fuel (IHf & IHg & IHl)]; [split_and!; intros; lia|]. split_and!.
  - intros n doc loc w Hf. cbn [read_field]. eapply psafe_after; [apply psafe_read_label_and_type|]. intros [label ty] _.
    rewrite Nat.sub_0_r. eapply psafe_after; [eauto with karapace|]. intros _ _. rewrite Nat.sub_0_r.
    destruct (String.eqb ty "group"); [|psafe_steps].
    eapply psafe_after; [apply IHg; lia|]. psafe_steps.
  - intros n loc doc label Hf. cbn [read_group]. eapply psafe_after; [apply psafe_rd, safe_read_word|]. intros name Hn.
    eapply psafe_after; [apply psafe_rd, safe_require|]. intros _ Hn1.
    eapply psafe_after; [apply psafe_rd, safe_read_int|]. intros tag Hn2.
    eapply psafe_after; [apply psafe_rd, safe_require|]. intros _ Hn3.
    eapply psafe_after; [apply IHl; lia|]. psafe_steps.
  - intros n fields Hf. cbn [read_group_fields]. eapply psafe_after; [apply psafe_rd, safe_read_documentation|]. intros doc _.
    eapply psafe_after; [apply psafe_rd, safe_peek_is|]. intros [|] _; [apply psafe_ret|].
    eapply psafe_after; [apply psafe_rd, safe_location|]. intros loc _.
    eapply psafe_after; [apply psafe_rd, safe_read_word|]. intros label Hn.
    eapply psafe_after; [apply IHf; lia|]. intros [] _; try (apply psafe_rd, safe_unexpected). apply IHl. lia.
Qed.
Lemma psafe_read_field n doc loc w : psafe n 0 (read_field data (field_fuel data) doc loc w).
Proof. apply psafe_total, psafe_fields. unfold field_fuel. lia. Qed.
Lemma psafe_read_group n loc doc label : psafe n 1 (read_group data (field_fuel data) loc doc label).
Proof. apply psafe_total, psafe_fields. unfold field_fuel. lia. Qed.
Hint Resolve psafe_read_field psafe_read_group : karapace.

Lemma psafe_read_one_of_body fuel n fs gs os : n < fuel -> psafe n 0 (read_one_of_body data fuel fs gs os).
Proof.
  revert n fs gs os. induction fuel as [|fuel IH]; intros n fs gs os Hf; [lia|]. cbn [read_one_of_body].
  eapply psafe_after; [apply psafe_rd, safe_read_documentation|]. intros doc _.
  eapply psafe_after; [apply psafe_rd, safe_peek_is|]. intros [|] _; [apply psafe_ret|].
  eapply psafe_after; [apply psafe_rd, safe_location|]. intros loc _.
  eapply psafe_after; [apply psafe_rd, safe_read_data_type|]. intros ty Hn.
  destruct (String.eqb ty "group"); [|destruct (String.eqb ty "option")].
  - eapply psafe_after; [apply psafe_read_group|]. intros g _. apply IH. lia.
  - eapply psafe_after; [apply psafe_rd, safe_read_option|]. intros o _.
    eapply psafe_after; [apply psafe_rd, safe_require|]. intros _ _. apply IH. lia.
  - eapply psafe_after; [apply psafe_read_field_with_label|]. intros f _. apply IH. lia.
Qed.
Lemma psafe_read_one_of n doc : psafe n 1 (read_one_of data doc).
Proof.
  unfold read_one_of. eapply psafe_after; [apply psafe_rd, safe_read_name|]. intros name _.
  eapply psafe_after; [apply psafe_rd, safe_require|]. intros _ _.
  eapply psafe_after; [apply psafe_total, psafe_read_one_of_body; lia|]. psafe_steps.
Qed.

Lemma safe_list_goes_on n : safe data n 1 (list_goes_on data).
Proof. unfold list_goes_on. safe_steps. Qed.

Lemma safe_read_reserved_values fuel n vs : n < fuel -> safe data n 1 (read_reserved_values data fuel vs).
Proof.
  revert n vs. induction fuel as [|fuel IH]; intros n vs Hf; [lia|]. cbn [read_reserved_values].
  eapply safe_seq; [apply safe_peek_char|]. intros ch. eapply (safe_after _ _ 1).
  { destruct (is_quote ch); [safe_steps|]. eapply safe_after; [apply safe_read_int|]. intros z _.
    eapply safe_seq; [apply safe_peek_char|]. intros ch'. destruct (is_char ch' "," || is_char ch' ";"); safe_steps. }
  intros v Hn. eapply safe_after; [apply safe_list_goes_on|]. intros [|] Hn'; [|apply safe_ret].
  eapply safe_weaken; [apply (IH (n - 1 - 1))|..]; lia.
Qed.
Lemma safe_read_extensions_values fuel n vs : n < fuel -> safe data n 1 (read_extensions_values data fuel vs).
Proof.
  revert n vs. induction fuel as [|fuel IH]; intros n vs Hf; [lia|]. cbn [read_extensions_values].
  eapply safe_after; [apply safe_read_int|]. intros z Hn. eapply safe_seq; [apply safe_peek_char|]. intros ch.
  eapply (safe_after _ _ 0).
  { destruct (is_char ch "," || is_char ch ";"); [apply safe_ret|]. eapply safe_weaken; [|reflexivity|apply (Nat.le_0_l 2)].
    eapply safe_after; [apply safe_read_word|]. intros w _.
    eapply safe_seq; [apply safe_expect|]. intros _. eapply safe_after; [apply safe_read_word|]. intros s _.
    destruct (String.eqb s "max"); [apply safe_ret|]. destruct (py_int s); [apply safe_ret|by apply safe_raise]. }
  intros v _. eapply safe_after; [apply safe_list_goes_on|]. intros [|] Hn'; [|apply safe_ret].
  eapply safe_weaken; [apply (IH (n - 1 - 0 - 1))|..]; lia.
Qed.

Lemma psafe_read_reserved n loc doc : psafe n 0 (read_reserved data loc doc).
Proof.
  unfold read_reserved. eapply psafe_after.
  { apply psafe_total, psafe_rd, safe_read_reserved_values. lia. }
  psafe_steps.
Qed.
Lemma psafe_read_extensions n loc doc : psafe n 0 (read_extensions data loc doc).
Proof.
  unfold read_extensions. eapply psafe_after.
  { apply psafe_total, psafe_rd, safe_read_extensions_values. lia. }
  psafe_steps.
Qed.
Lemma psafe_read_enum_constant n doc loc label : psafe n 0 (read_enum_constant data doc loc label).
Proof. unfold read_enum_constant. psafe_steps. Qed.
Lemma psafe_read_import n : psafe n 0 (read_import data).
Proof.
  unfold read_import. eapply psafe_after; [apply psafe_rd, safe_read_string|]. intros s _.
  eapply (psafe_after _ 0); [destruct (String.eqb s "public"); psafe_steps|]. psafe_steps.
Qed.
Lemma psafe_read_syntax n index : psafe n 0 (read_syntax data index).
Proof.
  unfold read_syntax. eapply psafe_after; [apply psafe_gets|]. intros syn _.
  do 3 (eapply psafe_after; [solve [eauto 4 with karapace]|]; intros _ _).
  eapply psafe_after; [apply psafe_rd, safe_read_quoted_string|]. intros s _.
  eapply (psafe_after _ 0); [psafe_steps|]. psafe_steps.
Qed.
Hint Resolve psafe_read_one_of psafe_read_reserved psafe_read_extensions psafe_read_enum_constant psafe_read_import
  psafe_read_syntax : karapace.

(** Declarations, for bodies that are safe on less text. *)
Section bodies.
Context (body : Context -> M Parser (list Declared)) (n : nat).
Hypothesis body_safe : forall c, psafe n 0 (body c).

Lemma psafe_read_message loc doc : psafe n 0 (read_message data body loc doc).
Proof.
  unfold read_message. eapply psafe_after; [apply psafe_rd, safe_read_name|]. intros name _.
  do 3 (eapply psafe_after; [solve [eauto 4 with karapace]|]; intros ? _).
  eapply psafe_after; [eapply psafe_weaken; [apply body_safe|lia|reflexivity]|]. psafe_steps.
Qed.
Lemma psafe_read_extend loc doc : psafe n 0 (read_extend data body loc doc).
Proof.
  unfold read_extend. do 2 (eapply psafe_after; [solve [eauto 4 with karapace]|]; intros ? _).
  eapply psafe_after; [eapply psafe_weaken; [apply body_safe|lia|reflexivity]|]. psafe_steps.
Qed.
Lemma psafe_read_service loc doc : psafe n 0 (read_service data body loc doc).
Proof.
  unfold read_service. do 2 (eapply psafe_after; [solve [eauto 4 with karapace]|]; intros ? _).
  eapply psafe_after; [eapply psafe_weaken; [apply body_safe|lia|reflexivity]|]. psafe_steps.
Qed.
Lemma psafe_read_enum_element loc doc : psafe n 0 (read_enum_element data body loc doc).
Proof.
  unfold read_enum_element. do 2 (eapply psafe_after; [solve [eauto 4 with karapace]|]; intros ? _).
  eapply psafe_after; [eapply psafe_weaken; [apply body_safe|lia|reflexivity]|]. psafe_steps.
Qed.
Lemma safe_read_streamed_type k : safe data k 1 (read_streamed_type data).
Proof.
  unfold read_streamed_type. eapply safe_after; [apply safe_read_word|]. intros w _.
  destruct (String.eqb w "stream"); safe_steps.
Qed.
Hint Resolve safe_read_streamed_type : karapace.
Lemma psafe_read_rpc loc doc : psafe n 0 (read_rpc data body loc doc).
Proof.
  unfold read_rpc. do 10 (eapply psafe_after; [solve [eauto 4 with karapace]|]; intros ? _).
  eapply (psafe_after _ 0); [|psafe_steps]. destruct a8; [|psafe_steps].
  eapply psafe_after; [eapply psafe_weaken; [apply body_safe|lia|reflexivity]|]. psafe_steps.
Qed.

Lemma psafe_declares {A} k (f : A -> Declared) m : psafe k 0 m -> psafe k 0 (declares f m).
Proof. intros H. eapply psafe_after; [exact H|]. intros. apply psafe_ret. Qed.
Hint Resolve psafe_read_message psafe_read_extend psafe_read_service psafe_read_enum_element psafe_read_rpc : karapace.

Lemma psafe_read_labelled index loc label doc context : psafe n 0 (read_labelled data body index loc label doc context).
Proof.
  unfold read_labelled. cbv zeta.
  repeat match goal with |- psafe _ _ (if ?b then _ else _) => destruct b end;
    try (apply psafe_declares; solve [eauto 4 with karapace|eapply psafe_weaken; [apply psafe_read_one_of|reflexivity|lia]]);
    try (by psafe_steps).
Qed.
End bodies.

(** A declaration reads at least one character; its bodies have less text to read. *)
Lemma peek_is_true ch r r' : peek_is data ch r = (r', Ok true) -> pos r <= len -> pos r + 1 <= pos r'.
Proof.
  intros H Hr. unfold peek_is in H. apply M_bind_Ok in H as (c & r1 & H1 & H).
  pose proof (safe_peek_char data len r Hr ltac:(lia)) as Hp. rewrite H1 in Hp. simpl in Hp.
  destruct (is_char c ch); [|done]. injection H as <-. simpl. lia.
Qed.

Lemma psafe_read_declaration body n doc context : (1 <= n -> forall c, psafe (n - 1) 0 (body c)) ->
  psafe n 1 (read_declaration data body doc context).
Proof.
  intros Hbody p Hp Hn. unfold read_declaration, mbind, M_bind, gets, modify, rd. simpl.
  destruct (peek_is data ";" (reader p)) as [r [b|e]] eqn:E;
    pose proof (safe_peek_is data n ";" (reader p) Hp Hn) as Hs; rewrite E in Hs; [|done].
  destruct b; [apply peek_is_true in E; simpl; lia|]. simpl.
  pose proof (safe_read_word data n r ltac:(lia) ltac:(lia)) as Hw. simpl in Hs.
  destruct (read_word data r) as [r1 [label|e]]; [|done].
  match goal with |- context [read_labelled data body ?i ?l ?w ?d ?c ?q] =>
    pose proof (psafe_read_labelled body (n - 1) (Hbody ltac:(lia)) i l w d c q ltac:(simpl; lia) ltac:(simpl; lia)) as H;
    destruct (read_labelled data body i l w d c q) as [p' [x|e]]; [|done] end.
  simpl in *. lia.
Qed.

Lemma psafe_read_body fuel : forall n c, n < fuel -> psafe n 0 (read_body data fuel c).
Proof.
  induction fuel as [|fuel IH]; intros n c Hf; [lia|]. cbn [read_body].
  eapply psafe_after; [apply psafe_rd, safe_read_documentation|]. intros doc _.
  eapply psafe_after; [apply psafe_rd, safe_peek_is|]. intros [|] _; [apply psafe_ret|]. rewrite !Nat.sub_0_r.
  eapply psafe_after; [apply psafe_read_declaration; intros; apply IH; lia|]. intros declared Hn.
  eapply psafe_after; [destruct declared, c; eauto with karapace|]. intros _ _.
  eapply psafe_after; [apply IH; lia|]. psafe_steps.
Qed.

Lemma psafe_add_declaration n d : psafe n 0 (add_declaration d).
Proof.
  destruct d; simpl; try apply psafe_ret; try (apply psafe_modify; done).
  all: eapply psafe_after; [apply psafe_gets|]; intros p _; destruct (existsb _ _);
    [by apply psafe_raise|by apply psafe_modify].
Qed.

Lemma psafe_read_proto_file fuel : forall n, n < fuel -> psafe n 0 (read_proto_file data fuel).
Proof.
  induction fuel as [|fuel IH]; intros n Hf; [lia|]. cbn [read_proto_file].
  eapply psafe_after; [apply psafe_rd, safe_read_documentation|]. intros doc _.
  eapply psafe_after; [apply psafe_rd, safe_gets|]. intros [|] _; [apply psafe_gets|]. rewrite !Nat.sub_0_r.
  eapply psafe_after; [apply psafe_read_declaration|].
  { intros _ c. apply psafe_total, psafe_read_body. unfold body_fuel. lia. }
  intros declaration Hn. eapply psafe_after; [apply psafe_add_declaration|]. intros _ _. apply IH. lia.
Qed.
End declarations.

Lemma parse_raises data : raises_res parse_error (parse data).
Proof.
  unfold parse. pose proof (psafe_read_proto_file data (S (length data)) (length data) ltac:(lia) new_parser
    ltac:(simpl; lia) ltac:(simpl; lia)) as H.
  destruct (read_proto_file data _ new_parser) as [p [f|e]]; [done|]. by intros e' [= <-].
Qed.

(** C13. Parsing a protobuf schema terminates on every text, and fails for a reason in the text: the
    fuel [parse] starts with is never used up (which would be a [RecursionError]), no internal
    assertion or index fails, and what it raises is a syntax error, a duplicate definition, an
    extension bound that is not a number, an option that cannot be merged or printed, or an escape
    beyond the modelled characters. *)
Theorem parse_terminates data :
  match parse data with
  | Ok _ => True
  | Raise e => e ∈ [IllegalStateException; ProtobufSchemaParseException; ValueError; TypeError; AttributeError; OtherError]
  end.
Proof.
  pose proof (parse_raises data) as H. destruct (parse data) as [f|e]; [done|]. specialize (H e eq_refl).
  destruct e; try done; set_solver.
Qed.
