(* ===== verification/ProtoLayout.v ===== *)
(** * Texts as laid-out tokens

    [lays ts s]: the text [s] is the tokens [ts] with blanks between them. The reader is specified
    on such texts: [reads m ts ts' P] says that [m], standing before [ts], returns a value with [P]
    and stands before [ts']. Indentation changes the blanks only. *)

From stdpp Require Import pretty.
From S2P Require Import Prelude Typing ProtoReader ProtoReaderSpec ProtoElements.
Open Scope nat_scope.

(** ** Tokens *)

(** A quoted token is its characters between double quotes, and the string they stand for. *)
Inductive token : Type :=
  | TWord (w : list ascii)
  | TChar (c : ascii)
  | TQuoted (raw value : list ascii).

Definition token_text (t : token) : list ascii :=
  match t with TWord w => w | TChar c => [c] | TQuoted raw _ => QUOTE :: raw ++ [QUOTE] end.

(** Characters of a quoted token and what is read: any but a quote, a backslash or a line feed
    stands for itself. *)
Definition plain_char (c : ascii) : bool := negb (is_char c QUOTE || is_char c BACKSLASH || is_char c LF).
Definition escaped_char (e c : ascii) : bool :=
  match escape_char e with
  | Some d => is_char c d
  | None => (is_char e QUOTE || is_char e APOSTROPHE || is_char e BACKSLASH) && is_char c e
  end.
Inductive quoted : list ascii -> list ascii -> Prop :=
  | quoted_nil : quoted [] []
  | quoted_plain c raw value : plain_char c = true -> quoted raw value -> quoted (c :: raw) (c :: value)
  | quoted_escape e c raw value : escaped_char e c = true -> quoted raw value ->
      quoted (BACKSLASH :: e :: raw) (c :: value).

Definition is_word (w : list ascii) : bool := non_empty w && forallb is_word_char w.
Definition is_mark (c : ascii) : bool := negb (is_word_char c || is_blank c || is_char c SLASH || is_quote c).

Definition token_ok (t : token) : Prop :=
  match t with TWord w => is_word w = true | TChar c => is_mark c = true | TQuoted raw value => quoted raw value end.

Definition starts_word (s : list ascii) : bool := match s with c :: _ => is_word_char c | [] => false end.
Definition separated (t : token) (s : list ascii) : bool :=
  match t with TWord _ => negb (starts_word s) | _ => true end.

Inductive lays : list token -> list ascii -> Prop :=
  | lays_nil w : forallb is_blank w = true -> lays [] w
  | lays_cons w t ts s : forallb is_blank w = true -> token_ok t -> separated t s = true -> lays ts s ->
      lays (t :: ts) (w ++ token_text t ++ s).

Lemma lays_blank b ts s : is_blank b = true -> lays ts s -> lays ts (b :: s).
Proof.
  intros Hb [w Hw|w t ts' s' Hw Ht Hsep H].
  - apply lays_nil. simpl. by rewrite Hb.
  - apply (lays_cons (b :: w)); try done. simpl. by rewrite Hb.
Qed.
Lemma lays_char c ts s : is_mark c = true -> lays ts s -> lays (TChar c :: ts) (c :: s).
Proof. intros Hc H. by apply (lays_cons [] (TChar c)). Qed.
Lemma lays_word w ts s : is_word w = true -> starts_word s = false -> lays ts s -> lays (TWord w :: ts) (w ++ s).
Proof. intros Hw Hs H. apply (lays_cons [] (TWord w)); try done. simpl. by rewrite Hs. Qed.
Lemma lays_quoted raw value ts s : quoted raw value -> lays ts s ->
  lays (TQuoted raw value :: ts) ([QUOTE] ++ raw ++ [QUOTE] ++ s).
Proof.
  intros Hq H. replace ([QUOTE] ++ raw ++ [QUOTE] ++ s) with ([] ++ token_text (TQuoted raw value) ++ s).
  - by apply lays_cons.
  - simpl. by rewrite <- app_assoc.
Qed.

(** Laid-out texts follow each other where the first does not end in a word. *)
Definition closed (s : list ascii) : bool := match last s with Some c => negb (is_word_char c) | None => true end.

Lemma starts_word_app s1 s2 : s1 ≠ [] -> starts_word (s1 ++ s2) = starts_word s1.
Proof. by destruct s1. Qed.
Lemma closed_app s1 s2 : s2 ≠ [] -> closed (s1 ++ s2) = closed s2.
Proof.
  intros H. unfold closed. rewrite last_app. destruct (last s2) eqn:E; [done|]. by apply last_None in E.
Qed.
Lemma token_text_not_nil t : token_ok t -> token_text t ≠ [].
Proof. by destruct t as [[|]| |]. Qed.
Lemma blank_not_word c : is_blank c = true -> is_word_char c = false.
Proof. unfold is_blank. rewrite !orb_true_iff. intros [[[H|H]|H]|H]; apply Ascii.eqb_eq in H as ->; done. Qed.

Lemma lays_app ts1 ts2 s1 s2 : lays ts1 s1 -> closed s1 || negb (starts_word s2) = true -> lays ts2 s2 ->
  lays (ts1 ++ ts2) (s1 ++ s2).
Proof.
  intros H1 Hc H2. induction H1 as [w Hw|w t ts s Hw Ht Hsep H IH].
  - clear Hc. simpl. induction w as [|b w IH]; [done|]. simpl in *. apply andb_true_iff in Hw as [Hb Hw].
    apply lays_blank; auto.
  - rewrite <- !app_assoc. simpl. destruct s as [|c s].
    + (* the token ends the text *)
      rewrite app_nil_r, closed_app in Hc by by apply token_text_not_nil.
      apply lays_cons; try done; [|by apply IH]. destruct t as [w0| |]; try done. simpl.
      apply orb_true_iff in Hc as [Hc|Hc]; [|done]. exfalso.
      simpl in Ht, Hc. unfold is_word in Ht. apply andb_true_iff in Ht as [Hne Hall].
      unfold closed in Hc. destruct (last w0) as [c|] eqn:E; [|by apply last_None in E as ->].
      apply last_Some_elem_of in E. apply list_elem_of_In in E. rewrite forallb_forall in Hall.
      rewrite (Hall c E) in Hc. done.
    + assert (Hc' : closed (c :: s) || negb (starts_word s2) = true).
      { rewrite !closed_app in Hc; [done|done|]. by intros [_ ?]%app_eq_nil. }
      apply lays_cons; try done. by apply IH.
Qed.

(** ** Indentation *)

Definition expand (s : list ascii) : list ascii :=
  concat (map (fun c => if is_char c LF then [LF; SPACE; SPACE] else [c]) s).

Lemma expand_app s1 s2 : expand (s1 ++ s2) = expand s1 ++ expand s2.
Proof. unfold expand. by rewrite map_app, concat_app. Qed.

Lemma split_lines_not_nil s : split_lines s ≠ [].
Proof. destruct s as [|c s]; simpl; [done|]. destruct (is_char c LF); [done|]. by destruct (split_lines s). Qed.

Lemma indented_lines s :
  concat (map (fun line => [SPACE; SPACE] ++ line ++ [LF]) (split_lines s)) = [SPACE; SPACE] ++ expand s ++ [LF].
Proof.
  induction s as [|c s IH]; [done|]. cbn [split_lines]. unfold expand in *. cbn [map concat].
  destruct (is_char c LF) eqn:E.
  - cbn [map concat]. rewrite IH. done.
  - pose proof (split_lines_not_nil s) as Hn. destruct (split_lines s) as [|l ls]; [done|]. simpl in IH |- *.
    injection IH as IH. by rewrite IH.
Qed.

Lemma split_lines_snoc s : split_lines (s ++ [LF]) = split_lines s ++ [[]].
Proof.
  induction s as [|c s IH]; [done|]. simpl. rewrite IH. destruct (is_char c LF); [done|].
  pose proof (split_lines_not_nil s). by destruct (split_lines s).
Qed.
Lemma split_lines_last s : last (split_lines s) = Some [] -> s = [] \/ last s = Some LF.
Proof.
  induction s as [|c s IH]; [by left|]. intros H. right. simpl in H.
  destruct (is_char c LF) eqn:E; [|pose proof (split_lines_not_nil s) as Hn; destruct (split_lines s) as [|l ls] eqn:El; [done|]].
  - apply Ascii.eqb_eq in E as ->. rewrite last_cons in H. destruct (last (split_lines s)) eqn:El.
    + injection H as ->. destruct (IH eq_refl) as [->|Hs]; [done|]. rewrite last_cons. by rewrite Hs.
    + apply last_None in El. by destruct (split_lines_not_nil s).
  - rewrite last_cons in H. destruct (last ls) eqn:Els; [|done]. injection H as ->.
    destruct (IH) as [->|Hs]; [by rewrite last_cons, Els|by injection El as <- <-|]. rewrite last_cons. by rewrite Hs.
Qed.

Definition trim (s : list ascii) : list ascii := match last s with Some c => if is_char c LF then removelast s else s | None => s end.

Lemma append_indented_eq s : append_indented s = [SPACE; SPACE] ++ expand (trim s) ++ [LF].
Proof.
  rewrite <- indented_lines. unfold append_indented, text_lines, trim. f_equal. f_equal.
  destruct (last s) as [c|] eqn:E; [|by apply last_None in E as ->].
  destruct (is_char c LF) eqn:Ec.
  - apply Ascii.eqb_eq in Ec as ->. apply last_Some in E as [s' ->]. rewrite split_lines_snoc, last_snoc. simpl.
    rewrite length_app. pose proof (split_lines_not_nil s') as Hn. destruct (split_lines s') as [|l ls] eqn:El; [done|].
    rewrite Nat.add_comm. simpl length. cbn [Nat.ltb Nat.leb]. cbn [non_empty negb andb].
    rewrite removelast_last. by rewrite removelast_last, El.
  - destruct (last (split_lines s)) as [[|d l]|] eqn:El.
    + apply split_lines_last in El as [->|El]; [done|]. rewrite El in E. injection E as <-. done.
    + simpl. by rewrite andb_false_r.
    + apply last_None in El. by destruct (split_lines_not_nil s).
Qed.

Lemma expand_no_LF s : LF ∉ s -> expand s = s.
Proof.
  unfold expand. induction s as [|c s IH]; [done|]. intros [Hc Hs]%not_elem_of_cons. simpl. rewrite IH by done.
  destruct (is_char c LF) eqn:E; [by apply Ascii.eqb_eq in E as ->|done].
Qed.
Lemma quoted_no_LF raw value : quoted raw value -> LF ∉ raw.
Proof.
  induction 1 as [|c raw value Hc H IH|e c raw value He H IH]; [apply not_elem_of_nil|..].
  - apply not_elem_of_cons. split; [intros <-; done|done].
  - rewrite !not_elem_of_cons. split_and!; [done| |done]. by intros <-.
Qed.
Lemma token_no_LF t : token_ok t -> LF ∉ token_text t.
Proof.
  destruct t as [w|c|raw value]; simpl.
  - intros [_ Hall]%andb_true_iff Hin%list_elem_of_In. rewrite forallb_forall in Hall. by specialize (Hall LF Hin).
  - intros H E%list_elem_of_singleton. by rewrite <- E in H.
  - intros H%quoted_no_LF. rewrite not_elem_of_cons, not_elem_of_app, list_elem_of_singleton. done.
Qed.
Lemma expand_blank w : forallb is_blank w = true -> forallb is_blank (expand w) = true.
Proof.
  unfold expand. induction w as [|b w IH]; [done|]. simpl. intros [Hb Hw]%andb_true_iff.
  destruct (is_char b LF); simpl; [by rewrite IH|by rewrite Hb, IH].
Qed.
Lemma expand_starts_word s : starts_word (expand s) = starts_word s.
Proof.
  destruct s as [|c s]; [done|]. unfold expand. simpl. destruct (is_char c LF) eqn:E; [|done].
  by apply Ascii.eqb_eq in E as ->.
Qed.

Lemma lays_expand ts s : lays ts s -> lays ts (expand s).
Proof.
  induction 1 as [w Hw|w t ts s Hw Ht Hsep H IH]; [by apply lays_nil, expand_blank|].
  rewrite !expand_app, (expand_no_LF (token_text t)) by by apply token_no_LF.
  apply lays_cons; [by apply expand_blank|done| |done]. destruct t; try done. simpl in *. by rewrite expand_starts_word.
Qed.

Lemma token_text_snoc t : token_ok t -> exists s c, token_text t = s ++ [c] /\ is_blank c = false.
Proof.
  destruct t as [w|c|raw value]; simpl.
  - intros [Hne Hall]%andb_true_iff. destruct (exists_last (l := w)) as (s & c & ->); [by destruct w|].
    exists s, c. split; [done|]. rewrite forallb_app in Hall. apply andb_true_iff in Hall as [_ Hc]. simpl in Hc.
    destruct (is_blank c) eqn:Eb; [|done]. apply blank_not_word in Eb. by rewrite Eb in Hc.
  - intros H. exists [], c. split; [done|]. unfold is_mark in H. by destruct (is_blank c), (is_word_char c).
  - intros _. by exists (QUOTE :: raw), QUOTE.
Qed.

Lemma lays_unsnoc ts s b : is_blank b = true -> lays ts (s ++ [b]) -> lays ts s.
Proof.
  intros Hb H. remember (s ++ [b]) as s0 eqn:E. revert s E.
  induction H as [w Hw|w t ts s Hw Ht Hsep H IH]; intros s' E.
  - subst w. apply lays_nil. rewrite forallb_app in Hw. by apply andb_true_iff in Hw as [Hw _].
  - destruct (exists_last (l := s)) as (s1 & b1 & ->).
    { intros ->. destruct (token_text_snoc t Ht) as (u & c & Hu & Hc). rewrite Hu, app_nil_r, app_assoc in E.
      apply app_inj_tail in E as [_ ->]. congruence. }
    rewrite !app_assoc in E. apply app_inj_tail in E as [<- ->]. rewrite <- app_assoc. apply lays_cons; try done.
    + destruct t; try done. simpl in *. destruct s1; [done|]. done.
    + by apply IH.
Qed.

Lemma lays_trim ts s : lays ts s -> lays ts (trim s).
Proof.
  intros H. unfold trim. destruct (last s) as [c|] eqn:E; [|done]. destruct (is_char c LF) eqn:Ec; [|done].
  apply Ascii.eqb_eq in Ec as ->. apply last_Some in E as [s' ->]. rewrite removelast_last. by apply (lays_unsnoc ts s' LF).
Qed.

Lemma lays_snoc ts s b : is_blank b = true -> lays ts s -> lays ts (s ++ [b]).
Proof.
  intros Hb. induction 1 as [w Hw|w t ts s Hw Ht Hsep H IH].
  - apply lays_nil. rewrite forallb_app, Hw. simpl. by rewrite Hb.
  - rewrite <- !app_assoc. apply lays_cons; try done. destruct t; try done. simpl in *. destruct s; [|done].
    simpl. by rewrite blank_not_word.
Qed.

(** Indenting a laid-out text, which then is a block of lines. *)
Lemma lays_indented ts s : lays ts s -> lays ts (append_indented s).
Proof.
  intros H. rewrite append_indented_eq. do 2 (apply lays_blank; [done|]). apply lays_snoc; [done|].
  by apply lays_expand, lays_trim.
Qed.
Lemma closed_snoc s c : is_word_char c = false -> closed (s ++ [c]) = true.
Proof. intros H. unfold closed. rewrite last_snoc. by rewrite H. Qed.
Lemma closed_indented s : closed (append_indented s) = true.
Proof. rewrite append_indented_eq, app_assoc. by apply closed_snoc. Qed.

(** A block: a laid-out text after which another may follow. *)
Definition block (ts : list token) (s : list ascii) : Prop := lays ts s /\ closed s = true.

Lemma block_nil : block [] [].
Proof. split; [by apply (lays_nil [])|done]. Qed.
Lemma block_app ts1 ts2 s1 s2 : block ts1 s1 -> block ts2 s2 -> block (ts1 ++ ts2) (s1 ++ s2).
Proof.
  intros [H1 C1] [H2 C2]. split; [apply lays_app; [done|by rewrite C1|done]|]. destruct s2 as [|c s2]; [by rewrite app_nil_r|].
  by rewrite closed_app.
Qed.
Lemma block_indented ts s : lays ts s -> block ts (append_indented s).
Proof. intros H. split; [by apply lays_indented|apply closed_indented]. Qed.
Lemma block_LF ts s : block ts s -> block ts (LF :: s).
Proof. intros [H C]. split; [by apply lays_blank|]. destruct s as [|c s]; [done|].
  change (LF :: c :: s) with ([LF] ++ c :: s). by rewrite closed_app.
Qed.
Lemma block_concat {A} (f : A -> list token) (g : A -> list ascii) l :
  (forall x, x ∈ l -> block (f x) (g x)) -> block (concat (map f l)) (concat (map g l)).
Proof.
  induction l as [|x l IH]; intros H; [apply block_nil|]. simpl. apply block_app; [apply H; left|].
  apply IH. intros y Hy. apply H. by right.
Qed.
