(* ===== verification/ProtoTokens.v ===== *)
(** * Reading laid-out texts

    What the operations of the reader return on a text that lays out given tokens. *)

From stdpp Require Import pretty.
From S2P Require Import Prelude Typing ProtoReader ProtoReaderSpec ProtoElements ProtoLayout.
Open Scope nat_scope.

Definition token_head (t : token) : ascii := default LF (head (token_text t)).
Definition is_quoted (t : token) : bool := match t with TQuoted _ _ => true | _ => false end.

Lemma token_head_eq t : token_ok t -> exists s, token_text t = token_head t :: s.
Proof. intros H. unfold token_head. destruct (token_text t) as [|c s] eqn:E; [by destruct (token_text_not_nil t H)|]. by exists s. Qed.

Lemma word_char_head w : is_word w = true -> exists c s, w = c :: s /\ is_word_char c = true.
Proof. destruct w as [|c s]; [done|]. intros [_ [Hc _]%andb_true_iff]%andb_true_iff. by exists c, s. Qed.

Lemma token_head_kind t : token_ok t ->
  is_blank (token_head t) = false /\ is_char (token_head t) SLASH = false /\ is_quote (token_head t) = is_quoted t.
Proof.
  assert (Hdiff : forall c d, is_word_char c = true -> is_word_char d = false -> is_char c d = false).
  { intros c d Hc Hd. destruct (is_char c d) eqn:E; [|done]. apply Ascii.eqb_eq in E as ->. congruence. }
  destruct t as [w|c|raw value]; simpl.
  - intros H. destruct w as [|c w]; [done|]. apply andb_true_iff in H as [_ [H _]%andb_true_iff]. unfold token_head. simpl.
    destruct (is_blank c) eqn:Eb; [by rewrite blank_not_word in H|]. unfold is_quote. rewrite !Hdiff by done. done.
  - unfold token_head, is_mark. simpl. intros H.
    by destruct (is_word_char c), (is_blank c), (is_char c SLASH), (is_quote c).
  - done.
Qed.

Lemma app_snoc_cons {A} (l1 : list A) x l2 : (l1 ++ [x]) ++ l2 = l1 ++ x :: l2.
Proof. by rewrite <- app_assoc. Qed.

Section tokens.
Context (data : list ascii).
Abbreviation len := (length data).

Lemma rest_length r : pos r <= len -> length (rest data r) = len - pos r.
Proof. intros H. unfold rest. apply length_drop. Qed.

Definition stands (ts : list token) (r : Reader) : Prop := pos r <= len /\ lays ts (rest data r).

(** Standing right before the token. *)
Definition ready (t : token) (ts : list token) (r : Reader) : Prop :=
  pos r <= len /\ token_ok t /\
  exists s, rest data r = token_text t ++ s /\ separated t s = true /\ lays ts s.

Lemma ready_stands t ts r : ready t ts r -> stands (t :: ts) r.
Proof. intros (Hr & Ht & s & Hs & Hsep & H). split; [done|]. rewrite Hs. by apply (lays_cons []). Qed.

Definition reads {A} (m : M Reader A) (ts ts' : list token) (P : A -> Prop) : Prop :=
  forall r, stands ts r -> exists r' v, m r = (r', Ok v) /\ P v /\ stands ts' r'.

Lemma reads_bind {A B} (m : M Reader A) (f : A -> M Reader B) ts ts1 ts' P Q :
  reads m ts ts1 P -> (forall a, P a -> reads (f a) ts1 ts' Q) -> reads (mbind f m) ts ts' Q.
Proof.
  intros Hm Hf r Hr. destruct (Hm r Hr) as (r1 & a & E & Ha & H1). destruct (Hf a Ha r1 H1) as (r2 & b & E2 & Hb & H2).
  exists r2, b. unfold mbind, M_bind. by rewrite E.
Qed.
Lemma reads_ret {A} (a : A) ts (P : A -> Prop) : P a -> reads (mret a) ts ts P.
Proof. intros Ha r Hr. by exists r, a. Qed.
Lemma reads_weaken {A} (m : M Reader A) ts ts' (P Q : A -> Prop) : reads m ts ts' P -> (forall a, P a -> Q a) -> reads m ts ts' Q.
Proof. intros Hm H r Hr. destruct (Hm r Hr) as (r1 & a & E & Ha & H1). eauto 10. Qed.

(** ** Whitespace *)

Definition stops (s : list ascii) : bool :=
  match s with c :: _ => negb (is_blank c || is_char c SLASH) | [] => true end.

Lemma skip_blanks w : forall fuel sc r s, length w < fuel -> rest data r = w ++ s -> pos r <= len ->
  forallb is_blank w = true -> stops s = true ->
  exists r', skip_whitespace_fuel data fuel sc r = (r', Ok ()) /\ rest data r' = s /\ pos r' <= len.
Proof.
  induction w as [|b w IH]; intros [|fuel] sc r s Hf Hs Hr Hw Hstop; try (simpl in Hf; lia); cbn [skip_whitespace_fuel].
  - exists r. unfold mbind, M_bind, gets. rewrite Hs. simpl. destruct s as [|c s]; [done|]. simpl in Hstop.
    destruct (is_blank c); [done|]. destruct (is_char c SLASH); [done|]. by rewrite andb_false_r.
  - unfold mbind, M_bind, gets. rewrite Hs. simpl in Hw |- *. apply andb_true_iff in Hw as [-> Hw].
    destruct (rest_cons _ _ _ _ Hs) as [Hlt Hnext]. simpl in Hf.
    destruct (is_char b LF); (apply IH; [lia|apply Hnext|simpl; lia|done|done]).
Qed.

Lemma lays_stop ts s : lays ts s -> exists w s', s = w ++ s' /\ forallb is_blank w = true /\ stops s' = true /\
  match ts with [] => s' = [] | t :: ts' => token_ok t /\ exists s'', s' = token_text t ++ s'' /\ separated t s'' = true /\ lays ts' s'' end.
Proof.
  intros [w Hw|w t ts' s' Hw Ht Hsep H].
  - exists w, []. by rewrite app_nil_r.
  - exists w, (token_text t ++ s'). split_and!; try done; [|by eauto].
    destruct (token_head_eq t Ht) as [u Hu]. rewrite Hu. simpl. destruct (token_head_kind t Ht) as (-> & -> & _). done.
Qed.

Lemma skip_whitespace_stands sc ts r : stands ts r ->
  exists r', skip_whitespace data sc r = (r', Ok ()) /\
    match ts with [] => rest data r' = [] /\ pos r' <= len | t :: ts' => ready t ts' r' end.
Proof.
  intros [Hr H]. destruct (lays_stop _ _ H) as (w & s & Hs & Hw & Hstop & Hts).
  destruct (skip_blanks w (S len) sc r s) as (r' & E & Hrest & Hr'); [|done..|].
  { pose proof (rest_length r Hr) as Hl. rewrite Hs, length_app in Hl. lia. }
  exists r'. split; [exact E|]. destruct ts as [|t ts]; [by subst s|]. destruct Hts as (Ht & s'' & -> & Hsep & Hl).
  split_and!; try done. by eauto.
Qed.

Lemma ready_rest t ts r : ready t ts r -> exists s, rest data r = token_head t :: s.
Proof. intros (_ & Ht & s & Hs & _). destruct (token_head_eq t Ht) as [u Hu]. rewrite Hs, Hu. by exists (u ++ s). Qed.

Lemma peek_char_ready t ts r : stands (t :: ts) r -> exists r', peek_char data r = (r', Ok (token_head t)) /\ ready t ts r'.
Proof.
  intros H. destruct (skip_whitespace_stands true _ _ H) as (r' & E & Hr'). exists r'. split; [|done].
  unfold peek_char, mbind, M_bind, gets. rewrite E. destruct (ready_rest _ _ _ Hr') as [s ->]. done.
Qed.
Lemma reads_peek_char t ts : reads (peek_char data) (t :: ts) (t :: ts) (eq (token_head t)).
Proof. intros r H. destruct (peek_char_ready _ _ _ H) as (r' & E & H'). exists r', (token_head t). eauto using ready_stands. Qed.

Lemma rest_app j r s1 s2 l ls : rest data r = s1 ++ s2 -> length s1 = j -> pos r <= len ->
  rest data (mkReader (pos r + j) l ls) = s2 /\ pos r + j <= len.
Proof.
  intros H <- Hr. unfold rest in *. simpl. split; [by rewrite <- drop_drop, H, drop_app_length|].
  apply (f_equal length) in H. rewrite length_drop, length_app in H. lia.
Qed.

(** Stepping over the token that comes next. *)
Lemma ready_step t ts r l ls : ready t ts r -> stands ts (mkReader (pos r + length (token_text t)) l ls).
Proof.
  intros (Hr & Ht & s & Hs & Hsep & H). destruct (rest_app _ _ _ _ l ls Hs eq_refl Hr) as [E Hp]. split; [done|]. by rewrite E.
Qed.

Lemma reads_read_char c ts : reads (read_char data) (TChar c :: ts) ts (eq c).
Proof.
  intros r H. destruct (peek_char_ready _ _ _ H) as (r' & E & H'). eexists _, c. split; [|split; [done|by apply (ready_step (TChar c) ts r')]].
  unfold read_char, mbind, M_bind. by rewrite E.
Qed.
Lemma reads_expect b ts : b = true -> reads (expect b) ts ts (fun _ => True).
Proof. intros ->. by apply reads_ret. Qed.
Lemma reads_require c ts : reads (require data c) (TChar c :: ts) ts (fun _ => True).
Proof. eapply reads_bind; [apply reads_read_char|]. intros ? <-. apply reads_expect, Ascii.eqb_refl. Qed.
Lemma reads_peek_is c ts : reads (peek_is data c) (TChar c :: ts) ts (eq true).
Proof.
  intros r H. destruct (peek_char_ready _ _ _ H) as (r' & E & H'). eexists _, true.
  split; [|split; [done|by apply (ready_step (TChar c) ts r')]].
  unfold peek_is, mbind, M_bind. rewrite E. unfold token_head. simpl. unfold is_char. by rewrite Ascii.eqb_refl.
Qed.
Lemma reads_peek_is_not c t ts : is_char (token_head t) c = false -> reads (peek_is data c) (t :: ts) (t :: ts) (eq false).
Proof.
  intros Hc. eapply reads_bind; [apply reads_peek_char|]. intros ? <-. rewrite Hc. by apply reads_ret.
Qed.

(** ** Words *)

Lemma span_word_app w s : forallb is_word_char w = true -> starts_word s = false -> span_word (w ++ s) = w.
Proof.
  induction w as [|c w IH]; simpl.
  - intros _ H. destruct s as [|c s]; [done|]. simpl in *. by rewrite H.
  - intros [-> Hw]%andb_true_iff Hs. by rewrite IH.
Qed.

Lemma reads_read_word w ts : reads (read_word data) (TWord w :: ts) ts (eq (of_text w)).
Proof.
  intros r H. destruct (skip_whitespace_stands true _ _ H) as (r' & E & H'). pose proof H' as H1.
  destruct H' as (Hr & Ht & s & Hs & Hsep & Hl). simpl in Ht, Hs, Hsep. apply andb_true_iff in Ht as [Hne Hall].
  apply negb_true_iff in Hsep. eexists _, (of_text w). split; [|split; [done|by apply (ready_step (TWord w) ts r')]].
  unfold read_word, mbind, M_bind, gets. rewrite E, Hs. cbv zeta. rewrite span_word_app by done.
  unfold advance, modify, expect. by rewrite Hne.
Qed.

Lemma word_head_not w c : is_word w = true -> is_word_char c = false -> is_char (token_head (TWord w)) c = false.
Proof.
  intros (d & s & -> & Hd)%word_char_head Hc. unfold token_head. simpl.
  destruct (is_char d c) eqn:E; [|done]. apply Ascii.eqb_eq in E as ->. congruence.
Qed.

Lemma stands_ok t ts r : stands (t :: ts) r -> token_ok t.
Proof. intros [_ H]. by inversion H. Qed.
Lemma reads_ok {A} (m : M Reader A) t ts ts' P : (token_ok t -> reads m (t :: ts) ts' P) -> reads m (t :: ts) ts' P.
Proof. intros H r Hr. apply H; [by eapply stands_ok|done]. Qed.

Lemma reads_read_name w ts : reads (read_name data) (TWord w :: ts) ts (eq (of_text w)).
Proof.
  apply reads_ok. intros Hw. eapply reads_bind; [apply reads_peek_char|]. intros ? <-.
  rewrite !word_head_not by done. apply reads_read_word.
Qed.

(** ** Quoted strings *)

Lemma escaped_char_read e c r s : escaped_char e c = true -> rest data r = e :: s ->
  exists l, read_escape data r = (mkReader (pos r + 1) l (line_start r), Ok c).
Proof.
  intros He Hs. exists (line r). unfold read_escape, mbind, M_bind, gets. rewrite Hs. unfold escaped_char in He.
  destruct (escape_char e) as [d|] eqn:Ed; [apply Ascii.eqb_eq in He as ->; done|].
  apply andb_true_iff in He as [He Hc]. apply Ascii.eqb_eq in Hc as ->.
  apply orb_true_iff in He as [[He|He]%orb_true_iff|He]; apply Ascii.eqb_eq in He as ->; done.
Qed.

Lemma read_quoted_raw raw value : quoted raw value -> forall fuel r s t acc, length raw < fuel ->
  rest data r = raw ++ QUOTE :: s -> pos r <= len ->
  lays t s -> (exists t0 ts, t = t0 :: ts /\ is_quoted t0 = false) ->
  exists r', read_quoted_fuel data fuel QUOTE acc r = (r', Ok (of_text (acc ++ value))) /\ stands t r'.
Proof.
  induction 1 as [|c raw value Hc Hq IH|e c raw value He Hq IH]; intros [|fuel] r s t acc Hf Hs Hr Ht Hnext;
    try (simpl in Hf; lia); cbn [read_quoted_fuel]; unfold mbind at 1, M_bind at 1, gets at 1; rewrite Hs; simpl.
  - destruct (rest_cons _ _ _ _ Hs) as [Hlt Hn]. destruct Hnext as (t0 & ts & -> & Hq).
    destruct (peek_char_ready t0 ts (mkReader (pos r + 1) (line r) (line_start r))) as (r' & E & H').
    { split; [simpl; lia|]. by rewrite Hn. }
    exists r'. unfold mbind, M_bind, advance, modify. rewrite E. pose proof (proj1 (proj2 H')) as Hok.
    destruct (token_head_kind t0 Hok) as (_ & _ & ->). rewrite Hq, app_nil_r. eauto using ready_stands.
  - destruct (rest_cons _ _ _ _ Hs) as [Hlt Hn]. unfold plain_char in Hc. apply negb_true_iff, orb_false_iff in Hc as [Hc HLF].
    apply orb_false_iff in Hc as [Hquote Hback]. unfold mbind, M_bind, advance, modify. rewrite Hquote, Hback.
    unfold mret, M_ret. rewrite HLF. rewrite <- (app_snoc_cons acc c value).
    apply (IH fuel _ s t); [simpl in Hf; lia|apply Hn|simpl; lia|done|done].
  - destruct (rest_cons _ _ _ _ Hs) as [Hlt Hn]. unfold mbind, M_bind, advance, modify.
    destruct (escaped_char_read e c (mkReader (pos r + 1) (line r) (line_start r)) (raw ++ QUOTE :: s) He) as [l ->]; [apply Hn|].
    simpl. destruct (rest_cons _ _ _ _ (Hn l (line_start r))) as [Hlt2 Hn2]. simpl in Hlt2. rewrite <- (app_snoc_cons acc c value).
    destruct (is_char c LF); (apply (IH fuel _ s t); [simpl in Hf; lia|apply Hn2|simpl; lia|done|done]).
Qed.

Lemma reads_read_quoted_string raw value t ts : is_quoted t = false ->
  reads (read_quoted_string data) (TQuoted raw value :: t :: ts) (t :: ts) (eq (of_text value)).
Proof.
  intros Hq r H. destruct (peek_char_ready _ _ _ H) as (r' & E & H'). destruct H' as (Hr & Ht & s & Hs & _ & Hl).
  simpl in Ht, Hs. rewrite <- app_assoc in Hs. simpl in Hs. destruct (rest_cons _ _ _ _ Hs) as [Hlt Hn].
  destruct (read_quoted_raw raw value Ht (S len) (mkReader (pos r' + 1) (line r') (line_start r')) s (t :: ts) [])
    as (r2 & E2 & H2); [|apply Hn|simpl; lia|done|by eauto|].
  { pose proof (rest_length r' Hr) as Hlen. rewrite Hs in Hlen. simpl in Hlen. rewrite length_app in Hlen. lia. }
  exists r2, (of_text value). split; [|done]. unfold read_quoted_string, read_char, mbind, M_bind. rewrite E.
  unfold advance, modify, mret, M_ret. exact E2.
Qed.
Lemma reads_read_string raw value t ts : is_quoted t = false ->
  reads (read_string data) (TQuoted raw value :: t :: ts) (t :: ts) (eq (of_text value)).
Proof. intros Hq. eapply reads_bind; [apply reads_peek_char|]. intros ? <-. by apply reads_read_quoted_string. Qed.
Lemma reads_read_string_word w ts : reads (read_string data) (TWord w :: ts) ts (eq (of_text w)).
Proof.
  apply reads_ok. intros Hw. eapply reads_bind; [apply reads_peek_char|]. intros ? <-.
  destruct (token_head_kind _ Hw) as (_ & _ & ->). apply reads_read_word.
Qed.

(** ** Documentation and the end *)

Lemma documentation_step ts r : stands ts r -> exists r', read_documentation data r = (r', Ok ""%string) /\
  match ts with [] => rest data r' = [] /\ pos r' <= len | t :: ts' => ready t ts' r' end.
Proof.
  intros H. destruct (skip_whitespace_stands false _ _ H) as (r' & E & H').
  exists r'. unfold read_documentation. cbn [read_documentation_fuel]. unfold mbind, M_bind, gets. rewrite E.
  destruct ts as [|t ts].
  - destruct H' as [Hrest Hr]. by rewrite Hrest.
  - destruct (ready_rest _ _ _ H') as [s Hs]. pose proof H' as (Hr & Ht & Hrest). rewrite Hs.
    by destruct (token_head_kind t Ht) as (_ & -> & _).
Qed.
Lemma reads_read_documentation ts : reads (read_documentation data) ts ts (eq ""%string).
Proof.
  intros r H. destruct (documentation_step ts r H) as (r' & E & H'). exists r', ""%string. split_and!; try done.
  destruct ts; [|by apply ready_stands]. destruct H' as [Hrest Hr]. split; [done|]. rewrite Hrest. by apply (lays_nil []).
Qed.

Lemma exhausted_end r : rest data r = [] -> pos r <= len -> exhausted data r = (r, Ok true).
Proof.
  intros Hrest Hr. unfold exhausted, gets. f_equal. f_equal. apply Nat.eqb_eq.
  pose proof (rest_length r Hr) as Hl. rewrite Hrest in Hl. simpl in Hl. lia.
Qed.
Lemma exhausted_more t ts r : ready t ts r -> exhausted data r = (r, Ok false).
Proof.
  intros H. destruct (ready_rest _ _ _ H) as [s Hs]. destruct H as [Hr _]. unfold exhausted, gets. f_equal. f_equal.
  apply Nat.eqb_neq. pose proof (rest_length r Hr) as Hl. rewrite Hs in Hl. simpl in Hl. lia.
Qed.

Lemma lays_unblank ts b s : is_blank b = true -> lays ts (b :: s) -> lays ts s.
Proof.
  intros Hb H. inversion H as [w Hw Ets Es|w t ts' s' Hw Ht Hsep Hl Ets Es]; subst.
  - apply lays_nil. by apply andb_true_iff in Hw as [_ Hw].
  - destruct w as [|b' w].
    + destruct (token_head_eq t Ht) as [u Hu]. rewrite Hu in Es. simpl in Es. injection Es as Hc _.
      destruct (token_head_kind t Ht) as [Hn _]. congruence.
    + simpl in Es. injection Es as -> <-. apply lays_cons; try done. by apply andb_true_iff in Hw as [_ Hw].
Qed.
Lemma lays_not_slash t ts c s : lays (t :: ts) (c :: s) -> is_char c SLASH = false.
Proof.
  intros H. inversion H as [|w t' ts' s' Hw Ht Hsep Hl Ets Es]; subst. destruct w as [|b w].
  - destruct (token_head_eq t Ht) as [u Hu]. rewrite Hu in Es. simpl in Es. injection Es as <- _.
    by destruct (token_head_kind t Ht) as (_ & ? & _).
  - simpl in Es. injection Es as -> _. apply andb_true_iff in Hw as [Hb _]. unfold is_blank in Hb.
    rewrite !orb_true_iff in Hb. destruct Hb as [[[Hb|Hb]|Hb]|Hb]; apply Ascii.eqb_eq in Hb as ->; done.
Qed.

Lemma find_trailing_none t ts s : forall r, rest data r = s -> pos r <= len -> lays (t :: ts) s ->
  exists r', find_trailing s r = (r', Ok TrailingOther) /\ stands (t :: ts) r'.
Proof.
  induction s as [|c s IH]; intros r Hs Hr H.
  { inversion H as [|w t' ts' s' Hw Ht Hsep Hl Ets Es]; subst. exfalso. apply app_eq_nil in Es as [_ [Es _]%app_eq_nil].
    by apply (token_text_not_nil t). }
  simpl. destruct (is_char c SPACE || is_char c TAB) eqn:E.
  - destruct (rest_cons _ _ _ _ Hs) as [Hlt Hn]. unfold mbind, M_bind, advance, modify.
    apply IH; [apply Hn|simpl; lia|]. apply (lays_unblank _ c); [|done]. unfold is_blank. by rewrite E.
  - rewrite (lays_not_slash _ _ _ _ H). exists r. split; [done|]. split; [done|]. by rewrite Hs.
Qed.
Lemma reads_try_append d t ts : reads (try_append_trailing_documentation data d) (t :: ts) (t :: ts) (eq d).
Proof.
  intros r [Hr H]. destruct (find_trailing_none t ts _ r eq_refl Hr H) as (r' & E & H'). exists r', d.
  split_and!; try done. unfold try_append_trailing_documentation, mbind, M_bind, gets. by rewrite E.
Qed.
End tokens.

(** ** Numbers *)

Definition is_digit_char (c : ascii) : bool := in_range "0" "9" c.

Lemma digit_char_facts c : is_digit_char c = true ->
  is_word_char c = true /\ is_space c = false /\ Ascii.eqb c "-"%char = false /\ Ascii.eqb c "+"%char = false /\
  is_char c "x" = false /\ is_char c "X" = false.
Proof.
  intros H. assert (Hw : is_word_char c = true).
  { unfold is_word_char. unfold is_digit_char in H. by rewrite H, !orb_true_r. }
  split; [done|]. destruct c as [[] [] [] [] [] [] [] []]; try discriminate H; done.
Qed.

Lemma pretty_N_char_digit n : (n < 10)%N -> is_digit_char (pretty_N_char n) = true /\ digit_of (pretty_N_char n) = Some (Z.of_N n).
Proof.
  intros H. assert (Hn : n ∈ [0;1;2;3;4;5;6;7;8;9]%N).
  { destruct n as [|p]; [set_solver|]. do 4 (destruct p as [p|p|]; try (exfalso; lia); try set_solver). }
  repeat (apply elem_of_cons in Hn as [->|Hn]; [done|]). by apply not_elem_of_nil in Hn.
Qed.

Lemma to_text_app s1 s2 : to_text (s1 +:+ s2) = to_text s1 ++ to_text s2.
Proof. unfold to_text. induction s1 as [|c s1 IH]; simpl; [done|]. by rewrite IH. Qed.
Lemma of_to_text s : of_text (to_text s) = s.
Proof. apply String.string_of_list_ascii_of_string. Qed.
Lemma to_of_text t : to_text (of_text t) = t.
Proof. apply String.list_ascii_of_string_of_list_ascii. Qed.

Lemma pretty_N_go_spec x : (0 < x)%N -> forall s,
  (exists ds, ds ≠ [] /\ to_text (pretty_N_go x s) = ds ++ to_text s /\ forallb is_digit_char ds = true) /\
  (forall b, parse_digits 0 b (pretty_N_go x s) = parse_digits (Z.of_N x) true s).
Proof.
  induction (N.lt_wf_0 x) as [x _ IH]. intros Hx s. rewrite pretty_N_go_step by done.
  assert (Hm : (x mod 10 < 10)%N) by (apply N.mod_lt; done). destruct (pretty_N_char_digit _ Hm) as [Hd Hv].
  assert (Hdiv : x = (10 * (x / 10) + x mod 10)%N) by (apply N.div_mod; done).
  destruct (decide (x / 10 = 0)%N) as [E|E].
  - rewrite E, pretty_N_go_0. split.
    + exists [pretty_N_char (x mod 10)]. simpl. by rewrite Hd.
    + intros b. simpl. rewrite Hv. f_equal. rewrite E in Hdiv. lia.
  - destruct (IH (x / 10)%N) with (s := String (pretty_N_char (x mod 10)) s) as [(ds & Hne & Ht & Hall) Hp].
    { apply N.div_lt; lia. } { lia. } split.
    + exists (ds ++ [pretty_N_char (x mod 10)]). split_and!.
      * by intros [_ ?]%app_eq_nil.
      * rewrite Ht. rewrite <- app_assoc. done.
      * rewrite forallb_app, Hall. simpl. by rewrite Hd.
    + intros b. rewrite Hp. cbn [parse_digits]. rewrite Hv. f_equal. lia.
Qed.

Lemma pretty_pos p : exists c ds, to_text (pretty (N.pos p)) = c :: ds /\ forallb is_digit_char (c :: ds) = true /\
  forall b, parse_digits 0 b (pretty (N.pos p)) = Some (Z.pos p).
Proof.
  destruct (pretty_N_go_spec (N.pos p) ltac:(lia) "") as [(ds & Hne & Ht & Hall) Hp].
  assert (Hpr : pretty (N.pos p) = pretty_N_go (N.pos p) "") by done. rewrite Hpr.
  destruct ds as [|c ds]; [done|]. exists c, ds. rewrite Ht. split_and!; [apply app_nil_r|done|]. intros b. by rewrite Hp.
Qed.

Lemma digits_word ds : forallb is_digit_char ds = true -> forallb is_word_char ds = true.
Proof.
  induction ds as [|c ds IH]; [done|]. simpl. intros [Hc Hd]%andb_true_iff. rewrite IH by done.
  by destruct (digit_char_facts c Hc) as [-> _].
Qed.

Lemma show_Z_spec z : is_word (show_Z z) = true /\ has_hex_prefix (show_Z z) = false /\ py_int (pretty z) = Some z.
Proof.
  unfold show_Z. destruct z as [|p|p]; [done|..]; destruct (pretty_pos p) as (c & ds & Ht & Hall & Hp).
  - change (pretty (Z.pos p)) with (pretty (N.pos p)). rewrite Ht. pose proof Hall as [Hc Hds]%andb_true_iff.
    destruct (digit_char_facts c Hc) as (Hw & Hsp & Hm & Hpl & _). split_and!.
    + unfold is_word. rewrite digits_word by done. done.
    + unfold has_hex_prefix. destruct ds as [|d ds]; [by destruct c as [[] [] [] [] [] [] [] []]|].
      apply andb_true_iff in Hds as [Hd _]. destruct (digit_char_facts d Hd) as (_ & _ & _ & _ & -> & ->).
      by destruct c as [[] [] [] [] [] [] [] []].
    + unfold py_int. rewrite <- (of_to_text (pretty (N.pos p))) in Hp |- *. rewrite Ht in Hp |- *. simpl in Hp |- *.
      rewrite Hsp, Hm, Hpl. specialize (Hp false). exact Hp.
  - change (pretty (Z.neg p)) with ("-" +:+ pretty (N.pos p))%string. rewrite to_text_app, Ht. split_and!.
    + change (forallb is_word_char (c :: ds) = true). by apply digits_word.
    + done.
    + unfold py_int. simpl. by rewrite Hp.
Qed.

Section numbers.
Context (data : list ascii).

Lemma reads_read_int z ts : reads data (read_int data) (TWord (show_Z z) :: ts) ts (eq z).
Proof.
  eapply reads_bind; [apply reads_read_word|]. intros ? <-. destruct (show_Z_spec z) as (_ & Hh & Hp).
  rewrite to_of_text, Hh. unfold show_Z. rewrite of_to_text, Hp. by apply reads_ret.
Qed.

(** ** Types *)

Inductive DataType : Type := Named (w : list ascii) | MapOf (k v : DataType).
Fixpoint type_text (ty : DataType) : list ascii :=
  match ty with Named w => w | MapOf k v => lit "map<" ++ type_text k ++ lit ", " ++ type_text v ++ lit ">" end.
Fixpoint type_tokens (ty : DataType) : list token :=
  match ty with
  | Named w => [TWord w]
  | MapOf k v => [TWord (lit "map"); TChar "<"] ++ type_tokens k ++ [TChar ","] ++ type_tokens v ++ [TChar ">"]
  end.
Fixpoint type_ok (ty : DataType) : bool :=
  match ty with Named w => is_word w && negb (bool_decide (w = lit "map")) | MapOf k v => type_ok k && type_ok v end.
Fixpoint type_size (ty : DataType) : nat := match ty with Named w => 1 | MapOf k v => S (type_size k + type_size v) end.

Lemma lays_length ts s : lays ts s -> length ts <= length s.
Proof.
  induction 1 as [w Hw|w t ts s Hw Ht Hsep H IH]; simpl; [lia|]. rewrite !length_app.
  pose proof (token_text_not_nil t Ht). destruct (token_text t); [done|]. simpl. lia.
Qed.
Lemma stands_length ts r : stands data ts r -> length ts <= length data.
Proof. intros [Hr H%lays_length]. rewrite rest_length in H by done. lia. Qed.

Definition first_word (ty : DataType) : list ascii := match ty with Named w => w | MapOf _ _ => lit "map" end.
Lemma type_tokens_cons ty : type_tokens ty = TWord (first_word ty) :: tl (type_tokens ty).
Proof. by destruct ty. Qed.
Lemma type_size_tokens ty : type_size ty <= length (type_tokens ty).
Proof. induction ty as [w|k IHk v IHv]; simpl; [lia|]. rewrite !length_app. simpl. rewrite length_app. simpl. lia. Qed.

Lemma reads_type_by_name ty : type_ok ty = true -> forall fuel ts, type_size ty <= fuel ->
  reads data (read_data_type_by_name data fuel (of_text (first_word ty))) (tl (type_tokens ty) ++ ts) ts
    (eq (of_text (type_text ty))).
Proof.
  induction ty as [w|k IHk v IHv]; intros Hok [|fuel] ts Hf; try (simpl in Hf; lia); cbn [read_data_type_by_name].
  - simpl in *. apply andb_true_iff in Hok as [_ Hm]. apply negb_true_iff, bool_decide_eq_false in Hm.
    destruct (String.eqb_spec (of_text w) "map") as [E|_]; [|by apply reads_ret].
    exfalso. apply Hm. by rewrite <- (to_of_text w), E.
  - simpl in Hok, Hf. apply andb_true_iff in Hok as [Hk Hv]. cbn [first_word type_tokens tl app]. simpl String.eqb.
    rewrite <- !app_assoc. cbn [app].
    assert (Hinner : forall ty, (forall fuel ts, type_size ty <= fuel -> reads data
        (read_data_type_by_name data fuel (of_text (first_word ty))) (tl (type_tokens ty) ++ ts) ts (eq (of_text (type_text ty)))) ->
      type_size ty <= fuel -> forall ts,
      reads data (n ← read_word data; read_data_type_by_name data fuel n) (type_tokens ty ++ ts) ts (eq (of_text (type_text ty)))).
    { intros ty IH Hsz ts'. rewrite type_tokens_cons. cbn [app]. eapply reads_bind; [apply reads_read_word|]. intros ? <-. by apply IH. }
    eapply reads_bind; [apply reads_read_char|]. intros ? <-. eapply reads_bind; [by apply reads_expect|]. intros _ _.
    eapply reads_bind; [apply (Hinner k); [auto|lia]|]. intros ? <-.
    eapply reads_bind; [apply reads_read_char|]. intros ? <-. eapply reads_bind; [by apply reads_expect|]. intros _ _.
    rewrite <- ?app_assoc. cbn [app].
    eapply reads_bind; [apply (Hinner v); [auto|lia]|]. intros ? <-.
    eapply reads_bind; [apply reads_read_char|]. intros ? <-. eapply reads_bind; [by apply reads_expect|]. intros _ _.
    apply reads_ret. cbn [type_text]. unfold of_text, lit, to_text.
    rewrite <- (String.string_of_list_ascii_of_string ("map<" +:+ _)%string). f_equal.
    pose proof to_text_app as Ha. unfold to_text in Ha. rewrite !Ha.
    rewrite !String.list_ascii_of_string_of_list_ascii. done.
Qed.
Lemma reads_data_type_by_name ty ts : type_ok ty = true ->
  reads data (data_type_by_name data (of_text (first_word ty))) (tl (type_tokens ty) ++ ts) ts (eq (of_text (type_text ty))).
Proof.
  intros Hok r Hr. apply reads_type_by_name; [done| |done]. apply stands_length in Hr. rewrite length_app in Hr.
  pose proof (type_size_tokens ty) as Hs. rewrite type_tokens_cons in Hs. simpl in Hs. lia.
Qed.
Lemma reads_read_data_type ty ts : type_ok ty = true ->
  reads data (read_data_type data) (type_tokens ty ++ ts) ts (eq (of_text (type_text ty))).
Proof.
  intros Hok. rewrite type_tokens_cons. cbn [app]. eapply reads_bind; [apply reads_read_word|]. intros ? <-.
  by apply reads_data_type_by_name.
Qed.
End numbers.
