(* ===== verification/ProtoPrint.v ===== *)
(** * The tokens of a file and its text

    The tokens that the elements of a protobuf file consist of, the files whose text can be read
    back ([plain_file]), and that the normalised text of such a file lays out its tokens. Plain
    elements have names that are words and no documentation; options have scalar values; groups and
    options of rpcs are left out. *)

From stdpp Require Import pretty.
From S2P Require Import Prelude Typing Protobuf ProtoReader ProtoReaderSpec ProtoElements ProtoParser ProtoLayout ProtoTokens.
Open Scope nat_scope.

Definition word (s : string) : token := TWord (to_text s).
Definition is_word_str (s : string) : bool := is_word (to_text s).

(** ** Options *)

(** The tokens of an option, its string escaped or not. *)
Definition option_head_tokens (name : string) (parenthesized : bool) : list token :=
  if parenthesized then [TChar "("; word name; TChar ")"] else [word name].
Definition value_token (escaped : bool) (kind : Kind) (value : OptionValue) : token :=
  match kind, value with
  | STRING, VStr s => TQuoted (if escaped then add_slashes (to_text s) else to_text s) (to_text s)
  | _, VStr s => word s
  | _, _ => TWord []
  end.
Definition option_tokens (escaped : bool) (o : OptionElement) : list token :=
  option_head_tokens (option_name o) (option_parenthesized o) ++ [TChar "="; value_token escaped (option_kind o) (option_value o)].
Definition declaration_tokens (escaped : bool) (o : OptionElement) : list token :=
  [word "option"] ++ option_tokens escaped o ++ [TChar ";"].

(** Options whose value is a scalar that reads back as the same kind. *)
Definition simple_value (escaped : bool) (kind : Kind) (value : OptionValue) : bool :=
  match kind, value with
  | STRING, VStr s => escaped || forallb plain_char (to_text s)
  | BOOLEAN, VStr s => String.eqb s "true" || String.eqb s "false"
  | NUMBER, VStr s => is_word_str s && starts_number (token_head (word s))
  | ENUM, VStr s => is_word_str s && negb (starts_number (token_head (word s)))
                    && negb (String.eqb s "true" || String.eqb s "false")
  | _, _ => false
  end.
Definition simple_option (escaped : bool) (o : OptionElement) : bool :=
  is_word_str (option_name o) && simple_value escaped (option_kind o) (option_value o).

Fixpoint commas (l : list (list token)) : list token :=
  match l with [] => [] | [x] => x | x :: l' => x ++ TChar "," :: commas l' end.
Definition options_tokens (os : list OptionElement) : list token :=
  match os with [] => [] | _ => [TChar "["] ++ commas (map (option_tokens false) os) ++ [TChar "]"] end.

(** ** Types *)

(** The words and marks of a type. *)
Fixpoint lex (s : list ascii) : list token :=
  match s with
  | [] => []
  | c :: s' =>
      if is_word_char c then
        match lex s', starts_word s' with
        | TWord w :: ts, true => TWord (c :: w) :: ts
        | ts, _ => TWord [c] :: ts
        end
      else if is_blank c then lex s' else TChar c :: lex s'
  end.
Definition plain_type (s : string) (ty : DataType) : Prop := type_ok ty = true /\ s = of_text (type_text ty).

Lemma lex_word w s : is_word w = true -> starts_word s = false -> lex (w ++ s) = TWord w :: lex s.
Proof.
  intros [Hne Hall]%andb_true_iff Hs. induction w as [|c w IH]; [done|]. simpl in Hall.
  apply andb_true_iff in Hall as [Hc Hall]. simpl. rewrite Hc. destruct w as [|d w].
  - simpl. rewrite Hs. by destruct (lex s) as [|[] ?].
  - rewrite IH by done. simpl in Hall |- *. apply andb_true_iff in Hall as [-> _]. done.
Qed.
Lemma type_text_starts ty s : type_ok ty = true -> starts_word (type_text ty ++ s) = true.
Proof.
  destruct ty as [w|k v]; [|done]. simpl. intros [(c & w' & -> & Hc)%word_char_head _]%andb_true_iff. done.
Qed.
Lemma lex_type ty : type_ok ty = true -> forall s, starts_word s = false -> lex (type_text ty ++ s) = type_tokens ty ++ lex s.
Proof.
  induction ty as [w|k IHk v IHv]; intros Hok s Hs; simpl in Hok.
  - simpl. apply andb_true_iff in Hok as [Hw _]. by apply lex_word.
  - apply andb_true_iff in Hok as [Hk Hv]. cbn [type_text type_tokens]. rewrite <- !app_assoc.
    unfold lit. simpl. rewrite IHk by done. simpl. rewrite IHv by done. simpl. rewrite <- ?app_assoc. done.
Qed.
Lemma lex_plain s ty : plain_type s ty -> lex (to_text s) = type_tokens ty.
Proof.
  intros [Hok ->]. rewrite to_of_text. rewrite <- (app_nil_r (type_text ty)), lex_type by done. apply app_nil_r.
Qed.

Definition is_map_type (ty : DataType) : bool := match ty with MapOf _ _ => true | _ => false end.

(** ** Fields *)

Definition label_tokens (l : option Label) : list token :=
  match l with
  | Some OPTIONAL => [word "optional"] | Some REQUIRED => [word "required"]
  | Some REPEATED => [word "repeated"] | Some ONE_OF => [word "one_of"] | None => []
  end.
Definition special_options (f : FieldElement) : list OptionElement :=
  match options_with_special_values f with Ok os => os | Raise _ => [] end.
Definition field_tokens (f : FieldElement) : list token :=
  label_tokens (f_label f) ++ lex (to_text (element_type f)) ++ [word (f_name f); TChar "="; TWord (show_Z (f_tag f))] ++
  options_tokens (special_options f) ++ [TChar ";"].

(** Fields that can be declared; [keywords] are the words a declaration without a label may not
    start with. *)
Definition special_name (s : string) : bool := String.eqb s "default" || String.eqb s "json_name".
Definition plain_body (f : FieldElement) (ty : DataType) : Prop :=
  f_documentation f = ""%string /\ plain_type (element_type f) ty /\ element_type f ≠ "group"%string /\
  is_word_str (f_name f) = true /\ is_ok (options_with_special_values f) = true /\
  forallb (simple_option false) (special_options f) = true /\
  forallb (fun o => negb (special_name (option_name o))) (f_options f) = true /\
  default_value f ≠ Some ""%string /\ json_name f ≠ Some ""%string.
Definition message_keywords : list string :=
  ["option"; "reserved"; "message"; "enum"; "extend"; "oneof"; "extensions"; "required"; "optional"; "repeated"]%string.
Definition plain_label (syn : option Syntax) (l : option Label) (ty : DataType) : Prop :=
  match l with
  | Some REQUIRED => syn ≠ Some PROTO_3 /\ is_map_type ty = false
  | Some OPTIONAL | Some REPEATED => is_map_type ty = false
  | Some ONE_OF => False
  | None => (syn = Some PROTO_3 \/ is_map_type ty = true) /\ of_text (first_word ty) ∉ message_keywords
  end.
Definition plain_field (syn : option Syntax) (f : FieldElement) : Prop :=
  exists ty, plain_body f ty /\ plain_label syn (f_label f) ty.
Definition plain_one_of_field (f : FieldElement) : Prop :=
  f_label f = None /\ element_type f ≠ "option"%string /\ exists ty, plain_body f ty.

(** ** Other members *)

Definition one_of_tokens (o : OneOfElement) : list token :=
  [word "oneof"; word (o_name o); TChar "{"] ++ concat (map (declaration_tokens false) (o_options o)) ++
  concat (map field_tokens (o_fields o)) ++ [TChar "}"].
Definition plain_one_of (o : OneOfElement) : Prop :=
  is_word_str (o_name o) = true /\ o_documentation o = ""%string /\ o_groups o = [] /\
  forallb (simple_option false) (o_options o) = true /\ forall f, f ∈ o_fields o -> plain_one_of_field f.

Definition constant_tokens (c : EnumConstantElement) : list token :=
  [word (c_name c); TChar "="; TWord (show_Z (c_tag c))] ++ options_tokens (c_options c) ++ [TChar ";"].
Definition plain_constant (c : EnumConstantElement) : Prop :=
  is_word_str (c_name c) = true /\ c_name c ∉ ["option"; "reserved"]%string /\ c_documentation c = ""%string /\
  forallb (simple_option false) (c_options c) = true.

Definition reserved_value_tokens (v : RangeValue) : list token :=
  match v with
  | Name s => [TQuoted (to_text s) (to_text s)]
  | Tag z => [TWord (show_Z z)]
  | KotlinRange a b => [TWord (show_Z a); word "to"; TWord (show_Z b)]
  end.
Definition reserved_tokens (r : ReservedElement) : list token :=
  [word "reserved"] ++ commas (map reserved_value_tokens (r_values r)) ++ [TChar ";"].
Definition plain_reserved (r : ReservedElement) : Prop :=
  r_documentation r = ""%string /\ r_values r ≠ [] /\
  forall s, Name s ∈ r_values r -> forallb plain_char (to_text s) = true.

Definition extensions_value_tokens (v : RangeValue) : list token :=
  match v with
  | Name s => []
  | Tag z => [TWord (show_Z z)]
  | KotlinRange a b => [TWord (show_Z a); word "to"; if (b <? MAX_TAG_VALUE)%Z then TWord (show_Z b) else word "max"]
  end.
Definition extensions_tokens (x : ExtensionsElement) : list token :=
  [word "extensions"] ++ commas (map extensions_value_tokens (x_values x)) ++ [TChar ";"].
Definition plain_extension_value (v : RangeValue) : Prop :=
  match v with Name _ => False | Tag _ => True | KotlinRange a b => (b <= MAX_TAG_VALUE)%Z end.
Definition plain_extensions (x : ExtensionsElement) : Prop :=
  x_documentation x = ""%string /\ x_values x ≠ [] /\ forall v, v ∈ x_values x -> plain_extension_value v.

Definition extend_tokens (e : ExtendElement) : list token :=
  [word "extend"; word (e_name e); TChar "{"] ++ concat (map field_tokens (e_fields e)) ++ [TChar "}"].
Definition plain_extend (syn : option Syntax) (e : ExtendElement) : Prop :=
  is_word_str (e_name e) = true /\ e_documentation e = ""%string /\ forall f, f ∈ e_fields e -> plain_field syn f.

Definition streamed_tokens (streaming : bool) (ty : string) : list token :=
  (if streaming then [word "stream"] else []) ++ lex (to_text ty).
Definition rpc_tokens (r : RpcElement) : list token :=
  [word "rpc"; word (rpc_name r); TChar "("] ++ streamed_tokens (request_streaming r) (request_type r) ++
  [TChar ")"; word "returns"; TChar "("] ++ streamed_tokens (response_streaming r) (response_type r) ++ [TChar ")"; TChar ";"].
Definition plain_rpc_type (s : string) : Prop :=
  exists ty, plain_type s ty /\ first_word ty ≠ lit "stream".
Definition plain_rpc (r : RpcElement) : Prop :=
  is_word_str (rpc_name r) = true /\ rpc_documentation r = ""%string /\ rpc_options r = [] /\
  plain_rpc_type (request_type r) /\ plain_rpc_type (response_type r).
Definition service_tokens (s : ServiceElement) : list token :=
  [word "service"; word (s_name s); TChar "{"] ++ concat (map (declaration_tokens false) (s_options s)) ++
  concat (map rpc_tokens (s_rpcs s)) ++ [TChar "}"].
Definition plain_service (s : ServiceElement) : Prop :=
  is_word_str (s_name s) = true /\ s_documentation s = ""%string /\
  forallb (simple_option false) (s_options s) = true /\ forall r, r ∈ s_rpcs s -> plain_rpc r.

(** ** Messages, enums and files *)

Fixpoint element_tokens (e : TypeElement) : list token :=
  match e with
  | MessageElement _ name _ nested_types options reserveds fields one_ofs extensions _ =>
      [word "message"; word name; TChar "{"] ++ concat (map reserved_tokens reserveds) ++
      concat (map (declaration_tokens true) options) ++ concat (map field_tokens fields) ++
      concat (map one_of_tokens one_ofs) ++ concat (map extensions_tokens extensions) ++
      (fix messages (l : list TypeElement) : list token :=
         match l with
         | [] => []
         | e :: l' => (if is_message_element e then element_tokens e else []) ++ messages l'
         end) nested_types ++
      (fix enums (l : list TypeElement) : list token :=
         match l with
         | [] => []
         | e :: l' => (if is_message_element e then [] else element_tokens e) ++ enums l'
         end) nested_types ++ [TChar "}"]
  | EnumElement _ name _ options constants =>
      [word "enum"; word name; TChar "{"] ++ concat (map (declaration_tokens false) options) ++
      concat (map constant_tokens constants) ++ [TChar "}"]
  end.

Fixpoint plain_element (syn : option Syntax) (e : TypeElement) : Prop :=
  match e with
  | MessageElement _ name documentation nested_types options reserveds fields one_ofs extensions groups =>
      is_word_str name = true /\ documentation = ""%string /\ groups = [] /\
      forallb (simple_option true) options = true /\ (forall r, r ∈ reserveds -> plain_reserved r) /\
      (forall f, f ∈ fields -> plain_field syn f) /\ (forall o, o ∈ one_ofs -> plain_one_of o) /\
      (forall x, x ∈ extensions -> plain_extensions x) /\
      (fix all (l : list TypeElement) : Prop :=
         match l with [] => True | e :: l' => plain_element syn e /\ all l' end) nested_types
  | EnumElement _ name documentation options constants =>
      is_word_str name = true /\ documentation = ""%string /\
      forallb (simple_option false) options = true /\ forall c, c ∈ constants -> plain_constant c
  end.

Definition messages_first (l : list TypeElement) : list TypeElement :=
  List.filter is_message_element l ++ List.filter (fun e => negb (is_message_element e)) l.

Definition import_tokens (public : bool) (f : string) : list token :=
  [word "import"] ++ (if public then [word "public"] else []) ++ [TQuoted (to_text f) (to_text f); TChar ";"].
Definition file_tokens (f : ProtoFileElement) : list token :=
  (match file_syntax f with
   | Some s => [word "syntax"; TChar "="; TQuoted (to_text (syntax_str s)) (to_text (syntax_str s)); TChar ";"]
   | None => []
   end) ++
  (match file_package f with Some p => [word "package"; word p; TChar ";"] | None => [] end) ++
  concat (map (import_tokens false) (file_imports f)) ++ concat (map (import_tokens true) (file_public_imports f)) ++
  concat (map (declaration_tokens true) (file_options f)) ++ concat (map element_tokens (messages_first (file_types f))) ++
  concat (map extend_tokens (file_extends f)) ++ concat (map service_tokens (file_services f)).

Record plain_file (f : ProtoFileElement) : Prop := {
  plain_package : forall p, file_package f = Some p -> is_word_str p = true;
  plain_imports : forall i, i ∈ file_imports f ++ file_public_imports f ->
    forallb plain_char (to_text i) = true /\ i ≠ "public"%string;
  plain_options : forallb (simple_option true) (file_options f) = true;
  plain_types : forall e, e ∈ file_types f -> plain_element (file_syntax f) e;
  distinct_types : NoDup (map element_name (file_types f));
  plain_extends : forall e, e ∈ file_extends f -> plain_extend (file_syntax f) e;
  plain_services : forall s, s ∈ file_services f -> plain_service s;
  distinct_services : NoDup (map s_name (file_services f));
}.

(** ** Texts lay out tokens *)

(** Printing succeeds with a text, or a block of lines, that lays out the tokens. *)
Definition laid (show : result (list ascii)) (ts : list token) : Prop := exists s, show = Ok s /\ lays ts s.
Definition printed (show : result (list ascii)) (ts : list token) : Prop := exists s, show = Ok s /\ block ts s.

(** Lays out the marks, words and blanks of a concrete text from the left. *)
Ltac lay :=
  repeat first
    [ apply lays_blank; [reflexivity|]
    | apply lays_char; [reflexivity|]
    | apply lays_quoted; [assumption|]
    | apply lays_word; [assumption || reflexivity | reflexivity |] ];
  try (by apply lays_nil).

Lemma quoted_plain_text s : forallb plain_char s = true -> quoted s s.
Proof.
  induction s as [|c s IH]; intros H; [constructor|]. simpl in H. apply andb_true_iff in H as [Hc H]. constructor; auto.
Qed.
Lemma quoted_add_slashes_char c raw value : quoted raw value -> quoted (add_slashes_char c ++ raw) (c :: value).
Proof.
  intros IH. unfold add_slashes_char.
  repeat match goal with
  | |- context [if is_char c ?d then _ else _] =>
      let E := fresh "E" in
      destruct (is_char c d) eqn:E; [apply Ascii.eqb_eq in E; subst c; apply quoted_escape; [reflexivity|exact IH]|]
  end.
  apply quoted_plain; [|exact IH]. unfold plain_char.
  repeat match goal with H : is_char c _ = false |- _ => rewrite H; clear H end. done.
Qed.
Lemma quoted_add_slashes s : quoted (add_slashes s) s.
Proof. induction s as [|c s IH]; [constructor|]. by apply quoted_add_slashes_char. Qed.

Lemma value_token_ok escaped kind value : simple_value escaped kind value = true -> token_ok (value_token escaped kind value).
Proof.
  destruct kind, value as [s| | |]; simpl; try done.
  - intros H. destruct escaped; [apply quoted_add_slashes|by apply quoted_plain_text].
  - intros [H|H]%orb_true_iff; apply String.eqb_eq in H as ->; done.
  - by intros [H _]%andb_true_iff.
  - by intros [[H _]%andb_true_iff _]%andb_true_iff.
Qed.
Lemma lower_word_true s : String.eqb s "true" || String.eqb s "false" = true -> map lower_ascii (to_text s) = to_text s.
Proof. intros [H|H]%orb_true_iff; apply String.eqb_eq in H as ->; done. Qed.

(** The text of an option of either kind of printing. *)
Definition option_text (escaped : bool) (o : OptionElement) : list ascii :=
  formatted_name (option_name o) (option_parenthesized o) ++ lit " = " ++ token_text (value_token escaped (option_kind o) (option_value o)).

Lemma option_text_lays escaped o : simple_option escaped o = true -> lays (option_tokens escaped o) (option_text escaped o).
Proof.
  intros [Hn Hv]%andb_true_iff. unfold option_tokens, option_text.
  assert (Hval : lays [value_token escaped (option_kind o) (option_value o)] (token_text (value_token escaped (option_kind o) (option_value o)))).
  { rewrite <- (app_nil_r (token_text _)). apply (lays_cons []); [done|by apply value_token_ok| |by apply lays_nil].
    by destruct (value_token _ _ _). }
  unfold option_head_tokens, formatted_name. destruct (option_parenthesized o); cbn [app]; rewrite <- ?app_assoc.
  - unfold lit, to_text at 1 3. simpl. lay. done.
  - unfold word. apply lays_word; [done|done|]. unfold lit. simpl. lay. done.
Qed.

Lemma option_to_schema_text o : simple_option false o = true -> option_to_schema o = Ok (option_text false o).
Proof.
  intros [_ Hv]%andb_true_iff. destruct o as [n k [s|l|d|o'] p]; destruct k; try done; simpl in *; unfold option_text; simpl.
  by rewrite lower_word_true.
Qed.
Lemma option_element_string_text o : simple_option true o = true ->
  option_element_string o = Ok (lit "option " ++ option_text true o ++ lit ";" ++ [LF]).
Proof.
  intros [_ Hv]%andb_true_iff. destruct o as [n k [s|l|d|o'] p]; destruct k; try done;
    unfold option_element_string, option_text; simpl in *; rewrite ?lower_word_true by done; done.
Qed.
Lemma lays_end_mark ts s c : is_mark c = true -> lays ts s -> lays (ts ++ [TChar c]) (s ++ [c] ++ [LF]).
Proof.
  intros Hc H. apply lays_app; [done| |by lay; apply lays_char, lays_nil].
  apply orb_true_iff. right. simpl. unfold is_mark in Hc. by destruct (is_word_char c).
Qed.
Lemma printed_declaration escaped o (show : result (list ascii)) : simple_option escaped o = true ->
  show = Ok (lit "option " ++ option_text escaped o ++ lit ";" ++ [LF]) -> printed show (declaration_tokens escaped o).
Proof.
  intros Ho ->. eexists. split; [done|]. split.
  - unfold declaration_tokens. apply (lays_word (to_text "option")); [done|done|]. apply lays_blank; [done|].
    by apply lays_end_mark, option_text_lays.
  - rewrite !app_assoc. by apply closed_snoc.
Qed.
Lemma printed_option_string o : simple_option true o = true -> printed (option_element_string o) (declaration_tokens true o).
Proof. intros H. by apply printed_declaration, option_element_string_text. Qed.
Lemma printed_option_declaration o : simple_option false o = true -> printed (to_schema_declaration o) (declaration_tokens false o).
Proof. intros H. apply printed_declaration; [done|]. unfold to_schema_declaration. by rewrite option_to_schema_text. Qed.

(** ** Lists of members *)

Section members.
Context {A : Type} (show : A -> result (list ascii)) (toks : A -> list token).

Lemma map_res_printed l : (forall x, x ∈ l -> printed (show x) (toks x)) ->
  exists items, map_res show l = Ok items /\ Forall2 (fun x i => block (toks x) i) l items.
Proof.
  induction l as [|x l IH]; intros H; [by exists []|]. destruct (H x ltac:(left)) as (s & Hs & Hb).
  destruct IH as (items & Hi & Hf); [intros y Hy; apply H; by right|]. exists (s :: items). simpl. rewrite Hs. simpl.
  rewrite Hi. auto.
Qed.
Lemma block_items l items (f : list ascii -> list ascii) : Forall2 (fun x i => block (toks x) i) l items ->
  (forall ts s, block ts s -> block ts (f s)) -> block (concat (map toks l)) (concat (map f items)).
Proof. intros H Hf. induction H as [|x i l items Hx H IH]; [apply block_nil|]. simpl. apply block_app; auto. Qed.

Lemma printed_concat l : (forall x, x ∈ l -> printed (show x) (toks x)) ->
  exists items, map_res show l = Ok items /\ block (concat (map toks l)) (concat items).
Proof.
  intros H. destruct (map_res_printed l H) as (items & Hi & Hf). exists items. split; [done|].
  rewrite <- (map_id items). by apply block_items.
Qed.
Lemma printed_indented l : (forall x, x ∈ l -> printed (show x) (toks x)) -> printed (indented show l) (concat (map toks l)).
Proof.
  intros H. destruct (map_res_printed l H) as (items & Hi & Hf). unfold indented. rewrite Hi. eexists. split; [done|].
  apply block_items; [done|]. intros ts s [Hs _]. by apply block_indented.
Qed.
Lemma printed_section l : (forall x, x ∈ l -> printed (show x) (toks x)) -> printed (section show l) (concat (map toks l)).
Proof.
  intros H. destruct (printed_indented l H) as (s & Hs & Hb). destruct l as [|x l].
  - exists []. split; [done|apply block_nil].
  - exists (LF :: s). split; [|by apply block_LF]. unfold section. by rewrite Hs.
Qed.
End members.

(** ** Options in brackets *)

Lemma lays_indented_items (toks : list (list token)) items : Forall2 lays toks items ->
  block (commas toks) (indented_items items).
Proof.
  induction 1 as [|ts s toks items Hs H IH]; [apply block_nil|]. destruct H as [|ts' s' toks items Hs' H]; simpl in *.
  - by apply block_indented.
  - replace (ts ++ TChar "," :: _) with ((ts ++ [TChar ","]) ++ match toks with [] => ts' | _ => ts' ++ TChar "," :: commas toks end)
      by (rewrite <- app_assoc; by destruct toks).
    apply block_app; [|by destruct toks]. apply block_indented. apply lays_app; [done|by rewrite orb_true_r|].
    unfold lit. simpl. by apply lays_char, lays_nil.
Qed.

Lemma lays_bracketed toks items : Forall2 lays toks items -> toks ≠ [] ->
  lays ([TChar "["] ++ commas toks ++ [TChar "]"]) (bracketed items).
Proof.
  intros H Hne. destruct H as [|ts s toks items Hs H]; [done|]. unfold bracketed. destruct H as [|ts' s' toks items Hs' H].
  - cbn [commas]. unfold lit. simpl. apply lays_char; [done|]. apply lays_app; [done|by rewrite orb_true_r|]. by apply lays_char, lays_nil.
  - assert (Hb : block (commas (ts :: ts' :: toks)) (indented_items (s :: s' :: items))).
    { apply lays_indented_items. by repeat constructor. }
    destruct Hb as [Hl Hc]. apply (lays_char "["); [done|]. apply lays_blank; [done|].
    apply lays_app; [done|by rewrite Hc|]. by apply lays_char, lays_nil.
Qed.

Lemma options_laid os : forallb (simple_option false) os = true -> laid (optional_options os) (options_tokens os).
Proof.
  intros Hos. unfold optional_options, options_tokens. destruct os as [|o os]; [exists []; by split; [|apply lays_nil]|].
  assert (Hm : map_res option_to_schema (o :: os) = Ok (map (option_text false) (o :: os)) /\
    Forall2 lays (map (option_tokens false) (o :: os)) (map (option_text false) (o :: os))).
  { generalize dependent (o :: os). intros l. induction l as [|x l IH]; [done|]. simpl. intros [Hx Hl]%andb_true_iff.
    destruct (IH Hl) as [Hm Hf]. rewrite option_to_schema_text by done. simpl. rewrite Hm. split; [done|].
    constructor; [by apply option_text_lays|done]. }
  destruct Hm as [Hm Hf]. unfold append_options. rewrite Hm. eexists. split; [done|].
  apply (lays_blank " "); [done|]. by apply lays_bracketed.
Qed.

(** ** Members *)

Lemma lays_type ty : type_ok ty = true -> forall ts s, starts_word s = false -> lays ts s ->
  lays (type_tokens ty ++ ts) (type_text ty ++ s).
Proof.
  induction ty as [w|k IHk v IHv]; intros Hok ts s Hs H; simpl in Hok.
  - apply andb_true_iff in Hok as [Hw _]. by apply lays_word.
  - apply andb_true_iff in Hok as [Hk Hv]. cbn [type_text type_tokens]. rewrite <- !app_assoc.
    apply (lays_word (lit "map")); [done|done|]. apply lays_char; [done|]. apply IHk; [done|done|]. simpl.
    apply lays_char; [done|]. apply lays_blank; [done|]. rewrite <- ?app_assoc. apply IHv; [done|done|]. by apply lays_char.
Qed.
Lemma lays_plain_type s ty ts t : plain_type s ty -> starts_word t = false -> lays ts t ->
  lays (lex (to_text s) ++ ts) (to_text s ++ t).
Proof. intros Hp. rewrite (lex_plain _ _ Hp). destruct Hp as [Hok ->]. rewrite to_of_text. by apply lays_type. Qed.
Lemma lays_label l ts s : lays ts s -> lays (label_tokens l ++ ts) (label_text l ++ s).
Proof.
  intros H. assert (Hw : forall w, is_word (to_text w) = true -> lays (word w :: ts) (to_text w ++ SPACE :: s)).
  { intros w Hw. apply lays_word; [done|done|]. by apply lays_blank. }
  destruct l as [[]|]; [apply (Hw "optional"%string)|apply (Hw "required"%string)|apply (Hw "repeated"%string)|apply (Hw "one_of"%string)|]; done.
Qed.
Lemma lays_number z ts s : starts_word s = false -> lays ts s -> lays (TWord (show_Z z) :: ts) (show_Z z ++ s).
Proof. intros Hs H. apply lays_word; [apply show_Z_spec|done|done]. Qed.

(** The end of a line: options, a semicolon and a line feed. *)
Lemma lays_options_end os : forallb (simple_option false) os = true ->
  exists s, optional_options os = Ok s /\ starts_word (s ++ lit ";" ++ [LF]) = false /\
    lays (options_tokens os ++ [TChar ";"]) (s ++ lit ";" ++ [LF]).
Proof.
  intros H. destruct (options_laid os H) as (s & Hs & Hl). exists s. split; [done|]. split; [|by apply lays_end_mark].
  unfold optional_options in Hs. destruct os; [by injection Hs as <-|]. destruct (append_options _); [|done]. by injection Hs as <-.
Qed.
(** Texts that end in a line feed. *)
Definition ends_line (s : list ascii) : Prop := exists s', s = s' ++ [LF].
Lemma ends_line_closed s : ends_line s -> closed s = true.
Proof. intros [s' ->]. by apply closed_snoc. Qed.
Lemma ends_line_app s1 s2 : ends_line s2 -> ends_line (s1 ++ s2).
Proof. intros [s' ->]. exists (s1 ++ s'). apply app_assoc. Qed.
Lemma ends_line_cons c s : ends_line s -> ends_line (c :: s).
Proof. apply (ends_line_app [c]). Qed.
Lemma ends_line_LF : ends_line [LF].
Proof. by exists []. Qed.
Ltac ends_line :=
  apply ends_line_closed; repeat first [apply ends_line_LF | apply ends_line_app | apply ends_line_cons].

Lemma field_printed f ty : plain_body f ty -> printed (field_to_schema f) (field_tokens f).
Proof.
  intros (Hd & Hty & _ & Hn & Hok & Hs & _). unfold field_to_schema, field_tokens, special_options in *.
  destruct (options_with_special_values f) as [os|]; [|done]. destruct (lays_options_end os Hs) as (s & Ho & Hw & Hl). simpl.
  rewrite Ho, Hd. simpl. eexists. split; [done|]. split; [|by ends_line].
  apply lays_label. eapply lays_plain_type; [done|done|]. apply lays_blank; [done|].
  apply lays_word; [done|done|]. do 3 (lay). by apply lays_number.
Qed.
Lemma plain_field_printed syn f : plain_field syn f -> printed (field_to_schema f) (field_tokens f).
Proof. intros (ty & Hb & _). by apply (field_printed f ty). Qed.

Lemma constant_printed c : plain_constant c -> printed (constant_to_schema c) (constant_tokens c).
Proof.
  intros (Hn & _ & Hd & Hs). unfold constant_to_schema, constant_tokens. destruct (lays_options_end _ Hs) as (s & Ho & Hw & Hl).
  rewrite Ho, Hd. simpl. eexists. split; [done|]. split; [|by ends_line].
  apply lays_word; [done|done|]. lay. by apply lays_number.
Qed.

(** A body in braces after a keyword and a name; the tokens and the text may associate otherwise. *)
Lemma braced_printed kw name ts s toks txt : is_word (to_text kw) = true -> is_word_str name = true -> block ts s ->
  toks = [word kw; word name; TChar "{"] ++ ts ++ [TChar "}"] ->
  txt = to_text kw ++ lit " " ++ to_text name ++ lit " {" ++ s ++ lit "}" ++ [LF] -> printed (Ok txt) toks.
Proof.
  intros Hk Hn [H C] -> ->. eexists. split; [done|]. split; [|by ends_line].
  apply lays_word; [done|done|]. apply lays_blank; [done|]. apply lays_word; [done|done|]. lay. by apply lays_end_mark.
Qed.
Ltac braced kw B :=
  apply (braced_printed kw _ _ _ _ _ eq_refl ltac:(eassumption) B); repeat progress (simpl; rewrite <- ?app_assoc); reflexivity.

(** Members of a list printed in a section, or indented; [Hl] says what every member satisfies. *)
Lemma options_section_printed os : forallb (simple_option false) os = true ->
  printed (section to_schema_declaration os) (concat (map (declaration_tokens false) os)).
Proof.
  intros H. apply printed_section. intros o Ho. apply printed_option_declaration. rewrite forallb_forall in H.
  apply H. by apply list_elem_of_In.
Qed.
Lemma one_of_printed o : plain_one_of o -> printed (one_of_to_schema o) (one_of_tokens o).
Proof.
  intros (Hn & Hd & Hg & Ho & Hf). unfold one_of_to_schema, one_of_tokens. rewrite Hd, Hg.
  destruct (options_section_printed _ Ho) as (s1 & E1 & B1).
  destruct (printed_section field_to_schema field_tokens (o_fields o)) as (s2 & E2 & B2).
  { intros f Hx. destruct (Hf f Hx) as (_ & _ & ty & Hb). by apply (field_printed f ty). }
  rewrite E1, E2. braced "oneof"%string (block_app _ _ _ _ B1 B2).
Qed.

Lemma lays_commas {A} (toks : A -> list token) (show : A -> list ascii) l ts s :
  (forall x, x ∈ l -> forall ts s, starts_word s = false -> lays ts s -> lays (toks x ++ ts) (show x ++ s)) ->
  starts_word s = false -> lays ts s -> lays (commas (map toks l) ++ ts) (join (lit ", ") (map show l) ++ s).
Proof.
  induction l as [|x l IH]; intros H Hs Hl; [done|]. destruct l as [|y l]; [apply H; [left|done|done]|].
  change (commas (map toks (x :: y :: l))) with (toks x ++ TChar "," :: commas (map toks (y :: l))).
  change (join (lit ", ") (map show (x :: y :: l))) with (show x ++ lit ", " ++ join (lit ", ") (map show (y :: l))).
  rewrite <- !app_assoc. apply H; [left|done|]. simpl. apply lays_char; [done|]. apply lays_blank; [done|].
  apply IH; [|done|done]. intros z Hz. apply H. by right.
Qed.
Lemma lays_range a b ts s : is_word (to_text b) = true -> starts_word s = false -> lays ts s ->
  lays (TWord (show_Z a) :: word "to" :: TWord (to_text b) :: ts) (show_Z a ++ lit " to " ++ to_text b ++ s).
Proof.
  intros Hb Hs H. apply lays_number; [done|]. apply lays_blank; [done|]. apply (lays_word (to_text "to")); [done|done|].
  apply lays_blank; [done|]. by apply lays_word.
Qed.
Lemma reserved_printed r : plain_reserved r -> printed (reserved_to_schema r) (reserved_tokens r).
Proof.
  intros (Hd & _ & Hn). unfold reserved_to_schema, reserved_tokens. rewrite Hd. simpl. eexists. split; [done|].
  split; [|by ends_line]. apply (lays_word (to_text "reserved")); [done|done|]. apply lays_blank; [done|].
  apply lays_commas; [|done|by lay; apply lays_char, lays_nil]. intros v Hv ts s Hs Hl. destruct v as [n|z|a b]; simpl.
  - change (QUOTE :: to_text n ++ [QUOTE]) with ([QUOTE] ++ to_text n ++ [QUOTE]). rewrite <- !app_assoc.
    by apply lays_quoted; [apply quoted_plain_text, Hn|].
  - by apply lays_number.
  - rewrite <- app_assoc. apply (lays_range a (pretty b)); [|done|done]. apply (show_Z_spec b).
Qed.

Definition extension_text (v : RangeValue) : list ascii :=
  match extensions_value v with Ok s => s | Raise _ => [] end.
Lemma extension_texts l : (forall v, v ∈ l -> plain_extension_value v) -> map_res extensions_value l = Ok (map extension_text l).
Proof.
  induction l as [|v l IH]; intros H; [done|]. simpl. rewrite IH by (intros x Hx; apply H; by right).
  pose proof (H v ltac:(left)) as Hv. by destruct v.
Qed.
Lemma extensions_printed x : plain_extensions x -> printed (extensions_to_schema x) (extensions_tokens x).
Proof.
  intros (Hd & _ & Hv). unfold extensions_to_schema, extensions_tokens. rewrite Hd, extension_texts by done. simpl.
  eexists. split; [done|]. split; [|by ends_line]. apply (lays_word (to_text "extensions")); [done|done|].
  apply lays_blank; [done|]. apply lays_commas; [|done|by lay; apply lays_char, lays_nil].
  intros v Hx ts s Hs Hl. pose proof (Hv v Hx) as Hp. destruct v as [n|z|a b]; [done|by apply lays_number|].
  unfold extension_text. cbn [extensions_value extensions_value_tokens]. rewrite <- !app_assoc.
  destruct (b <? MAX_TAG_VALUE)%Z; [|by apply (lays_range a "max")].
  apply (lays_range a (pretty b)); [|done|done]. apply (show_Z_spec b).
Qed.

Lemma extend_printed syn e : plain_extend syn e -> printed (extend_to_schema e) (extend_tokens e).
Proof.
  intros (Hn & Hd & Hf). unfold extend_to_schema, extend_tokens. rewrite Hd.
  destruct (printed_section field_to_schema field_tokens (e_fields e)) as (s & E & B).
  { intros f Hx. by apply (plain_field_printed syn), Hf. }
  rewrite E. braced "extend"%string B.
Qed.

Lemma lays_streamed streaming s ts t : plain_rpc_type s -> starts_word t = false -> lays ts t ->
  lays (streamed_tokens streaming s ++ ts) ((if streaming then lit "stream " else []) ++ to_text s ++ t).
Proof.
  intros (ty & Hty & _) Ht H. unfold streamed_tokens. rewrite <- app_assoc.
  assert (Hl : lays (lex (to_text s) ++ ts) (to_text s ++ t)) by by eapply lays_plain_type.
  destruct streaming; [|done]. apply (lays_word (to_text "stream")); [done|done|]. by apply lays_blank.
Qed.
Lemma rpc_printed r : plain_rpc r -> printed (rpc_to_schema r) (rpc_tokens r).
Proof.
  intros (Hn & Hd & Ho & Hq & Hp). unfold rpc_to_schema, rpc_tokens. rewrite Hd, Ho. eexists. split; [done|].
  split; [|by ends_line]. cbn [app append_documentation]. apply (lays_word (to_text "rpc")); [done|done|]. apply lays_blank; [done|].
  apply lays_word; [done|done|]. apply lays_blank; [done|]. apply lays_char; [done|]. apply lays_streamed; [done|done|].
  apply lays_char; [done|]. apply lays_blank; [done|]. apply (lays_word (to_text "returns")); [done|done|].
  apply lays_blank; [done|]. apply lays_char; [done|]. apply lays_streamed; [done|done|]. simpl. by lay.
Qed.
Lemma service_printed s : plain_service s -> printed (service_to_schema s) (service_tokens s).
Proof.
  intros (Hn & Hd & Ho & Hr). unfold service_to_schema, service_tokens. rewrite Hd.
  destruct (options_section_printed _ Ho) as (s1 & E1 & B1).
  destruct (printed_section rpc_to_schema rpc_tokens (s_rpcs s)) as (s2 & E2 & B2); [intros; by apply rpc_printed, Hr|].
  rewrite E1, E2. braced "service"%string (block_app _ _ _ _ B1 B2).
Qed.
Lemma enum_printed name options constants : is_word_str name = true -> forallb (simple_option false) options = true ->
  (forall c, c ∈ constants -> plain_constant c) ->
  printed (enum_to_schema name "" options constants) ([word "enum"; word name; TChar "{"] ++
    concat (map (declaration_tokens false) options) ++ concat (map constant_tokens constants) ++ [TChar "}"]).
Proof.
  intros Hn Ho Hc. unfold enum_to_schema.
  destruct (printed_indented to_schema_declaration (declaration_tokens false) options) as (s1 & E1 & B1).
  { intros o Hx. apply printed_option_declaration. rewrite forallb_forall in Ho. apply Ho. by apply list_elem_of_In. }
  destruct (printed_indented constant_to_schema constant_tokens constants) as (s2 & E2 & B2); [intros; by apply constant_printed, Hc|].
  rewrite E1, E2. pose proof (block_app _ _ _ _ B1 B2) as B. destruct options, constants;
    [braced "enum"%string B|braced "enum"%string (block_LF _ _ B)..].
Qed.

(** ** Types *)

Section type_induction.
Context (P : TypeElement -> Prop).
Context (Hmessage : forall l n d nested os rs fs oofs xs gs, (forall e, e ∈ nested -> P e) ->
  P (MessageElement l n d nested os rs fs oofs xs gs)).
Context (Henum : forall l n d os cs, P (EnumElement l n d os cs)).
Fixpoint type_element_induction (e : TypeElement) : P e.
Proof.
  destruct e as [l n d nested os rs fs oofs xs gs|]; [|apply Henum]. apply Hmessage. apply Forall_forall.
  induction nested as [|e nested IH]; constructor; [apply type_element_induction|exact IH].
Defined.
End type_induction.

Definition others (e : TypeElement) : bool := negb (is_message_element e).
Lemma element_tokens_message l n d nested os rs fs oofs xs gs :
  element_tokens (MessageElement l n d nested os rs fs oofs xs gs) =
  [word "message"; word n; TChar "{"] ++
    (concat (map reserved_tokens rs) ++ concat (map (declaration_tokens true) os) ++ concat (map field_tokens fs) ++
     concat (map one_of_tokens oofs) ++ concat (map extensions_tokens xs) ++
     concat (map element_tokens (messages_first nested))) ++ [TChar "}"].
Proof.
  cbn [element_tokens]. unfold messages_first. rewrite map_app, concat_app, <- !app_assoc. do 6 f_equal.
  assert (Hm : forall l, (fix messages (l : list TypeElement) : list token :=
      match l with [] => [] | e :: l' => (if is_message_element e then element_tokens e else []) ++ messages l' end) l =
    concat (map element_tokens (List.filter is_message_element l))).
  { induction l0 as [|e l0 IH]; [done|]. simpl. rewrite IH. by destruct (is_message_element e). }
  assert (He : forall l, (fix enums (l : list TypeElement) : list token :=
      match l with [] => [] | e :: l' => (if is_message_element e then [] else element_tokens e) ++ enums l' end) l =
    concat (map element_tokens (List.filter others l))).
  { induction l0 as [|e l0 IH]; [done|]. simpl. rewrite IH. unfold others. by destruct (is_message_element e). }
  by rewrite Hm, He.
Qed.
Lemma plain_message syn l n d nested os rs fs oofs xs gs :
  plain_element syn (MessageElement l n d nested os rs fs oofs xs gs) <->
  is_word_str n = true /\ d = ""%string /\ gs = [] /\
  forallb (simple_option true) os = true /\ (forall r, r ∈ rs -> plain_reserved r) /\
  (forall f, f ∈ fs -> plain_field syn f) /\ (forall o, o ∈ oofs -> plain_one_of o) /\
  (forall x, x ∈ xs -> plain_extensions x) /\ (forall e, e ∈ nested -> plain_element syn e).
Proof.
  cbn [plain_element]. do 8 (apply and_iff_compat_l). induction nested as [|e nested IH].
  - split; [|done]. intros _ e He. by apply not_elem_of_nil in He.
  - rewrite IH. split; [intros [H1 H2] x [->|Hx]%elem_of_cons; auto|]. intros H. split; [apply H; left|].
    intros x Hx. apply H. by right.
Qed.

(** The nested types of a message, printed: the messages and the enums. *)
Fixpoint nested_strings (l : list TypeElement) : result (list ascii * list ascii) :=
  match l with
  | [] => Ok ([], [])
  | e :: l' =>
      s ← type_string e; rest ← nested_strings l';
      let s := append_indented s in
      Ok (if is_message_element e then (s ++ rest.1, rest.2) else (rest.1, s ++ rest.2))
  end.
Lemma type_string_message l n d nested os rs fs oofs xs gs :
  type_string (MessageElement l n d nested os rs fs oofs xs gs) =
  (reserveds ← section reserved_to_schema rs; options ← section option_element_string os;
   fields ← section field_to_schema fs; one_ofs ← section one_of_to_schema oofs; groups ← section group_to_schema gs;
   extensions ← section extensions_to_schema xs; nested_text ← nested_strings nested;
   Ok (append_documentation d ++ lit "message " ++ to_text n ++ lit " {" ++
       reserveds ++ options ++ fields ++ one_ofs ++ groups ++ extensions ++
       (match nested with [] => [] | _ => LF :: nested_text.1 ++ nested_text.2 end) ++ lit "}" ++ [LF])).
Proof. reflexivity. Qed.

Lemma nested_printed l : (forall e, e ∈ l -> printed (type_string e) (element_tokens e)) ->
  exists texts, nested_strings l = Ok texts /\ block (concat (map element_tokens (List.filter is_message_element l))) texts.1 /\
    block (concat (map element_tokens (List.filter others l))) texts.2.
Proof.
  induction l as [|e l IH]; intros H; [exists ([], []); split_and!; [done|apply block_nil..]|].
  destruct (H e ltac:(left)) as (s & Es & [Hl _]). destruct IH as (texts & Et & B1 & B2); [intros x Hx; apply H; by right|].
  pose proof (block_indented _ _ Hl) as B. eexists. cbn [nested_strings]. rewrite Es. cbn [mbind]. simpl. rewrite Et. split; [done|].
  simpl. unfold others at 1. destruct (is_message_element e); simpl; split; try done; by apply block_app.
Qed.

Lemma type_printed syn e : plain_element syn e -> printed (type_string e) (element_tokens e).
Proof.
  induction e as [l n d nested os rs fs oofs xs gs IH|l n d os cs] using type_element_induction.
  - rewrite plain_message. intros (Hn & -> & -> & Ho & Hr & Hf & Hoo & Hx & Hne). rewrite element_tokens_message, type_string_message.
    destruct (printed_section reserved_to_schema reserved_tokens rs) as (s1 & -> & B1); [intros; by apply reserved_printed, Hr|].
    destruct (printed_section option_element_string (declaration_tokens true) os) as (s2 & -> & B2).
    { intros o Hin. apply printed_option_string. rewrite forallb_forall in Ho. apply Ho. by apply list_elem_of_In. }
    destruct (printed_section field_to_schema field_tokens fs) as (s3 & -> & B3); [intros; by eapply plain_field_printed, Hf|].
    destruct (printed_section one_of_to_schema one_of_tokens oofs) as (s4 & -> & B4); [intros; by apply one_of_printed, Hoo|].
    destruct (printed_section extensions_to_schema extensions_tokens xs) as (s5 & -> & B5); [intros; by apply extensions_printed, Hx|].
    destruct (nested_printed nested) as (texts & -> & B6 & B7); [intros e He; apply IH; auto|].
    assert (B8 : block (concat (map element_tokens (messages_first nested)))
      (match nested with [] => [] | _ => LF :: texts.1 ++ texts.2 end)).
    { unfold messages_first. rewrite map_app, concat_app. destruct nested; [apply block_nil|]. by apply block_LF, block_app. }
    pose proof (block_app _ _ _ _ B1 (block_app _ _ _ _ B2 (block_app _ _ _ _ B3 (block_app _ _ _ _ B4 (block_app _ _ _ _ B5 B8))))) as B.
    braced "message"%string B.
  - intros (Hn & -> & Ho & Hc). by apply enum_printed.
Qed.

(** ** Files *)

Lemma block_string_line ts s value : lays ts s -> closed s = true -> forallb plain_char (to_text value) = true ->
  block (ts ++ [TQuoted (to_text value) (to_text value); TChar ";"]) (s ++ [QUOTE] ++ to_text value ++ [QUOTE] ++ lit ";" ++ [LF]).
Proof.
  intros H C Hv. split; [|by ends_line]. apply lays_app; [done|by rewrite C|]. apply lays_quoted; [by apply quoted_plain_text|].
  simpl. by lay.
Qed.
Lemma imports_printed public l : (forall i, i ∈ l -> forallb plain_char (to_text i) = true) ->
  block (concat (map (import_tokens public) l))
    (concat (map (fun f => (if public then lit "import public " else lit "import ") ++
       [QUOTE] ++ to_text f ++ [QUOTE] ++ lit ";" ++ [LF]) l)).
Proof.
  intros H. apply block_concat. intros i Hi. unfold import_tokens. rewrite app_assoc. destruct public.
  all: apply block_string_line; [|done|by apply H]; apply (lays_word (to_text "import")); [done|done|];
    apply lays_blank; [done|]. all: [>apply (lays_word (to_text "public")); [done|done|] |]. all: by lay.
Qed.
Lemma block_part {A} (l : list A) ts s : (l = [] -> ts = []) -> block ts s -> block ts (match l with [] => [] | _ => LF :: s end).
Proof. intros Hl B. destruct l; [rewrite Hl by done; apply block_nil|by apply block_LF]. Qed.

Lemma schema_printed f : plain_file f -> exists s, schema_to_schema f = Ok s /\ lays (file_tokens f) s.
Proof.
  intros H. unfold schema_to_schema, file_tokens.
  destruct (printed_concat option_element_string (declaration_tokens true) (file_options f)) as (s1 & E1 & B1).
  { intros o Hin. apply printed_option_string. pose proof (plain_options f H) as Ho. rewrite forallb_forall in Ho.
    apply Ho. by apply list_elem_of_In. }
  assert (Ht : forall sel, exists items, map_res type_string (List.filter sel (file_types f)) = Ok items /\
    block (concat (map element_tokens (List.filter sel (file_types f)))) (concat items)).
  { intros sel. apply printed_concat. intros e [He _]%list_elem_of_In%filter_In. apply (type_printed (file_syntax f)).
    apply (plain_types f H). by apply list_elem_of_In. }
  destruct (Ht is_message_element) as (s2 & E2 & B2). destruct (Ht others) as (s3 & E3 & B3). unfold others in *.
  destruct (printed_concat extend_to_schema extend_tokens (file_extends f)) as (s4 & E4 & B4).
  { intros e He. by eapply extend_printed, (plain_extends f H). }
  destruct (printed_concat service_to_schema service_tokens (file_services f)) as (s5 & E5 & B5).
  { intros e He. by apply service_printed, (plain_services f H). }
  rewrite E1, E2, E3, E4, E5. eexists. split; [done|]. simpl.
  assert (Hi : forall i, i ∈ file_imports f ++ file_public_imports f -> forallb plain_char (to_text i) = true)
    by (intros i Hx; by apply (plain_imports f H)).
  eapply proj1. apply block_app; [|apply block_app; [|rewrite (app_assoc (concat (map (import_tokens false) _))); apply block_app;
    [|apply block_app; [|apply block_app; [|apply block_app]]]]].
  - destruct (file_syntax f) as [s|]; [|apply block_nil]. apply (block_string_line [word "syntax"; TChar "="] (lit "syntax = ")).
    + apply (lays_word (to_text "syntax")); [done|done|]. by lay.
    + done.
    + by destruct s.
  - pose proof (plain_package f H) as Hp. destruct (file_package f) as [p|]; [|apply block_nil]. specialize (Hp p eq_refl).
    simpl. destruct (String.eqb_spec p "") as [->|_]; [done|]. split; [|by ends_line].
    apply (lays_word (to_text "package")); [done|done|]. apply lays_blank; [done|]. apply lays_word; [done|done|]. by lay.
  - assert (B : block (concat (map (import_tokens false) (file_imports f)) ++ concat (map (import_tokens true) (file_public_imports f)))
      (imports_text (file_imports f) (file_public_imports f))).
    { apply block_app; [apply (imports_printed false)|apply (imports_printed true)]; intros i Hx; apply Hi, elem_of_app; auto. }
    unfold has_imports. destruct (file_imports f), (file_public_imports f); [apply block_nil|by apply block_LF..].
  - apply block_part; [by intros ->|done].
  - apply block_part; [by intros ->|]. unfold messages_first. rewrite map_app, concat_app. by apply block_app.
  - apply block_part; [by intros ->|done].
  - apply block_part; [by intros ->|done].
Qed.
