(* ===== verification/ProtoRead.v ===== *)
(** * Parsing laid-out declarations

    What the operations of the parser return on a text that lays out the tokens of plain elements:
    the element itself, up to the locations. *)

From stdpp Require Import pretty.
From S2P Require Import Prelude Typing Protobuf ProtoReader ProtoReaderSpec ProtoElements ProtoParser ProtoLayout ProtoTokens ProtoPrint.
Open Scope nat_scope.

(** ** Options *)

Lemma word_head w c : token_ok (word w) -> is_word_char c = false -> is_char (token_head (word w)) c = false.
Proof. apply word_head_not. Qed.

Lemma commas_length {A} (toks : A -> list token) l : (forall x, x ∈ l -> 1 <= length (toks x)) -> length l <= length (commas (map toks l)).
Proof.
  induction l as [|x l IH]; intros H; [done|]. destruct l as [|y l]; [simpl; apply H; left|].
  change (commas (map toks (x :: y :: l))) with (toks x ++ TChar "," :: commas (map toks (y :: l))).
  rewrite length_app. cbn [length] in *. pose proof (H x ltac:(left)). specialize (IH (fun z Hz => H z ltac:(by right))). lia.
Qed.

Section options.
Context (data : list ascii).

Lemma reads_fuel {A} (m : M Reader A) ts ts' P : (length ts <= length data -> reads data m ts ts' P) -> reads data m ts ts' P.
Proof. intros H r Hr. apply H; [by eapply stands_length|done]. Qed.
Lemma reads_text {A} (m : M Reader A) ts ts' (P : A -> Prop) a b : reads data m ts ts' (eq a) -> a = b -> (forall x, x = b -> P x) -> reads data m ts ts' P.
Proof. intros H <- Hp. eapply reads_weaken; [exact H|]. intros ? <-. by apply Hp. Qed.

(** A word of the model, where the reader returns a string. *)
Lemma reads_word w ts : reads data (read_word data) (word w :: ts) ts (eq w).
Proof. pose proof (reads_read_word data (to_text w) ts) as H. by rewrite of_to_text in H. Qed.
Lemma reads_name w ts : reads data (read_name data) (word w :: ts) ts (eq w).
Proof. pose proof (reads_read_name data (to_text w) ts) as H. by rewrite of_to_text in H. Qed.
Lemma reads_string s raw t ts : is_quoted t = false ->
  reads data (read_string data) (TQuoted raw (to_text s) :: t :: ts) (t :: ts) (eq s).
Proof. intros H. pose proof (reads_read_string data raw (to_text s) t ts H) as Hr. by rewrite of_to_text in Hr. Qed.
Lemma reads_quoted s raw t ts : is_quoted t = false ->
  reads data (read_quoted_string data) (TQuoted raw (to_text s) :: t :: ts) (t :: ts) (eq s).
Proof. intros H. pose proof (reads_read_quoted_string data raw (to_text s) t ts H) as Hr. by rewrite of_to_text in Hr. Qed.

Lemma reads_paren_name w ts : reads data (read_name data) (TChar "(" :: word w :: TChar ")" :: ts) ts (eq w).
Proof.
  intros r H. destruct (peek_char_ready _ _ _ _ H) as (r' & E & H').
  assert (Hrest : reads data (result ← read_word data; close ← read_char data; _ ← expect (is_char close ")"); mret result)
    (word w :: TChar ")" :: ts) ts (eq w)).
  { eapply reads_bind; [apply reads_word|]. intros ? <-. eapply reads_bind; [apply reads_read_char|]. intros ? <-.
    eapply reads_bind; [by apply reads_expect|]. intros _ _. by apply reads_ret. }
  destruct (Hrest _ (ready_step _ _ _ _ (line r') (line_start r') H')) as (r2 & v & E2 & Hv & H2). exists r2, v.
  split; [|done]. unfold read_name. unfold mbind at 1, M_bind at 1. rewrite E. exact E2.
Qed.
Lemma reads_option_head name paren t ts :
  reads data (read_option_head data "=") (option_head_tokens name paren ++ TChar "=" :: t :: ts) (t :: ts) (eq (name, paren, [])).
Proof.
  assert (Htail : forall nm ext pr, reads data (c ← read_char data; read ← read_sub_names data c;
      _ ← (if is_char "=" ":" && is_char read.2 "{" then push_back data "{" else expect (is_char read.2 "="));
      mret (if ext : bool then ("[" +:+ nm +:+ "]")%string else nm, pr, read.1)) (TChar "=" :: t :: ts) (t :: ts)
      (eq (if ext : bool then ("[" +:+ nm +:+ "]")%string else nm, pr : bool, []))).
  { intros nm ext pr. eapply reads_bind; [apply reads_read_char|]. intros ? <-.
    eapply (reads_bind _ _ _ _ _ _ (eq ([], "="%char))); [by apply (reads_ret _ ([], "="%char))|]. intros ? <-.
    eapply reads_bind; [by apply reads_expect|]. intros _ _. by apply reads_ret. }
  destruct paren; cbn [option_head_tokens app].
  - eapply reads_bind; [apply reads_peek_char|]. intros ? <-. eapply reads_bind; [apply reads_paren_name|]. intros ? <-.
    apply (Htail name false true).
  - apply reads_ok. intros Hw. eapply reads_bind; [apply reads_peek_char|]. intros ? <-.
    rewrite !word_head by done. eapply reads_bind; [apply reads_name|]. intros ? <-. apply (Htail name false false).
Qed.

Lemma reads_value escaped kind value fuel t ts : simple_value escaped kind value = true -> is_quoted t = false ->
  reads data (read_kind_and_value data (S fuel)) (value_token escaped kind value :: t :: ts) (t :: ts) (eq (kind, value)).
Proof.
  intros Hv Ht. pose proof (value_token_ok _ _ _ Hv) as Hok. cbn [read_kind_and_value].
  eapply reads_bind; [apply reads_peek_char|]. intros ? <-.
  destruct kind, value as [s|l|d|o]; try done; cbn [value_token] in *; simpl in Hv.
  - simpl. eapply reads_bind; [by apply reads_string|]. intros ? <-. by apply reads_ret.
  - apply orb_true_iff in Hv as [Hv|Hv]; apply String.eqb_eq in Hv as ->; simpl;
      (eapply reads_bind; [apply reads_word|]); intros ? <-; by apply reads_ret.
  - apply andb_true_iff in Hv as [_ Hn]. destruct (token_head_kind _ Hok) as (_ & _ & ->). rewrite !word_head by done.
    rewrite Hn. simpl. eapply reads_bind; [apply reads_word|]. intros ? <-. by apply reads_ret.
  - apply andb_true_iff in Hv as [[_ Hn%negb_true_iff]%andb_true_iff Hb%negb_true_iff]. apply orb_false_iff in Hb as [Hb1 Hb2].
    destruct (token_head_kind _ Hok) as (_ & _ & ->). rewrite !word_head by done. rewrite Hn. simpl.
    eapply reads_bind; [apply reads_word|]. intros ? <-. rewrite Hb1, Hb2. by apply reads_ret.
Qed.

Lemma reads_option escaped o fuel t ts : simple_option escaped o = true -> is_quoted t = false ->
  reads data (read_option data (S (S fuel)) "=") (option_tokens escaped o ++ t :: ts) (t :: ts) (eq o).
Proof.
  intros [_ Hv]%andb_true_iff Ht. unfold option_tokens. rewrite <- app_assoc. cbn [app].
  remember (S fuel) as n eqn:En. cbn [read_option]. eapply reads_bind; [apply reads_option_head|]. intros ? <-.
  subst n. eapply reads_bind; [by apply reads_value|]. intros ? <-. apply reads_ret. by destruct o.
Qed.

Lemma option_tokens_length e os : length os <= length (commas (map (option_tokens e) os)).
Proof. apply commas_length. intros o _. unfold option_tokens. rewrite length_app. simpl. lia. Qed.
Lemma option_fuel_eq : option_fuel data = S (S (4 * length data + 6)).
Proof. unfold option_fuel. lia. Qed.
Lemma reads_options_loop fuel : forall os acc ts, length os <= fuel -> os ≠ [] -> forallb (simple_option false) os = true ->
  reads data (read_options_loop data fuel acc) (commas (map (option_tokens false) os) ++ TChar "]" :: ts) ts (eq (acc ++ os)).
Proof.
  induction fuel as [|fuel IH]; intros os acc ts Hf Hne Hs; destruct os as [|o os]; simpl in Hf; try done; [lia|].
  simpl in Hs. apply andb_true_iff in Hs as [Ho Hs]. cbn [read_options_loop].
  destruct os as [|o' os].
  - cbn [map commas]. eapply reads_bind; [rewrite option_fuel_eq; by apply reads_option|]. intros ? <-.
    eapply reads_bind; [apply reads_peek_is|]. intros ? <-. by apply reads_ret.
  - change (commas (map _ (o :: o' :: os))) with (option_tokens false o ++ TChar "," :: commas (map (option_tokens false) (o' :: os))).
    rewrite <- app_assoc. cbn [app]. eapply reads_bind; [rewrite option_fuel_eq; by apply reads_option|]. intros ? <-.
    eapply reads_bind; [by apply reads_peek_is_not|]. intros ? <-. eapply reads_bind; [apply reads_peek_is|]. intros ? <-.
    eapply reads_bind; [by apply reads_expect|]. intros _ _. rewrite <- (app_snoc_cons acc o (o' :: os)). apply IH; [lia|done|done].
Qed.
Lemma reads_options os t ts : forallb (simple_option false) os = true -> is_char (token_head t) "[" = false ->
  reads data (read_options data) (options_tokens os ++ t :: ts) (t :: ts) (eq os).
Proof.
  intros Hs Ht. unfold read_options, options_tokens. destruct os as [|o os].
  - eapply reads_bind; [by apply reads_peek_is_not|]. intros ? <-. by apply reads_ret.
  - rewrite <- !app_assoc. cbn [app]. apply reads_fuel. intros Hl. eapply reads_bind; [apply reads_peek_is|]. intros ? <-.
    rewrite <- ?app_assoc. apply (reads_options_loop _ (o :: os) []); [|done|done].
    cbn [app] in Hl. pose proof (option_tokens_length false (o :: os)). cbn [length] in Hl. rewrite !length_app in Hl. lia.
Qed.
End options.

(** ** Defaults and json names *)

Lemma option_text_name o1 o2 : simple_option false o1 = true -> simple_option false o2 = true ->
  option_parenthesized o2 = false -> option_text false o1 = option_text false o2 -> option_name o1 = option_name o2.
Proof.
  intros [[_ H1]%andb_true_iff _]%andb_true_iff [Hw2 _]%andb_true_iff Hp E. pose proof Hw2 as [_ H2]%andb_true_iff.
  unfold option_text, formatted_name in E. rewrite Hp in E. destruct (option_parenthesized o1).
  - exfalso. destruct (word_char_head _ Hw2) as (c & w & Hc & Hcw). rewrite Hc in E. simpl in E. injection E as <- _. done.
  - apply (f_equal span_word) in E. rewrite !span_word_app in E by done.
    by rewrite <- (of_to_text (option_name o1)), <- (of_to_text (option_name o2)), E.
Qed.

Lemma number_from_app {A} n (l1 l2 : list A) : number_from n (l1 ++ l2) = number_from n l1 ++ number_from (n + length l1) l2.
Proof.
  unfold number_from. rewrite length_app, seq_app. generalize (n + length l1). intros k. revert n.
  induction l1 as [|x l1 IH]; intros n; [done|]. simpl. by rewrite IH.
Qed.
Lemma number_from_snd {A} n (l : list A) : map snd (number_from n l) = l.
Proof. unfold number_from. revert n. induction l as [|x l IH]; intros n; [done|]. simpl. by rewrite IH. Qed.

Lemma strip_loop_none name copy opts found : (forall o, o ∈ map snd copy -> option_name o ≠ name) ->
  strip_value_loop name copy opts found = Ok (found, opts).
Proof.
  revert opts found. induction copy as [|[i o] copy IH]; intros opts found H; [done|]. simpl.
  destruct (String.eqb_spec (option_name o) name) as [E|_]; [by destruct (H o ltac:(left))|].
  apply IH. intros x Hx. apply H. by right.
Qed.
Lemma strip_loop_app name c1 c2 opts found : (forall o, o ∈ map snd c1 -> option_name o ≠ name) ->
  strip_value_loop name (c1 ++ c2) opts found = strip_value_loop name c2 opts found.
Proof.
  induction c1 as [|[i o] c1 IH]; intros H; [done|]. simpl.
  destruct (String.eqb_spec (option_name o) name) as [E|_]; [by destruct (H o ltac:(left))|].
  apply IH. intros x Hx. apply H. by right.
Qed.
Lemma strip_value_none name l : (forall o, o ∈ l -> option_name o ≠ name) -> strip_value name l = Ok (None, l).
Proof.
  intros H. unfold strip_value. rewrite strip_loop_none; [|by rewrite number_from_snd]. simpl. by rewrite number_from_snd.
Qed.

Lemma remove_option_found o l1 l2 : forall n, simple_option false o = true -> option_parenthesized o = false ->
  forallb (simple_option false) l1 = true -> (forall x, x ∈ l1 -> option_name x ≠ option_name o) ->
  remove_option (n + length l1) o (number_from n l1 ++ (n + length l1, o) :: l2) = Ok (number_from n l1 ++ l2).
Proof.
  induction l1 as [|x l1 IH]; intros n Ho Hp Hs Hne; simpl.
  - by rewrite Nat.eqb_refl.
  - simpl in Hs. apply andb_true_iff in Hs as [Hx Hs]. destruct (Nat.eqb_spec (n + S (length l1)) n) as [?|_]; [lia|].
    rewrite !option_to_schema_text by done. simpl. destruct (decide (option_text false x = option_text false o)) as [E|_].
    { by destruct (Hne x ltac:(left)); apply (option_text_name x o). }
    replace (n + S (length l1)) with (S n + length l1) by lia. unfold number_from in IH. rewrite (IH (S n)); [done..|].
    intros y Hy. apply Hne. by right.
Qed.
Lemma strip_value_found o v l1 l2 : simple_option false o = true -> option_parenthesized o = false -> option_value o = VStr v ->
  forallb (simple_option false) l1 = true -> (forall x, x ∈ l1 ++ l2 -> option_name x ≠ option_name o) ->
  strip_value (option_name o) (l1 ++ o :: l2) = Ok (Some v, l1 ++ l2).
Proof.
  intros Ho Hp Hv Hs Hne. unfold strip_value. rewrite !number_from_app.
  assert (Hin : forall x, (x ∈ l1 -> option_name x ≠ option_name o) /\ (x ∈ l2 -> option_name x ≠ option_name o)).
  { intros x. split; intros Hx; apply Hne, elem_of_app; auto. }
  rewrite strip_loop_app by (rewrite number_from_snd; apply Hin).
  change (number_from (0 + length l1) (o :: l2)) with ((0 + length l1, o) :: number_from (S (length l1)) l2).
  cbn [strip_value_loop]. rewrite String.eqb_refl, remove_option_found by (done || apply Hin). simpl. rewrite Hv. simpl.
  rewrite strip_loop_none by (rewrite number_from_snd; apply Hin). simpl. by rewrite map_app, !number_from_snd.
Qed.

(** The special options of a field and what is left of them. *)
Definition json_options (j : option string) : list OptionElement :=
  match j with Some j => [mkOption "json_name" STRING (VStr j) false] | None => [] end.
Lemma strip_json_name os j : forallb (simple_option false) (os ++ json_options j) = true ->
  (forall o, o ∈ os -> option_name o ≠ "json_name"%string) -> strip_value "json_name" (os ++ json_options j) = Ok (j, os).
Proof.
  rewrite forallb_app. intros [Hs Hj]%andb_true_iff Hne. destruct j as [j|]; simpl in *.
  - rewrite <- (app_nil_r os) at 2. apply andb_true_iff in Hj as [Hj _].
    apply (strip_value_found (mkOption "json_name" STRING (VStr j) false)); try done. intros x. by rewrite app_nil_r; apply Hne.
  - rewrite app_nil_r. by apply strip_value_none.
Qed.
Lemma truthy_str_eq s : s ≠ Some ""%string -> truthy_str s = s.
Proof. destruct s as [s|]; [|done]. simpl. intros H. destruct (String.eqb_spec s ""); [by subst|done]. Qed.

Lemma strip_special f : is_ok (options_with_special_values f) = true -> forallb (simple_option false) (special_options f) = true ->
  forallb (fun o => negb (special_name (option_name o))) (f_options f) = true ->
  default_value f ≠ Some ""%string -> json_name f ≠ Some ""%string ->
  exists l, strip_value "default" (special_options f) = Ok (default_value f, l) /\
    strip_value "json_name" l = Ok (json_name f, f_options f).
Proof.
  intros Hok Hs Hn Hd Hj. unfold special_options in *.
  assert (Hne : forall o, o ∈ f_options f -> option_name o ≠ "default"%string /\ option_name o ≠ "json_name"%string).
  { intros o Ho. rewrite forallb_forall in Hn. specialize (Hn o (proj1 (list_elem_of_In _ _) Ho)). unfold special_name in Hn.
    apply negb_true_iff, orb_false_iff in Hn as [H1%String.eqb_neq H2%String.eqb_neq]. done. }
  assert (Hdef : forall o, o ∈ f_options f ++ json_options (json_name f) -> option_name o ≠ "default"%string).
  { intros o [Ho|Ho]%elem_of_app; [by apply Hne|]. unfold json_options in Ho.
    destruct (json_name f); [by apply list_elem_of_singleton in Ho as ->|by apply not_elem_of_nil in Ho]. }
  unfold options_with_special_values in *. rewrite !truthy_str_eq in * by done. fold (json_options (json_name f)) in *.
  exists (f_options f ++ json_options (json_name f)).
  destruct (default_value f) as [d|]; [destruct (get2 (element_type f)) as [p|]; [|done]|]; simpl in *.
  - rewrite forallb_app in Hs. apply andb_true_iff in Hs as [Hs1 Hs2]. simpl in Hs2. apply andb_true_iff in Hs2 as [Hs2 Hs3]. split.
    + by apply (strip_value_found (mkOption "default" (to_kind p) (VStr d) false)).
    + apply strip_json_name; [by rewrite forallb_app, Hs1|]. intros o Ho. by apply Hne.
  - split; [by apply strip_value_none|]. apply strip_json_name; [done|]. intros o Ho. by apply Hne.
Qed.

(** ** Elements up to their locations *)

Definition erase_field (f : FieldElement) : FieldElement :=
  mkField DEFAULT_LOCATION (f_label f) (element_type f) (f_name f) (default_value f) (json_name f) (f_tag f)
    (f_documentation f) (f_options f).
Definition erase_one_of (o : OneOfElement) : OneOfElement :=
  mkOneOf (o_name o) (o_documentation o) (map erase_field (o_fields o)) (o_groups o) (o_options o).
Definition erase_constant (c : EnumConstantElement) : EnumConstantElement :=
  mkConstant DEFAULT_LOCATION (c_name c) (c_tag c) (c_documentation c) (c_options c).
Definition erase_reserved (r : ReservedElement) : ReservedElement := mkReserved DEFAULT_LOCATION (r_documentation r) (r_values r).
Definition erase_extensions (x : ExtensionsElement) : ExtensionsElement :=
  mkExtensions DEFAULT_LOCATION (x_documentation x) (x_values x).
Definition erase_extend (e : ExtendElement) : ExtendElement :=
  mkExtend DEFAULT_LOCATION (e_name e) (e_documentation e) (map erase_field (e_fields e)).
Definition erase_rpc (r : RpcElement) : RpcElement :=
  mkRpc DEFAULT_LOCATION (rpc_name r) (rpc_documentation r) (request_type r) (response_type r) (request_streaming r)
    (response_streaming r) (rpc_options r).
Definition erase_service (s : ServiceElement) : ServiceElement :=
  mkService DEFAULT_LOCATION (s_name s) (s_documentation s) (map erase_rpc (s_rpcs s)) (s_options s).
Fixpoint erase_type (e : TypeElement) : TypeElement :=
  match e with
  | MessageElement _ n d nested os rs fs oofs xs gs =>
      MessageElement DEFAULT_LOCATION n d (map erase_type nested) os (map erase_reserved rs) (map erase_field fs)
        (map erase_one_of oofs) (map erase_extensions xs) gs
  | EnumElement _ n d os cs => EnumElement DEFAULT_LOCATION n d os (map erase_constant cs)
  end.
Definition erase_declared (d : Declared) : Declared :=
  match d with
  | DNone => DNone | DOption o => DOption o | DReserved r => DReserved (erase_reserved r) | DRpc r => DRpc (erase_rpc r)
  | DType e => DType (erase_type e) | DConstant c => DConstant (erase_constant c) | DService s => DService (erase_service s)
  | DExtend e => DExtend (erase_extend e) | DExtensions x => DExtensions (erase_extensions x)
  | DOneOf o => DOneOf (erase_one_of o) | DGroup g => DGroup g | DField f => DField (erase_field f)
  end.

(** The canonical form of a type: no locations, and nested messages before nested enums. *)
Fixpoint canonical_type (e : TypeElement) : TypeElement :=
  match e with
  | MessageElement _ n d nested os rs fs oofs xs gs =>
      MessageElement DEFAULT_LOCATION n d (messages_first (map canonical_type nested)) os (map erase_reserved rs)
        (map erase_field fs) (map erase_one_of oofs) (map erase_extensions xs) gs
  | EnumElement _ n d os cs => EnumElement DEFAULT_LOCATION n d os (map erase_constant cs)
  end.

(** ** Steps of the parser *)

(** What a nested declaration leaves as it was. *)
Definition frame (p : Parser) :=
  (imports p, public_imports p, parsed_types p, services p, extends_list p, parsed_options p, syntax p, package_name p).

Section steps.
Context (data : list ascii) (syn : option Syntax).

Definition preads {A} (m : M Parser A) (ts ts' : list token) (P : A -> Prop) : Prop :=
  forall p, syntax p = syn -> stands data ts (reader p) ->
  exists p' v, m p = (p', Ok v) /\ P v /\ stands data ts' (reader p') /\ frame p' = frame p.

Lemma preads_bind {A B} (m : M Parser A) (f : A -> M Parser B) ts ts1 ts' P Q :
  preads m ts ts1 P -> (forall a, P a -> preads (f a) ts1 ts' Q) -> preads (mbind f m) ts ts' Q.
Proof.
  intros Hm Hf p Hs Hp. destruct (Hm p Hs Hp) as (p1 & a & E & Ha & H1 & F1).
  assert (Hs1 : syntax p1 = syn) by (unfold frame in F1; congruence).
  destruct (Hf a Ha p1 Hs1 H1) as (p2 & b & E2 & Hb & H2 & F2). exists p2, b. unfold mbind, M_bind. rewrite E.
  split_and!; [done|done|done|congruence].
Qed.
Lemma preads_ret {A} (a : A) ts (P : A -> Prop) : P a -> preads (mret a) ts ts P.
Proof. intros Ha p _ Hp. by exists p, a. Qed.
Lemma preads_lift {A} (a : A) ts : preads (lift (Ok a)) ts ts (eq a).
Proof. intros p _ Hp. by exists p, a. Qed.
Lemma preads_weaken {A} (m : M Parser A) ts ts' (P Q : A -> Prop) : preads m ts ts' P -> (forall a, P a -> Q a) -> preads m ts ts' Q.
Proof. intros Hm H p Hs Hp. destruct (Hm p Hs Hp) as (p1 & a & E & Ha & H1). eauto 10. Qed.
Lemma preads_rd {A} (m : M Reader A) ts ts' P : reads data m ts ts' P -> preads (rd m) ts ts' P.
Proof.
  intros Hm p _ Hp. destruct (Hm _ Hp) as (r' & v & E & Hv & H'). exists (set_reader r' p), v. unfold rd. by rewrite E.
Qed.
Lemma preads_gets_syntax ts : preads (gets syntax) ts ts (eq syn).
Proof. intros p Hs Hp. by exists p, (syntax p). Qed.
Lemma preads_gets {A} (f : Parser -> A) ts : preads (gets f) ts ts (fun _ => True).
Proof. intros p Hs Hp. by exists p, (f p). Qed.
Lemma preads_count ts : preads (modify count_declaration) ts ts (fun _ => True).
Proof. intros p Hs Hp. by exists (count_declaration p), (). Qed.
Lemma preads_set_prefix s ts : preads (modify (set_prefix s)) ts ts (fun _ => True).
Proof. intros p Hs Hp. by exists (set_prefix s p), (). Qed.
Lemma reads_location ts : reads data location ts ts (fun _ => True).
Proof. intros r Hr. by eexists r, _. Qed.
Lemma preads_fuel {A} (m : M Parser A) ts ts' P : (length ts <= length data -> preads m ts ts' P) -> preads m ts ts' P.
Proof. intros H p Hs Hp. apply H; [by eapply stands_length|done|done]. Qed.
Lemma preads_ok {A} (m : M Parser A) t ts ts' P : (token_ok t -> preads m (t :: ts) ts' P) -> preads m (t :: ts) ts' P.
Proof. intros H p Hs Hp. apply H; [by eapply stands_ok|done|done]. Qed.
End steps.

(** Steps over a call of the reader, given what it reads. *)
Tactic Notation "rstep" open_constr(H) := eapply preads_bind; [apply preads_rd, H|]; first [intros ? <- | intros ? _].
Tactic Notation "pstep" open_constr(H) := eapply preads_bind; [apply H|]; first [intros ? <- | intros ? _].

(** ** Fields *)

Section fields.
Context (data : list ascii) (syn : option Syntax).

Lemma preads_field_with_label f loc t ts ty : plain_body f ty ->
  preads data syn (read_field_with_label data loc "" (f_label f) (element_type f))
    ([word (f_name f); TChar "="; TWord (show_Z (f_tag f))] ++ options_tokens (special_options f) ++ TChar ";" :: t :: ts)
    (t :: ts) (fun g => erase_field g = erase_field f).
Proof.
  intros (Hd & _ & _ & Hn & Hok & Hs & Hne & Hdef & Hj). cbn [app]. unfold read_field_with_label.
  rstep reads_name. rstep reads_require. rstep reads_read_int.
  eapply preads_bind; [by apply preads_rd, reads_options|]. intros ? <-.
  destruct (strip_special f Hok Hs Hne Hdef Hj) as (l & -> & Hl). pstep preads_lift. cbn [fst snd]. rewrite Hl. pstep preads_lift.
  rstep reads_require. rstep reads_try_append. apply preads_ret. unfold erase_field. simpl. by rewrite Hd.
Qed.

Lemma named_not_map w : is_word w = true -> String.prefix "map<" (of_text w) = false.
Proof.
  intros [_ Hw]%andb_true_iff. destruct (String.prefix "map<" (of_text w)) eqn:E; [|done]. exfalso.
  apply String.prefix_correct in E. destruct w as [|a [|b [|c [|d w]]]]; simpl in E; try done.
  injection E as -> -> -> -> _. done.
Qed.

(** The word a field starts with, and what follows up to its name. *)
Definition field_first (l : option Label) (ty : DataType) : string :=
  match l with
  | Some OPTIONAL => "optional" | Some REQUIRED => "required" | Some REPEATED => "repeated"
  | Some ONE_OF => "one_of" | None => of_text (first_word ty)
  end%string.
Definition type_rest (l : option Label) (ty : DataType) : list token :=
  match l with Some _ => type_tokens ty | None => tl (type_tokens ty) end.
Definition field_rest (f : FieldElement) (ty : DataType) : list token :=
  type_rest (f_label f) ty ++ [word (f_name f); TChar "="; TWord (show_Z (f_tag f))] ++ options_tokens (special_options f) ++ [TChar ";"].

Lemma field_tokens_split f ty : plain_body f ty -> field_tokens f = word (field_first (f_label f) ty) :: field_rest f ty.
Proof.
  intros (_ & Hty & _). unfold field_tokens, field_rest. rewrite (lex_plain _ _ Hty).
  destruct (f_label f) as [[]|]; try done. simpl. rewrite type_tokens_cons at 1. unfold word. by rewrite to_of_text.
Qed.

Lemma expect_true ts : reads data (expect true) ts ts (fun _ => True).
Proof. by apply reads_expect. Qed.
Lemma eqb_false_not_in (s w : string) (l : list string) : s ∉ l -> w ∈ l -> String.eqb s w = false.
Proof. intros Hs Hw. apply String.eqb_neq. by intros ->. Qed.

Lemma preads_label_and_type l s ty ts : plain_type s ty -> plain_label syn l ty ->
  preads data syn (read_label_and_type data (field_first l ty)) (type_rest l ty ++ ts) ts (eq (l, s)).
Proof.
  intros [Hok ->] Hl. unfold read_label_and_type. pstep preads_gets_syntax.
  assert (Ht : reads data (read_data_type data) (type_tokens ty ++ ts) ts (eq (of_text (type_text ty)))) by by apply reads_read_data_type.
  destruct l as [[]|]; try done; simpl in Hl; cbn [field_first type_rest String.eqb Ascii.eqb Bool.eqb].
  - rstep Ht. by apply preads_ret.
  - destruct Hl as [Hsyn _]. eapply preads_bind.
    { apply preads_rd, reads_expect. by destruct syn as [[]|]. }
    intros _ _. rstep Ht. by apply preads_ret.
  - rstep Ht. by apply preads_ret.
  - destruct Hl as [Hsyn Hk]. rewrite !(eqb_false_not_in _ _ _ Hk) by (unfold message_keywords; set_solver).
    eapply (preads_bind _ _ _ _ _ _ _ (eq true)).
    + destruct Hsyn as [->|Hm]; [by apply preads_ret|]. destruct ty as [|k v]; [done|]. cbn [first_word].
      destruct syn as [[]|]; [|by apply preads_ret|]; cbn [type_tokens tl app]; rstep reads_peek_char; by apply preads_ret.
    + intros ? <-. rstep expect_true. eapply preads_bind; [by apply preads_rd, reads_data_type_by_name|]. intros ? <-. by apply preads_ret.
Qed.

Lemma preads_field f ty fuel loc t ts : plain_body f ty -> plain_label syn (f_label f) ty ->
  preads data syn (read_field data (S fuel) "" loc (field_first (f_label f) ty)) (field_rest f ty ++ t :: ts) (t :: ts)
    (fun d => erase_declared d = DField (erase_field f)).
Proof.
  intros Hb Hl. pose proof Hb as (_ & Hty & Hg & _). cbn [read_field]. unfold field_rest. rewrite <- !app_assoc.
  eapply preads_bind; [by apply preads_label_and_type|]. intros ? <-.
  eapply preads_bind.
  { apply preads_rd, reads_expect. destruct Hty as [Hok Hs]. destruct (f_label f) as [lab|] eqn:El; [|by rewrite orb_true_r].
    assert (Hm : is_map_type ty = false) by (destruct lab; try done; by destruct Hl).
    destruct ty as [w|]; [|done]. simpl in Hok. apply andb_true_iff in Hok as [Hw _]. rewrite Hs. simpl. by rewrite named_not_map. }
  intros _ _. destruct (String.eqb_spec (element_type f) "group"); [done|]. cbn [app].
  eapply preads_bind; [by eapply preads_field_with_label|]. intros g Hgf. apply preads_ret. simpl. by rewrite Hgf.
Qed.
End fields.

(** ** Lists of values *)

Section values.
Context (data : list ascii).

Lemma reads_goes_on (more : bool) ts : reads data (list_goes_on data) (TChar (if more then "," else ";") :: ts) ts (eq more).
Proof. eapply reads_bind; [apply reads_read_char|]. intros ? <-. by destruct more; apply reads_ret. Qed.
Lemma separator_kind (more : bool) : is_quoted (TChar (if more then "," else ";")) = false /\
  is_char (token_head (TChar (if more then "," else ";"))) "," || is_char (token_head (TChar (if more then "," else ";"))) ";" = true.
Proof. by destruct more. Qed.
Lemma word_no_separator w : is_word_str w = true -> is_char (token_head (word w)) "," || is_char (token_head (word w)) ";" = false.
Proof. intros H. by rewrite !word_head. Qed.

Lemma reads_ext {A} (m m' : M Reader A) ts ts' P : (forall r, m r = m' r) -> reads data m' ts ts' P -> reads data m ts ts' P.
Proof. intros E H r Hr. rewrite E. by apply H. Qed.

(** A loop over values separated by commas up to a semicolon. *)
Lemma reads_values (loop : nat -> list RangeValue -> M Reader (list RangeValue)) (value : M Reader RangeValue)
  (toks : RangeValue -> list token) (ok : RangeValue -> Prop) :
  (forall fuel acc r, loop (S fuel) acc r =
     (v ← value; more ← list_goes_on data; if more : bool then loop fuel (acc ++ [v]) else mret (acc ++ [v])) r) ->
  (forall v (more : bool) ts, ok v -> reads data value (toks v ++ TChar (if more then "," else ";") :: ts)
     (TChar (if more then "," else ";") :: ts) (eq v)) ->
  forall vs fuel acc ts, length vs <= fuel -> vs ≠ [] -> (forall v, v ∈ vs -> ok v) ->
  reads data (loop fuel acc) (commas (map toks vs) ++ TChar ";" :: ts) ts (eq (acc ++ vs)).
Proof.
  intros Hloop Hvalue. induction vs as [|v vs IH]; intros [|fuel] acc ts Hf Hne Hok; try done; simpl in Hf; [lia|].
  eapply reads_ext; [apply Hloop|]. pose proof (Hok v ltac:(left)) as Hv. destruct vs as [|v' vs].
  - eapply reads_bind; [by apply (Hvalue v false)|]. intros ? <-. eapply reads_bind; [apply (reads_goes_on false)|]. intros ? <-.
    by apply reads_ret.
  - change (commas (map toks (v :: v' :: vs))) with (toks v ++ TChar "," :: commas (map toks (v' :: vs))). rewrite <- app_assoc.
    eapply reads_bind; [by apply (Hvalue v true)|]. intros ? <-. eapply reads_bind; [apply (reads_goes_on true)|]. intros ? <-.
    rewrite <- (app_snoc_cons acc v (v' :: vs)). apply IH; [lia|done|]. intros x Hx. apply Hok. by right.
Qed.

Definition reserved_value_reader : M Reader RangeValue :=
  ch ← peek_char data;
  if is_quote ch then s ← read_quoted_string data; mret (Name s)
  else
    tag_start ← read_int data;
    ch ← peek_char data;
    if is_char ch "," || is_char ch ";" then mret (Tag tag_start)
    else w ← read_word data; _ ← expect (String.eqb w "to"); tag_end ← read_int data; mret (KotlinRange tag_start tag_end).
Lemma reserved_loop fuel acc r : read_reserved_values data (S fuel) acc r =
  (v ← reserved_value_reader; more ← list_goes_on data;
   if more : bool then read_reserved_values data fuel (acc ++ [v]) else mret (acc ++ [v])) r.
Proof.
  cbn [read_reserved_values]. unfold reserved_value_reader, mbind, M_bind. by destruct (peek_char data r) as [r' [c|]].
Qed.
Lemma reads_reserved_value v (more : bool) ts :
  reads data reserved_value_reader (reserved_value_tokens v ++ TChar (if more then "," else ";") :: ts)
     (TChar (if more then "," else ";") :: ts) (eq v).
Proof.
  destruct (separator_kind more) as [Hq Hs]. destruct v as [n|z|a b]; cbn [reserved_value_tokens app]; apply reads_ok; intros Hok.
  all: eapply reads_bind; [apply reads_peek_char|]; intros ? <-.
  all: destruct (token_head_kind _ Hok) as (_ & _ & ->); cbn [is_quoted].
  - eapply reads_bind; [by apply reads_quoted|]. intros ? <-. by apply reads_ret.
  - eapply reads_bind; [apply reads_read_int|]. intros ? <-. eapply reads_bind; [apply reads_peek_char|]. intros ? <-.
    rewrite Hs. by apply reads_ret.
  - eapply reads_bind; [apply reads_read_int|]. intros ? <-. eapply reads_bind; [apply reads_peek_char|]. intros ? <-.
    rewrite word_no_separator by done. eapply reads_bind; [apply reads_word|]. intros ? <-.
    eapply reads_bind; [by apply reads_expect|]. intros _ _. eapply reads_bind; [apply reads_read_int|]. intros ? <-. by apply reads_ret.
Qed.

Definition extensions_value_reader : M Reader RangeValue :=
  start ← read_int data;
  ch ← peek_char data;
  if is_char ch "," || is_char ch ";" then mret (Tag start)
  else
    w ← read_word data; _ ← expect (String.eqb w "to"); s ← read_word data;
    if String.eqb s "max" then mret (KotlinRange start MAX_TAG_VALUE)
    else match py_int s with Some e => mret (KotlinRange start e) | None => raise ValueError end.
Lemma extensions_loop fuel acc r : read_extensions_values data (S fuel) acc r =
  (v ← extensions_value_reader; more ← list_goes_on data;
   if more : bool then read_extensions_values data fuel (acc ++ [v]) else mret (acc ++ [v])) r.
Proof.
  cbn [read_extensions_values]. unfold extensions_value_reader, mbind, M_bind. destruct (read_int data r) as [r' [z|]]; [|done].
  by destruct (peek_char data r') as [r2 [c|]].
Qed.
Lemma pretty_not_max (z : Z) : String.eqb (pretty z) "max" = false.
Proof. apply String.eqb_neq. intros E. destruct (show_Z_spec z) as (_ & _ & H). by rewrite E in H. Qed.
Lemma reads_extensions_value v (more : bool) ts : plain_extension_value v ->
  reads data extensions_value_reader (extensions_value_tokens v ++ TChar (if more then "," else ";") :: ts)
     (TChar (if more then "," else ";") :: ts) (eq v).
Proof.
  intros Hp. destruct (separator_kind more) as [Hq Hs]. destruct v as [n|z|a b]; [done|..]; cbn [extensions_value_tokens app].
  all: eapply reads_bind; [apply reads_read_int|]; intros ? <-; (eapply reads_bind; [apply reads_peek_char|]); intros ? <-.
  - rewrite Hs. by apply reads_ret.
  - rewrite word_no_separator by done. eapply reads_bind; [apply reads_word|]. intros ? <-.
    eapply reads_bind; [by apply reads_expect|]. intros _ _. simpl in Hp. destruct (Z.ltb_spec b MAX_TAG_VALUE) as [Hlt|Hge].
    + eapply reads_bind; [apply (reads_word data (pretty b))|]. intros ? <-. rewrite pretty_not_max.
      destruct (show_Z_spec b) as (_ & _ & ->). by apply reads_ret.
    + eapply reads_bind; [apply reads_word|]. intros ? <-. apply reads_ret. f_equal. lia.
Qed.
End values.
