(* ===== verification/ProtoDeclare.v ===== *)
(** * Parsing the declarations of a body

    A body that lays out plain members is read as those members in their order, so that messages,
    enums, extensions and services are read back up to their locations. *)

From S2P Require Import Prelude Typing Protobuf ProtoReader ProtoReaderSpec ProtoElements ProtoParser ProtoLayout ProtoTokens ProtoPrint ProtoRead.
Open Scope nat_scope.

Section declarations.
Context (data : list ascii) (syn : option Syntax).

(** ** One declaration *)

Section one.
Context (body : Context -> M Parser (list Declared)).
Abbreviation declaration := (read_declaration data body "").

Lemma preads_declaration ctx w ts ts' Q :
  (forall index loc, preads data syn (read_labelled data body index loc w "" ctx) ts ts' Q) ->
  preads data syn (declaration ctx) (word w :: ts) ts' Q.
Proof.
  intros H. apply preads_ok. intros Hw. unfold read_declaration. eapply preads_bind; [apply preads_gets|]. intros index _.
  eapply preads_bind; [apply preads_count|]. intros _ _.
  eapply preads_bind; [by apply preads_rd, reads_peek_is_not, word_head|]. intros ? <-.
  eapply preads_bind; [apply preads_rd, reads_location|]. intros loc _. rstep reads_word. apply H.
Qed.

(** The declaration is read as [d], up to its location. *)
Definition declared_as (d d' : Declared) : Prop := erase_declared d' = d.

Lemma preads_declares {A} (f : A -> Declared) (erase : A -> A) (m : M Parser A) ts ts' a :
  (forall x, erase_declared (f x) = f (erase x)) -> preads data syn m ts ts' (fun x => erase x = erase a) ->
  preads data syn (declares f m) ts ts' (declared_as (f (erase a))).
Proof. intros Hf Hm. eapply preads_bind; [exact Hm|]. intros x Hx. apply preads_ret. unfold declared_as. by rewrite Hf, Hx. Qed.

Lemma preads_option ctx escaped o ts : simple_option escaped o = true ->
  preads data syn (declaration ctx) (declaration_tokens escaped o ++ ts) ts (declared_as (DOption o)).
Proof.
  intros Ho. unfold declaration_tokens. rewrite <- !app_assoc. apply preads_declaration. intros index loc.
  unfold read_labelled. destruct ctx; simpl; rewrite option_fuel_eq;
    (eapply preads_bind; [by apply preads_rd, (reads_option data escaped o)|]); intros ? <-; rstep reads_require; by apply preads_ret.
Qed.

Lemma labelled_field ctx index loc w : w ∉ ["option"; "reserved"; "message"; "enum"; "extend"; "oneof"; "extensions"]%string ->
  ctx = MESSAGE \/ ctx = EXTEND -> read_labelled data body index loc w "" ctx = read_field data (field_fuel data) "" loc w.
Proof.
  intros Hw [-> | ->]; unfold read_labelled; simpl; rewrite ?andb_false_r; by rewrite !(eqb_false_not_in w _ _ Hw) by set_solver.
Qed.
Lemma preads_field_member ctx f t ts : ctx = MESSAGE \/ ctx = EXTEND -> plain_field syn f ->
  preads data syn (declaration ctx) (field_tokens f ++ t :: ts) (t :: ts) (declared_as (DField (erase_field f))).
Proof.
  intros Hctx (ty & Hb & Hl). rewrite (field_tokens_split f ty Hb). cbn [app]. apply preads_declaration. intros index loc.
  rewrite labelled_field; [|destruct (f_label f) as [[]|]; try done; simpl; [set_solver..|]; destruct Hl as [_ Hl]|done].
  - replace (field_fuel data) with (S (3 * length data + 5)) by (unfold field_fuel; lia). by apply preads_field.
  - unfold message_keywords in Hl. set_solver.
Qed.

Lemma preads_constant c t ts : plain_constant c ->
  preads data syn (declaration ENUM_CONTEXT) (constant_tokens c ++ t :: ts) (t :: ts) (declared_as (DConstant (erase_constant c))).
Proof.
  intros (Hn & Hk & Hd & Hs). unfold constant_tokens. rewrite <- !app_assoc. apply preads_declaration. intros index loc.
  unfold read_labelled. simpl. rewrite !andb_false_r, !(eqb_false_not_in (c_name c) _ _ Hk) by set_solver. simpl.
  apply (preads_declares _ erase_constant); [done|]. unfold read_enum_constant. rstep reads_require. rstep reads_read_int.
    eapply preads_bind; [by apply preads_rd, reads_options|]. intros ? <-. rstep reads_require. rstep reads_try_append.
    apply preads_ret. unfold erase_constant. simpl. by rewrite Hd.
Qed.

Lemma preads_reserved r t ts : plain_reserved r ->
  preads data syn (declaration MESSAGE) (reserved_tokens r ++ t :: ts) (t :: ts) (declared_as (DReserved (erase_reserved r))).
Proof.
  intros (Hd & Hne & _). unfold reserved_tokens. rewrite <- !app_assoc. apply preads_declaration. intros index loc.
  apply (preads_declares _ erase_reserved); [done|]. unfold read_reserved. eapply preads_bind.
    { apply preads_rd, reads_fuel. intros Hl. eapply (reads_values data _ _ _ (fun _ => True) (reserved_loop data)); try done.
      - intros v more ts' _. apply reads_reserved_value.
      - rewrite length_app in Hl. simpl in Hl. assert (Hc : length (r_values r) <= length (commas (map reserved_value_tokens (r_values r))))
          by (apply commas_length; intros v _; destruct v; simpl; lia). lia. }
    intros ? <-. simpl. destruct (r_values r) as [|v vs] eqn:Ev; [done|]. rstep expect_true. rstep reads_try_append. apply preads_ret.
    unfold erase_reserved. simpl. by rewrite Hd, Ev.
Qed.
Lemma preads_extensions x ts : plain_extensions x ->
  preads data syn (declaration MESSAGE) (extensions_tokens x ++ ts) ts (declared_as (DExtensions (erase_extensions x))).
Proof.
  intros (Hd & Hne & Hv). unfold extensions_tokens. rewrite <- !app_assoc. apply preads_declaration. intros index loc.
  apply (preads_declares _ erase_extensions); [done|]. unfold read_extensions. eapply preads_bind.
    { apply preads_rd, reads_fuel. intros Hl. eapply (reads_values data _ _ _ _ (extensions_loop data)); try done.
      - intros v more ts' Hp. by apply reads_extensions_value.
      - rewrite length_app in Hl. simpl in Hl. assert (Hc : length (x_values x) <= length (commas (map extensions_value_tokens (x_values x))))
          by (apply commas_length; intros v Hx; specialize (Hv v Hx); destruct v; [done|simpl; lia..]). lia. }
    intros ? <-. apply preads_ret. unfold erase_extensions. simpl. by rewrite Hd.
Qed.

Lemma preads_one_of_field f ty loc t ts : f_label f = None -> plain_body f ty ->
  preads data syn (read_field_with_label data loc "" None (element_type f))
    ([word (f_name f); TChar "="; TWord (show_Z (f_tag f))] ++ options_tokens (special_options f) ++ TChar ";" :: t :: ts)
    (t :: ts) (fun g => erase_field g = erase_field f).
Proof. intros Hl Hb. rewrite <- Hl. by eapply preads_field_with_label. Qed.

Lemma reads_close ts : reads data (peek_is data "}") (TChar "}" :: ts) ts (eq true).
Proof. apply reads_peek_is. Qed.
Lemma reads_not_close w ts : is_word_str w = true -> reads data (peek_is data "}") (word w :: ts) (word w :: ts) (eq false).
Proof. intros Hw. by apply reads_peek_is_not, word_head. Qed.

Lemma one_of_fields_read fs : forall fuel acc os ts, length fs < fuel -> (forall f, f ∈ fs -> plain_one_of_field f) ->
  preads data syn (read_one_of_body data fuel acc [] os) (concat (map field_tokens fs) ++ TChar "}" :: ts) ts
    (fun b => map erase_field b.1.1 = map erase_field acc ++ map erase_field fs /\ b.1.2 = [] /\ b.2 = os).
Proof.
  induction fs as [|f fs IH]; intros [|fuel] acc os ts Hf H; simpl in Hf; try lia; cbn [read_one_of_body].
  - rstep reads_read_documentation. rstep reads_close. apply preads_ret. simpl. by rewrite app_nil_r.
  - destruct (H f ltac:(left)) as (Hl & Hopt & ty & Hb). pose proof Hb as (_ & Hty & Hg & _).
    simpl. rewrite <- app_assoc, (field_tokens_split f ty Hb). rewrite Hl. cbn [app field_first]. unfold field_rest. rewrite Hl.
    rstep reads_read_documentation. apply preads_ok. intros Hw. rstep (reads_not_close _ _ Hw).
    eapply preads_bind; [apply preads_rd, reads_location|]. intros loc _.
    assert (Htoks : word (of_text (first_word ty)) :: type_rest None ty = type_tokens ty)
      by (rewrite (type_tokens_cons ty); unfold word; by rewrite to_of_text).
    destruct Hty as [Hok Hs].
    eapply preads_bind; [apply preads_rd|].
    { rewrite <- !app_assoc, app_comm_cons, Htoks. by apply reads_read_data_type. }
    intros ? <-. rewrite <- Hs. destruct (String.eqb_spec (element_type f) "group"); [done|].
    destruct (String.eqb_spec (element_type f) "option"); [done|].
    destruct (concat (map field_tokens fs) ++ TChar "}" :: ts) as [|t ts'] eqn:Et; [by destruct (concat _)|].
    eapply preads_bind; [cbn [app]; by apply (preads_one_of_field f ty)|]. intros g Hgf. rewrite <- Et.
    eapply preads_weaken; [apply IH; [lia|intros x Hx; apply H; by right]|]. intros b (H1 & H2 & H3). split_and!; try done.
    rewrite H1, map_app, <- app_assoc. simpl. by rewrite Hgf.
Qed.

Lemma one_of_body_read os : forall fuel fs acc ts, length os + length fs < fuel -> forallb (simple_option false) os = true ->
  (forall f, f ∈ fs -> plain_one_of_field f) ->
  preads data syn (read_one_of_body data fuel [] [] acc)
    (concat (map (declaration_tokens false) os) ++ concat (map field_tokens fs) ++ TChar "}" :: ts) ts
    (fun b => map erase_field b.1.1 = map erase_field fs /\ b.1.2 = [] /\ b.2 = acc ++ os).
Proof.
  induction os as [|o os IH]; intros fuel fs acc ts Hf Hs H.
  - rewrite app_nil_r. by apply one_of_fields_read.
  - destruct fuel as [|fuel]; simpl in Hf; [lia|]. simpl in Hs. apply andb_true_iff in Hs as [Ho Hs]. cbn [read_one_of_body].
    cbn [map concat]. unfold declaration_tokens at 1. rewrite <- !app_assoc. cbn [app].
    rstep reads_read_documentation. rstep (reads_not_close "option" _ eq_refl).
    eapply preads_bind; [apply preads_rd, reads_location|]. intros loc _.
    eapply preads_bind; [by apply preads_rd, (reads_read_data_type data (Named (to_text "option")))|]. intros ? <-. simpl.
    rewrite option_fuel_eq. eapply preads_bind; [by apply preads_rd, (reads_option data false o)|]. intros ? <-. rstep reads_require.
    rewrite <- (app_snoc_cons acc o os). apply IH; [lia|done|done].
Qed.

Lemma concat_length {A} (toks : A -> list token) l : (forall x, 1 <= length (toks x)) -> length l <= length (concat (map toks l)).
Proof. intros H. induction l as [|x l IH]; [done|]. simpl. rewrite length_app. pose proof (H x). lia. Qed.
Lemma field_tokens_length f : 1 <= length (field_tokens f).
Proof. unfold field_tokens. rewrite !length_app. simpl. lia. Qed.
Lemma declaration_tokens_length e o : 1 <= length (declaration_tokens e o).
Proof. unfold declaration_tokens. simpl. lia. Qed.

Lemma preads_one_of o ts : plain_one_of o ->
  preads data syn (declaration MESSAGE) (one_of_tokens o ++ ts) ts (declared_as (DOneOf (erase_one_of o))).
Proof.
  intros (Hn & Hd & Hg & Ho & Hf). unfold one_of_tokens. rewrite <- !app_assoc. apply preads_declaration. intros index loc.
  apply (preads_declares _ erase_one_of); [done|]. unfold read_one_of. cbn [app]. rstep reads_name. rstep reads_require. apply preads_fuel. intros Hl.
    eapply preads_bind; [apply one_of_body_read; [|done|done]|].
    { rewrite !length_app in Hl. simpl in Hl. pose proof (concat_length field_tokens (o_fields o) field_tokens_length).
      pose proof (concat_length (declaration_tokens false) (o_options o) (declaration_tokens_length false)). lia. }
    intros b (H1 & H2 & H3). apply preads_ret. unfold erase_one_of. simpl. by rewrite H1, H2, H3, Hd, Hg.
Qed.

Lemma preads_streamed streaming s ts : plain_rpc_type s ->
  reads data (read_streamed_type data) (streamed_tokens streaming s ++ ts) ts (eq (streaming, s)).
Proof.
  intros (ty & Hty & Hw). unfold streamed_tokens, read_streamed_type. rewrite (lex_plain _ _ Hty). destruct Hty as [Hok ->]. destruct streaming; cbn [app].
  - eapply reads_bind; [apply reads_word|]. intros ? <-. simpl. eapply reads_bind; [by apply reads_read_data_type|]. intros ? <-. by apply reads_ret.
  - rewrite type_tokens_cons. cbn [app]. eapply reads_bind; [apply reads_read_word|]. intros ? <-.
    destruct (String.eqb_spec (of_text (first_word ty)) "stream") as [E|_].
    { destruct Hw. by rewrite <- (to_of_text (first_word ty)), E. }
    eapply reads_bind; [by apply reads_data_type_by_name|]. intros ? <-. by apply reads_ret.
Qed.
Lemma preads_rpc r ts : plain_rpc r ->
  preads data syn (declaration SERVICE) (rpc_tokens r ++ ts) ts (declared_as (DRpc (erase_rpc r))).
Proof.
  intros (Hn & Hd & Ho & Hq & Hp). unfold rpc_tokens. rewrite <- !app_assoc. apply preads_declaration. intros index loc.
  apply (preads_declares _ erase_rpc); [done|]. unfold read_rpc. cbn [app]. rstep reads_name. rstep reads_require. rstep (preads_streamed _ _ _ Hq). rstep reads_require.
    rstep reads_word. rstep expect_true. rstep reads_require. rstep (preads_streamed _ _ _ Hp). rstep reads_require.
    eapply preads_bind; [by apply preads_rd, reads_peek_is_not|]. intros ? <-.
    eapply preads_bind; [eapply preads_bind; [apply preads_rd, reads_require|]; intros _ _; by apply preads_ret with (P := eq [])|].
    intros ? <-. apply preads_ret. unfold erase_rpc. simpl. by rewrite Hd, Ho.
Qed.
End one.

(** ** Bodies *)

(** The tokens of a declaration and what it is read as, with bodies read with enough fuel. *)
Definition member (ctx : Context) (i : list token * Declared) : Prop :=
  (exists w r, i.1 = word w :: r) /\ (forall e, i.2 ≠ DExtend e) /\
  forall fuel t ts, length i.1 <= fuel ->
    preads data syn (read_declaration data (read_body data fuel) "" ctx) (i.1 ++ t :: ts) (t :: ts) (declared_as i.2).

Lemma preads_body ctx items : forall fuel ts, (forall i, i ∈ items -> member ctx i) ->
  length (concat (map fst items)) < fuel ->
  preads data syn (read_body data fuel ctx) (concat (map fst items) ++ TChar "}" :: ts) ts (fun ds => map erase_declared ds = map snd items).
Proof.
  induction items as [|[its d] items IH]; intros [|fuel] ts H Hf; try lia; cbn [read_body].
  - rstep reads_read_documentation. rstep reads_close. by apply preads_ret.
  - destruct (H _ ltac:(left)) as ((w & r & Hw) & Hd & Hm). simpl in *. rewrite <- app_assoc.
    destruct (concat (map fst items) ++ TChar "}" :: ts) as [|t ts'] eqn:Et; [by destruct (concat _)|].
    rewrite length_app in Hf. rstep reads_read_documentation. rewrite Hw. cbn [app]. apply preads_ok. intros Hok.
    rstep (reads_not_close _ _ Hok). change (word w :: r ++ t :: ts') with ((word w :: r) ++ t :: ts'). rewrite <- Hw.
    eapply preads_bind; [apply Hm; lia|]. intros d' Hd'.
    eapply (preads_bind _ _ _ _ _ _ _ (fun _ => True)).
    { destruct d', ctx; try by apply preads_ret. exfalso. unfold declared_as in Hd'. simpl in Hd'. by eapply Hd. }
    intros _ _. rewrite <- Et. eapply preads_bind; [apply IH; [intros i Hi; apply H; by right|]|].
    { rewrite Hw in Hf. simpl in Hf. lia. }
    intros ds Hds. apply preads_ret. simpl. by rewrite Hd', Hds.
Qed.

Definition members {A} (toks : A -> list token) (mk : A -> Declared) (l : list A) : list (list token * Declared) :=
  map (fun x => (toks x, mk x)) l.
Lemma members_tokens {A} (toks : A -> list token) mk l : concat (map fst (members toks mk l)) = concat (map toks l).
Proof. unfold members. by rewrite map_map. Qed.
Lemma members_declared {A} (toks : A -> list token) mk l : map snd (members toks mk l) = map mk l.
Proof. unfold members. by rewrite map_map. Qed.
Lemma members_elem {A} (toks : A -> list token) mk l ctx : (forall x, x ∈ l -> member ctx (toks x, mk x)) ->
  forall i, i ∈ members toks mk l -> member ctx i.
Proof. intros H i (x & <- & Hx)%list_elem_of_In%in_map_iff. apply H. by apply list_elem_of_In. Qed.

(** What is selected from the declarations of a body. *)
Lemma select_erased {A} (sel : Declared -> option A) (erase : A -> A) ds : (forall d, sel (erase_declared d) = erase <$> sel d) ->
  map erase (omap sel ds) = omap sel (map erase_declared ds).
Proof.
  intros H. induction ds as [|d ds IH]; [done|]. csimpl. rewrite H. destruct (sel d); csimpl; by rewrite IH.
Qed.
Lemma select_members {A B} (sel : Declared -> option B) (mk : A -> Declared) (g : A -> B) l : (forall x, sel (mk x) = Some (g x)) ->
  omap sel (map mk l) = map g l.
Proof. intros H. induction l as [|x l IH]; [done|]. csimpl. rewrite H. by rewrite IH. Qed.
Lemma select_others {A B} (sel : Declared -> option B) (mk : A -> Declared) l : (forall x, sel (mk x) = None) -> omap sel (map mk l) = [].
Proof. intros H. induction l as [|x l IH]; [done|]. csimpl. by rewrite H. Qed.

Ltac selects :=
  rewrite ?omap_app;
  repeat first [rewrite select_others by done | erewrite select_members by (intros; reflexivity)];
  rewrite ?app_nil_r, ?app_nil_l.

(** ** Types *)

Lemma head_word_app w (ts ts' : list token) : exists w' r, (word w :: ts) ++ ts' = word w' :: r.
Proof. by exists w, (ts ++ ts'). Qed.
Lemma field_head syn' f : plain_field syn' f -> exists w r, field_tokens f = word w :: r.
Proof. intros (ty & Hb & _). rewrite (field_tokens_split f ty Hb). eauto. Qed.
Lemma element_head e : exists w r, element_tokens e = word w :: r.
Proof. destruct e; [rewrite element_tokens_message|]; simpl; eauto. Qed.

Definition preads_type (e : TypeElement) : Prop := forall ctx fuel ts, ctx = FILE \/ ctx = MESSAGE ->
  length (element_tokens e) <= fuel ->
  preads data syn (read_declaration data (read_body data fuel) "" ctx) (element_tokens e ++ ts) ts (declared_as (DType (canonical_type e))).

Lemma option_member ctx escaped o : simple_option escaped o = true -> member ctx (declaration_tokens escaped o, DOption o).
Proof. intros Ho. split; [simpl; unfold declaration_tokens; eauto|]. split; [done|]. intros. by apply preads_option. Qed.
Lemma options_members ctx escaped os : forallb (simple_option escaped) os = true ->
  forall i, i ∈ members (declaration_tokens escaped) DOption os -> member ctx i.
Proof.
  intros H. apply members_elem. intros o Ho. apply option_member. rewrite forallb_forall in H. apply H. by apply list_elem_of_In.
Qed.

(** The declarations of an enum and of a message, in the order they are printed. *)
Definition enum_members (os : list OptionElement) (cs : list EnumConstantElement) :=
  members (declaration_tokens false) DOption os ++ members constant_tokens (DConstant ∘ erase_constant) cs.
Lemma enum_members_ok os cs : forallb (simple_option false) os = true -> (forall c, c ∈ cs -> plain_constant c) ->
  forall i, i ∈ enum_members os cs -> member ENUM_CONTEXT i.
Proof.
  intros Ho Hc i [Hi|Hi]%elem_of_app; [by eapply options_members|]. revert i Hi. apply members_elem. intros c Hx.
  split; [unfold constant_tokens; simpl; eauto|]. split; [done|]. intros. by apply preads_constant, Hc.
Qed.
Lemma enum_read l n os cs : is_word_str n = true -> forallb (simple_option false) os = true ->
  (forall c, c ∈ cs -> plain_constant c) -> preads_type (EnumElement l n "" os cs).
Proof.
  intros Hn Ho Hc ctx fuel ts Hctx Hf. cbn [element_tokens] in *. rewrite <- !app_assoc. cbn [app]. apply preads_declaration.
  intros index loc.
  assert (Hl : read_labelled data (read_body data fuel) index loc "enum" "" ctx =
    declares DType (read_enum_element data (read_body data fuel) loc "")) by (by destruct Hctx as [-> | ->]). rewrite Hl. clear Hl.
  unfold declares, read_enum_element. eapply preads_bind; [|intros e He; apply preads_ret; exact He].
  rstep reads_name. rstep reads_require. eapply preads_bind.
  - assert (Ht : concat (map (declaration_tokens false) os) ++ concat (map constant_tokens cs) = concat (map fst (enum_members os cs))).
    { unfold enum_members. by rewrite map_app, concat_app, !members_tokens. }
    rewrite app_assoc, Ht. apply preads_body; [by apply enum_members_ok|]. rewrite <- Ht. simpl in Hf.
    rewrite !length_app in *. simpl in Hf. lia.
  - intros ds Hds. unfold enum_members in Hds. rewrite map_app, !members_declared in Hds. apply preads_ret.
    unfold declared_as. simpl. f_equal. f_equal.
    + rewrite <- (map_id (omap _ ds)), (select_erased _ (fun x => x)) by (by intros []). rewrite Hds. selects. apply map_id.
    + rewrite (select_erased _ erase_constant) by (by intros []). rewrite Hds. by selects.
Qed.

Definition message_members (rs : list ReservedElement) os fs oofs xs nested :=
  members reserved_tokens (DReserved ∘ erase_reserved) rs ++ members (declaration_tokens true) DOption os ++
  members field_tokens (DField ∘ erase_field) fs ++ members one_of_tokens (DOneOf ∘ erase_one_of) oofs ++
  members extensions_tokens (DExtensions ∘ erase_extensions) xs ++
  members element_tokens (DType ∘ canonical_type) (messages_first nested).

Lemma messages_first_elem l e : e ∈ messages_first l -> e ∈ l.
Proof. unfold messages_first. rewrite elem_of_app. by intros [[H _]%list_elem_of_In%filter_In|[H _]%list_elem_of_In%filter_In]; apply list_elem_of_In. Qed.
Lemma canonical_is_message e : is_message_element (canonical_type e) = is_message_element e.
Proof. by destruct e. Qed.
Lemma filter_map_kept {A} (sel : A -> bool) (er : A -> A) l : (forall e, sel (er e) = sel e) ->
  List.filter sel (map er l) = map er (List.filter sel l).
Proof. intros H. induction l as [|e l IH]; [done|]. simpl. rewrite H, IH. by destruct (sel e). Qed.
Lemma messages_first_canonical l : map canonical_type (messages_first l) = messages_first (map canonical_type l).
Proof. unfold messages_first. by rewrite map_app, !filter_map_kept by (by intros []). Qed.

Lemma message_members_ok rs os fs oofs xs nested : (forall r, r ∈ rs -> plain_reserved r) -> forallb (simple_option true) os = true ->
  (forall f, f ∈ fs -> plain_field syn f) -> (forall o, o ∈ oofs -> plain_one_of o) -> (forall x, x ∈ xs -> plain_extensions x) ->
  (forall e, e ∈ nested -> preads_type e) -> forall i, i ∈ message_members rs os fs oofs xs nested -> member MESSAGE i.
Proof.
  intros Hr Ho Hf Hoo Hx Hn i. unfold message_members. rewrite !elem_of_app. intros [Hi|[Hi|[Hi|[Hi|[Hi|Hi]]]]]; revert i Hi.
  2: by apply options_members. all: apply members_elem; intros x Hin; split; [|split; [done|intros fuel t ts Hfuel]].
  - unfold reserved_tokens. simpl. eauto.
  - by apply preads_reserved, Hr.
  - by eapply field_head, Hf.
  - apply preads_field_member; [by left|by apply Hf].
  - unfold one_of_tokens. simpl. eauto.
  - by apply preads_one_of, Hoo.
  - unfold extensions_tokens. simpl. eauto.
  - by apply preads_extensions, Hx.
  - apply element_head.
  - apply Hn; [by apply messages_first_elem|by right|done].
Qed.

Lemma type_read e : plain_element syn e -> preads_type e.
Proof.
  induction e as [l n d nested os rs fs oofs xs gs IH|l n d os cs] using type_element_induction.
  2: { intros (Hn & -> & Ho & Hc). by apply enum_read. }
  rewrite plain_message. intros (Hn & -> & -> & Ho & Hr & Hf & Hoo & Hx & Hne) ctx fuel ts Hctx Hfuel.
  assert (Ht : element_tokens (MessageElement l n "" nested os rs fs oofs xs []) =
    [word "message"; word n; TChar "{"] ++ concat (map fst (message_members rs os fs oofs xs nested)) ++ [TChar "}"]).
  { rewrite element_tokens_message. unfold message_members. by rewrite !map_app, !concat_app, !members_tokens. }
  rewrite Ht in *. rewrite <- !app_assoc. cbn [app]. apply preads_declaration. intros index loc.
  assert (Hl : read_labelled data (read_body data fuel) index loc "message" "" ctx =
    declares DType (read_message data (read_body data fuel) loc "")) by (by destruct Hctx as [-> | ->]). rewrite Hl. clear Hl.
  unfold declares, read_message. eapply preads_bind; [|intros e He; apply preads_ret; exact He].
  rstep reads_name. eapply preads_bind; [apply preads_gets|]. intros previous _. pstep preads_set_prefix. rstep reads_require.
  eapply preads_bind; [apply preads_body|].
  { apply message_members_ok; try done. intros e He. apply IH; auto. }
  { simpl in Hfuel. rewrite length_app in Hfuel. simpl in Hfuel. lia. }
  intros ds Hds. unfold message_members in Hds. rewrite !map_app, !members_declared in Hds. pstep preads_set_prefix. apply preads_ret.
  unfold declared_as. simpl. f_equal. f_equal.
  - rewrite (select_erased _ erase_type) by (by intros []). rewrite Hds. selects. by rewrite <- messages_first_canonical.
  - rewrite <- (map_id (omap _ ds)), (select_erased _ (fun x => x)) by (by intros []). rewrite Hds. selects. apply map_id.
  - rewrite (select_erased _ erase_reserved) by (by intros []). rewrite Hds. by selects.
  - rewrite (select_erased _ erase_field) by (by intros []). rewrite Hds. by selects.
  - rewrite (select_erased _ erase_one_of) by (by intros []). rewrite Hds. by selects.
  - rewrite (select_erased _ erase_extensions) by (by intros []). rewrite Hds. by selects.
  - rewrite <- (map_id (omap _ ds)), (select_erased _ (fun x => x)) by (by intros []). rewrite Hds. by selects.
Qed.

(** ** Extensions and services of the file *)

Lemma extend_read e fuel ts : plain_extend syn e -> length (extend_tokens e) <= fuel ->
  preads data syn (read_declaration data (read_body data fuel) "" FILE) (extend_tokens e ++ ts) ts (declared_as (DExtend (erase_extend e))).
Proof.
  intros (Hn & Hd & Hf) Hfuel. unfold extend_tokens in *. rewrite <- !app_assoc. cbn [app]. apply preads_declaration. intros index loc.
  apply (preads_declares _ erase_extend); [done|]. unfold read_extend. rstep reads_name. rstep reads_require.
  rewrite <- (members_tokens field_tokens (DField ∘ erase_field)) in *.
  eapply preads_bind; [apply preads_body|].
  { apply members_elem. intros f Hx. split; [by eapply field_head, Hf|]. split; [done|]. intros.
    apply preads_field_member; [by right|by apply Hf]. }
  { simpl in Hfuel. rewrite length_app in Hfuel. simpl in Hfuel. lia. }
  intros ds Hds. rewrite members_declared in Hds. apply preads_ret. unfold erase_extend. simpl. f_equal; [done|].
  rewrite (select_erased _ erase_field) by (by intros []). rewrite Hds. by selects.
Qed.

Lemma service_read s fuel ts : plain_service s -> length (service_tokens s) <= fuel ->
  preads data syn (read_declaration data (read_body data fuel) "" FILE) (service_tokens s ++ ts) ts (declared_as (DService (erase_service s))).
Proof.
  intros (Hn & Hd & Ho & Hr) Hfuel. unfold service_tokens in *.
  assert (Ht : concat (map (declaration_tokens false) (s_options s)) ++ concat (map rpc_tokens (s_rpcs s)) =
    concat (map fst (members (declaration_tokens false) DOption (s_options s) ++ members rpc_tokens (DRpc ∘ erase_rpc) (s_rpcs s)))).
  { by rewrite map_app, concat_app, !members_tokens. }
  rewrite <- !app_assoc. cbn [app]. apply preads_declaration. intros index loc.
  apply (preads_declares _ erase_service); [done|]. unfold read_service. rstep reads_name. rstep reads_require.
  rewrite app_assoc, Ht. eapply preads_bind; [apply preads_body|].
  { intros i [Hi|Hi]%elem_of_app; [by eapply options_members|]. revert i Hi. apply members_elem. intros r Hx.
    split; [unfold rpc_tokens; simpl; eauto|]. split; [done|]. intros. by apply preads_rpc, Hr. }
  { rewrite <- Ht. simpl in Hfuel. rewrite !length_app in *. simpl in Hfuel. lia. }
  intros ds Hds. rewrite map_app, !members_declared in Hds. apply preads_ret. unfold erase_service. simpl. f_equal; [done|..].
  - rewrite (select_erased _ erase_rpc) by (by intros []). rewrite Hds. by selects.
  - rewrite <- (map_id (omap _ ds)), (select_erased _ (fun x => x)) by (by intros []). rewrite Hds. selects. apply map_id.
Qed.
End declarations.
