(* ===== verification/ProtoRoundTrip.v ===== *)
(** * The normalised text of a protobuf file reads back

    [schema_to_schema] prints a plain file as a text that [parse] reads as the same file, with nested
    and top-level messages before enums, whatever the locations; printing it again gives the same
    text, so that the normalised text of a schema is a fixpoint of parsing and printing. *)

From S2P Require Import Prelude Typing Protobuf ProtoReader ProtoReaderSpec ProtoElements ProtoParser ProtoLayout ProtoTokens ProtoPrint ProtoRead ProtoDeclare.
Open Scope nat_scope.

Definition erase_file (f : ProtoFileElement) : ProtoFileElement :=
  mkFile (file_package f) (file_syntax f) (file_imports f) (file_public_imports f) (map erase_type (file_types f))
    (map erase_service (file_services f)) (map erase_extend (file_extends f)) (file_options f).
Definition canonical_file (f : ProtoFileElement) : ProtoFileElement :=
  mkFile (file_package f) (file_syntax f) (file_imports f) (file_public_imports f)
    (map canonical_type (messages_first (file_types f)))
    (map erase_service (file_services f)) (map erase_extend (file_extends f)) (file_options f).

Section file.
Context (data : list ascii).
Abbreviation declaration := (read_declaration data (read_body data (body_fuel data)) "" FILE).

(** The parser has read [start]; it reads the file [final] from the tokens. *)
Definition file_reads (ts : list token) (start final : ProtoFileElement) : Prop :=
  forall fuel p, length ts < fuel -> stands data ts (reader p) -> erase_file (file_element p) = start ->
  exists p' f, read_proto_file data fuel p = (p', Ok f) /\ erase_file f = final.

(** One declaration at the top of the file. *)
Definition declared_step (its ts : list token) (next : ProtoFileElement) (p : Parser) : Prop :=
  exists p1 d p', declaration p = (p1, Ok d) /\ add_declaration d p1 = (p', Ok ()) /\
    stands data ts (reader p') /\ erase_file (file_element p') = next.
Definition file_step (its : list token) (start next : ProtoFileElement) : Prop :=
  (exists w r, its = word w :: r) /\
  forall ts p, stands data (its ++ ts) (reader p) -> erase_file (file_element p) = start -> declared_step its ts next p.

Lemma file_reads_nil start : file_reads [] start start.
Proof.
  intros [|fuel] p Hf Hp Hs; [lia|]. destruct (documentation_step _ _ _ Hp) as (r' & E & Hrest & Hr).
  exists (set_reader r' p), (file_element p). split; [|done]. cbn [read_proto_file]. unfold mbind, M_bind, rd at 1. rewrite E.
  unfold rd. cbn [reader set_reader]. by rewrite exhausted_end.
Qed.
Lemma read_proto_file_step its ts next p fuel : (exists w r, its = word w :: r) -> stands data (its ++ ts) (reader p) ->
  (forall r, stands data (its ++ ts) r -> declared_step its ts next (set_reader r p)) ->
  exists p', read_proto_file data (S fuel) p = read_proto_file data fuel p' /\ stands data ts (reader p') /\ erase_file (file_element p') = next.
Proof.
  intros (w & r & ->) Hp Hd. destruct (documentation_step _ _ _ Hp) as (r' & E & Hready). cbn [app] in *.
  destruct (Hd r' (ready_stands _ _ _ _ Hready)) as (p1 & d & p' & E1 & E2 & Hp' & Hn).
  exists p'. split; [|done]. cbn [read_proto_file]. unfold mbind, M_bind, rd at 1. rewrite E. unfold rd. cbn [reader set_reader].
  rewrite (exhausted_more _ _ _ _ Hready). cbn [reader set_reader].
  change (set_reader r' (set_reader r' p)) with (set_reader r' p). by rewrite E1, E2.
Qed.
Lemma file_reads_step its ts start next final : file_step its start next -> file_reads ts next final -> file_reads (its ++ ts) start final.
Proof.
  intros (Hw & Hd) Hrest [|fuel] p Hf Hp Hs; [lia|].
  destruct (read_proto_file_step its ts next p fuel Hw Hp) as (p' & -> & Hp' & Hn); [intros r Hr; by apply Hd|].
  apply Hrest; [|done|done]. destruct Hw as (w & r & ->). simpl in Hf. rewrite length_app in Hf. lia.
Qed.

(** Declarations of one kind, each of which extends the list the file depends on. *)
Lemma file_reads_list {A B} (toks : A -> list token) (file : list B -> ProtoFileElement) (g : A -> B) l ts final :
  (forall l1 x l2, l = l1 ++ x :: l2 -> file_step (toks x) (file (map g l1)) (file (map g (l1 ++ [x])))) ->
  file_reads ts (file (map g l)) final -> file_reads (concat (map toks l) ++ ts) (file []) final.
Proof.
  intros Hstep Hrest. change (file_reads (concat (map toks l) ++ ts) (file (map g [])) final).
  assert (Hgen : forall l2 l1, l = l1 ++ l2 -> file_reads (concat (map toks l2) ++ ts) (file (map g l1)) final).
  { induction l2 as [|x l2 IH]; intros l1 E; [rewrite app_nil_r in E; by subst|]. simpl. rewrite <- app_assoc.
    eapply file_reads_step; [by eapply Hstep|]. apply IH. by rewrite <- app_assoc. }
  by apply Hgen.
Qed.

(** ** Declarations that change the file directly *)

Lemma rd_reads {A} (m : M Reader A) ts ts' P p : reads data m ts ts' P -> stands data ts (reader p) ->
  exists r v, rd m p = (set_reader r p, Ok v) /\ P v /\ stands data ts' r.
Proof. intros Hm Hp. destruct (Hm _ Hp) as (r & v & E & Hv & Hr). exists r, v. unfold rd. by rewrite E. Qed.

Lemma declaration_head w ts p : stands data (word w :: ts) (reader p) ->
  exists r loc, stands data ts r /\
    declaration p = read_labelled data (read_body data (body_fuel data)) (declaration_count p) loc w "" FILE (set_reader r (count_declaration p)).
Proof.
  intros Hp. pose proof (stands_ok _ _ _ _ Hp) as Hw.
  destruct (rd_reads _ _ _ _ (count_declaration p) (reads_peek_is_not data ";" (word w) ts (word_head w ";" Hw eq_refl)) Hp) as (r1 & b & E1 & <- & H1).
  destruct (rd_reads _ _ _ _ (set_reader r1 (count_declaration p)) (reads_word data w ts) H1) as (r2 & w' & E2 & <- & H2).
  exists r2. eexists. split; [done|]. unfold read_declaration, mbind, M_bind, gets, modify. rewrite E1. unfold rd at 1. unfold location, gets.
  cbn [reader set_reader]. change (set_reader r1 (set_reader r1 (count_declaration p))) with (set_reader r1 (count_declaration p)).
  rewrite E2. reflexivity.
Qed.

Lemma package_step pk s i pi ty sv ex os :
  file_step [word "package"; word pk; TChar ";"] (mkFile None s i pi ty sv ex os) (mkFile (Some pk) s i pi ty sv ex os).
Proof.
  split; [eauto|]. intros ts p Hp Hs. destruct (declaration_head _ _ _ Hp) as (r & loc & Hr & E).
  set (p0 := set_reader r (count_declaration p)) in *.
  destruct (rd_reads _ _ _ _ p0 (reads_name data pk _) Hr) as (r1 & n & E1 & <- & H1).
  destruct (rd_reads _ _ _ _ (set_package pk (set_reader r1 p0)) (reads_require data ";" ts) H1) as (r2 & u & E2 & _ & H2).
  exists (set_reader r2 (set_package pk (set_reader r1 p0))), DNone, (set_reader r2 (set_package pk (set_reader r1 p0))).
  split_and!; [|done|done|].
  - rewrite E. unfold read_labelled. simpl. unfold mbind, M_bind. rewrite E1. unfold modify. by rewrite E2.
  - unfold erase_file in Hs |- *. simpl in *. injection Hs. intros. subst. done.
Qed.

Lemma import_step public f pk s i pi ty sv ex os : f ≠ "public"%string ->
  file_step (import_tokens public f) (mkFile pk s i pi ty sv ex os)
    (mkFile pk s (if public then i else i ++ [f]) (if public then pi ++ [f] else pi) ty sv ex os).
Proof.
  intros Hf. split; [unfold import_tokens; simpl; eauto|]. intros ts p Hp Hs. unfold import_tokens in Hp. rewrite <- !app_assoc in Hp.
  destruct (declaration_head _ _ _ Hp) as (r & loc & Hr & E). set (p0 := set_reader r (count_declaration p)) in *.
  assert (Hread : exists p', read_import data p0 = (p', Ok ()) /\ stands data ts (reader p') /\
    erase_file (file_element p') = mkFile pk s (if public then i else i ++ [f]) (if public then pi ++ [f] else pi) ty sv ex os).
  { unfold read_import, mbind, M_bind. destruct public; cbn [app] in Hr.
    - destruct (rd_reads _ _ _ _ p0 (reads_read_string_word data (to_text "public") _) Hr) as (r1 & n & E1 & <- & H1).
      destruct (rd_reads _ _ _ _ (set_reader r1 p0) (reads_string data f _ (TChar ";") ts eq_refl) H1) as (r2 & n & E2 & <- & H2).
      destruct (rd_reads _ _ _ _ (add_import true f (set_reader r2 (set_reader r1 p0))) (reads_require data ";" ts) H2) as (r3 & u & E3 & _ & H3).
      rewrite E1. simpl. rewrite E2. unfold modify. rewrite E3. destruct u. eexists. split; [done|]. split; [done|].
      unfold erase_file in Hs |- *. simpl in *. injection Hs. intros. subst. done.
    - destruct (rd_reads _ _ _ _ p0 (reads_string data f _ (TChar ";") ts eq_refl) Hr) as (r2 & n & E2 & <- & H2).
      destruct (rd_reads _ _ _ _ (add_import false f (set_reader r2 p0)) (reads_require data ";" ts) H2) as (r3 & u & E3 & _ & H3).
      rewrite E2. destruct (String.eqb_spec f "public"); [done|]. unfold modify. rewrite E3. destruct u. eexists. split; [done|]. split; [done|].
      unfold erase_file in Hs |- *. simpl in *. injection Hs. intros. subst. done. }
  destruct Hread as (p' & E1 & H1 & Hn). exists p', DNone, p'. split_and!; [|done|done|done].
  rewrite E. unfold read_labelled. simpl. unfold mbind, M_bind. by rewrite E1.
Qed.

(** The syntax comes first. *)
Lemma syntax_step s ts p : stands data ([word "syntax"; TChar "="; TQuoted (to_text (syntax_str s)) (to_text (syntax_str s)); TChar ";"] ++ ts) (reader p) ->
  syntax p = None -> declaration_count p = 0 ->
  declared_step [] ts (erase_file (file_element (set_syntax s p))) p.
Proof.
  intros Hp Hs Hc. cbn [app] in Hp. destruct (declaration_head _ _ _ Hp) as (r & loc & Hr & E). rewrite Hc in E.
  set (p0 := set_reader r (count_declaration p)) in *.
  destruct (rd_reads _ _ _ _ p0 (reads_require data "=" _) Hr) as (r1 & u & E1 & _ & H1). destruct u.
  destruct (rd_reads _ _ _ _ (set_reader r1 p0) (reads_quoted data (syntax_str s) _ (TChar ";") ts eq_refl) H1) as (r2 & n & E2 & <- & H2).
  destruct (rd_reads _ _ _ _ (set_syntax s (set_reader r2 (set_reader r1 p0))) (reads_require data ";" ts) H2) as (r3 & u & E3 & _ & H3).
  exists (set_reader r3 (set_syntax s (set_reader r2 (set_reader r1 p0)))), DNone, (set_reader r3 (set_syntax s (set_reader r2 (set_reader r1 p0)))).
  split_and!; [|done|done|done]. rewrite E. unfold read_labelled. cbn [String.eqb Ascii.eqb Bool.eqb permits_package permits_import permits_syntax andb].
  unfold read_syntax, mbind, M_bind, gets. change (syntax p0) with (syntax p). rewrite Hs.
  change (rd (expect true) p0) with (p0, @Ok () ()). cbv beta iota. rewrite E1.
  change (rd (expect (0 =? 0)) (set_reader r1 p0)) with (set_reader r1 p0, @Ok () ()). cbv beta iota. rewrite E2.
  destruct s; simpl; unfold modify; by rewrite E3.
Qed.

(** ** Declarations that are added to the file *)

Lemma framed_step its start next d : (exists w r, its = word w :: r) ->
  (forall ts, length its <= body_fuel data -> preads data (file_syntax start) declaration (its ++ ts) ts (declared_as d)) ->
  (forall d' p, declared_as d d' -> erase_file (file_element p) = start ->
     exists p', add_declaration d' p = (p', Ok ()) /\ reader p' = reader p /\ erase_file (file_element p') = next) ->
  file_step its start next.
Proof.
  intros Hw Hread Hadd. split; [done|]. intros ts p Hp Hs.
  assert (Hl : length its <= body_fuel data).
  { apply stands_length in Hp. rewrite length_app in Hp. unfold body_fuel. lia. }
  destruct (Hread ts Hl p) as (p1 & d' & E & Hd & H1 & F); [by rewrite <- Hs|done|].
  destruct (Hadd d' p1 Hd) as (p' & E' & Hr & Hn).
  { rewrite <- Hs. unfold frame in F. injection F as F1 F2 F3 F4 F5 F6 F7 F8. unfold erase_file, file_element. simpl. congruence. }
  exists p1, d', p'. split_and!; [done|done|by rewrite Hr|done].
Qed.

Lemma option_step o pk s i pi ty sv ex os : simple_option true o = true ->
  file_step (declaration_tokens true o) (mkFile pk s i pi ty sv ex os) (mkFile pk s i pi ty sv ex (os ++ [o])).
Proof.
  intros Ho. apply (framed_step _ _ _ (DOption o)); [unfold declaration_tokens; simpl; eauto|intros; by apply preads_option|].
  intros d' p Hd Hs. unfold declared_as in Hd. destruct d'; try done. injection Hd as ->. eexists. split; [done|]. split; [done|].
  unfold erase_file in Hs |- *. simpl in *. injection Hs. intros. subst. done.
Qed.
Lemma declared_extend e d : declared_as (DExtend e) d -> exists e', d = DExtend e' /\ erase_extend e' = e.
Proof. unfold declared_as. destruct d; try done. intros H. injection H as H. eauto. Qed.
Lemma declared_service x d : declared_as (DService x) d -> exists x', d = DService x' /\ erase_service x' = x.
Proof. unfold declared_as. destruct d; try done. intros H. injection H as H. eauto. Qed.
Lemma declared_type e d : declared_as (DType e) d -> exists e', d = DType e' /\ erase_type e' = e.
Proof. unfold declared_as. destruct d; try done. intros H. injection H as H. eauto. Qed.

Lemma extend_step e pk s i pi ty sv ex os : plain_extend s e ->
  file_step (extend_tokens e) (mkFile pk s i pi ty sv ex os) (mkFile pk s i pi ty sv (ex ++ [erase_extend e]) os).
Proof.
  intros He. apply (framed_step _ _ _ (DExtend (erase_extend e))); [unfold extend_tokens; simpl; eauto|intros; by apply extend_read|].
  intros d' p (e' & -> & Hd)%declared_extend Hs. eexists. split; [done|]. split; [done|].
  unfold erase_file in Hs |- *. simpl in *. injection Hs. intros. subst. rewrite map_app. by rewrite <- Hd.
Qed.

Lemma erase_type_name e : element_name (erase_type e) = element_name e.
Proof. by destruct e. Qed.
Lemma canonical_type_name e : element_name (canonical_type e) = element_name e.
Proof. by destruct e. Qed.
Lemma existsb_name {A} (name : A -> string) l n : n ∉ map name l -> existsb (fun x => String.eqb (name x) n) l = false.
Proof.
  intros H. apply not_true_iff_false. rewrite existsb_exists. intros (x & Hx & E%String.eqb_eq). apply H. rewrite <- E.
  apply list_elem_of_In. by apply in_map.
Qed.
Lemma type_step e pk s i pi ty sv ex os : plain_element s e -> element_name e ∉ map element_name ty ->
  file_step (element_tokens e) (mkFile pk s i pi ty sv ex os) (mkFile pk s i pi (ty ++ [canonical_type e]) sv ex os).
Proof.
  intros He Hn. apply (framed_step _ _ _ (DType (canonical_type e))); [apply element_head|intros; apply type_read; [done|by left|done]|].
  intros d' p (e' & -> & Hd)%declared_type Hs.
  assert (Hname : element_name e' = element_name e) by (by rewrite <- (erase_type_name e'), Hd, canonical_type_name).
  unfold erase_file in Hs. simpl in Hs. injection Hs. intros. subst.
  assert (Hx : existsb (fun x => String.eqb (element_name x) (element_name e')) (parsed_types p) = false).
  { apply existsb_name. rewrite Hname. intros Hin. apply Hn. rewrite map_map. erewrite map_ext; [exact Hin|]. apply erase_type_name. }
  exists (add_type e' p). unfold add_declaration, mbind, M_bind, gets, id. rewrite Hx. split; [done|]. split; [done|].
  unfold erase_file. simpl. by rewrite map_app, <- Hd.
Qed.
Lemma service_step x pk s i pi ty sv ex os : plain_service x -> s_name x ∉ map s_name sv ->
  file_step (service_tokens x) (mkFile pk s i pi ty sv ex os) (mkFile pk s i pi ty (sv ++ [erase_service x]) ex os).
Proof.
  intros He Hn. apply (framed_step _ _ _ (DService (erase_service x))); [unfold service_tokens; simpl; eauto|intros; by apply service_read|].
  intros d' p (x' & -> & Hd)%declared_service Hs. assert (Hname : s_name x' = s_name x) by by apply (f_equal s_name) in Hd.
  unfold erase_file in Hs. simpl in Hs. injection Hs. intros. subst.
  assert (Hx : existsb (fun y => String.eqb (s_name y) (s_name x')) (services p) = false).
  { apply existsb_name. rewrite Hname. intros Hin. apply Hn. rewrite map_map. erewrite map_ext; [exact Hin|]. done. }
  exists (add_service x' p). unfold add_declaration, mbind, M_bind, gets, id. rewrite Hx. split; [done|]. split; [done|].
  unfold erase_file. simpl. by rewrite map_app, <- Hd.
Qed.
End file.

(** ** Whole files *)

Section whole.
Context (data : list ascii) (f : ProtoFileElement) (Hf : plain_file f).

Definition header_tokens : list token :=
  match file_syntax f with
  | Some s => [word "syntax"; TChar "="; TQuoted (to_text (syntax_str s)) (to_text (syntax_str s)); TChar ";"]
  | None => []
  end.
Definition declarations_tokens : list token :=
  (match file_package f with Some p => [word "package"; word p; TChar ";"] | None => [] end) ++
  concat (map (import_tokens false) (file_imports f)) ++ concat (map (import_tokens true) (file_public_imports f)) ++
  concat (map (declaration_tokens true) (file_options f)) ++ concat (map element_tokens (messages_first (file_types f))) ++
  concat (map extend_tokens (file_extends f)) ++ concat (map service_tokens (file_services f)).

Lemma NoDup_prefix {A} (name : A -> string) l l1 x l2 : NoDup (map name l) -> l = l1 ++ x :: l2 -> name x ∉ map name l1.
Proof.
  intros H -> Hin. rewrite map_app in H. apply NoDup_app in H as (_ & H & _). apply (H (name x)); [done|]. by left.
Qed.
Lemma messages_first_perm l : messages_first l ≡ₚ l.
Proof.
  unfold messages_first. induction l as [|e l IH]; [done|]. simpl. destruct (is_message_element e); simpl; [by rewrite IH|].
  by rewrite <- Permutation_middle, IH.
Qed.
Lemma in_split {A} (l l1 : list A) x l2 : l = l1 ++ x :: l2 -> x ∈ l.
Proof. intros ->. apply elem_of_app. right. left. Qed.

Lemma declarations_read :
  file_reads data declarations_tokens (mkFile None (file_syntax f) [] [] [] [] [] []) (canonical_file f).
Proof.
  assert (Himp : forall (public : bool) i l1 l2, (if public then file_public_imports f else file_imports f) = l1 ++ i :: l2 -> i ≠ "public"%string).
  { intros public i l1 l2 E. apply (plain_imports f Hf i), elem_of_app. destruct public; [right|left]; by eapply in_split. }
  unfold declarations_tokens. set (pk := file_package f). set (s := file_syntax f).
  assert (Hrest : file_reads data (concat (map (import_tokens false) (file_imports f)) ++ concat (map (import_tokens true) (file_public_imports f)) ++
    concat (map (declaration_tokens true) (file_options f)) ++ concat (map element_tokens (messages_first (file_types f))) ++
    concat (map extend_tokens (file_extends f)) ++ concat (map service_tokens (file_services f)))
    (mkFile pk s [] [] [] [] [] []) (canonical_file f)).
  { apply (file_reads_list _ _ (fun l => mkFile pk s l [] [] [] [] []) id).
    { intros l1 x l2 E. rewrite !map_id. apply (import_step data false). by eapply (Himp false). }
    apply (file_reads_list _ _ (fun l => mkFile pk s _ l [] [] [] []) id).
    { intros l1 x l2 E. rewrite !map_id. apply (import_step data true). by eapply (Himp true). }
    apply (file_reads_list _ _ (fun l => mkFile pk s _ _ [] [] [] l) id).
    { intros l1 x l2 E. rewrite !map_id. apply option_step. pose proof (plain_options f Hf) as Ho. rewrite forallb_forall in Ho.
      apply Ho, list_elem_of_In. by eapply in_split. }
    apply (file_reads_list _ _ (fun l => mkFile pk s _ _ l [] [] _) canonical_type).
    { intros l1 x l2 E. rewrite map_app. apply type_step.
      - apply (plain_types f Hf), messages_first_elem. by eapply in_split.
      - rewrite map_map. erewrite map_ext; [|apply canonical_type_name]. eapply NoDup_prefix; [|exact E].
        rewrite messages_first_perm. apply (distinct_types f Hf). }
    apply (file_reads_list _ _ (fun l => mkFile pk s _ _ _ [] l _) erase_extend).
    { intros l1 x l2 E. rewrite map_app. apply extend_step, (plain_extends f Hf). by eapply in_split. }
    rewrite <- (app_nil_r (concat (map service_tokens _))).
    apply (file_reads_list _ _ (fun l => mkFile pk s _ _ _ l _ _) erase_service).
    { intros l1 x l2 E. rewrite map_app. apply service_step; [apply (plain_services f Hf); by eapply in_split|].
      rewrite map_map. apply (NoDup_prefix s_name _ _ _ _ (distinct_services f Hf) E). }
    rewrite !map_id. apply file_reads_nil. }
  unfold pk at 1. destruct (file_package f) as [p|] eqn:Ep; [|exact Hrest]. eapply file_reads_step; [apply package_step|exact Hrest].
Qed.

Lemma file_read : stands data (file_tokens f) new_reader ->
  exists f', parse data = Ok f' /\ erase_file f' = canonical_file f.
Proof.
  intros Hs. pose proof (stands_length _ _ _ Hs) as Hlen. pose proof declarations_read as Hread. unfold parse.
  assert (Ht : file_tokens f = header_tokens ++ declarations_tokens) by done. rewrite Ht in Hs, Hlen. unfold header_tokens in Hs, Hlen.
  destruct (file_syntax f) as [s|].
  - destruct (read_proto_file_step data _ declarations_tokens (mkFile None (Some s) [] [] [] [] [] []) new_parser (length data)
      ltac:(eauto) Hs) as (p' & -> & Hp' & Hn).
    { intros r Hr. by apply syntax_step. }
    destruct (Hread (length data) p') as (p2 & f' & E & He); [|done|done|].
    { rewrite length_app in Hlen. simpl in Hlen. lia. }
    rewrite E. eauto.
  - destruct (Hread (S (length data)) new_parser) as (p2 & f' & E & He); [simpl in Hlen; lia|done|done|]. rewrite E. eauto.
Qed.
End whole.

(** ** Printing again *)

Lemma map_res_map {A} (show : A -> result (list ascii)) (er : A -> A) l : (forall x, x ∈ l -> show (er x) = show x) ->
  map_res show (map er l) = map_res show l.
Proof.
  induction l as [|x l IH]; intros H; [done|]. simpl. rewrite (H x) by left. rewrite IH; [done|]. intros y Hy. apply H. by right.
Qed.
Lemma indented_map {A} (show : A -> result (list ascii)) (er : A -> A) l : (forall x, show (er x) = show x) ->
  indented show (map er l) = indented show l.
Proof. intros H. unfold indented. by rewrite map_res_map. Qed.
Lemma section_map {A} (show : A -> result (list ascii)) (er : A -> A) l : (forall x, show (er x) = show x) ->
  section show (map er l) = section show l.
Proof. intros H. destruct l; [done|]. unfold section. by rewrite (indented_map show er). Qed.

Lemma field_reprint f : field_to_schema (erase_field f) = field_to_schema f.
Proof. done. Qed.
Lemma one_of_reprint o : one_of_to_schema (erase_one_of o) = one_of_to_schema o.
Proof. unfold one_of_to_schema. simpl. by rewrite section_map. Qed.
Lemma extend_reprint e : extend_to_schema (erase_extend e) = extend_to_schema e.
Proof. unfold extend_to_schema. simpl. by rewrite section_map. Qed.
Lemma service_reprint s : service_to_schema (erase_service s) = service_to_schema s.
Proof. unfold service_to_schema. simpl. by rewrite (section_map rpc_to_schema). Qed.
Lemma enum_reprint n d os cs : enum_to_schema n d os (map erase_constant cs) = enum_to_schema n d os cs.
Proof. unfold enum_to_schema. rewrite indented_map by done. by destruct cs. Qed.

(** The members of a message other than its nested types. *)
Lemma message_reprint l n d nested nested' os rs fs oofs xs gs :
  nested_strings nested' = nested_strings nested -> (nested' = [] <-> nested = []) ->
  type_string (MessageElement DEFAULT_LOCATION n d nested' os (map erase_reserved rs) (map erase_field fs) (map erase_one_of oofs)
    (map erase_extensions xs) gs) = type_string (MessageElement l n d nested os rs fs oofs xs gs).
Proof.
  intros Hn He. rewrite !type_string_message, Hn.
  rewrite (section_map reserved_to_schema), (section_map field_to_schema), (section_map one_of_to_schema), (section_map extensions_to_schema)
    by (done || apply one_of_reprint).
  destruct nested, nested'; try done; [discriminate (proj2 He eq_refl)|discriminate (proj1 He eq_refl)].
Qed.
Lemma nested_strings_map er l : (forall e, is_message_element (er e) = is_message_element e) ->
  (forall e, e ∈ l -> type_string (er e) = type_string e) -> nested_strings (map er l) = nested_strings l.
Proof.
  intros Hm. induction l as [|e l IH]; intros H; [done|]. simpl. rewrite (H e) by left. rewrite Hm, IH; [done|].
  intros x Hx. apply H. by right.
Qed.
Lemma type_reprint e : type_string (erase_type e) = type_string e.
Proof.
  induction e as [l n d nested os rs fs oofs xs gs IH|l n d os cs] using type_element_induction.
  - apply message_reprint; [|by destruct nested]. apply nested_strings_map; [by intros []|done].
  - apply enum_reprint.
Qed.

(** Nested messages before nested enums: the same two texts. *)
Lemma nested_strings_filter (sel : bool -> bool) l t : nested_strings l = Ok t ->
  nested_strings (List.filter (fun e => sel (is_message_element e)) l) = Ok (if sel true then t.1 else [], if sel false then t.2 else []).
Proof.
  revert t. induction l as [|e l IH]; intros t; simpl.
  - intros [= <-]. by destruct (sel true), (sel false).
  - destruct (type_string e) as [s|] eqn:Es; [|done]. simpl. destruct (nested_strings l) as [t'|]; [|done]. simpl. intros [= <-].
    specialize (IH t' eq_refl). destruct (is_message_element e) eqn:Em.
    + destruct (sel true) eqn:E1; simpl; [|by rewrite IH]. rewrite Es. simpl. rewrite IH, Em. done.
    + destruct (sel false) eqn:E2; simpl; [|by rewrite IH]. rewrite Es. simpl. rewrite IH, Em. done.
Qed.
Lemma nested_strings_app l1 l2 t1 t2 : nested_strings l1 = Ok t1 -> nested_strings l2 = Ok t2 ->
  nested_strings (l1 ++ l2) = Ok (t1.1 ++ t2.1, t1.2 ++ t2.2).
Proof.
  revert t1. induction l1 as [|e l1 IH]; intros t1; simpl.
  - intros [= <-] ->. by destruct t2.
  - destruct (type_string e) as [s|]; [|done]. simpl. destruct (nested_strings l1) as [t'|]; [|done]. simpl. intros [= <-] H2.
    rewrite (IH t' eq_refl H2). simpl. by destruct (is_message_element e); simpl; rewrite ?app_assoc.
Qed.
Lemma nested_strings_order l t : nested_strings l = Ok t -> nested_strings (messages_first l) = Ok t.
Proof.
  intros H. unfold messages_first.
  pose proof (nested_strings_app _ _ _ _ (nested_strings_filter (fun b => b) l t H) (nested_strings_filter negb l t H)) as E. simpl in E.
  rewrite app_nil_r in E. etransitivity; [exact E|]. by destruct t.
Qed.
Lemma type_string_printed syn e : plain_element syn e -> exists s, type_string e = Ok s.
Proof. intros H. destruct (type_printed syn e H) as (s & Hs & _). eauto. Qed.

Lemma canonical_reprint syn e : plain_element syn e -> type_string (canonical_type e) = type_string e.
Proof.
  induction e as [l n d nested os rs fs oofs xs gs IH|l n d os cs] using type_element_induction; [|intros _; apply enum_reprint].
  rewrite plain_message. intros (_ & _ & _ & _ & _ & _ & _ & _ & Hne). apply message_reprint.
  - destruct (nested_printed nested) as (t & Ht & _); [intros e He; eapply type_printed, Hne, He|].
    rewrite Ht. apply nested_strings_order. rewrite nested_strings_map; [done|apply canonical_is_message|]. intros e He. apply IH; auto.
  - rewrite <- messages_first_canonical. pose proof (messages_first_perm nested) as Hp. split.
    + intros E%map_eq_nil. rewrite E in Hp. by apply Permutation_nil in Hp.
    + by intros ->.
Qed.

(** Types, extensions and services that print the same make a file that prints the same. *)
Lemma schema_same_parts er f ty : (forall e, e ∈ file_types f -> type_string (er e) = type_string e) ->
  List.filter is_message_element ty = map er (List.filter is_message_element (file_types f)) ->
  List.filter others ty = map er (List.filter others (file_types f)) -> (ty = [] <-> file_types f = []) ->
  schema_to_schema (mkFile (file_package f) (file_syntax f) (file_imports f) (file_public_imports f) ty
    (map erase_service (file_services f)) (map erase_extend (file_extends f)) (file_options f)) = schema_to_schema f.
Proof.
  intros He Hm Ho Hn. unfold schema_to_schema. unfold others in Ho. cbn [file_types file_options file_extends file_services]. rewrite Hm, Ho.
  assert (Hsel : forall sel, map_res type_string (map er (List.filter sel (file_types f))) = map_res type_string (List.filter sel (file_types f))).
  { intros sel. apply map_res_map. intros e [H _]%list_elem_of_In%filter_In. apply He. by apply list_elem_of_In. }
  rewrite !Hsel, (map_res_map extend_to_schema), (map_res_map service_to_schema) by (intros; apply extend_reprint || apply service_reprint).
  assert (Hpart : forall s : list ascii, match ty with [] => [] | _ => LF :: s end = match file_types f with [] => [] | _ => LF :: s end).
  { intros s. destruct ty, (file_types f); try done; [discriminate (proj1 Hn eq_refl)|discriminate (proj2 Hn eq_refl)]. }
  simpl. destruct (map_res option_element_string (file_options f)); simpl; [|done].
  do 2 (destruct (map_res type_string _); simpl; [|done]). do 2 (destruct (map_res _ _); simpl; [|done]).
  rewrite Hpart. by destruct (file_extends f), (file_services f).
Qed.
Lemma filter_filter {A} (p q : A -> bool) l : List.filter p (List.filter q l) = List.filter (fun x => q x && p x) l.
Proof. induction l as [|x l IH]; [done|]. simpl. destruct (q x); simpl; by rewrite IH. Qed.
Lemma messages_first_filter l : List.filter is_message_element (messages_first l) = List.filter is_message_element l /\
  List.filter others (messages_first l) = List.filter others l.
Proof.
  unfold messages_first, others. rewrite !List.filter_app, !filter_filter.
  assert (Hnone : forall sel, (forall e : TypeElement, sel e = false) -> List.filter sel l = []).
  { intros sel H. induction l as [|e l IH]; [done|]. simpl. by rewrite H. }
  split.
  - rewrite (Hnone (fun x => negb _ && _)), app_nil_r by (intros e; by destruct (is_message_element e)).
    apply List.filter_ext. intros e. by destruct (is_message_element e).
  - rewrite (Hnone (fun x => _ && negb _)) by (intros e; by destruct (is_message_element e)).
    apply List.filter_ext. intros e. by destruct (is_message_element e).
Qed.
Lemma schema_reprint f f' : plain_file f -> erase_file f' = canonical_file f -> schema_to_schema f' = schema_to_schema f.
Proof.
  intros Hf E. etransitivity; [symmetry; apply (schema_same_parts erase_type f' (map erase_type (file_types f')))|].
  - intros e _. apply type_reprint.
  - apply filter_map_kept. by intros [].
  - apply filter_map_kept. by intros [].
  - by destruct (file_types f').
  - fold (erase_file f'). rewrite E. apply (schema_same_parts canonical_type).
    + intros e He. by eapply canonical_reprint, (plain_types f Hf).
    + rewrite filter_map_kept by (by intros []). f_equal. apply (messages_first_filter (file_types f)).
    + rewrite filter_map_kept by (by intros []). f_equal. apply (messages_first_filter (file_types f)).
    + pose proof (messages_first_perm (file_types f)) as Hp. split; [|by intros ->].
      intros En%map_eq_nil. rewrite En in Hp. by apply Permutation_nil in Hp.
Qed.

Lemma plain_rereads f : plain_file f ->
  exists s f', schema_to_schema f = Ok s /\ parse s = Ok f' /\ erase_file f' = canonical_file f /\ schema_to_schema f' = Ok s.
Proof.
  intros Hf. destruct (schema_printed f Hf) as (s & Hs & Hl). exists s.
  destruct (file_read s f Hf) as (f' & Hp & He); [split; [simpl; lia|exact Hl]|]. exists f'. split_and!; try done.
  by rewrite (schema_reprint f f' Hf He).
Qed.

(** C8. The normalised text of a protobuf file reads back: a plain file (names that are words, no
    comments, scalar options, distinct top-level names) prints, and parsing the text gives the same
    file up to locations, its messages before its enums at every level. Printing what was read gives
    the same text again. *)
Theorem normalised_text_rereads f : plain_file f ->
  exists s f', schema_to_schema f = Ok s /\ parse s = Ok f' /\ erase_file f' = canonical_file f /\ schema_to_schema f' = Ok s.
Proof. apply plain_rereads. Qed.

(** A file with most of the constructs: nested types out of order, a map, a oneof, a default, a json
    name, reserved and extension ranges, an extension, a service and escaped options. *)
Definition example_field (l : option Label) (ty n : string) (z : Z) (d j : option string) (os : list OptionElement) : FieldElement :=
  mkField DEFAULT_LOCATION l ty n d j z "" os.
Definition example_color : TypeElement :=
  EnumElement DEFAULT_LOCATION "Color" "" [mkOption "allow_alias" BOOLEAN (VStr "true") false]
    [mkConstant DEFAULT_LOCATION "RED" 0 "" []; mkConstant DEFAULT_LOCATION "BLUE" (-1) "" [mkOption "deprecated" BOOLEAN (VStr "true") false]].
Definition example_inner : TypeElement :=
  MessageElement DEFAULT_LOCATION "Inner" "" [] [] [] [example_field (Some REQUIRED) "int32" "x" 1 (Some "7") None []] [] [] [].
Definition example_order : TypeElement :=
  MessageElement (mkLocation 3 1) "Order" "" [example_color; example_inner] [mkOption "note" STRING (VStr "it's a \ test") true]
    [mkReserved DEFAULT_LOCATION "" [Name "old"; Tag 4; KotlinRange 6 9]]
    [example_field (Some OPTIONAL) "string" "id" 1 None (Some "identifier") [mkOption "deprecated" BOOLEAN (VStr "false") false];
     example_field None "map<string, Inner>" "items" 2 None None []]
    [mkOneOf "choice" "" [example_field None "Color" "color" 3 None None []] [] []]
    [mkExtensions DEFAULT_LOCATION "" [Tag 100; KotlinRange 200 MAX_TAG_VALUE]] [].
Definition example_file : ProtoFileElement :=
  mkFile (Some "shop.v1") (Some PROTO_2) ["google/protobuf/any.proto"] ["base.proto"] [example_color; example_order]
    [mkService DEFAULT_LOCATION "Shop" "" [mkRpc DEFAULT_LOCATION "Buy" "" "Order" "Inner" false true []] []]
    [mkExtend DEFAULT_LOCATION "Order" "" [example_field (Some REPEATED) "bytes" "blob" 100 None None []]]
    [mkOption "java_package" STRING (VStr "com.shop") false].

(** Proves that a concrete element is plain; types are given by their structure. *)
Ltac each_member tac :=
  let H := fresh in
  intros ? H; repeat (apply elem_of_cons in H as [->|H]; [tac|]); by apply not_elem_of_nil in H.
Ltac plain_body ty := exists ty; repeat split; done.
Ltac not_keyword := let H := fresh in intros H; repeat (apply elem_of_cons in H as [H|H]; [discriminate H|]); by apply not_elem_of_nil in H.

Lemma example_color_plain : plain_element (Some PROTO_2) example_color.
Proof. split_and!; try done. each_member ltac:(split_and!; [done|not_keyword|done|done]). Qed.
Lemma example_inner_plain : plain_element (Some PROTO_2) example_inner.
Proof.
  apply plain_message. split_and!; try done; try each_member idtac.
  each_member ltac:(plain_body (Named (to_text "int32"))).
Qed.
Lemma example_order_plain : plain_element (Some PROTO_2) example_order.
Proof.
  apply plain_message. split_and!; try done.
  - intros r ->%list_elem_of_singleton. split_and!; [done|done|]. intros n H.
    repeat (apply elem_of_cons in H as [H|H]; [first [discriminate H | by injection H as ->]|]). by apply not_elem_of_nil in H.
  - intros f H. apply elem_of_cons in H as [->|H]; [plain_body (Named (to_text "string"))|].
    apply list_elem_of_singleton in H as ->. exists (MapOf (Named (to_text "string")) (Named (to_text "Inner"))).
    split; [repeat split; done|]. split; [by right|not_keyword].
  - intros o ->%list_elem_of_singleton. split_and!; try done. intros f ->%list_elem_of_singleton. split_and!; try done.
    plain_body (Named (to_text "Color")).
  - each_member ltac:(split_and!; [done|done|each_member done]).
  - each_member ltac:(first [apply example_color_plain | apply example_inner_plain]).
Qed.
Lemma example_file_plain : plain_file example_file.
Proof.
  split.
  - by intros p [= <-].
  - each_member done.
  - done.
  - each_member ltac:(first [apply example_color_plain | apply example_order_plain]).
  - apply (bool_decide_unpack _). by vm_compute.
  - intros e ->%list_elem_of_singleton. split_and!; try done. intros f ->%list_elem_of_singleton. plain_body (Named (to_text "bytes")).
  - intros s ->%list_elem_of_singleton. split_and!; try done. intros r ->%list_elem_of_singleton. split_and!; try done;
      [by exists (Named (to_text "Order"))|by exists (Named (to_text "Inner"))].
  - apply (bool_decide_unpack _). by vm_compute.
Qed.
Lemma normalised_text_rereads_witness :
  exists s f', schema_to_schema example_file = Ok s /\ parse s = Ok f' /\ erase_file f' = canonical_file example_file /\
    schema_to_schema f' = Ok s.
Proof. apply normalised_text_rereads, example_file_plain. Defined.
