(* ===== verification/ProtoTypes.v ===== *)
(** * Declared and used types of a protobuf schema

    [core/protobuf/type_tree.py], [core/protobuf/known_dependency.py] and the part of
    [core/protobuf/schema.py] that checks that every type a schema uses is declared: the trie of the
    reversed names of the declared types, the list of used types and [verify_schema_dependencies]. A
    schema is its parsed file with the schemas of its dependencies; the mutation of the trie is
    functional update, since no part of it is shared. *)

From S2P Require Import Prelude Typing Protobuf ProtoReader ProtoElements ProtoParser.

(** ** Python strings *)

Definition split_on_dot (s : string) : list string := map of_text (split_dots (to_text s)).
Definition py_removeprefix (p s : string) : string :=
  if String.prefix p s then of_text (drop (String.length p) (to_text s)) else s.
Fixpoint lstrip_dots (t : text) : text :=
  match t with c :: t' => if is_char c "." then lstrip_dots t' else t | [] => [] end.
(** [s.find(c)] *)
Fixpoint find_char (c : ascii) (t : text) : option nat :=
  match t with [] => None | d :: t' => if is_char d c then Some O else option_map S (find_char c t') end.
Definition py_find (c : ascii) (t : text) : Z := match find_char c t with Some n => Z.of_nat n | None => -1 end.
(** [s[a:b]] *)
Definition slice_index (n : nat) (i : Z) : nat :=
  Z.to_nat (if (i <? 0)%Z then Z.max 0 (Z.of_nat n + i) else Z.min i (Z.of_nat n)).
Definition slice (a b : Z) (t : text) : text :=
  let lo := slice_index (length t) a in let hi := slice_index (length t) b in take (hi - lo)%nat (drop lo t).

(** ** TypeTree *)

Record SourceFileReference : Type := mkSource { reference : string; import_order : Z }.

Inductive TypeTree : Type := mkTree (token : string) (children : list TypeTree) (source_reference : option SourceFileReference).

Definition tree_token (t : TypeTree) : string := let '(mkTree token _ _) := t in token.
Definition tree_children (t : TypeTree) : list TypeTree := let '(mkTree _ children _) := t in children.
Definition tree_source (t : TypeTree) : option SourceFileReference := let '(mkTree _ _ s) := t in s.

(** [source_reference_tree]: the references of a node and of what is below it. *)
Fixpoint source_reference_tree (t : TypeTree) : list SourceFileReference :=
  let '(mkTree _ children source) := t in
  (match source with Some s => [s] | None => [] end) ++ flat_map source_reference_tree children.

(** [max] and [min] of the import orders, a [ValueError] for none. *)
Definition inserted_elements (t : TypeTree) : result Z :=
  match map import_order (source_reference_tree t) with
  | [] => Raise ValueError
  | z :: zs => Ok (fold_left Z.max zs z)
  end.
Definition oldest_matching_import (t : TypeTree) : result Z :=
  match map import_order (source_reference_tree t) with
  | [] => Raise ValueError
  | z :: zs => Ok (fold_left Z.min zs z)
  end.

(** The list it returns is never [None], so that the loop over the children ends with the first. *)
Fixpoint expand_missing_absolute_path_recursive (t : TypeTree) (oldest_import : Z) : list string :=
  let '(mkTree token children source) := t in
  match source with
  | Some s => if (import_order s =? oldest_import)%Z then [token] else []
  | None =>
      match children with
      | [] => []
      | child :: _ => expand_missing_absolute_path_recursive child oldest_import ++ [token]
      end
  end.
Definition expand_missing_absolute_path (t : TypeTree) : result (list string) :=
  oldest_import ← oldest_matching_import t;
  Ok (removelast (expand_missing_absolute_path_recursive t oldest_import)).

Definition is_fully_qualified_type (t : TypeTree) : bool := match tree_children t with [] => true | _ => false end.
Fixpoint types_with_same_scope (t : TypeTree) : Z :=
  let '(mkTree _ children source) := t in
  (fold_right Z.add 0 (map types_with_same_scope children) + match source with Some _ => 1 | None => 0 end)%Z.
Definition is_uniquely_identifiable_type (t : TypeTree) : bool := (types_with_same_scope t =? 1)%Z.

(** [_type_in_tree]: the tokens are popped from the end, so they come in reverse here. *)
Fixpoint seek (reversed : list string) (t : TypeTree) : option TypeTree :=
  match reversed with
  | [] => Some t
  | to_seek :: reversed' =>
      match List.find (fun child => String.eqb (tree_token child) to_seek) (tree_children t) with
      | Some child => seek reversed' child
      | None => None
      end
  end.
Definition tokens_in_tree (tree : TypeTree) (remaining_tokens : list string) : option TypeTree := seek (rev remaining_tokens) tree.
(** [TypeTree.type_in_tree] *)
Definition type_in_tree (tree : TypeTree) (queried_type : string) : option TypeTree :=
  tokens_in_tree tree (split_on_dot (py_removeprefix "." queried_type)).

(** [_add_new_type_recursive] and [add_new_type] *)
Fixpoint add_new_type_recursive (reversed : list string) (file : string) (inserted_elements : Z) (t : TypeTree) : TypeTree :=
  match reversed with
  | [] => t
  | token :: reversed' =>
      let '(mkTree tok children source) := t in
      mkTree tok
        ((fix add (l : list TypeTree) : list TypeTree :=
            match l with
            | [] =>
                let source := match reversed' with [] => Some (mkSource file inserted_elements) | _ => None end in
                [add_new_type_recursive reversed' file inserted_elements (mkTree token [] source)]
            | child :: l' =>
                if String.eqb (tree_token child) token
                then add_new_type_recursive reversed' file inserted_elements child :: l'
                else child :: add l'
            end) children) source
  end.
Definition add_new_type (root_tree : TypeTree) (full_path_type file : string) (inserted_elements : Z) : TypeTree :=
  add_new_type_recursive (rev (split_on_dot full_path_type)) file inserted_elements root_tree.

(** ** ProtobufSchema *)

Inductive ProtobufSchema : Type :=
  mkSchema (proto_file_element : ProtoFileElement) (dependencies : list (string * ProtobufSchema)).
Definition schema_file (s : ProtobufSchema) : ProtoFileElement := let '(mkSchema f _) := s in f.

(** [nested_types] of an element; an enum has none. *)
Definition nested_types (e : TypeElement) : list TypeElement :=
  match e with MessageElement _ _ _ nested _ _ _ _ _ _ => nested | EnumElement _ _ _ _ _ => [] end.

(** [nested_type_tree]; what the calls for the children return is not used. *)
Fixpoint nested_type_tree (root_tree : TypeTree) (parent_name : string) (e : TypeElement) (filename : string)
  (inserted_types : Z) : TypeTree * Z :=
  let full := (parent_name +:+ "." +:+ element_name e)%string in
  let root_tree := add_new_type root_tree full filename inserted_types in
  let inserted_types := (inserted_types + 1)%Z in
  match e with
  | MessageElement _ _ _ nested _ _ _ _ _ _ =>
      (fix go (l : list TypeElement) (root_tree : TypeTree) (inserted_types : Z) : TypeTree * Z :=
         match l with
         | [] => (root_tree, inserted_types)
         | child :: l' => go l' (nested_type_tree root_tree full child filename inserted_types).1 (inserted_types + 1)%Z
         end) nested root_tree inserted_types
  | EnumElement _ _ _ _ _ => (root_tree, inserted_types)
  end.

(** A top-level type with its nested types. *)
Definition add_element_types (package_name filename : string) (st : TypeTree * Z) (e : TypeElement) : TypeTree * Z :=
  let full_name := (package_name +:+ "." +:+ element_name e)%string in
  let root_tree := add_new_type st.1 full_name filename st.2 in
  fold_left (fun st nested => nested_type_tree st.1 full_name nested filename st.2) (nested_types e) (root_tree, (st.2 + 1)%Z).

Fixpoint types_tree_recursive (s : ProtobufSchema) (root_tree : TypeTree) (inserted_types : Z) (filename : string)
  : TypeTree * Z :=
  let '(mkSchema f dependencies) := s in
  let st := (fix go (l : list (string * ProtobufSchema)) (root_tree : TypeTree) (inserted_types : Z) : TypeTree * Z :=
      match l with
      | [] => (root_tree, inserted_types)
      | (dependency, schema) :: l' =>
          let st := types_tree_recursive schema root_tree inserted_types dependency in go l' st.1 st.2
      end) dependencies root_tree inserted_types in
  fold_left (add_element_types (default ""%string (file_package f)) filename) (file_types f) st.
Definition types_tree (s : ProtobufSchema) : TypeTree := (types_tree_recursive s (mkTree "." [] None) 0 "main_schema_file").1.

Definition record_name (s : ProtobufSchema) : option string :=
  let f := schema_file s in
  let package_name := match truthy_str (file_package f) with Some p => (p +:+ ".")%string | None => ""%string end in
  match List.find is_message_element (file_types f), file_types f with
  | Some e, _ => Some (package_name +:+ element_name e)%string
  | None, e :: _ => Some (package_name +:+ element_name e)%string
  | None, [] => None
  end.

(** ** Known types *)

Definition known_map : list (string * list string) :=
  [("google/protobuf/any.proto", ["google.protobuf.Any"]);
   ("google/protobuf/api.proto", ["google.protobuf.Api"; "google.protobuf.Method"; "google.protobuf.Mixin"]);
   ("google/protobuf/descriptor.proto",
     ["google.protobuf.FileDescriptorSet"; "google.protobuf.FileDescriptorProto"; "google.protobuf.DescriptorProto";
      "google.protobuf.ExtensionRangeOptions"; "google.protobuf.FieldDescriptorProto"; "google.protobuf.OneofDescriptorProto";
      "google.protobuf.EnumDescriptorProto"; "google.protobuf.EnumValueDescriptorProto"; "google.protobuf.ServiceDescriptorProto";
      "google.protobuf.MethodDescriptorProto"; "google.protobuf.FileOptions"; "google.protobuf.MessageOptions";
      "google.protobuf.FieldOptions"; "google.protobuf.OneofOptions"; "google.protobuf.EnumOptions";
      "google.protobuf.EnumValueOptions"; "google.protobuf.ServiceOptions"; "google.protobuf.MethodOptions";
      "google.protobuf.UninterpretedOption"; "google.protobuf.SourceCodeInfo"; "google.protobuf.GeneratedCodeInfo"]);
   ("google/protobuf/duration.proto", ["google.protobuf.Duration"]);
   ("google/protobuf/empty.proto", ["google.protobuf.Empty"]);
   ("google/protobuf/field_mask.proto", ["google.protobuf.FieldMask"]);
   ("google/protobuf/source_context.proto", ["google.protobuf.SourceContext"]);
   ("google/protobuf/struct.proto",
     ["google.protobuf.Struct"; "google.protobuf.Value"; "google.protobuf.NullValue"; "google.protobuf.ListValue"]);
   ("google/protobuf/timestamp.proto", ["google.protobuf.Timestamp"]);
   ("google/protobuf/type.proto",
     ["google.protobuf.Type"; "google.protobuf.Field"; "google.protobuf.Enum"; "google.protobuf.EnumValue";
      "google.protobuf.Option"; "google.protobuf.Syntax"]);
   ("google/protobuf/wrappers.proto",
     ["google.protobuf.DoubleValue"; "google.protobuf.FloatValue"; "google.protobuf.Int64Value"; "google.protobuf.UInt64Value";
      "google.protobuf.Int32Value"; "google.protobuf.UInt32Value"; "google.protobuf.BoolValue"; "google.protobuf.StringValue";
      "google.protobuf.BytesValue"]);
   ("google/type/calendar_period.proto", ["google.type.CalendarPeriod"]);
   ("google/type/color.proto", ["google.type.Color"]);
   ("google/type/date.proto", ["google.type.Date"]);
   ("google/type/datetime.proto", ["google.type.DateTime"; "google.type.TimeZone"]);
   ("google/type/dayofweek.proto", ["google.type.DayOfWeek"]);
   ("google/type/decimal.proto", ["google.type.Decimal"]);
   ("google/type/expr.proto", ["google.type.Expr"]);
   ("google/type/fraction.proto", ["google.type.Fraction"]);
   ("google/type/interval.proto", ["google.type.Interval"]);
   ("google/type/latlng.proto", ["google.type.LatLng"]);
   ("google/type/money.proto", ["google.type.Money"]);
   ("google/type/month.proto", ["google.type.Month"]);
   ("google/type/phone_number.proto", ["google.type.PhoneNumber"]);
   ("google/type/postal_address.proto", ["google.type.PostalAddress"]);
   ("google/type/quaternion.proto", ["google.type.Quaternion"]);
   ("google/type/timeofday.proto", ["google.type.TimeOfDay"]);
   ("confluent/meta.proto", ["confluent.Meta"]);
   ("confluent/type/decimal.proto", ["confluent.type.Decimal"])]%string.

(** [item[item.rfind(".") + 1:]] *)
Definition last_name (item : string) : string := default item (last (split_on_dot item)).

(** [KnownDependency.static_init]: a later entry replaces an earlier one of the same key. *)
Definition known_entries : list (string * string) := flat_map (fun kv => map (fun item => (kv.1, item)) kv.2) known_map.
Definition known_index : dict string string :=
  fold_left (fun d (kv : string * string) => dset ("." +:+ kv.2)%string kv.1 (dset kv.2 kv.1 d)) known_entries [].
Definition known_index_simple : dict string string :=
  fold_left (fun d (kv : string * string) => dset kv.2 kv.1 (dset (last_name kv.2) kv.1 d)) known_entries [].
Definition is_known (s : string) : bool := din s known_index_simple || din s known_index.

Definition hardcoded_index : list string :=
  ["bool"; "bytes"; "double"; "float"; "fixed32"; "fixed64"; "int32"; "int64"; "sfixed32"; "sfixed64"; "sint32"; "sint64";
   "string"; "uint32"; "uint64"]%string.

(** ** Used types *)

Record UsedType : Type := mkUsed { parent_object_qualified_name : string; used_attribute_type : string }.

Definition used_type (parent element_type : string) : list UsedType :=
  if String.prefix "map<" element_type then
    let t := to_text element_type in
    let e := py_find ">" t in
    let virgule := py_find "," t in
    let key_element_type := slice 4 virgule t in
    let value_element_type := strip_text (slice (virgule + 1) e t) in
    [mkUsed parent (of_text key_element_type); mkUsed parent (of_text value_element_type)]
  else [mkUsed parent element_type].

Definition dependencies_one_of (package_name parent_name : string) (one_of : OneOfElement) : list UsedType :=
  let parent := (package_name +:+ "." +:+ parent_name)%string in
  map (fun f => mkUsed parent (element_type f)) (o_fields one_of).

(** The fields of a nested type are used by [parent_name], its oneofs by the type itself. *)
Fixpoint nested_used_type (package_name parent_name : string) (e : TypeElement) : list UsedType :=
  match e with
  | MessageElement _ name _ nested _ _ fields one_ofs _ _ =>
      flat_map (dependencies_one_of package_name (parent_name +:+ "." +:+ name)%string) one_ofs ++
      flat_map (fun f => used_type (package_name +:+ "." +:+ parent_name)%string (element_type f)) fields ++
      flat_map (nested_used_type package_name (parent_name +:+ "." +:+ name)%string) nested
  | EnumElement _ _ _ _ _ => []
  end.

Definition element_used_types (package_name : string) (e : TypeElement) : list UsedType :=
  match e with
  | MessageElement _ name _ nested _ _ fields one_ofs _ _ =>
      flat_map (dependencies_one_of package_name name) one_ofs ++
      flat_map (fun f => used_type (package_name +:+ "." +:+ name)%string (element_type f)) fields ++
      flat_map (nested_used_type package_name name) nested
  | EnumElement _ _ _ _ _ => []
  end.

(** [used_types]: what the dependencies use is computed and dropped. *)
Definition used_types (s : ProtobufSchema) : list UsedType :=
  let f := schema_file s in
  let package_name := match file_package f with Some p => ("." +:+ p)%string | None => ""%string end in
  flat_map (element_used_types package_name) (file_types f).

(** ** Verification *)

Fixpoint recursive_imports (s : ProtobufSchema) : gset string :=
  let '(mkSchema f dependencies) := s in
  list_to_set (file_imports f) ∪
  (fix go (l : list (string * ProtobufSchema)) : gset string :=
     match l with [] => ∅ | (_, schema) :: l' => recursive_imports schema ∪ go l' end) dependencies.

Definition type_exist_in_tree (tree : TypeTree) (remaining_tokens : list string) : bool :=
  match tokens_in_tree tree remaining_tokens with Some _ => true | None => false end.

(** [is_attribute_type_included_in_server] *)
Definition included_in_server (s : ProtobufSchema) (attribute_type : string) : bool :=
  if bool_decide (attribute_type ∈ hardcoded_index) then true
  else if is_known attribute_type then
    let required_import := match dget attribute_type known_index_simple with
                           | Some i => Some i
                           | None => dget attribute_type known_index
                           end in
    match required_import with Some i => bool_decide (i ∈ recursive_imports s) | None => false end
  else false.

Definition is_parent_declared (tree : TypeTree) (u : UsedType) : bool :=
  type_exist_in_tree tree (split_on_dot (of_text (drop 1 (to_text (parent_object_qualified_name u))))).
Definition is_attribute_declared (s : ProtobufSchema) (tree : TypeTree) (u : UsedType) : bool :=
  included_in_server s (used_attribute_type u) ||
  type_exist_in_tree tree (split_on_dot (of_text (lstrip_dots (to_text (used_attribute_type u))))).

Fixpoint are_type_usage_valid (s : ProtobufSchema) (root_type_tree : TypeTree) (used : list UsedType) : bool * option string :=
  match used with
  | [] => (true, None)
  | u :: used' =>
      let parent := is_parent_declared root_type_tree u in
      if negb parent || negb (is_attribute_declared s root_type_tree u)
      then (false, Some (if parent then used_attribute_type u else parent_object_qualified_name u))
      else are_type_usage_valid s root_type_tree used'
  end.

Definition verify_schema_dependencies (s : ProtobufSchema) : bool * string :=
  match are_type_usage_valid s (types_tree s) (used_types s) with
  | (true, _) => (true, ""%string)
  | (false, wrong) => (false, ("type " +:+ of_text [QUOTE] +:+ default "None" wrong +:+ of_text [QUOTE] +:+ " is not defined")%string)
  end.
