(* ===== verification/ProtoTypesSpec.v ===== *)
(** * The trie of declared types against the list of their names

    The reference: a type is declared when its tokens are the last tokens of the full name of a type
    of the schema or of its dependencies. The trie answers the same, so that
    [verify_schema_dependencies] is the search in the list of names; and a node counts the types
    below it. *)

From S2P Require Import Prelude Typing Protobuf ProtoReader ProtoElements ProtoParser ProtoTokens ProtoPrint ProtoTypes.

(** ** The names *)

Fixpoint nested_names (parent_name : string) (e : TypeElement) : list string :=
  let full := (parent_name +:+ "." +:+ element_name e)%string in
  full :: match e with
          | MessageElement _ _ _ nested _ _ _ _ _ _ => flat_map (nested_names full) nested
          | EnumElement _ _ _ _ _ => []
          end.
Fixpoint declared_types (s : ProtobufSchema) : list string :=
  let '(mkSchema f dependencies) := s in
  (fix go (l : list (string * ProtobufSchema)) : list string :=
     match l with [] => [] | (_, schema) :: l' => declared_types schema ++ go l' end) dependencies ++
  flat_map (nested_names (default ""%string (file_package f))) (file_types f).

Definition path_of (name : string) : list string := rev (split_on_dot name).

Fixpoint is_prefix (q p : list string) : bool :=
  match q, p with
  | [], _ => true
  | x :: q', y :: p' => String.eqb x y && is_prefix q' p'
  | _ :: _, [] => false
  end.

(** The tokens are the last ones of a declared name. *)
Definition declares (s : ProtobufSchema) (tokens : list string) : bool :=
  existsb (fun name => is_prefix (rev tokens) (path_of name)) (declared_types s).

Definition usage_ok (s : ProtobufSchema) (u : UsedType) : bool :=
  declares s (split_on_dot (of_text (drop 1 (to_text (parent_object_qualified_name u))))) &&
  (included_in_server s (used_attribute_type u) ||
   declares s (split_on_dot (of_text (lstrip_dots (to_text (used_attribute_type u)))))).

(** ** Insertion *)

Definition new_node (token : string) (rest : list string) (file : string) (n : Z) : TypeTree :=
  mkTree token [] (match rest with [] => Some (mkSource file n) | _ => None end).
Definition child (t : TypeTree) (x : string) : option TypeTree :=
  List.find (fun c => String.eqb (tree_token c) x) (tree_children t).

Lemma add_token p file n t : tree_token (add_new_type_recursive p file n t) = tree_token t.
Proof. by destruct p, t. Qed.
Lemma child_add x y p file n t :
  child (add_new_type_recursive (y :: p) file n t) x =
  if String.eqb x y then Some (add_new_type_recursive p file n (default (new_node y p file n) (child t y))) else child t x.
Proof.
  destruct t as [tok children source]. unfold child. cbn [add_new_type_recursive tree_children].
  induction children as [|c l IH]; simpl.
  - rewrite add_token. simpl. rewrite String.eqb_sym. by destruct (String.eqb x y).
  - destruct (String.eqb_spec (tree_token c) y) as [E|Ey]; simpl.
    + rewrite add_token, E. rewrite String.eqb_sym. by destruct (String.eqb x y).
    + destruct (String.eqb_spec (tree_token c) x) as [E|Ex]; [|exact IH].
      destruct (String.eqb_spec x y) as [->|]; [done|]. reflexivity.
Qed.

Definition present (q : list string) (t : TypeTree) : bool := match seek q t with Some _ => true | None => false end.
Lemma present_cons x q t : present (x :: q) t = match child t x with Some c => present q c | None => false end.
Proof. unfold present. simpl. unfold child. by destruct (List.find _ _). Qed.
Lemma present_leaf q y p file n : present q (new_node y p file n) = match q with [] => true | _ => false end.
Proof. by destruct q. Qed.

Lemma present_add p : forall q file n t, present q (add_new_type_recursive p file n t) = present q t || is_prefix q p.
Proof.
  induction p as [|y p IH]; intros [|x q] file n t; try done.
  - simpl. by rewrite orb_false_r.
  - rewrite !present_cons, child_add. cbn [is_prefix]. destruct (String.eqb_spec x y) as [->|]; [|by rewrite orb_false_r].
    rewrite IH. destruct (child t y); simpl; [done|]. rewrite present_leaf. by destruct q.
Qed.

(** How many declared types are counted below the node of [q]. *)
Definition count_at (q : list string) (t : TypeTree) : Z := match seek q t with Some n => types_with_same_scope n | None => 0 end.
Lemma count_nil t : count_at [] t = types_with_same_scope t.
Proof. done. Qed.
Lemma count_cons x q t : count_at (x :: q) t = match child t x with Some c => count_at q c | None => 0%Z end.
Proof. unfold count_at. simpl. unfold child. by destruct (List.find _ _). Qed.
Definition counted_new (q p : list string) (t : TypeTree) : Z := if is_prefix q p && negb (present p t) then 1 else 0.

Lemma scope_new_node y p file n : (types_with_same_scope (new_node y p file n) + (if present p (new_node y p file n) then 0 else 1) = 1)%Z.
Proof. by destruct p. Qed.
Lemma scope_add p : forall file n t,
  types_with_same_scope (add_new_type_recursive p file n t) = (types_with_same_scope t + if present p t then 0 else 1)%Z.
Proof.
  induction p as [|y p IH]; intros file n [tok children source]; [simpl; lia|]. rewrite present_cons. unfold child.
  cbn [add_new_type_recursive types_with_same_scope tree_children].
  induction children as [|c l IHl]; simpl.
  - rewrite IH. fold (new_node y p file n). rewrite scope_new_node. lia.
  - destruct (String.eqb (tree_token c) y); simpl; [rewrite IH; lia|]. simpl in IHl. lia.
Qed.
Lemma count_add p : forall q file n t, count_at q (add_new_type_recursive p file n t) = (count_at q t + counted_new q p t)%Z.
Proof.
  induction p as [|y p IH]; intros [|x q] file n t; unfold counted_new.
  - unfold count_at. simpl. lia.
  - simpl. lia.
  - rewrite !count_nil, scope_add. cbn [is_prefix andb]. by destruct (present _ _).
  - rewrite !count_cons, child_add, present_cons. cbn [is_prefix]. destruct (String.eqb_spec x y) as [->|]; [|simpl; lia].
    rewrite IH. unfold counted_new. destruct (child t y) as [c|]; simpl default; [done|]. cbn [negb]. rewrite andb_true_r.
    pose proof (scope_new_node y p file n) as Hs. destruct q as [|x q]; cbn [is_prefix andb].
    + rewrite !count_nil. destruct (present p (new_node y p file n)); simpl negb in *; cbv iota in *; lia.
    + unfold count_at at 1. simpl seek. destruct p as [|z p]; [simpl; lia|]. rewrite present_leaf. cbn [negb]. rewrite andb_true_r.
      simpl is_prefix. done.
Qed.

(** ** The tree of a schema *)

(** What holds of the tree for any sequence of insertions; the files and orders do not matter. *)
Definition inserts (names : list string) (t t' : TypeTree) : Prop :=
  exists l : list (string * (string * Z)), map fst l = names /\
    t' = fold_left (fun t x => add_new_type_recursive (path_of x.1) x.2.1 x.2.2 t) l t.

Lemma inserts_nil t : inserts [] t t.
Proof. by exists []. Qed.
Lemma inserts_one name file n t : inserts [name] t (add_new_type t name file n).
Proof. by exists [(name, (file, n))]. Qed.
Lemma inserts_app l1 l2 t1 t2 t3 : inserts l1 t1 t2 -> inserts l2 t2 t3 -> inserts (l1 ++ l2) t1 t3.
Proof.
  intros (x1 & <- & ->) (x2 & <- & ->). exists (x1 ++ x2). by rewrite map_app, fold_left_app.
Qed.

Lemma nested_inserts file e : forall t parent n, inserts (nested_names parent e) t (nested_type_tree t parent e file n).1.
Proof.
  induction e as [l nm d nested os rs fs oofs xs gs IH|l nm d os cs] using type_element_induction; intros t parent n.
  - cbn [nested_names nested_type_tree element_name]. set (full := (parent +:+ "." +:+ nm)%string).
    apply (inserts_app [full] _ _ (add_new_type t full file n)); [apply inserts_one|]. generalize (n + 1)%Z.
    generalize (add_new_type t full file n). clear t n. revert IH. induction nested as [|e nested IHn]; intros IH t n; [apply inserts_nil|].
    cbn [flat_map]. eapply inserts_app; [apply IH; left|]. apply IHn. intros x Hx. apply IH. by right.
  - apply inserts_one.
Qed.
Lemma fold_inserts {A} (names : A -> list string) (step : TypeTree * Z -> A -> TypeTree * Z) l :
  (forall st x, inserts (names x) st.1 (step st x).1) -> forall st, inserts (flat_map names l) st.1 (fold_left step l st).1.
Proof. intros H. induction l as [|x l IH]; intros st; [apply inserts_nil|]. simpl. eapply inserts_app; [apply H|apply IH]. Qed.
Lemma element_inserts package file st e : inserts (nested_names package e) st.1 (add_element_types package file st e).1.
Proof.
  unfold add_element_types. set (full := (package +:+ "." +:+ element_name e)%string).
  assert (Hn : nested_names package e = [full] ++ flat_map (nested_names full) (nested_types e)) by by destruct e.
  rewrite Hn. eapply inserts_app; [apply (inserts_one full file st.2)|].
  apply (fold_inserts (nested_names full) _ (nested_types e)). intros st' x. apply nested_inserts.
Qed.
Section schema_induction.
Context (P : ProtobufSchema -> Prop).
Context (H : forall f deps, Forall (fun d => P d.2) deps -> P (mkSchema f deps)).
Fixpoint schema_induction (s : ProtobufSchema) : P s.
Proof.
  destruct s as [f deps]. apply H. induction deps as [|d deps IH]; constructor; [apply schema_induction|exact IH].
Defined.
End schema_induction.

Lemma tree_inserts s : forall t n file, inserts (declared_types s) t (types_tree_recursive s t n file).1.
Proof.
  induction s as [f deps IH] using schema_induction. intros t n file. cbn [types_tree_recursive declared_types].
  set (go := fix go (l : list (string * ProtobufSchema)) (root_tree : TypeTree) (inserted_types : Z) : TypeTree * Z := _).
  eapply inserts_app; [|eapply (fold_inserts (nested_names (default ""%string (file_package f)))); intros; apply element_inserts].
  revert t n. induction IH as [|[name s] deps Hs _ IHd]; intros t n; [apply inserts_nil|]. cbn [go]. eapply inserts_app; [apply Hs|apply IHd].
Qed.

Definition matches (q : list string) (name : string) : bool := is_prefix q (path_of name).

Lemma present_inserts names t t' q : inserts names t t' -> present q t' = present q t || existsb (matches q) names.
Proof.
  intros (l & <- & ->). revert t. induction l as [|[name [file n]] l IH]; intros t; simpl; [by rewrite orb_false_r|].
  rewrite IH, present_add. by rewrite orb_assoc.
Qed.
Lemma split_dots_not_nil t : split_dots t ≠ [].
Proof. destruct t as [|c t]; simpl; [done|]. destruct (is_char c "."); [done|]. by destruct (split_dots t). Qed.
Lemma path_not_nil name : path_of name ≠ [].
Proof.
  unfold path_of, split_on_dot. intros E. apply (f_equal (@rev string)) in E. rewrite rev_involutive in E. simpl in E.
  apply map_eq_nil in E. by apply split_dots_not_nil in E.
Qed.
Lemma present_root q : present q (mkTree "." [] None) = match q with [] => true | _ => false end.
Proof. by destruct q. Qed.

(** The trie has the tokens of a type exactly when a declared name ends in them. *)
Lemma exists_declares s name : type_exist_in_tree (types_tree s) (split_on_dot name) = declares s (split_on_dot name).
Proof.
  unfold type_exist_in_tree, tokens_in_tree, types_tree. fold (path_of name). fold (present (path_of name)).
  change (match seek _ ?t with Some _ => true | None => false end) with (present (path_of name) t).
  rewrite (present_inserts _ _ _ _ (tree_inserts s (mkTree "." [] None) 0 "main_schema_file")), present_root.
  pose proof (path_not_nil name) as Hn. unfold declares. fold (path_of name). by destruct (path_of name).
Qed.

Definition usage_message (s : ProtobufSchema) (u : UsedType) : string :=
  let parent := declares s (split_on_dot (of_text (drop 1 (to_text (parent_object_qualified_name u))))) in
  ("type " +:+ of_text [QUOTE] +:+ (if parent then used_attribute_type u else parent_object_qualified_name u) +:+
   of_text [QUOTE] +:+ " is not defined")%string.

Lemma verified_usages s : (verify_schema_dependencies s).1 = forallb (usage_ok s) (used_types s).
Proof.
  unfold verify_schema_dependencies. induction (used_types s) as [|u used IH]; [done|]. cbn [are_type_usage_valid forallb].
  unfold usage_ok at 1, is_parent_declared, is_attribute_declared. rewrite !exists_declares.
  rewrite <- negb_andb. by destruct (_ && _).
Qed.

(** C18. The trie of declared types answers as a search in the plain list of their full names would:
    the verification of a schema succeeds exactly when for every type it uses the using message is
    declared and the used type is a scalar, a known type whose file is imported, or declared in the
    schema or a dependency; else it reports the first used type for which that fails. *)
Theorem verify_by_names s :
  verify_schema_dependencies s =
  match List.find (fun u => negb (usage_ok s u)) (used_types s) with
  | None => (true, ""%string)
  | Some u => (false, usage_message s u)
  end.
Proof.
  unfold verify_schema_dependencies. induction (used_types s) as [|u used IH]; [done|]. cbn [are_type_usage_valid List.find].
  unfold usage_ok at 1, is_parent_declared, is_attribute_declared. rewrite !exists_declares.
  rewrite <- negb_andb. destruct (negb (_ && _)); [|exact IH]. unfold usage_message. by destruct (declares s _).
Qed.

(** ** Counting *)

(** The names that get a node of their own: a name whose tokens end an earlier one does not. *)
Fixpoint counted (seen names : list string) : list string :=
  match names with
  | [] => []
  | n :: names' => if existsb (matches (path_of n)) seen then counted (n :: seen) names' else n :: counted (n :: seen) names'
  end.
Lemma count_inserts names : forall t t' q seen, inserts names t t' -> (forall p, p ≠ [] -> present p t = existsb (matches p) seen) ->
  count_at q t' = (count_at q t + Z.of_nat (length (List.filter (matches q) (counted seen names))))%Z.
Proof.
  induction names as [|name names IH]; intros t t' q seen (l & Hl & ->) Hseen.
  - apply map_eq_nil in Hl as ->. simpl. lia.
  - destruct l as [|[n0 [file n]] l]; [done|]. simpl in Hl. injection Hl as -> Hl. simpl.
    rewrite (IH (add_new_type_recursive (path_of name) file n t) _ q (name :: seen)); [|by exists l|].
    + rewrite count_add. unfold counted_new. fold (matches q name). rewrite (Hseen (path_of name)) by apply path_not_nil.
      destruct (existsb _ seen); simpl; [rewrite andb_false_r; lia|]. rewrite andb_true_r. destruct (matches q name); simpl length; lia.
    + intros p Hp. rewrite present_add, Hseen by done. simpl. apply orb_comm.
Qed.

Lemma count_root q : q ≠ [] -> count_at q (mkTree "." [] None) = 0%Z.
Proof. by destruct q. Qed.

(** The declared names, each once, that end in the type; a name that ends a name declared before it
    is not counted. *)
Definition names_ending_in (s : ProtobufSchema) (queried : string) : list string :=
  List.filter (matches (path_of (py_removeprefix "." queried))) (counted [] (declared_types s)).

(** A type is uniquely identifiable exactly when one such name ends in it. *)
Lemma uniquely_identifiable_iff s queried :
  (match type_in_tree (types_tree s) queried with Some t => is_uniquely_identifiable_type t | None => false end) =
  Nat.eqb (length (names_ending_in s queried)) 1.
Proof.
  unfold names_ending_in, type_in_tree, tokens_in_tree. fold (path_of (py_removeprefix "." queried)). set (q := path_of _).
  pose proof (count_inserts _ _ _ q [] (tree_inserts s (mkTree "." [] None) 0 "main_schema_file")) as H.
  fold (types_tree s) in H. rewrite (count_root q) in H by apply path_not_nil.
  unfold is_uniquely_identifiable_type. unfold count_at in H. destruct (seek q (types_tree s)) as [t|].
  - rewrite H, Z.add_0_l by (by intros [|] ?). destruct (Z.eqb_spec (Z.of_nat (length (List.filter (matches q) (counted [] (declared_types s))))) 1) as [E|E];
      symmetry; [apply Nat.eqb_eq; lia|apply Nat.eqb_neq; lia].
  - symmetry. apply Nat.eqb_neq. specialize (H ltac:(by intros [|] ?)). lia.
Qed.

(** ** Names without their package *)

Lemma is_prefix_spec q p : is_prefix q p = true <-> exists r, p = q ++ r.
Proof.
  revert p. induction q as [|x q IH]; intros p; simpl; [split; eauto|]. destruct p as [|y p]; [split; [done|by intros [r ?]]|].
  rewrite andb_true_iff, IH, String.eqb_eq. split; [intros [-> [r ->]]; eauto|]. intros [r [= -> ->]]. eauto.
Qed.
Lemma is_prefix_trans a b c : is_prefix a b = true -> is_prefix b c = true -> is_prefix a c = true.
Proof. rewrite !is_prefix_spec. intros [r1 ->] [r2 ->]. exists (r1 ++ r2). by rewrite app_assoc. Qed.

Lemma split_dots_app a b : split_dots (a ++ "."%char :: b) = split_dots a ++ split_dots b.
Proof.
  induction a as [|c a IH]; [done|]. simpl. rewrite IH. destruct (is_char c "."); [done|].
  pose proof (split_dots_not_nil a). by destruct (split_dots a).
Qed.
Lemma prefix_text p s : String.prefix p s = true -> to_text s = to_text p ++ drop (String.length p) (to_text s).
Proof.
  unfold to_text. revert s. induction p as [|c p IH]; intros s H; [done|]. destruct s as [|d s]; [done|]. simpl in *.
  destruct (Ascii.ascii_dec c d) as [->|]; [|done]. by rewrite <- IH.
Qed.
(** A name without a prefix that ends in a dot keeps its last tokens. *)
Lemma path_removeprefix q s : is_prefix (path_of (py_removeprefix (q +:+ ".") s)) (path_of s) = true.
Proof.
  apply is_prefix_spec. unfold py_removeprefix. destruct (String.prefix (q +:+ ".") s) eqn:E; [|exists []; by rewrite app_nil_r].
  apply prefix_text in E. set (r := drop _ _) in *. exists (path_of q). unfold path_of, split_on_dot. rewrite to_of_text, E, to_text_app.
  rewrite <- app_assoc. cbn [app to_text String.list_ascii_of_string]. by rewrite split_dots_app, map_app, rev_app_distr.
Qed.
