(* ===== verification/ProtoNormalize.v ===== *)
(** * Normalisation of protobuf schemas

    [core/protobuf/proto_normalizations.py]: options sorted by name, and the package taken off the
    type of a field where the rest names one declared type only. The elements are rebuilt, except
    that [type_element_with_sorted_options] replaces the nested types of its argument: it returns the
    argument as it leaves it and the new element. The nested types of a message are normalised on
    their way into the argument and again when the message is rebuilt, so that a type is rewritten
    once per level at least; the fuel is the height of the type. *)

From S2P Require Import Prelude Typing Protobuf ProtoReader ProtoElements ProtoParser ProtoPrint ProtoTypes ProtoTypesSpec.

(** [sorted(options, key=sort_by_name)], a stable sort. *)
Definition sort_by_name (o : OptionElement) : string := option_name o.
Fixpoint insert_option (o : OptionElement) (l : list OptionElement) : list OptionElement :=
  match l with
  | [] => [o]
  | x :: l' => if String.leb (sort_by_name o) (sort_by_name x) then o :: l else x :: insert_option o l'
  end.
Definition sorted_options (l : list OptionElement) : list OptionElement := fold_right insert_option [] l.

Section normalise.
Context (package : string) (type_tree : TypeTree).

(** The type of a field without its leading dot and package, and the type it is normalised to. *)
Definition stripped_type (element_type : string) : string :=
  py_removeprefix (package +:+ ".")%string (py_removeprefix "." element_type).
Definition normalized_type (element_type : string) : string :=
  let field_type_normalized := stripped_type element_type in
  let google_included_type := is_known field_type_normalized in
  let unique := match type_in_tree type_tree field_type_normalized with
                | Some t => is_uniquely_identifiable_type t
                | None => false
                end in
  if (unique && negb google_included_type) || google_included_type then field_type_normalized else element_type.

Definition normalize_type_field_element (f : FieldElement) : FieldElement :=
  mkField (f_location f) (f_label f) (normalized_type (element_type f)) (f_name f) (default_value f) (json_name f) (f_tag f)
    (f_documentation f) (sorted_options (f_options f)).

Definition enum_constant_element_with_sorted_options (c : EnumConstantElement) : EnumConstantElement :=
  mkConstant (c_location c) (c_name c) (c_tag c) (c_documentation c) (sorted_options (c_options c)).
Definition enum_element_with_sorted_options (l : Location) (n d : string) (os : list OptionElement) (cs : list EnumConstantElement)
  : TypeElement := EnumElement l n d (sorted_options os) (map enum_constant_element_with_sorted_options cs).
Definition groups_with_sorted_options (g : GroupElement) : GroupElement :=
  mkGroup (g_label g) (g_location g) (g_name g) (g_tag g) (g_documentation g) (map normalize_type_field_element (g_fields g)).
Definition one_ofs_with_sorted_options (o : OneOfElement) : OneOfElement :=
  mkOneOf (o_name o) (o_documentation o) (map normalize_type_field_element (o_fields o))
    (map groups_with_sorted_options (o_groups o)) (sorted_options (o_options o)).
Definition extends_element_with_sorted_options (e : ExtendElement) : ExtendElement :=
  mkExtend (e_location e) (e_name e) (e_documentation e) (map normalize_type_field_element (e_fields e)).
Definition rpc_element_with_sorted_options (r : RpcElement) : RpcElement :=
  mkRpc (rpc_location r) (rpc_name r) (rpc_documentation r) (request_type r) (response_type r) (request_streaming r)
    (response_streaming r) (sorted_options (rpc_options r)).
Definition service_element_with_sorted_options (s : ServiceElement) : ServiceElement :=
  mkService (s_location s) (s_name s) (s_documentation s) (map rpc_element_with_sorted_options (s_rpcs s)) (sorted_options (s_options s)).

(** The element as it is left, and the new one; [normalize_nested] is the call on a nested type. *)
Definition message_element_with_sorted_options (normalize_nested : TypeElement -> result (TypeElement * TypeElement))
  (e : TypeElement) : result (TypeElement * TypeElement) :=
  match e with
  | MessageElement l n d nested os rs fs oofs xs gs =>
      nested ← map_res normalize_nested nested;
      Ok (MessageElement l n d (map fst nested) os rs fs oofs xs gs,
          MessageElement l n d (map snd nested) (sorted_options os) rs (map normalize_type_field_element fs)
            (map one_ofs_with_sorted_options oofs) xs gs)
  | EnumElement l n d os cs => Ok (e, enum_element_with_sorted_options l n d os cs)
  end.

Definition set_nested_types (nested : list TypeElement) (e : TypeElement) : TypeElement :=
  match e with
  | MessageElement l n d _ os rs fs oofs xs gs => MessageElement l n d nested os rs fs oofs xs gs
  | EnumElement _ _ _ _ _ => e
  end.

Fixpoint type_element_with_sorted_options (fuel : nat) (e : TypeElement) : result (TypeElement * TypeElement) :=
  match fuel with
  | O => Raise RecursionError
  | S fuel =>
      sorted_nested_types ← map_res (message_element_with_sorted_options (type_element_with_sorted_options fuel)) (nested_types e);
      message_element_with_sorted_options (type_element_with_sorted_options fuel) (set_nested_types (map snd sorted_nested_types) e)
  end.
End normalise.

Fixpoint height (e : TypeElement) : nat :=
  match e with
  | MessageElement _ _ _ nested _ _ _ _ _ _ => S (fold_right Nat.max O (map height nested))
  | EnumElement _ _ _ _ _ => 1
  end.

(** The new schema; the names and the dependencies of the old one are those of the new one. *)
Definition normalize (s : ProtobufSchema) : result ProtobufSchema :=
  let '(mkSchema f dependencies) := s in
  let type_tree := types_tree s in
  let package := default ""%string (file_package f) in
  sorted_types ← map_res (fun e => type_element_with_sorted_options package type_tree (S (height e)) e) (file_types f);
  Ok (mkSchema
        (mkFile (file_package f) (file_syntax f) (file_imports f) (file_public_imports f) (map snd sorted_types)
           (map service_element_with_sorted_options (file_services f))
           (map (extends_element_with_sorted_options package type_tree) (file_extends f)) (sorted_options (file_options f)))
        dependencies).
