(* ===== verification/ProtoNormalizeSpec.v ===== *)
(** * The normal form of a protobuf schema

    Normalisation terminates; where taking the package off a type twice is taking it off once, it is
    one structural pass over the schema, and the normal form is a fixpoint. A normalised type names
    the declared types that the original one names. *)

From Stdlib Require Import Sorted.
From S2P Require Import Prelude Typing Protobuf ProtoReader ProtoElements ProtoParser ProtoTokens ProtoPrint ProtoTypes ProtoTypesSpec ProtoNormalize.
Open Scope nat_scope.

(** ** Sorted options *)

Definition name_le (o x : OptionElement) : Prop := String.leb (sort_by_name o) (sort_by_name x) = true.

Lemma insert_option_perm o l : insert_option o l ≡ₚ o :: l.
Proof.
  induction l as [|x l IH]; [done|]. simpl. destruct (String.leb _ _); [done|]. rewrite IH. apply Permutation_swap.
Qed.
Lemma sorted_options_perm l : sorted_options l ≡ₚ l.
Proof. induction l as [|o l IH]; [done|]. simpl. by rewrite insert_option_perm, IH. Qed.
Lemma insert_option_sorted o l : Sorted name_le l -> Sorted name_le (insert_option o l).
Proof.
  induction 1 as [|x l Hs IH Hhd]; simpl; [repeat constructor|]. destruct (String.leb (sort_by_name o) (sort_by_name x)) eqn:E.
  - repeat constructor; done.
  - constructor; [done|]. assert (Hx : name_le x o) by (unfold name_le; destruct (String.leb_total (sort_by_name o) (sort_by_name x)); congruence).
    destruct l as [|y l]; [by repeat constructor|]. simpl. destruct (String.leb (sort_by_name o) (sort_by_name y)); constructor; [done|].
    by inversion Hhd.
Qed.
Lemma sorted_options_sorted l : Sorted name_le (sorted_options l).
Proof. induction l as [|o l IH]; [constructor|]. by apply insert_option_sorted. Qed.
Lemma sorted_options_id l : Sorted name_le l -> sorted_options l = l.
Proof.
  induction 1 as [|x l Hs IH Hhd]; [done|]. simpl. rewrite IH. destruct Hhd as [|y l Hy]; [done|]. simpl. by rewrite Hy.
Qed.
Lemma sorted_options_twice l : sorted_options (sorted_options l) = sorted_options l.
Proof. apply sorted_options_id, sorted_options_sorted. Qed.

(** Options of one name keep their order. *)
Definition named (n : string) (o : OptionElement) : bool := String.eqb (option_name o) n.
Lemma insert_option_stable n o l : List.filter (named n) (insert_option o l) = List.filter (named n) (o :: l).
Proof.
  induction l as [|x l IH]; [done|]. cbn [insert_option]. destruct (String.leb (sort_by_name o) (sort_by_name x)) eqn:E; [done|].
  simpl. rewrite IH. simpl. unfold named, sort_by_name in *.
  destruct (String.eqb_spec (option_name o) n) as [<-|Ho]; [|done]. destruct (String.eqb_spec (option_name x) (option_name o)) as [Hx|]; [|done].
  rewrite Hx in E. destruct (String.leb_total (option_name o) (option_name o)); congruence.
Qed.
Lemma sorted_options_stable n l : List.filter (named n) (sorted_options l) = List.filter (named n) l.
Proof. induction l as [|o l IH]; [done|]. simpl sorted_options. rewrite insert_option_stable. simpl. by rewrite IH. Qed.

(** A stable sort by name: sorted, a permutation, and options of one name in their order. *)
Definition stable_sort (sort : list OptionElement -> list OptionElement) : Prop := forall l,
  Sorted name_le (sort l) /\ sort l ≡ₚ l /\ forall n, List.filter (named n) (sort l) = List.filter (named n) l.
Lemma sorted_options_stable_sort : stable_sort sorted_options.
Proof. intros l. auto using sorted_options_sorted, sorted_options_perm, sorted_options_stable. Qed.

(** ** A schema with other options and field types

    Every element rebuilt with its lists of options mapped by [sort] and the types of its fields
    by [retype]; the groups of messages, which the code does not rebuild, stay as they are. *)

Section rebuild.
Context (sort : list OptionElement -> list OptionElement) (retype : string -> string).

Definition rebuild_field (f : FieldElement) : FieldElement :=
  mkField (f_location f) (f_label f) (retype (element_type f)) (f_name f) (default_value f) (json_name f) (f_tag f)
    (f_documentation f) (sort (f_options f)).
Definition rebuild_constant (c : EnumConstantElement) : EnumConstantElement :=
  mkConstant (c_location c) (c_name c) (c_tag c) (c_documentation c) (sort (c_options c)).
Definition rebuild_group (g : GroupElement) : GroupElement :=
  mkGroup (g_label g) (g_location g) (g_name g) (g_tag g) (g_documentation g) (map rebuild_field (g_fields g)).
Definition rebuild_one_of (o : OneOfElement) : OneOfElement :=
  mkOneOf (o_name o) (o_documentation o) (map rebuild_field (o_fields o)) (map rebuild_group (o_groups o)) (sort (o_options o)).
Definition rebuild_extend (e : ExtendElement) : ExtendElement :=
  mkExtend (e_location e) (e_name e) (e_documentation e) (map rebuild_field (e_fields e)).
Definition rebuild_rpc (r : RpcElement) : RpcElement :=
  mkRpc (rpc_location r) (rpc_name r) (rpc_documentation r) (request_type r) (response_type r) (request_streaming r)
    (response_streaming r) (sort (rpc_options r)).
Definition rebuild_service (s : ServiceElement) : ServiceElement :=
  mkService (s_location s) (s_name s) (s_documentation s) (map rebuild_rpc (s_rpcs s)) (sort (s_options s)).
Fixpoint rebuild_type (e : TypeElement) : TypeElement :=
  match e with
  | MessageElement l n d nested os rs fs oofs xs gs =>
      MessageElement l n d (map rebuild_type nested) (sort os) rs (map rebuild_field fs) (map rebuild_one_of oofs) xs gs
  | EnumElement l n d os cs => EnumElement l n d (sort os) (map rebuild_constant cs)
  end.
Definition rebuild_schema (s : ProtobufSchema) : ProtobufSchema :=
  let '(mkSchema f dependencies) := s in
  mkSchema
    (mkFile (file_package f) (file_syntax f) (file_imports f) (file_public_imports f) (map rebuild_type (file_types f))
       (map rebuild_service (file_services f)) (map rebuild_extend (file_extends f)) (sort (file_options f)))
    dependencies.
End rebuild.

Section rebuild_ext.
Context (sort : list OptionElement -> list OptionElement) (r r' : string -> string) (Hr : forall ty, r ty = r' ty).

Lemma rebuild_fields_ext fs : map (rebuild_field sort r) fs = map (rebuild_field sort r') fs.
Proof. apply map_ext. intros f. unfold rebuild_field. by rewrite Hr. Qed.
Lemma rebuild_type_ext e : rebuild_type sort r e = rebuild_type sort r' e.
Proof.
  induction e as [l n d nested os rs fs oofs xs gs IH|l n d os cs] using type_element_induction; [|done]. cbn [rebuild_type].
  rewrite rebuild_fields_ext. f_equal.
  - apply map_ext_in. intros x Hx%list_elem_of_In. by apply IH.
  - apply map_ext. intros o. unfold rebuild_one_of. rewrite rebuild_fields_ext. f_equal. apply map_ext. intros g.
    unfold rebuild_group. by rewrite rebuild_fields_ext.
Qed.
Lemma rebuild_schema_ext s : rebuild_schema sort r s = rebuild_schema sort r' s.
Proof.
  destruct s as [f deps]. simpl. rewrite (map_ext _ _ rebuild_type_ext), (map_ext (rebuild_extend sort r) (rebuild_extend sort r')); [done|].
  intros e. unfold rebuild_extend. by rewrite rebuild_fields_ext.
Qed.
End rebuild_ext.

(** ** One pass *)

Section pass.
Context (package : string) (tree : TypeTree).
Abbreviation pass_field := (normalize_type_field_element package tree).
Abbreviation pass_one_of := (one_ofs_with_sorted_options package tree).
Abbreviation pass_group := (groups_with_sorted_options package tree).
Abbreviation type_pass := (type_element_with_sorted_options package tree).

Fixpoint normal_type (e : TypeElement) : TypeElement :=
  match e with
  | MessageElement l n d nested os rs fs oofs xs gs =>
      MessageElement l n d (map normal_type nested) (sorted_options os) rs (map pass_field fs) (map pass_one_of oofs) xs gs
  | EnumElement l n d os cs => EnumElement l n d (sorted_options os) (map enum_constant_element_with_sorted_options cs)
  end.

(** The types that are normalised in an element. *)
Definition one_of_types (o : OneOfElement) : list string :=
  map element_type (o_fields o) ++ flat_map (fun g => map element_type (g_fields g)) (o_groups o).
Fixpoint field_types (e : TypeElement) : list string :=
  match e with
  | MessageElement _ _ _ nested _ _ fs oofs _ _ => map element_type fs ++ flat_map one_of_types oofs ++ flat_map field_types nested
  | EnumElement _ _ _ _ _ => []
  end.

(** Taking the package off once is enough. *)
Definition clean (ty : string) : Prop := stripped_type package (stripped_type package ty) = stripped_type package ty.

Lemma normalized_clean ty : clean ty -> normalized_type package tree (normalized_type package tree ty) = normalized_type package tree ty.
Proof.
  intros Hc. assert (Hcases : normalized_type package tree ty = ty \/ normalized_type package tree ty = stripped_type package ty)
    by (unfold normalized_type; destruct (_ || _); auto).
  destruct Hcases as [E|E]; rewrite E; [by rewrite E|]. unfold normalized_type. rewrite Hc. by destruct (_ || _).
Qed.

Lemma map_twice {A B} (g : A -> A) (ty : A -> list B) (P : B -> Prop) l :
  (forall x, (forall b, b ∈ ty x -> P b) -> g (g x) = g x) -> (forall b, b ∈ flat_map ty l -> P b) -> map g (map g l) = map g l.
Proof.
  intros Hg. induction l as [|x l IH]; intros H; [done|]. simpl. rewrite Hg, IH; [done|..]; intros b Hb; apply H; simpl; apply elem_of_app; auto.
Qed.
Lemma map_flat_map {A B} (f : A -> B) l : map f l = flat_map (fun x => [f x]) l.
Proof. induction l as [|x l IH]; [done|]. simpl. by rewrite IH. Qed.

Lemma pass_field_twice f : clean (element_type f) -> pass_field (pass_field f) = pass_field f.
Proof. intros H. unfold normalize_type_field_element. simpl. by rewrite normalized_clean, sorted_options_twice. Qed.
Lemma pass_fields_twice fs : (forall ty, ty ∈ map element_type fs -> clean ty) -> map pass_field (map pass_field fs) = map pass_field fs.
Proof.
  intros H. apply (map_twice _ (fun f => [element_type f]) clean); [|by rewrite <- map_flat_map].
  intros f Hf. apply pass_field_twice, Hf. by left.
Qed.
Lemma pass_one_of_twice o : (forall ty, ty ∈ one_of_types o -> clean ty) -> pass_one_of (pass_one_of o) = pass_one_of o.
Proof.
  intros H. unfold one_ofs_with_sorted_options. simpl. rewrite sorted_options_twice. f_equal.
  - apply pass_fields_twice. intros ty Hty. apply H, elem_of_app. by left.
  - apply (map_twice _ (fun g => map element_type (g_fields g)) clean).
    + intros g Hg. unfold groups_with_sorted_options. simpl. by rewrite pass_fields_twice.
    + intros ty Hty. apply H, elem_of_app. by right.
Qed.
Lemma constant_twice c : enum_constant_element_with_sorted_options (enum_constant_element_with_sorted_options c) = enum_constant_element_with_sorted_options c.
Proof. unfold enum_constant_element_with_sorted_options. simpl. by rewrite sorted_options_twice. Qed.
Lemma map_same {A} (g : A -> A) l : (forall x, g (g x) = g x) -> map g (map g l) = map g l.
Proof. intros H. rewrite map_map. by apply map_ext. Qed.

Lemma normal_type_twice e : (forall ty, ty ∈ field_types e -> clean ty) -> normal_type (normal_type e) = normal_type e.
Proof.
  induction e as [l n d nested os rs fs oofs xs gs IH|l n d os cs] using type_element_induction; cbn [normal_type field_types]; intros H.
  - assert (Hn : map normal_type (map normal_type nested) = map normal_type nested).
    { assert (Hty : forall ty, ty ∈ flat_map field_types nested -> clean ty) by (intros ty Hty; apply H; rewrite !elem_of_app; auto).
      clear H. induction nested as [|e nested IHn]; [done|]. simpl. rewrite IH; [|left|].
      - rewrite IHn; [done| |]; [intros x Hx; apply IH; by right|]. intros ty Hx. apply Hty. simpl. apply elem_of_app. by right.
      - intros ty Hx. apply Hty. simpl. apply elem_of_app. by left. }
    rewrite Hn, sorted_options_twice, pass_fields_twice, (map_twice _ one_of_types clean); [done|apply pass_one_of_twice|..];
      intros ty Hty; apply H; rewrite !elem_of_app; auto.
  - by rewrite sorted_options_twice, (map_same _ _ constant_twice).
Qed.

(** ** The passes of the code *)

Lemma clean_normalized ty : clean ty -> clean (normalized_type package tree ty).
Proof.
  intros Hc. unfold normalized_type. destruct (_ || _); [|done]. unfold clean in *. by rewrite Hc.
Qed.
Lemma flat_map_same {A B} (f : A -> list B) (g : B -> B) (h : A -> A) l : (forall x, x ∈ l -> f (h x) = map g (f x)) ->
  flat_map f (map h l) = map g (flat_map f l).
Proof.
  induction l as [|x l IH]; intros H; [done|]. simpl. rewrite map_app, H by left. rewrite IH; [done|]. intros y Hy. apply H. by right.
Qed.
Lemma pass_field_types fs : map element_type (map pass_field fs) = map (normalized_type package tree) (map element_type fs).
Proof. by rewrite !map_map. Qed.
Lemma field_types_normal e : field_types (normal_type e) = map (normalized_type package tree) (field_types e).
Proof.
  induction e as [l n d nested os rs fs oofs xs gs IH|l n d os cs] using type_element_induction; [|done].
  cbn [normal_type field_types]. rewrite !map_app, pass_field_types. f_equal. f_equal; [|by apply flat_map_same].
  apply flat_map_same. intros o _. unfold one_of_types. simpl. rewrite map_app, pass_field_types. f_equal.
  apply flat_map_same. intros g _. apply pass_field_types.
Qed.

Definition passes_to (e : TypeElement) (r : result (TypeElement * TypeElement)) : Prop :=
  exists a b, r = Ok (a, b) /\ height b = height e /\ ((forall ty, ty ∈ field_types e -> clean ty) -> b = normal_type e).

Lemma max_heights (l l' : list TypeElement) : Forall2 (fun e b => height b = height e) l l' ->
  fold_right Nat.max 0 (map height l') = fold_right Nat.max 0 (map height l).
Proof. induction 1 as [|e b l l' H _ IH]; [done|]. simpl. by rewrite H, IH. Qed.
Lemma height_nested e n : n ∈ nested_types e -> height n < height e.
Proof.
  destruct e as [l nm d nested os rs fs oofs xs gs|]; simpl; [|intros H; by apply not_elem_of_nil in H].
  induction nested as [|x nested IH]; intros H; [by apply not_elem_of_nil in H|]. simpl.
  apply elem_of_cons in H as [->|H]; [lia|]. specialize (IH H). lia.
Qed.
Lemma map_res_passes rec l : (forall e, e ∈ l -> passes_to e (rec e)) ->
  exists rs, map_res rec l = Ok rs /\ Forall2 (fun e b => height b = height e) l (map snd rs) /\
    ((forall ty, ty ∈ flat_map field_types l -> clean ty) -> map snd rs = map normal_type l).
Proof.
  induction l as [|e l IH]; intros H; [by exists []|]. destruct (H e ltac:(left)) as (a & b & E & Hh & Hn).
  destruct IH as (rs & Er & Hf & Hc); [intros x Hx; apply H; by right|]. exists ((a, b) :: rs). simpl. rewrite E. simpl. rewrite Er.
  split_and!; [done|by constructor|]. intros Hty. simpl in Hty. rewrite Hn, Hc; [done|..]; intros ty Hx; apply Hty, elem_of_app; auto.
Qed.
Lemma nested_field_types e ty : ty ∈ flat_map field_types (nested_types e) -> ty ∈ field_types e.
Proof. destruct e; simpl; [rewrite !elem_of_app; auto|done]. Qed.
Lemma message_passes rec e : (forall n, n ∈ nested_types e -> passes_to n (rec n)) ->
  passes_to e (message_element_with_sorted_options package tree rec e).
Proof.
  destruct e as [l n d nested os rs fs oofs xs gs|l n d os cs]; intros H; [|by eexists _, _].
  destruct (map_res_passes rec nested H) as (rn & En & Hf & Hc). eexists _, _. simpl. rewrite En. split; [done|]. split.
  - simpl. f_equal. by apply max_heights.
  - intros Hty. rewrite Hc; [done|]. intros ty Hx. apply Hty. by apply (nested_field_types (MessageElement l n d nested os rs fs oofs xs gs)).
Qed.

Lemma set_nested_same e : set_nested_types (nested_types e) e = e.
Proof. by destruct e. Qed.
Lemma height_set_nested e l : Forall2 (fun e b => height b = height e) (nested_types e) l -> height (set_nested_types l e) = height e.
Proof. destruct e; simpl; [|done]. intros H. f_equal. by apply max_heights. Qed.
Lemma nested_set_nested e l : nested_types (set_nested_types l e) = match e with MessageElement _ _ _ _ _ _ _ _ _ _ => l | _ => [] end.
Proof. by destruct e. Qed.

Lemma type_passes fuel : forall e, height e <= fuel -> passes_to e (type_pass fuel e).
Proof.
  induction fuel as [|fuel IH]; intros e Hf; [destruct e; simpl in Hf; lia|]. cbn [type_element_with_sorted_options].
  destruct (map_res_passes (message_element_with_sorted_options package tree (type_pass fuel)) (nested_types e)) as (rn & En & Hh & Hc).
  { intros n Hn. apply message_passes. intros x Hx. apply IH. apply height_nested in Hn, Hx. lia. }
  rewrite En. simpl. set (e' := set_nested_types (map snd rn) e).
  assert (He' : height e' = height e) by by apply height_set_nested.
  destruct (message_passes (type_pass fuel) e') as (a & b & E & Hb & Hn).
  { intros n Hn. apply IH. apply height_nested in Hn. lia. }
  exists a, b. split; [done|]. split; [congruence|]. intros Hty.
  assert (Hnested : map snd rn = map normal_type (nested_types e)).
  { apply Hc. intros ty Hx. apply Hty. by apply nested_field_types. }
  destruct e as [l n d nested os rs fs oofs xs gs|l n d os cs]; [|by rewrite Hn].
  simpl in Hnested. rewrite Hn.
  - unfold e'. simpl. rewrite Hnested. f_equal. rewrite map_map. apply map_ext_in. intros x Hx%list_elem_of_In. apply normal_type_twice.
    intros ty Hy. apply Hty. cbn [field_types]. rewrite !elem_of_app. right. right. apply list_elem_of_In, in_flat_map.
    exists x. split; by apply list_elem_of_In.
  - intros ty. unfold e'. simpl. rewrite Hnested, !elem_of_app. intros [Hx|[Hx|Hx]]; [apply Hty; cbn [field_types]; rewrite !elem_of_app; auto..|].
    rewrite (flat_map_same _ (normalized_type package tree)) in Hx by (intros; apply field_types_normal).
    apply list_elem_of_In, in_map_iff in Hx as (ty0 & <- & Hx%list_elem_of_In). apply clean_normalized, Hty. cbn [field_types].
    rewrite !elem_of_app. auto.
Qed.
End pass.

(** ** Schemas *)

Definition package_of (f : ProtoFileElement) : string := default ""%string (file_package f).
Definition normal_schema (s : ProtobufSchema) : ProtobufSchema :=
  let '(mkSchema f dependencies) := s in
  mkSchema
    (mkFile (file_package f) (file_syntax f) (file_imports f) (file_public_imports f)
       (map (normal_type (package_of f) (types_tree s)) (file_types f)) (map service_element_with_sorted_options (file_services f))
       (map (extends_element_with_sorted_options (package_of f) (types_tree s)) (file_extends f)) (sorted_options (file_options f)))
    dependencies.
Definition schema_types (s : ProtobufSchema) : list string :=
  flat_map field_types (file_types (schema_file s)) ++ flat_map (fun e => map element_type (e_fields e)) (file_extends (schema_file s)).
Definition clean_schema (s : ProtobufSchema) : Prop := forall ty, ty ∈ schema_types s -> clean (package_of (schema_file s)) ty.

Lemma normalize_total s : exists s', normalize s = Ok s'.
Proof.
  destruct s as [f deps]. unfold normalize. set (tree := types_tree _). set (package := default ""%string _).
  destruct (map_res_passes package tree (fun e => type_element_with_sorted_options package tree (S (height e)) e) (file_types f)) as (rs & -> & _).
  { intros e _. apply type_passes. lia. }
  simpl. eauto.
Qed.
Lemma normalize_one_pass s : clean_schema s -> normalize s = Ok (normal_schema s).
Proof.
  destruct s as [f deps]. intros Hc. unfold normalize, normal_schema. set (tree := types_tree _). fold (package_of f).
  destruct (map_res_passes (package_of f) tree (fun e => type_element_with_sorted_options (package_of f) tree (S (height e)) e) (file_types f))
    as (rs & -> & _ & Hn).
  { intros e _. apply type_passes. lia. }
  simpl. rewrite Hn; [done|]. intros ty Hty. apply Hc, elem_of_app. by left.
Qed.

(** The names of the types, and so the trie, are those of the schema. *)
Lemma normal_type_name package tree e : element_name (normal_type package tree e) = element_name e.
Proof. by destruct e. Qed.
Lemma nested_tree_normal package tree file e : forall t parent n,
  nested_type_tree t parent (normal_type package tree e) file n = nested_type_tree t parent e file n.
Proof.
  induction e as [l nm d nested os rs fs oofs xs gs IH|l nm d os cs] using type_element_induction; intros t parent n; [|done].
  cbn [normal_type nested_type_tree element_name]. generalize (add_new_type t (parent +:+ "." +:+ nm) file n). generalize (n + 1)%Z.
  induction nested as [|e nested IHn]; intros z t'; [done|]. cbn [map]. rewrite IH by left. apply IHn. intros x Hx. apply IH. by right.
Qed.
Lemma element_types_normal package tree package' file st e :
  add_element_types package' file st (normal_type package tree e) = add_element_types package' file st e.
Proof.
  unfold add_element_types. rewrite normal_type_name. destruct e as [l n d nested os rs fs oofs xs gs|]; [|done]. cbn [normal_type nested_types].
  generalize (add_new_type st.1 (package' +:+ "." +:+ element_name (MessageElement l n d nested os rs fs oofs xs gs)) file st.2, (st.2 + 1)%Z).
  induction nested as [|e nested IH]; intros st'; [done|]. simpl. by rewrite nested_tree_normal, IH.
Qed.
Lemma types_tree_normal s : types_tree (normal_schema s) = types_tree s.
Proof.
  destruct s as [f deps]. unfold types_tree, normal_schema. cbn [types_tree_recursive file_types file_package]. f_equal.
  match goal with |- fold_left _ _ ?x = _ => generalize x end. induction (file_types f) as [|e l IH]; intros st; [done|]. simpl.
  by rewrite element_types_normal, IH.
Qed.

Lemma service_twice x : service_element_with_sorted_options (service_element_with_sorted_options x) = service_element_with_sorted_options x.
Proof.
  unfold service_element_with_sorted_options. simpl. rewrite sorted_options_twice, map_same; [done|].
  intros r. unfold rpc_element_with_sorted_options. simpl. by rewrite sorted_options_twice.
Qed.
Lemma extend_types_normal package tree l :
  flat_map (fun e => map element_type (e_fields e)) (map (extends_element_with_sorted_options package tree) l) =
  map (normalized_type package tree) (flat_map (fun e => map element_type (e_fields e)) l).
Proof. apply flat_map_same. intros e _. apply pass_field_types. Qed.
Lemma clean_normal_schema s : clean_schema s -> clean_schema (normal_schema s).
Proof.
  destruct s as [f deps]. intros Hc ty Hty. unfold schema_types in Hty. cbn [normal_schema schema_file file_types file_extends] in Hty.
  rewrite (flat_map_same _ (normalized_type (package_of f) (types_tree (mkSchema f deps)))) in Hty by (intros; apply field_types_normal).
  rewrite extend_types_normal, <- map_app in Hty. apply list_elem_of_In, in_map_iff in Hty as (ty0 & <- & Hty%list_elem_of_In).
  apply clean_normalized. by apply Hc.
Qed.

Lemma normal_schema_fixpoint s : clean_schema s ->
  normalize s = Ok (normal_schema s) /\ normalize (normal_schema s) = Ok (normal_schema s).
Proof.
  intros Hc. split; [by apply normalize_one_pass|]. rewrite normalize_one_pass by by apply clean_normal_schema. f_equal.
  pose proof (types_tree_normal s) as Ht. destruct s as [f deps]. unfold normal_schema at 1. cbn [normal_schema] in *. rewrite Ht.
  set (tree := types_tree (mkSchema f deps)) in *. cbn [file_package file_syntax file_imports file_public_imports file_types file_services file_extends file_options].
  unfold package_of. cbn [file_package]. fold (package_of f). f_equal. f_equal.
  - apply (map_twice _ field_types (clean (package_of f))); [intros; by apply normal_type_twice|]. intros ty Hty. apply Hc, elem_of_app. by left.
  - apply map_same, service_twice.
  - apply (map_twice _ (fun e => map element_type (e_fields e)) (clean (package_of f))).
    + intros e He. unfold extends_element_with_sorted_options. simpl. by rewrite pass_fields_twice.
    + intros ty Hty. apply Hc, elem_of_app. by right.
  - apply sorted_options_twice.
Qed.

(** The package is taken off a type, with a leading dot, when what is left is a known type or the end
    of the name of exactly one declared type, as [names_ending_in] counts them. *)
Definition short_type (s : ProtobufSchema) (ty : string) : string :=
  let short := py_removeprefix (package_of (schema_file s) +:+ ".")%string (py_removeprefix "." ty) in
  if is_known short || Nat.eqb (length (names_ending_in s short)) 1 then short else ty.

Lemma normalized_type_short s ty : normalized_type (package_of (schema_file s)) (types_tree s) ty = short_type s ty.
Proof.
  unfold normalized_type, short_type. fold (stripped_type (package_of (schema_file s)) ty).
  rewrite uniquely_identifiable_iff. by destruct (is_known _), (Nat.eqb _ _).
Qed.

Lemma normal_schema_rebuild s : normal_schema s = rebuild_schema sorted_options (short_type s) s.
Proof.
  rewrite <- (rebuild_schema_ext _ _ _ (normalized_type_short s)). by destruct s.
Qed.


(** ** What a normalised type names *)

Lemma matches_removeprefix q ty name : matches (path_of ty) name = true -> matches (path_of (py_removeprefix (q +:+ ".") ty)) name = true.
Proof. unfold matches. intros H. eapply is_prefix_trans; [apply path_removeprefix|done]. Qed.
Lemma filter_sub_nil {A} (p q : A -> bool) l : (forall x, p x = true -> q x = true) -> List.filter q l = [] -> List.filter p l = [].
Proof.
  intros Hpq. induction l as [|x l IH]; [done|]. simpl. destruct (p x) eqn:E; [by rewrite (Hpq x E)|]. destruct (q x); [done|exact IH].
Qed.
Lemma filter_single {A} (p q : A -> bool) l : length (List.filter q l) = 1 -> List.filter p l ≠ [] ->
  (forall x, p x = true -> q x = true) -> List.filter q l = List.filter p l.
Proof.
  intros Hq Hp Hpq. induction l as [|x l IH]; [done|]. simpl in *. destruct (p x) eqn:Ep, (q x) eqn:Eq; simpl in Hq.
  - injection Hq as Hq%length_zero_iff_nil. by rewrite Hq, (filter_sub_nil p q).
  - by rewrite (Hpq x Ep) in Eq.
  - injection Hq as Hq%length_zero_iff_nil. by destruct Hp; apply (filter_sub_nil p q).
  - by apply IH.
Qed.

(** Normalising the type of a field keeps what it names: a type that is not one of the known
    ones and names declared types names the same declared types once normalised, since the package
    is taken off only where the rest is uniquely identifiable. *)
Theorem normalized_type_same_declaration s ty : let package := package_of (schema_file s) in
  is_known (stripped_type package ty) = false -> names_ending_in s ty ≠ [] ->
  names_ending_in s (normalized_type package (types_tree s) ty) = names_ending_in s ty.
Proof.
  intros package Hk Hne. unfold normalized_type. rewrite Hk, uniquely_identifiable_iff, orb_false_r, andb_true_r.
  destruct (Nat.eqb_spec (length (names_ending_in s (stripped_type package ty))) 1) as [Hone|_]; [|done].
  apply filter_single; [done|done|]. intros name Hn. unfold stripped_type.
  by apply (matches_removeprefix ""), matches_removeprefix.
Qed.

(** ** An example *)

Definition sample_field (ty n : string) (z : Z) (os : list OptionElement) : FieldElement :=
  mkField DEFAULT_LOCATION None ty n None None z "" os.
Definition flag (n : string) : OptionElement := mkOption n BOOLEAN (VStr "true") false.
Definition sample_schema : ProtobufSchema :=
  mkSchema
    (mkFile (Some "shop"%string) (Some PROTO_3) ["base.proto"%string] []
       [MessageElement DEFAULT_LOCATION "Order" ""
          [MessageElement DEFAULT_LOCATION "Line" "" [] [flag "z"; flag "a"] [] [sample_field "shop.Order" "order" 1 []] [] [] []]
          [] [] [sample_field ".shop.Order.Line" "lines" 1 [flag "packed"; flag "deprecated"]; sample_field ".base.Id" "id" 2 []] [] [] []]
       [] [] [])
    [("base.proto"%string, mkSchema (mkFile (Some "base"%string) None [] [] [MessageElement DEFAULT_LOCATION "Id" "" [] [] [] [] [] [] []] [] [] []) [])].

Lemma normalized_type_same_declaration_witness :
  normalized_type "shop" (types_tree sample_schema) ".shop.Order.Line" = "Order.Line"%string /\
  names_ending_in sample_schema (normalized_type "shop" (types_tree sample_schema) ".shop.Order.Line") =
  names_ending_in sample_schema ".shop.Order.Line".
Proof. split; [by vm_compute|]. apply (normalized_type_same_declaration sample_schema); by vm_compute. Defined.
Example sample_schema_verified : verify_schema_dependencies sample_schema = (true, ""%string).
Proof. by vm_compute. Qed.
