(* ===== verification/Framing.v ===== *)
(** * Bytes, the message header and the protobuf message indexes

    The header that [core/serialization.py] puts before every message ([struct.pack(">bI", ...)]), the
    variable-length integers and message indexes of [core/protobuf/encoding_variants.py], and the part
    of [core/protobuf/io.py] that finds the message an index path names. A [BytesIO] that is read is
    the list of the bytes still to come, one that is written the list of the bytes written so far. *)

From Stdlib Require Import Strings.Byte.
From S2P Require Import Prelude Typing Models Protobuf ProtoReader ProtoElements.
Open Scope Z_scope.

(** ** Bytes *)

Abbreviation bytes := (list byte) (only parsing).

Definition byte_val (b : byte) : Z := Z.of_N (Byte.to_N b).
Definition byte_of (z : Z) : byte := default x00 (Byte.of_N (Z.to_N (z mod 256))).

#[global] Instance byte_eq_dec : EqDecision byte := Byte.byte_eq_dec.

Lemma byte_val_range b : 0 <= byte_val b < 256.
Proof. unfold byte_val. pose proof (Byte.to_N_bounded b). lia. Qed.

Lemma byte_val_of z : byte_val (byte_of z) = z mod 256.
Proof.
  unfold byte_val, byte_of. pose proof (Z.mod_pos_bound z 256 ltac:(lia)).
  destruct (Byte.of_N _) as [b|] eqn:E; simpl.
  - apply Byte.to_of_N in E. rewrite E. lia.
  - apply Byte.of_N_None_iff in E. lia.
Qed.

Lemma byte_of_val b : byte_of (byte_val b) = b.
Proof.
  unfold byte_of. rewrite Z.mod_small by apply byte_val_range.
  unfold byte_val. rewrite N2Z.id, Byte.of_to_N. done.
Qed.

#[export] Hint Rewrite byte_val_of byte_of_val : pydict.

(** [bio.read(n)] and [bio.read()] *)
Definition bio_read (n : nat) : M bytes bytes := fun bio => (drop n bio, Ok (take n bio)).
Definition bio_read_all : M bytes bytes := fun bio => ([], Ok bio).
(** [bio.write(b)] for a bytes object *)
Definition bio_write (b : bytes) : M bytes () := modify (fun bio => bio ++ b).

(** ** The header *)

Definition START_BYTE : Z := 0.
Definition HEADER_SIZE : nat := 5.

(** [struct.pack(">bI", start_byte, schema_id)]: a signed byte, then an unsigned 32-bit integer, most
    significant byte first; out of range is a [struct.error]. *)
Definition pack_header (start_byte schema_id : Z) : result bytes :=
  if (-128 <=? start_byte) && (start_byte <=? 127) && (0 <=? schema_id) && (schema_id <? 2 ^ 32)
  then Ok [byte_of start_byte; byte_of (Z.shiftr schema_id 24); byte_of (Z.shiftr schema_id 16);
           byte_of (Z.shiftr schema_id 8); byte_of schema_id]
  else Raise StructError.

(** [struct.unpack(">bI", ...)], which wants exactly five bytes. *)
Definition unpack_header (b : bytes) : result (Z * Z) :=
  match b with
  | [s; b3; b2; b1; b0] =>
      Ok (if byte_val s <? 128 then byte_val s else byte_val s - 256,
          Z.lor (Z.shiftl (byte_val b3) 24) (Z.lor (Z.shiftl (byte_val b2) 16)
            (Z.lor (Z.shiftl (byte_val b1) 8) (byte_val b0))))
  | _ => Raise StructError
  end.

(** ** Variable-length integers *)

Fixpoint read_varint_loop (varint : Z) (read_bytes : nat) (bio : bytes) : bytes * result Z :=
  match bio with
  | [] => ([], if Nat.eqb read_bytes 0 then Ok 0 else Raise EOFError)
  | char :: bio' =>
      let byte := byte_val char in
      let varint := varint + Z.shiftl (Z.land byte 0x7F) (7 * Z.of_nat read_bytes) in
      if Z.land byte 0x80 =? 0 then (bio', Ok varint)
      else read_varint_loop varint (S read_bytes) bio'
  end.
Definition read_varint : M bytes Z := read_varint_loop 0 0.

(** [[read(bio) for _ in range(n)]] *)
Fixpoint read_times {A} (read : M bytes A) (n : nat) : M bytes (list A) :=
  match n with
  | O => mret []
  | S n => x ← read; l ← read_times read n; mret (x :: l)
  end.

Definition read_indexes : M bytes (list Z) :=
  size ← catch read_varint (fun e => raise (if bool_decide (e = EOFError) then IllegalArgumentException else e));
  if size =? 0 then mret [0] else read_times read_varint (Z.to_nat size).

(** [bytearray(n)[0]]: the first of [n] zero bytes, an int. *)
Definition bytearray_head (n : Z) : result Z := if 0 <? n then Ok 0 else Raise IndexError.
(** [bio.write(i)] for an int: a [TypeError], a bytes-like object is required. *)
Definition bio_write_int (i : Z) : M bytes () := raise TypeError.

(** The [while value > 0] loop; [fuel] bounds its iterations, seven bits at a time. *)
Fixpoint write_varint_loop (fuel : nat) (value written_bytes : Z) : M bytes Z :=
  match fuel with
  | O => raise RecursionError
  | S fuel =>
      if 0 <? value then
        let to_write := Z.land value 0x7F in
        let value := Z.shiftr value 7 in
        let to_write := if 0 <? value then Z.lor to_write 0x80 else to_write in
        b ← lift (bytearray_head to_write);
        _ ← bio_write_int b;
        write_varint_loop fuel value (written_bytes + 1)
      else mret written_bytes
  end.

Definition write_varint (value : Z) : M bytes Z :=
  if value <? 0 then raise ValueError
  else if value =? 0 then _ ← bio_write [x00]; mret 1
  else write_varint_loop (S (Z.to_nat value)) value 0.

Definition write_indexes (indexes : list Z) : M bytes () :=
  for_each indexes (fun i => _ ← write_varint i; mret ()).

(** ** The message an index path names *)

(** [types[index]] *)
Definition py_index {A} (l : list A) (i : Z) : result A :=
  let i := if i <? 0 then i + Z.of_nat (length l) else i in
  if i <? 0 then Raise IndexError
  else match l !! Z.to_nat i with Some x => Ok x | None => Raise IndexError end.

Fixpoint find_message_path (types : list TypeElement) (indexes : list Z) : result (list string) :=
  match indexes with
  | [] => Ok []
  | index :: indexes =>
      message ← reraise (fun e => bool_decide (e = IndexError)) IllegalArgumentException (py_index types index);
      match message with
      | MessageElement _ name _ nested_types _ _ _ _ _ _ =>
          path ← find_message_path nested_types indexes; Ok (name :: path)
      | EnumElement _ _ _ _ _ => Raise IllegalArgumentException
      end
  end.

Definition find_message_name (types : list TypeElement) (indexes : list Z) : result string :=
  path ← find_message_path types indexes; Ok (join_with "." path).

(** [ProtobufDatumWriter.__init__]: the first message of the file, with its index. *)
Fixpoint first_message (idx : Z) (types : list TypeElement) : option (string * Z) :=
  match types with
  | [] => None
  | MessageElement _ name _ _ _ _ _ _ _ _ :: _ => Some (name, idx)
  | EnumElement _ _ _ _ _ :: types => first_message (idx + 1) types
  end.

Definition ProtobufDatumWriter (types : list TypeElement) : result (string * Z) :=
  match first_message 0 types with
  | Some (name, idx) => if String.eqb name "" then Raise ProtobufTypeException else Ok (name, idx)
  | None => Raise ProtobufTypeException
  end.

(** [ProtobufDatumWriter.write_index] *)
Definition write_index (message_index : Z) : M bytes () := write_indexes [message_index].

(** ** The encoding that is read: base-128 digits, least significant first *)

Fixpoint varint_digits (fuel : nat) (n : Z) : bytes :=
  match fuel with
  | O => [byte_of n]
  | S fuel => if n <? 128 then [byte_of n] else byte_of (n mod 128 + 128) :: varint_digits fuel (n / 128)
  end.
Definition varint (n : Z) : bytes := varint_digits (Z.to_nat n) n.

(** An index path: one zero byte for the first message, else the length and the indexes. *)
Definition index_path (indexes : list Z) : bytes :=
  if bool_decide (indexes = [0]) then [x00]
  else varint (Z.of_nat (length indexes)) ++ mjoin (map varint indexes).

(** ** Lemmas *)

Lemma land_shiftl_low a b k : 0 <= k -> 0 <= b < 2 ^ k -> Z.land (Z.shiftl a k) b = 0.
Proof.
  intros Hk Hb. rewrite <- (Z.mod_small b (2 ^ k)) by done. rewrite <- Z.land_ones by done.
  rewrite (Z.land_comm b), Z.land_assoc, Z.land_ones, Z.shiftl_mul_pow2, Z.mod_mul by lia.
  apply Z.land_0_l.
Qed.

Lemma lor_shiftl a b k : 0 <= k -> 0 <= b < 2 ^ k -> Z.lor (Z.shiftl a k) b = a * 2 ^ k + b.
Proof.
  intros Hk Hb. pose proof (land_shiftl_low a b k Hk Hb) as Hl.
  rewrite <- Z.lxor_lor, <- Z.add_nocarry_lxor by done. by rewrite Z.shiftl_mul_pow2.
Qed.

Lemma word_of_bytes b3 b2 b1 b0 : 0 <= b2 < 256 -> 0 <= b1 < 256 -> 0 <= b0 < 256 ->
  Z.lor (Z.shiftl b3 24) (Z.lor (Z.shiftl b2 16) (Z.lor (Z.shiftl b1 8) b0)) =
  b3 * 16777216 + b2 * 65536 + b1 * 256 + b0.
Proof.
  intros H2 H1 H0. rewrite (lor_shiftl b1 b0 8) by (simpl; lia).
  rewrite (lor_shiftl b2 _ 16) by (simpl; lia). rewrite (lor_shiftl b3 _ 24) by (simpl; lia). lia.
Qed.

(** A header that can be packed is unpacked to what it was packed from. *)
Lemma unpack_pack id b : pack_header START_BYTE id = Ok b ->
  length b = HEADER_SIZE /\ unpack_header b = Ok (START_BYTE, id).
Proof.
  unfold pack_header, START_BYTE. destruct (_ && _) eqn:E; [|done]. intros [= <-].
  rewrite !andb_true_iff, !Z.leb_le, Z.ltb_lt in E. split; [done|]. unfold unpack_header. do 2 f_equal.
  rewrite !byte_val_of, !Z.shiftr_div_pow2, word_of_bytes by (try apply Z.mod_pos_bound; lia).
  change (2 ^ 24) with 16777216. change (2 ^ 16) with 65536. change (2 ^ 8) with 256.
  change (2 ^ 32) with 4294967296 in E.
  Z.to_euclidean_division_equations. lia.
Qed.

Lemma pack_header_ok id : 0 <= id < 2 ^ 32 -> exists b, pack_header START_BYTE id = Ok b.
Proof. intros H. unfold pack_header, START_BYTE. rewrite !(proj2 (Z.leb_le _ _)), (proj2 (Z.ltb_lt _ _)) by lia. eauto. Qed.

(** The digits of a variable-length integer, read back with the bytes that follow them. *)
Lemma read_varint_digits fuel n v k rest : 0 <= n -> n < 128 * 2 ^ (7 * Z.of_nat fuel) ->
  read_varint_loop v k (varint_digits fuel n ++ rest) = (rest, Ok (v + n * 2 ^ (7 * Z.of_nat k))).
Proof.
  assert (Hlow : forall m v k rest, 0 <= m < 128 ->
    read_varint_loop v k (byte_of m :: rest) = (rest, Ok (v + m * 2 ^ (7 * Z.of_nat k)))).
  { intros m v' k' rest' Hm. simpl. rewrite byte_val_of, (Z.mod_small m 256) by lia.
    change 0x7F with (Z.ones 7). rewrite Z.land_ones, (Z.mod_small m) by (simpl; lia).
    rewrite Z.shiftl_mul_pow2 by lia.
    replace (Z.land m 0x80) with 0; [done|]. symmetry. rewrite Z.land_comm.
    apply (land_shiftl_low 1 m 7); simpl; lia. }
  revert n v k. induction fuel as [|fuel IH]; intros n v k H0 Hn; [apply Hlow; simpl in Hn; lia|].
  cbn [varint_digits]. destruct (Z.ltb_spec n 128); [apply Hlow; lia|]. rewrite <- app_comm_cons. cbn [read_varint_loop].
  pose proof (Z.mod_pos_bound n 128 ltac:(lia)) as Hb. pose proof (Z_div_mod_eq_full n 128) as He.
  assert (Hbit : Z.land (n mod 128 + 128) 0x80 <> 0).
  { replace (n mod 128 + 128) with (Z.lor (Z.shiftl 1 7) (n mod 128))
      by (rewrite lor_shiftl by (simpl; lia); simpl; lia).
    rewrite Z.land_lor_distr_l. intros E%Z.lor_eq_0_iff. by destruct E. }
  rewrite byte_val_of, (Z.mod_small (_ + _) 256), (proj2 (Z.eqb_neq _ _) Hbit) by lia.
  change 0x7F with (Z.ones 7). rewrite Z.land_ones by lia. change (2 ^ 7) with 128.
  replace ((n mod 128 + 128) mod 128) with (n mod 128) by (rewrite <- Z.add_mod_idemp_r, Z.add_0_r, Z.mod_mod by lia; done).
  rewrite IH by (try (apply Z.div_pos; lia); replace (Z.of_nat (S fuel)) with (Z.of_nat fuel + 1) in Hn by lia;
    rewrite Z.mul_add_distr_l, Z.pow_add_r in Hn by lia; change (2 ^ (7 * 1)) with 128 in Hn;
    apply Z.div_lt_upper_bound; nia).
  do 2 f_equal. rewrite Z.shiftl_mul_pow2 by lia. replace (Z.of_nat (S k)) with (Z.of_nat k + 1) by lia.
  rewrite Z.mul_add_distr_l, Z.pow_add_r by lia. change (2 ^ (7 * 1)) with 128.
  rewrite He at 3. nia.
Qed.

Lemma read_varint_varint n rest : 0 <= n -> read_varint (varint n ++ rest) = (rest, Ok n).
Proof.
  intros Hn. unfold read_varint, varint. rewrite read_varint_digits by
    (try lia; pose proof (Z.pow_gt_lin_r 2 (7 * Z.of_nat (Z.to_nat n))); lia).
  do 2 f_equal. lia.
Qed.

Lemma read_times_varints l rest : Forall (fun i => 0 <= i) l ->
  read_times read_varint (length l) (mjoin (map varint l) ++ rest) = (rest, Ok l).
Proof.
  induction 1 as [|n l Hn Hl IH]; simpl; [done|].
  rewrite <- app_assoc. unfold mbind, M_bind. rewrite read_varint_varint by done.
  unfold mbind, M_bind in IH. by rewrite IH.
Qed.

(** An index path that is not empty is read back. *)
Lemma read_index_path indexes rest : indexes <> [] -> Forall (fun i => 0 <= i) indexes ->
  read_indexes (index_path indexes ++ rest) = (rest, Ok indexes).
Proof.
  intros Hne Hl. unfold index_path, read_indexes. case_bool_decide as E; [by subst|].
  rewrite <- app_assoc. unfold mbind at 1, M_bind at 1, catch. rewrite read_varint_varint by lia.
  rewrite (proj2 (Z.eqb_neq _ _)) by (destruct indexes; simpl; [done|lia]).
  rewrite Nat2Z.id. by apply read_times_varints.
Qed.

(** The writer writes the index 0 and no other: a positive one is a [TypeError]. *)
Lemma write_varint_outcome value bio : write_varint value bio =
  if value <? 0 then (bio, Raise ValueError)
  else if value =? 0 then (bio ++ [x00], Ok 1) else (bio, Raise TypeError).
Proof.
  unfold write_varint. destruct (Z.ltb_spec value 0); [done|]. destruct (Z.eqb_spec value 0); [done|].
  cbn [write_varint_loop]. rewrite (proj2 (Z.ltb_lt 0 value)) by lia.
  change 0x7F with (Z.ones 7). rewrite Z.land_ones, Z.shiftr_div_pow2 by lia. change (2 ^ 7) with 128.
  assert (Hpos : 0 < (if 0 <? value / 128 then Z.lor (value mod 128) 128 else value mod 128)).
  { destruct (Z.ltb_spec 0 (value / 128)); [|Z.to_euclidean_division_equations; lia].
    pose proof (Z.mod_pos_bound value 128 ltac:(lia)). rewrite Z.lor_comm.
    change 128 with (Z.shiftl 1 7) at 1. rewrite lor_shiftl by (simpl; lia). simpl; lia. }
  unfold bytearray_head. by rewrite (proj2 (Z.ltb_lt _ _) Hpos).
Qed.

(** Only the first element of a file can be written, when it is a message. *)
Lemma first_message_zero k types name : first_message k types = Some (name, k) -> 0 <= k ->
  exists location documentation nested options reserveds fields one_ofs extensions groups rest,
    types = MessageElement location name documentation nested options reserveds fields one_ofs extensions groups :: rest.
Proof.
  destruct types as [|[] types]; simpl; [done| |].
  - intros [= ->] _. eauto 20.
  - intros Hf Hk. exfalso.
    assert (Hge : forall types j n i, first_message j types = Some (n, i) -> j <= i).
    { clear. induction types as [|[] types IH]; simpl; intros j n i; [done|intros [= -> ->]; lia|].
      intros H%IH. lia. }
    apply Hge in Hf. lia.
Qed.
