(* ===== verification/Serialization.v ===== *)
(** * Serialising and deserialising messages with registered schemas

    [core/serialization.py]: the naming strategies, the client of the schema registry with its cached
    lookup of schemas and their dependencies, the caches of [SchemaRegistrySerializer], the flattening
    of Avro JSON unions, and [serialize]/[deserialize] of framed messages for the three schema types,
    with the datum reader and writer of [core/protobuf/io.py]. The libraries that encode data and the
    HTTP answers of the registry are parameters. *)

From stdpp Require Import pretty.
From Stdlib Require Import Strings.Byte QArith.
From S2P Require Import Prelude Json Typing Models Schemas Protobuf ProtoReader ProtoElements ProtoTypes Framing.
Open Scope Z_scope.

(** ** Avro schemas as [flatten_unions] sees them

    The classes of [avro.schema] the code tells apart. A record met again inside its own definition is
    the same object there; here it is its full name, looked up in the names of the schema. *)

Inductive AvroSchema : Type :=
  | PrimitiveSchema (fullname : string)
  | ArraySchema (items : AvroSchema)
  | MapSchema (values : AvroSchema)
  | RecordSchema (fullname name : string) (fields : list (string * AvroSchema))
  | UnionSchema (schemas : list AvroSchema)
  | OtherNamedSchema (fullname name : string)
  | NamedRecord (fullname : string).

Definition avro_names : Type := dict string AvroSchema.

Definition resolve_name (names : avro_names) (s : AvroSchema) : AvroSchema :=
  match s with NamedRecord n => default s (dget n names) | _ => s end.

(** [get_name] of [flatten_unions]; a union has no name, and is never a direct member of a union. *)
Definition get_name (names : avro_names) (obj : AvroSchema) : option string :=
  match resolve_name names obj with
  | PrimitiveSchema fullname => Some fullname
  | ArraySchema _ => Some "array"%string
  | MapSchema _ => Some "map"%string
  | RecordSchema _ name _ => Some name
  | OtherNamedSchema _ name => Some name
  | UnionSchema _ | NamedRecord _ => None
  end.

(** [schema.schema.fullname] for a [NamedSchema] *)
Definition avro_fullname (names : avro_names) (s : AvroSchema) : option string :=
  match resolve_name names s with
  | RecordSchema fullname _ _ | OtherNamedSchema fullname _ => Some fullname
  | _ => None
  end.

(** The members of an object, each waiting for the schema to flatten it with. *)
Definition flatten_fields (value : dict string json) (flat : dict string (AvroSchema -> json))
  (fields : list (string * AvroSchema)) : dict string json :=
  fold_left (fun result field =>
    match dget field.1 flat with Some f => dset field.1 (f field.2) result | None => result end) fields value.

Definition flatten_member (names : avro_names) (value : json) (flat : dict string (AvroSchema -> json))
  (schemas : list AvroSchema) : json :=
  let named s := match get_name names s with Some n => din n flat | None => false end in
  match List.find named schemas with
  | Some f => match get_name names f with
              | Some n => match dget n flat with Some g => g f | None => value end
              | None => value
              end
  | None => value
  end.

Fixpoint flatten_unions (names : avro_names) (value : json) (schema : AvroSchema) {struct value} : json :=
  match value with
  | JObj d =>
      let flat := (fix go d := match d with
                     | [] => []
                     | (k, v) :: d => (k, fun s => flatten_unions names v s) :: go d
                     end) d in
      match resolve_name names schema with
      | RecordSchema _ _ fields => JObj (flatten_fields d flat fields)
      | UnionSchema schemas => flatten_member names value flat schemas
      | MapSchema values => JObj (map (fun kf => (kf.1, kf.2 values)) flat)
      | _ => value
      end
  | JList l =>
      match resolve_name names schema with
      | ArraySchema items =>
          JList ((fix go l := match l with [] => [] | v :: l => flatten_unions names v items :: go l end) l)
      | _ => value
      end
  | _ => value
  end.

(** ** The libraries and the registry's answers *)

Class DataLib : Type := {
  (** [repr] of a float *)
  float_repr : Q -> string;
  (** [json_encode(json_decode(s))] of a text *)
  json_reencode : string -> result string;
  (** [json_decode] of a text *)
  json_loads : string -> result json;
  data_codec :: JsonCodec (list byte);
  (** the object an Avro schema is parsed to *)
  avro_schema : TypedSchema -> AvroSchema * avro_names;
  (** [avro.io.validate], [DatumWriter.write], [DatumReader.read] *)
  avro_validate : TypedSchema -> json -> bool;
  avro_write : TypedSchema -> json -> result bytes;
  avro_read : TypedSchema -> bytes -> result json;
  (** [schema.schema.validate(value)], without [ValidationError] *)
  json_validate : TypedSchema -> json -> bool;
  (** the object a protobuf schema is parsed to *)
  protobuf_schema : TypedSchema -> ProtobufSchema;
  (** the generated class of a message: [dict_to_protobuf] and [SerializeToString];
      [ParseFromString] and [protobuf_to_dict] *)
  message_write : TypedSchema -> string -> json -> result bytes;
  message_read : TypedSchema -> string -> bytes -> result json;
}.

(** [client.Result] and the requests of [client.Client] *)
Record Result : Type := mkResult { status_code : Z; json_result : json }.
Definition result_ok (r : Result) : bool := (200 <=? status_code r) && (status_code r <? 300).

Record RegistryHttp : Type := mkHttp {
  http_get : string -> list (string * string) -> result Result;
  http_post : string -> json -> result Result;
}.

(** ** Python strings *)

(** [urllib.parse.quote]: UTF-8, then percent-encoding of all but the unreserved characters and [/]. *)
Definition unreserved (c : ascii) : bool :=
  let n := N_of_ascii c in
  ((48 <=? n) && (n <=? 57) || (65 <=? n) && (n <=? 90) || (97 <=? n) && (n <=? 122))%N ||
  existsb (Ascii.eqb c) ["_"; "."; "-"; "~"; "/"]%char.
Definition hex_upper (n : N) : ascii := if (n <? 10)%N then ascii_of_N (48 + n) else ascii_of_N (55 + n).
Definition percent (n : N) : string :=
  String "%" (String (hex_upper (n / 16)) (String (hex_upper (n mod 16)) EmptyString)).
Definition quote_char (c : ascii) : string :=
  let n := N_of_ascii c in
  if unreserved c then String c EmptyString
  else if (n <? 128)%N then percent n
  else (percent (192 + n / 64) +:+ percent (128 + n mod 64))%string.
Fixpoint quote (s : string) : string :=
  match s with EmptyString => EmptyString | String c s' => quote_char c +:+ quote s' end%string.

(** [sub in s] *)
Definition substring_in (sub s : string) : bool :=
  match String.index 0 sub s with Some _ => true | None => false end.

Section Serialization.
Context `{!SchemaLib} `{!DataLib}.

(** [repr(value)] and [str(value)] of decoded JSON *)
Fixpoint py_repr_json (j : json) : string :=
  match j with
  | JNull => "None"
  | JBool b => if b then "True" else "False"
  | JInt z => pretty z
  | JFloat q => float_repr q
  | JStr s => of_text (repr_str s)
  | JList l => "[" +:+ join_with ", " (map py_repr_json l) +:+ "]"
  | JObj d => "{" +:+ join_with ", " (map (fun kv => of_text (repr_str kv.1) +:+ ": " +:+ py_repr_json kv.2) d) +:+ "}"
  end%string.
Definition py_str_json (j : json) : string := match j with JStr s => s | _ => py_repr_json j end.

(** [key in value] and [value[key]] for a value that may not be a dict *)
Definition py_in (key : string) (j : json) : result bool :=
  match j with
  | JObj d => Ok (din key d)
  | JStr s => Ok (substring_in key s)
  | JList l => Ok (existsb (py_eq (JStr key)) l)
  | _ => Raise TypeError
  end.
Definition py_item (j : json) (key : string) : result json :=
  match j with JObj d => dindex key d | _ => Raise TypeError end.
(** [value.get(key, default)] *)
Definition py_get (j : json) (key : string) (dflt : json) : result json :=
  match j with JObj d => Ok (jget_default key dflt d) | _ => Raise AttributeError end.
(** [for x in value] *)
Definition py_iter (j : json) : result (list json) :=
  match j with
  | JList l => Ok l
  | JObj d => Ok (map JStr (dkeys d))
  | JStr s => Ok (map (fun c => JStr (String c EmptyString)) (to_text s))
  | _ => Raise TypeError
  end.
(** An id or a version of an answer, which the registry sends as an integer. *)
Definition as_int (j : json) : result Z :=
  match j with JInt z => Ok z | JBool b => Ok (if b then 1 else 0) | _ => Raise TypeError end.
Definition version_tag (j : json) : result VersionTag :=
  match j with
  | JStr s => Ok (TagStr s)
  | JInt z => Ok (TagInt z)
  | JBool b => Ok (TagInt (if b then 1 else 0))
  | _ => Raise TypeError
  end.

(** ** Naming strategies *)

Inductive NameStrategy : Type := topic_name | record_name_ | topic_record_name.
Inductive SubjectType : Type := SubjectKey | SubjectValue | SubjectPartition.
Definition subject_type_value (t : SubjectType) : string :=
  match t with SubjectKey => "key" | SubjectValue => "value" | SubjectPartition => "partition" end.

Definition topic_name_strategy (topic : string) (record_name : option string) (subject_type : SubjectType)
  : result Subject := Ok (topic +:+ "-" +:+ subject_type_value subject_type)%string.
Definition record_name_strategy (topic : string) (record_name : option string) (subject_type : SubjectType)
  : result Subject := match record_name with None => Raise InvalidRecord | Some n => Ok n end.
Definition topic_record_name_strategy (topic : string) (record_name : option string) (subject_type : SubjectType)
  : result Subject :=
  validated_record_name ← record_name_strategy topic record_name subject_type;
  Ok (topic +:+ "-" +:+ validated_record_name)%string.

Definition NAME_STRATEGIES (n : NameStrategy) : string -> option string -> SubjectType -> result Subject :=
  match n with
  | topic_name => topic_name_strategy
  | record_name_ => record_name_strategy
  | topic_record_name => topic_record_name_strategy
  end.

(** The record name of a schema; a JSON schema that is a boolean has no [get]. *)
Definition schema_record_name (schema : TypedSchema) : result (option string) :=
  match schema_type schema with
  | AVRO => Ok (avro_fullname (avro_schema schema).2 (avro_schema schema).1)
  | JSONSCHEMA =>
      j ← json_loads (schema_str schema);
      title ← py_get j "title" JNull;
      Ok (match title with JNull => None | t => Some (py_str_json t) end)
  | PROTOBUF => Ok (record_name (protobuf_schema schema))
  end.

Definition get_subject_name (topic : string) (schema : TypedSchema) (subject_type : SubjectType)
  (naming_strategy : NameStrategy) : result Subject :=
  record_name ← schema_record_name schema;
  NAME_STRATEGIES naming_strategy topic record_name subject_type.

(** ** Data of one schema *)

(** [ProtobufDatumWriter(config, schema)], [write_index] and [write]; whatever fails in the child
    process comes back as [ProtobufTypeException]. *)
Definition write_protobuf (schema : TypedSchema) (value : json) : M bytes () :=
  '(name, index) ← lift (ProtobufDatumWriter (file_types (schema_file (protobuf_schema schema))));
  _ ← write_index index;
  b ← lift (reraise (fun _ => true) ProtobufTypeException (message_write schema name value));
  bio_write b.

(** The value an Avro writer is given: as it is when it is valid, its unions flattened otherwise. *)
Definition avro_data (schema : TypedSchema) (value : json) : json :=
  if avro_validate schema value then value
  else flatten_unions (avro_schema schema).2 value (avro_schema schema).1.

Definition write_value (schema : TypedSchema) (value : json) : M bytes () :=
  match schema_type schema with
  | AVRO => b ← lift (avro_write schema (avro_data schema value)); bio_write b
  | JSONSCHEMA =>
      if json_validate schema value then bio_write (json_encode value) else raise InvalidPayload
  | PROTOBUF => write_protobuf schema value
  end.

(** [read_data] in the child process, whose exceptions the parent raises again. *)
Definition read_protobuf (schema : TypedSchema) : M bytes json :=
  indexes ← read_indexes;
  name ← lift (find_message_name (file_types (schema_file (protobuf_schema schema))) indexes);
  rest ← bio_read_all;
  lift (message_read schema name rest).

Definition read_value (schema : TypedSchema) : M bytes json :=
  match schema_type schema with
  | AVRO => b ← bio_read_all; lift (avro_read schema b)
  | JSONSCHEMA =>
      b ← bio_read_all;
      value ← lift (json_decode b);
      if json_validate schema value then mret value else raise InvalidPayload
  | PROTOBUF =>
      catch (read_protobuf schema)
        (fun e => raise (if bool_decide (e = DecodeError) then InvalidPayload else e))
  end.

(** ** The registry client *)

(** [Reference.from_dict] *)
Definition Reference_from_dict (data : json) : result Reference :=
  name ← py_item data "name";
  subject ← py_item data "subject";
  v ← py_item data "version";
  version ← Version_init v;
  Ok (mkReference (py_str_json name) (py_str_json subject) version).

Definition looked_up : Type := SchemaId * TypedSchema * Version.

(** [ValidatedTypedSchema.parse] and [ParsedTypedSchema.parse] of a value that should be a text: a
    [TypeError] of the JSON or protobuf library is an [InvalidSchema]. *)
Definition parse_with (p : SchemaType -> string -> option (list Reference) -> option Dependencies -> result TypedSchema)
  (t : SchemaType) (schema : json) (references : option (list Reference)) (dependencies : option Dependencies)
  : result TypedSchema :=
  match schema with JStr s => p t s references dependencies | _ => Raise InvalidSchema end.

(** The parsing at the end of [_get_schema_recursive]. *)
Definition parse_answer (answer : json) (references : option (list Reference)) (dependencies : option Dependencies)
  : result looked_up :=
  reraise (fun e => bool_decide (e = InvalidSchema)) SchemaRetrievalError
    (t ← (tj ← py_get answer "schemaType" (JStr "AVRO"); schema_type_of_json tj);
     id ← (j ← py_item answer "id"; as_int j);
     schema ← (j ← py_item answer "schema"; parse_with validated_parse t j references dependencies);
     version ← (j ← py_item answer "version"; tag ← version_tag j; Versioner_V tag);
     Ok (id, schema, version)).

Definition version_path (subject : Subject) (version : option Version) : string :=
  ("subjects/" +:+ quote subject +:+ "/versions/" +:+
   match version with Some v => pretty v | None => "latest" end)%string.

Section Client.
Context (http : RegistryHttp).

(** The answer for a version of a subject, with the members it must have. *)
Definition fetch_version (subject : Subject) (version : option Version) : result json :=
  r ← http_get http (version_path subject version) [];
  if negb (result_ok r) then Raise SchemaRetrievalError else
  let answer := json_result r in
  has_id ← py_in "id" answer;
  if negb has_id then Raise SchemaRetrievalError else
  has_schema ← py_in "schema" answer;
  if negb has_schema then Raise SchemaRetrievalError else
  has_version ← py_in "version" answer;
  if negb has_version then Raise SchemaRetrievalError else Ok answer.

(** The loop over the references of an answer, given the lookup of each. *)
Definition lookup_dependencies (lookup : Subject -> option Version -> result looked_up)
  (references : list Reference) : result Dependencies :=
  fold_res (fun dependencies reference =>
    '(_, schema, version) ← lookup (ref_subject reference) (Some (ref_version reference));
    Ok (dset (ref_name reference)
          (mkDependency (ref_name reference) (ref_subject reference) version schema) dependencies))
    references [].

(** The references of an answer; [None] when it has no such member. *)
Definition answer_references (answer : json) : result (option (list Reference)) :=
  has_references ← py_in "references" answer;
  if negb has_references then Ok None else
  refs ← (j ← py_item answer "references"; l ← py_iter j; map_res Reference_from_dict l);
  Ok (Some refs).

(** [_get_schema_recursive]; [fuel] is the depth at which the interpreter gives up. *)
Fixpoint get_schema_recursive (fuel : nat) (subject : Subject) (explored : list (Subject * option Version))
  (version : option Version) : result looked_up :=
  match fuel with
  | O => Raise RecursionError
  | S fuel =>
      if bool_decide ((subject, version) ∈ explored) then Raise InvalidSchema else
      let explored := (subject, version) :: explored in
      answer ← fetch_version subject version;
      references ← answer_references answer;
      match references with
      | Some refs =>
          dependencies ← lookup_dependencies (fun s v => get_schema_recursive fuel s explored v) refs;
          parse_answer answer (Some refs) (Some dependencies)
      | None => parse_answer answer None None
      end
  end.

End Client.

(** ** SchemaRegistrySerializer and the cache of [get_schema] *)

Record Serializer : Type := mkSerializer {
  registry_client : bool;
  ids_to_schemas : dict SchemaId TypedSchema;
  ids_to_subjects : dict SchemaId json;
  schemas_to_ids : dict string SchemaId;
  (** the [alru_cache] of [SchemaRegistryClient.get_schema], least recently used first *)
  schema_cache : list ((Subject * option Version) * looked_up);
}.

Definition new_serializer : Serializer := mkSerializer true [] [] [] [].

Definition remember (schema_ser : string) (schema_id : SchemaId) (schema : TypedSchema) (s : Serializer) : Serializer :=
  mkSerializer (registry_client s) (dset schema_id schema (ids_to_schemas s)) (ids_to_subjects s)
    (dset schema_ser schema_id (schemas_to_ids s)) (schema_cache s).
Definition remember_subjects (schema_id : SchemaId) (subjects : json) (s : Serializer) : Serializer :=
  mkSerializer (registry_client s) (ids_to_schemas s) (dset schema_id subjects (ids_to_subjects s))
    (schemas_to_ids s) (schema_cache s).
Definition set_cache (c : list ((Subject * option Version) * looked_up)) (s : Serializer) : Serializer :=
  mkSerializer (registry_client s) (ids_to_schemas s) (ids_to_subjects s) (schemas_to_ids s) c.

(** [close] *)
Definition close (s : Serializer) : Serializer :=
  mkSerializer false (ids_to_schemas s) (ids_to_subjects s) (schemas_to_ids s) (schema_cache s).
(** An entry of the [TTLCache] reaches its age, or is evicted. *)
Definition expire (schema_id : SchemaId) (s : Serializer) : Serializer :=
  mkSerializer (registry_client s) (ids_to_schemas s) (ddel schema_id (ids_to_subjects s)) (schemas_to_ids s) (schema_cache s).

Definition CACHE_SIZE : nat := 100.

Section Operations.
Context (http : RegistryHttp) (recursion_limit : nat).

(** [SchemaRegistryClient.get_schema]: a hit moves the entry to the end, a result is added there and
    the oldest entry leaves when the cache is full; an exception is not cached. *)
Definition get_schema (subject : Subject) (version : option Version) : M Serializer looked_up :=
  c ← gets schema_cache;
  match dget (subject, version) c with
  | Some found => _ ← modify (set_cache (ddel (subject, version) c ++ [((subject, version), found)])); mret found
  | None =>
      found ← lift (get_schema_recursive http recursion_limit subject [] version);
      let c' := c ++ [((subject, version), found)] in
      _ ← modify (set_cache (if Nat.ltb CACHE_SIZE (length c') then tail c' else c'));
      mret found
  end.

Definition lookup_reference (r : AnyReference) : M Serializer (string * Dependency) :=
  match r with
  | LatestVersionReference name subject =>
      '(_, schema, version) ← get_schema subject None;
      mret (name, mkDependency name subject version schema)
  | Resolved ref =>
      '(_, schema, version) ← get_schema (ref_subject ref) (Some (ref_version ref));
      mret (ref_name ref, mkDependency (ref_name ref) (ref_subject ref) version schema)
  end.

Fixpoint lookup_references (refs : list AnyReference) (dependencies : Dependencies) : M Serializer Dependencies :=
  match refs with
  | [] => mret dependencies
  | r :: refs => '(name, d) ← lookup_reference r; lookup_references refs (dset name d dependencies)
  end.

(** [reference_from_mapping] over the references of an answer. *)
Definition parse_reference (data : json) : result AnyReference :=
  reraise (fun e => bool_decide (e = TypeError) || bool_decide (e = KeyError)) InvalidReferences
    (match data with JObj d => reference_from_mapping d | _ => Raise TypeError end).

(** The references with which a schema is parsed; a reference to the latest version has none, and is
    kept with the alias as its version. *)
Definition as_reference (r : AnyReference) : Reference :=
  match r with
  | Resolved ref => ref
  | LatestVersionReference name subject => mkReference name subject MINUS_1_VERSION_TAG
  end.

(** [SchemaRegistryClient.get_schema_for_id] *)
Definition client_get_schema_for_id (schema_id : SchemaId) : M Serializer (TypedSchema * json) :=
  r ← lift (http_get http ("schemas/ids/" +:+ pretty schema_id)%string [("includeSubjects", "True")]%string);
  if negb (result_ok r) then _ ← lift (py_item (json_result r) "message"); raise SchemaRetrievalError else
  let answer := json_result r in
  has_schema ← lift (py_in "schema" answer);
  if negb has_schema then raise SchemaRetrievalError else
  subjects ← lift (py_get answer "subjects" JNull);
  catch
    (schema_type ← lift (tj ← py_get answer "schemaType" (JStr "AVRO"); schema_type_of_json tj);
     references ← lift (py_get answer "references" JNull);
     parsed_references ← (if truthy references
                          then lift (l ← py_iter references; map_res parse_reference l)
                          else mret []);
     dependencies ← (match parsed_references with
                     | [] => mret None
                     | refs => d ← lookup_references refs []; mret (Some d)
                     end);
     schema ← lift (j ← py_item answer "schema";
       parse_with parsed_parse schema_type j
         (if truthy references then Some (map as_reference parsed_references) else None) dependencies);
     mret (schema, subjects))
    (fun e => raise (if bool_decide (e = InvalidSchema) then SchemaRetrievalError else e)).

(** [SchemaRegistryClient.post_new_schema]; a [Reference] has no method [json]. *)
Definition post_new_schema (subject : string) (schema : TypedSchema) (references : option Reference)
  : result SchemaId :=
  payload ← match schema_type schema, references with
            | PROTOBUF, Some _ => Raise AttributeError
            | PROTOBUF, None =>
                Ok (JObj [("schema", JStr (schema_str schema)); ("schemaType", JStr (schema_type_value (schema_type schema)))])
            | t, _ =>
                text ← json_reencode (schema_str schema);
                Ok (JObj [("schema", JStr text); ("schemaType", JStr (schema_type_value t))])
            end;
  r ← http_post http ("subjects/" +:+ quote subject +:+ "/versions")%string payload;
  if negb (result_ok r) then Raise SchemaRetrievalError else
  (j ← py_item (json_result r) "id"; as_int j).

(** [assert self.registry_client] *)
Definition assert_open : M Serializer () :=
  b ← gets registry_client; if (b : bool) then mret () else raise AssertionError.

Definition get_schema_for_subject (subject : Subject) : M Serializer TypedSchema :=
  _ ← assert_open;
  '(schema_id, schema, _) ← get_schema subject None;
  _ ← modify (remember (schema_str schema) schema_id schema);
  mret schema.

Definition upsert_id_for_schema (schema : TypedSchema) (subject : string) : M Serializer SchemaId :=
  _ ← assert_open;
  known ← gets schemas_to_ids;
  match dget (schema_str schema) known with
  | Some schema_id => mret schema_id
  | None =>
      schema_id ← lift (post_new_schema subject schema None);
      _ ← modify (remember (schema_str schema) schema_id schema);
      mret schema_id
  end.

Definition get_schema_for_id (schema_id : SchemaId) (need_new_call : option (TypedSchema -> json -> result bool))
  : M Serializer (TypedSchema * json) :=
  _ ← assert_open;
  s ← gets (fun s => s);
  cached ← (match dget schema_id (ids_to_subjects s) with
            | Some subjects =>
                schema ← lift (dindex schema_id (ids_to_schemas s));
                match need_new_call with
                | Some need => b ← lift (need schema subjects);
                               mret (if (b : bool) then None else Some (schema, subjects))
                | None => mret (Some (schema, subjects))
                end
            | None => mret None
            end);
  match cached with
  | Some found => mret found
  | None =>
      '(schema, subjects) ← client_get_schema_for_id schema_id;
      _ ← modify (fun s => remember_subjects schema_id subjects (remember (schema_str schema) schema_id schema s));
      mret (schema, subjects)
  end.

Definition is_message_schema_error (e : exn) : bool :=
  match e with ProtobufTypeException | AvroTypeException => true | _ => false end.

Definition serialize (schema : TypedSchema) (value : json) : M Serializer bytes :=
  schema_id ← (ids ← gets schemas_to_ids; lift (dindex (schema_str schema) ids));
  header ← lift (pack_header START_BYTE schema_id);
  match write_value schema value header with
  | (bio, Ok _) => mret bio
  | (_, Raise e) => raise (if is_message_schema_error e then InvalidMessageSchema else e)
  end.

Definition is_payload_error (e : exn) : bool :=
  match e with
  | UnicodeDecodeError | TypeError | InvalidAvroBinaryEncoding | SchemaResolutionException => true
  | _ => false
  end.

Definition deserialize (b : bytes) : M Serializer json :=
  '(start_byte, schema_id) ← lift (unpack_header (take HEADER_SIZE b));
  if negb (start_byte =? START_BYTE) then raise InvalidMessageHeader else
  catch
    ('(schema, _) ← get_schema_for_id schema_id None;
     lift (read_value schema (drop HEADER_SIZE b)).2)
    (fun e => raise (if is_payload_error e then InvalidPayload else e)).
End Operations.
End Serialization.
