(* ===== verification/SerializationSpec.v ===== *)
(** * Properties of message serialisation

    [flatten_unions] undoes the tagging of unions of the Avro JSON encoding; the caches of the
    serialiser stay consistent; the lookup of a schema with its dependencies ends and finds no cycle;
    and a message that was serialised is deserialised to what was written. *)

From Stdlib Require Import Strings.Byte QArith.
From S2P Require Import Prelude Json Typing Models Schemas Protobuf ProtoReader ProtoElements ProtoTypes Framing Serialization.
Open Scope Z_scope.

(** ** Unions *)

(** [tagged names schema value encoded]: [encoded] is the Avro JSON encoding of [value], in which a value
    of a union is an object with the name of its branch as its only member, and null is null. Members of
    an object that are no field of the record are kept. *)
Inductive tagged (names : avro_names) : AvroSchema -> json -> json -> Prop :=
  | tagged_primitive n v : tagged names (PrimitiveSchema n) v v
  | tagged_other f n v : tagged names (OtherNamedSchema f n) v v
  | tagged_array items vs es :
      Forall2 (tagged names items) vs es -> tagged names (ArraySchema items) (JList vs) (JList es)
  | tagged_map values d e : dwf d ->
      Forall2 (fun kv ke => kv.1 = ke.1 /\ tagged names values kv.2 ke.2) d e ->
      tagged names (MapSchema values) (JObj d) (JObj e)
  | tagged_record f n fields d e : dwf d -> NoDup (map fst fields) ->
      Forall2 (fun kv ke => kv.1 = ke.1 /\
        (forall t, dget kv.1 fields = Some t -> tagged names t kv.2 ke.2) /\
        (dget kv.1 fields = None -> kv.2 = ke.2)) d e ->
      tagged names (RecordSchema f n fields) (JObj d) (JObj e)
  | tagged_named n f n' fields v e : dget n names = Some (RecordSchema f n' fields) ->
      tagged names (RecordSchema f n' fields) v e -> tagged names (NamedRecord n) v e
  | tagged_null schemas : tagged names (UnionSchema schemas) JNull JNull
  | tagged_branch schemas s n v e : s ∈ schemas -> get_name names s = Some n ->
      (forall s', s' ∈ schemas -> get_name names s' = Some n -> s' = s) ->
      tagged names s v e -> tagged names (UnionSchema schemas) v (JObj [(n, e)]).

(** The members of an object under the schemas they will be flattened with. *)
Definition flat_of (names : avro_names) (d : dict string json) : dict string (AvroSchema -> json) :=
  map (fun kv => (kv.1, flatten_unions names kv.2)) d.

Lemma flatten_obj names d schema : flatten_unions names (JObj d) schema =
  match resolve_name names schema with
  | RecordSchema _ _ fields => JObj (flatten_fields d (flat_of names d) fields)
  | UnionSchema schemas => flatten_member names (JObj d) (flat_of names d) schemas
  | MapSchema values => JObj (map (fun kf => (kf.1, kf.2 values)) (flat_of names d))
  | _ => JObj d
  end.
Proof.
  cbn [flatten_unions].
  assert (E : (fix go d := match d with
                 | [] => []
                 | (k, v) :: d => (k, fun s => flatten_unions names v s) :: go d
                 end) d = flat_of names d) by (induction d as [|[k v] d IH]; [done|]; by rewrite IH).
  by rewrite E.
Qed.

Lemma flatten_list names l schema : flatten_unions names (JList l) schema =
  match resolve_name names schema with
  | ArraySchema items => JList (map (fun v => flatten_unions names v items) l)
  | _ => JList l
  end.
Proof. done. Qed.

Lemma dget_flat_of names d k : dget k (flat_of names d) = flatten_unions names <$> dget k d.
Proof. induction d as [|[k' v] d IH]; simpl; [done|]. by case_decide. Qed.

(** The loop over the fields replaces the members that are fields, in place. *)
Lemma flatten_fields_dget names d0 fields d k : NoDup (map fst fields) ->
  (forall k, k ∈ map fst fields -> dget k d = dget k d0) ->
  dget k (flatten_fields d (flat_of names d0) fields) =
    match dget k fields with
    | Some t => (fun v => flatten_unions names v t) <$> dget k d0
    | None => dget k d
    end.
Proof.
  unfold flatten_fields. revert d. induction fields as [|[f t] fields IH]; intros d Hnd Hd; simpl in *; [done|].
  apply NoDup_cons in Hnd as [Hni Hnd]. rewrite dget_flat_of.
  assert (Hrest : forall d', (forall k, k <> f -> dget k d' = dget k d) ->
    (forall k, k ∈ map fst fields -> dget k d' = dget k d0)).
  { intros d' H k' Hk'. rewrite H by (intros ->; done). apply Hd. by constructor. }
  assert (Hf : dget f fields = None) by (apply dget_None; done).
  destruct (dget f d0) as [v|] eqn:Ef; simpl.
  - rewrite IH by (try done; apply Hrest; intros; by rewrite dget_dset_ne).
    case_decide; [subst|rewrite dget_dset_ne by done; done].
    rewrite Hf, dget_dset_eq, Ef. done.
  - rewrite IH by (try done; by apply Hrest). case_decide; [subst|done].
    rewrite Hf, Hd, Ef by constructor. done.
Qed.

Lemma flatten_fields_keys names d0 fields d :
  (forall k, k ∈ map fst fields -> dget k d = dget k d0 \/ is_Some (dget k d)) ->
  dkeys (flatten_fields d (flat_of names d0) fields) = dkeys d.
Proof.
  unfold flatten_fields. revert d. induction fields as [|[f t] fields IH]; intros d Hd; simpl in *; [done|].
  rewrite dget_flat_of. destruct (dget f d0) as [v|] eqn:Ef; simpl.
  - assert (Hs : exists w, dget f d = Some w).
    { destruct (Hd f) as [E|[w E]]; [by constructor| |eauto]. rewrite E, Ef. eauto. }
    destruct Hs as [w Hw]. rewrite IH.
    + by rewrite dkeys_dset, Hw.
    + intros k Hk. destruct (decide (f = k)) as [->|Hne]; [right; rewrite dget_dset_eq; eauto|].
      rewrite dget_dset_ne by done. apply Hd. by constructor.
  - apply IH. intros k Hk. apply Hd. by constructor.
Qed.

Lemma Forall2_dkeys {A B} (R : string -> A -> B -> Prop) (d : dict string A) (e : dict string B) :
  Forall2 (fun kv ke => kv.1 = ke.1 /\ R kv.1 kv.2 ke.2) d e ->
  dkeys d = dkeys e /\
  (forall k, match dget k d, dget k e with
             | Some v, Some w => R k v w
             | None, None => True
             | _, _ => False
             end).
Proof.
  induction 1 as [|[k v] [k' w] d e [Hk HR] H [IH1 IH2]]; simpl in *; [done|]. subst. split; [by f_equal|].
  intros k. case_decide; [by subst|]. apply IH2.
Qed.

Lemma flatten_tagged_at names e : forall s v, tagged names s v e -> flatten_unions names e s = v.
Proof.
  assert (Hrec : forall d, Forall (fun kv => forall s v, tagged names s v kv.2 -> flatten_unions names kv.2 s = v) d ->
    forall f n fields v, tagged names (RecordSchema f n fields) v (JObj d) ->
    JObj (flatten_fields d (flat_of names d) fields) = v).
  { intros d IH f n fields v H. inversion H as [| | | |f' n' fs d0 e0 Hwf Hnd HF| | |]; subst. f_equal. symmetry.
    apply Forall2_dkeys with (R := fun k v w => (forall t, dget k fields = Some t -> tagged names t v w) /\
      (dget k fields = None -> v = w)) in HF as [Hk HF].
    apply dict_ext; [done|rewrite flatten_fields_keys; [done|by left]|].
    intros k. rewrite flatten_fields_dget by done. specialize (HF k).
    destruct (dget k d0) as [v|], (dget k d) as [w|] eqn:Ew; try done; destruct (dget k fields) as [t|]; try done; simpl; destruct HF as [HF1 HF2].
    - f_equal. symmetry. apply dget_In in Ew. rewrite Forall_forall in IH. apply (IH (k, w)); auto.
    - f_equal. auto. }
  induction e as [| | | | |l IH|d IH] using json_ind'; intros sch v H;
    try (inversion H; subst; try done; match goal with H : tagged _ (RecordSchema _ _ _) _ _ |- _ => inversion H end).
  - rewrite flatten_list. inversion H as [| |items vs es HF| | |n f n' fs v' e' Hn Hr| |]; subst; try done; simpl.
    + f_equal. clear H. revert IH. induction HF; intros IH; [done|]. inversion IH; subst. simpl. f_equal; eauto.
    + inversion Hr.
  - rewrite flatten_obj. inversion H as [| | |values d0 e0 Hwf HF|f n fs d0 e0 Hwf Hnd HF|n f n' fs v' e' Hn Hr| |schemas s' n v' e' Hin Hn Hu Ht];
      subst; try done; simpl.
    + f_equal. clear H Hwf. unfold flat_of. rewrite map_map. revert IH.
      induction HF as [|[k x] [k' y] d0 e0 [Hk HR] HF IHF]; intros IH; [done|]. inversion IH; subst. simpl in *. subst.
      f_equal; eauto. f_equal. eauto.
    + by eapply Hrec.
    + rewrite Hn. simpl. by eapply Hrec.
    + unfold flatten_member. destruct (List.find _ schemas) as [s0|] eqn:Ef.
      * apply List.find_some in Ef as [Hin0 Hn0]. destruct (get_name names s0) as [n0|] eqn:E0; [|done].
        simpl in Hn0 |- *. unfold din in Hn0. simpl in Hn0. case_decide; [subst|done]. simpl.
        rewrite (Hu s0) by (try done; by apply list_elem_of_In). inversion IH; subst. eauto.
      * eapply List.find_none in Ef; [|by apply list_elem_of_In]. rewrite Hn in Ef.
        unfold din in Ef. simpl in Ef. by rewrite decide_True in Ef by done.
Qed.

(** ** Data *)

(** What is assumed of the encoding libraries: reading what was written with the same schema gives the
    datum of the written value (numbers in the schema's type, defaults filled in). *)
Class DataLaws `{!DataLib} : Type := {
  avro_image : TypedSchema -> json -> json;
  message_image : TypedSchema -> string -> json -> json;
  avro_read_write s v b : avro_write s v = Ok b -> avro_read s b = Ok (avro_image s v);
  message_read_write s n v b : message_write s n v = Ok b -> message_read s n b = Ok (message_image s n v);
  data_codec_laws :: JsonCodecLaws (list byte);
}.

Section Data.
Context `{!SchemaLib} `{!DataLib} `{!DataLaws}.

(** [intended schema value v]: [v] is the datum that [value] stands for. For Avro it is the value itself
    when it is valid, else the value whose Avro JSON encoding it is. *)
Definition intended (schema : TypedSchema) (value v : json) : Prop :=
  match schema_type schema with
  | AVRO => if avro_validate schema value then v = value
            else tagged (avro_schema schema).2 (avro_schema schema).1 v value
  | JSONSCHEMA | PROTOBUF => v = value
  end.

(** The message a protobuf value is written as: the first type of the file, where it is one. *)
Definition first_type (schema : TypedSchema) : option string :=
  match file_types (schema_file (protobuf_schema schema)) with
  | MessageElement _ name _ _ _ _ _ _ _ _ :: _ => if String.eqb name "" then None else Some name
  | _ => None
  end.

(** What the libraries make of a datum: its encoding, or their error. *)
Definition library_write (schema : TypedSchema) (name : string) (v : json) : result bytes :=
  match schema_type schema with
  | AVRO => avro_write schema v
  | JSONSCHEMA => if json_validate schema v then Ok (json_encode v) else Raise InvalidPayload
  | PROTOBUF => match message_write schema name v with Ok b => Ok b | Raise _ => Raise ProtobufTypeException end
  end.

(** What the libraries read from that encoding. *)
Definition library_image (schema : TypedSchema) (name : string) (v : json) : json :=
  match schema_type schema with
  | AVRO => avro_image schema v
  | JSONSCHEMA => v
  | PROTOBUF => message_image schema name v
  end.

(** The wire format: a zero byte, the id in four bytes, most significant first, for protobuf the index
    path of the first message, and the encoding. *)
Definition wire_format (schema : TypedSchema) (id : Z) (payload : bytes) : bytes :=
  x00 :: byte_of (id / 2 ^ 24) :: byte_of (id / 2 ^ 16) :: byte_of (id / 2 ^ 8) :: byte_of id ::
  (match schema_type schema with PROTOBUF => [x00] | _ => [] end) ++ payload.

Lemma avro_data_intended schema value v : schema_type schema = AVRO -> intended schema value v -> avro_data schema value = v.
Proof.
  unfold intended, avro_data. intros ->. destruct (avro_validate schema value); [done|]. apply flatten_tagged_at.
Qed.

(** [write_value] appends to what the buffer holds. *)
Lemma write_value_app schema value bio :
  write_value schema value bio = (bio ++ (write_value schema value []).1, (write_value schema value []).2).
Proof.
  unfold write_value. destruct (schema_type schema).
  - unfold mbind, M_bind, lift, bio_write, modify. destruct (avro_write _ _); simpl; [done|by rewrite app_nil_r].
  - destruct (json_validate schema value); simpl; [done|by rewrite app_nil_r].
  - unfold write_protobuf, write_index, write_indexes. cbn [for_each].
    unfold mbind, M_bind, lift, bio_write, modify.
    destruct (ProtobufDatumWriter _) as [[name index]|e]; simpl; [|by rewrite app_nil_r].
    rewrite !write_varint_outcome. destruct (index <? 0); simpl; [by rewrite app_nil_r|].
    destruct (index =? 0); simpl; [|by rewrite app_nil_r].
    destruct (message_write _ _ _); simpl; [by rewrite <- app_assoc|done].
Qed.

(** [write_value] writes what the library makes of the intended datum. *)
Lemma write_intended schema name value v : intended schema value v ->
  (schema_type schema = PROTOBUF -> first_type schema = Some name) ->
  match library_write schema name v with
  | Ok p => write_value schema value [] = ((match schema_type schema with PROTOBUF => [x00] | _ => [] end) ++ p, Ok ())
  | Raise e => (write_value schema value []).2 = Raise e
  end.
Proof.
  intros Hi Hn. pose proof (avro_data_intended schema value v) as Ha.
  unfold library_write, write_value, intended in *. destruct (schema_type schema).
  - rewrite Ha by done. by destruct (avro_write schema v).
  - subst v. by destruct (json_validate schema value).
  - subst v. specialize (Hn eq_refl). unfold first_type in Hn.
    unfold write_protobuf, write_index, write_indexes, ProtobufDatumWriter. cbn [for_each].
    unfold mbind, M_bind, lift, bio_write, modify.
    destruct (file_types _) as [|[l n dc ne op re fi oo ex gr|] rest]; try done. simpl first_message.
    destruct (String.eqb n "") eqn:En; [done|]. injection Hn as ->. cbv iota beta. rewrite En.
    rewrite write_varint_outcome. simpl. by destruct (message_write schema name value).
Qed.

(** ... which is read as the datum's image. *)
Lemma read_library schema name v p : json_wf v -> library_write schema name v = Ok p ->
  (schema_type schema = PROTOBUF -> first_type schema = Some name) ->
  (read_value schema ((match schema_type schema with PROTOBUF => [x00] | _ => [] end) ++ p)).2 =
    Ok (library_image schema name v).
Proof.
  intros Hwf Hw Hn. unfold library_write, library_image, read_value in *. destruct (schema_type schema).
  - simpl. by apply avro_read_write.
  - destruct (json_validate schema v) eqn:E; [|done]. injection Hw as <-.
    unfold mbind, M_bind, bio_read_all, lift. simpl. rewrite decode_encode by done. by rewrite E.
  - specialize (Hn eq_refl). unfold first_type in Hn. destruct (message_write schema name v) as [b|] eqn:Ew; [|done].
    injection Hw as <-. destruct (file_types _) as [|[l n dc ne op re fi oo ex gr|] rest] eqn:Et; try done.
    destruct (String.eqb n "") eqn:En; [done|]. injection Hn as ->.
    unfold catch, read_protobuf, mbind, M_bind, lift.
    pose proof (read_index_path [0] b ltac:(done) ltac:(repeat constructor; lia)) as Hr.
    unfold index_path in Hr. rewrite bool_decide_true in Hr by done. cbn [app] in Hr |- *. rewrite Hr.
    rewrite Et. simpl. by rewrite (message_read_write _ _ _ _ Ew).
Qed.

(** *** Messages *)

Lemma header_bytes id : 0 <= id < 2 ^ 32 ->
  pack_header START_BYTE id =
    Ok [x00; byte_of (id / 2 ^ 24); byte_of (id / 2 ^ 16); byte_of (id / 2 ^ 8); byte_of id].
Proof.
  intros Hr. unfold pack_header, START_BYTE. rewrite !(proj2 (Z.leb_le _ _)), (proj2 (Z.ltb_lt _ _)) by lia.
  simpl andb. cbv iota. by rewrite !Z.shiftr_div_pow2 by lia.
Qed.
End Data.

(** ** The caches of the serialiser *)

Record caches_ok (s : Serializer) : Prop := {
  subjects_known id j : dget id (ids_to_subjects s) = Some j -> exists sch, dget id (ids_to_schemas s) = Some sch;
  schemas_known id sch : dget id (ids_to_schemas s) = Some sch ->
    exists id', dget (schema_str sch) (schemas_to_ids s) = Some id';
  ids_known text id : dget text (schemas_to_ids s) = Some id -> exists sch, dget id (ids_to_schemas s) = Some sch;
  cache_bounded : (length (schema_cache s) <= CACHE_SIZE)%nat;
}.

Lemma new_serializer_ok : caches_ok new_serializer.
Proof. split; simpl; try done. unfold CACHE_SIZE. lia. Qed.

Lemma remember_ok id sch s : caches_ok s -> caches_ok (remember (schema_str sch) id sch s).
Proof.
  intros [H1 H2 H3 H4]. split; simpl; [| | |done].
  - intros i j Hi. destruct (decide (id = i)) as [->|]; [rewrite dget_dset_eq; eauto|].
    rewrite dget_dset_ne by done. eauto.
  - intros i sch' Hi.
    assert (Hdone : forall t, (exists x, dget t (schemas_to_ids s) = Some x) \/ t = schema_str sch ->
      exists x, dget t (dset (schema_str sch) id (schemas_to_ids s)) = Some x).
    { intros t Ht. destruct (decide (schema_str sch = t)) as [<-|]; [rewrite dget_dset_eq; eauto|].
      rewrite dget_dset_ne by done. by destruct Ht. }
    apply Hdone. destruct (decide (id = i)) as [->|].
    + rewrite dget_dset_eq in Hi. simplify_eq. by right.
    + rewrite dget_dset_ne in Hi by done. left. eauto.
  - intros t i Ht. destruct (decide (id = i)) as [->|]; [rewrite dget_dset_eq; eauto|].
    rewrite dget_dset_ne by done. destruct (decide (schema_str sch = t)) as [<-|].
    + rewrite dget_dset_eq in Ht. by simplify_eq.
    + rewrite dget_dset_ne in Ht by done. eauto.
Qed.

Lemma remember_subjects_ok id j s : (exists sch, dget id (ids_to_schemas s) = Some sch) -> caches_ok s ->
  caches_ok (remember_subjects id j s).
Proof.
  intros Hid [H1 H2 H3 H4]. split; simpl; try done. intros i j'. destruct (decide (id = i)) as [->|]; [done|].
  rewrite dget_dset_ne by done. eauto.
Qed.

Lemma set_cache_ok c s : (length c <= CACHE_SIZE)%nat -> caches_ok s -> caches_ok (set_cache c s).
Proof. intros Hc [H1 H2 H3 H4]. by split. Qed.

Lemma expire_ok id s : caches_ok s -> caches_ok (expire id s).
Proof.
  intros [H1 H2 H3 H4]. split; simpl; try done. intros i j. destruct (decide (id = i)) as [->|].
  - by rewrite dget_ddel_eq.
  - rewrite dget_ddel_ne by done. eauto.
Qed.

Lemma close_ok s : caches_ok s -> caches_ok (close s).
Proof. intros [H1 H2 H3 H4]. by split. Qed.

(** [caches_ok] is kept: the relation the judgement [steps] is used with. *)
Definition keeps_caches (s s' : Serializer) : Prop := caches_ok s -> caches_ok s'.
#[global] Instance keeps_caches_preorder : PreOrder keeps_caches.
Proof. split; [by intros s Hs|]. intros a b c H1 H2 H. auto. Qed.

Lemma ddel_length {V} k (d : list ((Subject * option Version) * V)) v :
  dget k d = Some v -> (length (ddel k d) < length d)%nat.
Proof.
  induction d as [|[k' v'] d IH]; simpl; [done|].
  assert (Hle : (length (ddel k d) <= length d)%nat) by (clear; induction d as [|[k' v'] d IH]; simpl; [done|]; case_decide; simpl; lia).
  case_decide; simpl; [lia|]. intros Hd%IH. lia.
Qed.

(** The registry client touches its own cache only, and keeps it within its size. *)
Definition cache_frame (s s' : Serializer) : Prop :=
  exists c, s' = set_cache c s /\ ((length (schema_cache s) <= CACHE_SIZE)%nat -> (length c <= CACHE_SIZE)%nat).
#[global] Instance cache_frame_preorder : PreOrder cache_frame.
Proof.
  split.
  - intros s. exists (schema_cache s). by destruct s.
  - intros a b c (c1 & -> & H1) (c2 & -> & H2). exists c2. split; [done|]. auto.
Qed.

Lemma frame_keeps s s' : cache_frame s s' -> keeps_caches s s'.
Proof. intros (c & -> & Hc) Hs. apply set_cache_ok; [|done]. apply Hc, Hs. Qed.

Section Caches.
Context `{!SchemaLib} `{!DataLib}.

Lemma get_schema_frame http n subject version : steps cache_frame (get_schema http n subject version).
Proof.
  unfold get_schema. intros s. unfold mbind, M_bind, gets. destruct (dget _ _) as [found|] eqn:E; simpl.
  - eexists. split; [done|]. intros Hc. apply ddel_length in E. rewrite length_app. simpl. lia.
  - destruct (get_schema_recursive _ _ _ _ _); simpl; [|reflexivity]. eexists. split; [done|]. intros Hc.
    destruct (Nat.ltb_spec CACHE_SIZE (length (schema_cache s ++ [((subject, version), a)]))); [|done].
    rewrite length_app in *. destruct (schema_cache s); simpl in *; [lia|]. rewrite length_app. simpl. lia.
Qed.

Lemma lookup_references_frame http n refs deps : steps cache_frame (lookup_references http n refs deps).
Proof.
  revert deps. induction refs as [|r refs IH]; intros deps; simpl; [apply steps_ret; typeclasses eauto|].
  apply steps_bind; [typeclasses eauto| |intros [name d]; apply IH].
  unfold lookup_reference. destruct r; (apply steps_bind; [typeclasses eauto|apply get_schema_frame|]);
    intros [[? ?] ?]; apply steps_ret; typeclasses eauto.
Qed.

Lemma client_get_frame http n id : steps cache_frame (client_get_schema_for_id http n id).
Proof.
  pose proof (lookup_references_frame http n) as Hl.
  unfold client_get_schema_for_id.
  apply steps_bind; [typeclasses eauto|apply steps_lift; typeclasses eauto|]. intros r.
  destruct (negb (result_ok r)); [monad_steps|].
  apply steps_bind; [typeclasses eauto|apply steps_lift; typeclasses eauto|]. intros b.
  destruct (negb b); [monad_steps|].
  apply steps_bind; [typeclasses eauto|apply steps_lift; typeclasses eauto|]. intros subjects.
  apply steps_catch; [typeclasses eauto| |intros e; apply steps_raise; typeclasses eauto].
  monad_steps.
Qed.

Lemma get_schema_keeps http n subject version : steps keeps_caches (get_schema http n subject version).
Proof. intros s. apply frame_keeps, get_schema_frame. Qed.
Lemma client_get_keeps http n id : steps keeps_caches (client_get_schema_for_id http n id).
Proof. intros s. apply frame_keeps, client_get_frame. Qed.

Lemma assert_open_keeps : steps keeps_caches assert_open.
Proof. intros s Hs. unfold assert_open, mbind, M_bind, gets. by destruct (registry_client s). Qed.

Lemma get_schema_for_id_keeps http n id need : steps keeps_caches (get_schema_for_id http n id need).
Proof.
  unfold get_schema_for_id. apply steps_bind; [typeclasses eauto|apply assert_open_keeps|]. intros _.
  apply steps_bind; [typeclasses eauto|apply steps_gets; typeclasses eauto|]. intros s0.
  apply steps_bind; [typeclasses eauto|monad_steps|]. intros [found|]; [apply steps_ret; typeclasses eauto|].
  apply steps_bind; [typeclasses eauto|apply client_get_keeps|]. intros [sch subjects].
  apply steps_bind; [typeclasses eauto| |intros; apply steps_ret; typeclasses eauto].
  apply steps_modify. intros s Hs. apply remember_subjects_ok; [|by apply remember_ok].
  simpl. rewrite dget_dset_eq. eauto.
Qed.

Lemma get_schema_for_subject_keeps http n subject : steps keeps_caches (get_schema_for_subject http n subject).
Proof.
  unfold get_schema_for_subject. apply steps_bind; [typeclasses eauto|apply assert_open_keeps|]. intros _.
  apply steps_bind; [typeclasses eauto|apply get_schema_keeps|]. intros [[id sch] v].
  apply steps_bind; [typeclasses eauto| |intros; apply steps_ret; typeclasses eauto].
  apply steps_modify. intros s Hs. by apply remember_ok.
Qed.

Lemma upsert_keeps http sch subject : steps keeps_caches (upsert_id_for_schema http sch subject).
Proof.
  unfold upsert_id_for_schema. apply steps_bind; [typeclasses eauto|apply assert_open_keeps|]. intros _.
  apply steps_bind; [typeclasses eauto|apply steps_gets; typeclasses eauto|]. intros known.
  destruct (dget _ known); [apply steps_ret; typeclasses eauto|].
  apply steps_bind; [typeclasses eauto|apply steps_lift; typeclasses eauto|]. intros id.
  apply steps_bind; [typeclasses eauto| |intros; apply steps_ret; typeclasses eauto].
  apply steps_modify. intros s Hs. by apply remember_ok.
Qed.

(** Serialising changes nothing; deserialising changes what looking the schema up changes. *)
Lemma serialize_pure sch v s : (serialize sch v s).1 = s.
Proof.
  unfold serialize, mbind, M_bind, gets, lift. destruct (dindex _ _); simpl; [|done].
  destruct (pack_header _ _); [|done]. by destruct (write_value _ _ _) as [? [|]].
Qed.

Lemma deserialize_keeps http n b : steps keeps_caches (deserialize http n b).
Proof.
  unfold deserialize. apply steps_bind; [typeclasses eauto|apply steps_lift; typeclasses eauto|].
  intros [start id]. destruct (negb _); [apply steps_raise; typeclasses eauto|].
  apply steps_catch; [typeclasses eauto| |intros; apply steps_raise; typeclasses eauto].
  apply steps_bind; [typeclasses eauto|apply get_schema_for_id_keeps|]. intros [sch subjects].
  apply steps_lift; typeclasses eauto.
Qed.

(** One operation on a serialiser, with whatever the registry answers at that moment. *)
Inductive serializer_step : Serializer -> Serializer -> Prop :=
  | step_get_id http n id need s : serializer_step s (get_schema_for_id http n id need s).1
  | step_get_subject http n subject s : serializer_step s (get_schema_for_subject http n subject s).1
  | step_upsert http sch subject s : serializer_step s (upsert_id_for_schema http sch subject s).1
  | step_serialize sch v s : serializer_step s (serialize sch v s).1
  | step_deserialize http n b s : serializer_step s (deserialize http n b s).1
  | step_expire id s : serializer_step s (expire id s)
  | step_close s : serializer_step s (close s).

Lemma reachable_ok s : rtc serializer_step new_serializer s -> caches_ok s.
Proof.
  pose proof new_serializer_ok as Hok. revert Hok. generalize new_serializer. intros s0 Hok.
  induction 1 as [|x y z Hs Hr IH]; [done|]. apply IH. destruct Hs.
  - by apply get_schema_for_id_keeps.
  - by apply get_schema_for_subject_keeps.
  - by apply upsert_keeps.
  - by rewrite serialize_pure.
  - by apply deserialize_keeps.
  - by apply expire_ok.
  - by apply close_ok.
Qed.

(** The cached answer, or the client's, which is then cached. *)
Lemma get_schema_for_id_cases http n id need s s' r :
  get_schema_for_id http n id need s = (s', Ok r) -> registry_client s = true /\
  ((s' = s /\ dget id (ids_to_schemas s) = Some r.1 /\ dget id (ids_to_subjects s) = Some r.2) \/
   exists s1, cache_frame s s1 /\ s' = remember_subjects id r.2 (remember (schema_str r.1) id r.1 s1)).
Proof.
  unfold get_schema_for_id. intros (u & s1 & Ha & Hg)%M_bind_Ok.
  assert (s1 = s /\ registry_client s = true) as [-> Hopen].
  { unfold assert_open, mbind, M_bind, gets in Ha. destruct (registry_client s); [|done]. injection Ha as Hs _. done. }
  split; [done|]. clear Ha. apply M_bind_Ok in Hg as (s0 & s1 & [= <- <-] & Hg).
  apply M_bind_Ok in Hg as (cached & s1 & Hc & Hg).
  assert (Hcached : s1 = s /\ (forall found, cached = Some found ->
    dget id (ids_to_schemas s) = Some found.1 /\ dget id (ids_to_subjects s) = Some found.2)).
  { unfold mret, M_ret in Hc. destruct (dget id (ids_to_subjects s)) as [subj|]; [|by injection Hc as <- <-].
    apply M_bind_Ok in Hc as (sch & s2 & Hd & Hc). unfold lift, dindex in Hd.
    destruct (dget id (ids_to_schemas s)) as [sch'|]; simplify_eq/=.
    destruct need as [need|].
    - apply M_bind_Ok in Hc as (b & s3 & Hb & Hc). unfold lift in Hb.
      destruct b; simplify_eq/=; (split; [done|]); intros found Hf; by simplify_eq/=.
    - simplify_eq/=. split; [done|]. intros found Hf. by simplify_eq/=. }
  destruct Hcached as [-> Hcached]. destruct cached as [found|]; [left|right].
  - unfold mret, M_ret in Hg. injection Hg as <- <-. by destruct (Hcached found).
  - apply M_bind_Ok in Hg as ([sch subj] & s1 & Hcl & Hg). exists s1. split.
    + pose proof (client_get_frame http n id s) as Hf. by rewrite Hcl in Hf.
    + by injection Hg as <- <-.
Qed.

Lemma get_schema_for_id_known http n id need s s' r : caches_ok s ->
  get_schema_for_id http n id need s = (s', Ok r) ->
  dget id (ids_to_schemas s') = Some r.1 /\ (exists id', dget (schema_str r.1) (schemas_to_ids s') = Some id').
Proof.
  intros Hok Hg. destruct (get_schema_for_id_cases _ _ _ _ _ _ _ Hg) as [Ho [(-> & H1 & H2)|(s1 & Hf & ->)]].
  - split; [done|]. by apply (schemas_known s Hok id).
  - simpl. rewrite !dget_dset_eq. eauto.
Qed.
End Caches.

(** ** The lookup of a schema with its dependencies *)

Section Lookup.
Context `{!SchemaLib} `{!SchemaLibErrors} `{!DataLib} (http : RegistryHttp).

(** The subject versions that the answer for a subject version refers to. *)
Definition references_of (sv : Subject * option Version) : list (Subject * option Version) :=
  match answer ← fetch_version http sv.1 sv.2; answer_references answer with
  | Ok (Some refs) => map (fun r => (ref_subject r, Some (ref_version r))) refs
  | _ => []
  end.
Definition refers (a b : Subject * option Version) : Prop := b ∈ references_of a.

(** No path of references from here comes back to where it was. *)
Inductive acyclic (sv : Subject * option Version) : Prop :=
  acyclic_intro : (forall r, refers sv r -> acyclic r) -> acyclic sv.

Lemma acyclic_tc a b : acyclic a -> tc refers a b -> acyclic b.
Proof. intros Ha. induction 1 as [a b Hab|a b c Hab _ IH]; destruct Ha as [Ha]; auto. Qed.

Lemma acyclic_irrefl a : acyclic a -> ~ tc refers a a.
Proof.
  induction 1 as [a _ IH]. intros Hc. inversion Hc as [x y Hxy|x y z Hxy Hyz]; subst.
  - by apply (IH a).
  - apply (IH y Hxy). eapply tc_r; done.
Qed.

(** The exceptions the registry's answers can lead to, apart from those of the recursion itself. *)
Definition lookup_error (e : exn) : Prop := e ≠ RecursionError /\ e ≠ InvalidSchema.
Hypothesis http_errors : forall path params, raises_res lookup_error (http_get http path params).

Lemma py_in_errors k j : raises_res lookup_error (py_in k j).
Proof. destruct j; intros e [= <-]; by split. Qed.
Lemma py_item_errors j k : raises_res lookup_error (py_item j k).
Proof. unfold py_item, dindex. destruct j as [| | | | | |d]; try destruct (dget k d); intros e [= <-]; by split. Qed.

Lemma fetch_version_errors subject version : raises_res lookup_error (fetch_version http subject version).
Proof.
  pose proof py_in_errors. unfold fetch_version. pose proof http_errors. monad_steps; try by apply raises_res_raise.
Qed.

Lemma answer_references_errors answer : raises_res lookup_error (answer_references answer).
Proof.
  pose proof py_in_errors. pose proof py_item_errors.
  assert (Hit : forall j, raises_res lookup_error (py_iter j)) by (intros []; intros e [= <-]; by split).
  assert (Hv : forall j, raises_res lookup_error (Version_init j)).
  { intros j e. unfold Version_init. repeat case_match; intros; simplify_eq; by split. }
  assert (Href : forall d, raises_res lookup_error (Reference_from_dict d)).
  { intros d. unfold Reference_from_dict. monad_steps. }
  unfold answer_references. monad_steps.
Qed.

Lemma parse_answer_errors answer refs deps : raises_res lookup_error (parse_answer answer refs deps).
Proof.
  intros e. unfold parse_answer. destruct (mbind _ _) as [x|e'] eqn:E; simpl; [done|].
  case_bool_decide as Hi; intros [= <-]; [by split|].
  assert (Hr : raises_res (fun e => e ≠ RecursionError)
    (t ← (tj ← py_get answer "schemaType" (JStr "AVRO"); schema_type_of_json tj);
     id ← (j ← py_item answer "id"; as_int j);
     schema ← (j ← py_item answer "schema"; parse_with validated_parse t j refs deps);
     version ← (j ← py_item answer "version"; tag ← version_tag j; Versioner_V tag);
     Ok (id, schema, version))).
  { assert (Hpi : forall k, raises_res (fun e => e ≠ RecursionError) (py_item answer k))
      by (intros k e He; by destruct (py_item_errors answer k e He)).
    apply raises_res_bind; [apply raises_res_bind|intros t].
    { unfold py_get. destruct answer; intros e [= <-]; done. }
    { intros tj e. unfold schema_type_of_json. repeat case_match; intros; simplify_eq; done. }
    apply raises_res_bind; [apply raises_res_bind; [apply Hpi|]|intros id].
    { intros j e. unfold as_int. repeat case_match; intros; by simplify_eq. }
    apply raises_res_bind; [apply raises_res_bind; [apply Hpi|]|intros schema].
    { intros j. unfold parse_with. destruct j as [| | | |text| |]; try (intros e [= <-]; done).
      intros e He. pose proof (parse_cases t text true true refs deps false false) as Hp.
      unfold validated_parse in He. rewrite He in Hp. destruct Hp as [->|[[_ ->]|[_ Hp]]]; [done..|].
      by apply text_failure_bounded. }
    apply raises_res_bind; [apply raises_res_bind; [apply Hpi|]|done].
    intros j. apply raises_res_bind.
    { intros e. unfold version_tag. repeat case_match; intros; by simplify_eq. }
    intros tag e. unfold Versioner_V, validate_tag, resolve_tag, Version_init.
    repeat (case_match; simplify_eq/=; try done); intros; by simplify_eq. }
  split; [by apply (Hr e')|done].
Qed.

Lemma lookup_dependencies_inv lookup refs deps :
  lookup_dependencies lookup refs = Ok deps ->
  Forall (fun r => is_ok (lookup (ref_subject r) (Some (ref_version r))) = true) refs.
Proof.
  unfold lookup_dependencies. generalize (@nil (string * Dependency)). induction refs as [|r refs IH]; intros acc; simpl; [intros _; constructor|].
  destruct (lookup _ _) as [[[? ?] ?]|] eqn:El; simpl; [|done]. intros Hl%IH. constructor; [by rewrite El|done].
Qed.

Lemma lookup_dependencies_errors (P : exn -> Prop) lookup refs :
  Forall (fun r => raises_res P (lookup (ref_subject r) (Some (ref_version r)))) refs ->
  raises_res P (lookup_dependencies lookup refs).
Proof.
  unfold lookup_dependencies. generalize (@nil (string * Dependency)). intros acc Hr. revert acc.
  induction Hr as [|r refs Hx _ IH]; intros acc; simpl; [done|].
  apply raises_res_bind; [|intros; apply IH]. apply raises_res_bind; [done|]. intros [[? ?] ?]. done.
Qed.

(** One unfolding of the recursion. *)
Lemma get_schema_recursive_S fuel subject explored version :
  get_schema_recursive http (S fuel) subject explored version =
  if bool_decide ((subject, version) ∈ explored) then Raise InvalidSchema else
  answer ← fetch_version http subject version;
  references ← answer_references answer;
  match references with
  | Some refs =>
      dependencies ← lookup_dependencies (fun s v => get_schema_recursive http fuel s ((subject, version) :: explored) v) refs;
      parse_answer answer (Some refs) (Some dependencies)
  | None => parse_answer answer None None
  end.
Proof. done. Qed.

Lemma references_answer subject version answer refs : fetch_version http subject version = Ok answer ->
  answer_references answer = Ok (Some refs) ->
  Forall (fun r => refers (subject, version) (ref_subject r, Some (ref_version r))) refs.
Proof.
  intros Hf Ha. apply Forall_forall. intros r Hr. unfold refers, references_of. simpl. rewrite Hf. simpl. rewrite Ha.
  apply list_elem_of_fmap. by exists r.
Qed.

(** What can be raised, given what the recursive lookups can raise. *)
Lemma get_schema_recursive_raises (P : exn -> Prop) fuel subject explored version :
  (forall e, lookup_error e -> P e) ->
  ((subject, version) ∈ explored -> P InvalidSchema) ->
  (forall r, (subject, version) ∉ explored -> refers (subject, version) r ->
     raises_res P (get_schema_recursive http fuel r.1 ((subject, version) :: explored) r.2)) ->
  raises_res P (get_schema_recursive http (S fuel) subject explored version).
Proof.
  intros HP Hc Hrec. rewrite get_schema_recursive_S. case_bool_decide as Hin; [apply raises_res_raise; auto|].
  destruct (fetch_version http subject version) as [answer|e] eqn:Ef; simpl.
  2:{ apply raises_res_raise, HP. by apply (fetch_version_errors subject version). }
  destruct (answer_references answer) as [[refs|]|e] eqn:Ea; simpl.
  - apply raises_res_bind.
    + apply lookup_dependencies_errors. pose proof (references_answer _ _ _ _ Ef Ea) as Hr.
      eapply Forall_impl; [exact Hr|]. intros r Hrr. by apply (Hrec (ref_subject r, Some (ref_version r))).
    + intros deps. eapply raises_res_weaken; [exact HP|apply parse_answer_errors].
  - eapply raises_res_weaken; [exact HP|apply parse_answer_errors].
  - apply raises_res_raise, HP. by apply (answer_references_errors answer).
Qed.

Lemma lookup_within U fuel sv explored :
  (forall p r, p ∈ U -> refers p r -> r ∈ U) -> sv ∈ U -> NoDup explored -> explored ⊆ U ->
  (length U < fuel + length explored)%nat ->
  raises_res (fun e => e ≠ RecursionError) (get_schema_recursive http fuel sv.1 explored sv.2).
Proof.
  intros Hclosed. revert sv explored. induction fuel as [|fuel IH]; intros sv explored HU Hnd Hsub Hlen.
  - exfalso.
    pose proof (submseteq_length _ _ (NoDup_submseteq explored U Hnd ltac:(intros x; apply Hsub))). lia.
  - apply get_schema_recursive_raises; [by intros e []|done|]. intros r Hni Hr.
    apply IH; [by eapply Hclosed|..].
    + constructor; [by destruct sv|done].
    + intros x [->|Hx]%elem_of_cons; [by destruct sv|by apply Hsub].
    + simpl. lia.
Qed.

Lemma lookup_acyclic fuel sv explored : is_ok (get_schema_recursive http fuel sv.1 explored sv.2) = true -> acyclic sv.
Proof.
  revert sv explored. induction fuel as [|fuel IH]; intros [s v] explored; [done|].
  cbn [fst snd]. rewrite get_schema_recursive_S. case_bool_decide; [done|]. intros Hok. constructor. intros r Hr.
  unfold refers, references_of in Hr. cbn [fst snd] in Hr.
  destruct (fetch_version http s v) as [answer|e]; simpl in *; [|done].
  destruct (answer_references answer) as [[refs|]|e]; simpl in *; [|by apply not_elem_of_nil in Hr..].
  apply list_elem_of_fmap in Hr as (ref & -> & Hin).
  destruct (lookup_dependencies _ refs) as [deps|] eqn:El; [|done].
  apply lookup_dependencies_inv in El. rewrite Forall_forall in El. by eapply (IH (_, _)), El.
Qed.

Lemma acyclic_no_cycle_found fuel sv explored : acyclic sv -> (forall p, p ∈ explored -> tc refers p sv) ->
  raises_res (fun e => e ≠ InvalidSchema) (get_schema_recursive http fuel sv.1 explored sv.2).
Proof.
  revert sv explored. induction fuel as [|fuel IH]; intros sv explored Hac Hex; [by intros e [= <-]|].
  apply get_schema_recursive_raises; [by intros e []| |].
  - intros Hin. destruct (acyclic_irrefl sv Hac). apply Hex. by destruct sv.
  - intros r _ Hr. assert (Hr' : refers sv r) by (by destruct sv). apply IH.
    + by destruct Hac as [Hac]; apply Hac.
    + intros p [->|Hp]%elem_of_cons; [destruct sv; by apply tc_once|]. eapply tc_r; [by apply Hex|done].
Qed.
End Lookup.

(** ** A concrete library, for the examples *)

Fixpoint json_tree (j : json) : gen_tree (bool + Z + (Z * positive) + string) :=
  match j with
  | JNull => GenNode 0 []
  | JBool b => GenLeaf (inl (inl (inl b)))
  | JInt z => GenLeaf (inl (inl (inr z)))
  | JFloat q => GenLeaf (inl (inr (Qnum q, Qden q)))
  | JStr s => GenLeaf (inr s)
  | JList l => GenNode 1 (map json_tree l)
  | JObj d => GenNode 2 (map (fun kv => GenNode 3 [GenLeaf (inr kv.1); json_tree kv.2]) d)
  end.
Fixpoint tree_json (t : gen_tree (bool + Z + (Z * positive) + string)) : json :=
  match t with
  | GenLeaf (inl (inl (inl b))) => JBool b
  | GenLeaf (inl (inl (inr z))) => JInt z
  | GenLeaf (inl (inr (n, d))) => JFloat (Qmake n d)
  | GenLeaf (inr s) => JStr s
  | GenNode 1 l => JList (map tree_json l)
  | GenNode 2 l => JObj (map (fun t => match t with
                                        | GenNode 3 [GenLeaf (inr k); t] => (k, tree_json t)
                                        | _ => (EmptyString, JNull)
                                        end) l)
  | _ => JNull
  end.

Lemma tree_json_tree j : tree_json (json_tree j) = j.
Proof.
  induction j as [| | | | |l IH|d IH] using json_ind'; simpl; try done.
  - by destruct q.
  - f_equal. induction IH; simpl; congruence.
  - f_equal. induction IH as [|[k v] d Hv Hd IH]; simpl in *; congruence.
Qed.

#[global] Instance json_countable : Countable json := inj_countable' json_tree tree_json tree_json_tree.

Fixpoint bits (p : positive) : bytes :=
  match p with xH => [x02] | xO p => x00 :: bits p | xI p => x01 :: bits p end.
Fixpoint of_bits (b : bytes) : option positive :=
  match b with
  | [x02] => Some xH
  | x00 :: b => xO <$> of_bits b
  | x01 :: b => xI <$> of_bits b
  | _ => None
  end.
Lemma of_bits_bits p : of_bits (bits p) = Some p.
Proof. induction p; simpl; [by rewrite IHp..|done]. Qed.

#[global] Instance bits_codec : JsonCodec (list byte) := {|
  json_encode j := bits (encode j);
  json_decode b := match of_bits b ≫= decode with Some j => Ok j | None => Raise JSONDecodeError end;
  bytes_decode _ := Ok "decoded"%string;
  empty_bytes := [];
|}.
#[global] Instance bits_codec_laws : JsonCodecLaws (list byte).
Proof.
  split.
  - intros j _. simpl. rewrite of_bits_bits. simpl. by rewrite countable.decode_encode.
  - intros j. simpl. by destruct (encode j).
Qed.

(** Every value is valid but the string [tagged]; a file has one message. *)
Definition one_message : ProtobufSchema :=
  mkSchema (mkFile None None [] [] [MessageElement DEFAULT_LOCATION "M" "" [] [] [] [] [] [] []] [] [] []) [].
Definition union_record : AvroSchema :=
  RecordSchema "R" "R" [("attr", UnionSchema [PrimitiveSchema "null"; PrimitiveSchema "string"])]%string.
#[global] Instance sample_data : DataLib := {|
  float_repr _ := "0.0"%string;
  json_reencode := Ok;
  json_loads s := Ok (JStr s);
  avro_schema _ := (union_record, []);
  avro_validate _ v := match v with JObj [("attr"%string, JStr _)] => true | _ => false end;
  avro_write _ v := Ok (bits (encode v));
  avro_read _ b := json_decode b;
  json_validate _ _ := true;
  protobuf_schema _ := one_message;
  message_write _ _ v := Ok (bits (encode v));
  message_read _ _ b := json_decode b;
|}.
Lemma sample_read_write (v : json) b : Ok (bits (encode v)) = Ok b -> json_decode b = Ok v.
Proof. intros [= <-]. simpl. rewrite of_bits_bits. simpl. by rewrite countable.decode_encode. Qed.
#[global] Instance sample_data_laws : DataLaws := {|
  avro_image _ v := v;
  message_image _ _ v := v;
  avro_read_write _ v b := sample_read_write v b;
  message_read_write _ _ v b := sample_read_write v b;
  data_codec_laws := bits_codec_laws;
|}.

(** A registry with two schemas of the same text, of different types, and a subject [a] whose schema
    refers to the subject [b]. *)
Definition sample_http : RegistryHttp := mkHttp
  (fun path _ =>
     let found members := Ok (mkResult 200 (JObj (("id", JInt 1) :: ("schema", JStr "x") :: ("version", JInt 1) :: members))) in
     if String.eqb path "schemas/ids/1" then found []
     else if String.eqb path "schemas/ids/2" then found [("schemaType", JStr "JSON")]
     else if String.eqb path "subjects/b/versions/1" then found []
     else if String.eqb path "subjects/a/versions/latest"
     then found [("references", JList [JObj [("name", JStr "n"); ("subject", JStr "b"); ("version", JInt 1)]])]
     else Ok (mkResult 404 (JObj [("message", JStr "not found")])))%string
  (fun _ _ => Ok (mkResult 500 JNull)).

(** The ids of a text are not told apart by type: a schema whose text was looked up under another id
    since is written with that id. *)
Lemma same_text_other_id :
  let s1 := (@get_schema_for_id trivial_lib sample_data sample_http 10 1 None new_serializer).1 in
  let s2 := (@get_schema_for_id trivial_lib sample_data sample_http 10 2 None s1).1 in
  @get_schema_for_id trivial_lib sample_data sample_http 10 1 None s2 = (s2, Ok (mkTyped AVRO "x" None None, JNull)) /\
  dget "x"%string (schemas_to_ids s2) = Some 2.
Proof. split; vm_compute; reflexivity. Qed.

(** ** Properties *)

(** [flatten_unions] undoes the tagging of unions: applied to the Avro JSON encoding of a value it
    gives the value, for every schema, recursive records included, in which the names of the fields of a
    record and of the branches of a union are distinct. *)
Theorem flatten_unions_untags names schema value encoded :
  tagged names schema value encoded -> flatten_unions names encoded schema = value.
Proof. apply flatten_tagged_at. Qed.

Lemma flatten_unions_untags_witness :
  flatten_unions [("N", RecordSchema "N" "N" [("next", UnionSchema [PrimitiveSchema "null"; NamedRecord "N"])])]%string
    (JObj [("next", JObj [("N", JObj [("next", JNull)])])]%string) (NamedRecord "N") =
  JObj [("next", JObj [("next", JNull)])]%string.
Proof.
  apply flatten_unions_untags.
  assert (Hr : forall v e, tagged [("N", RecordSchema "N" "N" [("next", UnionSchema [PrimitiveSchema "null"; NamedRecord "N"])])]%string
      (UnionSchema [PrimitiveSchema "null"; NamedRecord "N"]) v e ->
    tagged [("N", RecordSchema "N" "N" [("next", UnionSchema [PrimitiveSchema "null"; NamedRecord "N"])])]%string
      (NamedRecord "N") (JObj [("next"%string, v)]) (JObj [("next"%string, e)])).
  { intros v e H. eapply tagged_named; [reflexivity|]. apply tagged_record.
    - apply NoDup_singleton.
    - apply NoDup_singleton.
    - constructor; [|constructor]. split; [done|]. split; [|done]. intros t [= <-]. exact H. }
  apply Hr. eapply tagged_branch with (s := NamedRecord "N"); [by constructor; constructor|reflexivity| |].
  - intros s' [->|[->|[]%not_elem_of_nil]%elem_of_cons]%elem_of_cons; done.
  - apply Hr. constructor.
Defined.

(** Whatever operations were run on a serialiser, whatever the registry answered and whichever
    cached subjects have expired, its caches agree: a schema whose subjects are cached is answered from
    the caches, with no request and no change; a schema that was just looked up by id has an id under
    which it can be written; every id a text is known under has a schema; and the client's cache keeps
    within its size. *)
Theorem serializer_caches_consistent `{!SchemaLib} `{!DataLib} s :
  rtc serializer_step new_serializer s ->
  (forall id subjects, registry_client s = true -> dget id (ids_to_subjects s) = Some subjects ->
     exists sch, dget id (ids_to_schemas s) = Some sch /\
       forall http n, get_schema_for_id http n id None s = (s, Ok (sch, subjects))) /\
  (forall http n id need s' sch subjects, get_schema_for_id http n id need s = (s', Ok (sch, subjects)) ->
     dget id (ids_to_schemas s') = Some sch /\ exists id', dget (schema_str sch) (schemas_to_ids s') = Some id') /\
  (forall text id, dget text (schemas_to_ids s) = Some id -> exists sch, dget id (ids_to_schemas s) = Some sch) /\
  (length (schema_cache s) <= CACHE_SIZE)%nat.
Proof.
  intros Hr%reachable_ok. split_and!; [| |apply Hr|apply Hr].
  - intros id subjects Ho Hs. destruct (subjects_known s Hr id subjects Hs) as [sch Hsch]. exists sch. split; [done|].
    intros http n. unfold get_schema_for_id, assert_open, mbind, M_bind, gets.
    rewrite Ho. simpl. rewrite Hs. unfold lift, dindex. by rewrite Hsch.
  - intros http n id need s' sch subjects Hg. by apply (get_schema_for_id_known http n id need s s' (sch, subjects) Hr).
Qed.

Lemma serializer_caches_consistent_witness :
  let s := (@get_schema_for_id trivial_lib sample_data sample_http 10 1 None new_serializer).1 in
  exists sch, dget 1 (ids_to_schemas s) = Some sch /\
    forall http n, @get_schema_for_id trivial_lib sample_data http n 1 None s = (s, Ok (sch, JNull)).
Proof.
  intros s. assert (Hr : rtc (@serializer_step trivial_lib sample_data) new_serializer s) by (apply rtc_once; constructor).
  destruct (@serializer_caches_consistent trivial_lib sample_data s Hr) as [H _].
  apply H; vm_compute; reflexivity.
Defined.

(** C21. A message that is written with a registered schema is read back: after the schema was looked up
    by its id, [serialize] gives the wire format of what the library writes for the intended datum (an
    Avro value that is not valid stands for the value it encodes with tagged unions), and a reader, this
    serialiser or any other that resolves the id to the same schema, gets from [deserialize] what the
    library reads from that encoding, for JSON schemas the value itself; when the library refuses the
    datum, [serialize] fails with its error, the type errors of Avro and protobuf as
    [InvalidMessageSchema]. For protobuf the first type of the file must be a message. *)
Theorem message_roundtrip `{!SchemaLib} `{!DataLib} `{!DataLaws} http n id s s1 schema subjects name value v http' n' r r1 subjects' :
  get_schema_for_id http n id None s = (s1, Ok (schema, subjects)) ->
  dget (schema_str schema) (schemas_to_ids s1) = Some id -> 0 <= id < 2 ^ 32 ->
  (schema_type schema = PROTOBUF -> first_type schema = Some name) ->
  intended schema value v -> json_wf v ->
  get_schema_for_id http' n' id None r = (r1, Ok (schema, subjects')) ->
  match library_write schema name v with
  | Ok p => serialize schema value s1 = (s1, Ok (wire_format schema id p)) /\
      deserialize http' n' (wire_format schema id p) r = (r1, Ok (library_image schema name v))
  | Raise e => serialize schema value s1 =
      (s1, Raise (if bool_decide (e = ProtobufTypeException \/ e = AvroTypeException) then InvalidMessageSchema else e))
  end.
Proof.
  intros _ Hid Hrange Hname Hi Hwf Hread. pose proof (header_bytes id Hrange) as Hh.
  pose proof (write_intended schema name value v Hi Hname) as Hw.
  pose proof (unpack_pack id _ Hh) as [_ Hu].
  destruct (library_write schema name v) as [p|e] eqn:El.
  - split.
    + unfold serialize, mbind, M_bind, gets, lift, dindex. rewrite Hid. simpl. rewrite Hh.
      by rewrite write_value_app, Hw.
    + assert (Ht : unpack_header (take HEADER_SIZE (wire_format schema id p)) = Ok (START_BYTE, id)) by exact Hu.
      assert (Hd : drop HEADER_SIZE (wire_format schema id p) =
        (match schema_type schema with PROTOBUF => [x00] | _ => [] end) ++ p) by reflexivity.
      unfold deserialize, mbind at 1, M_bind at 1, lift at 1. rewrite Ht, Hd. simpl.
      unfold catch, mbind, M_bind. rewrite Hread. unfold lift. by rewrite (read_library schema name v p).
  - unfold serialize, mbind, M_bind, gets, lift, dindex. rewrite Hid. simpl. rewrite Hh.
    rewrite write_value_app. destruct (write_value schema value []) as [bio r0]. simpl in Hw |- *. subst r0.
    f_equal. f_equal. by destruct e.
Qed.

Lemma message_roundtrip_witness :
  let s1 := (@get_schema_for_id trivial_lib sample_data sample_http 10 1 None new_serializer).1 in
  let schema := mkTyped AVRO "x" None None in
  let value := JObj [("attr", JObj [("string", JStr "a")])]%string in
  let v := JObj [("attr", JStr "a")]%string in
  match library_write schema "" v with
  | Ok p => serialize schema value s1 = (s1, Ok (wire_format schema 1 p)) /\
      @deserialize trivial_lib sample_data sample_http 10 (wire_format schema 1 p) new_serializer = (s1, Ok (library_image schema "" v))
  | Raise e => serialize schema value s1 =
      (s1, Raise (if bool_decide (e = ProtobufTypeException \/ e = AvroTypeException) then InvalidMessageSchema else e))
  end.
Proof.
  intros s1 schema value v.
  apply (@message_roundtrip trivial_lib sample_data sample_data_laws sample_http 10 1 new_serializer s1 schema JNull "" value v
    sample_http 10 new_serializer s1 JNull).
  - vm_compute; reflexivity.
  - vm_compute; reflexivity.
  - lia.
  - done.
  - apply tagged_record; [apply NoDup_singleton|apply NoDup_singleton|].
    constructor; [|constructor]. split; [done|]. split; [|done]. intros t [= <-].
    apply (tagged_branch _ _ (PrimitiveSchema "string") "string"); [set_solver|reflexivity| |constructor].
    intros s'. rewrite !elem_of_cons, elem_of_nil. by intros [->|[->|[]]].
  - simpl. split; [apply NoDup_singleton|]. done.
  - vm_compute; reflexivity.
Defined.

(** Looking a schema up with the schemas it refers to ends: when the references lead only to finitely
    many subject versions, a recursion depth of one more than their number is enough, and then the lookup
    fails with [InvalidSchema] only if the references are cyclic, and succeeds only if they are not. *)
Theorem schema_lookup_terminates `{!SchemaLib} `{!SchemaLibErrors} `{!DataLib} http U fuel subject version :
  (forall path params, raises_res lookup_error (http_get http path params)) ->
  (forall p r, p ∈ U -> refers http p r -> r ∈ U) -> (subject, version) ∈ U -> (length U < fuel)%nat ->
  match get_schema_recursive http fuel subject [] version with
  | Ok _ => acyclic http (subject, version)
  | Raise e => e ≠ RecursionError /\ (e = InvalidSchema -> ~ acyclic http (subject, version))
  end.
Proof.
  intros Hh Hc Hin Hf. pose proof (lookup_within http Hh U fuel (subject, version) [] Hc Hin) as Hw.
  pose proof (lookup_acyclic http fuel (subject, version) []) as Ha.
  pose proof (acyclic_no_cycle_found http Hh fuel (subject, version) []) as Hn. cbn [fst snd] in *.
  destruct (get_schema_recursive http fuel subject [] version) as [x|e]; [by apply Ha|]. split.
  - apply Hw; [constructor|by intros x ?%not_elem_of_nil|simpl; lia|done].
  - intros -> Hac. apply (Hn Hac) with InvalidSchema; [by intros p ?%not_elem_of_nil|done..].
Qed.

Lemma schema_lookup_terminates_witness :
  match @get_schema_recursive trivial_lib sample_data sample_http 3 "a" [] None with
  | Ok _ => @acyclic sample_data sample_http ("a"%string, None)
  | Raise e => e ≠ RecursionError /\ (e = InvalidSchema -> ~ @acyclic sample_data sample_http ("a"%string, None))
  end.
Proof.
  apply (@schema_lookup_terminates trivial_lib trivial_lib_errors sample_data sample_http
    [("a"%string, None); ("b"%string, Some 1)] 3 "a" None).
  - intros path params e. unfold sample_http. simpl. repeat case_match; done.
  - intros p r [->|[->|[]%not_elem_of_nil]%elem_of_cons]%elem_of_cons; unfold refers; vm_compute references_of; set_solver.
  - set_solver.
  - simpl. lia.
Defined.
