(* ===== verification/KafkaClient.v ===== *)
(** * The Kafka consumer and its errors

    [core/kafka/common.py] and [core/kafka/consumer.py]: the translation of the errors of the confluent
    client, the check of the connection at start, and [KafkaConsumer], which keeps the set of subscribed
    topics beside the client, with its asynchronous wrapper. The confluent client itself is a parameter:
    a type of states with the operations the code calls. *)

From Stdlib Require Import Strings.Byte QArith.
From S2P Require Import Prelude Json Framing.
Open Scope Z_scope.

(** ** Errors *)

(** The codes of [confluent_kafka.KafkaError] the code names, and the others. *)
Inductive KafkaErrorCode : Type :=
  | NOENT_ | UNKNOWN_PARTITION_ | UNKNOWN_TOPIC_ | TIMED_OUT_ | STATE_ | RESOLVE_ | AUTHENTICATION_
  | OtherCode (code : Z).

#[global] Instance KafkaErrorCode_eq_dec : EqDecision KafkaErrorCode.
Proof. solve_decision. Defined.

(** What a call of the client can raise: a [KafkaException], whose argument is a [KafkaError] or not, with
    the text of its traceback, or another exception. *)
Inductive client_error : Type :=
  | KafkaExceptionOf (error_arg : option KafkaErrorCode) (trace : string)
  | ClientError (e : exn).
Definition error_trace (e : client_error) : string :=
  match e with KafkaExceptionOf _ trace => trace | ClientError _ => "" end.

(** [aiokafka.errors.for_code], and the Python exception of each code it is given. *)
Class ForCode : Type := for_code : KafkaErrorCode -> exn.

Section Errors.
Context `{!ForCode}.

Definition translate_from_kafkaerror (code : KafkaErrorCode) : exn :=
  match code with
  | NOENT_ | UNKNOWN_PARTITION_ | UNKNOWN_TOPIC_ => UnknownTopicOrPartitionError
  | TIMED_OUT_ => KafkaTimeoutError
  | STATE_ => IllegalStateError
  | RESOLVE_ => KafkaUnavailableError
  | AUTHENTICATION_ | OtherCode _ => for_code code
  end.

Definition raise_from_kafkaexception (error_arg : option KafkaErrorCode) : exn :=
  match error_arg with Some code => translate_from_kafkaerror code | None => RuntimeError end.

(** [try: super().f(...) except KafkaException as exc: raise_from_kafkaexception(exc)] *)
Definition translated (e : client_error) : exn :=
  match e with KafkaExceptionOf arg _ => raise_from_kafkaexception arg | ClientError e => e end.
(** The same call without the translation. *)
Definition untranslated (e : client_error) : exn :=
  match e with KafkaExceptionOf _ _ => KafkaException | ClientError e => e end.

(** [_verify_connection]: for each attempt, whether [list_topics] answered, and otherwise the error codes
    the callback has collected by then. *)
Fixpoint verify_connection_loop (attempts : list (option (list KafkaErrorCode))) : result () :=
  match attempts with
  | [] => Raise NoBrokersAvailable
  | None :: _ => Ok ()
  | Some errors :: attempts =>
      if existsb (fun c => bool_decide (c = AUTHENTICATION_)) errors then Raise AuthenticationFailedError
      else verify_connection_loop attempts
  end.
Definition verify_connection (attempts : nat -> option (list KafkaErrorCode)) : result () :=
  verify_connection_loop (map attempts (seq 0 3)).
End Errors.

(** ** The client *)

Record TopicPartition : Type := mkTP { tp_topic : string; tp_partition : Z; tp_offset : Z }.

#[global] Instance TopicPartition_eq_dec : EqDecision TopicPartition.
Proof. solve_decision. Defined.

(** [core/kafka/types.py] *)
Definition DEFAULT_REQUEST_TIMEOUT_MS : Z := 30000.
Inductive Timestamp : Type := NOT_AVAILABLE | CREATE_TIME | LOG_APPEND_TIME.

(** [Message.timestamp()] is a type and a value. *)
Record Message : Type := mkMessage {
  msg_error : option KafkaErrorCode;
  msg_key : option bytes;
  msg_value : option bytes;
  msg_topic : json;
  msg_partition : json;
  msg_offset : json;
  msg_timestamp : Timestamp * Z;
}.

(** The callbacks [on_assign] and [on_revoke], called while messages are consumed. *)
Inductive rebalance : Type := OnAssign (partitions : list TopicPartition) | OnRevoke (partitions : list TopicPartition).

(** [TopicPartition(topic, partition, offset)] of decoded values. *)
Class NewTopicPartition : Type := new_topic_partition : json -> json -> json -> result TopicPartition.

Class ConfluentConsumer (C : Type) : Type := {
  client_consume : Z -> Q -> C -> C * list rebalance * (list Message + client_error);
  client_commit : option Message -> option (list TopicPartition) -> C -> C * (() + client_error);
  client_committed : list TopicPartition -> C -> C * (list (option TopicPartition) + client_error);
  client_subscribe : list json -> C -> C * (() + client_error);
  client_unsubscribe : C -> C * (() + client_error);
  client_assign : list TopicPartition -> C -> C * (() + client_error);
  client_assignment : C -> C * (list TopicPartition + client_error);
  client_seek : TopicPartition -> C -> C * (() + client_error);
  client_watermark_offsets : TopicPartition -> C -> C * (option (Z * Z) + client_error);
  client_close : C -> C * (() + client_error);
}.

(** ** KafkaConsumer *)

Record KafkaConsumer (C : Type) : Type := mkConsumer {
  kc_client : C;
  (** [_subscription], a frozenset of topic names *)
  kc_subscription : list json;
}.
Arguments mkConsumer {C} _ _.
Arguments kc_client {C} _.
Arguments kc_subscription {C} _.

(** Sets of topics as lists without repetition. *)
Definition set_of (l : list json) : list json := remove_dups l.
Definition topics_of (partitions : list TopicPartition) : list json := map (fun p => JStr (tp_topic p)) partitions.
Definition set_union (a b : list json) : list json := a ++ List.filter (fun x => negb (bool_decide (x ∈ a))) (set_of b).
Definition set_difference (a b : list json) : list json := List.filter (fun x => negb (bool_decide (x ∈ b))) a.

Section Consumer.
Context `{!ForCode} {C : Type} `{!ConfluentConsumer C}.
Abbreviation K := (M (KafkaConsumer C)).

(** A call of the client; the subscription is not touched. *)
Definition call {A} (err : client_error -> exn) (f : C -> C * (A + client_error)) : K A := fun k =>
  match f (kc_client k) with
  | (c, inl a) => (mkConsumer c (kc_subscription k), Ok a)
  | (c, inr e) => (mkConsumer c (kc_subscription k), Raise (err e))
  end.
Definition set_subscription_of (topics : list json) : K () := modify (fun k => mkConsumer (kc_client k) topics).

(** [_on_assign] and [_on_revoke] *)
Definition on_rebalance (e : rebalance) (subscription : list json) : list json :=
  match e with
  | OnAssign partitions => set_union subscription (topics_of partitions)
  | OnRevoke partitions => set_difference subscription (topics_of partitions)
  end.

(** [consume] is the client's own method: its callbacks run, its errors are not translated. *)
Definition consume (num_messages : Z) (timeout : Q) : K (list Message) := fun k =>
  let '(c, events, r) := client_consume num_messages timeout (kc_client k) in
  (mkConsumer c (fold_left (fun s e => on_rebalance e s) events (kc_subscription k)),
   match r with inl messages => Ok messages | inr e => Raise (untranslated e) end).

(** [commit], whose error a caller sees with its traceback; a message and offsets exclude each other. *)
Definition commit_traced (message : option Message) (offsets : option (list TopicPartition)) : K (() + exn * string) :=
  match message, offsets with
  | Some _, Some _ => raise ValueError
  | _, _ => fun k =>
      match client_commit message offsets (kc_client k) with
      | (c, inl _) => (mkConsumer c (kc_subscription k), Ok (inl ()))
      | (c, inr e) => (mkConsumer c (kc_subscription k), Ok (inr (translated e, error_trace e)))
      end
  end.
Definition commit (message : option Message) (offsets : option (list TopicPartition)) : K () :=
  r ← commit_traced message offsets;
  match r with inl _ => mret () | inr (e, _) => raise e end.

Definition committed (partitions : list TopicPartition) : K (list (option TopicPartition)) :=
  call translated (client_committed partitions).

(** Patterns are marked by a leading [^]; the fixed topics fill the subscription at once. *)
Definition subscribe (topics : list json) (patterns : list string) : K () :=
  _ ← call translated (client_subscribe (topics ++ map (fun p => JStr (String "^" p)) patterns));
  set_subscription_of (set_of topics).

Definition unsubscribe : K () :=
  _ ← call translated client_unsubscribe; set_subscription_of [].

Definition assign (partitions : list TopicPartition) : K () :=
  s ← gets kc_subscription;
  match s with
  | [] => call translated (client_assign partitions)
  | _ => raise IllegalStateError
  end.

Definition kc_assignment : K (list TopicPartition) := call translated client_assignment.
Definition seek (partition : TopicPartition) : K () := call translated (client_seek partition).

(** [None] of the client on a timeout is a [KafkaTimeoutError]. *)
Definition get_watermark_offsets (partition : TopicPartition) : K (Z * Z) :=
  r ← call translated (client_watermark_offsets partition);
  match r with Some offsets => mret offsets | None => raise KafkaTimeoutError end.

Definition kc_close : K () := call untranslated client_close.

(** ** AsyncKafkaConsumer: the consumer exists once it was started *)

Definition AsyncKafkaConsumer : Type := option (KafkaConsumer C).

Definition run_in_executor {A} (m : K A) : M AsyncKafkaConsumer A := fun c =>
  match c with
  | None => (None, Raise AssertionError)
  | Some k => let '(k', r) := m k in (Some k', r)
  end.
End Consumer.
