(* ===== verification/KafkaAdmin.v ===== *)
(** * The Kafka admin client and the producer

    [core/kafka/admin.py] and [core/kafka/producer.py] over the confluent clients: topics, the metadata of
    the cluster, the configuration of a topic and its offsets; sending a record and its delivery, and the
    life of [AsyncKafkaProducer]. What the confluent clients answer is an argument: a call that returns
    futures gives, for each, a value or a [client_error]. *)

From S2P Require Import Prelude Json KafkaClient.
Open Scope Z_scope.

(** ** Futures *)

Section Admin.
Context `{!ForCode}.

(** [single_futmap_result]: a dict with another number of futures does not unpack. *)
Definition single_futmap_result {A} (futmap : list (A + client_error)) : A + client_error :=
  match futmap with [future] => future | _ => inr (ClientError ValueError) end.

(** [try: ... except KafkaException as exc: raise_from_kafkaexception(exc)] *)
Definition friendly {A} (r : A + client_error) : result A :=
  match r with inl a => Ok a | inr e => Raise (translated e) end.

(** ** Topics *)

Record NewTopic : Type := mkNewTopic {
  nt_topic : string;
  nt_partitions : Z;
  nt_replication : Z;
  nt_config : dict string string;
}.

(** What is asked of the brokers, and what is answered. *)
Definition new_topic (create_topics : list NewTopic -> list (() + client_error)) (name : string)
  (num_partitions replication_factor : Z) (config : option (dict string string)) : result NewTopic :=
  let topic := mkNewTopic name num_partitions replication_factor (default [] config) in
  _ ← friendly (single_futmap_result (create_topics [topic]));
  Ok topic.

Definition update_topic_config (alter_configs : string -> dict string string -> list (() + client_error))
  (name : string) (config : dict string string) : result () :=
  _ ← friendly (single_futmap_result (alter_configs name config)); Ok ().

Definition delete_topic (delete_topics : list string -> list (() + client_error)) (name : string) : result () :=
  _ ← friendly (single_futmap_result (delete_topics [name])); Ok ().

(** ** Metadata of the cluster *)

(** [confluent_kafka.admin.PartitionMetadata], [ClusterMetadata] *)
Record PartitionMetadata : Type := mkPartition {
  pm_leader : Z;
  pm_replicas : list Z;
  pm_isrs : list Z;
}.
Record ClusterListing : Type := mkListing {
  listed_topics : dict string (dict Z PartitionMetadata);
  listed_brokers : list Z;
}.

(** [{"topics": ..., "brokers": ...}]; the data of a topic is a dict that the proxy adds to. *)
Record ClusterMetadata : Type := mkMetadata {
  md_topics : dict string (list (string * json));
  md_brokers : list Z;
}.

Definition in_Z (x : Z) (l : list Z) : bool := existsb (Z.eqb x) l.

Definition replica_data (p : PartitionMetadata) (replica_id : Z) : json :=
  let is_leader := replica_id =? pm_leader p in
  JObj [("broker", JInt replica_id); ("leader", JBool is_leader);
        ("in_sync", JBool (in_Z replica_id (pm_isrs p)))]%string.
Definition partition_data (partition_id : Z) (p : PartitionMetadata) : json :=
  JObj [("partition", JInt partition_id); ("leader", JInt (pm_leader p));
        ("replicas", JList (map (replica_data p) (pm_replicas p)))]%string.
Definition topic_data (partitions : dict Z PartitionMetadata) : list (string * json) :=
  [("partitions"%string, JList (map (fun kv => partition_data kv.1 kv.2) partitions))].

Definition is_asked (topics : option (list string)) (topic : string) : bool :=
  match topics with None => true | Some l => existsb (String.eqb topic) l end.

(** The filter is applied after all the metadata has been fetched; a topic that is asked for and not
    there is an error, a failure to list the topics is not translated. *)
Definition admin_cluster_metadata (list_topics : ClusterListing + client_error) (topics : option (list string))
  : result ClusterMetadata :=
  match list_topics with
  | inr e => Raise (untranslated e)
  | inl listing =>
      if existsb (fun t => negb (din t (listed_topics listing))) (default [] topics)
      then Raise UnknownTopicOrPartitionError
      else Ok (mkMetadata
             (map (fun kv => (kv.1, topic_data kv.2))
                (List.filter (fun kv => is_asked topics kv.1) (listed_topics listing)))
             (listed_brokers listing))
  end.

(** ** Configuration of a topic *)

Inductive ConfigSource : Type :=
  | UNKNOWN_CONFIG | DYNAMIC_TOPIC_CONFIG | DYNAMIC_BROKER_CONFIG | DYNAMIC_DEFAULT_BROKER_CONFIG
  | STATIC_BROKER_CONFIG | DEFAULT_CONFIG.

#[global] Instance ConfigSource_eq_dec : EqDecision ConfigSource.
Proof. solve_decision. Defined.

Definition is_static (s : ConfigSource) : bool :=
  bool_decide (s = DEFAULT_CONFIG) || bool_decide (s = STATIC_BROKER_CONFIG).

(** One entry of the loop: a name met before gives way to a more dynamic source. *)
Definition add_config (entries : dict string (ConfigSource * string)) (name : string) (entry : ConfigSource * string)
  : dict string (ConfigSource * string) :=
  match dget name entries with
  | None => dset name entry entries
  | Some (existing_source, _) =>
      if bool_decide (entry.1 = DYNAMIC_TOPIC_CONFIG) then dset name entry entries
      else if bool_decide (entry.1 = DYNAMIC_BROKER_CONFIG) && negb (bool_decide (existing_source = DYNAMIC_TOPIC_CONFIG))
      then dset name entry entries
      else if is_static existing_source && negb (is_static entry.1) then dset name entry entries
      else entries
  end.

(** Without a filter everything matches it. *)
Definition config_matches (config_name_filter : option (list string)) (config_source_filter : option (list ConfigSource))
  (name : string) (source : ConfigSource) : bool :=
  match config_name_filter with None => true | Some l => existsb (String.eqb name) l end ||
  match config_source_filter with None => true | Some l => existsb (fun s => bool_decide (s = source)) l end.

Definition get_topic_config (describe_configs : list (dict string (ConfigSource * string) + client_error))
  (config_name_filter : option (list string)) (config_source_filter : option (list ConfigSource))
  : result (dict string string) :=
  topic_configs ← friendly (single_futmap_result describe_configs);
  let config_entries := fold_left (fun entries kv =>
    if config_matches config_name_filter config_source_filter kv.1 kv.2.1 then add_config entries kv.1 kv.2 else entries)
    topic_configs [] in
  Ok (dmap snd config_entries).

(** ** Offsets *)

(** The latest offset is asked for first. *)
Definition admin_get_offsets (latest earliest : list (Z + client_error)) : result (Z * Z) :=
  endoffset ← friendly (single_futmap_result latest);
  startoffset ← friendly (single_futmap_result earliest);
  Ok (startoffset, endoffset).

(** ** The producer *)

(** A delivered message: its offset, where there is one, and its partition. *)
Record Delivered : Type := mkDelivered { delivered_offset : option Z; delivered_partition : Z }.

Record SendParams : Type := mkSend {
  send_key : option (list Byte.byte);
  send_value : option (list Byte.byte);
  send_partition : option Z;
}.

(** [_on_delivery_callback]: what the future of the record holds. *)
Definition on_delivery (outcome : KafkaErrorCode + option Delivered) : result (option Delivered) :=
  match outcome with inl code => Raise (translate_from_kafkaerror code) | inr msg => Ok msg end.

(** [KafkaProducer.send]: the record goes to the buffer of the client, or an exception is raised at once;
    parameters that are [None] are left out. *)
Definition producer_send (produce : string -> SendParams -> () + client_error) (topic : string) (params : SendParams)
  : result () := friendly (produce topic params).

Definition partitions_for (list_topic : string -> dict string (dict Z PartitionMetadata) + client_error) (topic : string)
  : result (dict Z PartitionMetadata) :=
  topics ← friendly (list_topic topic); dindex topic topics.
End Admin.

(** [AsyncKafkaProducer]: the client once started, and whether it was stopped; a stopped producer is not
    started again. *)
Record AsyncKafkaProducer (P : Type) : Type := mkProducer {
  producer : option P;
  stopped : bool;
}.
Arguments mkProducer {P} _ _.
Arguments producer {P} _.
Arguments stopped {P} _.

Section AsyncProducer.
Context {P : Type}.

Definition new_producer : AsyncKafkaProducer P := mkProducer None false.

(** [_start]; creating the client may fail, and the thread that polls starts once. *)
Definition start_producer (create : result P) : M (AsyncKafkaProducer P) () := fun a =>
  if stopped a then (a, Raise AssertionError)
  else match create with
       | Ok p => (mkProducer (Some p) false, match producer a with None => Ok () | Some _ => Raise RuntimeError end)
       | Raise e => (a, Raise e)
       end.

(** [poll_loop], for what each poll makes of the client: whether the thread has ended *)
Fixpoint poll_loop (polls : list (P -> P)) : M (AsyncKafkaProducer P) bool :=
  match polls with
  | [] => gets stopped
  | poll :: polls =>
      a ← gets (fun a => a);
      if stopped a then mret true
      else match producer a with
           | None => raise AssertionError
           | Some p => _ ← modify (fun a => mkProducer (Some (poll p)) (stopped a)); poll_loop polls
           end
  end.

(** [_stop] *)
Definition stop_producer : M (AsyncKafkaProducer P) () := fun a => (mkProducer None true, Ok ()).

(** [send] *)
Definition async_send {A} (send : P -> result A) : M (AsyncKafkaProducer P) A := fun a =>
  match producer a with
  | None => (a, Raise AssertionError)
  | Some p => (a, send p)
  end.
End AsyncProducer.

(** ** Lemmas *)

(** The entries of a dict have distinct names, so none is ever met twice. *)
Lemma dset_absent {V} k (v : V) (d : dict string V) : dget k d = None -> dset k v d = d ++ [(k, v)].
Proof.
  induction d as [|[k' v'] d IH]; simpl; [done|]. case_decide; [done|]. intros Hd. by rewrite IH.
Qed.

Lemma fold_configs_distinct p (configs entries : dict string (ConfigSource * string)) :
  dwf (entries ++ configs) ->
  fold_left (fun es kv => if (p kv.1 kv.2.1 : bool) then add_config es kv.1 kv.2 else es) configs entries =
  entries ++ List.filter (fun kv => p kv.1 kv.2.1) configs.
Proof.
  revert entries. induction configs as [|[k v] configs IH]; intros entries Hwf; simpl; [by rewrite app_nil_r|].
  assert (Hk : dget k entries = None).
  { apply dget_None. unfold dwf, dkeys in Hwf. rewrite map_app in Hwf. apply NoDup_app in Hwf as (_ & Hd & _).
    intros Hin. apply (Hd k Hin). by left. }
  destruct (p k v.1).
  - unfold add_config. rewrite Hk, dset_absent by done. rewrite IH by (by rewrite <- app_assoc). by rewrite <- app_assoc.
  - apply IH. unfold dwf, dkeys in *. rewrite map_app in *. simpl in Hwf.
    apply NoDup_app in Hwf as (Hn1 & Hd & Hn2). apply NoDup_cons in Hn2 as [_ Hn2].
    apply NoDup_app. split_and!; [done| |done]. intros x Hx Hin. apply (Hd x Hx). by right.
Qed.
