(* ===== verification/Rest.v ===== *)
(** * Responses of the REST proxy

    [kafka_rest_apis/error_codes.py], the helpers of [KarapaceBase] in [kafka_rest_apis/karapace.py],
    [kafka_rest_apis/convert_to_int.py] and [base64.b64encode]. [KarapaceBase.r] raises an [HTTPResponse];
    here a successful response is the value a handler returns and an error response is the exception
    [HTTPResponse] with the status and the error code of the body, since no handler catches a success.
    Messages and content types are not modelled. *)

From Stdlib Require Import Strings.Byte QArith.
From S2P Require Import Prelude Json Typing Framing.
Open Scope Z_scope.

(** ** Status and error codes *)

Definition HTTP_OK : Z := 200.
Definition NO_CONTENT : Z := 204.
Definition FORBIDDEN : Z := 403.
Definition NOT_FOUND : Z := 404.
Definition NOT_ACCEPTABLE : Z := 406.
Definition CONFLICT : Z := 409.
Definition UNPROCESSABLE_ENTITY : Z := 422.
Definition INTERNAL_SERVER_ERROR : Z := 500.
Definition SERVICE_UNAVAILABLE : Z := 503.

Inductive RESTErrorCodes : Type :=
  | HTTP_BAD_REQUEST | HTTP_NOT_FOUND | HTTP_INTERNAL_SERVER_ERROR | HTTP_UNPROCESSABLE_ENTITY
  | HTTP_SERVICE_UNAVAILABLE | TOPIC_NOT_FOUND | PARTITION_NOT_FOUND | CONSUMER_NOT_FOUND
  | UNKNOWN_TOPIC_OR_PARTITION | UNSUPPORTED_FORMAT | SCHEMA_RETRIEVAL_ERROR | CONSUMER_ALREADY_EXISTS
  | ILLEGAL_STATE | INVALID_CONSUMER_PARAMETERS | INVALID_DATA | INVALID_VALUE.

Definition code_value (c : RESTErrorCodes) : Z :=
  match c with
  | HTTP_BAD_REQUEST => 400
  | HTTP_NOT_FOUND => 404
  | HTTP_INTERNAL_SERVER_ERROR => 500
  | HTTP_UNPROCESSABLE_ENTITY => 422
  | HTTP_SERVICE_UNAVAILABLE => 503
  | TOPIC_NOT_FOUND => 40401
  | PARTITION_NOT_FOUND => 40402
  | CONSUMER_NOT_FOUND | UNKNOWN_TOPIC_OR_PARTITION => 40403
  | UNSUPPORTED_FORMAT => 40601
  | SCHEMA_RETRIEVAL_ERROR => 40801
  | CONSUMER_ALREADY_EXISTS => 40902
  | ILLEGAL_STATE => 40903
  | INVALID_CONSUMER_PARAMETERS => 42204
  | INVALID_DATA => 42205
  | INVALID_VALUE => 50001
  end.

(** ** KarapaceBase *)

(** The status and the body of a success. *)
Definition response : Type := Z * json.
Definition r_ok (body : json) : response := (HTTP_OK, body).
Definition empty_response : response := (NO_CONTENT, JObj []).

Definition error_response (status : Z) (sub_code : RESTErrorCodes) : exn := HTTPResponse status (Some (code_value sub_code)).
Definition internal_error : exn := error_response INTERNAL_SERVER_ERROR HTTP_INTERNAL_SERVER_ERROR.
Definition unprocessable_entity (sub_code : RESTErrorCodes) : exn := error_response UNPROCESSABLE_ENTITY sub_code.
Definition not_found (sub_code : RESTErrorCodes) : exn := error_response NOT_FOUND sub_code.
Definition service_unavailable (sub_code : RESTErrorCodes) : exn := error_response SERVICE_UNAVAILABLE sub_code.
(** [r(body={"message": "Forbidden"}, status=FORBIDDEN)], without an error code. *)
Definition forbidden : exn := HTTPResponse FORBIDDEN None.

(** ** convert_to_int *)

(** [int(value)] of decoded JSON *)
Definition int_of_json (j : json) : result Z :=
  match j with
  | JInt z => Ok z
  | JBool b => Ok (if b then 1 else 0)
  | JFloat q => Ok (Z.quot (Qnum q) (Zpos (Qden q)))
  | JStr s => match py_int s with Some z => Ok z | None => Raise ValueError end
  | _ => Raise TypeError
  end.

(** The object with the member [key] replaced by its integer; an object without [get] is no dict. *)
Definition convert_to_int (object_ : json) (key : string) : result json :=
  match object_ with
  | JObj d =>
      match jget key d with
      | JNull => Ok object_
      | v => z ← reraise is_value_error internal_error (int_of_json v); Ok (JObj (dset key (JInt z) d))
      end
  | _ => Raise AttributeError
  end.

(** ** Base64 *)

Definition b64_char (n : Z) : ascii :=
  let n := Z.to_N n in
  if (n <? 26)%N then ascii_of_N (65 + n)
  else if (n <? 52)%N then ascii_of_N (71 + n)
  else if (n <? 62)%N then ascii_of_N (n - 4)
  else if (n =? 62)%N then "+"%char else "/"%char.

(** Three bytes give four characters; one or two at the end are padded. *)
Fixpoint b64encode (b : bytes) : string :=
  match b with
  | a :: b :: c :: rest =>
      let n := Z.lor (Z.shiftl (byte_val a) 16) (Z.lor (Z.shiftl (byte_val b) 8) (byte_val c)) in
      String (b64_char (Z.shiftr n 18)) (String (b64_char (Z.land (Z.shiftr n 12) 63))
        (String (b64_char (Z.land (Z.shiftr n 6) 63)) (String (b64_char (Z.land n 63)) (b64encode rest))))
  | [a; b] =>
      let n := Z.lor (Z.shiftl (byte_val a) 16) (Z.shiftl (byte_val b) 8) in
      String (b64_char (Z.shiftr n 18)) (String (b64_char (Z.land (Z.shiftr n 12) 63))
        (String (b64_char (Z.land (Z.shiftr n 6) 63)) "="))
  | [a] =>
      let n := Z.shiftl (byte_val a) 16 in
      String (b64_char (Z.shiftr n 18)) (String (b64_char (Z.land (Z.shiftr n 12) 63)) "==")
  | [] => ""
  end%string.

Example b64encode_example : map b64encode [[x4d; x61; x6e]; [x4d; x61]; [x4d]; [xff; xff; xfe]] =
  ["TWFu"; "TWE="; "TQ=="; "///+"]%string.
Proof. vm_compute. reflexivity. Qed.

(** [base64.b64decode]: other characters are skipped; padding ends the text once it completes a group of
    four, and a group that is left open is an error. [pos] counts the characters of the group,
    [left] is what they leave over, [pads] the padding so far. *)
Definition b64_value (c : ascii) : option Z :=
  let n := N_of_ascii c in
  if ((65 <=? n) && (n <=? 90))%N then Some (Z.of_N n - 65)
  else if ((97 <=? n) && (n <=? 122))%N then Some (Z.of_N n - 71)
  else if ((48 <=? n) && (n <=? 57))%N then Some (Z.of_N n + 4)
  else if Ascii.eqb c "+" then Some 62
  else if Ascii.eqb c "/" then Some 63
  else None.

Fixpoint b64_scan (pos left pads : Z) (s : string) : result bytes :=
  match s with
  | EmptyString => if pos =? 0 then Ok [] else Raise B64DecodeError
  | String c s' =>
      if Ascii.eqb c "=" then
        if (2 <=? pos) && (4 <=? pos + (pads + 1)) then Ok []
        else b64_scan pos left (if 2 <=? pos then pads + 1 else pads) s'
      else
        match b64_value c with
        | None => b64_scan pos left pads s'
        | Some v =>
            if pos =? 0 then b64_scan 1 v 0 s'
            else if pos =? 1 then rest ← b64_scan 2 (v mod 16) 0 s'; Ok (byte_of (left * 4 + v / 16) :: rest)
            else if pos =? 2 then rest ← b64_scan 3 (v mod 4) 0 s'; Ok (byte_of (left * 16 + v / 4) :: rest)
            else rest ← b64_scan 0 0 0 s'; Ok (byte_of (left * 64 + v) :: rest)
        end
  end.

(** The argument is a string of ASCII characters. *)
Definition b64decode (obj : json) : result bytes :=
  match obj with
  | JStr s =>
      if forallb (fun c => (N_of_ascii c <? 128)%N) (String.list_ascii_of_string s) then b64_scan 0 0 0 s
      else Raise ValueError
  | _ => Raise TypeError
  end.

Example b64decode_example :
  map b64decode [JStr "TWFu"; JStr "TWE="; JStr "TQ=="; JStr "T Q = ="; JStr "TWF"; JStr ""; JInt 3] =
  [Ok [x4d; x61; x6e]; Ok [x4d; x61]; Ok [x4d]; Ok [x4d]; Raise B64DecodeError; Ok []; Raise TypeError]%string.
Proof. vm_compute. reflexivity. Qed.

(** ** Lemmas *)

Lemma lor_shift a b k : 0 <= k -> 0 <= b < 2 ^ k -> Z.lor (Z.shiftl a k) b = a * 2 ^ k + b.
Proof.
  intros Hk Hb. pose proof (Z.add_lor_land (Z.shiftl a k) b) as Ha.
  assert (Hl : Z.land (Z.shiftl a k) b = 0).
  { apply Z.bits_inj'. intros n Hn. rewrite Z.land_spec, Z.bits_0, Z.shiftl_spec by done.
    destruct (Z.ltb_spec n k); [by rewrite Z.testbit_neg_r by lia|].
    replace (Z.testbit b n) with false; [by rewrite andb_false_r|]. symmetry.
    destruct (decide (b = 0)) as [->|Hb0]; [apply Z.bits_0|]. apply Z.bits_above_log2; [lia|].
    apply Z.log2_lt_pow2; [lia|]. eapply Z.lt_le_trans; [apply Hb|]. apply Z.pow_le_mono_r; lia. }
  rewrite Z.shiftl_mul_pow2 in * by done. lia.
Qed.

Lemma b64_value_char n : 0 <= n < 64 -> b64_value (b64_char n) = Some n /\ Ascii.eqb (b64_char n) "=" = false /\
  (N_of_ascii (b64_char n) <? 128)%N = true.
Proof.
  intros Hn. assert (Hin : n ∈ seqZ 0 64) by (apply elem_of_seqZ; lia).
  assert (Hall : Forall (fun n => b64_value (b64_char n) = Some n /\ Ascii.eqb (b64_char n) "=" = false /\
    (N_of_ascii (b64_char n) <? 128)%N = true) (seqZ 0 64)).
  { apply (bool_decide_unpack _). vm_compute. exact I. }
  rewrite Forall_forall in Hall. by apply Hall.
Qed.

Lemma b64_step v pos left pads s : 0 <= v < 64 ->
  b64_scan pos left pads (String (b64_char v) s) =
    if pos =? 0 then b64_scan 1 v 0 s
    else if pos =? 1 then rest ← b64_scan 2 (v mod 16) 0 s; Ok (byte_of (left * 4 + v / 16) :: rest)
    else if pos =? 2 then rest ← b64_scan 3 (v mod 4) 0 s; Ok (byte_of (left * 16 + v / 4) :: rest)
    else rest ← b64_scan 0 0 0 s; Ok (byte_of (left * 64 + v) :: rest).
Proof. intros Hv. destruct (b64_value_char v Hv) as (Hval & Hpad & _). cbn [b64_scan]. by rewrite Hpad, Hval. Qed.

(** The four characters of three bytes, and those of a last group. *)
Lemma b64_group a b c : 0 <= a < 256 -> 0 <= b < 256 -> 0 <= c < 256 ->
  let n := Z.lor (Z.shiftl a 16) (Z.lor (Z.shiftl b 8) c) in
  n = a * 65536 + b * 256 + c /\
  (0 <= Z.shiftr n 18 < 64 /\ 0 <= Z.land (Z.shiftr n 12) 63 < 64 /\ 0 <= Z.land (Z.shiftr n 6) 63 < 64 /\ 0 <= Z.land n 63 < 64) /\
  Z.shiftr n 18 * 4 + Z.land (Z.shiftr n 12) 63 / 16 = a /\
  Z.land (Z.shiftr n 12) 63 mod 16 * 16 + Z.land (Z.shiftr n 6) 63 / 4 = b /\
  Z.land (Z.shiftr n 6) 63 mod 4 * 64 + Z.land n 63 = c.
Proof.
  intros Ha Hb Hc n. assert (Hn : n = a * 65536 + b * 256 + c).
  { subst n. rewrite (lor_shift b c 8) by lia. rewrite (lor_shift a _ 16) by lia. lia. }
  split; [done|]. change 63 with (Z.ones 6). rewrite !Z.land_ones, !Z.shiftr_div_pow2 by lia.
  change (2 ^ 18) with 262144. change (2 ^ 12) with 4096. change (2 ^ 6) with 64.
  rewrite Hn. clear n Hn. split_and!; try (Z.to_euclidean_division_equations; lia).
Qed.

Lemma b64_scan_encode : forall b, b64_scan 0 0 0 (b64encode b) = Ok b.
Proof.
  fix IH 1. intros [|a [|b [|c rest]]].
  - done.
  - pose proof (byte_val_range a) as Ha.
    destruct (b64_group (byte_val a) 0 0 Ha) as (_ & (H0 & H1 & _) & E1 & _); [lia..|].
    rewrite Z.shiftl_0_l, !Z.lor_0_r in *. cbn [b64encode]. cbv zeta.
    rewrite (b64_step _ 0) by done. cbn [Z.eqb]. rewrite (b64_step _ 1) by done. simpl. by rewrite E1, byte_of_val.
  - pose proof (byte_val_range a) as Ha. pose proof (byte_val_range b) as Hb.
    destruct (b64_group (byte_val a) (byte_val b) 0 Ha Hb) as (_ & (H0 & H1 & H2 & _) & E1 & E2 & _); [lia|].
    rewrite !Z.lor_0_r in *. cbn [b64encode]. cbv zeta.
    rewrite (b64_step _ 0) by done. cbn [Z.eqb]. rewrite (b64_step _ 1) by done. cbn [Z.eqb Pos.eqb].
    rewrite (b64_step _ 2) by done. cbn -[byte_of Z.mul Z.add Z.div Z.modulo Z.land Z.shiftr].
    by rewrite E1, E2, !byte_of_val.
  - pose proof (byte_val_range a) as Ha. pose proof (byte_val_range b) as Hb. pose proof (byte_val_range c) as Hc.
    destruct (b64_group (byte_val a) (byte_val b) (byte_val c) Ha Hb Hc) as (_ & (H0 & H1 & H2 & H3) & E1 & E2 & E3).
    cbn [b64encode]. cbv zeta.
    rewrite (b64_step _ 0) by done. cbn [Z.eqb]. rewrite (b64_step _ 1) by done. cbn [Z.eqb Pos.eqb].
    rewrite (b64_step _ 2) by done. cbn [Z.eqb Pos.eqb]. rewrite (b64_step _ 3) by done. cbn [Z.eqb Pos.eqb].
    rewrite (IH rest). cbn [mbind result_bind]. by rewrite E1, E2, E3, !byte_of_val.
Qed.

Lemma b64encode_ascii : forall b,
  forallb (fun c => (N_of_ascii c <? 128)%N) (String.list_ascii_of_string (b64encode b)) = true.
Proof.
  fix IH 1. intros [|a [|b [|c rest]]]; [done| | |].
  - pose proof (byte_val_range a) as Ha. destruct (b64_group (byte_val a) 0 0 Ha) as (_ & (H0 & H1 & _) & _); [lia..|].
    rewrite Z.shiftl_0_l, !Z.lor_0_r in *. cbn [b64encode String.list_ascii_of_string forallb]. cbv zeta.
    destruct (b64_value_char _ H0) as (_ & _ & ->), (b64_value_char _ H1) as (_ & _ & ->). done.
  - pose proof (byte_val_range a) as Ha. pose proof (byte_val_range b) as Hb.
    destruct (b64_group (byte_val a) (byte_val b) 0 Ha Hb) as (_ & (H0 & H1 & H2 & _) & _); [lia|].
    rewrite !Z.lor_0_r in *. cbn [b64encode String.list_ascii_of_string forallb]. cbv zeta.
    destruct (b64_value_char _ H0) as (_ & _ & ->), (b64_value_char _ H1) as (_ & _ & ->), (b64_value_char _ H2) as (_ & _ & ->). done.
  - pose proof (byte_val_range a) as Ha. pose proof (byte_val_range b) as Hb. pose proof (byte_val_range c) as Hc.
    destruct (b64_group (byte_val a) (byte_val b) (byte_val c) Ha Hb Hc) as (_ & (H0 & H1 & H2 & H3) & _).
    cbn [b64encode String.list_ascii_of_string forallb]. cbv zeta.
    destruct (b64_value_char _ H0) as (_ & _ & ->), (b64_value_char _ H1) as (_ & _ & ->),
      (b64_value_char _ H2) as (_ & _ & ->), (b64_value_char _ H3) as (_ & _ & ->). apply IH.
Qed.

(** What is encoded is decoded as itself. *)
Lemma b64_roundtrip b : b64decode (JStr (b64encode b)) = Ok b.
Proof. unfold b64decode. by rewrite b64encode_ascii, b64_scan_encode. Qed.
