(* ===== verification/Consumers.v ===== *)
(** * The consumers of the REST proxy

    [kafka_rest_apis/consumer_manager.py]: the consumers that clients of the proxy create, with one
    function per request. A handler first checks its request, then takes the lock of its consumer and
    looks the consumer up again; the two halves are separate definitions here ([..._request] where the
    first half computes something, the second is the code under the lock), so that what happens between
    them can be told. The Kafka client, the registry's answers and the clock are parameters. *)

From stdpp Require Import pretty.
From Stdlib Require Import Strings.Byte QArith Qminmax.
From S2P Require Import Prelude Json Typing Models Schemas ProtoReader ProtoElements Framing Serialization KafkaClient Rest.
Open Scope Z_scope.

(** ** State *)

(** [(group_name, consumer_name)]; the name may be any truthy value of the request. *)
Definition internal_name : Type := string * json.

Record TypedConsumer (C : Type) : Type := mkTypedConsumer {
  tc_consumer : option (KafkaConsumer C);
  serialization_format : json;
  tc_config : dict string json;
}.
Arguments mkTypedConsumer {C} _ _ _.
Arguments tc_consumer {C} _.
Arguments serialization_format {C} _.
Arguments tc_config {C} _.

Record ConsumerManager (C : Type) : Type := mkManager {
  consumers : dict internal_name (TypedConsumer C);
  deserializer : Serializer;
}.
Arguments mkManager {C} _ _.
Arguments consumers {C} _.
Arguments deserializer {C} _.

(** The configuration the manager reads. *)
Record ProxyConfig : Type := mkProxyConfig {
  consumer_enable_auto_commit : bool;
  consumer_request_timeout_ms : Z;
  config_fetch_min_bytes : Z;
  session_timeout_ms : Z;
  consumer_request_max_bytes : Z;
  rest_base_uri : string;
}.

(** What a Kafka consumer is started with, as far as the request decides it. *)
Record ConsumerParams : Type := mkParams {
  auto_offset_reset : json;
  client_id : json;
  enable_auto_commit : json;
  fetch_message_max_bytes : Z;
  fetch_min_bytes : Z;
  group_id : string;
  param_session_timeout_ms : Z;
  socket_timeout_ms : Z;
  topic_metadata_refresh_interval_ms : json;
}.

Definition KNOWN_FORMATS : list string := ["json"; "avro"; "binary"; "jsonschema"; "protobuf"]%string.
Definition OFFSET_RESET_STRATEGIES : list string := ["latest"; "earliest"]%string.

(** Partitions of each topic of the cluster. *)
Definition ClusterTopics : Type := dict string (list Z).

(** ** Requests *)

(** [s.lower()] and [s.strip("/")] *)
Definition py_lower (s : string) : string := of_text (map lower_ascii (to_text s)).
Fixpoint lstrip_slash (t : text) : text :=
  match t with c :: t' => if Ascii.eqb c "/" then lstrip_slash t' else t | [] => [] end.
Definition strip_slashes (s : string) : string := of_text (rev (lstrip_slash (rev (lstrip_slash (to_text s))))).

(** [value in {...}] for a set of strings: lists and dicts cannot be hashed. *)
Definition in_string_set (j : json) (set : list string) : result bool :=
  match j with
  | JStr s => Ok (bool_decide (s ∈ set))
  | JList _ | JObj _ => Raise TypeError
  | _ => Ok false
  end.

(** [_assert] *)
Definition assert_ (cond : bool) (code : Z) (sub_code : RESTErrorCodes) : result () :=
  if cond then Ok () else Raise (error_response code sub_code).

Section Requests.
Context `{!SchemaLib} `{!DataLib} `{!NewTopicPartition}.

Definition assert_has_key (element : json) (key : string) : result () :=
  b ← py_in key element; assert_ b INTERNAL_SERVER_ERROR INVALID_VALUE.

(** [isinstance(container[key], int) and container[key] >= 0] *)
Definition assert_positive_number (container : json) (key : string) : result () :=
  _ ← assert_has_key container key;
  v ← py_item container key;
  assert_ (match v with JInt z => 0 <=? z | JBool _ => true | _ => false end) INTERNAL_SERVER_ERROR INVALID_VALUE.

Definition has_topic_and_partition_keys (topic_data : json) : result () :=
  _ ← assert_has_key topic_data "topic"; assert_has_key topic_data "partition".

Definition topic_and_partition_valid (topics : ClusterTopics) (topic_data : json) : result () :=
  _ ← has_topic_and_partition_keys topic_data;
  topic ← py_item topic_data "topic";
  partition ← py_item topic_data "partition";
  known ← in_string_set topic (dkeys topics);
  if negb known then Raise (not_found TOPIC_NOT_FOUND) else
  let partitions := match topic with JStr t => default [] (dget t topics) | _ => [] end in
  match partition with
  | JList _ | JObj _ => Raise TypeError
  | _ => if existsb (fun p => py_eq (JInt p) partition) partitions then Ok ()
         else Raise (not_found PARTITION_NOT_FOUND)
  end.

(** [_validate_create_consumer], with the default format filled in. *)
Definition validate_create_consumer (request : dict string json) : result (dict string json) :=
  let request := dset "format"%string (jget_default "format" (JStr "binary") request) request in
  format ← dindex "format"%string request;
  known ← in_string_set format KNOWN_FORMATS;
  _ ← assert_ known UNPROCESSABLE_ENTITY INVALID_CONSUMER_PARAMETERS;
  _ ← assert_ (match dget "fetch.min.bytes"%string request with
               | None => true
               | Some (JInt z) => -1 <=? z
               | Some (JBool _) => true
               | Some _ => false
               end) UNPROCESSABLE_ENTITY INVALID_CONSUMER_PARAMETERS;
  _ ← match dget "auto.offset.reset"%string request with
      | None => Ok ()
      | Some (JStr s) => assert_ (bool_decide (py_lower s ∈ OFFSET_RESET_STRATEGIES)) UNPROCESSABLE_ENTITY INVALID_CONSUMER_PARAMETERS
      | Some _ => Raise AttributeError
      end;
  Ok request.

(** [convert_to_int] for several keys of one object *)
Definition convert_keys (keys : list string) (object_ : json) : result json :=
  fold_res convert_to_int keys object_.

Definition as_dict (j : json) : dict string json := match j with JObj d => d | _ => [] end.

(** The defaults [create_consumer] fills in before it starts the Kafka consumer. *)
Definition fill_defaults (config : ProxyConfig) (request_data : dict string json) : dict string json :=
  let enable_commit := jget_default "auto.commit.enable" (JBool (consumer_enable_auto_commit config)) request_data in
  let enable_commit := match enable_commit with JStr s => JBool (String.eqb (py_lower s) "true") | j => j end in
  let request_data := dset "consumer.request.timeout.ms"%string
    (jget_default "consumer.request.timeout.ms" (JInt (consumer_request_timeout_ms config)) request_data) request_data in
  let request_data := dset "auto.commit.enable"%string enable_commit request_data in
  dset "auto.offset.reset"%string (jget_default "auto.offset.reset" (JStr "earliest") request_data) request_data.

(** [max(a, value)] with a value that must be an integer *)
Definition max_with (a : Z) (j : json) : result Z := z ← as_int j; Ok (Z.max a z).

Definition consumer_params (config : ProxyConfig) (fetch_min_bytes : json) (group_name : string) (client_id : json)
  (request_data : dict string json) : result ConsumerParams :=
  timeout ← dindex "consumer.request.timeout.ms"%string request_data;
  request_timeout_ms ← max_with (Z.max (session_timeout_ms config) DEFAULT_REQUEST_TIMEOUT_MS) timeout;
  offset_reset ← dindex "auto.offset.reset"%string request_data;
  auto_commit ← dindex "auto.commit.enable"%string request_data;
  min_bytes ← max_with 1 fetch_min_bytes;
  Ok (mkParams offset_reset client_id auto_commit (consumer_request_max_bytes config) min_bytes group_name
        (session_timeout_ms config) request_timeout_ms (jget "topic.metadata.refresh.interval.ms" request_data)).

(** The payload of [commit_offsets]: an offset is stored as the next one to read. *)
Definition commit_element (topics : ClusterTopics) (el : json) : result TopicPartition :=
  el ← convert_keys ["partition"; "offset"]%string el;
  _ ← topic_and_partition_valid topics el;
  topic ← py_item el "topic";
  partition ← py_item el "partition";
  offset ← py_item el "offset";
  z ← as_int offset;
  new_topic_partition topic partition (JInt (z + 1)).

Definition commit_request (topics : ClusterTopics) (request_data : dict string json) : result (list TopicPartition) :=
  _ ← (if truthy (JObj request_data) then assert_has_key (JObj request_data) "offsets" else Ok ());
  l ← py_iter (jget_default "offsets" (JList []) request_data);
  map_res (commit_element topics) l.

(** The topics and the pattern of [set_subscription]. *)
Definition subscription_request (request_data : dict string json) : result (json * list string) :=
  let topics := jget_default "topics" (JList []) request_data in
  _ ← assert_ (negb (truthy topics && negb (match topics with JList _ => true | _ => false end)))
        UNPROCESSABLE_ENTITY HTTP_UNPROCESSABLE_ENTITY;
  let topics_pattern := jget "topic_pattern" request_data in
  _ ← assert_ (negb (truthy topics_pattern && negb (match topics_pattern with JStr _ => true | _ => false end)))
        UNPROCESSABLE_ENTITY HTTP_UNPROCESSABLE_ENTITY;
  _ ← assert_ (truthy topics || truthy topics_pattern) CONFLICT ILLEGAL_STATE;
  _ ← assert_ (negb (truthy topics && truthy topics_pattern)) CONFLICT ILLEGAL_STATE;
  Ok (topics, match topics_pattern with JNull => [] | p => [py_str_json p] end).

(** The offset given to [TopicPartition] when it has no argument. *)
Definition OFFSET_INVALID : json := JNull.

Definition assignment_element (el : json) : result TopicPartition :=
  el ← convert_to_int el "partition";
  _ ← has_topic_and_partition_keys el;
  topic ← py_item el "topic";
  partition ← py_item el "partition";
  new_topic_partition topic partition OFFSET_INVALID.

Definition assignment_request (request_data : dict string json) : result (list TopicPartition) :=
  _ ← assert_has_key (JObj request_data) "partitions";
  l ← (j ← py_item (JObj request_data) "partitions"; py_iter j);
  map_res assignment_element l.

Definition seek_element (el : json) : result TopicPartition :=
  _ ← assert_has_key el "topic";
  _ ← assert_has_key el "offset";
  el ← convert_to_int el "offset";
  _ ← assert_has_key el "partition";
  el ← convert_to_int el "partition";
  _ ← assert_positive_number el "offset";
  topic ← py_item el "topic";
  partition ← py_item el "partition";
  offset ← py_item el "offset";
  new_topic_partition topic partition offset.

Definition seek_request (request_data : dict string json) : result (list TopicPartition) :=
  _ ← assert_has_key (JObj request_data) "offsets";
  l ← (j ← py_item (JObj request_data) "offsets"; py_iter j);
  map_res seek_element l.

(** [OFFSET_BEGINNING] and [OFFSET_END] of the client *)
Context (OFFSET_BEGINNING OFFSET_END : json).

Definition seek_limit_element (beginning : bool) (el : json) : result TopicPartition :=
  el ← convert_to_int el "partition";
  _ ← has_topic_and_partition_keys el;
  topic ← py_item el "topic";
  partition ← py_item el "partition";
  new_topic_partition topic partition (if beginning then OFFSET_BEGINNING else OFFSET_END).

Definition seek_limit_request (beginning : bool) (request_data : dict string json) : result (list TopicPartition) :=
  _ ← assert_has_key (JObj request_data) "partitions";
  l ← (j ← py_item (JObj request_data) "partitions"; py_iter j);
  map_res (seek_limit_element beginning) l.
End Requests.

(** ** Fetching *)

Section Fetch.
Context `{!ForCode} {C : Type} `{!ConfluentConsumer C}.
Abbreviation A := (M (option (KafkaConsumer C))).

(** [len(x) if x else 0] *)
Definition opt_len (b : option bytes) : Z := match b with Some b => Z.of_nat (length b) | None => 0 end.
Definition message_bytes (m : Message) : Z := opt_len (msg_key m) + opt_len (msg_value m).

(** The loop over the messages of one [consume], left when [max_bytes] is reached. *)
Fixpoint take_messages (max_bytes : Z) (messages : list Message) (read_bytes : Z) (consumed_messages : list Message)
  : result (Z * list Message) :=
  match messages with
  | [] => Ok (read_bytes, consumed_messages)
  | message :: messages =>
      match msg_error message with
      | Some code => Raise (translate_from_kafkaerror code)
      | None =>
          let read_bytes := read_bytes + message_bytes message in
          let consumed_messages := consumed_messages ++ [message] in
          if max_bytes <=? read_bytes then Ok (read_bytes, consumed_messages)
          else take_messages max_bytes messages read_bytes consumed_messages
      end
  end.

(** The number of messages to ask for: what is left of the bytes over the average size so far, or a
    kilobyte each at first; divisions are exact here and rounded in the code. *)
Definition estimated_messages_needed (max_bytes read_bytes : Z) (consumed_messages : list Message) : result Z :=
  match consumed_messages with
  | [] => Ok (Z.max 1 (Z.min 1000000 (Z.quot max_bytes 1024)))
  | _ =>
      if read_bytes =? 0 then Raise ZeroDivisionError
      else Ok (Z.max 1 (Z.min 1000000
             (Z.quot ((max_bytes - read_bytes) * Z.of_nat (length consumed_messages)) read_bytes + 1)))
  end.

Definition consume_timeout (is_first_fetch : bool) (time_left : Q) : Q :=
  if is_first_fetch then Qmax (1 # 10) (time_left * (95 # 100))
  else Qmin (2 # 10) (Qmax (5 # 100) (time_left * (2 # 10))).

(** The handlers of the [try] around a [consume]. *)
Definition fetch_error (e : exn) : exn :=
  match e with
  | GroupAuthorizationFailedError | TopicAuthorizationFailedError => forbidden
  | UnknownTopicOrPartitionError => not_found UNKNOWN_TOPIC_OR_PARTITION
  | _ => if is_kafka_error e then internal_error else e
  end.

(** One [consume]: [None] when there were no messages. *)
Definition consume_batch (max_bytes : Z) (num_messages : Z) (timeout : Q) (read_bytes : Z)
  (consumed_messages : list Message) : A (option (Z * list Message)) :=
  catch
    (messages ← run_in_executor (consume num_messages timeout);
     match messages with
     | [] => mret None
     | _ => got ← lift (take_messages max_bytes messages read_bytes consumed_messages); mret (Some got)
     end)
    (fun e => raise (fetch_error e)).

(** The [while] loop; [clock t] is the [t]-th reading of [time.monotonic()] since it was entered. *)
Fixpoint fetch_loop (fuel : nat) (clock : nat -> Q) (end_time : Q) (max_bytes : Z) (t : nat) (read_bytes : Z)
  (consumed_messages : list Message) (is_first_fetch : bool) : A (Z * list Message) :=
  match fuel with
  | O => raise RecursionError
  | S fuel =>
      if (read_bytes <? max_bytes) && negb (Qle_bool end_time (clock t)) then
        let time_left := (end_time - clock (S t))%Q in
        num_messages ← lift (estimated_messages_needed max_bytes read_bytes consumed_messages);
        got ← consume_batch max_bytes num_messages (consume_timeout is_first_fetch time_left) read_bytes consumed_messages;
        match got, consumed_messages with
        | Some (read_bytes, consumed_messages), _ =>
            fetch_loop fuel clock end_time max_bytes (t + 2) read_bytes consumed_messages false
        | None, _ :: _ => mret (read_bytes, consumed_messages)
        | None, [] => fetch_loop fuel clock end_time max_bytes (t + 2) read_bytes consumed_messages is_first_fetch
        end
      else mret (read_bytes, consumed_messages)
  end.
End Fetch.

(** ** Deserialising what was fetched *)

Section Deserialize.
Context `{!SchemaLib} `{!DataLib} (http : RegistryHttp) (recursion_limit : nat).
Abbreviation D := (M Serializer).

(** Nothing is decoded of no bytes. *)
Definition when_bytes (b : option bytes) (f : bytes -> D json) : D json :=
  match b with None | Some [] => mret JNull | Some b => f b end.

Definition json_decode_func (b : option bytes) : D json :=
  when_bytes b (fun b => lift (reraise (fun e => bool_decide (e = JSONDecodeError) || bool_decide (e = UnicodeDecodeError))
    DeserializationError (json_decode b))).

Definition binary_decode_func (b : option bytes) : D json := when_bytes b (fun b => mret (JStr (b64encode b))).

Definition deserialize_with_fallback (b : option bytes) : D json :=
  when_bytes b (fun bs => catch (deserialize http recursion_limit bs) (fun _ => binary_decode_func b)).

Definition is_strict_error (e : exn) : bool :=
  match e with
  | StructError | InvalidMessageHeader | InvalidPayload | JSONDecodeError | UnicodeDecodeError => true
  | _ => false
  end.
Definition deserialize_strict (b : option bytes) : D json :=
  when_bytes b (fun bs => catch (deserialize http recursion_limit bs)
    (fun e => raise (if is_strict_error e then DeserializationError else e))).

(** [_get_deserialize_functions]: for keys and for values, and whether the parallel path is taken. *)
Definition get_deserialize_functions (request_format : json)
  : (option bytes -> D json) * (option bytes -> D json) * bool :=
  match request_format with
  | JStr "json" => (json_decode_func, json_decode_func, false)
  | JStr "binary" => (binary_decode_func, binary_decode_func, false)
  | JStr "avro" | JStr "protobuf" => (deserialize_with_fallback, deserialize_strict, true)
  | JStr "jsonschema" => (deserialize_strict, deserialize_strict, true)
  | _ => (binary_decode_func, binary_decode_func, false)
  end%string.

Definition deserialization_error (e : exn) : exn :=
  if bool_decide (e = DeserializationError) then unprocessable_entity HTTP_UNPROCESSABLE_ENTITY else e.

Definition record_of (m : Message) (key value : json) : json :=
  JObj [("topic", msg_topic m); ("partition", msg_partition m); ("offset", msg_offset m);
        ("timestamp", match (msg_timestamp m).1 with NOT_AVAILABLE => JNull | _ => JInt (msg_timestamp m).2 end);
        ("key", key); ("value", value)]%string.

Definition deserialize_message (key_func value_func : option bytes -> D json) (msg : Message) : D json :=
  key ← catch (key_func (msg_key msg)) (fun e => raise (deserialization_error e));
  value ← catch (value_func (msg_value msg)) (fun e => raise (deserialization_error e));
  mret (record_of msg key value).

(** [_deserialize_messages_sync]: one after the other, left at the first error. *)
Fixpoint deserialize_messages_sync (key_func value_func : option bytes -> D json) (messages : list Message) : D (list json) :=
  match messages with
  | [] => mret []
  | msg :: messages =>
      record ← deserialize_message key_func value_func msg;
      rest ← deserialize_messages_sync key_func value_func messages;
      mret (record :: rest)
  end.

(** [asyncio.gather]: every coroutine runs, in the order they were given; the first exception is raised. *)
Fixpoint gather {S X Y} (f : X -> M S Y) (l : list X) : M S (list Y) := fun s =>
  match l with
  | [] => (s, Ok [])
  | x :: l =>
      let '(s, r) := f x s in
      let '(s, rs) := gather f l s in
      (s, y ← r; ys ← rs; Ok (y :: ys))
  end.

Definition deserialize_messages_parallel (key_func value_func : option bytes -> D json) (messages : list Message) : D (list json) :=
  gather (deserialize_message key_func value_func) messages.

Definition deserialize_messages (request_format : json) (messages : list Message) : D (list json) :=
  let '(key_func, value_func, use_parallel) := get_deserialize_functions request_format in
  if use_parallel then deserialize_messages_parallel key_func value_func messages
  else deserialize_messages_sync key_func value_func messages.
End Deserialize.

(** ** The handlers *)

Section Handlers.
Context `{!SchemaLib} `{!DataLib} `{!NewTopicPartition} `{!ForCode} {C : Type} `{!ConfluentConsumer C}.
Abbreviation Handler := (M (ConsumerManager C)).

Definition set_consumers (d : dict internal_name (TypedConsumer C)) (m : ConsumerManager C) : ConsumerManager C :=
  mkManager d (deserializer m).

Definition assert_consumer_exists (name : internal_name) : Handler () :=
  d ← gets consumers;
  if din name d then mret () else raise (not_found CONSUMER_NOT_FOUND).

(** [self.consumers[internal_name]] under the lock *)
Definition the_consumer (name : internal_name) : Handler (TypedConsumer C) :=
  d ← gets consumers; lift (dindex name d).

(** A call on the Kafka consumer of a name, which it changes in place. *)
Definition on_consumer {A} (name : internal_name) (f : M (option (KafkaConsumer C)) A) : Handler A :=
  tc ← the_consumer name;
  let '(k, r) := f (tc_consumer tc) in
  _ ← modify (fun m => set_consumers
        (dset name (mkTypedConsumer k (serialization_format tc) (tc_config tc)) (consumers m)) m);
  lift r.

(** A computation on the deserialiser *)
Definition on_deserializer {A} (f : M Serializer A) : Handler A := fun m =>
  let '(s, r) := f (deserializer m) in (mkManager (consumers m) s, r).

(** *** Consumers *)

(** [create_kafka_consumer]: three attempts; [starts i] is what creating and starting a consumer gives the
    [i]-th time. *)
Fixpoint create_attempts (retries : list bool) (attempt : nat) (start : nat -> result (KafkaConsumer C))
  : result (KafkaConsumer C) :=
  match retries with
  | [] => Raise RuntimeError
  | retry :: retries =>
      match start attempt with
      | Ok c => Ok c
      | Raise e => if retry then create_attempts retries (S attempt) start else Raise e
      end
  end.

Definition create_kafka_consumer (starts : nat -> ConsumerParams -> result (KafkaConsumer C)) (config : ProxyConfig)
  (fetch_min_bytes : json) (group_name : string) (client_id : json) (request_data : dict string json)
  : result (KafkaConsumer C) :=
  create_attempts [true; true; false] 0 (fun attempt =>
    params ← consumer_params config fetch_min_bytes group_name client_id request_data; starts attempt params).

(** [new_name] is the uuid a consumer without a name is given, [urljoin] that of [urllib.parse]. *)
Definition create_consumer (config : ProxyConfig) (starts : nat -> ConsumerParams -> result (KafkaConsumer C))
  (new_name : string) (urljoin : string -> string -> string)
  (group_name : string) (request_data : dict string json) : Handler response :=
  let group_name := strip_slashes group_name in
  let consumer_name := let n := jget "name" request_data in if truthy n then n else JStr new_name in
  let name := (group_name, consumer_name) in
  d ← gets consumers;
  if din name d then raise (error_response CONFLICT CONSUMER_ALREADY_EXISTS) else
  request_data ← lift (validate_create_consumer request_data);
  request_data ← lift (convert_keys ["consumer.request.timeout.ms"; "fetch_min_bytes"]%string (JObj request_data));
  let request_data := fill_defaults config (as_dict request_data) in
  let fetch_min_bytes := jget_default "fetch.min.bytes" (JInt (config_fetch_min_bytes config)) request_data in
  c ← lift (reraise (fun e => bool_decide (e = KafkaConfigurationError)) internal_error
              (create_kafka_consumer starts config fetch_min_bytes group_name consumer_name request_data));
  format ← lift (dindex "format"%string request_data);
  _ ← modify (fun m => set_consumers (dset name (mkTypedConsumer (Some c) format request_data) (consumers m)) m);
  let uri := urljoin (rest_base_uri config)
    ("consumers/" +:+ group_name +:+ "/instances/" +:+ py_str_json consumer_name)%string in
  mret (r_ok (JObj [("base_uri", JStr uri); ("instance_id", consumer_name)]%string)).

(** Stopping may fail; the consumer is gone in any case, and the answer is the same. *)
Definition delete_consumer_locked (name : internal_name) : Handler response :=
  d ← gets consumers;
  match dget name d with
  | None => mret empty_response
  | Some _ => _ ← modify (set_consumers (ddel name d)); mret empty_response
  end.
Definition delete_consumer (name : internal_name) : Handler response :=
  _ ← assert_consumer_exists name; delete_consumer_locked name.

(** [c.consumer.stop()] of a consumer that was taken out, whatever it raises: its client, closed. *)
Definition stop_consumer (c : TypedConsumer C) : list (KafkaConsumer C) :=
  match tc_consumer c with Some k => [(kc_close k).1] | None => [] end.

(** [aclose]: every consumer is taken out and stopped; the clients that were closed, in that order. *)
Fixpoint aclose_consumers (names : list internal_name) : Handler (list (KafkaConsumer C)) :=
  match names with
  | [] => mret []
  | name :: names =>
      c ← the_consumer name;
      _ ← modify (fun m => set_consumers (ddel name (consumers m)) m);
      closed ← aclose_consumers names;
      mret (stop_consumer c ++ closed)
  end.
Definition aclose : Handler (list (KafkaConsumer C)) :=
  names ← gets (fun m => dkeys (consumers m)); aclose_consumers names.

(** *** Offsets *)

Definition NO_OFFSET_STORED : string := "Commit failed: Local: No offset stored".

Definition commit_offsets_locked (name : internal_name) (payload : list TopicPartition) : Handler response :=
  r ← on_consumer name (run_in_executor (commit_traced None (match payload with [] => None | p => Some p end)));
  match r with
  | inl _ => mret empty_response
  | inr (e, trace) =>
      if bool_decide (e = UnknownError) && substring_in NO_OFFSET_STORED trace then mret empty_response
      else raise (if is_kafka_error e then internal_error else e)
  end.
Definition commit_offsets (topics : ClusterTopics) (name : internal_name) (request_data : dict string json) : Handler response :=
  _ ← assert_consumer_exists name;
  payload ← lift (commit_request topics request_data);
  commit_offsets_locked name payload.

Definition get_offsets_error (e : exn) : exn :=
  match e with
  | GroupAuthorizationFailedError => forbidden
  | _ => if is_kafka_error e then internal_error else e
  end.

(** One partition of [get_offsets]; [[committed_partition] = ...] wants exactly one answer. *)
Definition get_offset (name : internal_name) (el : json) : Handler (list json) :=
  el ← lift (convert_to_int el "partition");
  tp ← lift (topic ← py_item el "topic"; partition ← py_item el "partition"; new_topic_partition topic partition OFFSET_INVALID);
  answer ← catch
    (l ← on_consumer name (run_in_executor (committed [tp]));
     match l with [p] => mret p | _ => raise ValueError end)
    (fun e => raise (get_offsets_error e));
  mret (match answer with
        | None => []
        | Some p => [JObj [("topic", JStr (tp_topic tp)); ("partition", JInt (tp_partition tp)); ("metadata", JStr "");
                           ("offset", JInt (tp_offset p))]%string]
        end).

Fixpoint get_offsets_loop (name : internal_name) (partitions : list json) : Handler (list json) :=
  match partitions with
  | [] => mret []
  | el :: partitions => o ← get_offset name el; os ← get_offsets_loop name partitions; mret (o ++ os)
  end.

Definition get_offsets (name : internal_name) (request_data : dict string json) : Handler response :=
  _ ← assert_consumer_exists name;
  _ ← lift (assert_has_key (JObj request_data) "partitions");
  _ ← the_consumer name;
  l ← lift (j ← py_item (JObj request_data) "partitions"; py_iter j);
  offsets ← get_offsets_loop name l;
  mret (r_ok (JObj [("offsets"%string, JList offsets)])).

(** *** Subscription *)

Definition illegal_state (e : exn) : exn :=
  if bool_decide (e = IllegalStateError) then error_response CONFLICT ILLEGAL_STATE else e.

Definition set_subscription_locked (name : internal_name) (request : json * list string) : Handler response :=
  catch
    (_ ← on_consumer name (run_in_executor
           (subscribe (match request.1 with JList l => l | _ => [] end) request.2));
     mret empty_response)
    (fun e => raise (illegal_state e)).
Definition set_subscription (name : internal_name) (request_data : dict string json) : Handler response :=
  _ ← assert_consumer_exists name;
  request ← lift (subscription_request request_data);
  set_subscription_locked name request.

Definition get_subscription (name : internal_name) : Handler response :=
  _ ← assert_consumer_exists name;
  topics ← on_consumer name (run_in_executor (gets kc_subscription));
  mret (r_ok (JObj [("topics"%string, JList topics)])).

Definition delete_subscription (name : internal_name) : Handler response :=
  _ ← assert_consumer_exists name;
  _ ← on_consumer name (run_in_executor unsubscribe);
  mret empty_response.

(** *** Assignments *)

Definition set_assignments_locked (name : internal_name) (partitions : list TopicPartition) : Handler response :=
  catch (_ ← on_consumer name (run_in_executor (assign partitions)); mret empty_response)
    (fun e => raise (illegal_state e)).
Definition set_assignments (name : internal_name) (request_data : dict string json) : Handler response :=
  _ ← assert_consumer_exists name;
  partitions ← lift (assignment_request request_data);
  set_assignments_locked name partitions.

Definition get_assignments (name : internal_name) : Handler response :=
  _ ← assert_consumer_exists name;
  l ← on_consumer name (run_in_executor kc_assignment);
  mret (r_ok (JObj [("partitions"%string, JList (map (fun p =>
    JObj [("topic", JStr (tp_topic p)); ("partition", JInt (tp_partition p))]%string) l))])).

(** *** Positions *)

Definition seek_error (e : exn) : exn :=
  match e with
  | UnknownTopicOrPartitionError | IllegalStateError => error_response CONFLICT ILLEGAL_STATE
  | _ => e
  end.
Fixpoint seek_all (name : internal_name) (seeks : list TopicPartition) : Handler response :=
  match seeks with
  | [] => mret empty_response
  | part :: seeks =>
      _ ← catch (on_consumer name (run_in_executor (seek part))) (fun e => raise (seek_error e));
      seek_all name seeks
  end.
Definition seek_to (name : internal_name) (request_data : dict string json) : Handler response :=
  _ ← assert_consumer_exists name;
  seeks ← lift (seek_request request_data);
  _ ← the_consumer name;
  seek_all name seeks.

Definition seek_limit_error (e : exn) : exn :=
  match e with
  | IllegalStateError => error_response CONFLICT ILLEGAL_STATE
  | UnknownTopicOrPartitionError => not_found UNKNOWN_TOPIC_OR_PARTITION
  | _ => e
  end.
Definition seek_limit (OFFSET_BEGINNING OFFSET_END : json) (beginning : bool) (name : internal_name)
  (request_data : dict string json) : Handler response :=
  _ ← assert_consumer_exists name;
  resets ← lift (seek_limit_request OFFSET_BEGINNING OFFSET_END beginning request_data);
  catch
    (_ ← on_consumer name (gather (fun tp => run_in_executor (seek tp)) resets);
     mret empty_response)
    (fun e => raise (seek_limit_error e)).

(** *** Records *)

(** [int(query_params[key]) if key in query_params else default] *)
Definition query_int (query_params : dict string string) (key : string) (dflt : json) : result json :=
  match dget key query_params with
  | Some s => z ← int_of_json (JStr s); Ok (JInt z)
  | None => Ok dflt
  end.

(** The timeout and the maximal size of a fetch: 0 is accepted, a negative number is not. *)
Definition fetch_limits (config : ProxyConfig) (consumer_config : dict string json) (query_params : dict string string)
  : result (Z * Z) :=
  '(timeout, max_bytes) ← reraise is_value_error internal_error
    (default_timeout ← (if din "timeout"%string query_params then Ok JNull
                        else dindex "consumer.request.timeout.ms"%string consumer_config);
     timeout ← query_int query_params "timeout" default_timeout;
     max_bytes ← query_int query_params "max_bytes" (JInt (consumer_request_max_bytes config));
     Ok (timeout, max_bytes));
  timeout ← as_int timeout;
  max_bytes ← as_int max_bytes;
  if timeout <? 0 then Raise internal_error
  else if max_bytes <? 0 then Raise internal_error
  else Ok (timeout, max_bytes).

Definition fetch_locked (config : ProxyConfig) (http : RegistryHttp) (recursion_limit fuel : nat) (clock : nat -> Q)
  (name : internal_name) (embedded_format : json) (query_params : dict string string) : Handler response :=
  tc ← the_consumer name;
  _ ← lift (assert_ (py_eq (serialization_format tc) embedded_format) NOT_ACCEPTABLE UNSUPPORTED_FORMAT);
  '(timeout, max_bytes) ← lift (fetch_limits config (tc_config tc) query_params);
  let end_time := (clock 0%nat + inject_Z timeout / 1000)%Q in
  '(_, consumed_messages) ← on_consumer name (fetch_loop fuel clock end_time max_bytes 1 0 [] true);
  records ← on_deserializer (deserialize_messages http recursion_limit embedded_format consumed_messages);
  mret (r_ok (JList records)).
Definition fetch (config : ProxyConfig) (http : RegistryHttp) (recursion_limit fuel : nat) (clock : nat -> Q)
  (name : internal_name) (embedded_format : json) (query_params : dict string string) : Handler response :=
  _ ← assert_consumer_exists name;
  fetch_locked config http recursion_limit fuel clock name embedded_format query_params.
End Handlers.
