(* ===== verification/ConsumersSpec.v ===== *)
(** * Properties of the consumers of the REST proxy

    A request changes at most the consumer it names, and the set of consumers changes only when one is
    created or deleted; an unknown consumer is answered with 404; a subscription excludes an assignment;
    and a fetch ends and returns a prefix of what the Kafka client delivered. *)

From Stdlib Require Import Strings.Byte QArith Qminmax.
From S2P Require Import Prelude Json Typing Models Schemas ProtoReader ProtoElements Framing Serialization KafkaClient Rest Consumers.
Open Scope Z_scope.

Section Spec.
Context `{!SchemaLib} `{!DataLib} `{!NewTopicPartition} `{!ForCode} {C : Type} `{!ConfluentConsumer C}.
Implicit Types (m : ConsumerManager C) (name : internal_name).

(** ** One consumer at a time *)

(** [m'] has the consumers of [m], all but [name] as they were, and [name] with its format and
    configuration. *)
Definition touches (name : internal_name) (m m' : ConsumerManager C) : Prop :=
  dkeys (consumers m') = dkeys (consumers m) /\
  (forall n, n ≠ name -> dget n (consumers m') = dget n (consumers m)) /\
  (forall tc, dget name (consumers m) = Some tc ->
     exists k, dget name (consumers m') = Some (mkTypedConsumer k (serialization_format tc) (tc_config tc))).

#[global] Instance touches_preorder name : PreOrder (touches name).
Proof.
  split.
  - intros m. split_and!; [done..|]. intros [k f c] Hg. by exists k.
  - intros a b c (K1 & O1 & N1) (K2 & O2 & N2). split_and!; [congruence| |].
    + intros n Hn. by rewrite O2, O1.
    + intros tc Hg. destruct (N1 tc Hg) as [k Hk]. by destruct (N2 _ Hk) as [k' Hk']; exists k'.
Qed.

Lemma on_consumer_touches {A} name (f : M (option (KafkaConsumer C)) A) : steps (touches name) (on_consumer name f).
Proof.
  intros m. unfold on_consumer, the_consumer, mbind, M_bind, gets, lift, dindex.
  destruct (dget name (consumers m)) as [tc|] eqn:E; simpl; [|reflexivity].
  destruct (f (tc_consumer tc)) as [k r]. simpl. split_and!; simpl.
  - by rewrite dkeys_dset, E.
  - intros n Hn. by rewrite dget_dset_ne.
  - intros tc' Htc. rewrite dget_dset_eq. simplify_eq. eauto.
Qed.

Lemma on_deserializer_touches {A} name (f : M Serializer A) : steps (touches name) (on_deserializer (C := C) f).
Proof.
  intros m. unfold on_deserializer. destruct (f (deserializer m)) as [s r]. split_and!; simpl; [done..|].
  intros [k f' c] Hg. by exists k.
Qed.

Lemma assert_consumer_exists_touches name : steps (touches name) (assert_consumer_exists (C := C) name).
Proof. intros m. unfold assert_consumer_exists, mbind, M_bind, gets. by destruct (din name (consumers m)). Qed.

Lemma the_consumer_touches name : steps (touches name) (the_consumer (C := C) name).
Proof. intros m. reflexivity. Qed.

(** The requests that name a consumer, deletion apart. *)
Inductive NamedRequest : Type :=
  | CommitOffsets (topics : ClusterTopics) (request_data : dict string json)
  | GetOffsets (request_data : dict string json)
  | SetSubscription (request_data : dict string json)
  | GetSubscription
  | DeleteSubscription
  | SetAssignments (request_data : dict string json)
  | GetAssignments
  | SeekTo (request_data : dict string json)
  | SeekLimit (OFFSET_BEGINNING OFFSET_END : json) (beginning : bool) (request_data : dict string json)
  | Fetch (config : ProxyConfig) (http : RegistryHttp) (recursion_limit fuel : nat) (clock : nat -> Q)
      (embedded_format : json) (query_params : dict string string).

Definition handle (name : internal_name) (r : NamedRequest) : M (ConsumerManager C) response :=
  match r with
  | CommitOffsets topics d => commit_offsets topics name d
  | GetOffsets d => get_offsets name d
  | SetSubscription d => set_subscription name d
  | GetSubscription => get_subscription name
  | DeleteSubscription => delete_subscription name
  | SetAssignments d => set_assignments name d
  | GetAssignments => get_assignments name
  | SeekTo d => seek_to name d
  | SeekLimit b e beginning d => seek_limit b e beginning name d
  | Fetch config http n fuel clock format query => fetch config http n fuel clock name format query
  end.

Lemma get_offsets_loop_touches name l : steps (touches name) (get_offsets_loop (C := C) name l).
Proof.
  pose proof (fun A => @on_consumer_touches A name) as Hc.
  induction l as [|el l IH]; simpl; [apply steps_ret; typeclasses eauto|].
  apply steps_bind; [typeclasses eauto| |monad_steps].
  unfold get_offset. apply steps_bind; [typeclasses eauto|apply steps_lift; typeclasses eauto|]. intros j.
  apply steps_bind; [typeclasses eauto|apply steps_lift; typeclasses eauto|]. intros tp.
  apply steps_bind; [typeclasses eauto| |monad_steps].
  apply steps_catch; [typeclasses eauto| |intros; apply steps_raise; typeclasses eauto].
  apply steps_bind; [typeclasses eauto|apply Hc|monad_steps].
Qed.

Lemma seek_all_touches name l : steps (touches name) (seek_all (C := C) name l).
Proof.
  induction l as [|p l IH]; simpl; [apply steps_ret; typeclasses eauto|].
  apply steps_bind; [typeclasses eauto| |done].
  apply steps_catch; [typeclasses eauto|apply on_consumer_touches|intros; apply steps_raise; typeclasses eauto].
Qed.

Lemma handle_touches name r : steps (touches name) (handle name r).
Proof.
  pose proof (fun A => @on_consumer_touches A name) as Hc. pose proof (assert_consumer_exists_touches name) as He.
  pose proof (the_consumer_touches name) as Ht.
  assert (Hcatch : forall A (x : M (ConsumerManager C) A) f, steps (touches name) x ->
    steps (touches name) (catch x (fun e => raise (f e)))).
  { intros. apply steps_catch; [typeclasses eauto|done|intros; apply steps_raise; typeclasses eauto]. }
  destruct r; simpl; (apply steps_bind; [typeclasses eauto|apply He|]; intros _).
  - apply steps_bind; [typeclasses eauto|apply steps_lift; typeclasses eauto|]. intros p.
    apply steps_bind; [typeclasses eauto|apply Hc|]. monad_steps.
  - pose proof (get_offsets_loop_touches name). monad_steps.
  - apply steps_bind; [typeclasses eauto|apply steps_lift; typeclasses eauto|]. intros p.
    apply Hcatch, steps_bind; [typeclasses eauto|apply Hc|monad_steps].
  - apply steps_bind; [typeclasses eauto|apply Hc|monad_steps].
  - apply steps_bind; [typeclasses eauto|apply Hc|monad_steps].
  - apply steps_bind; [typeclasses eauto|apply steps_lift; typeclasses eauto|]. intros p.
    apply Hcatch, steps_bind; [typeclasses eauto|apply Hc|monad_steps].
  - apply steps_bind; [typeclasses eauto|apply Hc|monad_steps].
  - pose proof (seek_all_touches name). monad_steps.
  - apply steps_bind; [typeclasses eauto|apply steps_lift; typeclasses eauto|]. intros p.
    apply Hcatch, steps_bind; [typeclasses eauto|apply Hc|monad_steps].
  - unfold fetch_locked. apply steps_bind; [typeclasses eauto|apply Ht|]. intros tc.
    apply steps_bind; [typeclasses eauto|apply steps_lift; typeclasses eauto|]. intros _.
    apply steps_bind; [typeclasses eauto|apply steps_lift; typeclasses eauto|]. intros [timeout max_bytes].
    apply steps_bind; [typeclasses eauto|apply Hc|]. intros [rb msgs].
    apply steps_bind; [typeclasses eauto|apply on_deserializer_touches|monad_steps].
Qed.

(** The dict of consumers stays a dict. *)
Definition dict_ok m m' : Prop := dwf (consumers m) -> dwf (consumers m').

Lemma handle_dict name r : steps dict_ok (handle name r).
Proof. intros m Hm. destruct (handle_touches name r m) as [Hk _]. unfold dwf. by rewrite Hk. Qed.

Lemma delete_dict name : steps dict_ok (delete_consumer (C := C) name).
Proof.
  intros m Hm. unfold delete_consumer, delete_consumer_locked, assert_consumer_exists, mbind, M_bind, gets, din.
  destruct (dget name (consumers m)) eqn:E; simpl; [|done]. rewrite E. simpl. by apply dwf_ddel.
Qed.

Lemma handle_unknown name r m : dget name (consumers m) = None ->
  handle name r m = (m, Raise (not_found CONSUMER_NOT_FOUND)).
Proof.
  intros Hn. assert (He : assert_consumer_exists name m = (m, Raise (not_found CONSUMER_NOT_FOUND))).
  { unfold assert_consumer_exists, mbind, M_bind, gets, din. by rewrite Hn. }
  destruct r; simpl; unfold commit_offsets, get_offsets, set_subscription, get_subscription, delete_subscription,
    set_assignments, get_assignments, seek_to, seek_limit, fetch; unfold mbind at 1, M_bind at 1; by rewrite He.
Qed.

(** ** Creation *)

Lemma validated_format request request' : validate_create_consumer request = Ok request' ->
  exists f, dget "format"%string request' = Some (JStr f) /\ f ∈ KNOWN_FORMATS.
Proof.
  unfold validate_create_consumer. cbn zeta. set (request1 := dset _ _ request).
  intros (format & Hf & Hv)%bind_Ok. apply bind_Ok in Hv as (known & Hk & Hv).
  apply bind_Ok in Hv as (u1 & Hu1 & Hv). apply bind_Ok in Hv as (u2 & Hu2 & Hv).
  apply bind_Ok in Hv as (u3 & Hu3 & [= <-]).
  unfold assert_ in Hu1. destruct known; [|done]. unfold dindex in Hf. destruct (dget "format"%string request1) as [j|]; [|done].
  injection Hf as <-. destruct j as [| | | |f| |]; simplify_eq/=. exists f. split; [done|]. by apply bool_decide_eq_true in Hk.
Qed.

Lemma fill_defaults_format config request : dget "format"%string (fill_defaults config request) = dget "format"%string request.
Proof. unfold fill_defaults. by rewrite !dget_dset_ne by done. Qed.

Lemma convert_to_int_format j k j' : convert_to_int j k = Ok j' -> k ≠ "format"%string ->
  dget "format"%string (as_dict j') = dget "format"%string (as_dict j).
Proof.
  unfold convert_to_int. destruct j as [| | | | | |d]; try done. intros Hc Hne.
  assert (Hset : forall z, dget "format"%string (dset k (JInt z) d) = dget "format"%string d)
    by (intros; by rewrite dget_dset_ne).
  destruct (jget k d); simplify_eq/=; try done;
    (destruct (reraise _ _ _) as [z|]; simplify_eq/=; apply Hset).
Qed.

(** What a successful creation does. *)
Lemma create_consumer_ok config starts new urljoin group data m m' r :
  create_consumer config starts new urljoin group data m = (m', Ok r) ->
  exists name tc f, r.1 = HTTP_OK /\ dget name (consumers m) = None /\
    m' = set_consumers (dset name tc (consumers m)) m /\ name.1 = strip_slashes group /\
    serialization_format tc = JStr f /\ f ∈ KNOWN_FORMATS /\ is_Some (tc_consumer tc).
Proof.
  unfold create_consumer. cbn zeta. set (cn := if truthy _ then _ else _).
  set (name := (strip_slashes group, cn)).
  intros (d & m1 & [= <- <-] & Hc)%M_bind_Ok.
  destruct (din name (consumers m)) eqn:Hin; [done|]. apply din_false in Hin.
  apply M_bind_Ok in Hc as (req & m1 & Hv & Hc). unfold lift in Hv. injection Hv as <- Hv.
  apply validated_format in Hv as (f & Hf & Hk).
  apply M_bind_Ok in Hc as (req2 & m1 & Hi & Hc). unfold lift in Hi. injection Hi as <- Hi.
  assert (Hf2 : dget "format"%string (as_dict req2) = Some (JStr f)).
  { unfold convert_keys, fold_res in Hi. apply bind_Ok in Hi as (j1 & Hj1 & Hi). apply bind_Ok in Hi as (j2 & Hj2 & [= <-]).
    rewrite (convert_to_int_format _ _ _ Hj2), (convert_to_int_format _ _ _ Hj1) by done. done. }
  apply M_bind_Ok in Hc as (c & m1 & Hs & Hc). unfold lift in Hs. injection Hs as <- Hs.
  apply M_bind_Ok in Hc as (format & m1 & Hd & Hc). unfold lift in Hd. injection Hd as <- Hd.
  unfold dindex in Hd. rewrite fill_defaults_format, Hf2 in Hd. injection Hd as <-.
  apply M_bind_Ok in Hc as (u & m1 & Hm & Hc). unfold modify in Hm. injection Hm as <-.
  unfold mret, M_ret in Hc. injection Hc as <- <-.
  exists name, (mkTypedConsumer (Some c) (JStr f) (fill_defaults config (as_dict req2))), f.
  split_and!; try done.
Qed.

Lemma create_consumer_error config starts new urljoin group data m m' e :
  create_consumer config starts new urljoin group data m = (m', Raise e) -> m' = m.
Proof.
  unfold create_consumer. cbn zeta. intros Hc.
  repeat match goal with
  | Hx : mbind _ _ _ = (_, Raise _) |- _ =>
      apply M_bind_inv in Hx as [(? & ? & Hm & Hx)|(? & Hm & ?)]
  | Hx : gets _ _ = _ |- _ => injection Hx as <- <- || discriminate Hx
  | Hx : lift _ _ = (_, Ok _) |- _ => unfold lift in Hx; injection Hx as <- ?
  | Hx : lift _ _ = (_, Raise _) |- _ => unfold lift in Hx; injection Hx as <- ?; done
  | Hx : (if ?b then _ else _) _ = _ |- _ => destruct b
  | Hx : raise _ _ = _ |- _ => unfold raise in Hx; injection Hx as <- _; done
  | Hx : modify _ _ = _ |- _ => unfold modify in Hx; injection Hx as <- || discriminate Hx
  | Hx : mret _ _ = (_, Raise _) |- _ => discriminate Hx
  end; discriminate.
Qed.

Lemma create_dict config starts new urljoin group data : steps dict_ok (create_consumer config starts new urljoin group data).
Proof.
  intros m Hm. destruct (create_consumer _ _ _ _ _ _ m) as [m' [r|e]] eqn:E.
  - apply create_consumer_ok in E as (name & tc & f & _ & _ & -> & _). by apply dwf_dset.
  - by apply create_consumer_error in E as ->.
Qed.

(** ** Subscription and assignment *)

Lemma subscribed_not_assigned name partitions m tc k :
  dget name (consumers m) = Some tc -> tc_consumer tc = Some k -> kc_subscription k ≠ [] ->
  set_assignments_locked name partitions m =
    (set_consumers (dset name tc (consumers m)) m, Raise (error_response CONFLICT ILLEGAL_STATE)).
Proof.
  intros Hn Hk Hs. unfold set_assignments_locked, catch, on_consumer, the_consumer, mbind, M_bind, gets, lift, dindex.
  rewrite Hn. unfold run_in_executor, assign, mbind, M_bind, gets. rewrite Hk.
  destruct (kc_subscription k) as [|t ts] eqn:E; [done|]. unfold raise. simpl.
  destruct tc as [tck f cf]; simpl in *. by subst tck.
Qed.
End Spec.

(** ** Fetching *)

(** What the client has delivered so far, as seen from outside: a [consume] adds what it returns. *)
Class ConsumeLog (C : Type) `{!ConfluentConsumer C} : Type := {
  delivered : C -> list Message;
  delivered_consume n t c c' events messages :
    client_consume n t c = (c', events, inl messages) -> delivered c' = delivered c ++ messages;
}.

Definition total_bytes (l : list Message) : Z := fold_right (fun m n => message_bytes m + n) 0 l.

Lemma total_bytes_app l1 l2 : total_bytes (l1 ++ l2) = total_bytes l1 + total_bytes l2.
Proof. unfold total_bytes. induction l1; simpl; lia. Qed.

(** All but the last message are below the limit. *)
Definition within (max_bytes : Z) (l : list Message) : Prop := l ≠ [] -> total_bytes (removelast l) < max_bytes.

Section Fetch.
Context `{!ForCode} {C : Type} `{!ConfluentConsumer C}.

Lemma take_messages_spec max_bytes messages rb cm rb' cm' : rb < max_bytes -> rb = total_bytes cm ->
  take_messages max_bytes messages rb cm = Ok (rb', cm') -> within max_bytes cm ->
  exists taken dropped, messages = taken ++ dropped /\ cm' = cm ++ taken /\ rb' = total_bytes cm' /\
    (dropped ≠ [] -> max_bytes <= rb') /\ within max_bytes cm' /\ Forall (fun m => msg_error m = None) taken.
Proof.
  revert rb cm. induction messages as [|m messages IH]; intros rb cm Hlt Hrb Ht Hw; simpl in Ht.
  - simplify_eq. exists [], []. rewrite app_nil_r. split_and!; first [done|by rewrite app_nil_r|by intros []|by apply Forall_nil_2].
  - destruct (msg_error m) eqn:Em; [done|].
    assert (Hnext : rb + message_bytes m = total_bytes (cm ++ [m])) by (rewrite total_bytes_app; simpl; lia).
    assert (Hwn : within max_bytes (cm ++ [m])) by (intros _; rewrite removelast_last; lia).
    destruct (Z.leb_spec max_bytes (rb + message_bytes m)).
    + simplify_eq. exists [m], messages. split_and!; try done. by repeat constructor.
    + destruct (IH (rb + message_bytes m) (cm ++ [m]) ltac:(lia) Hnext Ht Hwn) as (taken & dropped & -> & -> & Hr & Hd & Hw' & Hf).
      exists (m :: taken), dropped. rewrite <- app_assoc in *. split_and!; try done. by constructor.
Qed.

(** What one [consume] gives the loop. *)
Lemma consume_batch_Ok max_bytes n timeout rb cm k k' got :
  consume_batch max_bytes n timeout rb cm (Some k) = (k', Ok got) ->
  exists c' events messages k1, client_consume n timeout (kc_client k) = (c', events, inl messages) /\
    k' = Some k1 /\ kc_client k1 = c' /\
    match got with
    | None => messages = []
    | Some (rb', cm') => take_messages max_bytes messages rb cm = Ok (rb', cm')
    end.
Proof.
  unfold consume_batch, catch, mbind, M_bind, run_in_executor, consume, lift.
  destruct (client_consume n timeout (kc_client k)) as [[c' events] [messages|e]]; [|done].
  destruct messages as [|x messages].
  - intros [= <- <-]. by do 4 eexists.
  - destruct (take_messages max_bytes (x :: messages) rb cm) as [[rb' cm']|e] eqn:E; [|done].
    intros [= <- <-]. by do 4 eexists.
Qed.

Context `{!ConsumeLog C}.
Definition log_of (k : option (KafkaConsumer C)) : list Message :=
  match k with Some k => delivered (kc_client k) | None => [] end.

(** The result of the loop: a prefix of what was delivered since. *)
Definition fetched (max_bytes : Z) (before after : option (KafkaConsumer C)) (start : list Message) (r : Z * list Message) : Prop :=
  r.1 = total_bytes r.2 /\ within max_bytes r.2 /\
  exists taken dropped, r.2 = start ++ taken /\ log_of after = log_of before ++ taken ++ dropped /\
    (dropped ≠ [] -> max_bytes <= r.1) /\ Forall (fun m => msg_error m = None) taken.

Lemma fetch_loop_fetched clock end_time max_bytes fuel t rb cm first k k' r :
  rb = total_bytes cm -> within max_bytes cm ->
  fetch_loop fuel clock end_time max_bytes t rb cm first (Some k) = (k', Ok r) ->
  fetched max_bytes (Some k) k' cm r.
Proof.
  revert t rb cm first k. induction fuel as [|fuel IH]; intros t rb cm first k Hrb Hw; [done|]. cbn [fetch_loop].
  assert (Hstop : forall k1, log_of k1 = log_of (Some k) -> fetched max_bytes (Some k) k1 cm (rb, cm)).
  { intros k1 Hk1. split_and!; [done..|]. exists [], []. rewrite !app_nil_r. split_and!; first [done|by rewrite app_nil_r|by intros []|by apply Forall_nil_2]. }
  destruct (Z.ltb_spec rb max_bytes) as [Hlt|Hge]; simpl.
  2:{ intros [= <- <-]. by apply Hstop. }
  destruct (Qle_bool end_time (clock t)); simpl; [intros [= <- <-]; by apply Hstop|].
  intros (n & k0 & Hn & Hl)%M_bind_Ok. unfold lift in Hn. injection Hn as <- Hn.
  apply M_bind_Ok in Hl as (got & k1 & Hb & Hl).
  apply consume_batch_Ok in Hb as (c' & events & messages & k2 & Hc & -> & <- & Hg).
  pose proof (delivered_consume _ _ _ _ _ _ Hc) as Hlog.
  destruct got as [[rb' cm']|].
  - destruct (take_messages_spec _ _ _ _ _ _ Hlt Hrb Hg Hw) as (taken & dropped & -> & -> & Hr' & Hd & Hw' & Hf).
    pose proof (IH _ _ _ _ _ Hr' Hw' Hl) as (Hr & Hwr & taken2 & dropped2 & Hr2 & Hlog2 & Hd2 & Hf2).
    split_and!; [done..|].
    destruct (decide (dropped = [])) as [->|Hne].
    + exists (taken ++ taken2), dropped2. rewrite app_nil_r in *. simpl in *. rewrite Hlog2, Hlog, <- !app_assoc.
      split_and!; [|done|done|by apply Forall_app]. by rewrite Hr2, app_assoc.
    + assert (Hdone : fuel = 0%nat \/ r = (rb', cm ++ taken) /\ k' = Some k2).
      { destruct fuel; [by left|right]. cbn [fetch_loop] in Hl.
        rewrite (proj2 (Z.ltb_ge rb' max_bytes)) in Hl by auto. by injection Hl as <- <-. }
      destruct Hdone as [->|[-> ->]]; [done|]. exists taken, dropped. simpl. rewrite Hlog. by split_and!.
  - subst messages. rewrite app_nil_r in Hlog. destruct cm as [|m cm].
    + pose proof (IH _ _ _ _ _ Hrb Hw Hl) as (Hr & Hwr & taken & dropped & Hr2 & Hlog2 & Hd & Hf).
      split_and!; [done..|]. exists taken, dropped. simpl in *. by rewrite Hlog2, Hlog.
    + injection Hl as <- <-. by apply Hstop.
Qed.

(** The client and [for_code] do not raise the error that stands for an exhausted bound. *)
Definition quiet : Prop :=
  (forall code, for_code code ≠ RecursionError) /\
  (forall n t c, (client_consume n t c).2 ≠ inr (ClientError RecursionError)).

Lemma consume_batch_quiet max_bytes n timeout rb cm : quiet ->
  raises (fun e => e ≠ RecursionError) (consume_batch (C := C) max_bytes n timeout rb cm).
Proof.
  intros [Hf Hc]. unfold consume_batch. apply raises_catch with (P := fun e => e ≠ RecursionError).
  - intros [k|] e; [|by intros [= <-]]. unfold mbind, M_bind, run_in_executor, consume, lift.
    specialize (Hc n timeout (kc_client k)). destruct (client_consume n timeout (kc_client k)) as [[c' ev] [ms|er]]; simpl.
    + destruct ms as [|x ms]; [done|].
      assert (Ht : forall l rb cm, raises_res (fun e => e ≠ RecursionError) (take_messages max_bytes l rb cm)).
      { clear -Hf. induction l as [|x l IH]; intros rb cm; simpl; [done|]. destruct (msg_error x) as [code|].
        - intros e [= <-]. destruct code; simpl; try done; apply Hf.
        - by destruct (max_bytes <=? rb + message_bytes x). }
      destruct (take_messages max_bytes (x :: ms) rb cm) eqn:E; [done|]. intros [= <-]. by apply (Ht _ _ _ _ E).
    + intros [= <-]. destruct er as [[[]|] ?|e0]; simpl in *; try done. congruence.
  - intros e He s e' [= <-]. destruct e; simpl; try done.
Qed.

Lemma fetch_loop_ends clock end_time max_bytes i fuel t rb cm first k : quiet ->
  (i < fuel)%nat -> Qle_bool end_time (clock (t + 2 * i)%nat) = true ->
  (fetch_loop fuel clock end_time max_bytes t rb cm first k).2 ≠ Raise RecursionError.
Proof.
  intros Hq. revert i t rb cm first k. induction fuel as [|fuel IH]; intros i t rb cm first k Hi Hend; [lia|].
  cbn [fetch_loop]. destruct (rb <? max_bytes); simpl; [|done].
  destruct (Qle_bool end_time (clock t)) eqn:Et; simpl; [done|].
  destruct i as [|i]; [rewrite Nat.add_0_r in Hend; congruence|].
  replace (t + 2 * S i)%nat with (t + 2 + 2 * i)%nat in Hend by lia.
  unfold mbind at 1, M_bind at 1, lift at 1. unfold estimated_messages_needed.
  destruct (match cm with [] => _ | _ => _ end) as [n|e] eqn:En.
  2:{ destruct cm; [done|]. destruct (rb =? 0); simplify_eq/=. congruence. }
  unfold mbind, M_bind.
  pose proof (consume_batch_quiet max_bytes n (consume_timeout first (end_time - clock (S t))) rb cm Hq k) as Hb.
  destruct (consume_batch _ _ _ _ _ k) as [k1 [got|e]]; simpl in *.
  - destruct got as [[rb' cm']|]; [by apply (IH i); [lia|]|]. destruct cm; [by apply (IH i); [lia|]|done].
  - intros [= ->]. by apply (Hb RecursionError).
Qed.
End Fetch.

(** A client that delivers a script of outcomes and keeps what it delivered. *)
Record Script : Type := mkScript { outcomes : list (list Message + option KafkaErrorCode); past : list Message }.

#[global] Instance scripted : ConfluentConsumer Script := {|
  client_consume _ _ c :=
    match outcomes c with
    | [] => (c, [], inl [])
    | inl l :: rest => (mkScript rest (past c ++ l), [], inl l)
    | inr e :: rest => (mkScript rest (past c), [], inr (KafkaExceptionOf e EmptyString))
    end;
  client_commit _ _ c := (c, inl ());
  client_committed l c := (c, inl (map Some l));
  client_subscribe _ c := (c, inl ());
  client_unsubscribe c := (c, inl ());
  client_assign _ c := (c, inl ());
  client_assignment c := (c, inl []);
  client_seek _ c := (c, inl ());
  client_watermark_offsets _ c := (c, inl None);
  client_close c := (c, inl ());
|}.

#[global] Instance scripted_log : ConsumeLog Script.
Proof.
  refine {| delivered := past |}. intros n t c c' events messages. simpl.
  destruct (outcomes c) as [|[l|e] rest]; intros [= <- <- <-]; simpl; by rewrite ?app_nil_r.
Defined.

#[global] Instance sample_for_code : ForCode := fun _ => KafkaError.
#[global] Instance sample_topic_partition : NewTopicPartition := fun t p o =>
  match t, p, o with
  | JStr t, JInt p, JInt o => Ok (mkTP t p o)
  | JStr t, JInt p, JNull => Ok (mkTP t p (-1001))
  | _, _, _ => Raise TypeError
  end.

Definition sample_message (v : bytes) : Message :=
  mkMessage None None (Some v) (JStr "t") (JInt 0) (JInt 0) (CREATE_TIME, 5).
Definition sample_config : ProxyConfig := mkProxyConfig true 1000 1 10000 67108864 "http://localhost:8082/".

(** ** Properties *)

(** C22. A fetch ends as soon as a reading of the clock at the head of its loop has reached the end time,
    and what it then returns is, in order, what the Kafka client delivered while it ran: the size is the
    sum of the sizes of the messages, without the last message it is below the limit, none of them is an
    error, and messages that were delivered are missing only behind the one that reached the limit. *)
Theorem fetch_returns_delivered `{!ForCode} {C : Type} `{!ConfluentConsumer C} `{!ConsumeLog C}
  clock end_time max_bytes fuel i (k : KafkaConsumer C) : quiet (C := C) ->
  (i < fuel)%nat -> Qle_bool end_time (clock (1 + 2 * i)%nat) = true ->
  match fetch_loop fuel clock end_time max_bytes 1 0 [] true (Some k) with
  | (k', Ok (read_bytes, consumed)) =>
      read_bytes = total_bytes consumed /\ (consumed ≠ [] -> total_bytes (removelast consumed) < max_bytes) /\
      Forall (fun m => msg_error m = None) consumed /\
      exists dropped, log_of k' = log_of (Some k) ++ consumed ++ dropped /\ (dropped ≠ [] -> max_bytes <= read_bytes)
  | (_, Raise e) => e ≠ RecursionError
  end.
Proof.
  intros Hq Hi Hend. pose proof (fetch_loop_ends clock end_time max_bytes i fuel 1 0 [] true (Some k) Hq Hi Hend) as He.
  destruct (fetch_loop _ _ _ _ _ _ _ _ _) as [k' [[rb cm]|e]] eqn:E; [|simpl in He; congruence].
  apply fetch_loop_fetched in E as (Hr & Hw & taken & dropped & Hc & Hl & Hd & Hf); [|done|by intros []]. simpl in *. subst cm.
  split_and!; try done. eauto.
Qed.

Lemma fetch_returns_delivered_witness :
  let k := mkConsumer (mkScript [inl []; inl [sample_message [x01; x02]]; inl [sample_message [x03]; sample_message [x04]]] []) [] in
  let clock n := inject_Z (Z.of_nat n) in
  match fetch_loop 10 clock 9 3 1 0 [] true (Some k) with
  | (k', Ok (read_bytes, consumed)) =>
      read_bytes = total_bytes consumed /\ (consumed ≠ [] -> total_bytes (removelast consumed) < 3) /\
      Forall (fun m => msg_error m = None) consumed /\
      exists dropped, log_of k' = log_of (Some k) ++ consumed ++ dropped /\ (dropped ≠ [] -> 3 <= read_bytes)
  | (_, Raise e) => e ≠ RecursionError
  end.
Proof.
  intros k clock. apply (fetch_returns_delivered clock 9 3 10 4 k).
  - split; [done|]. intros n t c. simpl. destruct (outcomes c) as [|[l|e] rest]; simpl; congruence.
  - lia.
  - reflexivity.
Defined.

(** C29. A request that names a consumer changes no other: whatever it is and however it ends, the same
    consumers exist in the same order, all others are as they were, and the named one keeps its format and
    its configuration; when there is no such consumer nothing changes and the answer is 404 with the code
    40403. Deleting a consumer removes it and nothing else. *)
Theorem requests_touch_one_consumer `{!SchemaLib} `{!DataLib} `{!NewTopicPartition} `{!ForCode} {C : Type}
  `{!ConfluentConsumer C} name r (m : ConsumerManager C) :
  touches name m (handle name r m).1 /\
  (dget name (consumers m) = None -> handle name r m = (m, Raise (HTTPResponse 404 (Some 40403)))) /\
  delete_consumer name m =
    if din name (consumers m) then (set_consumers (ddel name (consumers m)) m, Ok (204, JObj []))
    else (m, Raise (HTTPResponse 404 (Some 40403))).
Proof.
  split_and!.
  - apply handle_touches.
  - apply handle_unknown.
  - unfold delete_consumer, delete_consumer_locked, assert_consumer_exists, mbind, M_bind, gets, din.
    by destruct (dget name (consumers m)) eqn:E; simpl; rewrite ?E.
Qed.

(** Creating a consumer adds it at the end, under a name that was free, with one of the known formats
    and a started Kafka consumer; when the name is taken the answer is 409 with the code 40902, and a
    request that fails for whatever reason changes nothing. *)
Theorem create_consumer_spec `{!SchemaLib} `{!DataLib} {C : Type} config starts new urljoin group data
  (m : ConsumerManager C) :
  (forall n, n = jget "name" data -> truthy n = true -> din (strip_slashes group, n) (consumers m) = true ->
     create_consumer config starts new urljoin group data m = (m, Raise (HTTPResponse 409 (Some 40902)))) /\
  match create_consumer config starts new urljoin group data m with
  | (m', Ok (status, _)) => exists name tc f, status = 200 /\ dget name (consumers m) = None /\
      name.1 = strip_slashes group /\ consumers m' = consumers m ++ [(name, tc)] /\
      serialization_format tc = JStr f /\ f ∈ KNOWN_FORMATS /\ is_Some (tc_consumer tc)
  | (m', Raise _) => m' = m
  end.
Proof.
  split.
  - intros n -> Ht Hin. unfold create_consumer, mbind at 1, M_bind at 1, gets. simpl. by rewrite Ht, Hin.
  - destruct (create_consumer _ _ _ _ _ _ m) as [m' [[status body]|e]] eqn:E; [|by eapply create_consumer_error].
    apply create_consumer_ok in E as (name & tc & f & Hs & Hn & -> & Hg & Hf & Hk & Hc).
    exists name, tc, f. split_and!; try done. simpl.
    rewrite <- (dsetdefault_absent name tc _ Hn). unfold dsetdefault, din. by rewrite Hn.
Qed.
