(* ===== verification/Controller.v ===== *)
(** * The controller of the registry's REST API

    [api/controller.py] over the registry of [Registry.v], with the error codes of
    [api/routers/errors.py], the request and response models of [api/routers/requests.py] and
    [api/forward_client.py]. An error response is the exception [HTTPException] with its status and
    error code; the texts of messages are not modelled. A handler that only reads is a function of
    the registry's state, one that may write a stateful computation on it.

    Parameters: [ControllerLib] (equality of parsed schema objects, [json.loads], the protobuf
    serialisation, pydantic's [parse_raw]) and [Remote], the primary a request is forwarded to. *)

From stdpp Require Import sorting.
From S2P Require Import Prelude Json Typing Models Schemas Database Reader Compat Registry Auth.
Open Scope Z_scope.

(** ** Error codes *)

Inductive SchemaErrorCodes : Type :=
  | HTTP_BAD_REQUEST | HTTP_NOT_FOUND | HTTP_CONFLICT | HTTP_UNPROCESSABLE_ENTITY
  | HTTP_INTERNAL_SERVER_ERROR | SUBJECT_NOT_FOUND | VERSION_NOT_FOUND | SCHEMA_NOT_FOUND
  | SUBJECT_SOFT_DELETED | SUBJECT_NOT_SOFT_DELETED | SCHEMAVERSION_SOFT_DELETED
  | SCHEMAVERSION_NOT_SOFT_DELETED | SUBJECT_LEVEL_COMPATIBILITY_NOT_CONFIGURED_ERROR_CODE
  | INVALID_VERSION_ID | INVALID_COMPATIBILITY_LEVEL | INVALID_SCHEMA | INVALID_SUBJECT
  | SCHEMA_TOO_LARGE_ERROR_CODE | REFERENCES_SUPPORT_NOT_IMPLEMENTED | REFERENCE_EXISTS
  | NO_MASTER_ERROR.

Definition error_code_value (c : SchemaErrorCodes) : Z :=
  match c with
  | HTTP_BAD_REQUEST => 400
  | HTTP_NOT_FOUND => 404
  | HTTP_CONFLICT => 409
  | HTTP_UNPROCESSABLE_ENTITY => 422
  | HTTP_INTERNAL_SERVER_ERROR => 500
  | SUBJECT_NOT_FOUND => 40401
  | VERSION_NOT_FOUND => 40402
  | SCHEMA_NOT_FOUND => 40403
  | SUBJECT_SOFT_DELETED => 40404
  | SUBJECT_NOT_SOFT_DELETED => 40405
  | SCHEMAVERSION_SOFT_DELETED => 40406
  | SCHEMAVERSION_NOT_SOFT_DELETED => 40407
  | SUBJECT_LEVEL_COMPATIBILITY_NOT_CONFIGURED_ERROR_CODE => 40408
  | INVALID_VERSION_ID => 42202
  | INVALID_COMPATIBILITY_LEVEL => 42203
  | INVALID_SCHEMA => 42201
  | INVALID_SUBJECT => 42208
  | SCHEMA_TOO_LARGE_ERROR_CODE => 42209
  | REFERENCES_SUPPORT_NOT_IMPLEMENTED => 44302
  | REFERENCE_EXISTS => 42206
  | NO_MASTER_ERROR => 50003
  end.

(** [HTTPException(status_code=..., detail={"error_code": ..., ...})] *)
Definition http_error (status : Z) (code : SchemaErrorCodes) : exn :=
  HTTPException status (Some (error_code_value code)).

Definition no_primary_url_error : exn := http_error 500 NO_MASTER_ERROR.
Definition unauthorized : exn := HTTPException 403 None.

(** ** Requests and responses *)

Record SchemaReference : Type := mkSchemaReference {
  sr_name : string;
  sr_subject : Subject;
  sr_version : Z;
}.

Record SchemaRequest : Type := mkSchemaRequest {
  req_schema : string;
  req_type : SchemaType;
  req_references : option (list SchemaReference);
}.

(** [str.strip() == ""] *)
Definition is_blank (s : string) : bool := String.eqb (lstrip s) EmptyString.

(** The validator of [schema]: its two tests are joined by [and]. *)
Definition validate_schema (schema_str : string) : result string :=
  if String.eqb schema_str EmptyString && is_blank schema_str then Raise (KarapaceValidationError 42201)
  else Ok schema_str.

Record SchemaResponse : Type := mkSchemaResponse {
  resp_subject : Subject;
  resp_version : Z;
  resp_id : SchemaId;
  resp_schema : string;
  resp_type : option SchemaType;
}.

Record SchemasResponse : Type := mkSchemasResponse {
  ss_schema : string;
  ss_subjects : option (list Subject);
  ss_type : option SchemaType;
  ss_references : option (list json);
  ss_max_id : option Z;
}.

Record SchemaListingItem : Type := mkListing {
  li_subject : Subject;
  li_schema : string;
  li_version : Z;
  li_id : SchemaId;
  li_type : SchemaType;
  li_references : option (list json);
}.

Record SubjectSchemaVersionResponse : Type := mkSubjectVersionResponse {
  sv_resp_subject : json;
  sv_resp_version : json;
  sv_resp_id : json;
  sv_resp_schema : json;
  sv_resp_references : json;
  sv_resp_type : json;
}.

(** [[r.to_dict() for r in references]] when there are any *)
Definition references_dicts (references : option (list Reference)) : option (list json) :=
  match references with
  | Some (r :: rs) => Some (map reference_to_dict (r :: rs))
  | _ => None
  end.

(** The type, left out for Avro. *)
Definition type_unless_avro (t : SchemaType) : option SchemaType :=
  if bool_decide (t = AVRO) then None else Some t.

Class ControllerLib : Type := {
  (** [self.schema == other.schema] on the objects of the Avro library, the JSON Schema validator
      and the protobuf parser *)
  parsed_object_eq : TypedSchema -> TypedSchema -> bool;
  (** [json.loads]; [json_decode(_, dict)] *)
  json_loads : string -> result json;
  (** [ProtobufSchema.serialize] *)
  protobuf_serialize : TypedSchema -> result string;
  (** [SchemaIdResponse.parse_raw], [CompatibilityResponse.parse_raw] *)
  parse_raw_schema_id : string -> result Z;
  parse_raw_compatibility : string -> result string;
}.

(** ** ForwardClient *)

Record Request : Type := mkRequest {
  method : string;
  url_path : string;
  url_query : string;
  headers : list (string * string);
  body : string;
}.

(** The answer of the primary: status and body; a lost connection or the timeout raises. *)
Class Remote : Type := {
  remote : string -> string -> dict string string -> string -> result (Z * string);
}.

Definition HEADERS_TO_FORWARD : list string := ["authorization"; "content-type"; "traceparent"]%string.

Definition lower_ascii (c : ascii) : ascii :=
  let n := Ascii.nat_of_ascii c in
  if ((65 <=? n) && (n <=? 90))%nat then Ascii.ascii_of_nat (n + 32) else c.
Fixpoint lower (s : string) : string :=
  match s with EmptyString => EmptyString | String c s => String (lower_ascii c) (lower s) end.

Definition forwardable_headers (request : Request) : dict string string :=
  fold_left (fun d kv => if existsb (String.eqb (lower kv.1)) HEADERS_TO_FORWARD then dset kv.1 kv.2 d else d)
    (headers request) [].

Definition forward_url (request : Request) (primary_url : string) : string :=
  let url := (primary_url +:+ url_path request)%string in
  if String.eqb (url_query request) EmptyString then url else (url +:+ "?" +:+ url_query request)%string.

Section Forward.
Context `{!ControllerLib} `{!Remote}.

(** [_forward_request_remote] *)
Definition forward_raw (request : Request) (primary_url : string) : result (Z * string) :=
  remote (method request) (forward_url request primary_url) (forwardable_headers request) (body request).

(** The [error_code] of an error body; a code that is no integer is passed on as it is, here [None]. *)
Definition forwarded_code (status : Z) (error_data : list (string * json)) : option Z :=
  match dget "error_code"%string error_data with
  | None => Some status
  | Some (JInt z) => Some z
  | Some _ => None
  end.

(** An error status becomes an [HTTPException], whatever its body; a body that is no object has no
    [get], and that is not caught. *)
Definition forward_error (status : Z) (body : string) : exn :=
  match json_loads body with
  | Ok (JObj d) => HTTPException status (forwarded_code status d)
  | Ok _ => AttributeError
  | Raise e => if is_value_error e || bool_decide (e = TypeError) then HTTPException status (Some status) else e
  end.

(** [response_type] is the reading of a successful body. *)
Definition forward_request_remote {A} (request : Request) (primary_url : string)
  (response_type : string -> result A) : result A :=
  '(response_status, body) ← forward_raw request primary_url;
  if 400 <=? response_status then Raise (forward_error response_status body)
  else response_type body.

(** [int(body)] *)
Definition int_body (body : string) : result Z :=
  match py_int body with Some z => Ok z | None => Raise ValueError end.
(** [json_decode(body, assume_type=list[int])], whose type is not checked *)
Definition json_body (body : string) : result json := json_loads body.
End Forward.

(** ** Which HTTP error an exception becomes

    One function per [try] of the controller; what a [try] does not catch passes unchanged. *)

Definition subject_not_found : exn := http_error 404 SUBJECT_NOT_FOUND.
(** [_invalid_version] *)
Definition invalid_version : exn := http_error 422 INVALID_VERSION_ID.

Definition subject_get_error (e : exn) : exn :=
  match e with SubjectNotFoundException | SchemasNotFoundException => subject_not_found | _ => e end.

(** [subject_version_get], [subject_version_schema_get] and [subject_version_referencedby_get] *)
Definition version_get_error (e : exn) : exn :=
  match e with
  | SubjectNotFoundException | SchemasNotFoundException => subject_not_found
  | VersionNotFoundException => http_error 404 VERSION_NOT_FOUND
  | InvalidVersion => invalid_version
  | _ => e
  end.

Definition subject_delete_error (e : exn) : exn :=
  match e with
  | SubjectNotFoundException | SchemasNotFoundException => subject_not_found
  | SubjectNotSoftDeletedException => http_error 404 SUBJECT_NOT_SOFT_DELETED
  | SubjectSoftDeletedException => http_error 404 SUBJECT_SOFT_DELETED
  | ReferenceExistsException _ _ => http_error 422 REFERENCE_EXISTS
  | _ => e
  end.

Definition version_delete_error (e : exn) : exn :=
  match e with
  | SubjectNotFoundException | SchemasNotFoundException => subject_not_found
  | VersionNotFoundException => http_error 404 VERSION_NOT_FOUND
  | SchemaVersionSoftDeletedException => http_error 404 SCHEMAVERSION_SOFT_DELETED
  | SchemaVersionNotSoftDeletedException => http_error 404 SCHEMAVERSION_NOT_SOFT_DELETED
  | ReferenceExistsException _ _ => http_error 422 REFERENCE_EXISTS
  | InvalidVersion => invalid_version
  | _ => e
  end.

Definition new_schema_error (e : exn) : exn :=
  match e with
  | InvalidSchema => http_error 422 INVALID_SCHEMA
  | InvalidReferences => http_error 400 INVALID_SCHEMA
  | _ => e
  end.
Definition old_schema_error (e : exn) : exn :=
  match e with InvalidSchema | InvalidReferences => http_error 422 INVALID_SCHEMA | _ => e end.
Definition posted_schema_error (e : exn) : exn :=
  match e with
  | InvalidReferences | InvalidSchema | InvalidSchemaType => http_error 422 INVALID_SCHEMA
  | _ => e
  end.
Definition stored_schema_error (e : exn) : exn :=
  match e with InvalidSchema => http_error 500 HTTP_INTERNAL_SERVER_ERROR | _ => e end.
Definition write_error (e : exn) : exn :=
  match e with
  | InvalidSchema => http_error 422 INVALID_SCHEMA
  | IncompatibleSchema => http_error 409 HTTP_CONFLICT
  | SchemaTooLargeException => http_error 422 SCHEMA_TOO_LARGE_ERROR_CODE
  | _ => e
  end.
(** [CompatibilityModes(...)] of a request *)
Definition level_error (e : exn) : exn :=
  if is_value_error e || bool_decide (e = KeyError) then http_error 422 INVALID_COMPATIBILITY_LEVEL else e.
(** [SchemaId(int(schema_id))] *)
Definition parse_schema_id (schema_id : string) : result SchemaId :=
  match py_int schema_id with Some z => Ok z | None => Raise (http_error 404 HTTP_NOT_FOUND) end.

Section Controller.
Context {bytes : Type} `{!JsonCodec bytes} `{!SchemaLib} `{!Checkers} `{!AuthLib} `{!ControllerLib} `{!Remote}.
Context (env : Env bytes) (recursion_limit : nat).
(** [config.use_protobuf_formatter], and the authorizer of the installation *)
Context (use_protobuf_formatter : bool) (authorizer : Authorizer).

Abbreviation State := (KarapaceSchemaRegistry bytes) (only parsing).

Definition subject_resource (subject : Subject) : string := ("Subject:" +:+ subject)%string.
Definition may_read (user : option User) (subject : Subject) : bool :=
  authorizer_check authorizer user Read (subject_resource subject).

(** [_subject_get] *)
Definition checked_subject_get (st : State) (subject : Subject) (include_deleted : bool)
  : result (dict Version SchemaVersion) :=
  map_raise subject_get_error (subject_get (db_of st) subject include_deleted).

(** ** References of a request *)

Definition validate_reference (reference : SchemaReference) : result AnyReference :=
  version ← Versioner_V (TagInt (sr_version reference));
  if is_latest version then Ok (LatestVersionReference (sr_name reference) (sr_subject reference))
  else Ok (Resolved (mkReference (sr_name reference) (sr_subject reference) version)).

(** [_validate_references] *)
Definition validate_references (request : SchemaRequest) : result (option (list AnyReference)) :=
  match req_references request with
  | None => Ok None
  | Some references =>
      if negb (bool_decide (references = [])) && bool_decide (req_type request = JSONSCHEMA)
      then Raise (http_error 422 REFERENCES_SUPPORT_NOT_IMPLEMENTED)
      else
        validated_references ← map_res validate_reference references;
        Ok (match validated_references with [] => None | _ => Some validated_references end)
  end.

(** ** Looking up and checking schemas *)

Definition get_new_schema (st : State) (request : SchemaRequest) : result TypedSchema :=
  references ← validate_references request;
  map_raise new_schema_error
    ('(references, dependencies) ← registry_resolve_references recursion_limit (db_of st) references;
     parse (req_type request) (req_schema request) true true references dependencies false
       use_protobuf_formatter).

(** [_validate_schema_type] *)
Definition validate_schema_type (data : json) : result SchemaType :=
  match data with
  | JObj d =>
      reraise is_value_error (http_error 422 HTTP_UNPROCESSABLE_ENTITY)
        (schema_type_of_json (jget_default "schemaType" (JStr (schema_type_value AVRO)) d))
  | _ => Raise (http_error 400 HTTP_BAD_REQUEST)
  end.

(** The references of a stored version, which [resolve_references] reads back from their dicts. *)
Definition stored_references (old : list (string * json)) : result (option (list AnyReference)) :=
  match jget "references" old with
  | JList (r :: rs) => Some <$> map_res (fun j =>
      match j with JObj d => reference_from_mapping d | _ => Raise AttributeError end) (r :: rs)
  | j => if truthy j then Raise TypeError else Ok None
  end.

(** [get_old_schema]; the [HTTPException] made for an [InvalidVersion] is not raised there, and the
    assertion that follows fails. *)
Definition get_old_schema (st : State) (subject : Subject) (version : Version) : result TypedSchema :=
  old ← match subject_version_get (db_of st) subject version false with
        | Ok old => Ok old
        | Raise InvalidVersion => Raise AssertionError
        | Raise (VersionNotFoundException | SchemasNotFoundException | SubjectNotFoundException) =>
            Raise (http_error 404 VERSION_NOT_FOUND)
        | Raise e => Raise e
        end;
  old_schema_type ← validate_schema_type (JObj old);
  map_raise old_schema_error
    (old_references ← stored_references old;
     '(references, dependencies) ←
       registry_resolve_references recursion_limit (db_of st) old_references;
     schema ← read_str "schema" old;
     parsed_parse old_schema_type schema references dependencies).

(** The verdict of [POST /compatibility/...]; the messages are left out. *)
Definition compatibility_check (st : State) (subject : Subject) (request : SchemaRequest)
  (version : string) : result bool :=
  compatibility_mode ←
    reraise is_value_error (http_error 500 HTTP_INTERNAL_SERVER_ERROR) (get_compatibility_mode st subject);
  new_schema ← get_new_schema st request;
  old_version ← Versioner_V (TagStr version);
  old_schema ← get_old_schema st subject old_version;
  result ← (if is_transitive compatibility_mode
            then check_schema_compatibility recursion_limit st new_schema subject
            else check_compatibility old_schema new_schema compatibility_mode);
  Ok (negb (is_incompatible result)).

(** ** Schemas *)

Definition listing_item (schema_version : SchemaVersion) : SchemaListingItem :=
  mkListing (sv_subject schema_version) (schema_str (sv_schema schema_version)) (sv_version schema_version)
    (sv_schema_id schema_version) (schema_type (sv_schema schema_version))
    (references_dicts (sv_references schema_version)).

Definition controller_schemas_list (st : State) (user : option User) (deleted latest_only : bool)
  : list SchemaListingItem :=
  concat (map (fun kv => map listing_item kv.2)
    (List.filter (fun kv => may_read user kv.1) (schemas_list (db_of st) deleted latest_only))).

(** [_has_subject_with_id] *)
Definition has_subject_with_id (st : State) (user : option User) (schema_id : SchemaId) : bool :=
  authorizer_check authorizer user Read "Subject:*" ||
  authorizer_check_any authorizer user Read (map subject_resource (subjects_for_schema (db_of st) schema_id)).

Definition controller_schemas_get (st : State) (user : option User) (schema_id : string)
  (fetch_max_id include_subjects : bool) (format_serialized : string) : result SchemasResponse :=
  parsed_schema_id ← parse_schema_id schema_id;
  if negb (has_subject_with_id st user parsed_schema_id) then Raise (http_error 404 SCHEMA_NOT_FOUND)
  else
    match schemas_get (db_of st) parsed_schema_id fetch_max_id with
    | None => Raise (http_error 404 SCHEMA_NOT_FOUND)
    | Some (schema, max_id) =>
        schema_text ←
          (if negb (String.eqb format_serialized EmptyString) && bool_decide (schema_type schema = PROTOBUF)
           then parsed ← parsed_parse (schema_type schema) (schema_str schema) None None;
                protobuf_serialize parsed
           else Ok (schema_str schema));
        Ok (mkSchemasResponse schema_text
              (if include_subjects then Some (subjects_for_schema (db_of st) parsed_schema_id) else None)
              (type_unless_avro (schema_type schema)) (references_dicts (ts_references schema))
              (if fetch_max_id then max_id else None))
    end.

Definition schemas_get_versions (st : State) (user : option User) (schema_id : string) (deleted : bool)
  : result (list (Subject * Z)) :=
  schema_id_int ← parse_schema_id schema_id;
  Ok (List.filter (fun sv => may_read user sv.1)
        (get_subject_versions_for_schema (db_of st) schema_id_int deleted)).

Definition schemas_types : list string := ["JSON"; "AVRO"; "PROTOBUF"]%string.

(** ** Configuration and mode *)

Definition config_get (st : State) : string := compatibility (schema_reader st).

Definition config_set (level : string) : M State string :=
  compatibility_level ← lift (map_raise level_error (mode_of_string level));
  _ ← send_config_message env recursion_limit compatibility_level None;
  gets config_get.

Definition config_subject_get (st : State) (subject : Subject) (default_to_global : bool) : result string :=
  match find_subject (db_of st) subject with
  | None => Raise subject_not_found
  | Some _ =>
      let own := default EmptyString (get_subject_compatibility (db_of st) subject) in
      let level := if String.eqb own EmptyString && default_to_global then config_get st else own in
      if String.eqb level EmptyString
      then Raise (http_error 404 SUBJECT_LEVEL_COMPATIBILITY_NOT_CONFIGURED_ERROR_CODE)
      else Ok level
  end.

Definition config_subject_set (subject : Subject) (level : string) : M State string :=
  compatibility_level ← lift (map_raise level_error (mode_of_string level));
  _ ← send_config_message env recursion_limit compatibility_level (Some subject);
  mret (mode_value compatibility_level).

Definition config_subject_delete (subject : Subject) : M State string :=
  _ ← send_config_subject_delete_message env recursion_limit subject;
  gets config_get.

(** [Mode.readwrite], the only mode *)
Definition get_global_mode : string := "READWRITE".

Definition get_subject_mode (st : State) (subject : Subject) : result string :=
  match find_subject (db_of st) subject with
  | None => Raise subject_not_found
  | Some _ => Ok get_global_mode
  end.

(** ** Subjects *)

Definition controller_subjects_list (st : State) (user : option User) (deleted : bool) : list Subject :=
  List.filter (may_read user) (find_subjects (db_of st) deleted).

Definition subject_delete (subject : Subject) (permanent : bool) : M State (list Z) :=
  catch_map subject_delete_error (subject_delete_local env recursion_limit subject permanent).

Definition controller_subject_version_get (st : State) (subject : Subject) (version : string)
  (deleted : bool) : result SubjectSchemaVersionResponse :=
  map_raise version_get_error
    (v ← Versioner_V (TagStr version);
     subject_data ← subject_version_get (db_of st) subject v deleted;
     Ok (mkSubjectVersionResponse (jget "subject" subject_data) (jget "version" subject_data)
           (jget "id" subject_data) (jget "schema" subject_data) (jget "references" subject_data)
           (jget "schemaType" subject_data))).

Definition subject_version_delete (subject : Subject) (version : string) (permanent : bool)
  : M State Z :=
  catch_map version_delete_error
    (v ← lift (Versioner_V (TagStr version));
     subject_version_delete_local env recursion_limit subject v permanent).

(** The stored text, decoded; a text that is no JSON (a protobuf schema) is not caught. *)
Definition subject_version_schema_get (st : State) (subject : Subject) (version : string)
  : result json :=
  map_raise version_get_error
    (v ← Versioner_V (TagStr version);
     subject_data ← subject_version_get (db_of st) subject v false;
     schema ← read_str "schema" subject_data;
     json_loads schema).

Definition controller_referencedby_get (st : State) (subject : Subject) (version : string)
  : result (list Z) :=
  map_raise version_get_error
    (v ← Versioner_V (TagStr version);
     subject_version_referencedby_get (db_of st) subject v false).

Definition subject_versions_list (st : State) (subject : Subject) (deleted : bool) : result (list Z) :=
  map_raise subject_get_error (dkeys <$> subject_get (db_of st) subject deleted).

(** ** Looking a schema up under a subject *)

(** [ParsedTypedSchema.match] *)
Definition schema_match (a b : TypedSchema) : bool :=
  bool_decide (schema_type a = schema_type b) && parsed_object_eq a b &&
  bool_decide (ts_references a = ts_references b).

(** [TypedSchema.to_dict] *)
Definition to_dict (s : TypedSchema) : result json :=
  if bool_decide (schema_type s = PROTOBUF) then Raise InvalidSchema else json_loads (schema_str s).

(** [schema_valid] *)
Definition same_schema (request_type : SchemaType) (new_schema parsed : TypedSchema) : result bool :=
  if bool_decide (request_type = JSONSCHEMA)
  then a ← to_dict parsed; b ← to_dict new_schema; Ok (py_eq a b)
  else Ok (schema_match new_schema parsed).

(** Latest first. *)
Definition newer_first (a b : SchemaVersion) : Prop := sv_version b <= sv_version a.
#[global] Instance newer_first_dec a b : Decision (newer_first a b).
Proof. unfold newer_first. apply _. Defined.

(** One round of the loop: the stored version, parsed, if it matches. *)
Definition match_version (st : State) (request_type : SchemaType) (normalize : bool)
  (new_schema : TypedSchema) (schema_version : SchemaVersion) : result (option TypedSchema) :=
  '(other_references, other_dependencies) ← registry_resolve_references recursion_limit (db_of st)
     (map Resolved <$> sv_references schema_version);
  parsed ← map_raise stored_schema_error
    (parse (schema_type (sv_schema schema_version)) (schema_str (sv_schema schema_version)) false false
       other_references other_dependencies normalize false);
  schema_valid ← same_schema request_type new_schema parsed;
  Ok (if bool_decide (schema_type parsed = schema_type new_schema) && schema_valid
      then Some parsed else None).

Fixpoint find_matching (st : State) (subject : Subject) (request_type : SchemaType) (normalize : bool)
  (new_schema : TypedSchema) (versions : list SchemaVersion) : result SchemaResponse :=
  match versions with
  | [] => Raise (http_error 404 SCHEMA_NOT_FOUND)
  | schema_version :: versions =>
      found ← match_version st request_type normalize new_schema schema_version;
      match found with
      | Some parsed =>
          Ok (mkSchemaResponse subject (sv_version schema_version) (sv_schema_id schema_version)
                (schema_str parsed) (type_unless_avro request_type))
      | None => find_matching st subject request_type normalize new_schema versions
      end
  end.

(** The schema that is looked up: its references are resolved outside the [try] that parses. *)
Definition parse_looked_up (st : State) (request : SchemaRequest) (normalize : bool) : result TypedSchema :=
  references ← validate_references request;
  '(references, new_schema_dependencies) ←
     registry_resolve_references recursion_limit (db_of st) references;
  map_raise old_schema_error
    (parse (req_type request) (req_schema request) false false references new_schema_dependencies
       normalize use_protobuf_formatter).

Definition subjects_schema_post (st : State) (subject : Subject) (request : SchemaRequest)
  (deleted normalize : bool) : result SchemaResponse :=
  subject_data ← checked_subject_get st subject deleted;
  new_schema ← parse_looked_up st request normalize;
  find_matching st subject (req_type request) normalize new_schema
    (merge_sort newer_first (dvalues subject_data)).

(** ** Registering a schema *)

(** The schema of a request, with the references it was resolved with. *)
Definition parse_posted (st : State) (request : SchemaRequest) (normalize : bool)
  : result (option (list Reference) * TypedSchema) :=
  references ← validate_references request;
  map_raise posted_schema_error
    ('(references, resolved_dependencies) ←
       registry_resolve_references recursion_limit (db_of st) references;
     new_schema ← parse (req_type request) (req_schema request) true true references
       resolved_dependencies normalize use_protobuf_formatter;
     Ok (references, new_schema)).

(** What a node that is not the primary does with a request it cannot serve. *)
Definition forward_or_fail {A} (request : Request) (response_type : string -> result A)
  (primary_info : PrimaryInfo) : result A :=
  match primary_url primary_info with
  | None | Some EmptyString => Raise no_primary_url_error
  | Some url => forward_request_remote request url response_type
  end.

Definition subject_post (subject : Subject) (schema_request : SchemaRequest) (normalize : bool)
  (request : Request) : M State SchemaId := fun st =>
  match parse_posted st schema_request normalize with
  | Raise e => (st, Raise e)
  | Ok (references, new_schema) =>
      match get_schema_id_if_exists sha1 (db_of st) subject new_schema false with
      | Some schema_id => (st, Ok schema_id)
      | None =>
          let primary_info := get_master st in
          if primary primary_info then
            catch_map write_error
              (write_new_schema_local env recursion_limit subject new_schema references) st
          else (st, forward_or_fail request parse_raw_schema_id primary_info)
      end
  end.
End Controller.
