(* ===== verification/Api.v ===== *)
(** * The REST API of the registry

    What a request passes before and after the controller: [api/routers/raw_path_router.py] (the raw
    path, the negotiation of [api/content_type.py]), [api/middlewares] and [api/oidc] (bearer tokens and
    roles), [api/user.py] (the user of a request), the routers of [api/routers] (the permission, who
    serves a write) and [api/http_handlers] (the status and the error code of the response). [Call] has
    a constructor per route, and [dispatch] is the table of the routers. The other parameter of a
    handler is the registry, whose state is the only one there is.

    Parameters: [urllib]'s [unquote_plus], whose UTF-8 decoding leaves the strings of the model, the
    [accept_types] library and the [jwt] library. *)

From S2P Require Import Prelude Json Typing Models Schemas Database Reader Compat Registry Auth Serialization Controller.
Open Scope Z_scope.

Class WebLib : Type := {
  unquote_plus : string -> string;
  (** [accept_types.get_best_match] *)
  get_best_match : string -> list string -> option string;
  (** the key of a token from the JWKS endpoint, then [jwt.decode] with the audiences and the issuer *)
  jwt_decode : string -> option (list string) -> option string -> result (list (string * json));
  (** [MasterAvailabilityResponse.parse_raw] *)
  parse_raw_master_available : string -> result bool;
}.

(** ** The raw path *)

(** [re.sub(r"\?.*", "", path)]: a dot matches no newline. *)
Fixpoint drop_query (skipping : bool) (s : string) : string :=
  match s with
  | EmptyString => EmptyString
  | String c s' =>
      if skipping && negb (Ascii.eqb c (ascii_of_nat 10)) then drop_query true s'
      else if Ascii.eqb c "?" then drop_query true s'
      else String c (drop_query false s')
  end.

(** Without one last slash, unless it is the whole path. *)
Definition drop_last_slash (s : string) : string :=
  if (1 <? String.length s)%nat && String.eqb (String.substring (String.length s - 1) 1 s) "/"
  then String.substring 0 (String.length s - 1) s else s.

(** [RawPathRoute.matches], up to the matching *)
Definition route_path (raw_path : option string) : result string :=
  match raw_path with
  | None => Raise (HTTPException 500 None)
  | Some raw_path => Ok (drop_query false (drop_last_slash raw_path))
  end.

(** ** Content negotiation *)

Definition JSON_CONTENT_TYPE : string := "application/json".
Definition SCHEMA_ACCEPT_VALUES : list string :=
  ["application/vnd.schemaregistry.v1+json"; "application/vnd.schemaregistry+json"; JSON_CONTENT_TYPE]%string.
Definition SCHEMA_CONTENT_TYPES : list string := SCHEMA_ACCEPT_VALUES ++ ["application/octet-stream"%string].
Definition SCHEMA_RESPONSE_DEFAULT_CONTENT_TYPE : string := "application/vnd.schemaregistry.v1+json".

Fixpoint rstrip (s : string) : string :=
  match s with
  | EmptyString => EmptyString
  | String c s' =>
      match rstrip s' with
      | EmptyString => if is_space c then EmptyString else String c EmptyString
      | r => String c r
      end
  end.
Definition strip (s : string) : string := rstrip (lstrip s).

(** The text before the first semicolon outside quotes, as [email.message] splits a header: a
    semicolon at the start always ends it. *)
Fixpoint first_param (start backslash quoted : bool) (s : string) : string :=
  match s with
  | EmptyString => EmptyString
  | String c s' =>
      if Ascii.eqb c ";" && (start || negb quoted) then EmptyString
      else String c (first_param false (Ascii.eqb c (ascii_of_nat 92))
                       (if Ascii.eqb c (ascii_of_nat 34) && negb backslash then negb quoted else quoted) s')
  end.

(** The name of a parameter, in lower case when it has a value. *)
Definition param_name (f : string) : string :=
  match String.index 0 "=" f with
  | Some i => lower (strip (String.substring 0 i f))
  | None => strip f
  end.

(** [message.get_params()[0][0]] of the [Content-Type] header *)
Definition content_type_of (header : option string) : string :=
  param_name (first_param true false false (default JSON_CONTENT_TYPE header)).

Definition in_strings (s : string) (l : list string) : bool := existsb (String.eqb s) l.

(** [headers.get(key)] of a request, whatever the case *)
Definition header (request : Request) (key : string) : option string :=
  snd <$> List.find (fun kv => String.eqb (lower kv.1) (lower key)) (headers request).

Section Api.
Context `{!WebLib}.

Definition negotiate_schema_content_type (request : Request) : result string :=
  if in_strings (method request) ["POST"; "PUT"]%string &&
     negb (in_strings (content_type_of (header request "Content-Type")) SCHEMA_CONTENT_TYPES)
  then Raise (HTTPException 415 None)
  else
    match header request "Accept" with
    | None | Some EmptyString => Ok SCHEMA_RESPONSE_DEFAULT_CONTENT_TYPE
    | Some accept_val =>
        if in_strings accept_val ["*/*"; "*"]%string || String.prefix "*/" accept_val
        then Ok SCHEMA_RESPONSE_DEFAULT_CONTENT_TYPE
        else
          match get_best_match accept_val SCHEMA_ACCEPT_VALUES with
          | None | Some EmptyString => Raise (HTTPException 406 None)
          | Some content_type_match => Ok content_type_match
          end
    end.

(** [http_exception_handler] and [validation_exception_handler]: the status and the error code of
    the response; any other exception is the server's error 500. *)
Definition error_status (e : exn) : Z * option Z :=
  match e with
  | HTTPException status code => (status, code)
  | KarapaceValidationError code => (422, Some code)
  | _ => (500, None)
  end.

(** ** OpenID Connect *)

Record OidcConfig : Type := mkOidc {
  jwks_url : option string;
  issuer : option string;
  audience : option string;
  authorization_enabled : bool;
  client_id : option string;
  method_roles : dict string (list string);
  roles_claim_path : option string;
  skip_auth_paths : list string;
}.

Definition nonempty (s : option string) : bool :=
  match s with None | Some EmptyString => false | Some _ => true end.

(** [OIDCMiddleware.__init__]: the set of methods it finds missing is a set minus itself. *)
Definition oidc_init (config : OidcConfig) : result () :=
  if nonempty (jwks_url config) then
    if negb (nonempty (issuer config)) || negb (nonempty (audience config)) then Raise ValueError
    else if authorization_enabled config &&
            (bool_decide (client_id config = None) || bool_decide (roles_claim_path config = None))
    then Raise (HTTPException 403 None)
    else if authorization_enabled config &&
            negb (bool_decide (List.filter (fun k => negb (in_strings k (dkeys (method_roles config))))
                                 (dkeys (method_roles config)) = []))
    then Raise (HTTPException 500 None)
    else Ok ()
  else Ok ().

(** [s.split(c)] *)
Fixpoint split_char (c : ascii) (s : string) : list string :=
  match s with
  | EmptyString => [EmptyString]
  | String a s' =>
      if Ascii.eqb a c then EmptyString :: split_char c s'
      else match split_char c s' with
           | [] => [String a EmptyString]
           | w :: ws => String a w :: ws
           end
  end.

Definition audiences (config : OidcConfig) : option (list string) :=
  if nonempty (audience config)
  then Some (List.filter (fun a => negb (String.eqb a EmptyString))
               (map strip (split_char "," (default EmptyString (audience config)))))
  else None.

Definition validate_jwt (config : OidcConfig) (token : string) : result (list (string * json)) :=
  if nonempty (jwks_url config) then
    reraise (fun e => bool_decide (e = InvalidTokenError) || bool_decide (e = JWTDecodeError))
      AuthenticationError (jwt_decode token (audiences config) (issuer config))
  else Ok [].

(** The member a path leads to: a value that is no dict breaks the path. *)
Fixpoint walk_claims (value : json) (parts : list string) : json :=
  match parts with
  | [] => value
  | part :: parts => match value with JObj d => walk_claims (jget part d) parts | _ => JList [] end
  end.

Definition get_roles_from_claim_path (payload : list (string * json)) (path : string) : list string :=
  match walk_claims (JObj payload) (split_char "." path) with
  | JList l => default [] (mapM (fun j => match j with JStr s => Some s | _ => None end) l)
  | _ => []
  end.

Definition upper_ascii (c : ascii) : ascii :=
  let n := nat_of_ascii c in
  if ((97 <=? n) && (n <=? 122))%nat then ascii_of_nat (n - 32) else c.
Fixpoint upper (s : string) : string :=
  match s with EmptyString => EmptyString | String c s => String (upper_ascii c) (upper s) end.

Definition authorize_request (config : OidcConfig) (payload : list (string * json))
  (request_method : string) : result () :=
  if negb (authorization_enabled config) then Ok ()
  else
    let allowed_roles := default [] (dget (upper request_method) (method_roles config)) in
    match roles_claim_path config, client_id config with
    | Some path, Some client_id =>
        let user_roles := get_roles_from_claim_path payload (str_replace "[client_id]" client_id path) in
        if existsb (fun role => in_strings role user_roles) allowed_roles then Ok ()
        else Raise (HTTPException 403 None)
    | _, _ => Raise (HTTPException 403 None)
    end.

(** What the middleware does with a request: [call_next], or an error response of this status. The
    split of the header is at its first blank. *)
Definition bearer_token (auth_header : option string) : option string :=
  match auth_header with
  | Some h => if String.prefix "Bearer " h then Some (String.substring 7 (String.length h - 7) h) else None
  | None => None
  end.

Definition DOC_PATHS : list string := ["/docs"; "/docs/oauth2-redirect"; "/redoc"; "/openapi.json"]%string.

Definition set_content_types (config : OidcConfig) (request : Request) : result () :=
  if in_strings (url_path request) DOC_PATHS || in_strings (url_path request) (skip_auth_paths config) then Ok ()
  else if authorization_enabled config then
    match bearer_token (header request "Authorization") with
    | None => Raise (HTTPException 401 None)
    | Some token =>
        payload ← reraise (fun e => bool_decide (e = AuthenticationError)) (HTTPException 401 None)
                    (validate_jwt config token);
        authorize_request config payload (method request)
    end
  else Ok ().

(** ** The user of a request *)

Definition authorizer_authenticate `{!AuthLib} (authorizer : Authorizer) (username password : string)
  : result (option User) :=
  match authorizer with
  | WithFile h => Some <$> authenticate h username password
  | NoAuthAndAuthz => Ok (noauth_authenticate username password)
  end.

Definition get_current_user `{!AuthLib} (authorizer : Authorizer) (credentials : option (string * string))
  : result (option User) :=
  if must_authenticate authorizer && negb (bool_decide (is_Some credentials)) then Raise (HTTPException 401 None)
  else
    let '(username, password) := default (EmptyString, EmptyString) credentials in
    reraise (fun e => bool_decide (e = AuthenticationError)) (HTTPException 401 None)
      (authorizer_authenticate authorizer username password).
End Api.

(** ** The routers *)

(** The body of a response. *)
Inductive ApiResponse : Type :=
  | RSubjects (l : list Subject)
  | RSchema (r : SchemaResponse)
  | RVersions (l : json)
  | RVersion (v : Z)
  | RSchemaId (i : SchemaId)
  | RSubjectVersion (r : SubjectSchemaVersionResponse)
  | RJson (j : json)
  | RIds (l : list Z)
  | RLevel (level : string)
  | RListing (l : list SchemaListingItem)
  | RSchemas (r : SchemasResponse)
  | RSubjectVersions (l : list (Subject * Z))
  | RNames (l : list string)
  | RCompatible (b : bool)
  | RMode (mode : string).

Section Routers.
Context {bytes : Type} `{!JsonCodec bytes} `{!SchemaLib} `{!Checkers} `{!AuthLib} `{!ControllerLib} `{!Remote} `{!WebLib}.
Context (env : Env bytes) (recursion_limit : nat) (use_protobuf_formatter : bool) (authorizer : Authorizer).

Abbreviation State := (KarapaceSchemaRegistry bytes) (only parsing).
Abbreviation Handler := (M State ApiResponse) (only parsing).

(** [if authorizer and not authorizer.check_authorization(...): raise unauthorized()] *)
Definition require (user : option User) (operation : Operation) (res : string) (handler : Handler) : Handler :=
  if authorizer_check authorizer user operation res then handler else raise unauthorized.

(** A read answers from the state. *)
Definition reading (f : State -> result ApiResponse) : Handler := fun st => (st, f st).

(** A write is served by the primary that is ready, and forwarded by the others. *)
Definition on_primary {A} (request : Request) (response_type : string -> result A)
  (respond : A -> ApiResponse) (local : M State A) : Handler := fun st =>
  let primary_info := get_master st in
  let '(st', r) := if primary primary_info then local st
                   else (st, forward_or_fail request response_type primary_info) in
  (st', respond <$> r).

(** *** subjects.py *)

Definition subjects_get (user : option User) (deleted : bool) : Handler :=
  reading (fun st => Ok (RSubjects (controller_subjects_list authorizer st user deleted))).

Definition subjects_subject_post (user : option User) (subject : Subject) (schema_request : SchemaRequest)
  (deleted normalize : bool) : Handler :=
  let subject := unquote_plus subject in
  require user Read (subject_resource subject) (reading (fun st =>
    RSchema <$> subjects_schema_post recursion_limit use_protobuf_formatter st subject schema_request deleted normalize)).

Definition subjects_subject_delete (user : option User) (request : Request) (subject : Subject)
  (permanent : bool) : Handler :=
  let subject := unquote_plus subject in
  require user Write (subject_resource subject)
    (on_primary request json_body RVersions
       (fun st => let '(st', r) := subject_delete env recursion_limit subject permanent st in
                  (st', (fun l => JList (map JInt l)) <$> r))).

Definition subjects_subject_versions_post (user : option User) (request : Request) (subject : Subject)
  (schema_request : SchemaRequest) (normalize : bool) : Handler :=
  let subject := unquote_plus subject in
  require user Write (subject_resource subject) (fun st =>
    let '(st', r) := subject_post env recursion_limit use_protobuf_formatter subject schema_request normalize request st in
    (st', RSchemaId <$> r)).

Definition subjects_subject_versions_list (user : option User) (subject : Subject) (deleted : bool) : Handler :=
  let subject := unquote_plus subject in
  require user Read (subject_resource subject)
    (reading (fun st => RIds <$> subject_versions_list st subject deleted)).

Definition subjects_subject_version_get (user : option User) (subject : Subject) (version : string)
  (deleted : bool) : Handler :=
  let subject := unquote_plus subject in
  require user Read (subject_resource subject)
    (reading (fun st => RSubjectVersion <$> controller_subject_version_get st subject version deleted)).

Definition subjects_subject_version_delete (user : option User) (request : Request) (subject : Subject)
  (version : string) (permanent : bool) : Handler :=
  let subject := unquote_plus subject in
  require user Write (subject_resource subject)
    (on_primary request int_body RVersion (subject_version_delete env recursion_limit subject version permanent)).

Definition subjects_subject_version_schema_get (user : option User) (subject : Subject) (version : string)
  : Handler :=
  let subject := unquote_plus subject in
  require user Read (subject_resource subject)
    (reading (fun st => RJson <$> subject_version_schema_get st subject version)).

Definition subjects_subject_version_referenced_by (user : option User) (subject : Subject) (version : string)
  : Handler :=
  let subject := unquote_plus subject in
  require user Read (subject_resource subject)
    (reading (fun st => RIds <$> controller_referencedby_get st subject version)).

(** *** config.py, mode.py, compatibility.py *)

Definition route_config_get (user : option User) : Handler :=
  require user Read "Config:" (reading (fun st => Ok (RLevel (config_get st)))).

Definition config_put (user : option User) (request : Request) (level : string) : Handler :=
  require user Write "Config:"
    (on_primary request parse_raw_compatibility RLevel (config_set env recursion_limit level)).

Definition config_get_subject (user : option User) (subject : Subject) (default_to_global : bool) : Handler :=
  let subject := unquote_plus subject in
  require user Read (subject_resource subject)
    (reading (fun st => RLevel <$> config_subject_get st subject default_to_global)).

Definition config_set_subject (user : option User) (request : Request) (subject : Subject) (level : string)
  : Handler :=
  let subject := unquote_plus subject in
  require user Write (subject_resource subject)
    (on_primary request parse_raw_compatibility RLevel (config_subject_set env recursion_limit subject level)).

Definition config_delete_subject (user : option User) (request : Request) (subject : Subject) : Handler :=
  let subject := unquote_plus subject in
  require user Write (subject_resource subject)
    (on_primary request parse_raw_compatibility RLevel (config_subject_delete env recursion_limit subject)).

Definition mode_get (user : option User) : Handler :=
  require user Read "Config:" (reading (fun _ => Ok (RMode get_global_mode))).

Definition mode_get_subject (user : option User) (subject : Subject) : Handler :=
  let subject := unquote_plus subject in
  require user Read (subject_resource subject) (reading (fun st => RMode <$> get_subject_mode st subject)).

Definition compatibility_post (user : option User) (subject : Subject) (version : string)
  (schema_request : SchemaRequest) : Handler :=
  let subject := unquote_plus subject in
  require user Read (subject_resource subject)
    (reading (fun st => RCompatible <$>
       compatibility_check recursion_limit use_protobuf_formatter st subject schema_request version)).

(** *** schemas.py *)

Definition schemas_get_list (user : option User) (deleted latest_only : bool) : Handler :=
  reading (fun st => Ok (RListing (controller_schemas_list authorizer st user deleted latest_only))).

Definition route_schemas_get (user : option User) (schema_id : string)
  (include_subjects fetch_max_id : bool) (format_serialized : string) : Handler :=
  reading (fun st => RSchemas <$>
    controller_schemas_get authorizer st user schema_id fetch_max_id include_subjects format_serialized).

Definition route_schemas_get_versions (user : option User) (schema_id : string) (deleted : bool) : Handler :=
  reading (fun st => RSubjectVersions <$> schemas_get_versions authorizer st user schema_id deleted).

Definition schemas_get_subjects_list : Handler := reading (fun _ => Ok (RNames schemas_types)).

(** *** The table of routes *)

Inductive Call : Type :=
  | GetSubjects (deleted : bool)
  | PostSubject (subject : Subject) (schema_request : SchemaRequest) (deleted normalize : bool)
  | DeleteSubject (subject : Subject) (permanent : bool)
  | PostVersion (subject : Subject) (schema_request : SchemaRequest) (normalize : bool)
  | GetVersions (subject : Subject) (deleted : bool)
  | GetVersion (subject : Subject) (version : string) (deleted : bool)
  | DeleteVersion (subject : Subject) (version : string) (permanent : bool)
  | GetVersionSchema (subject : Subject) (version : string)
  | GetReferencedBy (subject : Subject) (version : string)
  | GetConfig
  | PutConfig (level : string)
  | GetSubjectConfig (subject : Subject) (default_to_global : bool)
  | PutSubjectConfig (subject : Subject) (level : string)
  | DeleteSubjectConfig (subject : Subject)
  | GetMode
  | GetSubjectMode (subject : Subject)
  | PostCompatibility (subject : Subject) (version : string) (schema_request : SchemaRequest)
  | GetSchemas (deleted latest_only : bool)
  | GetSchema (schema_id : string) (include_subjects fetch_max_id : bool) (format_serialized : string)
  | GetSchemaVersions (schema_id : string) (deleted : bool)
  | GetTypes.

Definition dispatch (user : option User) (request : Request) (call : Call) : Handler :=
  match call with
  | GetSubjects deleted => subjects_get user deleted
  | PostSubject subject r deleted normalize => subjects_subject_post user subject r deleted normalize
  | DeleteSubject subject permanent => subjects_subject_delete user request subject permanent
  | PostVersion subject r normalize => subjects_subject_versions_post user request subject r normalize
  | GetVersions subject deleted => subjects_subject_versions_list user subject deleted
  | GetVersion subject version deleted => subjects_subject_version_get user subject version deleted
  | DeleteVersion subject version permanent => subjects_subject_version_delete user request subject version permanent
  | GetVersionSchema subject version => subjects_subject_version_schema_get user subject version
  | GetReferencedBy subject version => subjects_subject_version_referenced_by user subject version
  | GetConfig => route_config_get user
  | PutConfig level => config_put user request level
  | GetSubjectConfig subject default_to_global => config_get_subject user subject default_to_global
  | PutSubjectConfig subject level => config_set_subject user request subject level
  | DeleteSubjectConfig subject => config_delete_subject user request subject
  | GetMode => mode_get user
  | GetSubjectMode subject => mode_get_subject user subject
  | PostCompatibility subject version r => compatibility_post user subject version r
  | GetSchemas deleted latest_only => schemas_get_list user deleted latest_only
  | GetSchema schema_id include_subjects fetch_max_id format_serialized =>
      route_schemas_get user schema_id include_subjects fetch_max_id format_serialized
  | GetSchemaVersions schema_id deleted => route_schemas_get_versions user schema_id deleted
  | GetTypes => schemas_get_subjects_list
  end.

(** The subject of the path, which FastAPI validates before a handler undoes its quoting. *)
Definition path_subject (call : Call) : option Subject :=
  match call with
  | PostSubject s _ _ _ | DeleteSubject s _ | PostVersion s _ _ | GetVersions s _ | GetVersion s _ _
  | DeleteVersion s _ _ | GetVersionSchema s _ | GetReferencedBy s _ | GetSubjectConfig s _
  | PutSubjectConfig s _ | DeleteSubjectConfig s | GetSubjectMode s | PostCompatibility s _ _ => Some s
  | _ => None
  end.
(** The schema of the body. *)
Definition body_schema (call : Call) : option SchemaRequest :=
  match call with
  | PostSubject _ r _ _ | PostVersion _ r _ | PostCompatibility _ _ r => Some r
  | _ => None
  end.
(** FastAPI collects the errors of the path and reports them after the body; the validator of a body
    raises at once. *)
Definition validate_call (call : Call) : result () :=
  _ ← match body_schema call with Some r => validate_schema (req_schema r) | None => Ok EmptyString end;
  _ ← match path_subject call with
      | Some s => reraise is_value_error (HTTPException 422 (Some 422)) (Subject_validate s)
      | None => Ok EmptyString
      end;
  Ok ().

(** A request from the middleware to the response: the negotiated content type and the body, or the
    error. The headers are negotiated before the user is looked up. *)
Definition handle_request (oidc : OidcConfig) (request : Request) (credentials : option (string * string))
  (call : Call) : M State (string * ApiResponse) :=
  _ ← lift (set_content_types oidc request);
  response_content_type ← lift (negotiate_schema_content_type request);
  user ← lift (get_current_user authorizer credentials);
  _ ← lift (validate_call call);
  response ← dispatch user request call;
  mret (response_content_type, response).

(** *** master_availability.py *)

(** Whether the cluster has a primary: of the node itself when the group made it one, else as the
    primary answers; a primary of the node's own address is none. *)
Definition master_availability (st : State) (advertised : string) (assigned_to_myself : bool) (request : Request)
  : result bool :=
  let primary_info := get_master st in
  if assigned_to_myself then Ok (primary primary_info)
  else
    match primary_url primary_info with
    | None => Ok false
    | Some url =>
        if substring_in advertised url then Ok false
        else forward_request_remote request url parse_raw_master_available
    end.
End Routers.
