(* ===== verification/ApiSpec.v ===== *)
(** * What the REST API guarantees

    The permission and the primary are checked before anything is written; a sequence of requests does
    to the registry what a sequence of its own operations does; errors are told apart by their code;
    reads show what the user may see; a lookup finds the latest match; the dry run of the compatibility
    check agrees with the registration. *)

From stdpp Require Import sorting.
From S2P Require Import Prelude Json Typing Models Schemas Database DatabaseSpec DatabaseIndex KeyFormat Reader ReaderSpec Compat Registry RegistrySpec RegistryProps Auth Serialization Controller Api.
Open Scope Z_scope.

(** ** Effects of a request *)

Section effects.
Context {bytes : Type} `{!JsonCodec bytes} `{!SchemaLib} `{!Checkers} `{!AuthLib} `{!ControllerLib} `{!Remote} `{!WebLib}.
Context (env : Env bytes) (limit : nat) (use_protobuf_formatter : bool) (authorizer : Authorizer).

Abbreviation State := (KarapaceSchemaRegistry bytes) (only parsing).

(** The resource a call writes to, if it may write. *)
Definition written_resource (call : Call) : option string :=
  match call with
  | DeleteSubject s _ | PostVersion s _ _ | DeleteVersion s _ _ | PutSubjectConfig s _
  | DeleteSubjectConfig s => Some (subject_resource (unquote_plus s))
  | PutConfig _ => Some "Config:"%string
  | _ => None
  end.

(** A computation leaves the state alone, or does what one operation of the registry does to it while
    the node is the primary and ready. *)
Definition one_write {A} (m : M State A) : Prop := forall st,
  (m st).1 = st \/
  (exists op, (m st).1 = run_registry_op env limit op st) /\ primary (get_master st) = true.

Lemma one_write_bind {A B} (m : M State A) (f : A -> M State B) :
  one_write m -> (forall a st, (f a st).1 = st) -> one_write (mbind f m).
Proof.
  intros Hm Hf st. specialize (Hm st). unfold mbind, M_bind. destruct (m st) as [st' [a|e]]; [|exact Hm].
  by rewrite Hf.
Qed.

(** What the primary does locally, on its state. *)
Definition local_write {A} (m : M State A) : Prop := forall st,
  (m st).1 = st \/ exists op, (m st).1 = run_registry_op env limit op st.

Lemma on_primary_write {A} request resp (f : A -> ApiResponse) (m : M State A) :
  local_write m -> one_write (on_primary request resp f m).
Proof.
  intros Hm st. unfold on_primary. destruct (primary (get_master st)) eqn:Ep; [|by left].
  specialize (Hm st). destruct (m st) as [st' r]; simpl in *. destruct Hm as [->|Hop]; [by left|by right].
Qed.

Lemma local_write_config_set s level : local_write
  (compatibility_level ← lift (map_raise level_error (mode_of_string level));
   _ ← send_config_message env limit compatibility_level s; gets (config_get (bytes := bytes))).
Proof.
  intros st. unfold mbind, M_bind, lift. destruct (map_raise _ _) as [l|e]; [|by left].
  right. exists (RSetConfig l s). simpl. by destruct (send_config_message env limit l s st) as [st' [[]|]].
Qed.

Lemma local_write_subject_set s level : local_write (config_subject_set env limit s level).
Proof.
  intros st. unfold config_subject_set, mbind, M_bind, lift.
  destruct (map_raise _ _) as [l|e]; [|by left].
  right. exists (RSetConfig l (Some s)). simpl. by destruct (send_config_message env limit l (Some s) st) as [st' [[]|]].
Qed.

Lemma local_write_config_delete s : local_write (config_subject_delete env limit s).
Proof.
  intros st. right. exists (RDeleteConfig s). unfold config_subject_delete, mbind, M_bind. simpl.
  by destruct (send_config_subject_delete_message env limit s st) as [st' [[]|]].
Qed.

Lemma local_write_version_delete s version permanent :
  local_write (subject_version_delete env limit s version permanent).
Proof.
  intros st. unfold subject_version_delete, catch_map, mbind at 1, M_bind at 1, lift. simpl.
  unfold mbind, M_bind. destruct (Versioner_V (TagStr version)) as [v|e]; [|by left].
  right. by exists (RDeleteVersion s v permanent).
Qed.

Lemma local_write_delete s permanent :
  local_write (fun st => let '(st', r) := subject_delete env limit s permanent st in
                         (st', (fun l => JList (map JInt l)) <$> r)).
Proof.
  intros st. right. exists (RDeleteSubject s permanent). unfold subject_delete, catch_map. simpl. done.
Qed.

Lemma one_write_post s r normalize request :
  one_write (subject_post env limit use_protobuf_formatter s r normalize request).
Proof.
  intros st. unfold subject_post. destruct (parse_posted _ _ _ _ _) as [[refs sch]|e]; [|by left].
  destruct (get_schema_id_if_exists _ _ _ _ _); [by left|].
  destruct (primary (get_master st)) eqn:Ep; [|by left].
  right. split; [|done]. by exists (RWrite s sch refs).
Qed.

(** A call that may write does so with the permission only. *)
Definition permitted (user : option User) (call : Call) : Prop :=
  exists res, written_resource call = Some res /\ authorizer_check authorizer user Write res = true.

Lemma require_write user op res m (st : State) :
  (require authorizer user op res m st).1 = st \/
  (authorizer_check authorizer user op res = true /\ require authorizer user op res m st = m st).
Proof. unfold require. destruct (authorizer_check _ _ _ _); [by right|by left]. Qed.

Lemma require_reading user op res f (st : State) : (require authorizer user op res (reading f) st).1 = st.
Proof. by destruct (require_write user op res (reading f) st) as [Hx|[_ ->]]. Qed.

Lemma dispatch_effect user request call st :
  let m := dispatch env limit use_protobuf_formatter authorizer user request call in
  (m st).1 = st \/
  (exists op, (m st).1 = run_registry_op env limit op st) /\ primary (get_master st) = true /\ permitted user call.
Proof.
  assert (Hw : forall res m, written_resource call = Some res -> one_write m ->
    let m' := require authorizer user Write res m in
    (m' st).1 = st \/
    (exists op, (m' st).1 = run_registry_op env limit op st) /\ primary (get_master st) = true /\ permitted user call).
  { intros res m Hres Hm. simpl. destruct (require_write user Write res m st) as [He|[Hc ->]]; [by left|].
    destruct (Hm st) as [He|[Hop Hp]]; [by left|right]. split_and!; [done|done|by exists res]. }
  destruct call; simpl dispatch; cbv zeta;
    try (left; apply require_reading); try (left; reflexivity); apply (Hw _ _ eq_refl).
  - apply on_primary_write, local_write_delete.
  - intros st0. pose proof (one_write_post (unquote_plus subject) schema_request normalize request st0) as Hp.
    by destruct (subject_post _ _ _ _ _ _ _ st0).
  - apply on_primary_write, local_write_version_delete.
  - apply on_primary_write, local_write_config_set.
  - apply on_primary_write, local_write_subject_set.
  - apply on_primary_write, local_write_config_delete.
Qed.

(** Everything a request passes before its handler: the token, the headers, the user, its data. *)
Definition passes_gates (oidc : OidcConfig) (request : Request) (credentials : option (string * string))
  (call : Call) (user : option User) : Prop :=
  set_content_types oidc request = Ok () /\ is_Some (match negotiate_schema_content_type request with Ok c => Some c | _ => None end) /\
  get_current_user authorizer credentials = Ok user /\ validate_call call = Ok ().

Lemma handle_effect oidc request credentials call st :
  let m := handle_request env limit use_protobuf_formatter authorizer oidc request credentials call in
  (m st).1 = st \/
  (exists op, (m st).1 = run_registry_op env limit op st) /\ primary (get_master st) = true /\
  exists user, passes_gates oidc request credentials call user /\ permitted user call.
Proof.
  cbv zeta. unfold handle_request, passes_gates, mbind, M_bind, lift.
  destruct (set_content_types oidc request) as [[]|e]; [|by left].
  destruct (negotiate_schema_content_type request) as [ct|e]; [|by left].
  destruct (get_current_user authorizer credentials) as [user|e]; [|by left].
  destruct (validate_call call) as [[]|e]; [|by left].
  pose proof (dispatch_effect user request call st) as Hd. cbv zeta in Hd.
  destruct (dispatch _ _ _ _ _ _ _ st) as [st' [r|e]]; simpl in *;
    (destruct Hd as [->|(Hop & Hp & Hc)]; [by left|right; split_and!; [done|done|exists user; split_and!; done]]).
Qed.

(** A request as it arrives: the token's configuration is the installation's. *)
Record Arrival : Type := mkArrival {
  arrived : Request;
  arrived_credentials : option (string * string);
  arrived_call : Call;
}.
Definition serve (oidc : OidcConfig) (st : State) (a : Arrival) : State :=
  (handle_request env limit use_protobuf_formatter authorizer oidc (arrived a) (arrived_credentials a) (arrived_call a) st).1.

Lemma serve_ops oidc arrivals st :
  exists ops, (length ops <= length arrivals)%nat /\
    fold_left (serve oidc) arrivals st = fold_left (fun st op => run_registry_op env limit op st) ops st.
Proof.
  revert st. induction arrivals as [|a arrivals IH]; intros st; [by exists []|]. simpl.
  destruct (handle_effect oidc (arrived a) (arrived_credentials a) (arrived_call a) st) as [He|([op Hop] & _)];
    unfold serve at 2.
  - rewrite He. destruct (IH st) as (ops & Hlen & ->). exists ops. split; [lia|done].
  - rewrite Hop. destruct (IH (run_registry_op env limit op st)) as (ops & Hlen & ->).
    exists (op :: ops). split; [simpl; lia|done].
Qed.
End effects.

(** ** Submitted references *)

Section submit.
Context {bytes : Type} `{!JsonCodec bytes} `{!SchemaLib} `{!Checkers}.
Context (limit : nat).

(** The numbers of the live versions are not negative, as those the registry gives out are. *)
Definition numbered (db : InMemoryDatabase) : Prop := forall s v,
  is_Some (dget v (find_subject_schemas db s false)) -> 0 <= v.

Lemma resolve_reference_numbered f db r rf d :
  numbered db -> match r with Resolved r => 0 <= ref_version r | _ => True end ->
  resolve_reference (DB := InMemoryDatabase) (KarapaceDatabase0 := InMemoryDatabase_KarapaceDatabase sha1) f db r = Ok (rf, d) ->
  0 <= ref_version rf.
Proof.
  intros Hn Hr. unfold resolve_reference. simpl.
  destruct (find_subject_schemas db (reference_subject r) false) as [|p l] eqn:E; [done|].
  intros (rf' & Hrf & Hd)%bind_Ok. destruct (dget _ (p :: l)) as [sv|]; [|done].
  apply bind_Ok in Hd as (val & _ & [= -> _]).
  destruct r as [r0|name subject]; [by injection Hrf as <-|].
  apply bind_Ok in Hrf as (v & Hv & [= <-]). simpl.
  apply max_version_spec in Hv as [Hin _]. apply (Hn subject). simpl in E. rewrite E.
  by apply dget_Some_key.
Qed.

Lemma resolve_references_numbered db refs rs ds :
  numbered db -> Forall (fun r => match r with Resolved r => 0 <= ref_version r | _ => True end) refs ->
  resolve_references (KarapaceDatabase0 := InMemoryDatabase_KarapaceDatabase sha1) limit db refs = Ok (rs, ds) ->
  Forall (fun r => 0 <= ref_version r) rs /\ length rs = length refs.
Proof.
  intros Hn Hrefs. destruct limit as [|n]; [done|]. simpl.
  assert (Hloop : forall acc ds0, Forall (fun r => 0 <= ref_version r) acc -> forall rs' ds',
    resolve_loop (resolve_reference (KarapaceDatabase0 := InMemoryDatabase_KarapaceDatabase sha1)
      (resolve_references (KarapaceDatabase0 := InMemoryDatabase_KarapaceDatabase sha1) n db) db) refs acc ds0 = Ok (rs', ds') ->
    Forall (fun r => 0 <= ref_version r) rs' /\ length rs' = (length acc + length refs)%nat).
  { induction Hrefs as [|r refs Hr Hrefs IH]; intros acc ds0 Hacc rs' ds'; simpl.
    - intros [= <- <-]. split; [done|lia].
    - intros ([rf d] & Hf & Hl)%bind_Ok. apply resolve_reference_numbered in Hf; [|done|done].
      apply IH in Hl as [Hl Hlen]; [|by apply Forall_app; split; [|constructor]].
      split; [done|]. rewrite length_app in Hlen. simpl in Hlen. lia. }
  intros Hl. by apply Hloop in Hl.
Qed.

Lemma validate_reference_numbered r r' :
  validate_reference r = Ok r' -> match r' with Resolved r => 0 <= ref_version r | _ => True end.
Proof.
  unfold validate_reference. intros (v & Hv & Hr)%bind_Ok. unfold Versioner_V, validate_tag, Version_init in Hv.
  simpl in Hv. unfold MINUS_1_VERSION_TAG in Hv. destruct (Z.ltb_spec (sr_version r) (-1)); [done|].
  destruct (Z.eqb_spec (sr_version r) 0); [done|]. simpl in Hv. injection Hv as <-. unfold is_latest, MINUS_1_VERSION_TAG in Hr.
  destruct (Z.eqb_spec (sr_version r) (-1)); injection Hr as <-; simpl; lia.
Qed.

(** What the references of a request resolve to. *)
Lemma request_references db request candidates refs deps :
  numbered db -> validate_references request = Ok candidates ->
  registry_resolve_references limit db candidates = Ok (refs, deps) ->
  (req_type request = JSONSCHEMA -> refs = None) /\
  (forall l, refs = Some l -> l ≠ [] /\ Forall (fun r => 0 <= ref_version r) l).
Proof.
  intros Hn Hv Hres. unfold validate_references in Hv.
  assert (Hcand : candidates = None \/ exists l, candidates = Some l /\ l ≠ [] /\ req_type request ≠ JSONSCHEMA /\
    Forall (fun r => match r with Resolved r => 0 <= ref_version r | _ => True end) l).
  { destruct (req_references request) as [l|]; [|injection Hv as <-; by left].
    destruct (negb (bool_decide (l = [])) && bool_decide (req_type request = JSONSCHEMA)) eqn:Ej; [done|].
    apply bind_Ok in Hv as (vs & Hvs & [= <-]). apply map_res_Forall2 in Hvs.
    destruct vs as [|v vs]; [by left|]. right. exists (v :: vs). split_and!; [done|done| |].
    - intros Ht. apply andb_false_iff in Ej as [Ej|Ej]; [|by apply bool_decide_eq_false in Ej].
      apply negb_false_iff, bool_decide_eq_true in Ej as ->. by inv Hvs.
    - clear -Hvs. induction Hvs; constructor; [by eapply validate_reference_numbered|done]. }
  unfold registry_resolve_references in Hres. destruct Hcand as [->|(l & -> & Hne & Ht & Hf)].
  - injection Hres as <- <-. by split.
  - destruct l as [|c l]; [done|]. apply bind_Ok in Hres as ([rs ds] & Hrs & [= <- <-]).
    split; [done|]. intros l' [= <-]. apply resolve_references_numbered in Hrs as [Hrs Hlen]; [|done|done].
    split; [|done]. by destruct rs.
Qed.
End submit.

(** A reader in step makes the node answer as what the group made it. *)
Lemma synced_master {bytes} (st : KarapaceSchemaRegistry bytes) : synced st -> primary (get_master st) = true.
Proof. intros (Hr & Hp & _). unfold get_master. by rewrite Hr. Qed.

Lemma get_master_primary {bytes} (st : KarapaceSchemaRegistry bytes) :
  primary (get_master st) = true -> ready (schema_reader st) = true /\ primary (master_info st) = true.
Proof. unfold get_master. by destruct (ready (schema_reader st)). Qed.

(** On a primary in step, a post is the registration of what the request parses to. *)
Lemma subject_post_registration {bytes} `{!JsonCodec bytes} `{!SchemaLib} `{!Checkers} `{!ControllerLib} `{!Remote}
  (env : Env bytes) limit fmt subject request normalize http st refs sch :
  synced st -> parse_posted limit fmt st request normalize = Ok (refs, sch) ->
  subject_post env limit fmt subject request normalize http st =
    catch_map write_error (write_new_schema_local env limit subject sch refs) st.
Proof.
  intros Hs Hp. unfold subject_post. rewrite Hp, synced_master by done.
  destruct (get_schema_id_if_exists _ _ _ _ _) eqn:E; [|done].
  unfold catch_map, write_new_schema_local. by rewrite E.
Qed.
