(* ===== verification/ApiProps.v ===== *)
(** * The theorems about the REST API

    The lemmas are those of [ApiSpec]; here are the reads of the controller, the lookup of a schema, the
    dry run of the compatibility check and the gate of the bearer tokens, then the properties and their
    witnesses. *)

From stdpp Require Import sorting.
From S2P Require Import Prelude Json Typing Models Schemas Database DatabaseSpec DatabaseIndex KeyFormat Reader ReaderSpec Compat Registry RegistrySpec RegistryProps Auth Serialization Controller Api ApiSpec.
Open Scope Z_scope.

Lemma map_raise_Ok {A} f (r : result A) a : map_raise f r = Ok a -> r = Ok a.
Proof. by destruct r. Qed.

(** ** The version a request names *)

Section versions.
Context `{!SchemaLib}.

Lemma subject_get_cases db s b :
  match subject_get db s b with
  | Ok d => d = find_subject_schemas db s b /\ d ≠ []
  | Raise e => (e = SubjectNotFoundException \/ e = SchemasNotFoundException) /\
      (s = EmptyString \/ find_subject_schemas db s b = [])
  end.
Proof.
  unfold subject_get, find_subject, din. destruct (dget s (subjects db)) as [sd|] eqn:E.
  - destruct s; [by split; [left|left]|]. destruct (find_subject_schemas _ _ _) eqn:Ef; [split; auto|done].
  - split; [by left|right]. unfold find_subject_schemas. by rewrite E.
Qed.

(** The entry a valid tag stands for. *)
Lemma subject_version_find_cases db s tag b :
  match subject_version_find db s tag b with
  | Ok (v, sv) => dget v (find_subject_schemas db s b) = Some sv /\ s ≠ EmptyString /\
      (is_latest tag = true -> forall w, is_Some (dget w (find_subject_schemas db s b)) -> w <= v) /\
      (is_latest tag = false -> v = tag)
  | Raise e =>
      ((e = SubjectNotFoundException \/ e = SchemasNotFoundException) /\
        (s = EmptyString \/ find_subject_schemas db s b = [])) \/
      (e = VersionNotFoundException /\ is_latest tag = false /\ dget tag (find_subject_schemas db s b) = None)
  end.
Proof.
  unfold subject_version_find. pose proof (subject_get_cases db s b) as Hs.
  assert (Hne : forall d, subject_get db s b = Ok d -> s ≠ EmptyString).
  { intros d Hd ->. unfold subject_get, find_subject, din in Hd. by destruct (dget _ (subjects db)). }
  destruct (subject_get db s b) as [d|e]; simpl; [|by left]. destruct Hs as [-> Hd].
  set (d := find_subject_schemas db s b) in *. unfold from_schema_versions.
  destruct (max_version_some (dkeys d)) as [m Hm]; [by destruct d|]. rewrite Hm. cbn [mbind result_bind].
  apply max_version_spec in Hm as [Hin Hmax].
  destruct (is_latest tag) eqn:El; cbn [mbind result_bind].
  - apply dget_Some_key in Hin as [sv Hsv]. rewrite Hsv. split_and!; [done|by eapply Hne| |done].
    intros _ w [x Hw]. apply Hmax, dget_Some_key. eauto.
  - destruct (dget tag d) as [sv|] eqn:Et.
    + assert (Hk : tag ∈ dkeys d) by (apply dget_Some_key; eauto).
      rewrite bool_decide_true by done. rewrite (proj2 (Z.leb_le tag m)) by auto. simpl. rewrite Et.
      split_and!; [done|by eapply Hne|done|done].
    + apply dget_None in Et as Hk. rewrite bool_decide_false by done. simpl. right. done.
Qed.

Lemma tag_errors tag : match Versioner_V tag with Ok v => v = -1 \/ 1 <= v | Raise e => e = InvalidVersion end.
Proof.
  unfold Versioner_V, validate_tag, resolve_tag, Version_init, MINUS_1_VERSION_TAG.
  destruct tag as [t|z].
  - destruct (String.eqb t LATEST_VERSION_TAG) eqn:E; [by left|].
    destruct (py_int t) as [z|]; [|done]. destruct (Z.ltb_spec z (-1)); [done|].
    destruct (Z.eqb_spec z 0); [done|]. simpl. destruct (Z.ltb_spec z (-1)); [lia|]. lia.
  - destruct (Z.ltb_spec z (-1)); [done|]. destruct (Z.eqb_spec z 0); [done|]. simpl.
    destruct (Z.ltb_spec z (-1)); [lia|]. lia.
Qed.
End versions.

(** ** Lookup *)

Section lookup.
Context {bytes : Type} `{!JsonCodec bytes} `{!SchemaLib} `{!Checkers} `{!ControllerLib}.
Context (limit : nat).

Lemma find_matching_spec (st : KarapaceSchemaRegistry bytes) s t normalize new versions :
  match find_matching limit st s t normalize new versions with
  | Ok r => exists before sv after parsed, versions = before ++ sv :: after /\
      match_version limit st t normalize new sv = Ok (Some parsed) /\
      r = mkSchemaResponse s (sv_version sv) (sv_schema_id sv) (schema_str parsed) (type_unless_avro t) /\
      Forall (fun sv' => match_version limit st t normalize new sv' = Ok None) before
  | Raise e =>
      (e = http_error 404 SCHEMA_NOT_FOUND /\
        Forall (fun sv' => match_version limit st t normalize new sv' = Ok None) versions) \/
      exists sv, sv ∈ versions /\ match_version limit st t normalize new sv = Raise e
  end.
Proof.
  induction versions as [|sv versions IH]; simpl; [by left|].
  destruct (match_version limit st t normalize new sv) as [[parsed|]|e] eqn:E; simpl.
  - exists [], sv, versions, parsed. by split_and!.
  - destruct (find_matching limit st s t normalize new versions) as [r|e].
    + destruct IH as (before & sv' & after & parsed & -> & Hm & -> & Hb).
      exists (sv :: before), sv', after, parsed. split_and!; [done|done|done|by constructor].
    + destruct IH as [[-> Hall]|(sv' & Hin & Hm)]; [left; split; [done|by constructor]|right].
      exists sv'. split; [by right|done].
  - right. exists sv. split; [by left|done].
Qed.

#[local] Instance newer_first_total : Total newer_first.
Proof. intros a b. unfold newer_first. lia. Qed.
#[local] Instance newer_first_trans : Transitive newer_first.
Proof. intros a b c. unfold newer_first. lia. Qed.

Lemma newer_before l before sv after sv' :
  merge_sort newer_first l = before ++ sv :: after -> sv' ∈ l -> sv_version sv < sv_version sv' -> sv' ∈ before.
Proof.
  intros Hl Hin Hlt. assert (Hs : StronglySorted newer_first (before ++ sv :: after)).
  { rewrite <- Hl. apply StronglySorted_merge_sort; apply _. }
  assert (Hin' : sv' ∈ before ++ sv :: after) by (rewrite <- Hl; by rewrite merge_sort_Permutation).
  apply elem_of_app in Hin' as [Hin'|Hin']; [done|].
  apply elem_of_cons in Hin' as [->|Hin']; [lia|]. exfalso.
  assert (Hs2 : StronglySorted newer_first (sv :: after)).
  { clear -Hs. induction before as [|x before IH]; [done|]. apply IH. by inv Hs. }
  apply StronglySorted_inv in Hs2 as [_ Hf]. rewrite List.Forall_forall in Hf.
  specialize (Hf sv' (proj1 (list_elem_of_In _ _) Hin')). unfold newer_first in Hf. lia.
Qed.
End lookup.

(** ** The dry run *)

Section dry_run.
Context {bytes : Type} `{!JsonCodec bytes} `{!SchemaLib} `{!Checkers} `{!ControllerLib}.
Context (limit : nat) (fmt : bool).

Lemma request_reference_roundtrip refs :
  Forall (fun r => 0 <= ref_version r) refs ->
  map_res (fun j => match j with JObj d => reference_from_mapping d | _ => Raise AttributeError end)
    (map reference_to_dict refs) = Ok (map Resolved refs).
Proof.
  induction 1 as [|r refs Hr _ IH]; simpl; [done|]. rewrite IH.
  unfold reference_from_mapping, read_str, read_int, dindex. simpl.
  destruct (Z.eqb_spec (ref_version r) (-1)); [lia|].
  unfold MINUS_1_VERSION_TAG. destruct (Z.ltb_spec (ref_version r) (-1)); [lia|]. simpl. by destruct r.
Qed.

(** Reading a version back gives the schema that a registration compares with. *)
Lemma get_old_schema_parses (st : KarapaceSchemaRegistry bytes) s tag v sv old :
  subject_version_find (db_of st) s tag false = Ok (v, sv) ->
  (forall refs, ts_references (sv_schema sv) = Some refs -> Forall (fun r => 0 <= ref_version r) refs) ->
  get_old_schema limit st s tag = Ok old -> resolve_and_parse limit (db_of st) (sv_schema sv) = Ok old.
Proof.
  intros Hf Hrefs. unfold get_old_schema, subject_version_get. rewrite Hf. cbn [mbind result_bind].
  set (d := _ ++ _). intros (t & Ht & Ho)%bind_Ok. apply map_raise_Ok in Ho.
  apply bind_Ok in Ho as (refs & Hr & Ho).
  assert (Htype : t = schema_type (sv_schema sv)).
  { unfold validate_schema_type in Ht.
    assert (Hg : jget_default "schemaType" (JStr (schema_type_value AVRO)) d = JStr (schema_type_value (schema_type (sv_schema sv)))).
    { subst d. destruct (ts_references (sv_schema sv)), (schema_type (sv_schema sv)), (get_subject_compatibility _ _) as [[]|]; reflexivity. }
    rewrite Hg, schema_type_of_value in Ht. by injection Ht. }
  assert (Hstr : read_str "schema" d = Ok (schema_str (sv_schema sv))) by reflexivity.
  assert (Hg : jget "references" d = match ts_references (sv_schema sv) with
    Some refs => JList (map reference_to_dict refs) | None => JNull end).
  { subst d. destruct (ts_references (sv_schema sv)), (schema_type (sv_schema sv)), (get_subject_compatibility _ _) as [[]|]; reflexivity. }
  rewrite Hstr in Ho. unfold resolve_and_parse. subst t.
  enough (Hrr : registry_resolve_references limit (db_of st) refs =
    registry_resolve_references limit (db_of st) (map Resolved <$> ts_references (sv_schema sv))) by (by rewrite <- Hrr).
  unfold stored_references in Hr. rewrite Hg in Hr. destruct (ts_references (sv_schema sv)) as [[|r l]|] eqn:E;
    try (by injection Hr as <-).
  cbn [map] in Hr. change (reference_to_dict r :: map reference_to_dict l) with (map reference_to_dict (r :: l)) in Hr.
  rewrite request_reference_roundtrip in Hr by (by apply Hrefs). by injection Hr as <-.
Qed.

(** The version "latest" stands for is the one the registration looks at. *)
Lemma latest_live db s v sv :
  db_wf sha1 db -> subject_version_find db s (-1) false = Ok (v, sv) ->
  last (get_live_versions_sorted (find_subject_schemas db s true)) = Some v /\
  dget v (find_subject_schemas db s true) = Some sv.
Proof.
  intros Hwf Hf. pose proof (subject_version_find_cases db s (-1) false) as Hc. rewrite Hf in Hc.
  destruct Hc as (Hv & _ & Hmax & _). specialize (Hmax eq_refl).
  set (all := find_subject_schemas db s true).
  assert (Hd : dwf all).
  { subst all. unfold find_subject_schemas. destruct (dget s (subjects db)) eqn:E; [by eapply wf_versions|constructor]. }
  assert (Hlive : find_subject_schemas db s false = dfilter live all).
  { subst all. unfold find_subject_schemas. by destruct (dget s (subjects db)). }
  rewrite Hlive in *. rewrite dget_dfilter in Hv by done.
  destruct (dget v all) as [sv'|] eqn:Ev; simpl in Hv; [|done].
  destruct (live sv') eqn:El; [|done]. injection Hv as ->. split; [|done].
  assert (Hin : v ∈ get_live_versions_sorted all).
  { apply live_versions_elem; [done|]. exists sv. split; [done|]. by apply negb_true_iff. }
  destruct (last (get_live_versions_sorted all)) as [m|] eqn:Em; [|apply last_None in Em; rewrite Em in Hin; by apply elem_of_nil in Hin].
  pose proof (last_live_is_greatest _ _ _ Em Hin) as Hle.
  assert (Hm : m ∈ get_live_versions_sorted all).
  { apply last_Some in Em as [l' ->]. apply elem_of_app. right. by left. }
  apply live_versions_elem in Hm as (svm & Hsvm & Hdel); [|done].
  specialize (Hmax m). rewrite dget_dfilter in Hmax by done. rewrite Hsvm in Hmax. simpl in Hmax.
  assert (live svm = true) as Hl by (unfold live; by rewrite Hdel). rewrite Hl in Hmax.
  f_equal. specialize (Hmax ltac:(eauto)). lia.
Qed.

(** The dry run makes the check of a registration. *)
Lemma dry_run_check (st : KarapaceSchemaRegistry bytes) s request b refs sch :
  db_wf sha1 (db_of st) ->
  (forall v sv l, dget v (find_subject_schemas (db_of st) s true) = Some sv -> ts_references (sv_schema sv) = Some l ->
    Forall (fun r => 0 <= ref_version r) l) ->
  parse_posted limit fmt st request false = Ok (refs, sch) ->
  compatibility_check limit fmt st s request "latest" = Ok b ->
  get_live_versions_sorted (find_subject_schemas (db_of st) s true) ≠ [] /\
  is_Some (match get_compatibility_mode st s with Ok m => Some m | _ => None end) /\
  exists res, check_schema_compatibility limit st sch s = Ok res /\ b = negb (is_incompatible res).
Proof.
  intros Hwf Hrefs Hp Hc. unfold compatibility_check in Hc.
  apply bind_Ok in Hc as (mode & Hm & Hc). apply bind_Ok in Hc as (new & Hnew & Hc).
  change (Versioner_V (TagStr "latest")) with (Ok (-1)) in Hc. cbn [mbind result_bind] in Hc.
  apply bind_Ok in Hc as (old & Hold & Hc). apply bind_Ok in Hc as (res & Hres & [= <-]).
  assert (Hmode : get_compatibility_mode st s = Ok mode).
  { unfold reraise in Hm. destruct (get_compatibility_mode st s) as [m|e]; [done|by destruct (is_value_error e)]. }
  assert (Hsch : new = sch).
  { unfold get_new_schema in Hnew. unfold parse_posted in Hp.
    destruct (validate_references request) as [cands|]; [|done]. cbn [mbind result_bind] in *.
    apply map_raise_Ok in Hnew, Hp. destruct (registry_resolve_references _ _ _) as [[rs ds]|]; [|done].
    cbn [mbind result_bind] in *. rewrite Hnew in Hp. by injection Hp. }
  subst new.
  assert (Hfind : exists v sv, subject_version_find (db_of st) s (-1) false = Ok (v, sv)).
  { unfold get_old_schema, subject_version_get in Hold.
    destruct (subject_version_find _ _ _ _) as [[v sv]|e]; [by eauto|]. by destruct e. }
  destruct Hfind as (v & sv & Hf). destruct (latest_live _ _ _ _ Hwf Hf) as [Hlast Hsv].
  apply (get_old_schema_parses _ _ _ _ _ _ Hf) in Hold; [|intros l; by apply (Hrefs v)].
  split_and!; [intros E; by rewrite E in Hlast|rewrite Hmode; by eexists|].
  exists res. split; [|done]. destruct (is_transitive mode) eqn:Et; [done|].
  unfold check_schema_compatibility. rewrite Hmode. cbn [mbind result_bind]. unfold versions_to_check.
  rewrite Hlast, Et. cbn [check_versions]. unfold dindex. rewrite Hsv. cbn [mbind result_bind].
  rewrite Hold. cbn [mbind result_bind]. rewrite Hres. cbn [mbind result_bind]. by destruct (is_incompatible res).
Qed.
End dry_run.

(** ** Reads *)

Lemma filter_elem {A} (p : A -> bool) l x : x ∈ List.filter p l <-> x ∈ l /\ p x = true.
Proof. rewrite !list_elem_of_In. apply List.filter_In. Qed.

(** A stored version that a listing selects: the one stored last, where only the latest is asked for,
    and a version that is not deleted, where [deleted] is set. *)
Definition selected (db : InMemoryDatabase) (deleted latest : bool) (s : Subject) (sv : SchemaVersion) : Prop :=
  exists sd, dget s (subjects db) = Some sd /\ (exists v, dget v (sd_schemas sd) = Some sv) /\
    (latest = true -> last (dvalues (sd_schemas sd)) = Some sv) /\ (deleted = true -> live sv = true).

Lemma find_schemas_elem sha1 db deleted latest s sv : db_wf sha1 db ->
  (exists svs, (s, svs) ∈ find_schemas db deleted latest /\ sv ∈ svs) <-> selected db deleted latest s sv.
Proof.
  intros Hwf. unfold find_schemas, dmap, selected.
  set (sel sd := if latest && (0 <? Z.of_nat (length (dvalues (sd_schemas sd)))) then
      match last (dvalues (sd_schemas sd)) with Some sv => [sv] | None => [] end else dvalues (sd_schemas sd)).
  assert (Hsel : forall sd, sv ∈ (if deleted then List.filter live (sel sd) else sel sd) <->
    sv ∈ dvalues (sd_schemas sd) /\ (latest = true -> last (dvalues (sd_schemas sd)) = Some sv) /\
    (deleted = true -> live sv = true)).
  { intros sd. assert (Hs : sv ∈ sel sd <-> sv ∈ dvalues (sd_schemas sd) /\
        (latest = true -> last (dvalues (sd_schemas sd)) = Some sv)).
    { unfold sel. destruct latest; simpl; [|naive_solver]. destruct (dvalues (sd_schemas sd)) as [|x l] eqn:Ed; [simpl; set_solver|].
      destruct (Z.ltb_spec 0 (Z.of_nat (length (x :: l)))); [|simpl in *; lia].
      destruct (last (x :: l)) as [y|] eqn:El; [|by apply last_None in El].
      rewrite list_elem_of_singleton. split; [intros ->|intros [_ Hl]; specialize (Hl eq_refl); congruence].
      split; [|done]. apply last_Some in El as [l' ->]. apply elem_of_app. right. by left. }
    destruct deleted; [rewrite filter_elem, Hs|rewrite Hs]; naive_solver. }
  assert (Hdict : forall s sd, (s, sd) ∈ subjects db <-> dget s (subjects db) = Some sd).
  { intros s' sd. split; [by apply In_dget, (wf_subjects _ _ Hwf)|]. by intros ?%dget_In. }
  assert (Hval : forall sd, dget s (subjects db) = Some sd ->
    sv ∈ dvalues (sd_schemas sd) <-> exists v, dget v (sd_schemas sd) = Some sv).
  { intros sd Hsd. unfold dvalues. rewrite list_elem_of_fmap. split.
    - intros ([v sv'] & -> & Hv). exists v. apply In_dget; [by eapply (wf_versions _ _ Hwf)|done].
    - intros [v Hv%dget_In]. by exists (v, sv). }
  split.
  - intros (svs & ([s' sd] & [= -> ->] & Hin)%list_elem_of_fmap & Hsv). apply Hdict in Hin. apply Hsel in Hsv as (Hv & Hl & Hd).
    exists sd. rewrite <- Hval by done. eauto.
  - intros (sd & Hsd & Hv & Hl & Hd). eexists. split; [apply list_elem_of_fmap; exists (s, sd); split; [reflexivity|by apply Hdict]|].
    apply Hsel. rewrite Hval by done. eauto.
Qed.

Section reads.
Context {bytes : Type} `{!JsonCodec bytes} `{!SchemaLib} `{!AuthLib} `{!ControllerLib}.
Context (authorizer : Authorizer).

Lemma schemas_list_elem (st : KarapaceSchemaRegistry bytes) user deleted latest item :
  item ∈ controller_schemas_list authorizer st user deleted latest <->
  exists s svs sv, (s, svs) ∈ schemas_list (db_of st) deleted latest /\ may_read authorizer user s = true /\
    sv ∈ svs /\ item = listing_item sv.
Proof.
  unfold controller_schemas_list. rewrite list_elem_of_In, in_concat. split.
  - intros (l & Hl & Hi). apply in_map_iff in Hl as ([s svs] & <- & Hf). apply filter_In in Hf as [Hin Hr].
    apply in_map_iff in Hi as (sv & <- & Hsv). exists s, svs, sv. by rewrite !list_elem_of_In.
  - intros (s & svs & sv & Hin & Hr & Hsv & ->). exists (map listing_item svs). split.
    + apply in_map_iff. exists (s, svs). split; [done|]. apply filter_In. by rewrite <- list_elem_of_In.
    + apply in_map, list_elem_of_In, Hsv.
Qed.

Lemma has_subject_false (st : KarapaceSchemaRegistry bytes) user i :
  has_subject_with_id authorizer st user i = false <->
  authorizer_check authorizer user Read "Subject:*" = false /\
  authorizer_check_any authorizer user Read (map subject_resource (subjects_for_schema (db_of st) i)) = false.
Proof. unfold has_subject_with_id. apply orb_false_iff. Qed.
End reads.

(** ** The gate of the bearer tokens *)

Section oidc.
Context `{!WebLib}.

Definition skips_auth (config : OidcConfig) (path : string) : bool :=
  in_strings path DOC_PATHS || in_strings path (skip_auth_paths config).

(** A role that the configuration gives the method, among the roles of the token. *)
Definition has_role (config : OidcConfig) (request_method : string) (payload : list (string * json)) : Prop :=
  exists path client roles role,
    roles_claim_path config = Some path /\ client_id config = Some client /\
    dget (upper request_method) (method_roles config) = Some roles /\ role ∈ roles /\
    role ∈ get_roles_from_claim_path payload (str_replace "[client_id]" client path).

Lemma in_strings_elem s l : in_strings s l = true <-> s ∈ l.
Proof.
  unfold in_strings. rewrite existsb_exists, list_elem_of_In. split.
  - by intros (x & Hx & ->%String.eqb_eq).
  - intros Hs. exists s. by rewrite String.eqb_refl.
Qed.

Lemma authorize_request_iff config payload m :
  authorization_enabled config = true ->
  authorize_request config payload m = Ok () <-> has_role config m payload.
Proof.
  intros He. unfold authorize_request, has_role. rewrite He. simpl.
  destruct (roles_claim_path config) as [path|]; [|naive_solver].
  destruct (client_id config) as [client|]; [|naive_solver].
  set (user_roles := get_roles_from_claim_path _ _).
  destruct (existsb _ _) eqn:E.
  - split; [intros _|done]. apply existsb_exists in E as (role & Hin & Hr). apply list_elem_of_In in Hin.
    destruct (dget (upper m) (method_roles config)) as [roles|] eqn:Er; simpl in Hin; [|by apply elem_of_nil in Hin].
    exists path, client, roles, role. split_and!; [done..|]. by apply in_strings_elem.
  - split; [done|]. intros (p & c & roles & role & [= <-] & [= <-] & Hr & Hin & Hu). exfalso.
    rewrite Hr in E. simpl in E.
    assert (existsb (fun role => in_strings role user_roles) roles = true); [|congruence].
    apply existsb_exists. exists role. apply list_elem_of_In in Hin. by rewrite in_strings_elem.
Qed.

Lemma validate_jwt_401 config token e :
  reraise (fun e => bool_decide (e = AuthenticationError)) (HTTPException 401 None) (validate_jwt config token) = Raise e ->
  e = HTTPException 401 None \/ validate_jwt config token = Raise e.
Proof. unfold reraise. destruct (validate_jwt config token) as [p|e']; [done|]. case_bool_decide; intros [= <-]; auto. Qed.

(** A valid bearer token with a role for the method of the request *)
Definition token_admits (config : OidcConfig) (request : Request) : Prop :=
  exists token payload, bearer_token (header request "Authorization") = Some token /\
    validate_jwt config token = Ok payload /\ has_role config (method request) payload.

Lemma bearer_gate config request :
  authorization_enabled config = true -> skips_auth config (url_path request) = false ->
  set_content_types config request = Ok () <-> token_admits config request.
Proof.
  intros He Hp. unfold set_content_types, token_admits. unfold skips_auth in Hp. rewrite Hp, He.
  destruct (bearer_token _) as [token|]; [|split; [done|by intros (t & p & [=] & _)]].
  unfold reraise. destruct (validate_jwt config token) as [payload|e] eqn:Ev; cbn [mbind result_bind].
  - rewrite (authorize_request_iff config payload (method request) He). split; [by eauto|].
    intros (t & p & [= <-] & Hp' & Hr). rewrite Ev in Hp'. by injection Hp' as ->.
  - split; [by case_bool_decide|]. intros (t & p & [= <-] & Hp' & _). congruence.
Qed.
End oidc.

(** ** Properties *)

(** C4. Nothing is written without permission, and only by the primary: if serving a request changed the
    registry's state at all, the node was the primary and ready; where bearer tokens are required for the
    path, the request carried a valid one with a role for its method; its headers asked for a content type
    that is served; its schema and subject passed their validation; and its credentials authenticated a
    user who may write to the resource the route stands for. So no read, no refused request and no
    forwarded one changes anything. *)
Theorem api_writes_are_guarded {bytes} `{!JsonCodec bytes} `{!SchemaLib} `{!Checkers} `{!AuthLib}
  `{!ControllerLib} `{!Remote} `{!WebLib} (env : Env bytes) limit fmt authorizer oidc request credentials call
  (st : KarapaceSchemaRegistry bytes) :
  (handle_request env limit fmt authorizer oidc request credentials call st).1 ≠ st ->
  ready (schema_reader st) = true /\ primary (master_info st) = true /\
  (authorization_enabled oidc = true -> skips_auth oidc (url_path request) = false -> token_admits oidc request) /\
  (exists content_type, negotiate_schema_content_type request = Ok content_type) /\
  validate_call call = Ok () /\
  exists user res, get_current_user authorizer credentials = Ok user /\
    written_resource call = Some res /\ authorizer_check authorizer user Write res = true.
Proof.
  intros Hne. destruct (handle_effect env limit fmt authorizer oidc request credentials call st)
    as [He|(_ & Hp & user & (Hset & Hct & Huser & Hcall) & res & Hres & Hc)]; [by destruct Hne|].
  apply get_master_primary in Hp as [Hr Hp]. split_and!; [done..| | |done|by exists user, res].
  - intros He Hs. by apply bearer_gate.
  - destruct (negotiate_schema_content_type request) as [ct|]; [by exists ct|by destruct Hct].
Qed.

(** C2. Serving requests refines the registry: whatever requests arrive, in any environment, what they
    do to the state is what a sequence of registry operations does, at most one for each request; so the
    database stays well-formed, the id counter never goes back and no schema id is forgotten. *)
Theorem api_refines_registry {bytes} `{!JsonCodec bytes} `{!SchemaLib} `{!Checkers} `{!AuthLib}
  `{!ControllerLib} `{!Remote} `{!WebLib} (env : Env bytes) limit fmt authorizer oidc arrivals
  (st : KarapaceSchemaRegistry bytes) :
  let st' := fold_left (serve env limit fmt authorizer oidc) arrivals st in
  (exists ops, (length ops <= length arrivals)%nat /\
     st' = fold_left (fun st op => run_registry_op env limit op st) ops st) /\
  (db_wf sha1 (db_of st) ->
     db_wf sha1 (db_of st') /\ global_schema_id (db_of st) <= global_schema_id (db_of st') /\
     forall i, is_Some (dget i (schemas (db_of st))) -> is_Some (dget i (schemas (db_of st')))).
Proof.
  intros st'. destruct (serve_ops env limit fmt authorizer oidc arrivals st) as (ops & Hlen & Hops).
  split; [by exists ops|]. intros Hwf. subst st'. rewrite Hops. by apply registry_keeps_database.
Qed.

(** C3. Registering over the API: on a primary in step, a post either fails and leaves the state as it
    was, or answers the id of a live version of the subject whose schema has the fingerprint of what
    the request parses to with its references resolved. A version is added only if the subject had
    nothing live or the compatibility check passed, under a number the subject had never used. (Of a
    protobuf schema it is asked that the text it prints reads back and prints as itself.) *)
Theorem subject_post_registers {bytes} `{!JsonCodec bytes} `{!JsonCodecLaws bytes} `{!SchemaLib}
  `{!SchemaLibErrors} `{!SchemaLibNorm} `{!Checkers} `{!ControllerLib} `{!Remote} (env : Env bytes) limit fmt
  subject request normalize http (st : KarapaceSchemaRegistry bytes) :
  env_live env -> synced st -> db_reach sha1 (db_of st) -> numbered (db_of st) ->
  (forall refs sch, parse_posted limit fmt st request normalize = Ok (refs, sch) -> reprints sch) ->
  let '(st', r) := subject_post env limit fmt subject request normalize http st in
  match r with
  | Raise _ => st' = st
  | Ok i =>
      exists refs sch, parse_posted limit fmt st request normalize = Ok (refs, sch) /\
      synced st' /\ db_reach sha1 (db_of st') /\
      (exists v sv, dget v (find_subject_schemas (db_of st') subject false) = Some sv /\
        sv_schema_id sv = i /\ fingerprint sha1 (sv_schema sv) = fingerprint sha1 sch) /\
      (st' = st \/ (admitted limit st subject sch /\ exists v,
         version_of (db_of st) subject v = None /\ is_Some (version_of (db_of st') subject v)))
  end.
Proof.
  intros Henv Hs Hreach Hn Hre. destruct (parse_posted limit fmt st request normalize) as [[refs sch]|e] eqn:Hp.
  - rewrite (subject_post_registration env limit fmt subject request normalize http st refs sch Hs Hp).
    unfold parse_posted in Hp. apply bind_Ok in Hp as (cands & Hv & Hp). apply map_raise_Ok in Hp.
    apply bind_Ok in Hp as ([rs ds] & Hres & Hp). apply bind_Ok in Hp as (new & Hnew & [= -> ->]).
    destruct (request_references limit (db_of st) request cands refs ds Hn Hv Hres) as [Hjson Hrefs].
    destruct (submitted_schema_rereads limit (db_of st) cands refs ds _ _ normalize fmt sch Hres Hnew Hjson Hrefs (Hre _ _ eq_refl)) as (Hrr & Hr & _).
    pose proof (write_new_schema_correct env limit subject sch refs ds st Henv Hs Hreach Hrr Hr) as Hw.
    unfold catch_map. destruct (write_new_schema_local env limit subject sch refs st) as [st' [i|e]]; simpl; [|done].
    by exists refs, sch.
  - unfold subject_post. by rewrite Hp.
Qed.


(** Looking a schema up under a subject finds the newest match: the answer is a stored version of
    the subject that matches the schema of the request, no newer version does, and its number, its id
    and its text are the ones given; 404 with the code "schema not found" is answered for a subject that
    has versions only if none matches, and any other failure comes from the request or from a stored
    version that does not parse. *)
Theorem lookup_finds_latest {bytes} `{!JsonCodec bytes} `{!SchemaLib} `{!Checkers} `{!ControllerLib} limit fmt
  (st : KarapaceSchemaRegistry bytes) s request deleted normalize :
  let stored := dvalues (find_subject_schemas (db_of st) s deleted) in
  let matches new sv := match_version limit st (req_type request) normalize new sv in
  match subjects_schema_post limit fmt st s request deleted normalize with
  | Ok r => exists new sv parsed, parse_looked_up limit fmt st request normalize = Ok new /\
      sv ∈ stored /\ matches new sv = Ok (Some parsed) /\
      (forall sv', sv' ∈ stored -> sv_version sv < sv_version sv' -> matches new sv' = Ok None) /\
      resp_version r = sv_version sv /\ resp_id r = sv_schema_id sv /\ resp_schema r = schema_str parsed /\
      resp_subject r = s
  | Raise e =>
      (e = http_error 404 SCHEMA_NOT_FOUND /\ exists new, parse_looked_up limit fmt st request normalize = Ok new /\
        forall sv', sv' ∈ stored -> matches new sv' = Ok None) \/
      (e = subject_not_found /\ (s = EmptyString \/ stored = [])) \/
      parse_looked_up limit fmt st request normalize = Raise e \/
      (exists new sv, sv ∈ stored /\ matches new sv = Raise e)
  end.
Proof.
  intros stored matches. unfold subjects_schema_post, checked_subject_get.
  pose proof (subject_get_cases (db_of st) s deleted) as Hs.
  destruct (subject_get (db_of st) s deleted) as [d|e]; cbn [map_raise mbind result_bind].
  - destruct Hs as [-> Hd]. fold stored.
    destruct (parse_looked_up limit fmt st request normalize) as [new|e]; cbn [mbind result_bind]; [|tauto].
    pose proof (find_matching_spec limit st s (req_type request) normalize new (merge_sort newer_first stored)) as Hf.
    assert (Hperm : forall sv, sv ∈ merge_sort newer_first stored <-> sv ∈ stored)
      by (intros; by rewrite merge_sort_Permutation).
    destruct (find_matching _ _ _ _ _ _ _) as [r|e].
    + destruct Hf as (before & sv & after & parsed & Hl & Hm & -> & Hb). exists new, sv, parsed.
      split_and!; try done.
      * apply Hperm. rewrite Hl. apply elem_of_app. right. by left.
      * intros sv' Hin Hlt. apply (newer_before _ _ _ _ _ Hl) in Hlt; [|done].
        by apply (proj1 (Forall_forall _ _) Hb).
    + destruct Hf as [[-> Hall]|(sv & Hin & Hm)].
      * left. split; [done|]. exists new. split; [done|]. intros sv' Hin.
        by apply (proj1 (Forall_forall _ _) Hall), Hperm.
      * right. right. right. exists new, sv. split; [by apply Hperm|done].
  - right. left. destruct Hs as [[->| ->] Hs]; (split; [done|]); destruct Hs as [Hs|Hs]; [by left|right|by left|right];
      subst stored; by rewrite Hs.
Qed.

(** C30. Reads show what the user may read: the listings of subjects, of schemas and of the versions with
    an id are exactly the stored entries whose subject the user may read (of each subject, those the flags
    select), and the schema of an id is answered only to a user who may read some live subject with it, or
    all subjects; for the others it looks like an id that does not exist. Nothing is said of the subjects
    that an answered schema lists on request ([includeSubjects]): they are not filtered. *)
Theorem reads_show_readable {bytes} `{!JsonCodec bytes} `{!SchemaLib} `{!AuthLib} `{!ControllerLib} authorizer
  (st : KarapaceSchemaRegistry bytes) user :
  (forall deleted s, s ∈ controller_subjects_list authorizer st user deleted <->
     s ∈ find_subjects (db_of st) deleted /\ may_read authorizer user s = true) /\
  (forall deleted latest item, db_wf sha1 (db_of st) ->
     item ∈ controller_schemas_list authorizer st user deleted latest <->
     exists s sv, selected (db_of st) deleted latest s sv /\ may_read authorizer user s = true /\
       item = listing_item sv) /\
  (forall text i deleted s v, py_int text = Some i ->
     (exists l, schemas_get_versions authorizer st user text deleted = Ok l /\ (s, v) ∈ l) <->
     (s, v) ∈ get_subject_versions_for_schema (db_of st) i deleted /\ may_read authorizer user s = true) /\
  (forall text i max_id with_subjects format, py_int text = Some i ->
     authorizer_check authorizer user Read "Subject:*" = false ->
     authorizer_check_any authorizer user Read (map subject_resource (subjects_for_schema (db_of st) i)) = false ->
     controller_schemas_get authorizer st user text max_id with_subjects format =
       Raise (http_error 404 SCHEMA_NOT_FOUND)).
Proof.
  split_and!.
  - intros deleted s. apply filter_elem.
  - intros deleted latest item Hwf. rewrite schemas_list_elem. split.
    + intros (s & svs & sv & Hin & Hr & Hsv & ->). exists s, sv. split; [|done]. apply (find_schemas_elem _ _ _ _ _ _ Hwf). eauto.
    + intros (s & sv & (svs & Hin & Hsv)%(find_schemas_elem _ _ _ _ _ _ Hwf) & Hr & ->). eauto 10.
  - intros text i deleted s v Hi. unfold schemas_get_versions, parse_schema_id. rewrite Hi. cbn [mbind result_bind].
    split; [intros (l & [= <-] & Hin); by apply filter_elem in Hin|]. intros Hin. eexists. split; [done|].
    by apply filter_elem.
  - intros text i max_id with_subjects format Hi Hall Hany. unfold controller_schemas_get, parse_schema_id.
    rewrite Hi. cbn [mbind result_bind]. rewrite (proj2 (has_subject_false authorizer st user i)); done.
Qed.

(** Getting a version tells its errors apart: the answer is the version the text names, the latest
    one for "latest" or -1, with the number, id and text stored; 422 is answered exactly for a text
    that names no version, 404 with the subject's code for a subject without versions, and 404 with the
    version's code for a number the subject does not have. Nothing else is ever raised. *)
Theorem version_get_answers {bytes} `{!JsonCodec bytes} `{!SchemaLib} `{!ControllerLib}
  (st : KarapaceSchemaRegistry bytes) s text deleted :
  let versions := find_subject_schemas (db_of st) s deleted in
  match controller_subject_version_get st s text deleted with
  | Ok r => exists tag v sv, Versioner_V (TagStr text) = Ok tag /\ dget v versions = Some sv /\
      (tag = -1 -> forall w, is_Some (dget w versions) -> w <= v) /\ (tag ≠ -1 -> v = tag) /\
      sv_resp_subject r = JStr s /\ sv_resp_version r = JInt v /\ sv_resp_id r = JInt (sv_schema_id sv) /\
      sv_resp_schema r = JStr (schema_str (sv_schema sv))
  | Raise e =>
      (e = http_error 422 INVALID_VERSION_ID /\ Versioner_V (TagStr text) = Raise InvalidVersion) \/
      (e = http_error 404 SUBJECT_NOT_FOUND /\ (s = EmptyString \/ versions = [])) \/
      (e = http_error 404 VERSION_NOT_FOUND /\ exists tag, Versioner_V (TagStr text) = Ok tag /\ tag ≠ -1 /\
         dget tag versions = None)
  end.
Proof.
  intros versions. unfold controller_subject_version_get.
  pose proof (tag_errors (TagStr text)) as Ht. destruct (Versioner_V (TagStr text)) as [tag|e]; cbn [map_raise mbind result_bind].
  - unfold subject_version_get. pose proof (subject_version_find_cases (db_of st) s tag deleted) as Hc. fold versions in Hc.
    destruct (subject_version_find (db_of st) s tag deleted) as [[v sv]|e]; cbn [map_raise mbind result_bind].
    + destruct Hc as (Hv & _ & Hmax & Htag). exists tag, v, sv. split_and!; try done.
      * intros ->. by apply Hmax.
      * intros Hne. apply Htag. by apply Z.eqb_neq.
    + destruct Hc as [[[->| ->] Hs]|(-> & Hl & Hn)]; [tauto|tauto|].
      right. right. split; [done|]. exists tag. split_and!; [done|by apply Z.eqb_neq|done].
  - subst e. by left.
Qed.

(** Bearer authorisation fails closed: when it is enabled, a request outside the documentation and
    the skipped paths passes exactly if it carries a bearer token that is valid and whose roles, at the
    configured path, include one that the configuration gives its method; a method without roles is
    refused to everyone. *)
Theorem bearer_gate_spec `{!WebLib} config request :
  authorization_enabled config = true -> skips_auth config (url_path request) = false ->
  (set_content_types config request = Ok () <-> token_admits config request) /\
  (default [] (dget (upper (method request)) (method_roles config)) = [] -> set_content_types config request ≠ Ok ()).
Proof.
  intros He Hp. split; [by apply bearer_gate|]. rewrite bearer_gate by done.
  intros Hno (t & p & _ & _ & (pa & c & roles & role & _ & _ & Hr & Hin & _)).
  rewrite Hr in Hno. simpl in Hno. subst. by apply elem_of_nil in Hin.
Qed.

(** *** Witnesses: an installation with one user, who may write the subject "s" *)

#[local] Instance demo_auth : AuthLib :=
  {| pbkdf2_hmac _ password _ := password; scrypt password _ := password;
     Pattern := string; re_compile := Ok; pattern_match := String.eqb |}.
#[local] Instance demo_controller : ControllerLib :=
  {| parsed_object_eq a b := String.eqb (schema_str a) (schema_str b); json_loads s := Ok (JStr s);
     protobuf_serialize s := Ok (schema_str s); parse_raw_schema_id _ := Raise ValueError;
     parse_raw_compatibility _ := Raise ValueError |}.
#[local] Instance no_remote : Remote := {| remote _ _ _ _ := Raise ClientConnectionError |}.
#[local] Instance demo_web : WebLib :=
  {| unquote_plus := id; get_best_match _ _ := None;
     jwt_decode token _ _ := if String.eqb token "t" then Ok [("app"%string, JObj [("roles"%string, JList [JStr "admin"])])]
                             else Raise InvalidTokenError;
     parse_raw_master_available _ := Raise ValueError |}.

Definition demo_user : User := mkUser "jo" SHA1 "" "secret".
Definition demo_authorizer : Authorizer :=
  WithFile (mkHTTP (mkAuthorizer [("jo"%string, demo_user)] [mkACLEntry "jo" Write "Subject:s"%string]) 1).
Definition no_oidc : OidcConfig := mkOidc None None None false None [] None [].
Definition demo_oidc : OidcConfig :=
  mkOidc (Some "https://idp"%string) (Some "i"%string) (Some "a"%string) true (Some "app"%string)
    [("GET", ["admin"]); ("PUT", [])]%string (Some "[client_id].roles"%string) ["/_health"]%string.
Definition demo_post : SchemaRequest := mkSchemaRequest "A" AVRO None.
Definition demo_http (m : string) : Request := mkRequest m "/subjects" "" [("Authorization", "Bearer t")]%string "".

Lemma api_writes_are_guarded_witness :
  ready (schema_reader demo_registry) = true /\ primary (master_info demo_registry) = true /\
  (authorization_enabled no_oidc = true -> skips_auth no_oidc (url_path (demo_http "POST")) = false ->
    @token_admits demo_web no_oidc (demo_http "POST")) /\
  (exists content_type, @negotiate_schema_content_type demo_web (demo_http "POST") = Ok content_type) /\
  validate_call (PostVersion "s" demo_post false) = Ok () /\
  exists user res, get_current_user demo_authorizer (Some ("jo", "secret")%string) = Ok user /\
    written_resource (PostVersion "s" demo_post false) = Some res /\ authorizer_check demo_authorizer user Write res = true.
Proof.
  apply (@api_writes_are_guarded (option json) _ trivial_lib text_checkers demo_auth demo_controller no_remote demo_web
    demo_env 5 false demo_authorizer no_oidc (demo_http "POST") (Some ("jo", "secret")%string)
    (PostVersion "s" demo_post false) demo_registry).
  intros Heq. apply (f_equal (fun st => length (topic st))) in Heq. vm_compute in Heq. discriminate Heq.
Defined.

Lemma api_refines_registry_witness :
  let arrivals := [mkArrival (demo_http "POST") (Some ("jo", "secret")%string) (PostVersion "s" demo_post false);
                   mkArrival (demo_http "DELETE") None (DeleteSubject "s" false)] in
  let st' := fold_left (@serve (option json) _ trivial_lib text_checkers demo_auth demo_controller no_remote demo_web
    demo_env 5 false demo_authorizer no_oidc) arrivals demo_registry in
  db_wf id (db_of st').
Proof.
  intros arrivals st'. apply (@api_refines_registry (option json) _ trivial_lib text_checkers demo_auth demo_controller
    no_remote demo_web demo_env 5 false demo_authorizer no_oidc arrivals demo_registry). apply wf_init.
Defined.

Lemma demo_numbered : @numbered (db_of demo_registry).
Proof. intros s v [sv Hsv]. done. Qed.

Lemma subject_post_registers_witness :
  let '(st', r) := @subject_post (option json) _ trivial_lib text_checkers demo_controller no_remote demo_env 5 false
                     "s" demo_post false (demo_http "POST") demo_registry in
  match r with
  | Raise _ => st' = demo_registry
  | Ok i =>
      exists refs sch, @parse_posted (option json) trivial_lib 5 false demo_registry demo_post false = Ok (refs, sch) /\
      synced st' /\ db_reach id (db_of st') /\
      (exists v sv, dget v (find_subject_schemas (db_of st') "s" false) = Some sv /\
        sv_schema_id sv = i /\ fingerprint id (sv_schema sv) = fingerprint id sch) /\
      (st' = demo_registry \/ (@admitted _ trivial_lib text_checkers 5 demo_registry "s" sch /\ exists v,
         version_of (db_of demo_registry) "s" v = None /\ is_Some (version_of (db_of st') "s" v)))
  end.
Proof.
  apply (@subject_post_registers (option json) _ _ trivial_lib trivial_lib_errors trivial_lib_norm text_checkers
    demo_controller no_remote demo_env 5 false "s" demo_post false (demo_http "POST") demo_registry).
  - exact demo_env_live.
  - demo_synced.
  - apply reach_init.
  - exact demo_numbered.
  - intros refs sch _ _. reflexivity.
Defined.


Lemma reads_show_readable_witness :
  @controller_schemas_get (option json) trivial_lib demo_auth demo_controller demo_authorizer demo_one None "1" false true "" =
    Raise (http_error 404 SCHEMA_NOT_FOUND).
Proof.
  apply (@reads_show_readable (option json) _ trivial_lib demo_auth demo_controller demo_authorizer demo_one None)
    with (i := 1); vm_compute; reflexivity.
Defined.

Lemma bearer_gate_spec_witness :
  (set_content_types demo_oidc (demo_http "GET") = Ok () <->
    exists token payload, bearer_token (header (demo_http "GET") "Authorization") = Some token /\
      validate_jwt demo_oidc token = Ok payload /\ has_role demo_oidc "GET" payload) /\
  set_content_types demo_oidc (demo_http "GET") = Ok () /\ set_content_types demo_oidc (demo_http "PUT") ≠ Ok ().
Proof.
  split_and!.
  - by apply (bearer_gate_spec demo_oidc (demo_http "GET")).
  - vm_compute. reflexivity.
  - by apply (bearer_gate_spec demo_oidc (demo_http "PUT")).
Defined.
