(* ===== verification/ProxyAuth.v ===== *)
(** * Credentials and schema cache of the REST proxy

    [kafka_rest_apis/authentication.py]: what an [Authorization] header makes of the configuration of a
    Kafka client; [kafka_rest_apis/schema_cache.py]: the ids of the schemas posted under a subject.
    Parameters: [aiohttp.BasicAuth.decode], and [jwt.decode] without a check of the signature. *)

From Stdlib Require Import QArith.
From S2P Require Import Prelude Json Typing Models Schemas.
Open Scope Z_scope.

(** ** Authorization *)

(** The part of [Config] the credentials are read from and written to. *)
Record AuthConfig : Type := mkAuthConfig {
  rest_authorization : bool;
  bootstrap_uri : option string;
  sasl_bootstrap_uri : option string;
  security_protocol : string;
  sasl_mechanism : option string;
  sasl_oauth_token : option string;
  sasl_plain_username : option string;
  sasl_plain_password : option string;
}.

Class TokenLib : Type := {
  (** [aiohttp.BasicAuth.decode]: login and password *)
  basic_auth_decode : string -> result (string * string);
  (** the [exp] claim of a token *)
  jwt_expiration : string -> result (option Q);
}.

(** [raise_unauthorized], without an error code *)
Definition rest_unauthorized : exn := HTTPResponse 401 None.

(** [auth_header.partition(" ")] *)
Fixpoint partition_blank (s : string) : string * string :=
  match s with
  | EmptyString => (EmptyString, EmptyString)
  | String c s' =>
      if Ascii.eqb c " " then (EmptyString, s')
      else let '(a, b) := partition_blank s' in (String c a, b)
  end.
Definition split_auth_header (auth_header : string) : string * string := partition_blank auth_header.

(** The credentials a header stands for. *)
Inductive SASLConfig : Type :=
  | SASLPlainConfig (mechanism : string) (username password : string)
  | SASLOauthConfig (token : string).

Section Auth.
Context `{!TokenLib}.

Definition get_auth_config_from_header (auth_header : option string) (mechanism : option string) : result SASLConfig :=
  match auth_header with
  | None => Raise rest_unauthorized
  | Some header =>
      let '(token_type, token) := split_auth_header header in
      if String.eqb token_type "Bearer" then Ok (SASLOauthConfig token)
      else if String.eqb token_type "Basic" then
        '(login, password) ← basic_auth_decode header;
        Ok (SASLPlainConfig (default "PLAIN"%string mechanism) login password)
      else Raise rest_unauthorized
  end.

Definition get_expiration_time_from_header (auth_header : string) : result (option Q) :=
  let '(token_type, token) := split_auth_header auth_header in
  if String.eqb token_type "Bearer"
  then reraise (fun e => bool_decide (e = JWTDecodeError)) rest_unauthorized (jwt_expiration token)
  else Ok None.
End Auth.

(** [get_user_proxy]: the configuration of the proxy of a header. *)
Definition delegated_config (config : AuthConfig) (auth : SASLConfig) : AuthConfig :=
  let protocol := if existsb (String.eqb (security_protocol config)) ["SSL"; "SASL_SSL"]%string
                  then "SASL_SSL"%string else "SASL_PLAINTEXT"%string in
  match auth with
  | SASLOauthConfig token =>
      mkAuthConfig (rest_authorization config) (sasl_bootstrap_uri config) (sasl_bootstrap_uri config) protocol
        (Some "OAUTHBEARER"%string) (Some token) (sasl_plain_username config) (sasl_plain_password config)
  | SASLPlainConfig mechanism username password =>
      mkAuthConfig (rest_authorization config) (sasl_bootstrap_uri config) (sasl_bootstrap_uri config) protocol
        (Some mechanism) (sasl_oauth_token config) (Some username) (Some password)
  end.

(** What a Kafka client is given: a token provider, or a name and a password. *)
Inductive ClientAuth : Type :=
  | OauthParams (token : string)
  | PlainParams (mechanism username password : option string).

Definition get_kafka_client_auth_parameters_from_config (config : AuthConfig) : result ClientAuth :=
  if bool_decide (sasl_mechanism config = Some "OAUTHBEARER"%string) then
    match sasl_oauth_token config with
    | None => Raise AssertionError
    | Some token => Ok (OauthParams token)
    end
  else Ok (PlainParams (sasl_mechanism config) (sasl_plain_username config) (sasl_plain_password config)).

(** A client made for a header authenticates as the header says, unless the proxy's own mechanism is
    [OAUTHBEARER]: then a name and a password are dropped for the proxy's token. *)
Lemma delegated_credentials config auth :
  sasl_mechanism config ≠ Some "OAUTHBEARER"%string ->
  (forall m u p, auth = SASLPlainConfig m u p -> m = default "PLAIN"%string (sasl_mechanism config)) ->
  get_kafka_client_auth_parameters_from_config (delegated_config config auth) =
    Ok (match auth with
        | SASLOauthConfig token => OauthParams token
        | SASLPlainConfig m u p => PlainParams (Some m) (Some u) (Some p)
        end).
Proof.
  intros Hm Hauth. unfold get_kafka_client_auth_parameters_from_config. destruct auth as [m u p|token]; simpl; [|done].
  rewrite bool_decide_false; [done|]. rewrite (Hauth m u p eq_refl). intros [= E].
  destruct (sasl_mechanism config); simpl in E; congruence.
Qed.

Lemma plain_credentials_dropped config u p token :
  sasl_mechanism config = Some "OAUTHBEARER"%string -> sasl_oauth_token config = Some token ->
  get_kafka_client_auth_parameters_from_config
    (delegated_config config (SASLPlainConfig (default "PLAIN"%string (sasl_mechanism config)) u p)) = Ok (OauthParams token).
Proof. intros Hm Ht. unfold get_kafka_client_auth_parameters_from_config. simpl. by rewrite Hm, Ht. Qed.

(** ** Schema cache *)

(** The second dict is a [TTLCache] of 100 entries: the one set longest ago leaves when it is full. *)
Record SchemaCache : Type := mkSchemaCache {
  schema_hash_str_to_id : dict string SchemaId;
  id_to_schema_str : dict SchemaId TypedSchema;
}.

Definition TTL_SIZE : nat := 100.
Definition new_schema_cache : SchemaCache := mkSchemaCache [] [].

(** [TTLCache.__setitem__]: a key that is set again goes to the end. *)
Definition ttl_set (schema_id : SchemaId) (schema : TypedSchema) (d : dict SchemaId TypedSchema) : dict SchemaId TypedSchema :=
  let d' := ddel schema_id d in
  (if (TTL_SIZE <=? length d')%nat then tail d' else d') ++ [(schema_id, schema)].

Section Cache.
Context `{!SchemaLib}.

Definition schema_fingerprint (schema : TypedSchema) : string := sha1 (schema_str schema).

(** [SchemaCache.get_schema_id]: an id whose schema has left the cache is forgotten. *)
Definition cache_get_schema_id (schema : TypedSchema) (c : SchemaCache) : SchemaCache * option SchemaId :=
  let fingerprint := schema_fingerprint schema in
  match dget fingerprint (schema_hash_str_to_id c) with
  | None => (c, None)
  | Some i =>
      if din i (id_to_schema_str c) then (c, Some i)
      else (mkSchemaCache (ddel fingerprint (schema_hash_str_to_id c)) (id_to_schema_str c), None)
  end.

Definition cache_has_schema_id (schema_id : SchemaId) (c : SchemaCache) : bool := din schema_id (id_to_schema_str c).

Definition cache_set_schema (schema_id : SchemaId) (schema : TypedSchema) (c : SchemaCache) : SchemaCache :=
  mkSchemaCache (dset (schema_fingerprint schema) schema_id (schema_hash_str_to_id c))
    (ttl_set schema_id schema (id_to_schema_str c)).

Definition cache_get_schema (schema_id : SchemaId) (c : SchemaCache) : option TypedSchema := dget schema_id (id_to_schema_str c).
Definition cache_get_schema_str (schema_id : SchemaId) (c : SchemaCache) : option string :=
  schema_str <$> cache_get_schema schema_id c.

(** An entry reaches its age. *)
Definition cache_expire (schema_id : SchemaId) (c : SchemaCache) : SchemaCache :=
  mkSchemaCache (schema_hash_str_to_id c) (ddel schema_id (id_to_schema_str c)).

(** [TopicSchemaCache]: a cache per subject; a subject without one reads as the empty cache. *)
Definition TopicSchemaCache : Type := dict Subject SchemaCache.

Definition topic_get_schema_id (topic : Subject) (schema : TypedSchema) (t : TopicSchemaCache)
  : TopicSchemaCache * option SchemaId :=
  match dget topic t with
  | None => (t, None)
  | Some c => let '(c', i) := cache_get_schema_id schema c in (dset topic c' t, i)
  end.
Definition topic_has_schema_id (topic : Subject) (schema_id : SchemaId) (t : TopicSchemaCache) : bool :=
  match dget topic t with None => false | Some c => cache_has_schema_id schema_id c end.
Definition topic_set_schema (topic : Subject) (schema_id : SchemaId) (schema : TypedSchema) (t : TopicSchemaCache)
  : TopicSchemaCache := dset topic (cache_set_schema schema_id schema (default new_schema_cache (dget topic t))) t.
Definition topic_get_schema (topic : Subject) (schema_id : SchemaId) (t : TopicSchemaCache) : option TypedSchema :=
  c ← dget topic t; cache_get_schema schema_id c.
Definition topic_get_schema_str (topic : Subject) (schema_id : SchemaId) (t : TopicSchemaCache) : option string :=
  c ← dget topic t; cache_get_schema_str schema_id c.

(** Right after a schema is set its id is found, and a schema that expired is not. *)
Lemma topic_set_get topic i schema t :
  (topic_get_schema_id topic schema (topic_set_schema topic i schema t)).2 = Some i.
Proof.
  unfold topic_get_schema_id, topic_set_schema. rewrite dget_dset_eq.
  unfold cache_get_schema_id, cache_set_schema. simpl. rewrite dget_dset_eq. unfold din.
  assert (Hin : exists s, dget i (ttl_set i schema (id_to_schema_str (default new_schema_cache (dget topic t)))) = Some s).
  { apply dget_Some_key. unfold ttl_set, dkeys. rewrite map_app. apply elem_of_app. right. by left. }
  destruct Hin as [s ->]. done.
Qed.
End Cache.
