(* ===== verification/Proxy.v ===== *)
(** * The REST proxy of one user: metadata, topics and producing

    [UserRestProxy] of [kafka_rest_apis/__init__.py]. The state of a handler is a [Session]: the proxy, the
    serializer all proxies share, how often the world was asked, and the records handed to Kafka. The
    answers of the world (the clock, the admin client, the registry, the producer) come from a [World],
    numbered, so that nothing is assumed to stay the same from one question to the next. Handlers are
    atomic. Texts of errors are not modelled.

    [topic_details] writes the name and the configuration into the metadata of the topic, and that object
    is the cached one, so the cache is written too. *)

From stdpp Require Import pretty.
From Stdlib Require Import Strings.Byte QArith.
From S2P Require Import Prelude Json Typing Models Schemas Framing Serialization KafkaClient KafkaAdmin Rest Consumers ProxyAuth.
Open Scope Z_scope.

(** ** State *)

Record UserRestProxy (C P : Type) : Type := mkUserProxy {
  px_auth : AuthConfig;
  cluster_metadata_cache : ClusterMetadata;
  cluster_metadata_complete : bool;
  global_metadata_birth : Q;
  cluster_metadata_topic_birth : dict string Q;
  admin_client : bool;
  topic_schema_cache : TopicSchemaCache;
  (** the consumers; the deserializer is the shared serializer *)
  consumer_manager : option (dict internal_name (TypedConsumer C));
  last_used : Q;
  auth_expiry : option Q;
  async_producer : option (AsyncKafkaProducer P);
}.
Arguments mkUserProxy {C P}.
Arguments px_auth {C P}.
Arguments cluster_metadata_cache {C P}.
Arguments cluster_metadata_complete {C P}.
Arguments global_metadata_birth {C P}.
Arguments cluster_metadata_topic_birth {C P}.
Arguments admin_client {C P}.
Arguments topic_schema_cache {C P}.
Arguments consumer_manager {C P}.
Arguments last_used {C P}.
Arguments auth_expiry {C P}.
Arguments async_producer {C P}.

Record Session (C P : Type) : Type := mkSession {
  proxy : UserRestProxy C P;
  serializer : Serializer;
  asked : nat;
  handed : list (string * SendParams);
}.
Arguments mkSession {C P}.
Arguments proxy {C P}.
Arguments serializer {C P}.
Arguments asked {C P}.
Arguments handed {C P}.

(** The settings that the handlers read. *)
Record PublishConfig : Type := mkPublishConfig {
  admin_metadata_max_age : Q;
  naming_strategy : NameStrategy;
  name_strategy_validation : bool;
  producer_acks : json;
}.

Record World (P : Type) : Type := mkWorld {
  clock : nat -> Q;
  list_topics : nat -> ClusterListing + client_error;
  describe_configs : nat -> string -> list (dict string (ConfigSource * string) + client_error);
  list_offsets : nat -> string -> Z -> list (Z + client_error) * list (Z + client_error);
  registry : RegistryHttp;
  recursion_limit : nat;
  (** creating the client of the producer, the n-th time *)
  create_producer : nat -> result P;
  (** what [wait_for] itself raises for a record, the buffer of the client, the future of the record *)
  wait_raises : nat -> option exn;
  produce : nat -> string -> SendParams -> () + client_error;
  delivery : nat -> result (option Delivered);
}.
Arguments clock {P}.
Arguments list_topics {P}.
Arguments describe_configs {P}.
Arguments list_offsets {P}.
Arguments registry {P}.
Arguments recursion_limit {P}.
Arguments create_producer {P}.
Arguments wait_raises {P}.
Arguments produce {P}.
Arguments delivery {P}.

Section Proxy.
Context `{!SchemaLib} `{!DataLib} `{!ForCode} {C P : Type}.
Context (config : PublishConfig) (world : World P).
Abbreviation Px := (UserRestProxy C P) (only parsing).
Abbreviation H := (M (Session C P)) (only parsing).

Definition set_proxy (p : Px) (s : Session C P) : Session C P := mkSession p (serializer s) (asked s) (handed s).

(** A question to the world: its number. *)
Definition ask : M (Session C P) nat := fun s =>
  (mkSession (proxy s) (serializer s) (S (asked s)) (handed s), Ok (asked s)).

Definition set_metadata (md : ClusterMetadata) (complete : bool) (global_birth : Q) (births : dict string Q) (p : Px) : Px :=
  mkUserProxy (px_auth p) md complete global_birth births (admin_client p) (topic_schema_cache p) (consumer_manager p)
    (last_used p) (auth_expiry p) (async_producer p).

(** ** Cluster metadata *)

(** [time.monotonic() - birth > max_age] *)
Definition older (now birth : Q) : bool := negb (Qle_bool (now - birth) (admin_metadata_max_age config)).

Definition is_global_metadata_old (now : Q) (p : Px) : bool := older now (global_metadata_birth p).

(** [min] of the births of the topics *)
Definition oldest (births : list Q) (b : Q) : Q := fold_left (fun x y => if Qle_bool x y then x else y) births b.

Definition is_metadata_of_topics_old (now : Q) (topics : list string) (p : Px) : result bool :=
  match mapM (fun t => dget t (cluster_metadata_topic_birth p)) topics with
  | None => Ok true
  | Some [] => Raise ValueError
  | Some (b :: births) => Ok (older now (oldest births b))
  end.

(** [self.admin_client.cluster_metadata(topics)] *)
Definition fetch_metadata (topics : option (list string)) : M (Session C P) ClusterMetadata :=
  s ← gets (fun s => s);
  if negb (admin_client (proxy s)) then raise AttributeError else
  n ← ask; lift (admin_cluster_metadata (list_topics world n) topics).

(** [time.monotonic()] *)
Definition monotonic : M (Session C P) Q := n ← ask; mret (clock world n).

Definition update_all_metadata : M (Session C P) ClusterMetadata :=
  now ← monotonic;
  s ← gets (fun s => s);
  let p := proxy s in
  if negb (is_global_metadata_old now p) && cluster_metadata_complete p then mret (cluster_metadata_cache p) else
  metadata_birth ← monotonic;
  metadata ← fetch_metadata None;
  _ ← modify (fun s => set_proxy (set_metadata metadata true metadata_birth
        (fold_left (fun d kv => dset kv.1 metadata_birth d) (md_topics metadata) (cluster_metadata_topic_birth (proxy s)))
        (proxy s)) s);
  mret metadata.

(** [{topic: cached["topics"][topic] for topic in topics}] *)
Fixpoint pick_topics (topics : list string) (cached acc : dict string (list (string * json)))
  : result (dict string (list (string * json))) :=
  match topics with
  | [] => Ok acc
  | t :: topics => d ← dindex t cached; pick_topics topics cached (dset t d acc)
  end.

(** Whether the answer for some topics differs from what is cached. *)
Definition new_data (cached : dict string (list (string * json))) (kv : string * list (string * json)) : bool :=
  match dget kv.1 cached with
  | None => true
  | Some d => negb (py_eq (JObj d) (JObj kv.2))
  end.

Definition update_metadata_for_topics (topics : list string) : M (Session C P) ClusterMetadata :=
  now ← monotonic;
  s ← gets (fun s => s);
  let p := proxy s in
  old ← lift (is_metadata_of_topics_old now topics p);
  if negb old then
    picked ← lift (pick_topics topics (md_topics (cluster_metadata_cache p)) []);
    mret (mkMetadata picked (md_brokers (cluster_metadata_cache p)))
  else
    metadata_birth ← monotonic;
    metadata ← fetch_metadata (Some topics);
    _ ← modify (fun s =>
      let p := proxy s in
      let cached := cluster_metadata_cache p in
      let need_refresh := negb (forallb (fun b => in_Z b (md_brokers cached)) (md_brokers metadata))
                          || existsb (new_data (md_topics cached)) (md_topics metadata) in
      set_proxy (set_metadata
        (mkMetadata (fold_left (fun d kv => dset kv.1 kv.2 d) (md_topics metadata) (md_topics cached)) (md_brokers cached))
        (if need_refresh then false else cluster_metadata_complete p) (global_metadata_birth p)
        (fold_left (fun d kv => dset kv.1 metadata_birth d) (md_topics metadata) (cluster_metadata_topic_birth p)) p) s);
    mret metadata.

(** A failure to list the topics is the error 500 whose body has a [code] and no [error_code]. *)
Definition metadata_error (e : exn) : exn :=
  if bool_decide (e = KafkaException) then HTTPResponse INTERNAL_SERVER_ERROR None else e.

Definition cluster_metadata (topics : option (list string)) : M (Session C P) ClusterMetadata :=
  catch_map metadata_error
    (match topics with
     | None | Some [] => update_all_metadata
     | Some topics => update_metadata_for_topics topics
     end).

(** ** Topics and partitions *)

(** [except (KeyError, UnknownTopicOrPartitionError, TopicAuthorizationFailedError)] *)
Definition unknown_topic (e : exn) : bool :=
  match e with UnknownTopicOrPartitionError | TopicAuthorizationFailedError => true | _ => false end.
Definition topic_not_found (e : exn) : exn :=
  if unknown_topic e || bool_decide (e = KeyError) then not_found TOPIC_NOT_FOUND else e.

Definition get_topic_info (topic : string) : M (Session C P) (list (string * json)) :=
  catch_map topic_not_found (md ← cluster_metadata (Some [topic]); lift (dindex topic (md_topics md))).

Definition validate_partition_id (partition_id : string) : result Z :=
  match py_int partition_id with Some z => Ok z | None => Raise (not_found HTTP_NOT_FOUND) end.

(** [p["partition"] == partition] *)
Definition has_partition (partition : Z) (p : json) : bool := py_eq (match p with JObj d => jget "partition" d | _ => JNull end) (JInt partition).

Definition partitions_of (d : list (string * json)) : result (list json) :=
  j ← dindex "partitions"%string d; match j with JList l => Ok l | _ => Raise TypeError end.

Definition get_partition_info (topic partition : string) : M (Session C P) json :=
  partition ← lift (validate_partition_id partition);
  catch_map topic_not_found
    (topic_data ← get_topic_info topic;
     partitions ← lift (partitions_of topic_data);
     match List.find (has_partition partition) partitions with
     | Some p => mret p
     | None => raise (not_found PARTITION_NOT_FOUND)
     end).

Definition list_topics_handler : M (Session C P) response :=
  md ← cluster_metadata None;
  mret (r_ok (JList (map JStr (dkeys (md_topics md))))).

Definition string_dict (d : dict string string) : json := JObj (dmap JStr d).

(** [get_topic_config] under the lock of the admin client *)
Definition topic_config (topic : string) : M (Session C P) (dict string string) :=
  s ← gets (fun s => s);
  if negb (admin_client (proxy s)) then raise AttributeError else
  n ← ask; lift (get_topic_config (describe_configs world n topic) None None).

(** The entry of the topic, in the cache and in the answer. *)
Definition annotate (topic : string) (data : list (string * json)) (s : Session C P) : Session C P :=
  let p := proxy s in
  let cached := cluster_metadata_cache p in
  set_proxy (set_metadata (mkMetadata (dset topic data (md_topics cached)) (md_brokers cached))
    (cluster_metadata_complete p) (global_metadata_birth p) (cluster_metadata_topic_birth p) p) s.

Definition topic_details (topic : string) : M (Session C P) response :=
  catch_map (fun e => if unknown_topic e then not_found UNKNOWN_TOPIC_OR_PARTITION else e)
    (metadata ← cluster_metadata (Some [topic]);
     cfg ← topic_config topic;
     match dget topic (md_topics metadata) with
     | None => raise (not_found TOPIC_NOT_FOUND)
     | Some data =>
         let data := dset "configs"%string (string_dict cfg) (dset "name"%string (JStr topic) data) in
         _ ← modify (annotate topic data);
         mret (r_ok (JObj data))
     end).

Definition list_partitions (topic : string) : M (Session C P) response :=
  catch_map topic_not_found
    (metadata ← cluster_metadata (Some [topic]);
     partitions ← lift (d ← dindex topic (md_topics metadata); dindex "partitions"%string d);
     mret (r_ok partitions)).

Definition partition_details (topic partition_id : string) : M (Session C P) response :=
  p ← get_partition_info topic partition_id; mret (r_ok p).

(** [get_offsets] under the lock of the admin client *)
Definition px_get_offsets (topic : string) (partition_id : Z) : M (Session C P) (Z * Z) :=
  s ← gets (fun s => s);
  if negb (admin_client (proxy s)) then raise AttributeError else
  n ← ask;
  let '(latest, earliest) := list_offsets world n topic partition_id in lift (admin_get_offsets latest earliest).

Definition partition_offsets (topic partition_id : string) : M (Session C P) response :=
  partition_id ← lift (validate_partition_id partition_id);
  catch
    ('(beginning, end_) ← px_get_offsets topic partition_id;
     mret (r_ok (JObj [("beginning_offset", JInt beginning); ("end_offset", JInt end_)]%string)))
    (fun e =>
       match e with
       | TopicAuthorizationFailedError => raise forbidden
       | UnknownTopicOrPartitionError =>
           metadata ← cluster_metadata None;
           raise (not_found (if din topic (md_topics metadata) then PARTITION_NOT_FOUND else TOPIC_NOT_FOUND))
       | e => raise e
       end).

(** A copy of the metadata without the topics. *)
Definition list_brokers : M (Session C P) response :=
  metadata ← cluster_metadata None;
  mret (r_ok (JObj [("brokers"%string, JList (map JInt (md_brokers metadata)))])).

(** ** The schema of a request *)

Definition subject_id_key (t : SubjectType) : string := (subject_type_value t +:+ "_schema_id")%string.
Definition subject_schema_key (t : SubjectType) : string := (subject_type_value t +:+ "_schema")%string.

Definition is_valid_schema_request (data : list (string * json)) (prefix : SubjectType) : bool :=
  let schema_id := jget (subject_id_key prefix) data in
  if truthy schema_id then
    match int_of_json schema_id with
    | Ok _ => true
    | Raise e => negb (is_value_error e || bool_decide (e = TypeError))
    end
  else match jget (subject_schema_key prefix) data with JStr _ => true | _ => false end.

(** A computation on the shared serializer *)
Definition on_serializer {A} (f : M Serializer A) : M (Session C P) A := fun s =>
  let '(ser, r) := f (serializer s) in (mkSession (proxy s) ser (asked s) (handed s), r).

Definition set_schema_cache (t : TopicSchemaCache) (p : Px) : Px :=
  mkUserProxy (px_auth p) (cluster_metadata_cache p) (cluster_metadata_complete p) (global_metadata_birth p)
    (cluster_metadata_topic_birth p) (admin_client p) t (consumer_manager p) (last_used p) (auth_expiry p) (async_producer p).

(** [_query_schema_id_from_cache_or_registry] *)
Definition query_schema_id (parsed_schema : TypedSchema) (subject_name : Subject) : M (Session C P) SchemaId :=
  cached ← (fun s => let '(t, i) := topic_get_schema_id subject_name parsed_schema (topic_schema_cache (proxy s)) in
                     (set_proxy (set_schema_cache t (proxy s)) s, Ok i));
  match cached with
  | Some schema_id => mret schema_id
  | None =>
      schema_id ← on_serializer (upsert_id_for_schema (registry world) parsed_schema subject_name);
      _ ← modify (fun s => set_proxy (set_schema_cache
            (topic_set_schema subject_name schema_id parsed_schema (topic_schema_cache (proxy s))) (proxy s)) s);
      mret schema_id
  end.

(** [subject_not_included]; subjects that are no list of names raise. *)
Definition subject_not_included (topic : string) (subject_type : SubjectType) (schema : TypedSchema) (subjects : json)
  : result bool :=
  subject ← get_subject_name topic schema subject_type (naming_strategy config);
  b ← py_in subject subjects;
  Ok (negb b).

(** [_query_schema_and_subjects] *)
Definition query_schema_and_subjects (schema_id : SchemaId) (need_new_call : TypedSchema -> json -> result bool)
  : M (Session C P) (TypedSchema * json) :=
  catch_map (fun e => if bool_decide (e = SchemaRetrievalError) then InvalidSchema else e)
    (on_serializer (get_schema_for_id (registry world) (recursion_limit world) schema_id (Some need_new_call))).

(** [get_schema_id]: an id that is given is checked, a schema that is given is registered. *)
Definition proxy_get_schema_id (data : list (string * json)) (topic : string) (subject_type : SubjectType)
  (schema_type : SchemaType) : M (Session C P) SchemaId :=
  schema_id ← lift (match dget (subject_id_key subject_type) data with
                    | Some j => z ← int_of_json j; Ok (Some z)
                    | None => Ok None
                    end);
  match schema_id, jget (subject_schema_key subject_type) data with
  | None, JNull => raise InvalidSchema
  | None, JStr schema_str =>
      parsed_schema ← lift (validated_parse schema_type schema_str None None);
      subject_name ← lift (get_subject_name topic parsed_schema subject_type (naming_strategy config));
      query_schema_id parsed_schema subject_name
  | None, _ => raise TypeError
  | Some schema_id, _ =>
      '(parsed_schema, valid_subjects) ←
         query_schema_and_subjects schema_id (subject_not_included topic subject_type);
      not_included ← lift (if name_strategy_validation config
                           then subject_not_included topic subject_type parsed_schema valid_subjects else Ok false);
      if (not_included : bool) then raise InvalidSchema else mret schema_id
  end.

Definition SCHEMA_MAPPINGS (format : string) : option SchemaType :=
  if String.eqb format "avro" then Some AVRO
  else if String.eqb format "jsonschema" then Some JSONSCHEMA
  else if String.eqb format "protobuf" then Some PROTOBUF
  else None.

Definition BAD_REQUEST : Z := 400.
Definition REQUEST_TIMEOUT : Z := 408.

Definition schema_info_error (e : exn) : exn :=
  match e with
  | InvalidPayload => error_response BAD_REQUEST HTTP_BAD_REQUEST
  | SchemaRetrievalError => error_response REQUEST_TIMEOUT SCHEMA_RETRIEVAL_ERROR
  | InvalidSchema => error_response UNPROCESSABLE_ENTITY INVALID_DATA
  | e => e
  end.

(** [validate_schema_info]: the request with the id of its schema. *)
Definition validate_schema_info (data : list (string * json)) (subject_type : SubjectType) (topic schema_type : string)
  : M (Session C P) (list (string * json)) :=
  match SCHEMA_MAPPINGS schema_type with
  | None => raise (error_response NOT_FOUND HTTP_NOT_FOUND)
  | Some t =>
      schema_id ← catch_map schema_info_error (proxy_get_schema_id data topic subject_type t);
      mret (dset (subject_id_key subject_type) (JInt schema_id) data)
  end.

(** ** The format of a request *)

Definition PUBLISH_KEYS : list string := ["records"; "value_schema"; "value_schema_id"; "key_schema"; "key_schema_id"]%string.
Definition RECORD_KEYS : list string := map subject_type_value [SubjectKey; SubjectValue; SubjectPartition].
Definition only_keys (allowed : list string) (d : list (string * json)) : bool :=
  forallb (fun k => existsb (String.eqb k) allowed) (dkeys d).

Definition invalid_request : exn := unprocessable_entity HTTP_UNPROCESSABLE_ENTITY.

(** One record, with its partition as an integer. *)
Definition validate_record (r : json) : result json :=
  match r with
  | JObj _ =>
      r ← convert_to_int r "partition";
      if only_keys RECORD_KEYS (as_dict r) then Ok r else Raise invalid_request
  | _ => Raise (error_response BAD_REQUEST HTTP_BAD_REQUEST)
  end.

(** [all_empty] *)
Definition all_empty (records : list json) (key : SubjectType) : bool :=
  forallb (fun item => is_none (jget (subject_type_value key) (as_dict item))) records.

Definition needs_schema (format : string) : bool := existsb (String.eqb format) ["avro"; "jsonschema"; "protobuf"]%string.

(** The schema of the keys or of the values, when one of them is there. *)
Definition validate_subject (format topic : string) (records : list json) (data : list (string * json))
  (subject_type : SubjectType) (code : Z) : M (Session C P) (list (string * json)) :=
  if all_empty records subject_type then mret data
  else if negb (is_valid_schema_request data subject_type) then raise (HTTPResponse UNPROCESSABLE_ENTITY (Some code))
  else catch_map (fun e => if bool_decide (e = InvalidMessageSchema) then unprocessable_entity INVALID_DATA else e)
         (validate_schema_info data subject_type topic format).

(** The records of a request that is well formed, and the request with the ids of its schemas. *)
Definition validate_publish_request_format (data : list (string * json)) (format topic : string)
  : M (Session C P) (list json * list (string * json)) :=
  if negb (opt_truthy (dget "records"%string data)) || negb (only_keys PUBLISH_KEYS data) then raise invalid_request else
  match jget "records" data with
  | JList records =>
      records ← lift (map_res validate_record records);
      if needs_schema format then
        data ← validate_subject format topic records data SubjectKey 42201;
        data ← validate_subject format topic records data SubjectValue 42202;
        mret (records, data)
      else mret (records, data)
  | _ => raise (error_response BAD_REQUEST HTTP_BAD_REQUEST)
  end.

(** ** Serialising the records *)

(** A falsy object is no bytes at all, whatever the format. *)
Definition proxy_serialize (obj : json) (format : string) (schema_id : json) : M (Session C P) bytes :=
  if negb (truthy obj) then mret []
  else if String.eqb format "json" then mret (json_encode obj)
  else if String.eqb format "binary" then
    lift (match b64decode obj with Ok b => Ok b | Raise _ => Raise (error_response BAD_REQUEST HTTP_BAD_REQUEST) end)
  else if needs_schema format then
    schema_id ← lift (as_int schema_id);
    '(schema, _) ← on_serializer (get_schema_for_id (registry world) (recursion_limit world) schema_id None);
    on_serializer (serialize schema obj)
  else raise FormatError.

(** Key, value and partition of a record; a record without the member gets the default partition. *)
Definition prepare_record (format : string) (data : list (string * json)) (default_partition : json) (record : json)
  : M (Session C P) SendParams :=
  let record := as_dict record in
  key ← (match jget "key" record with
         | JNull => mret None
         | k => b ← proxy_serialize k format (jget "key_schema_id" data); mret (Some b)
         end);
  value ← proxy_serialize (jget "value" record) format (jget "value_schema_id" data);
  partition ← lift (match jget_default "partition" default_partition record with
                    | JNull => Ok None
                    | j => z ← as_int j; Ok (Some z)
                    end);
  mret (mkSend key (Some value) partition).

Fixpoint prepare_records (format : string) (data : list (string * json)) (default_partition : json) (records : list json)
  : M (Session C P) (list SendParams) :=
  match records with
  | [] => mret []
  | r :: records =>
      p ← prepare_record format data default_partition r;
      ps ← prepare_records format data default_partition records;
      mret (p :: ps)
  end.

Definition prepare_error (e : exn) : exn :=
  match e with
  | FormatError | B64DecodeError => unprocessable_entity INVALID_DATA
  | InvalidMessageSchema | InvalidPayload => error_response UNPROCESSABLE_ENTITY INVALID_DATA
  | SchemaRetrievalError => error_response REQUEST_TIMEOUT SCHEMA_RETRIEVAL_ERROR
  | e => e
  end.

(** ** Producing *)

Definition set_producer (a : option (AsyncKafkaProducer P)) (s : Session C P) : Session C P :=
  let p := proxy s in
  set_proxy (mkUserProxy (px_auth p) (cluster_metadata_cache p) (cluster_metadata_complete p) (global_metadata_birth p)
    (cluster_metadata_topic_birth p) (admin_client p) (topic_schema_cache p) (consumer_manager p) (last_used p) (auth_expiry p) a) s.

(** The attempts of [_maybe_create_async_producer]: a producer that does not start is stopped. *)
Fixpoint create_producer_attempts (retries : list bool) : M (Session C P) () :=
  match retries with
  | [] => mret ()
  | retry :: retries =>
      n ← ask;
      let '(a, r) := start_producer (create_producer world n) new_producer in
      match r with
      | Ok _ => modify (set_producer (Some a))
      | Raise e =>
          if (bool_decide (e = NoBrokersAvailable) || bool_decide (e = AuthenticationFailedError)) && retry
          then create_producer_attempts retries else raise e
      end
  end.

(** [acks]: "all" is -1. *)
Definition acks : result Z :=
  match producer_acks config with JStr s => if String.eqb s "all" then Ok (-1) else int_of_json (JStr s) | j => int_of_json j end.

Definition maybe_create_async_producer : M (Session C P) () :=
  s ← gets (fun s => s);
  match async_producer (proxy s) with
  | Some _ => mret ()
  | None => _ ← lift acks; create_producer_attempts [true; true; false]
  end.

(** What is answered for a record. *)
Inductive ProduceResult : Type :=
  | Produced (offset partition : Z)
  | ProduceError (error_code : Z).

(** [BrokerResponseError] and its [retriable]; the classes of the model that derive from it. *)
Definition broker_response (e : exn) : option bool :=
  match e with
  | BrokerResponseError retriable => Some retriable
  | UnknownTopicOrPartitionError => Some true
  | TopicAuthorizationFailedError | GroupAuthorizationFailedError | MessageSizeTooLargeError | UnknownError => Some false
  | _ => None
  end.

(** The second [gather]: a cancelled future is no [Exception] and has no [offset]. *)
Definition produce_result (r : result (option Delivered)) : result ProduceResult :=
  match r with
  | Ok None => Ok (Produced (-1) 0)
  | Ok (Some d) => Ok (Produced (default (-1) (delivered_offset d)) (delivered_partition d))
  | Raise CancelledError => Raise AttributeError
  | Raise e => Ok (ProduceError (match broker_response e with Some true => 2 | _ => 1 end))
  end.

(** [producer.send] of the n-th record under [wait_for]: the record is in the buffer of the client, or it
    is not and an exception is the result. *)
Definition send_record (topic : string) (params : SendParams) : M (Session C P) (result nat) :=
  n ← ask;
  match wait_raises world n, producer_send (produce world n) topic params with
  | Some e, _ => mret (Raise e)
  | None, Raise e => mret (Raise e)
  | None, Ok _ =>
      _ ← modify (fun s => mkSession (proxy s) (serializer s) (asked s) (handed s ++ [(topic, params)]));
      mret (Ok n)
  end.

Fixpoint send_records (topic : string) (records : list SendParams) : M (Session C P) (list (result nat)) :=
  match records with
  | [] => mret []
  | p :: records => r ← send_record topic p; rs ← send_records topic records; mret (r :: rs)
  end.

(** The first [gather] passes a cancellation on as if it were a future, and the second one refuses it. *)
Definition produce_messages (topic : string) (prepared_records : list SendParams) : M (Session C P) (list ProduceResult) :=
  _ ← maybe_create_async_producer;
  sent ← send_records topic prepared_records;
  if existsb (fun r => match r with Raise CancelledError => true | _ => false end) sent then raise TypeError
  else lift (map_res (fun r => produce_result (match r with Ok n => delivery world n | Raise e => Raise e end)) sent).

Definition produce_result_json (r : ProduceResult) : json :=
  match r with
  | Produced offset partition => JObj [("offset", JInt offset); ("partition", JInt partition)]%string
  | ProduceError code => JObj [("error_code", JInt code); ("error", JStr "")]%string
  end.

Definition is_produce_error (r : ProduceResult) : bool := match r with ProduceError _ => true | Produced _ _ => false end.

Definition publish_response (data : list (string * json)) (results : list ProduceResult) : response :=
  (if existsb is_produce_error results then UNPROCESSABLE_ENTITY else HTTP_OK,
   JObj [("key_schema_id", jget "key_schema_id" data); ("value_schema_id", jget "value_schema_id" data);
         ("offsets", JList (map produce_result_json results))]%string).

(** Everything up to producing: the request is checked, then its records are serialised. *)
Definition prepare_publish (topic : string) (partition_id : option string) (embedded_format : string) (data : json)
  : M (Session C P) (list (string * json) * list SendParams) :=
  _ ← get_topic_info topic;
  partition ← (match partition_id with
               | None => mret JNull
               | Some p => _ ← get_partition_info topic p; z ← lift (int_of_json (JStr p)); mret (JInt z)
               end);
  data ← lift (convert_keys ["key_schema_id"; "value_schema_id"]%string data);
  '(records, data) ← validate_publish_request_format (as_dict data) embedded_format topic;
  prepared ← catch_map prepare_error (prepare_records embedded_format data partition records);
  mret (data, prepared).

(** [publish] *)
Definition publish (topic : string) (partition_id : option string) (embedded_format : string) (data : json)
  : M (Session C P) response :=
  '(data, prepared) ← prepare_publish topic partition_id embedded_format data;
  results ← produce_messages topic prepared;
  mret (publish_response data results).

Definition publish_unavailable (e : exn) : exn :=
  if bool_decide (e = NoBrokersAvailable) || bool_decide (e = AuthenticationFailedError)
  then service_unavailable HTTP_SERVICE_UNAVAILABLE else e.

Definition partition_publish (topic partition_id embedded_format : string) (data : json) : M (Session C P) response :=
  catch_map publish_unavailable (publish topic (Some partition_id) embedded_format data).
Definition topic_publish (topic embedded_format : string) (data : json) : M (Session C P) response :=
  catch_map publish_unavailable (publish topic None embedded_format data).

(** ** Consumers, and the end of a proxy *)

(** A request of a consumer: the manager works with the shared serializer; a closed proxy has none. *)
Definition on_manager {A} (f : M (ConsumerManager C) A) : M (Session C P) A := fun s =>
  match consumer_manager (proxy s) with
  | None => (s, Raise AttributeError)
  | Some d =>
      let '(m, r) := f (mkManager d (serializer s)) in
      let p := proxy s in
      (mkSession (mkUserProxy (px_auth p) (cluster_metadata_cache p) (cluster_metadata_complete p) (global_metadata_birth p)
          (cluster_metadata_topic_birth p) (admin_client p) (topic_schema_cache p) (Some (consumers m)) (last_used p)
          (auth_expiry p) (async_producer p)) (deserializer m) (asked s) (handed s), r)
  end.

(** [create_internal_name] *)
Definition create_internal_name (group_name consumer_name : string) : internal_name :=
  (group_name, JStr consumer_name).

(** Partitions of the topics of the metadata, as the manager reads them. *)
Definition cluster_topics (md : ClusterMetadata) : ClusterTopics :=
  dmap (fun d => match jget "partitions" d with
                 | JList l => map (fun p => match p with JObj d => match jget "partition" d with JInt z => z | _ => 0 end | _ => 0 end) l
                 | _ => []
                 end) (md_topics md).

Definition px_commit_offsets `{!NewTopicPartition} `{!ConfluentConsumer C} (group_name instance : string)
  (request_data : dict string json) : M (Session C P) response :=
  md ← cluster_metadata None;
  on_manager (commit_offsets (cluster_topics md) (create_internal_name group_name instance) request_data).

(** [aclose]: the clients are let go of; then, in the order in which the exit stack unwinds, the manager
    stops its consumers and the producer is stopped. The clients of the consumers, closed. *)
Definition let_go (p : Px) : Px :=
  mkUserProxy (px_auth p) (cluster_metadata_cache p) (cluster_metadata_complete p) (global_metadata_birth p)
    (cluster_metadata_topic_birth p) false (topic_schema_cache p) None (last_used p) (auth_expiry p) (async_producer p).
Definition stop_async_producer (p : Px) : Px :=
  mkUserProxy (px_auth p) (cluster_metadata_cache p) (cluster_metadata_complete p) (global_metadata_birth p)
    (cluster_metadata_topic_birth p) (admin_client p) (topic_schema_cache p) (consumer_manager p) (last_used p) (auth_expiry p)
    ((fun a => (stop_producer a).1) <$> async_producer p).
Definition aclose_manager `{!ConfluentConsumer C} (manager : option (dict internal_name (TypedConsumer C)))
  : M (Session C P) (list (KafkaConsumer C)) := fun s =>
  match manager with
  | None => (s, Ok [])
  | Some d => let '(m, r) := aclose (mkManager d (serializer s)) in (mkSession (proxy s) (deserializer m) (asked s) (handed s), r)
  end.
Definition px_aclose `{!ConfluentConsumer C} : M (Session C P) (list (KafkaConsumer C)) :=
  manager ← gets (fun s => consumer_manager (proxy s));
  _ ← modify (fun s => set_proxy (let_go (proxy s)) s);
  closed ← aclose_manager manager;
  _ ← modify (fun s => set_proxy (stop_async_producer (proxy s)) s);
  mret closed.

Definition num_consumers (p : UserRestProxy C P) : Z := match consumer_manager p with Some d => Z.of_nat (length d) | None => 0 end.

Definition mark_used (now : Q) (p : Px) : Px :=
  mkUserProxy (px_auth p) (cluster_metadata_cache p) (cluster_metadata_complete p) (global_metadata_birth p)
    (cluster_metadata_topic_birth p) (admin_client p) (topic_schema_cache p) (consumer_manager p) now (auth_expiry p) (async_producer p).

End Proxy.
