(* ===== verification/KafkaRest.v ===== *)
(** * The proxies of the REST proxy's users

    [KafkaRest] of [kafka_rest_apis/__init__.py]: a proxy for each [Authorization] header when Kafka
    authorises the users, a single one otherwise; which proxy serves a request, the requests it serves,
    and the janitor that disconnects idle proxies. [RestCall] has a constructor per route. The serializer
    is the one object that all proxies share. *)

From Stdlib Require Import Strings.Byte QArith.
From S2P Require Import Prelude Json Typing Models Schemas Framing Serialization KafkaClient KafkaAdmin Rest Consumers ProxyAuth Proxy.
Open Scope Z_scope.

Record KafkaRest (C P : Type) : Type := mkKafkaRest {
  proxies : dict string (UserRestProxy C P);
  shared_serializer : Serializer;
}.
Arguments mkKafkaRest {C P}.
Arguments proxies {C P}.
Arguments shared_serializer {C P}.

Definition IDLE_PROXY_TIMEOUT : Q := 300.
Definition AUTH_EXPIRY_TOLERANCE : Q := 300.

(** The settings of the installation. *)
Record RestConfig : Type := mkRestConfig {
  rest_auth : AuthConfig;
  rest_publish : PublishConfig;
  rest_consumers : ProxyConfig;
  consumer_idle_disconnect_timeout : Z;
}.

Section KafkaRest.
Context `{!SchemaLib} `{!DataLib} `{!ForCode} `{!TokenLib} `{!NewTopicPartition} {C P : Type} `{!ConfluentConsumer C}.
Context (config : RestConfig).
Abbreviation Rest := (KafkaRest C P) (only parsing).

(** ** The proxy of a request *)

(** [init_admin_client]: three attempts, whatever fails. *)
Fixpoint admin_attempts (retries : list bool) (n : nat) (connect : nat -> ClientAuth -> result ()) (auth : AuthConfig)
  : result () :=
  match retries with
  | [] => Ok ()
  | retry :: retries =>
      match (params ← get_kafka_client_auth_parameters_from_config auth; connect n params) with
      | Ok _ => Ok ()
      | Raise e => if retry then admin_attempts retries (S n) connect auth else Raise e
      end
  end.
Definition init_admin_client (connect : nat -> ClientAuth -> result ()) (auth : AuthConfig) : result () :=
  admin_attempts [true; true; false] 0 connect auth.

(** [UserRestProxy.__init__] *)
Definition new_user_proxy (connect : nat -> ClientAuth -> result ()) (now : Q) (auth : AuthConfig) (expiry : option Q)
  : result (UserRestProxy C P) :=
  _ ← init_admin_client connect auth;
  Ok (mkUserProxy auth (mkMetadata [] []) false 0%Q [] true [] (Some []) now expiry None).

Definition set_proxies (d : dict string (UserRestProxy C P)) (k : Rest) : Rest := mkKafkaRest d (shared_serializer k).

(** [if self.proxies.get(key) is None: self.proxies[key] = ...] *)
Definition ensure_proxy (key : string) (create : result (UserRestProxy C P)) : M Rest () := fun k =>
  match dget key (proxies k) with
  | Some _ => (k, Ok ())
  | None =>
      match create with
      | Ok p => (set_proxies (dset key p (proxies k)) k, Ok ())
      | Raise e => (k, Raise e)
      end
  end.

(** The first half of [get_user_proxy]: the proxy is there, and its key. A user that Kafka does not let in
    gets 403. *)
Definition user_key (connect : nat -> ClientAuth -> result ()) (now : Q) (auth_header : option string) : M Rest string :=
  catch_map (fun e => if bool_decide (e = NoBrokersAvailable) || bool_decide (e = AuthenticationFailedError)
                      then forbidden else e)
    (if rest_authorization (rest_auth config) then
       auth ← lift (get_auth_config_from_header auth_header (sasl_mechanism (rest_auth config)));
       let header := default EmptyString auth_header in
       expiry ← lift (get_expiration_time_from_header header);
       _ ← ensure_proxy header (new_user_proxy connect now (delegated_config (rest_auth config) auth) expiry);
       mret header
     else
       _ ← ensure_proxy EmptyString (new_user_proxy connect now (rest_auth config) None);
       mret EmptyString).

(** [get_user_proxy]: the key of the proxy that serves the request. *)
Definition get_user_proxy (connect : nat -> ClientAuth -> result ()) (now : Q) (auth_header : option string)
  : M Rest string :=
  key ← user_key connect now auth_header;
  k ← gets (fun k : Rest => k);
  p ← lift (dindex key (proxies k));
  _ ← modify (set_proxies (dset key (mark_used now p) (proxies k)));
  mret key.

(** ** The requests *)

Inductive RestCall : Type :=
  | ListBrokers
  | CommitOffsets (group_name instance : string) (request : dict string json)
  | GetOffsets (group_name instance : string) (request : dict string json)
  | SetSubscription (group_name instance : string) (request : dict string json)
  | GetSubscription (group_name instance : string)
  | DeleteSubscription (group_name instance : string)
  | SetAssignments (group_name instance : string) (request : dict string json)
  | GetAssignments (group_name instance : string)
  | SeekBeginning (group_name instance : string) (request : dict string json)
  | SeekEnd (group_name instance : string) (request : dict string json)
  | SeekTo (group_name instance : string) (request : dict string json)
  | Fetch (group_name instance : string) (accept : json) (query : dict string string)
  | CreateConsumer (group_name : string) (request : dict string json)
  | DeleteConsumer (group_name instance : string)
  | PartitionOffsets (topic partition_id : string)
  | PartitionDetails (topic partition_id : string)
  | PartitionPublish (topic partition_id format : string) (request : json)
  | ListPartitions (topic : string)
  | ListTopics
  | TopicDetails (topic : string)
  | TopicPublish (topic format : string) (request : json).

(** What the consumers of a request need of the world. *)
Record ConsumerWorld : Type := mkConsumerWorld {
  starts : nat -> ConsumerParams -> result (KafkaConsumer C);
  uuid : string;
  urljoin : string -> string -> string;
  fetch_fuel : nat;
  offset_beginning : json;
  offset_end : json;
}.

Definition user_call (world : World P) (cw : ConsumerWorld) (call : RestCall) : M (Session C P) response :=
  let pc := rest_publish config in
  match call with
  | ListBrokers => list_brokers pc world
  | CommitOffsets g i request => px_commit_offsets pc world g i request
  | GetOffsets g i request => on_manager (get_offsets (create_internal_name g i) request)
  | SetSubscription g i request => on_manager (set_subscription (create_internal_name g i) request)
  | GetSubscription g i => on_manager (get_subscription (create_internal_name g i))
  | DeleteSubscription g i => on_manager (delete_subscription (create_internal_name g i))
  | SetAssignments g i request => on_manager (set_assignments (create_internal_name g i) request)
  | GetAssignments g i => on_manager (get_assignments (create_internal_name g i))
  | SeekBeginning g i request =>
      on_manager (seek_limit (offset_beginning cw) (offset_end cw) true (create_internal_name g i) request)
  | SeekEnd g i request =>
      on_manager (seek_limit (offset_beginning cw) (offset_end cw) false (create_internal_name g i) request)
  | SeekTo g i request => on_manager (seek_to (create_internal_name g i) request)
  | Fetch g i accept query =>
      on_manager (fetch (rest_consumers config) (registry world) (recursion_limit world) (fetch_fuel cw) (clock world)
        (create_internal_name g i) accept query)
  | CreateConsumer g request =>
      on_manager (create_consumer (rest_consumers config) (starts cw) (uuid cw) (urljoin cw) g request)
  | DeleteConsumer g i => on_manager (delete_consumer (create_internal_name g i))
  | PartitionOffsets t p => partition_offsets pc world t p
  | PartitionDetails t p => partition_details pc world t p
  | PartitionPublish t p format request => partition_publish pc world t p format request
  | ListPartitions t => list_partitions pc world t
  | ListTopics => list_topics_handler pc world
  | TopicDetails t => topic_details pc world t
  | TopicPublish t format request => topic_publish pc world t format request
  end.

(** A handler on the proxy of a key and on the shared serializer. *)
Definition with_proxy {A} (key : string) (f : M (Session C P) A) : M Rest A := fun k =>
  match dget key (proxies k) with
  | None => (k, Raise KeyError)
  | Some p =>
      let '(s, r) := f (mkSession p (shared_serializer k) 0 []) in
      (mkKafkaRest (dset key (proxy s) (proxies k)) (serializer s), r)
  end.

(** A request: its proxy, then the handler. *)
Definition serve_request (connect : nat -> ClientAuth -> result ()) (now : Q) (world : World P) (cw : ConsumerWorld)
  (auth_header : option string) (call : RestCall) : M Rest response :=
  key ← get_user_proxy connect now auth_header;
  with_proxy key (user_call world cw call).

(** ** The janitor *)

(** Whether a proxy is to be disconnected; [utc] is the time its token's expiry is compared with. *)
Definition is_idle (utc now : Q) (p : UserRestProxy C P) : bool :=
  let before a b := negb (Qle_bool b a) in
  match auth_expiry p with Some e => before e (utc + AUTH_EXPIRY_TOLERANCE)%Q | None => false end ||
  if 0 <? num_consumers p
  then (0 <? consumer_idle_disconnect_timeout config) &&
       before (last_used p + inject_Z (consumer_idle_disconnect_timeout config))%Q now
  else before (last_used p + IDLE_PROXY_TIMEOUT)%Q now.

(** A proxy that was taken out and closed: the proxy after its [aclose], and the clients of its
    consumers that were closed. *)
Definition closed_proxy (k : Rest) (p : UserRestProxy C P) : UserRestProxy C P * list (KafkaConsumer C) :=
  let '(s, r) := px_aclose (mkSession p (shared_serializer k) 0 []) in
  (proxy s, match r with Ok closed => closed | Raise _ => [] end).

(** [_disconnect_idle_proxy_if_any]: the first one that is idle; the proxy that was closed, if any. *)
Definition disconnect_idle_proxy (utc now : Q) (k : Rest)
  : Rest * option (string * (UserRestProxy C P * list (KafkaConsumer C))) :=
  match List.find (fun kv => is_idle utc now kv.2) (proxies k) with
  | None => (k, None)
  | Some (key, p) => (set_proxies (ddel key (proxies k)) k, Some (key, closed_proxy k p))
  end.

(** [close]: every proxy stays in the dict, closed; the clients of consumers that were closed. *)
Definition close_rest (k : Rest) : Rest * list (KafkaConsumer C) :=
  (mkKafkaRest (dmap (fun p => (closed_proxy k p).1) (proxies k)) (close (shared_serializer k)),
   flat_map (fun kv => (closed_proxy k kv.2).2) (rev (proxies k))).
End KafkaRest.
