(* ===== verification/ProxySpec.v ===== *)
(** * Properties of the REST proxy

    The metadata that is answered is at most as old as configured; a publish request hands nothing to
    Kafka before it was checked and reports each record; a proxy acts with the credentials of its key, and
    requests of one user leave the proxies of the others alone; the janitor closes idle proxies only. *)

From Stdlib Require Import Strings.Byte QArith Lqa.
From S2P Require Import Prelude Json Typing Models Schemas Framing Serialization KafkaClient KafkaAdmin Rest Consumers ConsumersSpec ProxyAuth Proxy KafkaRest.
Open Scope Z_scope.

(** ** Dicts that are filled in a loop *)

Section Loops.
Context {V W : Type}.
Implicit Types (d : dict string V) (l : list (string * W)).

Lemma dget_fold_const (b : V) l d t :
  dget t (fold_left (fun d kv => dset kv.1 b d) l d) = if bool_decide (t ∈ dkeys l) then Some b else dget t d.
Proof.
  revert d. induction l as [|[k w] l IH]; intros d; simpl; [done|].
  rewrite IH. unfold dkeys. simpl. destruct (decide (t = k)) as [->|Hne].
  - rewrite dget_dset_eq. rewrite (bool_decide_true (k ∈ k :: map fst l)); [by destruct (bool_decide _)|by left].
  - rewrite dget_dset_ne by done. assert (t ∈ k :: map fst l <-> t ∈ map fst l) as Hi by set_solver.
    by rewrite (bool_decide_ext _ _ Hi).
Qed.
End Loops.

Lemma dget_fold_set {V} (l d : dict string V) t v :
  dget t (fold_left (fun d kv => dset kv.1 kv.2 d) l d) = Some v ->
  (t, v) ∈ l \/ (t ∉ dkeys l /\ dget t d = Some v).
Proof.
  revert d. induction l as [|[k w] l IH]; intros d; simpl; [intros ->; right; split; [set_solver|done]|].
  intros [Hin|[Hn Hg]]%IH; [left; by right|]. destruct (decide (t = k)) as [->|Hne].
  - rewrite dget_dset_eq in Hg. simplify_eq. left. by left.
  - rewrite dget_dset_ne in Hg by done. right. split; [|done]. unfold dkeys in *. set_solver.
Qed.

Lemma din_key {V} t (d : dict string V) : din t d = true <-> t ∈ dkeys d.
Proof.
  unfold din. rewrite dget_Some_key. destruct (dget t d); split; [eauto|done|done|by intros [? ?]].
Qed.

Lemma dkeys_fold_present {V} (l d : dict string V) :
  (forall t, t ∈ dkeys l -> t ∈ dkeys d) -> dkeys (fold_left (fun d kv => dset kv.1 kv.2 d) l d) = dkeys d.
Proof.
  revert d. induction l as [|[k w] l IH]; intros d Hl; simpl; [done|].
  assert (Hk : dkeys (dset k w d) = dkeys d).
  { rewrite dkeys_dset. destruct (dget k d) eqn:E; [done|]. exfalso.
    apply dget_None in E. apply E, Hl. unfold dkeys. set_solver. }
  rewrite IH; [done|]. rewrite Hk. intros t Ht. apply Hl. unfold dkeys in *. set_solver.
Qed.

Lemma dkeys_fold_mem {V} (l d : dict string V) t :
  t ∈ dkeys l \/ t ∈ dkeys d -> t ∈ dkeys (fold_left (fun d kv => dset kv.1 kv.2 d) l d).
Proof.
  revert d. induction l as [|[k w] l IH]; intros d Hl; simpl; [destruct Hl; [set_solver|done]|].
  apply IH. unfold dkeys in *. simpl in Hl. rewrite !elem_of_cons in Hl.
  destruct Hl as [[->|?]|?]; [right|by left|right].
  - apply dget_Some_key. rewrite dget_dset_eq. eauto.
  - apply dget_Some_key. destruct (decide (t = k)) as [->|]; [rewrite dget_dset_eq; eauto|].
    rewrite dget_dset_ne by done. by apply dget_Some_key.
Qed.

(** ** The age of the metadata *)

Section Metadata.
Context `{!SchemaLib} `{!DataLib} `{!ForCode} `{!TokenLib} `{!NewTopicPartition} {C P : Type} `{!ConfluentConsumer C}.
Context (config : PublishConfig) (world : World P).
Implicit Types (s : Session C P) (p : UserRestProxy C P).

(** The partitions of a topic in the answer that was asked for right after the n-th question. *)
Definition listed_at (n : nat) (t : string) (partitions : json) : Prop :=
  exists listing parts, list_topics world (S n) = inl listing /\ (t, parts) ∈ listed_topics listing /\
    partitions = JList (map (fun kv => partition_data kv.1 kv.2) parts).

(** Cached data of a topic: what was listed at its birth. *)
Definition born (p : UserRestProxy C P) (t : string) (d : list (string * json)) (n : nat) : Prop :=
  dget t (cluster_metadata_topic_birth p) = Some (clock world n) /\
  exists partitions, dget "partitions"%string d = Some partitions /\ listed_at n t partitions.

(** All of a listing *)
Definition listing_of (n : nat) (md : ClusterMetadata) : Prop :=
  exists listing, list_topics world (S n) = inl listing /\ dkeys (md_topics md) = dkeys (listed_topics listing) /\
    md_brokers md = listed_brokers listing.

Record fresh (p : UserRestProxy C P) : Prop := {
  fresh_topics t d : dget t (md_topics (cluster_metadata_cache p)) = Some d -> exists n, born p t d n;
  fresh_complete : cluster_metadata_complete p = true ->
    exists n, global_metadata_birth p = clock world n /\ listing_of n (cluster_metadata_cache p);
}.

(** Fetched during the request that began with question [a], or not older than the maximal age then. *)
Definition young (a n : nat) : Prop := (a <= n)%nat \/ (clock world a - clock world n <= admin_metadata_max_age config)%Q.

Lemma older_false now b : older config now b = false -> (now - b <= admin_metadata_max_age config)%Q.
Proof. unfold older. intros Hb%negb_false_iff. by apply Qle_bool_iff. Qed.

Lemma admin_listing n topics md :
  admin_cluster_metadata (list_topics world (S n)) topics = Ok md ->
  (forall t d, (t, d) ∈ md_topics md ->
     exists partitions, dget "partitions"%string d = Some partitions /\ listed_at n t partitions) /\
  (topics = None -> listing_of n md).
Proof.
  unfold admin_cluster_metadata. destruct (list_topics world (S n)) as [listing|e] eqn:E; [|done].
  destruct (existsb _ _); [done|]. intros [= <-]. split; simpl.
  - intros t d ([k parts] & [= -> ->] & Hin)%list_elem_of_fmap.
    apply list_elem_of_In, filter_In in Hin as [Hin%list_elem_of_In _].
    eexists. split; [done|]. exists listing, parts. done.
  - intros ->. exists listing. split_and!; [done| |done]. simpl.
    unfold dkeys. rewrite map_map. clear. induction (listed_topics listing) as [|x l IH]; simpl; [done|]. f_equal. exact IH.
Qed.

(** A session after one more question. *)
Definition tick s : Session C P := mkSession (proxy s) (serializer s) (S (asked s)) (handed s).

Lemma monotonic_run s : monotonic world s = (tick s, Ok (clock world (asked s))).
Proof. done. Qed.

Lemma fetch_metadata_run topics s :
  fetch_metadata world topics s =
    if negb (admin_client (proxy s)) then (s, Raise AttributeError)
    else (tick s, admin_cluster_metadata (list_topics world (asked s)) topics).
Proof.
  unfold fetch_metadata, ask, gets, mbind, M_bind, raise, lift. by destruct (negb _).
Qed.

(** What all the topics are answered from: a listing that is young enough. *)
Lemma update_all_fresh s s' r :
  fresh (proxy s) -> update_all_metadata config world s = (s', r) ->
  fresh (proxy s') /\ (forall md, r = Ok md -> exists n, young (asked s) n /\ listing_of n md).
Proof.
  intros Hf. unfold update_all_metadata, gets, mbind, M_bind, mret, M_ret, raise, modify. rewrite monotonic_run.
  simpl. destruct (negb _ && _) eqn:Hc.
  - intros [= <- <-]. split; [done|]. intros md [= <-]. apply andb_prop in Hc as [Hage Hc].
    destruct (fresh_complete _ Hf Hc) as (n & Hb & Hl). exists n. split; [|done]. right.
    unfold is_global_metadata_old in Hage. rewrite Hb in Hage. by apply older_false, negb_true_iff.
  - rewrite fetch_metadata_run. simpl. destruct (negb (admin_client (proxy s))); simpl.
    { intros [= <- <-]. by split. }
    destruct (admin_cluster_metadata _ None) as [md|e] eqn:E; simpl; intros [= <- <-]; [|by split].
    destruct (admin_listing _ _ _ E) as [Ht Hl]. specialize (Hl eq_refl). split; [split; simpl|].
    + intros t d Hd. exists (S (asked s)). split; simpl.
      * rewrite dget_fold_const, bool_decide_true; [done|]. apply dget_Some_key. eauto.
      * by apply Ht, dget_In.
    + intros _. by exists (S (asked s)).
    + intros md' [= <-]. exists (S (asked s)). split; [left; lia|done].
Qed.

(** The oldest of some births is below each of them. *)
Lemma oldest_le births b : forall x, x ∈ b :: births -> (oldest births b <= x)%Q.
Proof.
  unfold oldest. revert b. induction births as [|y births IH]; intros b x; simpl.
  { intros ->%list_elem_of_singleton. apply Qle_refl. }
  intros Hx. destruct (Qle_bool b y) eqn:E.
  - apply Qle_bool_iff in E. apply elem_of_cons in Hx as [->|[->|Hx]%elem_of_cons].
    + apply IH. by left.
    + eapply Qle_trans; [|exact E]. apply IH. by left.
    + apply IH. by right.
  - assert (y <= b)%Q as Hy by (apply Qlt_le_weak, Qnot_le_lt; intros Hle%Qle_bool_iff; congruence).
    apply elem_of_cons in Hx as [->|[->|Hx]%elem_of_cons].
    + eapply Qle_trans; [|exact Hy]. apply IH. by left.
    + apply IH. by left.
    + apply IH. by right.
Qed.

Lemma topics_young now topics p t b :
  is_metadata_of_topics_old config now topics p = Ok false -> t ∈ topics ->
  dget t (cluster_metadata_topic_birth p) = Some b -> (now - b <= admin_metadata_max_age config)%Q.
Proof.
  unfold is_metadata_of_topics_old. destruct (mapM _ topics) as [[|b0 births]|] eqn:E; [done| |done].
  intros [= Ho] Ht Hb. apply older_false in Ho. apply mapM_Some in E.
  assert (Hin : b ∈ b0 :: births).
  { apply list_elem_of_lookup in Ht as [i Hi]. destruct (Forall2_lookup_l _ _ _ _ _ E Hi) as (b' & Hb' & Hg).
    apply list_elem_of_lookup. exists i. congruence. }
  pose proof (oldest_le births b0 b Hin). lra.
Qed.

Lemma pick_topics_get topics cached acc picked t d :
  pick_topics topics cached acc = Ok picked -> dget t picked = Some d ->
  (t ∈ topics /\ dget t cached = Some d) \/ dget t acc = Some d.
Proof.
  revert acc. induction topics as [|k topics IH]; intros acc; simpl; [intros [= <-]; by right|].
  unfold dindex. destruct (dget k cached) as [dk|] eqn:E; simpl; [|done]. intros Hp Hg.
  destruct (IH _ Hp Hg) as [[? ?]|Ha]; [left; split; [by right|done]|].
  destruct (decide (t = k)) as [->|Hne].
  - rewrite dget_dset_eq in Ha. left. split; [by left|congruence].
  - right. by rewrite dget_dset_ne in Ha.
Qed.

(** An entry of an answer: it is cached, and what was listed at its birth, which is young enough. *)
Definition entry (a : nat) (p : UserRestProxy C P) (t : string) (d : list (string * json)) : Prop :=
  t ∈ dkeys (md_topics (cluster_metadata_cache p)) /\ exists n, young a n /\ born p t d n.

(** The cache after the answer [md] to a question for some topics. *)
Lemma merge_fresh n complete p md :
  fresh p -> admin_cluster_metadata (list_topics world (S n)) complete = Ok md ->
  let cached := cluster_metadata_cache p in
  let p' := set_metadata
    (mkMetadata (fold_left (fun d kv => dset kv.1 kv.2 d) (md_topics md) (md_topics cached)) (md_brokers cached))
    (if negb (forallb (fun b => in_Z b (md_brokers cached)) (md_brokers md)) || existsb (new_data (md_topics cached)) (md_topics md)
     then false else cluster_metadata_complete p) (global_metadata_birth p)
    (fold_left (fun d kv => dset kv.1 (clock world n) d) (md_topics md) (cluster_metadata_topic_birth p)) p in
  fresh p' /\ (forall t d, (t, d) ∈ md_topics md -> t ∈ dkeys (md_topics (cluster_metadata_cache p')) /\ born p' t d n).
Proof.
  intros Hf E cached p'. destruct (admin_listing _ _ _ E) as [Ht _].
  assert (Hborn : forall t d, (t, d) ∈ md_topics md -> born p' t d n).
  { intros t d Hin. split; [|by apply Ht]. simpl. rewrite dget_fold_const, bool_decide_true; [done|].
    unfold dkeys. apply list_elem_of_fmap. by exists (t, d). }
  split; [split; simpl|].
  - intros t d [Hin|[Hn Hd]]%dget_fold_set; [exists n; by apply Hborn|].
    destruct (fresh_topics _ Hf _ _ Hd) as (n0 & Hb & Hl). exists n0. split; [|done]. simpl.
    by rewrite dget_fold_const, bool_decide_false.
  - destruct (_ || existsb _ _) eqn:Hn; [done|]. apply orb_false_iff in Hn as [_ Hn]. intros Hc.
    destruct (fresh_complete _ Hf Hc) as (n0 & Hb & listing & Hl & Hk & Hbr). exists n0. split; [done|].
    exists listing. split_and!; [done| |done]. simpl. rewrite dkeys_fold_present; [done|].
    intros t (kv & -> & Hkv)%list_elem_of_fmap. apply din_key. unfold din.
    destruct (dget kv.1 (md_topics cached)) eqn:Hg; [done|]. exfalso.
    assert (existsb (new_data (md_topics cached)) (md_topics md) = true); [|congruence].
    apply existsb_exists. exists kv. split; [by apply list_elem_of_In|]. unfold new_data. by rewrite Hg.
  - intros t d Hin. split; [|by apply Hborn]. simpl. apply dkeys_fold_mem. left. apply list_elem_of_fmap. by exists (t, d).
Qed.

Lemma update_topics_fresh topics s s' r :
  fresh (proxy s) -> update_metadata_for_topics config world topics s = (s', r) ->
  fresh (proxy s') /\ (forall md t d, r = Ok md -> dget t (md_topics md) = Some d -> entry (asked s) (proxy s') t d).
Proof.
  intros Hf. unfold update_metadata_for_topics, gets, mbind, M_bind, mret, M_ret, lift, modify.
  rewrite monotonic_run. simpl. destruct (is_metadata_of_topics_old _ _ _ _) as [[|]|e] eqn:Ho; simpl.
  - rewrite fetch_metadata_run. simpl. destruct (negb (admin_client (proxy s))); simpl; [intros [= <- <-]; by split|].
    destruct (admin_cluster_metadata _ _) as [md|e] eqn:E; simpl; intros [= <- <-]; [|by split].
    destruct (merge_fresh (S (asked s)) _ _ _ Hf E) as [Hf' Hb]. split; [exact Hf'|].
    intros md' t d [= <-] Hd%dget_In. destruct (Hb t d Hd) as [Hk Hd']. split; [exact Hk|].
    exists (S (asked s)). split; [left; lia|exact Hd'].
  - destruct (pick_topics _ _ _) as [picked|e] eqn:Ep; simpl; intros [= <- <-]; [|by split].
    split; [done|]. intros md t d [= <-] Hd. simpl in Hd.
    destruct (pick_topics_get _ _ _ _ _ _ Ep Hd) as [[Ht Hg]|]; [|done].
    split; [apply dget_Some_key; eauto|]. destruct (fresh_topics _ Hf _ _ Hg) as (n & Hb). exists n. split; [|done].
    right. eapply topics_young; [exact Ho|exact Ht|apply Hb].
  - intros [= <- <-]. by split.
Qed.

(** ** What every handler keeps *)

(** The consumers of the proxy are a dict: their names are distinct. *)
Definition managed (p : UserRestProxy C P) : Prop := forall d, consumer_manager p = Some d -> dwf d.

(** The credentials, metadata that is what was listed, and consumers under distinct names *)
Definition keeps (s s' : Session C P) : Prop :=
  px_auth (proxy s') = px_auth (proxy s) /\ auth_expiry (proxy s') = auth_expiry (proxy s) /\
  (fresh (proxy s) -> fresh (proxy s')) /\ (managed (proxy s) -> managed (proxy s')).

#[export] Instance keeps_preorder : PreOrder keeps.
Proof. split; [done|]. intros a b c (A1 & E1 & F1 & M1) (A2 & E2 & F2 & M2). split_and!; [congruence..|auto|auto]. Qed.

(** Nothing is handed to Kafka either. *)
Definition quiet (s s' : Session C P) : Prop := keeps s s' /\ handed s' = handed s.

#[export] Instance quiet_preorder : PreOrder quiet.
Proof. split; [split; [reflexivity|done]|]. intros a b c [K1 B1] [K2 B2]. split; [by etrans|congruence]. Qed.

Lemma quiet_keeps {A} (m : M (Session C P) A) : steps quiet m -> steps keeps m.
Proof. intros Hm s. apply Hm. Qed.

(** Nothing is written to the metadata. *)
Lemma quiet_same_cache s s' :
  px_auth (proxy s') = px_auth (proxy s) -> auth_expiry (proxy s') = auth_expiry (proxy s) ->
  cluster_metadata_cache (proxy s') = cluster_metadata_cache (proxy s) ->
  cluster_metadata_complete (proxy s') = cluster_metadata_complete (proxy s) ->
  global_metadata_birth (proxy s') = global_metadata_birth (proxy s) ->
  cluster_metadata_topic_birth (proxy s') = cluster_metadata_topic_birth (proxy s) ->
  (managed (proxy s) -> managed (proxy s')) -> handed s' = handed s -> quiet s s'.
Proof.
  intros Ha He Hm Hc Hg Hb Hd Hh. split; [|done]. split_and!; [done..| |done]. intros [Ht Hall]. split; unfold born in *.
  - rewrite Hm, Hb. exact Ht.
  - rewrite Hm, Hc, Hg. exact Hall.
Qed.

Definition same_auth (s s' : Session C P) : Prop :=
  px_auth (proxy s') = px_auth (proxy s) /\ auth_expiry (proxy s') = auth_expiry (proxy s) /\
  consumer_manager (proxy s') = consumer_manager (proxy s) /\ handed s' = handed s.

#[export] Instance same_auth_preorder : PreOrder same_auth.
Proof. split; [done|]. intros a b c (A1 & E1 & D1 & B1) (A2 & E2 & D2 & B2). split_and!; congruence. Qed.

Lemma ask_steps (R : relation (Session C P)) : (forall s, R s (tick s)) -> steps R ask.
Proof. intros HR s. apply HR. Qed.

Lemma quiet_tick s : quiet s (tick s).
Proof. by apply quiet_same_cache. Qed.

Lemma fetch_metadata_auth topics : steps same_auth (fetch_metadata world topics).
Proof. intros s. rewrite fetch_metadata_run. by destruct (negb _). Qed.

Lemma update_all_auth : steps same_auth (update_all_metadata config world).
Proof.
  unfold update_all_metadata, monotonic. monad_steps; try (apply ask_steps; done); try done.
  all: first [apply fetch_metadata_auth | apply steps_modify; done].
Qed.

Lemma update_topics_auth topics : steps same_auth (update_metadata_for_topics config world topics).
Proof.
  unfold update_metadata_for_topics, monotonic. monad_steps; try (apply ask_steps; done); try done.
  all: first [apply fetch_metadata_auth | apply steps_modify; done].
Qed.

(** The answer to a question for the metadata: all of a young listing, or young entries. *)
Definition answered (a : nat) (topics : option (list string)) (p : UserRestProxy C P) (md : ClusterMetadata) : Prop :=
  match topics with
  | None | Some [] => exists n, young a n /\ listing_of n md
  | Some _ => forall t d, dget t (md_topics md) = Some d -> entry a p t d
  end.

Lemma cluster_metadata_fresh topics s s' r :
  fresh (proxy s) -> cluster_metadata config world topics s = (s', r) ->
  fresh (proxy s') /\ (forall md, r = Ok md -> answered (asked s) topics (proxy s') md).
Proof.
  intros Hf. unfold cluster_metadata, catch_map.
  assert (forall m : M (Session C P) ClusterMetadata, ((m s).1, map_raise metadata_error (m s).2) = (s', r) ->
    exists r1, m s = (s', r1) /\ (forall md, r = Ok md -> r1 = Ok md)) as Hr.
  { intros m. destruct (m s) as [s1 [md|e]]; simpl; intros [= <- <-]; eexists; split; done. }
  destruct topics as [[|t topics]|]; intros (r1 & E & Hok)%Hr.
  - apply update_all_fresh in E as [? Ha]; [|done]. split; [done|]. intros md Hmd. by apply Ha, Hok.
  - apply update_topics_fresh in E as [? Ha]; [|done]. split; [done|]. intros md Hmd t' d. apply Ha. auto.
  - apply update_all_fresh in E as [? Ha]; [|done]. split; [done|]. intros md Hmd. by apply Ha, Hok.
Qed.

Lemma cluster_metadata_quiet topics : steps quiet (cluster_metadata config world topics).
Proof.
  assert (steps same_auth (cluster_metadata config world topics)) as Hauth.
  { apply steps_catch_map. destruct topics as [[|t topics]|]; auto using update_all_auth, update_topics_auth. }
  intros s. destruct (Hauth s) as (Ha & He & Hd & Hh). split; [|done].
  split_and!; [done..| |unfold managed; by rewrite Hd]. intros Hf.
  destruct (cluster_metadata config world topics s) as [s' r] eqn:E. by destruct (cluster_metadata_fresh _ _ _ _ Hf E).
Qed.

Lemma get_topic_info_quiet topic : steps quiet (get_topic_info config world topic).
Proof.
  apply steps_catch_map, steps_bind; [typeclasses eauto|apply cluster_metadata_quiet|]. intros. apply steps_lift. typeclasses eauto.
Qed.

Lemma on_serializer_quiet {A} (f : M Serializer A) : steps quiet (on_serializer (C := C) (P := P) f).
Proof. intros s. unfold on_serializer. destruct (f (serializer s)) as [ser r]. by apply quiet_same_cache. Qed.

Lemma on_manager_quiet {A} (f : M (ConsumerManager C) A) :
  steps dict_ok f -> steps quiet (on_manager (P := P) f).
Proof.
  intros Hf s. unfold on_manager. destruct (consumer_manager (proxy s)) as [d|] eqn:E; [|reflexivity].
  specialize (Hf (mkManager d (serializer s))). destruct (f _) as [m r]. simpl in Hf.
  apply quiet_same_cache; try done. intros Hm d' [= <-]. by apply Hf, Hm.
Qed.

Lemma topic_config_quiet topic : steps quiet (topic_config (C := C) world topic).
Proof. unfold topic_config. monad_steps. apply ask_steps, quiet_tick. Qed.

(** Writing a name and a configuration into an entry that was answered *)
Lemma annotate_fresh a topic name cfg d s :
  fresh (proxy s) -> entry a (proxy s) topic d ->
  fresh (proxy (annotate topic (dset "configs"%string cfg (dset "name"%string name d)) s)).
Proof.
  intros Hf [Hk (n & _ & Hb & partitions & Hd & Hl)]. split; simpl.
  - intros t d'. destruct (decide (t = topic)) as [->|Hne].
    + rewrite dget_dset_eq. intros [= <-]. exists n. split; [done|]. exists partitions.
      rewrite !dget_dset_ne by done. done.
    + rewrite dget_dset_ne by done. apply (fresh_topics _ Hf).
  - intros Hc. destruct (fresh_complete _ Hf Hc) as (n0 & Hg & listing & ? & Hkeys & ?).
    exists n0. split; [done|]. exists listing. split_and!; [done| |done]. simpl. rewrite dkeys_dset.
    apply dget_Some_key in Hk as [d' ->]. done.
Qed.

Lemma topic_details_quiet topic : steps quiet (topic_details config world topic).
Proof.
  apply steps_catch_map. intros s. unfold mbind, M_bind at 1.
  pose proof (cluster_metadata_quiet (Some [topic]) s) as Hk.
  destruct (cluster_metadata config world (Some [topic]) s) as [s1 [md|e]] eqn:E; [|exact Hk]. simpl in Hk.
  unfold topic_config, gets, mbind, M_bind, raise, ask, lift, modify, mret, M_ret.
  destruct (negb (admin_client (proxy s1))); [exact Hk|]. simpl.
  destruct (get_topic_config _ _ _) as [cfg|e]; simpl; [|exact Hk].
  destruct (dget topic (md_topics md)) as [d|] eqn:Ed; simpl; [|exact Hk].
  destruct Hk as ((Ha & He & _ & Hd) & Hh). split; [|exact Hh]. split_and!; [exact Ha|exact He| |exact Hd]. intros Hf.
  destruct (cluster_metadata_fresh _ _ _ _ Hf E) as [Hf1 Hans].
  apply (annotate_fresh (asked s) topic (JStr topic) (string_dict cfg) d (tick s1)); [exact Hf1|]. by apply (Hans md).
Qed.

Lemma set_schema_cache_quiet t s : quiet s (set_proxy (set_schema_cache t (proxy s)) s).
Proof. by apply quiet_same_cache. Qed.
Lemma set_producer_quiet a s : quiet s (set_producer a s).
Proof. by apply quiet_same_cache. Qed.

#[local] Hint Resolve cluster_metadata_quiet get_topic_info_quiet on_serializer_quiet on_manager_quiet topic_config_quiet
  topic_details_quiet set_schema_cache_quiet set_producer_quiet quiet_tick ask_steps : karapace.

Lemma steps_catch_map_quiet {A} f (m : M (Session C P) A) : steps quiet m -> steps quiet (catch_map f m).
Proof. apply steps_catch_map. Qed.

Ltac quiet_tac := repeat first
  [ progress monad_steps | apply steps_catch_map_quiet | apply steps_catch; [typeclasses eauto| |]
  | apply steps_modify; intros; by apply quiet_same_cache ].

Lemma get_partition_info_quiet topic partition : steps quiet (get_partition_info config world topic partition).
Proof. unfold get_partition_info. quiet_tac. Qed.
#[local] Hint Resolve get_partition_info_quiet : karapace.

Lemma px_get_offsets_quiet topic partition : steps quiet (px_get_offsets (C := C) world topic partition).
Proof. unfold px_get_offsets. quiet_tac. Qed.
#[local] Hint Resolve px_get_offsets_quiet : karapace.

Lemma partition_offsets_quiet topic partition : steps quiet (partition_offsets config world topic partition).
Proof. unfold partition_offsets. quiet_tac. Qed.
#[local] Hint Resolve partition_offsets_quiet : karapace.

Lemma query_schema_id_quiet schema subject : steps quiet (query_schema_id (C := C) world schema subject).
Proof.
  unfold query_schema_id. quiet_tac. intros s. destruct (topic_get_schema_id _ _ _) as [t i]. apply set_schema_cache_quiet.
Qed.
#[local] Hint Resolve query_schema_id_quiet : karapace.

Lemma proxy_get_schema_id_quiet data topic t ty : steps quiet (proxy_get_schema_id (C := C) config world data topic t ty).
Proof.
  unfold proxy_get_schema_id, query_schema_and_subjects. quiet_tac.
Qed.
#[local] Hint Resolve proxy_get_schema_id_quiet : karapace.

Lemma validate_publish_quiet data format topic :
  steps quiet (validate_publish_request_format (C := C) config world data format topic).
Proof.
  unfold validate_publish_request_format, validate_subject, validate_schema_info. quiet_tac.
Qed.
#[local] Hint Resolve validate_publish_quiet : karapace.

Lemma proxy_serialize_quiet obj format i : steps quiet (proxy_serialize (C := C) world obj format i).
Proof. unfold proxy_serialize. quiet_tac. Qed.
#[local] Hint Resolve proxy_serialize_quiet : karapace.

Lemma prepare_records_quiet format data partition records :
  steps quiet (prepare_records (C := C) world format data partition records).
Proof.
  induction records as [|r records IH]; simpl; unfold prepare_record; quiet_tac.
Qed.
#[local] Hint Resolve prepare_records_quiet : karapace.

Lemma prepare_publish_quiet topic partition format data :
  steps quiet (prepare_publish (C := C) config world topic partition format data).
Proof. unfold prepare_publish. quiet_tac. Qed.
#[local] Hint Resolve prepare_publish_quiet : karapace.

Lemma create_producer_quiet retries : steps quiet (create_producer_attempts (C := C) world retries).
Proof. induction retries as [|retry retries IH]; simpl; quiet_tac. Qed.
#[local] Hint Resolve create_producer_quiet : karapace.

Lemma maybe_create_quiet : steps quiet (maybe_create_async_producer (C := C) config world).
Proof. unfold maybe_create_async_producer. quiet_tac. Qed.
#[local] Hint Resolve maybe_create_quiet : karapace.

Lemma send_record_keeps topic r : steps keeps (send_record (C := C) world topic r).
Proof.
  intros s. unfold send_record, ask, mbind, M_bind, mret, M_ret, modify. simpl.
  destruct (wait_raises world (asked s)); [apply quiet_tick|].
  destruct (producer_send _ _ _); [|apply quiet_tick]. simpl. split_and!; [done..| |done]. intros [Ht Hall]. by split.
Qed.

Lemma send_records_keeps topic records : steps keeps (send_records (C := C) world topic records).
Proof.
  induction records as [|r records IH]; simpl; [intros s; reflexivity|].
  apply steps_bind; [typeclasses eauto|apply send_record_keeps|]. intros. apply steps_bind; [typeclasses eauto|exact IH|].
  intros ? s. reflexivity.
Qed.

Lemma publish_keeps topic partition format data : steps keeps (publish (C := C) config world topic partition format data).
Proof.
  unfold publish, produce_messages.
  repeat first [ apply quiet_keeps, prepare_publish_quiet | apply quiet_keeps, maybe_create_quiet | apply send_records_keeps
               | match goal with |- steps _ (match ?x with _ => _ end) => destruct x end
               | apply steps_bind; [typeclasses eauto| |intros] ].
  all: intros s; reflexivity.
Qed.

(** ** What a publish request hands to Kafka, and what it reports *)

(** The record that is sent with the n-th question *)
Definition accepted (n : nat) (topic : string) (p : SendParams) : result () :=
  match wait_raises world n with Some e => Raise e | None => producer_send (produce world n) topic p end.
Definition reported (n : nat) (topic : string) (p : SendParams) : result ProduceResult :=
  produce_result (_ ← accepted n topic p; delivery world n).

Fixpoint handed_over (n : nat) (topic : string) (ps : list SendParams) : list (string * SendParams) :=
  match ps with
  | [] => []
  | p :: ps => match accepted n topic p with Ok _ => [(topic, p)] | Raise _ => [] end ++ handed_over (S n) topic ps
  end.
Fixpoint reports (n : nat) (topic : string) (ps : list SendParams) : list (result ProduceResult) :=
  match ps with [] => [] | p :: ps => reported n topic p :: reports (S n) topic ps end.

(** The sending or the delivery of one of the records was cancelled. *)
Definition record_cancelled (n : nat) (topic : string) (ps : list SendParams) : Prop :=
  exists i (p : SendParams), ps !! i = Some p /\ (_ ← accepted (n + i) topic p; delivery world (n + i)) = Raise CancelledError.

Lemma record_cancelled_later n topic (p : SendParams) ps : record_cancelled (S n) topic ps -> record_cancelled n topic (p :: ps).
Proof. intros (i & q & Hi & Hc). exists (S i), q. split; [done|]. by rewrite Nat.add_succ_r. Qed.
Lemma record_cancelled_first n topic (p : SendParams) ps :
  (_ ← accepted n topic p; delivery world n) = Raise CancelledError -> record_cancelled n topic (p :: ps).
Proof. intros Hc. exists O, p. split; [done|]. by rewrite Nat.add_0_r. Qed.

Lemma send_record_run topic (p : SendParams) s :
  exists s' r, send_record world topic p s = (s', Ok r) /\ asked s' = S (asked s) /\
    handed s' = handed s ++ match accepted (asked s) topic p with Ok _ => [(topic, p)] | Raise _ => [] end /\
    match accepted (asked s) topic p with Ok _ => r = Ok (asked s) | Raise e => r = Raise e end.
Proof.
  unfold send_record, accepted, ask, mbind, M_bind, mret, M_ret, modify. simpl.
  destruct (wait_raises world (asked s)) as [e|].
  - eexists _, _. split_and!; [done|done|by rewrite app_nil_r|done].
  - destruct (producer_send _ _ _) as [[]|e]; eexists _, _; split_and!; try done. by rewrite app_nil_r.
Qed.

Lemma send_records_run topic ps s :
  exists s' sent, send_records world topic ps s = (s', Ok sent) /\
    handed s' = handed s ++ handed_over (asked s) topic ps /\
    (existsb (fun r : result nat => match r with Raise CancelledError => true | _ => false end) sent = true ->
     record_cancelled (asked s) topic ps) /\
    map (fun r : result nat => produce_result (match r with Ok n => delivery world n | Raise e => Raise e end)) sent =
      reports (asked s) topic ps.
Proof.
  revert s. induction ps as [|p ps IH]; intros s; simpl.
  { exists s, []. split_and!; [done|by rewrite app_nil_r|done|done]. }
  destruct (send_record_run topic p s) as (s1 & r & E & Ha & Hh & Hr).
  destruct (IH s1) as (s2 & sent & E2 & Hh2 & Hx & Hm). rewrite Ha in *.
  exists s2, (r :: sent). unfold mbind, M_bind. rewrite E, E2. split_and!; [done| | |].
  - by rewrite Hh2, Hh, app_assoc.
  - simpl. intros [Hf|Hs]%orb_true_iff; [apply record_cancelled_first|by apply record_cancelled_later, Hx].
    destruct (accepted (asked s) topic p) as [[]|e]; subst r; [done|]. by destruct e.
  - simpl. rewrite Hm. f_equal. unfold reported. destruct (accepted _ _ _) as [[]|e]; by subst.
Qed.

(** A record that is not cancelled is reported. *)
Lemma produce_result_Ok r : r ≠ Raise CancelledError -> exists x, produce_result r = Ok x.
Proof. intros Hr. destruct r as [[d|]|e]; simpl; eauto. destruct e; eauto. done. Qed.

Lemma reports_outcome topic n ps :
  (exists results, reports n topic ps = map Ok results) \/ record_cancelled n topic ps.
Proof.
  revert n. induction ps as [|p ps IH]; intros n; simpl; [left; by exists []|].
  assert ((_ ← accepted n topic p; delivery world n) = Raise CancelledError \/
          (_ ← accepted n topic p; delivery world n) ≠ Raise CancelledError) as [Hc|Hc].
  { destruct (_ ≫= _) as [|e]; [by right|]. destruct (decide (e = CancelledError)); [left|right]; congruence. }
  { right. by apply record_cancelled_first. }
  destruct (IH (S n)) as [[results ->]|Hs]; [|right; by apply record_cancelled_later].
  left. destruct (produce_result_Ok _ Hc) as [x Hx]. exists (x :: results). unfold reported. by rewrite Hx.
Qed.

(** As many records are prepared as the request has. *)
Lemma convert_to_int_get k k' j j' : k ≠ k' -> convert_to_int j k = Ok j' -> dget k' (as_dict j') = dget k' (as_dict j).
Proof.
  intros Hk. unfold convert_to_int. destruct j as [| | | | | |d]; try done.
  destruct (jget k d) eqn:E; [by intros [= <-]|..].
  all: intros (n0 & _ & [= <-])%bind_Ok; simpl; by rewrite dget_dset_ne.
Qed.

Lemma convert_keys_get keys k j j' :
  k ∉ keys -> convert_keys keys j = Ok j' -> dget k (as_dict j') = dget k (as_dict j).
Proof.
  unfold convert_keys. revert j. induction keys as [|k0 keys IH]; intros j Hk; simpl; [by intros [= <-]|].
  intros (j1 & E & H')%bind_Ok. rewrite (IH j1); [|set_solver|done]. eapply convert_to_int_get; [|exact E]. set_solver.
Qed.

Lemma validate_records data format topic s s' records data' :
  validate_publish_request_format (C := C) config world data format topic s = (s', Ok (records, data')) ->
  exists l, jget "records" data = JList l /\ length records = length l.
Proof.
  unfold validate_publish_request_format. destruct (_ || _); [done|].
  destruct (jget "records" data) as [| | | | |l|] eqn:E; try done. intros (rs & s1 & Hm & Hrest)%M_bind_Ok.
  exists l. split; [done|]. injection Hm as _ Hm. apply map_res_Forall2, Forall2_length in Hm.
  assert (records = rs) as ->; [|done]. destruct (needs_schema format); [|by injection Hrest].
  apply M_bind_Ok in Hrest as (d1 & s2 & _ & Hrest). apply M_bind_Ok in Hrest as (d2 & s3 & _ & Hrest). by injection Hrest.
Qed.

Lemma prepare_records_length format data partition records s s' ps :
  prepare_records (C := C) world format data partition records s = (s', Ok ps) -> length ps = length records.
Proof.
  revert s ps. induction records as [|r records IH]; intros s ps; simpl; [by intros [= <- <-]|].
  intros (p & s1 & _ & (ps' & s2 & Hp & [= <- <-])%M_bind_Ok)%M_bind_Ok. simpl. f_equal. by eapply IH.
Qed.

Lemma prepare_publish_records topic partition format data s s' data' ps :
  prepare_publish (C := C) config world topic partition format data s = (s', Ok (data', ps)) ->
  exists l, jget "records" (as_dict data) = JList l /\ length ps = length l.
Proof.
  unfold prepare_publish. intros (info & s1 & _ & Hr)%M_bind_Ok. apply M_bind_Ok in Hr as (part & s2 & _ & Hr).
  apply M_bind_Ok in Hr as (data1 & s3 & Hd & Hr). apply M_bind_Ok in Hr as ([records data2] & s4 & Hv & Hr).
  apply M_bind_Ok in Hr as (ps' & s5 & Hp & [= <- <- <-]).
  destruct (validate_records _ _ _ _ _ _ _ Hv) as (l & Hl & Hlen). exists l. split.
  - injection Hd as _ Hd. revert Hl. unfold jget.
    assert ("records"%string ∉ ["key_schema_id"; "value_schema_id"]%string) as Hk by set_solver.
    by rewrite (convert_keys_get _ _ _ _ Hk Hd).
  - rewrite <- Hlen. unfold catch_map in Hp. injection Hp as _ Hp.
    destruct (prepare_records _ _ _ _ _ _) as [s6 [ps6|e]] eqn:E; [|done]. injection Hp as <-. by eapply prepare_records_length.
Qed.

Lemma produce_messages_run topic ps s s' r :
  produce_messages (C := C) config world topic ps s = (s', r) ->
  match r with
  | Raise _ => handed s' = handed s \/
      exists n, handed s' = handed s ++ handed_over n topic ps /\ record_cancelled n topic ps
  | Ok results => exists n, handed s' = handed s ++ handed_over n topic ps /\ map Ok results = reports n topic ps
  end.
Proof.
  unfold produce_messages, mbind, M_bind. pose proof (maybe_create_quiet s) as [_ Hh].
  destruct (maybe_create_async_producer config world s) as [s1 [u|e]]; simpl in Hh; [|intros [= <- <-]; by left].
  destruct (send_records_run topic ps s1) as (s2 & sent & E & Hh2 & Hx & Hm). rewrite E. rewrite Hh in Hh2.
  destruct (existsb _ sent); [intros [= <- <-]; right; eauto|].
  set (report r := produce_result (match r with Ok n => delivery world n | Raise e => Raise e end)) in *.
  unfold lift. intros [= <- <-]. destruct (map_res report sent) as [results|e] eqn:Er.
  - exists (asked s1). split; [done|]. rewrite <- Hm. clear -Er. apply map_res_Forall2 in Er.
    induction Er as [|x y l l' Hxy _ IH]; [done|]. simpl. by rewrite Hxy, IH.
  - right. exists (asked s1). split; [done|]. destruct (reports_outcome topic (asked s1) ps) as [[results Hr]|]; [|done].
    exfalso. rewrite <- Hm in Hr. clear -Er Hr. revert results Er Hr. induction sent as [|x sent IH]; intros [|y results]; try done.
    intros Er [= Hx Hr]. simpl in Er. rewrite Hx in Er. simpl in Er. destruct (map_res report sent) eqn:E; [done|]. by eapply IH.
Qed.

End Metadata.

(** ** Every request of a user *)

Section Calls.
Context `{!SchemaLib} `{!DataLib} `{!ForCode} `{!TokenLib} `{!NewTopicPartition} {C P : Type} `{!ConfluentConsumer C}.
Context (config : RestConfig).
Implicit Types (s : Session C P).

(** The requests of consumers keep the dict of consumers. *)
Ltac consumer_request := apply quiet_keeps, on_manager_quiet;
  match goal with
  | |- steps _ (create_consumer _ _ _ _ _ _) => apply create_dict
  | |- steps _ (delete_consumer _) => apply delete_dict
  | |- steps _ (commit_offsets ?t ?n ?d) => exact (handle_dict n (ConsumersSpec.CommitOffsets t d))
  | |- steps _ (get_offsets ?n ?d) => exact (handle_dict n (ConsumersSpec.GetOffsets d))
  | |- steps _ (set_subscription ?n ?d) => exact (handle_dict n (ConsumersSpec.SetSubscription d))
  | |- steps _ (get_subscription ?n) => exact (handle_dict n ConsumersSpec.GetSubscription)
  | |- steps _ (delete_subscription ?n) => exact (handle_dict n ConsumersSpec.DeleteSubscription)
  | |- steps _ (set_assignments ?n ?d) => exact (handle_dict n (ConsumersSpec.SetAssignments d))
  | |- steps _ (get_assignments ?n) => exact (handle_dict n ConsumersSpec.GetAssignments)
  | |- steps _ (seek_to ?n ?d) => exact (handle_dict n (ConsumersSpec.SeekTo d))
  | |- steps _ (seek_limit ?b ?e ?w ?n ?d) => exact (handle_dict n (ConsumersSpec.SeekLimit b e w d))
  | |- steps _ (fetch ?c ?h ?l ?f ?k ?n ?x ?q) => exact (handle_dict n (ConsumersSpec.Fetch c h l f k x q))
  end.

Lemma user_call_keeps (world : World P) (cw : ConsumerWorld (C := C)) call :
  steps (keeps world) (user_call config world cw call).
Proof.
  destruct call; simpl; 
    auto using quiet_keeps, partition_offsets_quiet, get_partition_info_quiet, topic_details_quiet;
    try consumer_request.
  all: unfold list_brokers, px_commit_offsets, partition_details, partition_publish, topic_publish, list_partitions, list_topics_handler.
  all: repeat first [ apply quiet_keeps, cluster_metadata_quiet | consumer_request
                    | apply quiet_keeps, get_partition_info_quiet | apply publish_keeps | apply steps_catch_map | apply steps_bind; [typeclasses eauto| |intros] ].
  all: intros s; reflexivity.
Qed.

(** The requests a session served *)
Definition run_calls (world : World P) (cw : ConsumerWorld (C := C)) (calls : list RestCall) s : Session C P :=
  fold_left (fun s call => (user_call config world cw call s).1) calls s.

Lemma run_calls_keeps world cw calls s : keeps world s (run_calls world cw calls s).
Proof.
  unfold run_calls. revert s. induction calls as [|call calls IH]; intros s; simpl; [reflexivity|].
  etrans; [apply (user_call_keeps world cw call s)|apply IH].
Qed.

Lemma new_proxy_fresh connect now auth expiry (p : UserRestProxy C P) (world : World P) :
  new_user_proxy connect now auth expiry = Ok p -> fresh world p /\ px_auth p = auth.
Proof. intros (? & _ & [= <-])%bind_Ok. by split. Qed.

Lemma catch_map_Ok {S A} f (m : M S A) (s : S) a : (catch_map f m s).2 = Ok a -> m s = ((m s).1, Ok a).
Proof. unfold catch_map. destruct (m s) as [s1 [b|e]]; simpl; [by intros [= <-]|done]. Qed.

Lemma run_Ok {S A} (m : M S A) (s : S) a : (m s).2 = Ok a -> m s = ((m s).1, Ok a).
Proof. destruct (m s) as [s1 r]. simpl. by intros ->. Qed.

(** What the three handlers of metadata answer *)
Lemma listed_from (world : World P) s s' md :
  fresh world (proxy s) -> cluster_metadata (rest_publish config) world None s = (s', Ok md) ->
  exists n listing, list_topics world (S n) = inl listing /\ young (rest_publish config) world (asked s) n /\
    dkeys (md_topics md) = dkeys (listed_topics listing) /\ md_brokers md = listed_brokers listing.
Proof.
  intros Hf E. destruct (cluster_metadata_fresh _ _ _ _ _ _ Hf E) as [_ Ha].
  destruct (Ha md eq_refl) as (n & Hy & listing & Hl & Hk & Hb). by exists n, listing.
Qed.

Lemma list_partitions_from (world : World P) topic s r :
  fresh world (proxy s) -> (list_partitions (C := C) (rest_publish config) world topic s).2 = Ok r ->
  exists n listing parts, list_topics world (S n) = inl listing /\ young (rest_publish config) world (asked s) n /\
    (topic, parts) ∈ listed_topics listing /\ r = (200, JList (map (fun kv => partition_data kv.1 kv.2) parts)).
Proof.
  intros Hf (md & s1 & E & Hr)%catch_map_Ok%M_bind_Ok. apply M_bind_Ok in Hr as (j & s2 & Hj & [= _ <-]).
  injection Hj as _ (d & Hd & Hj)%bind_Ok. unfold dindex in Hd, Hj.
  destruct (dget topic (md_topics md)) as [d'|] eqn:Et; [injection Hd as ->|done].
  destruct (cluster_metadata_fresh _ _ _ _ _ _ Hf E) as [_ Ha].
  destruct (Ha md eq_refl topic d Et) as [_ (n & Hy & _ & ps & Hps & listing & parts & Hl & Hin & ->)].
  exists n, listing, parts. rewrite Hps in Hj. injection Hj as <-. done.
Qed.
End Calls.

(** ** The proxies of the users *)

Section Users.
Context `{!SchemaLib} `{!DataLib} `{!ForCode} `{!TokenLib} `{!NewTopicPartition} {C P : Type} `{!ConfluentConsumer C}.
Context (config : RestConfig).
Implicit Types (k : KafkaRest C P) (p : UserRestProxy C P).

(** The credentials of the proxy of a key *)
Definition acts_for (key : string) p : Prop :=
  rest_authorization (rest_auth config) = true -> exists auth,
    get_auth_config_from_header (Some key) (sasl_mechanism (rest_auth config)) = Ok auth /\
    px_auth p = delegated_config (rest_auth config) auth.

Definition rest_ok k : Prop :=
  dwf (proxies k) /\ (forall key p, dget key (proxies k) = Some p -> acts_for key p /\ managed p).

(** Only the proxy of a key changes, and not its credentials. *)
Definition touches_proxy (key : string) k k' : Prop :=
  (forall other, other ≠ key -> dget other (proxies k') = dget other (proxies k)) /\ (rest_ok k -> rest_ok k').

#[export] Instance touches_proxy_preorder key : PreOrder (touches_proxy key).
Proof.
  split; [by split|]. intros a b c [O1 R1] [O2 R2]. split; [|auto]. intros other Ho. by rewrite O2, O1.
Qed.

Lemma set_proxy_touches key p k k' :
  proxies k' = dset key p (proxies k) -> (rest_ok k -> acts_for key p /\ managed p) -> touches_proxy key k k'.
Proof.
  intros E Hp. split.
  - rewrite E. intros other Ho. by apply dget_dset_ne.
  - intros Hk. destruct (Hk) as [Hwf Ha]. split; rewrite E; [by apply dwf_dset|]. intros key' p'.
    destruct (decide (key' = key)) as [->|Hne].
    + rewrite dget_dset_eq. intros [= <-]. auto.
    + rewrite dget_dset_ne by done. apply Ha.
Qed.

Lemma with_proxy_touches {A} key (f : M (Session C P) A) :
  (forall s, px_auth (proxy (f s).1) = px_auth (proxy s) /\ (managed (proxy s) -> managed (proxy (f s).1))) ->
  steps (touches_proxy key) (with_proxy key f).
Proof.
  intros Hf k. unfold with_proxy. destruct (dget key (proxies k)) as [p|] eqn:E; [|reflexivity].
  specialize (Hf (mkSession p (shared_serializer k) 0 [])). destruct (f _) as [s r]. simpl in *.
  destruct Hf as [Hf Hm]. eapply set_proxy_touches; [done|]. intros [_ Ha]. destruct (Ha key p E) as [Hacts Hp].
  split; [|by apply Hm]. intros Hon. rewrite Hf. by apply Hacts.
Qed.

Lemma ensure_proxy_touches key create :
  (forall p, create = Ok p -> acts_for key p /\ managed p) -> steps (touches_proxy key) (ensure_proxy (C := C) key create).
Proof.
  intros Hc k. unfold ensure_proxy. destruct (dget key (proxies k)); [reflexivity|]. destruct create as [p|e]; [|reflexivity].
  eapply set_proxy_touches; [done|]. auto.
Qed.

Definition key_of (auth_header : option string) : string :=
  if rest_authorization (rest_auth config) then default EmptyString auth_header else EmptyString.

Lemma new_proxy_acts connect now header auth expiry p :
  (rest_authorization (rest_auth config) = true ->
   get_auth_config_from_header (Some header) (sasl_mechanism (rest_auth config)) = Ok auth) ->
  new_user_proxy connect now (delegated_config (rest_auth config) auth) expiry = Ok p -> acts_for header p /\ managed p.
Proof.
  intros Ha (? & _ & [= <-])%bind_Ok. split; [intros Hon; exists auth; auto|]. intros d [= <-]. constructor.
Qed.

Lemma steps_bind_lift {S A B} (R : relation S) `{!PreOrder R} (r : result A) (f : A -> M S B) :
  (forall a, r = Ok a -> steps R (f a)) -> steps R (mbind f (lift r)).
Proof. intros Hf s. unfold mbind, M_bind, lift. destruct r as [a|e]; simpl; [by apply Hf|reflexivity]. Qed.

Lemma user_key_touches connect now auth_header :
  steps (touches_proxy (key_of auth_header)) (user_key (C := C) (P := P) config connect now auth_header).
Proof.
  unfold user_key, key_of. apply steps_catch_map. destruct (rest_authorization _) eqn:Hon.
  - apply (steps_bind_lift _). intros auth Ha. apply (steps_bind_lift _). intros expiry _.
    destruct auth_header as [header|]; [|done].
    apply steps_bind; [typeclasses eauto| |intros; apply steps_ret; typeclasses eauto].
    apply ensure_proxy_touches. intros p. by apply new_proxy_acts.
  - apply steps_bind; [typeclasses eauto| |intros; apply steps_ret; typeclasses eauto].
    apply ensure_proxy_touches. intros p Hp. split; [intros Hon'; congruence|].
    apply bind_Ok in Hp as (? & _ & [= <-]). intros d [= <-]. constructor.
Qed.

Lemma ensure_proxy_there key create k k' : ensure_proxy (C := C) (P := P) key create k = (k', Ok ()) ->
  is_Some (dget key (proxies k')).
Proof.
  unfold ensure_proxy. destruct (dget key (proxies k)) eqn:E; [intros [= <-]; by rewrite E|].
  destruct create; intros [= <-]. simpl. rewrite dget_dset_eq. eauto.
Qed.

Lemma user_key_there connect now auth_header k k' key :
  user_key (C := C) (P := P) config connect now auth_header k = (k', Ok key) ->
  key = key_of auth_header /\ is_Some (dget key (proxies k')).
Proof.
  unfold user_key, key_of, catch_map. intros [= <- Hr]. revert Hr.
  match goal with |- map_raise _ (?m k).2 = _ -> _ => destruct (m k) as [k1 [key'|e]] eqn:E end; simpl; [|done].
  intros [= <-]. destruct (rest_authorization _).
  - apply M_bind_Ok in E as (auth & k2 & _ & (expiry & k3 & _ & ([] & k4 & He & [= <- <-])%M_bind_Ok)%M_bind_Ok).
    split; [done|]. by eapply ensure_proxy_there.
  - apply M_bind_Ok in E as ([] & k4 & He & [= <- <-]). split; [done|]. by eapply ensure_proxy_there.
Qed.

Lemma mark_used_touches key now k p :
  dget key (proxies k) = Some p -> touches_proxy key k (set_proxies (dset key (mark_used now p) (proxies k)) k).
Proof. intros E. eapply set_proxy_touches; [done|]. intros [_ Ha]. by apply (Ha key p). Qed.

Lemma get_user_proxy_touches connect now auth_header :
  steps (touches_proxy (key_of auth_header)) (get_user_proxy (C := C) (P := P) config connect now auth_header).
Proof.
  intros k. unfold get_user_proxy, mbind, M_bind, gets, lift, modify, mret, M_ret, dindex.
  pose proof (user_key_touches connect now auth_header k) as Ht.
  destruct (user_key config connect now auth_header k) as [k1 [key|e]] eqn:E; [|exact Ht].
  apply user_key_there in E as [-> [p E]]. rewrite E. simpl. etrans; [exact Ht|]. by apply mark_used_touches.
Qed.

Lemma serve_request_touches connect now (world : World P) (cw : ConsumerWorld (C := C)) auth_header call :
  steps (touches_proxy (key_of auth_header)) (serve_request config connect now world cw auth_header call).
Proof.
  intros k. unfold serve_request, mbind, M_bind. pose proof (get_user_proxy_touches connect now auth_header k) as Ht.
  destruct (get_user_proxy config connect now auth_header k) as [k1 [key|e]] eqn:E; [|exact Ht].
  assert (key = key_of auth_header) as ->.
  { unfold get_user_proxy in E. apply M_bind_Ok in E as (key' & k2 & [-> _]%user_key_there & E).
    apply M_bind_Ok in E as (? & ? & _ & (? & ? & _ & (? & ? & _ & [= _ <-])%M_bind_Ok)%M_bind_Ok). done. }
  etrans; [exact Ht|]. apply with_proxy_touches. intros s.
  by destruct (user_call_keeps config world cw call s) as (? & _ & _ & ?).
Qed.

Lemma unauthorised_serves_nothing connect now (world : World P) (cw : ConsumerWorld (C := C)) auth_header call k e :
  rest_authorization (rest_auth config) = true ->
  get_auth_config_from_header auth_header (sasl_mechanism (rest_auth config)) = Raise e ->
  (serve_request config connect now world cw auth_header call k).1 = k.
Proof.
  intros Hon He. unfold serve_request, get_user_proxy, user_key, mbind, M_bind, catch_map, lift.
  by rewrite Hon, He.
Qed.

Lemma basic_mechanism header mechanism m user password :
  get_auth_config_from_header header mechanism = Ok (SASLPlainConfig m user password) ->
  m = default "PLAIN"%string mechanism.
Proof.
  unfold get_auth_config_from_header. destruct header as [header|]; [|done]. destruct (split_auth_header header) as [ty tok].
  destruct (String.eqb ty "Bearer"); [done|]. destruct (String.eqb ty "Basic"); [|done].
  by intros ([u w] & _ & [= <- _ _])%bind_Ok.
Qed.

(** *** The janitor *)

(** A proxy may be disconnected when its token is about to expire; without consumers, when it was not used
    for five minutes; with consumers, when such disconnections are configured and it was not used for the
    configured time. *)
Definition may_disconnect (utc now : Q) p : Prop :=
  (exists e, auth_expiry p = Some e /\ e < utc + 300)%Q \/
  match default [] (consumer_manager p) with
  | [] => (last_used p + 300 < now)%Q
  | _ => 0 < consumer_idle_disconnect_timeout config /\
         (last_used p + inject_Z (consumer_idle_disconnect_timeout config) < now)%Q
  end.

Lemma before_iff a b : negb (Qle_bool b a) = true <-> (a < b)%Q.
Proof.
  rewrite negb_true_iff. destruct (Qle_bool b a) eqn:E.
  - apply Qle_bool_iff in E. split; [done|]. intros Hl. by apply Qlt_not_le in Hl.
  - split; [|done]. intros _. apply Qnot_le_lt. intros Hl%Qle_bool_iff. congruence.
Qed.

Lemma is_idle_iff utc now p : is_idle config utc now p = true <-> may_disconnect utc now p.
Proof.
  unfold is_idle, may_disconnect, num_consumers. rewrite orb_true_iff.
  assert (He : match auth_expiry p with Some e => negb (Qle_bool (utc + AUTH_EXPIRY_TOLERANCE) e) | None => false end = true
    <-> exists e, auth_expiry p = Some e /\ (e < utc + 300)%Q).
  { destruct (auth_expiry p) as [e|]; [|naive_solver]. rewrite before_iff. unfold AUTH_EXPIRY_TOLERANCE. naive_solver. }
  rewrite He. destruct (consumer_manager p) as [[|c d]|]; simpl; [by rewrite before_iff| |by rewrite before_iff].
  rewrite andb_true_iff, Z.ltb_lt, before_iff. done.
Qed.

(** It still may later. *)
Lemma may_disconnect_later utc now utc' now' p :
  (utc <= utc')%Q -> (now <= now')%Q -> may_disconnect utc now p -> may_disconnect utc' now' p.
Proof.
  intros Hu Hn [(e & He & Hl)|Hm]; [left|right].
  - exists e. split; [done|]. eapply Qlt_le_trans; [exact Hl|]. by apply Qplus_le_compat; [|apply Qle_refl].
  - destruct (default [] (consumer_manager p)); [by eapply Qlt_le_trans|]. destruct Hm as [Ht Hl]. split; [done|].
    by eapply Qlt_le_trans.
Qed.

Definition janitor (utc now : Q) k : KafkaRest C P := (disconnect_idle_proxy config utc now k).1.

Lemma length_ddel {V} key v (d : dict string V) : (key, v) ∈ d -> (length (ddel key d) < length d)%nat.
Proof.
  assert (forall d : dict string V, (length (ddel key d) <= length d)%nat) as Hle.
  { clear d. induction d as [|[key' v'] d IH]; simpl; [lia|]. case_decide; simpl; lia. }
  induction d as [|[key' v'] d IH]; simpl; [by intros ?%elem_of_nil|]. intros [[= -> ->]|Hin]%elem_of_cons.
  - rewrite decide_True by done. specialize (Hle d). lia.
  - specialize (IH Hin). case_decide; simpl; lia.
Qed.

Lemma janitor_step utc now k :
  dwf (proxies k) ->
  (janitor utc now k = k /\ forall key p, dget key (proxies k) = Some p -> ~ may_disconnect utc now p) \/
  (exists key p, dget key (proxies k) = Some p /\ may_disconnect utc now p /\
     proxies (janitor utc now k) = ddel key (proxies k)).
Proof.
  intros Hwf. unfold janitor, disconnect_idle_proxy. destruct (List.find _ (proxies k)) as [[key p]|] eqn:E.
  - right. apply find_some in E as [Hin%list_elem_of_In Hi]. exists key, p.
    split_and!; [by apply In_dget|by apply is_idle_iff|done].
  - left. split; [done|]. intros key p Hp%dget_In%list_elem_of_In Hm%is_idle_iff.
    pose proof (find_none _ _ E _ Hp) as Hn. simpl in Hn. congruence.
Qed.

(** Rounds at the times of a list. *)
Definition janitor_at (rounds : list (Q * Q)) k : KafkaRest C P :=
  fold_left (fun k t => janitor t.1 t.2 k) rounds k.

Lemma janitor_at_absent rounds k key : dwf (proxies k) -> dget key (proxies k) = None ->
  dget key (proxies (janitor_at rounds k)) = None.
Proof.
  unfold janitor_at. revert k. induction rounds as [|t rounds IH]; intros k Hwf Hn; [done|]. simpl.
  destruct (janitor_step t.1 t.2 k Hwf) as [[-> _]|(key' & p' & _ & _ & Hj)]; [by apply IH|].
  apply IH; rewrite Hj; [by apply dwf_ddel|]. destruct (decide (key' = key)) as [->|];
    [by rewrite dget_ddel_eq|by rewrite dget_ddel_ne].
Qed.

(** A proxy is as it was, or gone, and it goes only in a round in which it may be disconnected. *)
Lemma janitor_at_keeps rounds k key p : dwf (proxies k) -> dget key (proxies k) = Some p ->
  dget key (proxies (janitor_at rounds k)) = Some p \/
  (dget key (proxies (janitor_at rounds k)) = None /\ exists t, t ∈ rounds /\ may_disconnect t.1 t.2 p).
Proof.
  unfold janitor_at. revert k. induction rounds as [|t rounds IH]; intros k Hwf Hp; [by left|]. simpl.
  destruct (janitor_step t.1 t.2 k Hwf) as [[-> _]|(key' & p' & Hg & Hm & Hj)].
  - destruct (IH k Hwf Hp) as [?|(? & t' & ? & ?)]; [by left|right]. split; [done|]. exists t'. split; [by right|done].
  - assert (Hwf' : dwf (proxies (janitor t.1 t.2 k))) by (rewrite Hj; by apply dwf_ddel).
    destruct (decide (key' = key)) as [->|Hne].
    + right. rewrite Hp in Hg. injection Hg as <-. split; [|exists t; split; [by left|done]].
      apply janitor_at_absent; [done|]. rewrite Hj. apply dget_ddel_eq.
    + destruct (IH _ Hwf') as [?|(? & t' & ? & ?)]; [by rewrite Hj, dget_ddel_ne|by left|right].
      split; [done|]. exists t'. split; [by right|done].
Qed.

(** Enough rounds leave no proxy that could be disconnected before the first of them. *)
Lemma janitor_at_enough rounds utc now k key p : dwf (proxies k) -> (length (proxies k) <= length rounds)%nat ->
  Forall (fun t => utc <= t.1 /\ now <= t.2)%Q rounds ->
  dget key (proxies (janitor_at rounds k)) = Some p -> ~ may_disconnect utc now p.
Proof.
  unfold janitor_at. intros Hwf Hl Hr. revert k Hwf Hl. induction Hr as [|t rounds [Hu Hn] Hr IH]; intros k Hwf Hl; simpl.
  { simpl in Hl. destruct (proxies k) eqn:E; [done|simpl in Hl; lia]. }
  destruct (janitor_step t.1 t.2 k Hwf) as [[-> Hnone]|(key' & p' & Hg & _ & Hj)].
  - intros Hp Hm. destruct (dget key (proxies k)) as [p0|] eqn:E.
    + destruct (janitor_at_keeps rounds k key p0 Hwf E) as [Hk|[Hk _]]; unfold janitor_at in Hk; rewrite Hk in Hp; [|done].
      injection Hp as ->. eapply (Hnone key); [done|]. by eapply may_disconnect_later.
    + pose proof (janitor_at_absent rounds k key Hwf E) as Hk. unfold janitor_at in Hk. congruence.
  - apply IH; rewrite Hj; [by apply dwf_ddel|]. pose proof (length_ddel _ _ _ (dget_In _ _ _ Hg)). simpl in Hl. lia.
Qed.

(** *** Closing a proxy *)

(** The manager of a proxy stops every consumer it has. *)
Lemma aclose_consumers_all (d : dict internal_name (TypedConsumer C)) (ser : Serializer) : dwf d ->
  aclose_consumers (map fst d) (mkManager d ser) = (mkManager [] ser, Ok (flat_map (fun kv => stop_consumer kv.2) d)).
Proof.
  induction d as [|[name c] d IH]; intros Hwf; [done|]. apply NoDup_cons in Hwf as [Hn Hwf].
  cbn [map fst aclose_consumers]. unfold the_consumer, mbind, M_bind, gets, lift, dindex, modify. simpl.
  rewrite decide_True by done. unfold set_consumers. simpl. rewrite decide_True by done.
  assert (ddel name d = d) as ->.
  { clear IH Hwf. induction d as [|[n' c'] d IHd]; [done|]. simpl. apply not_elem_of_cons in Hn as [Hne Hn].
    rewrite decide_False by (simpl in Hne; congruence). by rewrite (IHd Hn). }
  by rewrite (IH Hwf).
Qed.

Lemma closed_proxy_spec (k : KafkaRest C P) p : (forall d, consumer_manager p = Some d -> dwf d) ->
  closed_proxy k p = (stop_async_producer (let_go p),
    flat_map (fun kv => stop_consumer kv.2) (default [] (consumer_manager p))).
Proof.
  intros Hwf. unfold closed_proxy, px_aclose, aclose_manager. unfold mbind, M_bind, gets, modify. simpl.
  destruct (consumer_manager p) as [d|] eqn:E; simpl; [|done]. unfold aclose, mbind, M_bind, gets. simpl.
  unfold dkeys. by rewrite aclose_consumers_all by auto.
Qed.

(** *** Everything that happens to the proxies *)

Inductive rest_reach : KafkaRest C P -> Prop :=
  | reach_start ser : rest_reach (mkKafkaRest [] ser)
  | reach_request connect now world cw auth_header call k :
      rest_reach k -> rest_reach (serve_request config connect now world cw auth_header call k).1
  | reach_janitor utc now k : rest_reach k -> rest_reach (janitor utc now k)
  | reach_close k : rest_reach k -> rest_reach (close_rest k).1.

Lemma rest_reach_ok k : rest_reach k -> rest_ok k.
Proof.
  induction 1 as [ser|connect now world cw auth_header call k _ IH|utc now k _ IH|k _ IH].
  - split; [constructor|done].
  - by apply (serve_request_touches connect now world cw auth_header call k).
  - destruct (janitor_step utc now k (proj1 IH)) as [[-> _]|(key & p & _ & _ & Hj)]; [done|].
    destruct IH as [Hwf Ha]. split; rewrite Hj; [by apply dwf_ddel|]. intros key' p'.
    destruct (decide (key' = key)) as [->|]; [by rewrite dget_ddel_eq|]. rewrite dget_ddel_ne by done. apply Ha.
  - destruct IH as [Hwf Ha]. split; simpl; [by apply dwf_dmap|]. intros key p. rewrite dget_dmap.
    destruct (dget key (proxies k)) as [p0|] eqn:E; simpl; [|done]. intros [= <-].
    destruct (Ha key p0 E) as [Hacts Hm]. rewrite closed_proxy_spec by done. split; [|done]. intros Hon. by apply Hacts.
Qed.
End Users.
