(* ===== verification/ProxyProps.v ===== *)
(** * Properties of the REST proxy and their witnesses *)

From Stdlib Require Import Strings.Byte QArith.
From S2P Require Import Prelude Json Typing Models Schemas Framing Serialization SerializationSpec KafkaClient KafkaAdmin Rest Consumers ConsumersSpec ProxyAuth Proxy KafkaRest ProxySpec.
Open Scope Z_scope.

(** ** An installation for the witnesses *)

#[global] Instance sample_tokens : TokenLib := {|
  basic_auth_decode h := Ok ("user", h)%string;
  jwt_expiration _ := Ok (Some 1000%Q);
|}.

Definition sample_publish_config : PublishConfig := mkPublishConfig 5 topic_name true (JInt 1).

(** The first topic exists from the start, the second one from the fifth question on; a second passes
    with each question. *)
Definition sample_world : World () := mkWorld ()
  (fun n => inject_Z (Z.of_nat n))
  (fun n => inl (mkListing (("t", [(0, mkPartition 1 [1] [1])]) :: (if (5 <=? n)%nat then [("u", [])] else [])) [1])%string)
  (fun _ _ => [inl [("a", (DYNAMIC_TOPIC_CONFIG, "b"))]%string])
  (fun _ _ _ => ([inl 7], [inl 0]))
  sample_http 10
  (fun _ => Ok ())
  (fun _ => None)
  (fun _ _ _ => inl ())
  (fun n => if (n =? 4)%nat then Raise UnknownTopicOrPartitionError else Ok (Some (mkDelivered (Some (Z.of_nat n)) 0))).

Definition sample_consumers : ConsumerWorld (C := Script) := mkConsumerWorld
  (fun _ _ => Raise KafkaException) "id" String.append 10 (JInt (-2)) (JInt (-1)).

Definition sample_auth : AuthConfig :=
  mkAuthConfig true (Some "kafka:9092"%string) (Some "kafka:9094"%string) "SASL_PLAINTEXT" (Some "PLAIN"%string) None None None.
Definition sample_rest : RestConfig := mkRestConfig sample_auth sample_publish_config sample_config 60.
Definition sample_connect (n : nat) (auth : ClientAuth) : result () := Ok ().

Definition sample_user : UserRestProxy Script () :=
  mkUserProxy sample_auth (mkMetadata [] []) false 0%Q [] true [] (Some []) 0%Q None None.
Definition sample_session : Session Script () := mkSession sample_user new_serializer 0 [].

(** ** Properties *)

(** C32. Whatever requests a session served, the partitions of a topic, the topics and the brokers it
    answers with are those of a listing that was fetched during the request or is at most
    [admin_metadata_max_age] old. *)
Theorem metadata_staleness_bounded `{!SchemaLib} `{!DataLib} `{!ForCode} `{!TokenLib} `{!NewTopicPartition}
  {C P : Type} `{!ConfluentConsumer C} config (world : World P) (cw : ConsumerWorld (C := C)) calls
  connect now auth expiry p ser :
  new_user_proxy connect now auth expiry = Ok p ->
  let s := run_calls config world cw calls (mkSession p ser 0 []) in
  let from n listing := list_topics world (S n) = inl listing /\
    ((asked s <= n)%nat \/
     (clock world (asked s) - clock world n <= admin_metadata_max_age (rest_publish config))%Q) in
  (forall topic r, (user_call config world cw (ListPartitions topic) s).2 = Ok r ->
     exists n listing parts, from n listing /\ (topic, parts) ∈ listed_topics listing /\
       r = (200, JList (map (fun kv => partition_data kv.1 kv.2) parts))) /\
  (forall r, (user_call config world cw ListTopics s).2 = Ok r ->
     exists n listing, from n listing /\ r = (200, JList (map JStr (dkeys (listed_topics listing))))) /\
  (forall r, (user_call config world cw ListBrokers s).2 = Ok r ->
     exists n listing, from n listing /\
       r = (200, JObj [("brokers"%string, JList (map JInt (listed_brokers listing)))])).
Proof.
  intros Hp s from. assert (fresh world (proxy s)) as Hf.
  { apply (run_calls_keeps config world cw calls). by apply (new_proxy_fresh _ _ _ _ _ world Hp). }
  split_and!; simpl.
  - intros topic r Hr. destruct (list_partitions_from _ _ _ _ _ Hf Hr) as (n & listing & parts & ? & ? & ? & ?).
    by exists n, listing, parts.
  - intros r (md & s1 & E & [= _ <-])%run_Ok%M_bind_Ok.
    destruct (listed_from _ _ _ _ _ Hf E) as (n & listing & ? & ? & Hk & _). exists n, listing. by rewrite Hk.
  - intros r (md & s1 & E & [= _ <-])%run_Ok%M_bind_Ok.
    destruct (listed_from _ _ _ _ _ Hf E) as (n & listing & ? & ? & _ & Hb). exists n, listing. by rewrite Hb.
Qed.

(** A topic made the cached listing of all the topics incomplete. *)
Definition sample_calls : list (RestCall) := [ListTopics; TopicDetails "t"; ListPartitions "u"]%string.
Lemma metadata_staleness_bounded_witness :
  let s := run_calls sample_rest sample_world sample_consumers sample_calls sample_session in
  let from n listing := list_topics sample_world (S n) = inl listing /\
    ((asked s <= n)%nat \/ (clock sample_world (asked s) - clock sample_world n <= 5)%Q) in
  exists n listing, from n listing /\ r_ok (JList [JStr "t"%string; JStr "u"%string]) =
    (200, JList (map JStr (dkeys (listed_topics listing)))).
Proof.
  destruct (metadata_staleness_bounded sample_rest sample_world sample_consumers sample_calls sample_connect 0%Q sample_auth
    None sample_user new_serializer eq_refl) as (_ & Hl & _).
  apply Hl. vm_compute. reflexivity.
Defined.


Definition sample_records : json :=
  JObj [("records", JList [JObj [("value", JStr "AQI=")]; JObj [("key", JStr "AA=="); ("partition", JStr "3")]])]%string.

(** C31. However requests, the janitor and a shutdown follow one another, with authorisation the proxy of a
    header has the credentials of that header and, unless the proxy's own mechanism is [OAUTHBEARER], its
    Kafka clients authenticate with them; a request changes no proxy but that of its own header, and one
    without usable credentials changes nothing. *)
Theorem proxy_isolation `{!SchemaLib} `{!DataLib} `{!ForCode} `{!TokenLib} `{!NewTopicPartition} {C P : Type}
  `{!ConfluentConsumer C} config (k : KafkaRest C P) :
  rest_reach config k -> rest_authorization (rest_auth config) = true ->
  let mechanism := sasl_mechanism (rest_auth config) in
  (forall header p, dget header (proxies k) = Some p -> exists auth,
     get_auth_config_from_header (Some header) mechanism = Ok auth /\
     px_auth p = delegated_config (rest_auth config) auth /\
     (mechanism ≠ Some "OAUTHBEARER"%string ->
      get_kafka_client_auth_parameters_from_config (px_auth p) =
        Ok (match auth with
            | SASLOauthConfig token => OauthParams token
            | SASLPlainConfig m user password => PlainParams (Some m) (Some user) (Some password)
            end))) /\
  (forall connect now (world : World P) cw auth_header call,
     let k' := (serve_request config connect now world cw auth_header call k).1 in
     (forall other, Some other ≠ auth_header -> dget other (proxies k') = dget other (proxies k)) /\
     (forall e, get_auth_config_from_header auth_header mechanism = Raise e -> k' = k)).
Proof.
  intros Hk Hon mechanism. destruct (rest_reach_ok _ _ Hk) as [_ Ha]. split.
  - intros header p Hp. destruct (proj1 (Ha header p Hp) Hon) as (auth & Hauth & Hpx). exists auth. split_and!; [done|done|].
    intros Hm. rewrite Hpx. apply delegated_credentials; [done|]. intros m u w ->. by eapply basic_mechanism.
  - intros connect now world cw auth_header call k'. split.
    + intros other Ho. unfold k'. destruct auth_header as [header|].
      * destruct (serve_request_touches config connect now world cw (Some header) call k) as [Hother _].
        apply Hother. unfold key_of. rewrite Hon. simpl. congruence.
      * by rewrite (unauthorised_serves_nothing config connect now world cw None call k rest_unauthorized Hon eq_refl).
    + intros e He. by apply (unauthorised_serves_nothing config connect now world cw auth_header call k e Hon He).
Qed.

(** Two users: the proxy of the first one after a request of the second. *)
Definition sample_rest_state : KafkaRest Script () :=
  let serve header k := (serve_request sample_rest sample_connect 0%Q sample_world sample_consumers header ListTopics k).1 in
  serve (Some "Bearer y")%string (serve (Some "Basic x")%string (mkKafkaRest [] new_serializer)).
Lemma sample_rest_reach : rest_reach sample_rest sample_rest_state.
Proof. apply reach_request, reach_request, reach_start. Qed.
(** The proxy of the first user. *)
Definition new_idle (k : KafkaRest Script ()) : UserRestProxy Script () :=
  match dget "Basic x"%string (proxies k) with
  | Some p => p
  | None => mkUserProxy sample_auth (mkMetadata [] []) false 0%Q [] true [] (Some []) 0%Q None None
  end.
Lemma proxy_isolation_witness : exists p auth,
  dget "Basic x"%string (proxies sample_rest_state) = Some p /\
  get_auth_config_from_header (Some "Basic x"%string) (Some "PLAIN"%string) = Ok auth /\
  px_auth p = delegated_config sample_auth auth.
Proof.
  destruct (dget "Basic x"%string (proxies sample_rest_state)) as [p|] eqn:E; [|vm_compute in E; discriminate].
  destruct (proxy_isolation sample_rest sample_rest_state sample_rest_reach eq_refl) as [Hp _].
  destruct (Hp "Basic x"%string p E) as (auth & Ha & Hpx & _). exists p, auth. split_and!; [reflexivity|exact Ha|exact Hpx].
Defined.

(** C34. The janitor disconnects a proxy only when its token is about to expire or it was not used for
    long: without consumers for five minutes, with consumers for the configured time, if there is one. A
    round closes one such proxy if there is any, and touches no other; the closed proxy has let go of its
    clients, its producer is stopped and the Kafka client of each of its consumers is closed. Rounds at
    whatever times, with no request between them, leave every other proxy as it was, and as many of them as
    there are proxies leave none that might have been disconnected when they began. *)
Theorem janitor_closes_idle `{!SchemaLib} `{!DataLib} `{!ForCode} `{!TokenLib} `{!NewTopicPartition} {C P : Type}
  `{!ConfluentConsumer C} config (k : KafkaRest C P) :
  rest_reach config k ->
  (forall utc now k' closed, disconnect_idle_proxy config utc now k = (k', closed) ->
     match closed with
     | None => k' = k /\ forall key p, dget key (proxies k) = Some p -> ~ may_disconnect config utc now p
     | Some (key, (p, stopped_consumers)) => exists p0, dget key (proxies k) = Some p0 /\ may_disconnect config utc now p0 /\
         (forall other, dget other (proxies k') = if decide (other = key) then None else dget other (proxies k)) /\
         admin_client p = false /\ consumer_manager p = None /\
         (forall a, async_producer p = Some a -> producer a = None /\ stopped a = true) /\
         stopped_consumers = flat_map (fun kv => match tc_consumer kv.2 with Some c => [(kc_close c).1] | None => [] end)
           (default [] (consumer_manager p0))
     end) /\
  (forall rounds key p, dget key (proxies k) = Some p ->
     let k' := janitor_at config rounds k in
     dget key (proxies k') = Some p \/
     dget key (proxies k') = None /\ exists t, t ∈ rounds /\ may_disconnect config t.1 t.2 p) /\
  (forall rounds utc now key p, (length (proxies k) <= length rounds)%nat ->
     Forall (fun t => utc <= t.1 /\ now <= t.2)%Q rounds ->
     dget key (proxies (janitor_at config rounds k)) = Some p -> ~ may_disconnect config utc now p).
Proof.
  intros Hk. destruct (rest_reach_ok _ _ Hk) as [Hwf Hok]. split_and!.
  - intros utc now k' closed E. destruct (janitor_step config utc now k Hwf) as [[Hj Hn]|(key & p0 & Hg & Hm & Hj)];
      unfold janitor in Hj; rewrite E in Hj; simpl in Hj; unfold disconnect_idle_proxy in E.
    + destruct (List.find _ (proxies k)) as [[key p]|] eqn:Ef; injection E as <- <-; [|done].
      apply find_some in Ef as [Hin%list_elem_of_In Hi]. exfalso. apply (Hn key p); [by apply In_dget|by apply is_idle_iff].
    + destruct (List.find _ (proxies k)) as [[key' p]|] eqn:Ef; injection E as <- <-.
      * apply find_some in Ef as [Hin%list_elem_of_In Hi]. assert (Hg' : dget key' (proxies k) = Some p) by by apply In_dget.
        destruct (Hok key' p Hg') as [_ Hman]. rewrite (closed_proxy_spec k p Hman). exists p.
        split_and!; [done|by apply is_idle_iff| |done|done| |done].
        -- intros other. simpl. case_decide; subst; [by rewrite dget_ddel_eq|by rewrite dget_ddel_ne].
        -- intros a. simpl. destruct (async_producer p); simpl; [|done]. by intros [= <-].
      * pose proof (find_none _ _ Ef (key, p0)) as Hf. apply is_idle_iff in Hm.
        apply dget_In, list_elem_of_In in Hg. apply Hf in Hg. simpl in Hg. congruence.
  - intros rounds key p. by apply janitor_at_keeps.
  - intros rounds utc now key p. by apply janitor_at_enough.
Qed.

Lemma janitor_closes_idle_witness :
  length (proxies sample_rest_state) = 2%nat /\
  may_disconnect sample_rest 0%Q 400%Q (new_idle sample_rest_state) /\
  dget "Basic x"%string (proxies (janitor_at sample_rest [(0, 400); (0, 401)]%Q sample_rest_state)) ≠ Some (new_idle sample_rest_state).
Proof.
  assert (Hm : may_disconnect sample_rest 0%Q 400%Q (new_idle sample_rest_state)) by (apply is_idle_iff; vm_compute; reflexivity).
  split_and!; [vm_compute; reflexivity|exact Hm|]. intros Hg.
  destruct (janitor_closes_idle sample_rest sample_rest_state sample_rest_reach) as (_ & _ & Hr).
  apply (Hr [(0, 400); (0, 401)]%Q 0%Q 400%Q "Basic x"%string (new_idle sample_rest_state));
    [vm_compute; lia|repeat constructor; vm_compute; discriminate|exact Hg|exact Hm].
Defined.

(** What a consumer of the binary format is shown of a key or a value can be published again in that
    format and is the same bytes, those of a null being no bytes. *)
Theorem binary_record_roundtrip `{!SchemaLib} `{!DataLib} {C P : Type} (world : World P) http limit
  (b : option bytes) schema_id (ser : Serializer) (s : Session C P) :
  let '(key_func, value_func, _) := get_deserialize_functions http limit (JStr "binary") in
  exists j, key_func b ser = (ser, Ok j) /\ value_func b ser = (ser, Ok j) /\
    proxy_serialize world j "binary" schema_id s = (s, Ok (default [] b)).
Proof.
  simpl. unfold binary_decode_func, when_bytes.
  destruct b as [[|x b]|]; eexists; split_and!; try reflexivity. unfold proxy_serialize.
  assert (truthy (JStr (b64encode (x :: b))) = true) as ->; [by destruct b as [|? [|? ?]]|].
  rewrite b64_roundtrip. reflexivity.
Qed.
