(* ===== verification/Rapu.v ===== *)
(** * The HTTP layer of the REST proxy

    [rapu.py]: the route of a callback and the keyword arguments it is called with, what a request passes
    before the callback (the body, the headers) and the reply that its outcome becomes; the route table of
    the REST application as [__main__.py] sets it up: the health handler and the root of
    [kafka_rest_apis/karapace.py], the routes of [kafka_rest_apis/__init__.py] with the call of the proxy that
    each stands for, and the metrics of [core/instrumentation/prometheus.py].

    Parameters: the router of [aiohttp] and its own answers to what no route matches, the charsets a body is
    decoded with, [accept_types] (of [WebLib]), [hashlib.md5], the generated version and the text of
    [prometheus_client]. Texts of errors, the headers of a reply other than its etag and the counters of the
    metrics middleware are not modelled. *)

From Stdlib Require Import Strings.Byte QArith.
From S2P Require Import Prelude Json Typing Models Schemas Framing Serialization KafkaClient KafkaAdmin Rest Consumers Controller Api ProxyAuth Proxy KafkaRest.
Open Scope Z_scope.

Class HttpLib : Type := {
  (** the charset of a [Content-Type] header, and [body.decode(charset)] *)
  decode_body : option string -> bytes -> result string;
  json_of_text : string -> result json;
  (** [json_encode(data, sort_keys=True, binary=True)], [data.encode("utf-8")] *)
  encode_reply : json -> bytes;
  md5_hexdigest : bytes -> string;
}.

(** ** Headers *)

(** [parse_header(value)[0]]: [get_content_type] of [email.message]. *)
Fixpoint before_semicolon (s : string) : string :=
  match s with
  | EmptyString => EmptyString
  | String c s' => if Ascii.eqb c ";" then EmptyString else String c (before_semicolon s')
  end.
Fixpoint count_char (c : ascii) (s : string) : nat :=
  match s with EmptyString => 0 | String a s' => (if Ascii.eqb a c then 1 else 0) + count_char c s' end.
Definition main_content_type (header_value : string) : string :=
  let ctype := lower (strip (before_semicolon header_value)) in
  if (count_char "/" ctype =? 1)%nat then ctype else "text/plain"%string.

Record HttpIn : Type := mkHttpIn {
  in_method : string;
  in_headers : list (string * string);
  in_query : dict string string;
  (** [await request.read()] *)
  in_body : result bytes;
}.

(** [headers.get(key)], whatever the case *)
Definition find_header (headers : list (string * string)) (key : string) : option string :=
  snd <$> List.find (fun kv => String.eqb (lower kv.1) (lower key)) headers.

(** [HTTPRequest.get_header]: a missing [Content-Type] is JSON whatever the default. *)
Definition get_header (headers : list (string * string)) (key : string) (default_value : option string) : option string :=
  match find_header headers key with
  | Some v => Some v
  | None => if String.eqb (lower key) "content-type" then Some JSON_CONTENT_TYPE else default_value
  end.

(** *** The regular expressions of the REST headers *)

Definition alternative : Type := option string.

(** [(\.(?P<x>a|b|...))?]: the alternatives in the order they are tried, none last; what is left of the text. *)
Definition optional_suffix (names : list string) (s : string) : list (alternative * string) :=
  omap (fun name =>
    if String.prefix ("." ++ name) s
    then Some (Some name, String.substring (S (String.length name)) (String.length s) s) else None) names ++ [(None, s)].

Definition EMBEDDED_FORMATS : list string := ["avro"; "json"; "protobuf"; "binary"; "jsonschema"]%string.
Definition API_VERSIONS : list string := ["v1"; "v2"]%string.

Record HeaderInfo : Type := mkHeaderInfo {
  embedded_format : option string;
  api_version : option string;
  serialization_format : option string;
  general_format : option string;
}.

Fixpoint first_some {A B} (f : A -> option B) (l : list A) : option B :=
  match l with [] => None | x :: l => match f x with Some y => Some y | None => first_some f l end end.

(** What follows the slash, matched at its start. *)
Definition match_subtype (general : list string) (s : string) : option HeaderInfo :=
  match (if String.prefix "vnd.kafka" s then
           first_some (fun '(fmt, s1) =>
             first_some (fun '(v, s2) =>
               if String.prefix "+json" s2 then Some (mkHeaderInfo fmt v (Some "json"%string) None) else None)
               (optional_suffix API_VERSIONS s1))
             (optional_suffix EMBEDDED_FORMATS (String.substring 9 (String.length s) s))
         else None) with
  | Some info => Some info
  | None => first_some (fun g => if String.prefix g s then Some (mkHeaderInfo None None None (Some g)) else None) general
  end.

(** [re.search]: the first place where one of the types and a subtype match. *)
Fixpoint search_header (types general : list string) (s : string) : option HeaderInfo :=
  match first_some (fun t =>
          if String.prefix (t ++ "/") s
          then match_subtype general (String.substring (S (String.length t)) (String.length s) s) else None) types with
  | Some info => Some info
  | None => match s with EmptyString => None | String _ s' => search_header types general s' end
  end.

Definition REST_CONTENT_TYPE_RE (s : string) : option HeaderInfo :=
  search_header ["application"]%string ["json"; "octet-stream"]%string s.
Definition REST_ACCEPT_RE (s : string) : option HeaderInfo :=
  search_header ["application"; "*"]%string ["json"; "*"]%string s.

Definition rapu_http_error (code : Z) : exn := HTTPResponse code (Some code).

Definition writes (method : string) : bool := in_strings method ["POST"; "PUT"]%string.

(** [check_rest_headers]: what the content type and the accepted types say. *)
Definition check_rest_headers (request : HttpIn) : result (HeaderInfo * HeaderInfo) :=
  let content_matcher := REST_CONTENT_TYPE_RE
    (main_content_type (default EmptyString (get_header (in_headers request) "Content-Type" (Some "application/vnd.kafka.json.v2+json"%string)))) in
  let accept_matcher := REST_ACCEPT_RE (default EmptyString (get_header (in_headers request) "Accept" (Some "*/*"%string))) in
  match content_matcher, accept_matcher with
  | None, _ => if writes (in_method request) then Raise (rapu_http_error 415) else Raise (rapu_http_error 406)
  | Some _, None => Raise (rapu_http_error 406)
  | Some c, Some a =>
      Ok (mkHeaderInfo (Some (default "binary"%string (embedded_format c))) (api_version c) (serialization_format c) (general_format c), a)
  end.

Section Rapu.
Context `{!HttpLib} `{!WebLib}.

(** [check_schema_headers] *)
Definition check_schema_headers (request : HttpIn) : result string :=
  let content_type := default EmptyString (get_header (in_headers request) "Content-Type" (Some JSON_CONTENT_TYPE)) in
  if writes (in_method request) && negb (in_strings (main_content_type content_type) SCHEMA_CONTENT_TYPES)
  then Raise (rapu_http_error 415)
  else
    match get_header (in_headers request) "Accept" None with
    | None | Some EmptyString => Ok SCHEMA_RESPONSE_DEFAULT_CONTENT_TYPE
    | Some accept_val =>
        if in_strings accept_val ["*/*"; "*"]%string || String.prefix "*/" accept_val
        then Ok SCHEMA_RESPONSE_DEFAULT_CONTENT_TYPE
        else match get_best_match accept_val SCHEMA_ACCEPT_VALUES with
             | None | Some EmptyString => Raise (rapu_http_error 406)
             | Some content_type_match => Ok content_type_match
             end
    end.
End Rapu.

(** ** Routes *)

Inductive Callback : Type :=
  | root_get | list_brokers_cb | commit_consumer_offsets | get_consumer_offsets | update_consumer_subscription
  | get_consumer_subscription | delete_consumer_subscription | update_consumer_assignment | get_consumer_assignment
  | seek_beginning_consumer_offsets | seek_end_consumer_offsets | update_consumer_offsets | fetch_cb
  | create_consumer_cb | delete_consumer_cb | partition_offsets_cb | partition_details_cb | partition_publish_cb
  | list_partitions_cb | list_topics_cb | topic_details_cb | topic_publish_cb | serve_metrics_cb.

#[global] Instance Callback_eq_dec : EqDecision Callback.
Proof. solve_decision. Defined.

Record Route : Type := mkRoute {
  path : string;
  callback : Callback;
  route_method : string;
  schema_request : bool;
  with_request : option bool;
  json_body : option bool;
  rest_request : bool;
}.

(** The arguments of a route as [route] completes them: a body of [POST] and [PUT] is passed on, and what
    is passed on is JSON. *)
Definition passes_request (r : Route) : bool :=
  match with_request r with Some b => b | None => writes (route_method r) end.
Definition reads_json (r : Route) : bool :=
  match json_body r with Some b => b | None => passes_request r end.

(** [\w] *)
Definition is_word (c : ascii) : bool :=
  let n := Z.of_nat (nat_of_ascii c) in
  ((48 <=? n) && (n <=? 57)) || ((65 <=? n) && (n <=? 90)) || ((97 <=? n) && (n <=? 122)) || (n =? 95).
Fixpoint word_prefix (s : string) : string * string :=
  match s with
  | EmptyString => (EmptyString, EmptyString)
  | String c s' => if is_word c then let '(a, b) := word_prefix s' in (String c a, b) else (EmptyString, s)
  end.

(** [re.sub("<(\w+)tail", "{\1pattern}", s)] *)
Fixpoint sub_variables (fuel : nat) (tail pattern s : string) : string :=
  match fuel, s with
  | 0%nat, _ => s
  | _, EmptyString => EmptyString
  | S fuel, String c s' =>
      if Ascii.eqb c "<" then
        let '(name, rest) := word_prefix s' in
        if negb (String.eqb name EmptyString) && String.prefix tail rest
        then ("{" ++ name ++ pattern ++ "}" ++
              sub_variables fuel tail pattern (String.substring (String.length tail) (String.length rest) rest))%string
        else String c (sub_variables fuel tail pattern s')
      else String c (sub_variables fuel tail pattern s')
  end.
Definition re_sub_variables (tail pattern s : string) : string := sub_variables (String.length s) tail pattern s.

Definition aio_route (path : string) : string := re_sub_variables ">" "" (re_sub_variables ":path>" ":.+" path).

Definition ends_with_slash (s : string) : bool :=
  String.eqb (String.substring (String.length s - 1) 1 s) "/".

(** What the router leads to: a route behind the wrapper of [route], the [OPTIONS] of its path, or the health
    handler, which is not wrapped. *)
Inductive Wrapped : Type := wrapped_callback (r : Route) | wrapped_cors | raw_health.

(** What a route adds to the router: with and without a slash at the end, then the [OPTIONS] of its path. *)
Definition registrations (r : Route) : list (string * string * Wrapped) :=
  let a := aio_route (path r) in
  (if ends_with_slash a
   then [(route_method r, a, wrapped_callback r);
         (route_method r, String.substring 0 (String.length a - 1) a, wrapped_callback r)]
   else [(route_method r, (a ++ "/")%string, wrapped_callback r); (route_method r, a, wrapped_callback r)])
  ++ [("OPTIONS"%string, a, wrapped_cors)].

(** ** Requests and replies *)

(** What a callback is called with: the values of the path, the request and the content type. *)
Record CallbackArgs : Type := mkArgs {
  match_info : dict string string;
  kw_request : option HttpIn;
  kw_content_type : bool;
  request_json : json;
  request_content_type : option HeaderInfo;
  request_accepts : option HeaderInfo;
}.
Definition kwargs (a : CallbackArgs) : list string :=
  dkeys (match_info a) ++ (if kw_request a then ["request"%string] else []) ++
  (if kw_content_type a then ["content_type"%string] else []).

Inductive ReplyBody : Type := JsonBody (j : json) | TextBody | BytesBody (b : bytes).
Record Reply : Type := mkReply { status : Z; reply_body : ReplyBody; etag : option string }.

Definition is_lookup_error (e : exn) : bool :=
  match e with LookupError | KeyError | IndexError => true | _ => false end.

Section Handle.
Context `{!HttpLib} `{!WebLib}.

(** The body as a JSON object *)
Definition read_json (request : HttpIn) (body : bytes) : result json :=
  let bad_request := HTTPResponse 400 None in
  match body with
  | [] => Raise bad_request
  | _ =>
      match (s ← decode_body (get_header (in_headers request) "Content-Type" None) body; json_of_text s) with
      | Ok (JObj d) => Ok (JObj d)
      | Ok _ => Raise (rapu_http_error 400)
      | Raise e => Raise (if bool_decide (e = UnicodeDecodeError) || is_lookup_error e || is_value_error e then bad_request else e)
      end
  end.

(** Up to the callback *)
Definition prepare_request (r : Route) (info : dict string string) (request : HttpIn) : result CallbackArgs :=
  body ← in_body request;
  j ← (if reads_json r then read_json request body
       else if bool_decide (body = []) || bool_decide (body = [x7b; x7d]) then Ok JNull
       else Raise (HTTPResponse 400 None));
  params ← (if rest_request r then p ← check_rest_headers request; Ok (Some p) else Ok None);
  _ ← (if schema_request r then _ ← check_schema_headers request; Ok () else Ok ());
  Ok (mkArgs info (if passes_request r then Some request else None) (rest_request r || schema_request r) j
        (fst <$> params) (snd <$> params)).

(** The outcome of the callback: a response is raised, and what else is raised is the server's error,
    except that the task was cancelled. A callback that returns gives no body. *)
Definition outcome (r : result (Z * ReplyBody)) : result (Z * ReplyBody) :=
  match r with
  | Ok data => Ok data
  | Raise (HTTPResponse st code) =>
      Ok (st, JsonBody (match code with Some c => JObj [("error_code"%string, JInt c)] | None => JObj [] end))
  | Raise CancelledError => Raise CancelledError
  | Raise _ => Ok (500, JsonBody (JObj [("error_code"%string, JInt 500)]))
  end.

Definition body_bytes (b : ReplyBody) : bytes :=
  match b with JsonBody j => encode_reply j | TextBody => [] | BytesBody b => b end.

Definition quote_mark : string := String (ascii_of_nat 34) EmptyString.
Definition etag_of (b : ReplyBody) : string :=
  (quote_mark ++ match body_bytes b with [] => EmptyString | bs => md5_hexdigest bs end ++ quote_mark)%string.

(** [s.replace("W/", "")] *)
Fixpoint drop_weak (s : string) : string :=
  match s with
  | EmptyString => EmptyString
  | String c s' =>
      match s' with
      | String d s'' => if Ascii.eqb c "W" && Ascii.eqb d "/" then drop_weak s'' else String c (drop_weak s')
      | EmptyString => s
      end
  end.

(** The reply of a callback; a success that the client has already is not sent again. *)
Definition finish (request : HttpIn) (data : Z * ReplyBody) : Reply :=
  let '(st, b) := data in
  if (200 <=? st) && (st <? 300) then
    let tag := etag_of b in
    match find_header (in_headers request) "if-none-match" with
    | Some (String _ _ as s) => if String.eqb (drop_weak s) tag then mkReply 304 (BytesBody []) (Some tag) else mkReply st b (Some tag)
    | _ => mkReply st b (Some tag)
    end
  else mkReply st b None.

(** Whatever leaves the wrapper is a reply. *)
Definition error_reply (e : exn) : Reply :=
  match e with
  | HTTPResponse st code =>
      mkReply st (match code with Some c => JsonBody (JObj [("error_code"%string, JInt c)]) | None => TextBody end) None
  | HTTPRequestEntityTooLarge => mkReply 413 (JsonBody (JObj [("error_code"%string, JInt 413)])) None
  | ConnectionError | ClientConnectionError | CancelledError | TimeoutError => mkReply 503 TextBody None
  | _ => mkReply 500 TextBody None
  end.

(** [OPTIONS]: a preflight request names its origin. *)
Definition cors_reply (request : HttpIn) : Reply :=
  match find_header (in_headers request) "Origin" with
  | None | Some EmptyString => error_reply (HTTPResponse 400 None)
  | Some _ => mkReply 200 (BytesBody []) None
  end.

(** [_handle_request], of a route whose callback is given its arguments. *)
Definition rapu_handle_request {S} (not_ready_handler : HttpIn -> result ()) (r : Route) (call : CallbackArgs -> M S (Z * ReplyBody))
  (info : dict string string) (request : HttpIn) : M S Reply := fun s =>
  if String.eqb (in_method request) "OPTIONS" then (s, Ok (cors_reply request)) else
  match prepare_request r info request with
  | Raise e => (s, Ok (error_reply e))
  | Ok args =>
      let '(s, data) := (_ ← lift (not_ready_handler request); call args) s in
      (s, Ok (match outcome data with Ok data => finish request data | Raise e => error_reply e end))
  end.
End Handle.

(** ** The REST application *)

Definition rest_route (method path : string) (callback : Callback) : Route :=
  mkRoute path callback method false (Some true) None true.
Definition bodyless (method path : string) (callback : Callback) : Route :=
  mkRoute path callback method false (Some true) (Some false) true.

Definition INSTANCE : string := "/consumers/<group_name:path>/instances/<instance:path>".
Definition PARTITION : string := "/topics/<topic:path>/partitions/<partition_id:path>".

(** [setup_metrics] *)
Definition metrics_route : Route := mkRoute "/metrics" serve_metrics_cb "GET" false (Some false) (Some false) false.

(** The routes in the order of [KarapaceBase.__init__], [_add_kafka_rest_routes] and [setup_metrics] *)
Definition rest_routes : list Route :=
  [ mkRoute "/" root_get "GET" false None None false;
    bodyless "GET" "/brokers" list_brokers_cb;
    rest_route "POST" (INSTANCE ++ "/offsets") commit_consumer_offsets;
    rest_route "GET" (INSTANCE ++ "/offsets") get_consumer_offsets;
    rest_route "POST" (INSTANCE ++ "/subscription") update_consumer_subscription;
    bodyless "GET" (INSTANCE ++ "/subscription") get_consumer_subscription;
    bodyless "DELETE" (INSTANCE ++ "/subscription") delete_consumer_subscription;
    rest_route "POST" (INSTANCE ++ "/assignments") update_consumer_assignment;
    bodyless "GET" (INSTANCE ++ "/assignments") get_consumer_assignment;
    rest_route "POST" (INSTANCE ++ "/positions/beginning") seek_beginning_consumer_offsets;
    rest_route "POST" (INSTANCE ++ "/positions/end") seek_end_consumer_offsets;
    rest_route "POST" (INSTANCE ++ "/positions") update_consumer_offsets;
    bodyless "GET" (INSTANCE ++ "/records") fetch_cb;
    rest_route "POST" "/consumers/<group_name:path>" create_consumer_cb;
    bodyless "DELETE" INSTANCE delete_consumer_cb;
    bodyless "GET" (PARTITION ++ "/offsets") partition_offsets_cb;
    bodyless "GET" PARTITION partition_details_cb;
    rest_route "POST" PARTITION partition_publish_cb;
    bodyless "GET" "/topics/<topic:path>/partitions" list_partitions_cb;
    bodyless "GET" "/topics" list_topics_cb;
    bodyless "GET" "/topics/<topic:path>" topic_details_cb;
    rest_route "POST" "/topics/<topic:path>" topic_publish_cb;
    metrics_route ]%string.

Definition rest_table : list (string * string * Wrapped) :=
  ("GET", "/_health", raw_health)%string :: flat_map registrations rest_routes.

(** The names of the parameters of the methods of [KafkaRest] *)
Definition signature (cb : Callback) : list string :=
  match cb with
  | root_get | serve_metrics_cb => []
  | list_brokers_cb | list_topics_cb => ["content_type"; "request"]
  | create_consumer_cb => ["group_name"; "content_type"; "request"]
  | commit_consumer_offsets | get_consumer_offsets | update_consumer_subscription | get_consumer_subscription
  | delete_consumer_subscription | update_consumer_assignment | get_consumer_assignment | seek_beginning_consumer_offsets
  | seek_end_consumer_offsets | update_consumer_offsets | fetch_cb | delete_consumer_cb =>
      ["group_name"; "instance"; "content_type"; "request"]
  | partition_offsets_cb | partition_details_cb | partition_publish_cb => ["topic"; "partition_id"; "content_type"; "request"]
  | list_partitions_cb | topic_details_cb | topic_publish_cb => ["topic"; "content_type"; "request"]
  end%string.

(** A call with other keyword arguments is a [TypeError]. *)
Definition fits (cb : Callback) (names : list string) : bool :=
  forallb (fun n => in_strings n names) (signature cb) && forallb (fun n => in_strings n (signature cb)) names.

(** The call of the user's proxy that a method of [KafkaRest] makes *)
Definition call_of (cb : Callback) (a : CallbackArgs) (query : dict string string) : option RestCall :=
  let arg k := default EmptyString (dget k (match_info a)) in
  let g := arg "group_name"%string in
  let i := arg "instance"%string in
  let t := arg "topic"%string in
  let p := arg "partition_id"%string in
  let j := as_dict (request_json a) in
  let format := default EmptyString (request_content_type a ≫= embedded_format) in
  match cb with
  | root_get | serve_metrics_cb => None
  | list_brokers_cb => Some ListBrokers
  | commit_consumer_offsets => Some (CommitOffsets g i j)
  | get_consumer_offsets => Some (GetOffsets g i j)
  | update_consumer_subscription => Some (SetSubscription g i j)
  | get_consumer_subscription => Some (GetSubscription g i)
  | delete_consumer_subscription => Some (DeleteSubscription g i)
  | update_consumer_assignment => Some (SetAssignments g i j)
  | get_consumer_assignment => Some (GetAssignments g i)
  | seek_beginning_consumer_offsets => Some (SeekBeginning g i j)
  | seek_end_consumer_offsets => Some (SeekEnd g i j)
  | update_consumer_offsets => Some (SeekTo g i j)
  | fetch_cb => Some (Fetch g i (of_opt (JStr <$> (request_accepts a ≫= embedded_format))) query)
  | create_consumer_cb => Some (CreateConsumer g j)
  | delete_consumer_cb => Some (DeleteConsumer g i)
  | partition_offsets_cb => Some (PartitionOffsets t p)
  | partition_details_cb => Some (PartitionDetails t p)
  | partition_publish_cb => Some (PartitionPublish t p format (request_json a))
  | list_partitions_cb => Some (ListPartitions t)
  | list_topics_cb => Some ListTopics
  | topic_details_cb => Some (TopicDetails t)
  | topic_publish_cb => Some (TopicPublish t format (request_json a))
  end.

(** [aiohttp]'s router: the entry that a method and a path resolve to and the values of its variables, or the
    status of the answer that [aiohttp] gives itself *)
Class Router : Type := {
  resolve : list (string * string) -> string -> string -> Z + nat * dict string string;
}.

(** The names between braces of a pattern, up to a colon *)
Fixpoint variables_from (inside : option string) (s : string) : list string :=
  match s with
  | EmptyString => []
  | String c s' =>
      match inside with
      | None => if Ascii.eqb c "{" then variables_from (Some EmptyString) s' else variables_from None s'
      | Some name =>
          if Ascii.eqb c ":" || Ascii.eqb c "}" then name :: variables_from None s'
          else variables_from (Some (name ++ String c EmptyString)%string) s'
      end
  end.
Definition variables (pattern : string) : list string := variables_from None pattern.

(** An entry has the method, and its variables are bound; otherwise the path is not found or the method is not
    allowed. *)
Class RouterLaws `{!Router} : Prop := {
  resolve_entry table method path i info : resolve table method path = inr (i, info) ->
    exists pattern, table !! i = Some (method, pattern) /\ forall k, k ∈ dkeys info <-> k ∈ variables pattern;
  resolve_none table method path st : resolve table method path = inl st -> st = 404 \/ st = 405;
}.

(** [__version__] and [generate_latest(registry)] *)
Class ServerLib : Type := { version : string; generate_latest : bytes }.

(** [KarapaceBase.health]: the REST application has no health hooks. *)
Definition health `{!ServerLib} (process_start_time now : Q) : Reply :=
  mkReply 200 (JsonBody (JObj [("process_uptime_sec", JInt (int_of_Q (now - process_start_time)));
                               ("karapace_version", JStr version)]%string)) None.

(** [PrometheusInstrumentation.serve_metrics] *)
Definition serve_metrics `{!ServerLib} {S} : M S (Z * ReplyBody) := mret (200, BytesBody generate_latest).

Definition json_response (r : response) : Z * ReplyBody := (r.1, JsonBody r.2).

Section RestApp.
Context `{!SchemaLib} `{!DataLib} `{!ForCode} `{!TokenLib} `{!NewTopicPartition} `{!HttpLib} `{!WebLib} `{!Router} `{!ServerLib}.
Context {C P : Type} `{!ConfluentConsumer C} (config : RestConfig) (process_start_time : Q).

Definition rest_callback (connect : nat -> ClientAuth -> result ()) (now : Q) (world : World P) (cw : ConsumerWorld (C := C))
  (cb : Callback) (a : CallbackArgs) : M (KafkaRest C P) (Z * ReplyBody) :=
  if negb (fits cb (kwargs a)) then raise TypeError else
  match cb, kw_request a with
  | root_get, _ => mret (json_response (r_ok (JObj [])))
  | serve_metrics_cb, _ => serve_metrics
  | _, Some request =>
      match call_of cb a (in_query request) with
      | Some call =>
          data ← serve_request config connect now world cw (find_header (in_headers request) "Authorization") call;
          mret (json_response data)
      | None => raise TypeError
      end
  | _, None => raise TypeError
  end.

(** A request to the application; what no route matches is answered by [aiohttp]. *)
Definition rest_app (connect : nat -> ClientAuth -> result ()) (now : Q) (world : World P) (cw : ConsumerWorld (C := C))
  (path : string) (request : HttpIn) : M (KafkaRest C P) Reply :=
  match resolve (map fst rest_table) (in_method request) path with
  | inl st => mret (mkReply st TextBody None)
  | inr (i, info) =>
      match snd <$> rest_table !! i with
      | None => mret (mkReply 404 TextBody None)
      | Some raw_health => mret (health process_start_time now)
      | Some wrapped_cors => mret (cors_reply request)
      | Some (wrapped_callback r) =>
          rapu_handle_request (fun _ => Ok ()) r (rest_callback connect now world cw (callback r)) info request
      end
  end.
End RestApp.
