(* ===== verification/RapuSpec.v ===== *)
(** * Properties of the HTTP layer of the REST proxy

    [documented] is the table of the proxy's endpoints, written from what a client sees: the method, the path
    and the call that it stands for. What the router resolves has the effect of its line of this table, a
    publish request comes with a format that can be serialised, and with authorisation no request without
    credentials changes anything or succeeds, but for the root, the health, the metrics and [OPTIONS]. *)

From Stdlib Require Import Strings.Byte QArith.
From S2P Require Import Prelude Json Typing Models Schemas Framing Serialization SerializationSpec KafkaClient KafkaAdmin Rest Consumers ConsumersSpec Controller Api ProxyAuth Proxy KafkaRest ProxySpec ProxyProps Rapu.
Open Scope Z_scope.

(** ** Headers *)

Lemma first_some_In {A B} (f : A -> option B) l y : first_some f l = Some y -> exists x, x ∈ l /\ f x = Some y.
Proof.
  induction l as [|x l IH]; simpl; [done|]. destruct (f x) eqn:E; [|intros (z & ? & ?)%IH; exists z; split; [by right|done]].
  intros [= <-]. exists x. split; [by left|done].
Qed.

Lemma optional_suffix_In names s fmt rest : (Some fmt, rest) ∈ optional_suffix names s -> fmt ∈ names.
Proof.
  unfold optional_suffix. intros [Hin|Hin]%elem_of_app; [|by apply list_elem_of_singleton in Hin].
  apply list_elem_of_omap in Hin as (name & Hn & Hx). destruct (String.prefix _ _); simplify_eq. done.
Qed.

Definition known_format (h : HeaderInfo) : Prop :=
  match embedded_format h with Some f => f ∈ EMBEDDED_FORMATS | None => True end.

Lemma match_subtype_format general s h : match_subtype general s = Some h -> known_format h.
Proof.
  unfold match_subtype. destruct (if String.prefix "vnd.kafka" s then _ else _) as [h'|] eqn:E.
  - intros [= <-]. destruct (String.prefix "vnd.kafka" s); [|done].
    apply first_some_In in E as ([fmt s1] & Hin & ([v s2] & _ & E)%first_some_In). destruct (String.prefix _ _); [|done].
    injection E as <-. unfold known_format. simpl. destruct fmt; [|done]. by eapply optional_suffix_In.
  - intros (g & _ & Hg)%first_some_In. destruct (String.prefix g s); [|done]. by injection Hg as <-.
Qed.

Lemma search_header_format types general s h : search_header types general s = Some h -> known_format h.
Proof.
  assert (forall s : string, first_some (fun t => if String.prefix (t ++ "/") s
    then match_subtype general (String.substring (S (String.length t)) (String.length s) s) else None) types = Some h ->
    known_format h) as Hhere.
  { intros s' (t & _ & E)%first_some_In. destruct (String.prefix _ _); [|done]. by apply match_subtype_format in E. }
  induction s as [|c s IH]; cbn [search_header].
  - destruct (first_some _ types) as [h'|] eqn:E; [|done]. intros [= ->]. by apply Hhere in E.
  - destruct (first_some _ types) as [h'|] eqn:E; [|exact IH]. intros [= ->]. by apply Hhere in E.
Qed.

(** The content type of a request that passes the headers names a format. *)
Lemma check_rest_headers_format request c a :
  check_rest_headers request = Ok (c, a) -> exists f, embedded_format c = Some f /\ f ∈ EMBEDDED_FORMATS.
Proof.
  unfold check_rest_headers. destruct (REST_CONTENT_TYPE_RE _) as [h|] eqn:E; [|by destruct (writes _)].
  destruct (REST_ACCEPT_RE _); [|done]. intros [= <- <-]. simpl. eexists. split; [done|].
  apply search_header_format in E. unfold known_format in E. destruct (embedded_format h); [done|].
  simpl. unfold EMBEDDED_FORMATS. set_solver.
Qed.

(** ** Replies *)

(** An exception that is not a response of success *)
Definition refusal (e : exn) : Prop := forall st c, e = HTTPResponse st c -> 400 <= st.

(** The documented exceptions of the libraries *)
Class HttpLaws `{!HttpLib} : Prop := {
  decode_body_raises ct b : raises_res (fun e => e = UnicodeDecodeError \/ e = LookupError) (decode_body ct b);
  json_of_text_raises s : raises_res (fun e => e = JSONDecodeError \/ e = RecursionError) (json_of_text s);
}.
Class TokenLaws `{!TokenLib} : Prop := {
  basic_auth_decode_raises h : raises_res (fun e => e = ValueError) (basic_auth_decode h);
}.

Lemma error_reply_refuses e : refusal e -> 400 <= status (error_reply e).
Proof. intros Hr. destruct e; simpl; try lia. by eapply Hr. Qed.

Lemma refused_outcome `{!HttpLib} request e :
  refusal e -> 400 <= status (match outcome (Raise e) with Ok data => finish request data | Raise e => error_reply e end).
Proof.
  intros Hr. assert (forall st b, 400 <= st -> 400 <= status (finish request (st, b))) as Hf.
  { intros st b Hst. unfold finish. replace ((200 <=? st) && (st <? 300)) with false by lia. done. }
  destruct e; cbn [outcome]; try (apply Hf; first [lia | by eapply Hr]). simpl. lia.
Qed.

Section Refusals.
Context `{!HttpLib} `{!HttpLaws} `{!WebLib}.

Lemma rapu_http_error_refusal code : 400 <= code -> refusal (rapu_http_error code).
Proof. intros Hc st c [= <- _]. done. Qed.

Lemma read_json_refuses request body : raises_res refusal (read_json request body).
Proof.
  unfold read_json. destruct body as [|x body]; [apply raises_res_raise; intros st c [= <- _]; lia|].
  destruct (s ← _; _) as [[| | | | | |d]|e] eqn:E; try (apply raises_res_raise, rapu_http_error_refusal; lia); [done|].
  apply raises_res_raise. destruct (bool_decide _ || _ || _); [intros st c [= <- _]; lia|].
  assert (e ∈ [UnicodeDecodeError; LookupError; JSONDecodeError; RecursionError]) as Hin.
  { revert E. apply (raises_res_bind (fun e => e ∈ _)).
    - eapply raises_res_weaken; [|apply decode_body_raises]. intros e' [->| ->]; set_solver.
    - intros s'. eapply raises_res_weaken; [|apply json_of_text_raises]. intros e' [->| ->]; set_solver. }
  intros st c ->. set_solver.
Qed.

Lemma check_rest_headers_refuses request : raises_res refusal (check_rest_headers request).
Proof.
  unfold check_rest_headers. destruct (REST_CONTENT_TYPE_RE _).
  - destruct (REST_ACCEPT_RE _); [done|]. apply raises_res_raise, rapu_http_error_refusal. lia.
  - destruct (writes _); apply raises_res_raise, rapu_http_error_refusal; lia.
Qed.

Lemma check_schema_headers_refuses request : raises_res refusal (check_schema_headers request).
Proof.
  unfold check_schema_headers. destruct (_ && _); [apply raises_res_raise, rapu_http_error_refusal; lia|].
  destruct (get_header _ "Accept" None) as [[|c s]|]; try done. destruct (_ || _); [done|].
  destruct (get_best_match _ _) as [[|? ?]|]; try done; apply raises_res_raise, rapu_http_error_refusal; lia.
Qed.

Lemma prepare_request_refuses r info request :
  raises_res refusal (in_body request) -> raises_res refusal (prepare_request r info request).
Proof.
  intros Hb. unfold prepare_request. apply raises_res_bind; [done|]. intros body. apply raises_res_bind.
  { destruct (reads_json r); [apply read_json_refuses|]. destruct (_ || _); [done|].
    apply raises_res_raise. intros st c [= <- _]. lia. }
  intros j. apply raises_res_bind.
  { destruct (rest_request r); [|done]. apply raises_res_bind; [apply check_rest_headers_refuses|done]. }
  intros p. apply raises_res_bind; [|done].
  destruct (schema_request r); [|done]. apply raises_res_bind; [apply check_schema_headers_refuses|done].
Qed.
End Refusals.

(** ** The endpoints *)

(** What an endpoint does: a call of the proxy, of the values of the path, the body, the format of the content
    type, the format that is accepted and the query; or an answer of its own. *)
Inductive Endpoint : Type :=
  | Calls (f : (string -> string) -> json -> string -> option string -> dict string string -> RestCall)
  | Root
  | Metrics.

Definition INSTANCE_PATH : string := "/consumers/{group_name:.+}/instances/{instance:.+}".
Definition PARTITION_PATH : string := "/topics/{topic:.+}/partitions/{partition_id:.+}".

Definition documented : list (string * string * Endpoint) :=
  let on_instance f := Calls (fun v _ _ _ _ => f (v "group_name") (v "instance"))%string in
  let with_body f := Calls (fun v j _ _ _ => f (v "group_name") (v "instance") (as_dict j))%string in
  [ ("GET", "", Root);
    ("GET", "/metrics", Metrics);
    ("GET", "/brokers", Calls (fun _ _ _ _ _ => ListBrokers));
    ("POST", INSTANCE_PATH ++ "/offsets", with_body CommitOffsets);
    ("GET", INSTANCE_PATH ++ "/offsets", with_body GetOffsets);
    ("POST", INSTANCE_PATH ++ "/subscription", with_body SetSubscription);
    ("GET", INSTANCE_PATH ++ "/subscription", on_instance GetSubscription);
    ("DELETE", INSTANCE_PATH ++ "/subscription", on_instance DeleteSubscription);
    ("POST", INSTANCE_PATH ++ "/assignments", with_body SetAssignments);
    ("GET", INSTANCE_PATH ++ "/assignments", on_instance GetAssignments);
    ("POST", INSTANCE_PATH ++ "/positions/beginning", with_body SeekBeginning);
    ("POST", INSTANCE_PATH ++ "/positions/end", with_body SeekEnd);
    ("POST", INSTANCE_PATH ++ "/positions", with_body SeekTo);
    ("GET", INSTANCE_PATH ++ "/records",
       Calls (fun v _ _ accepted query => Fetch (v "group_name") (v "instance") (of_opt (JStr <$> accepted)) query));
    ("POST", "/consumers/{group_name:.+}", Calls (fun v j _ _ _ => CreateConsumer (v "group_name") (as_dict j)));
    ("DELETE", INSTANCE_PATH, on_instance DeleteConsumer);
    ("GET", PARTITION_PATH ++ "/offsets", Calls (fun v _ _ _ _ => PartitionOffsets (v "topic") (v "partition_id")));
    ("GET", PARTITION_PATH, Calls (fun v _ _ _ _ => PartitionDetails (v "topic") (v "partition_id")));
    ("POST", PARTITION_PATH, Calls (fun v j format _ _ => PartitionPublish (v "topic") (v "partition_id") format j));
    ("GET", "/topics/{topic:.+}/partitions", Calls (fun v _ _ _ _ => ListPartitions (v "topic")));
    ("GET", "/topics", Calls (fun _ _ _ _ _ => ListTopics));
    ("GET", "/topics/{topic:.+}", Calls (fun v _ _ _ _ => TopicDetails (v "topic")));
    ("POST", "/topics/{topic:.+}", Calls (fun v j format _ _ => TopicPublish (v "topic") format j)) ]%string.

(** The endpoint of a method and a pattern, which may end in a slash *)
Definition endpoint_at (method pattern : string) : option Endpoint :=
  snd <$> List.find (fun e => String.eqb e.1.1 method &&
                              (String.eqb e.1.2 pattern || String.eqb (e.1.2 ++ "/") pattern)) documented.

(** The callback of a route does what its endpoint says. *)
Definition implements (cb : Callback) (e : Endpoint) : Prop :=
  match e with
  | Root => cb = root_get
  | Metrics => cb = serve_metrics_cb
  | Calls f =>
      cb ≠ root_get /\ cb ≠ serve_metrics_cb /\
      forall a query, call_of cb a query =
        Some (f (fun k => default EmptyString (dget k (match_info a))) (request_json a)
                (default EmptyString (request_content_type a ≫= embedded_format))
                (request_accepts a ≫= embedded_format) query)
  end.

Definition open_patterns : list string := [""; "/"; "/_health"; "/metrics"; "/metrics/"]%string.

(** What a line of the route table has to satisfy *)
Definition entry_implements (e : string * string * Wrapped) : Prop :=
  match e.2 with
  | wrapped_callback r =>
      match endpoint_at e.1.1 e.1.2 with
      | Some d => implements (callback r) d
      | None => False
      end /\
      ((callback r = root_get \/ callback r = serve_metrics_cb) -> e.1.2 ∈ open_patterns)
  | wrapped_cors => True
  | raw_health => e.1.2 ∈ open_patterns
  end.

Lemma rest_table_implements : Forall entry_implements rest_table.
Proof.
  let t := eval vm_compute in rest_table in change (Forall entry_implements t).
  repeat (apply Forall_cons; split); [..|apply Forall_nil; exact I].
  all: unfold entry_implements; cbn [fst snd callback]; try exact I.
  all: try (by unfold open_patterns; set_solver).
  all: split; [|first [by intros [?|?] | by unfold open_patterns; set_solver]].
  all: match goal with |- match ?m with _ => _ end => let d := eval vm_compute in m in change m with d end.
  all: cbv iota; first [reflexivity | split_and!; [done|done|reflexivity]].
Qed.

Lemma embedded_format_serialisable f :
  f ∈ EMBEDDED_FORMATS -> f = "json"%string \/ f = "binary"%string \/ is_Some (SCHEMA_MAPPINGS f).
Proof.
  unfold EMBEDDED_FORMATS. rewrite !elem_of_cons, elem_of_nil. intros [->|[->|[->|[->|[->|[]]]]]]; simpl; eauto.
Qed.

(** ** The route table *)

(** What the path, the request and the content type give is what the callback takes. *)
Definition entry_fits (e : string * string * Wrapped) : bool :=
  match e.2 with
  | wrapped_cors => String.eqb e.1.1 "OPTIONS"
  | raw_health => String.eqb e.1.1 "GET"
  | wrapped_callback r =>
      String.eqb e.1.1 (route_method r) && (if writes (route_method r) then reads_json r && passes_request r else true) &&
      (match callback r with root_get | serve_metrics_cb => true | _ => rest_request r && passes_request r end) &&
      fits (callback r) (variables e.1.2 ++ (if passes_request r then ["request"%string] else []) ++
                         (if rest_request r || schema_request r then ["content_type"%string] else []))
  end.
Lemma rest_table_fits : forallb entry_fits rest_table = true.
Proof. vm_compute. reflexivity. Qed.

Lemma in_strings_In s l : in_strings s l = true <-> s ∈ l.
Proof.
  unfold in_strings. rewrite existsb_exists. split.
  - intros (x & Hx & E). apply String.eqb_eq in E as ->. by apply list_elem_of_In.
  - intros Hs. exists s. split; [by apply list_elem_of_In|apply String.eqb_refl].
Qed.

Lemma fits_ext cb l l' : (forall k, k ∈ l <-> k ∈ l') -> fits cb l = fits cb l'.
Proof.
  intros Hl. unfold fits. assert (forall a b : bool, (a = true <-> b = true) -> a = b) as Hb by (intros [] []; naive_solver).
  f_equal; apply Hb; rewrite !forallb_forall.
  - split; intros Ha x Hx; specialize (Ha x Hx); rewrite in_strings_In in *; by apply Hl.
  - split; intros Ha x Hx; apply Ha, list_elem_of_In, Hl; by apply list_elem_of_In in Hx.
Qed.

Section Table.
Context `{!Router} `{!RouterLaws} `{!HttpLib} `{!WebLib}.

Lemma resolved_entry method path i info h :
  resolve (map fst rest_table) method path = inr (i, info) -> snd <$> rest_table !! i = Some h ->
  entry_fits ((method, default EmptyString (snd <$> (map fst rest_table !! i))), h) = true /\
  (forall k, k ∈ dkeys info <-> k ∈ variables (default EmptyString (snd <$> (map fst rest_table !! i)))).
Proof.
  intros (pattern & Hi & Hk)%resolve_entry Hr. rewrite Hi. simpl. split; [|done].
  rewrite list_lookup_fmap in Hi. destruct (rest_table !! i) as [[mp h']|] eqn:E; simpl in *; simplify_eq/=.
  pose proof rest_table_fits as Hf. rewrite forallb_forall in Hf. apply (Hf ((method, pattern), h)).
  apply list_elem_of_In. by eapply list_elem_of_lookup_2.
Qed.

(** The pattern of a resolved line, and what the line satisfies *)
Lemma resolved_implements method path i info h :
  resolve (map fst rest_table) method path = inr (i, info) -> snd <$> rest_table !! i = Some h ->
  exists pattern, rest_table !! i = Some (method, pattern, h) /\ entry_implements (method, pattern, h).
Proof.
  intros (pattern & Hi & _)%resolve_entry Hr. exists pattern.
  rewrite list_lookup_fmap in Hi. destruct (rest_table !! i) as [[mp h']|] eqn:E; simplify_eq/=. split; [done|].
  pose proof (Forall_lookup_1 _ _ _ _ rest_table_implements E) as He. exact He.
Qed.

Lemma prepared_args r info request args :
  prepare_request r info request = Ok args ->
  match_info args = info /\ kw_request args = (if passes_request r then Some request else None) /\
  kw_content_type args = rest_request r || schema_request r /\
  (exists body, in_body request = Ok body /\
     if reads_json r then read_json request body = Ok (request_json args) else request_json args = JNull) /\
  (reads_json r = true -> exists d, request_json args = JObj d) /\
  (rest_request r = true -> exists c a, check_rest_headers request = Ok (c, a) /\
     request_content_type args = Some c /\ request_accepts args = Some a).
Proof.
  unfold prepare_request. intros (body & Hb & (j & Hj & (p & Hp & (u & _ & [= <-])%bind_Ok)%bind_Ok)%bind_Ok)%bind_Ok.
  simpl. split_and!; try done.
  - exists body. split; [done|]. destruct (reads_json r); [done|]. by destruct (_ || _); simplify_eq.
  - intros Hr. rewrite Hr in Hj. unfold read_json in Hj. destruct body; [done|].
    destruct (s ← _; _) as [[]|]; simplify_eq; eauto.
  - intros Hr. rewrite Hr in Hp. apply bind_Ok in Hp as ([c a] & Hc & [= <-]).
    simpl. eauto.
Qed.

Lemma resolved_fits method path i info r request args :
  resolve (map fst rest_table) method path = inr (i, info) -> snd <$> rest_table !! i = Some (wrapped_callback r) ->
  prepare_request r info request = Ok args -> fits (callback r) (kwargs args) = true.
Proof.
  intros Hres Hr Hp. destruct (resolved_entry _ _ _ _ _ Hres Hr) as [Hf Hk].
  destruct (prepared_args _ _ _ _ Hp) as (Hi & Hreq & Hct & _).
  apply andb_prop in Hf as [_ Hf]. rewrite <- Hf. apply fits_ext. unfold kwargs. rewrite Hi, Hreq, Hct. intros k.
  rewrite !elem_of_app, Hk. by destruct (passes_request r).
Qed.
End Table.

(** ** Requests without credentials *)

Section Refused.
Context `{!SchemaLib} `{!DataLib} `{!ForCode} `{!TokenLib} `{!TokenLaws} `{!NewTopicPartition} `{!HttpLib} `{!HttpLaws}.
Context `{!WebLib} `{!ServerLib} {C P : Type} `{!ConfluentConsumer C}.
Context (config : RestConfig) (connect : nat -> ClientAuth -> result ()) (now : Q) (world : World P).
Context (cw : ConsumerWorld (C := C)).
Implicit Types (k : KafkaRest C P).

Lemma auth_header_refuses header mechanism : raises_res refusal (get_auth_config_from_header header mechanism).
Proof.
  unfold get_auth_config_from_header. destruct header as [h|]; [|apply raises_res_raise; intros st c [= <- _]; lia].
  destruct (split_auth_header h) as [ty tok]. destruct (String.eqb ty "Bearer"); [done|].
  destruct (String.eqb ty "Basic"); [|apply raises_res_raise; intros st c [= <- _]; lia].
  apply raises_res_bind; [|by intros []]. eapply raises_res_weaken; [|apply basic_auth_decode_raises]. intros e -> st c [=].
Qed.

Lemma serve_request_refused header call k e :
  rest_authorization (rest_auth config) = true ->
  get_auth_config_from_header header (sasl_mechanism (rest_auth config)) = Raise e ->
  exists e', serve_request config connect now world cw header call k = (k, Raise e') /\ refusal e'.
Proof.
  intros Hon He. pose proof (auth_header_refuses _ _ _ He) as Hr.
  unfold serve_request, get_user_proxy, user_key, mbind, M_bind, catch_map, lift. rewrite Hon, He. simpl.
  eexists. split; [reflexivity|]. destruct (_ || _); [intros st c [= <- _]; vm_compute; discriminate|done].
Qed.

Lemma rest_callback_refused cb args request k e :
  rest_authorization (rest_auth config) = true ->
  get_auth_config_from_header (find_header (in_headers request) "Authorization") (sasl_mechanism (rest_auth config)) = Raise e ->
  (forall r, kw_request args = Some r -> r = request) -> cb ≠ root_get -> cb ≠ serve_metrics_cb ->
  exists e', rest_callback config connect now world cw cb args k = (k, Raise e') /\ refusal e'.
Proof.
  intros Hon He Hreq Hroot Hmetrics. unfold rest_callback. destruct (negb (fits _ _)); [by exists TypeError|].
  destruct (kw_request args) as [r|]; [|destruct cb; try done; by exists TypeError].
  rewrite (Hreq r eq_refl).
  destruct (call_of cb args (in_query request)) as [call|]; [|destruct cb; try done; by exists TypeError].
  destruct (serve_request_refused (find_header (in_headers request) "Authorization") call k e Hon He) as (e' & Hs & Hr).
  exists e'. split; [|done]. destruct cb; try done; unfold mbind, M_bind; by rewrite Hs.
Qed.

(** A request that needs credentials and has none *)
Lemma rapu_handle_request_refused r info request k e :
  rest_authorization (rest_auth config) = true ->
  get_auth_config_from_header (find_header (in_headers request) "Authorization") (sasl_mechanism (rest_auth config)) = Raise e ->
  raises_res refusal (in_body request) -> in_method request ≠ "OPTIONS"%string ->
  callback r ≠ root_get -> callback r ≠ serve_metrics_cb ->
  exists reply, rapu_handle_request (fun _ => Ok ()) r (rest_callback config connect now world cw (callback r)) info request k
    = (k, Ok reply) /\ 400 <= status reply.
Proof.
  intros Hon He Hb Hm Hroot Hmetrics. unfold rapu_handle_request. rewrite (proj2 (String.eqb_neq _ _) Hm).
  destruct (prepare_request r info request) as [args|e'] eqn:Ep.
  - destruct (prepared_args _ _ _ _ Ep) as (_ & Hreq & _).
    destruct (rest_callback_refused (callback r) args request k e Hon He) as (e' & Hs & Hr); [|done..|].
    { rewrite Hreq. destruct (passes_request r); [|done]. by intros ? [= ->]. }
    unfold mbind, M_bind, lift. rewrite Hs. eexists. split; [reflexivity|]. by apply refused_outcome.
  - eexists. split; [reflexivity|]. apply error_reply_refuses. by apply (prepare_request_refuses r info request Hb).
Qed.
(** *** What needs no credentials *)

Lemma open_callback_replies r info request k :
  callback r = root_get \/ callback r = serve_metrics_cb ->
  exists reply, rapu_handle_request (fun _ => Ok ()) r (rest_callback config connect now world cw (callback r)) info request k
    = (k, Ok reply).
Proof.
  intros Hcb. unfold rapu_handle_request. destruct (String.eqb _ _); [by eexists|].
  destruct (prepare_request _ _ _) as [args|]; [|by eexists].
  unfold mbind, M_bind, lift, rest_callback. by destruct Hcb as [-> | ->], (negb _); eexists.
Qed.
End Refused.

Lemma open_endpoint_get method pattern cb :
  match endpoint_at method pattern with Some d => implements cb d | None => False end ->
  cb = root_get \/ cb = serve_metrics_cb -> method = "GET"%string.
Proof.
  unfold endpoint_at. destruct (List.find _ documented) as [e|] eqn:E; [|done].
  apply List.find_some in E as [Hin Heq]. apply andb_prop in Heq as [Hm _]. apply String.eqb_eq in Hm as <-.
  cbn [fmap option_fmap option_map]. repeat (destruct Hin as [<- | Hin]; [by intros Himpl [-> | ->]; try reflexivity; destruct Himpl as (? & ? & _)|]).
  destruct Hin.
Qed.

(** ** Properties *)

(** C36. Whatever route a request resolves to, a request that passes the checks before the callback gives it
    exactly the keyword arguments it takes, a body that is an object when it posts or puts, and has the effect
    that the table of the endpoints gives for its method and the pattern of its path: the call of the user's
    proxy, with the values of the path in their places, under the credentials of the request, or the answer of
    the root or of the metrics. The format that a call is given is one that can be serialised. *)
Theorem routed_calls_wellformed `{!SchemaLib} `{!DataLib} `{!ForCode} `{!TokenLib} `{!NewTopicPartition}
  `{!Router} `{!RouterLaws} `{!HttpLib} `{!WebLib} `{!ServerLib} {C P : Type} `{!ConfluentConsumer C}
  config connect now (world : World P) (cw : ConsumerWorld (C := C)) path request i info r args :
  resolve (map fst rest_table) (in_method request) path = inr (i, info) ->
  snd <$> rest_table !! i = Some (wrapped_callback r) ->
  prepare_request r info request = Ok args ->
  let run := rest_callback config connect now world cw (callback r) args in
  fits (callback r) (kwargs args) = true /\
  (writes (in_method request) = true ->
     exists body d, in_body request = Ok body /\ read_json request body = Ok (JObj d) /\ request_json args = JObj d) /\
  exists pattern, fst <$> rest_table !! i = Some (in_method request, pattern) /\
    match endpoint_at (in_method request) pattern with
    | Some (Calls f) =>
        exists c a format, check_rest_headers request = Ok (c, a) /\ embedded_format c = Some format /\
          (format = "json"%string \/ format = "binary"%string \/ is_Some (SCHEMA_MAPPINGS format)) /\
          forall k, run k =
            (data ← serve_request config connect now world cw (find_header (in_headers request) "Authorization")
               (f (fun key => default EmptyString (dget key info)) (request_json args) format (embedded_format a) (in_query request));
             mret (json_response data)) k
    | Some Root => forall k, run k = (k, Ok (200, JsonBody (JObj [])))
    | Some Metrics => forall k, run k = (k, Ok (200, BytesBody generate_latest))
    | None => False
    end.
Proof.
  intros Hres Hr Hp run. pose proof (resolved_fits _ _ _ _ _ _ _ Hres Hr Hp) as Hfits. split; [done|].
  destruct (resolved_entry _ _ _ _ _ Hres Hr) as [Hf _].
  destruct (resolved_implements _ _ _ _ _ Hres Hr) as (pattern & Hi & Himpl & _).
  destruct (prepared_args _ _ _ _ Hp) as (Hinfo & Hreq & _ & (body & Hb & Hj) & Hobj & Hfmt).
  unfold entry_fits in Hf. simpl in Hf. rewrite !andb_true_iff in Hf. destruct Hf as (((Hm & Hw) & Hrest) & _).
  apply String.eqb_eq in Hm. split.
  { rewrite Hm. intros Hwr. rewrite Hwr in Hw. apply andb_prop in Hw as [Hw _].
    destruct (Hobj Hw) as [d Hd]. rewrite Hw, Hd in Hj. eauto. }
  exists pattern. rewrite Hi. split; [done|]. simpl in Himpl. unfold run, rest_callback. rewrite Hfits.
  destruct (endpoint_at _ pattern) as [[f| |]|]; simpl in Himpl; [|rewrite Himpl; done..|done].
  destruct Himpl as (Hroot & Hmetrics & Hcall).
  assert (rest_request r = true /\ passes_request r = true) as [Hrr Hpr].
  { destruct (callback r); [done|..|done]; by apply andb_prop in Hrest. }
  destruct (Hfmt Hrr) as (c & a & Hca & Hc & Ha). destruct (check_rest_headers_format _ _ _ Hca) as (format & Hf & Hin).
  exists c, a, format. split_and!; [done..| |].
  { by apply embedded_format_serialisable. }
  intros k. rewrite Hreq, Hpr, Hcall, Hinfo, Hc, Ha. simpl. rewrite Hf. simpl. by destruct (callback r).
Qed.

(** C35. With authorisation, a request whose [Authorization] header gives no credentials changes no proxy, and
    every reply to it is an error, except the replies to [OPTIONS] and to [GET] of the root, of the health and
    of the metrics. *)
Theorem rest_requires_credentials `{!SchemaLib} `{!DataLib} `{!ForCode} `{!TokenLib} `{!TokenLaws} `{!NewTopicPartition}
  `{!HttpLib} `{!HttpLaws} `{!WebLib} `{!Router} `{!RouterLaws} `{!ServerLib} {C P : Type} `{!ConfluentConsumer C}
  config process_start_time connect now (world : World P) (cw : ConsumerWorld (C := C)) path request (k : KafkaRest C P) e :
  rest_authorization (rest_auth config) = true ->
  get_auth_config_from_header (find_header (in_headers request) "Authorization") (sasl_mechanism (rest_auth config)) = Raise e ->
  raises_res refusal (in_body request) ->
  exists reply, rest_app config process_start_time connect now world cw path request k = (k, Ok reply) /\
    (400 <= status reply \/ in_method request = "OPTIONS"%string \/
     exists i info pattern, resolve (map fst rest_table) (in_method request) path = inr (i, info) /\
       fst <$> rest_table !! i = Some (in_method request, pattern) /\ in_method request = "GET"%string /\
       pattern ∈ open_patterns).
Proof.
  intros Hon He Hb. unfold rest_app. destruct (resolve _ _ path) as [st|[i info]] eqn:Hres.
  { eexists. split; [reflexivity|]. left. apply resolve_none in Hres. simpl. lia. }
  destruct (snd <$> rest_table !! i) as [h|] eqn:Hr; [|eexists; split; [reflexivity|]; left; simpl; lia].
  destruct (resolved_implements _ _ _ _ _ Hres Hr) as (pattern & Hi & Himpl).
  destruct (resolved_entry _ _ _ _ _ Hres Hr) as [Hf _]. destruct h as [r| |].
  - destruct (decide (in_method request = "OPTIONS"%string)) as [Hm|Hm].
    { eexists. split; [|by right; left]. unfold rapu_handle_request. by rewrite Hm. }
    destruct (decide (callback r = root_get \/ callback r = serve_metrics_cb)) as [Hopen|Hclosed].
    + destruct (open_callback_replies config connect now world cw r info request k Hopen) as [reply Hreply].
      exists reply. split; [done|]. right; right. exists i, info, pattern. rewrite Hi.
      destruct Himpl as [Himpl Hpat]. split_and!; [done..| |by apply Hpat].
      by apply (open_endpoint_get _ pattern (callback r)).
    + destruct (rapu_handle_request_refused config connect now world cw r info request k e Hon He Hb Hm) as (reply & Hh & Hst);
        [by intros ?; apply Hclosed; auto..|].
      exists reply. by split; [|left].
  - eexists. split; [reflexivity|]. right; left. by apply String.eqb_eq in Hf.
  - eexists. split; [reflexivity|]. right; right. exists i, info, pattern. rewrite Hi.
    apply String.eqb_eq in Hf. by split_and!.
Qed.

(** ** Witnesses *)

(** A router that knows the paths that are written like their patterns. *)
Fixpoint find_entry (entry : string * string) (table : list (string * string)) : option nat :=
  match table with
  | [] => None
  | e :: table => if bool_decide (e = entry) then Some 0%nat else S <$> find_entry entry table
  end.
#[global] Instance literal_router : Router := {|
  resolve table method path :=
    match find_entry (method, path) table with
    | Some i => inr (i, map (fun v => (v, v)) (variables path))
    | None => inl 404
    end;
|}.
#[global] Instance literal_router_laws : RouterLaws.
Proof.
  split; [|intros table method path st; simpl; destruct (find_entry _ _); [done|intros [= <-]; by left]].
  intros table method path i info. simpl. destruct (find_entry (method, path) table) as [i'|] eqn:E; [|done].
  intros [= <- <-]. exists path. split.
  - revert i' E. induction table as [|e table IH]; intros i'; simpl; [done|]. case_bool_decide as He; [by intros [= <-]; subst|].
    destruct (find_entry _ table) as [i''|]; [|done]. intros [= <-]. by apply IH.
  - intros k. unfold dkeys. by rewrite map_map, map_id.
Qed.

#[global] Instance sample_http_lib : HttpLib := {|
  decode_body _ _ := Ok EmptyString;
  json_of_text _ := Ok sample_records;
  encode_reply _ := [x7b; x7d];
  md5_hexdigest _ := "0"%string;
|}.
#[global] Instance sample_http_laws : HttpLaws.
Proof. split; done. Qed.
#[global] Instance sample_token_laws : TokenLaws.
Proof. split. done. Qed.
#[global] Instance sample_web : WebLib := {|
  unquote_plus := id;
  get_best_match _ l := head l;
  jwt_decode _ _ _ := Raise InvalidTokenError;
  parse_raw_master_available _ := Ok true;
|}.

Definition sample_post : HttpIn := mkHttpIn "POST"
  [("content-type", "application/vnd.kafka.json.v2+json")]%string [] (Ok [x7b; x7d]).
Definition topic_pattern : string := "/topics/{topic:.+}".

#[global] Instance sample_server : ServerLib := {| version := "1"; generate_latest := [x23] |}.

(** The line of [POST /topics/{topic}] *)
Definition topic_post_entry : nat := 65.

Lemma routed_calls_wellformed_witness :
  match snd <$> rest_table !! topic_post_entry with
  | Some (wrapped_callback r) =>
      match prepare_request r [("topic", "topic")]%string sample_post with
      | Ok args =>
          fits (callback r) (kwargs args) = true /\
          rest_callback sample_rest sample_connect 0%Q sample_world sample_consumers (callback r) args sample_rest_state =
          (data ← serve_request sample_rest sample_connect 0%Q sample_world sample_consumers None
             (TopicPublish "topic" "json" sample_records);
           mret (json_response data)) sample_rest_state
      | Raise _ => False
      end
  | _ => False
  end.
Proof.
  destruct (snd <$> rest_table !! topic_post_entry) as [[r| |]|] eqn:Er; [|vm_compute in Er; discriminate Er..].
  destruct (prepare_request r [("topic", "topic")]%string sample_post) as [args|e] eqn:Ep.
  - assert (resolve (map fst rest_table) (in_method sample_post) topic_pattern
      = inr (topic_post_entry, [("topic", "topic")]%string)) as Hres by (vm_compute; reflexivity).
    destruct (routed_calls_wellformed sample_rest sample_connect 0%Q sample_world sample_consumers topic_pattern sample_post
      topic_post_entry [("topic", "topic")]%string r args Hres Er Ep)
      as (Hfits & _ & pattern & Hpat & Hend).
    vm_compute in Hpat. injection Hpat as <-. vm_compute in Er. injection Er as <-.
    vm_compute in Ep. injection Ep as <-. split; [exact Hfits|].
    change (endpoint_at _ _) with (Some (Calls (fun v j format _ _ => TopicPublish (v "topic") format j)))%string in Hend.
    destruct Hend as (c & a & format & Hc & Hf & _ & Hk).
    vm_compute in Hc. injection Hc as <- <-. injection Hf as <-. exact (Hk sample_rest_state).
  - vm_compute in Er. injection Er as <-. vm_compute in Ep. discriminate Ep.
Defined.

Lemma rest_requires_credentials_witness :
  exists reply, rest_app sample_rest 0%Q sample_connect 0%Q sample_world sample_consumers topic_pattern sample_post sample_rest_state
    = (sample_rest_state, Ok reply) /\ 400 <= status reply.
Proof.
  destruct (rest_requires_credentials sample_rest 0%Q sample_connect 0%Q sample_world sample_consumers topic_pattern sample_post
    sample_rest_state (HTTPResponse 401 None) eq_refl eq_refl ltac:(done)) as (reply & Heq & [Hst|[Ho|(i & info & pattern & _ & _ & Hg & _)]]).
  - exists reply. by split.
  - discriminate Ho.
  - discriminate Hg.
Defined.
