(* ===== verification/ProtoDescriptor.v ===== *)
(** * Protobuf files as descriptors

    [core/protobuf/serialization.py]: a parsed file written as a [FileDescriptorProto] in base64 and read
    back. The descriptor messages are records of their fields, a field that may be absent being an option;
    they belong to the protobuf library, which also writes and reads their bytes ([DescriptorLib]).

    The options that are read have Python values, where the parser's have texts, so they are a type of
    their own ([FileOption]) beside the element of the file. *)

From Stdlib Require Import Strings.Byte.
From S2P Require Import Prelude Json Typing Framing Rest Protobuf ProtoReader ProtoElements.
Open Scope Z_scope.

(** ** Descriptors *)

(** [FieldDescriptor.TYPE_...] *)
Inductive FieldType : Type :=
  | TYPE_DOUBLE | TYPE_FLOAT | TYPE_INT64 | TYPE_UINT64 | TYPE_INT32 | TYPE_FIXED64 | TYPE_FIXED32 | TYPE_BOOL
  | TYPE_STRING | TYPE_GROUP | TYPE_MESSAGE | TYPE_BYTES | TYPE_UINT32 | TYPE_ENUM | TYPE_SFIXED32 | TYPE_SFIXED64
  | TYPE_SINT32 | TYPE_SINT64.

#[global] Instance FieldType_eq_dec : EqDecision FieldType.
Proof. solve_decision. Defined.

(** A label is read as optional when it is not set. *)
Inductive DescriptorLabel : Type := LABEL_OPTIONAL | LABEL_REQUIRED | LABEL_REPEATED.

Record FieldDescriptorProto : Type := mkFieldDescriptor {
  fd_name : string;
  fd_number : Z;
  fd_label : DescriptorLabel;
  fd_type : option FieldType;
  fd_type_name : option string;
  fd_oneof_index : option nat;
  fd_proto3_optional : option bool;
}.
Record EnumValueDescriptorProto : Type := mkEnumValue { ev_name : string; ev_number : Z; ev_deprecated : bool }.
Record EnumDescriptorProto : Type := mkEnumDescriptor { ed_name : string; ed_values : list EnumValueDescriptorProto }.

Inductive DescriptorProto : Type :=
  mkDescriptor (d_name : string) (d_fields : list FieldDescriptorProto) (d_nested : list DescriptorProto)
    (d_enums : list EnumDescriptorProto) (d_oneofs : list string) (d_reserved_ranges : list (Z * Z))
    (d_reserved_names : list string).

(** A value that is assigned to an option, or read from one *)
Inductive PyValue : Type := PStr (s : string) | PBool (b : bool) | PInt (z : Z).

Record FileDescriptorProto : Type := mkFileDescriptor {
  fdp_package : string;
  fdp_syntax : string;
  fdp_dependency : list string;
  fdp_public_dependency : list nat;
  fdp_messages : list DescriptorProto;
  fdp_enums : list EnumDescriptorProto;
  fdp_options : dict string PyValue;
}.

Class DescriptorLib : Type := {
  (** assigning to a field checks the type and the range of the value *)
  set_string : PyValue -> result string;
  set_bool : PyValue -> result bool;
  set_enum : PyValue -> result Z;
  set_int32 : Z -> result Z;
  SerializeToString : FileDescriptorProto -> bytes;
  ParseFromString : bytes -> result FileDescriptorProto;
}.

(** What is assigned is what is read, and a message is read as it was written. *)
Class DescriptorLaws `{!DescriptorLib} : Prop := {
  set_int32_same z z' : set_int32 z = Ok z' -> z' = z;
  parse_serialize d : ParseFromString (SerializeToString d) = Ok d;
}.

(** ** Elements with the options as they are read *)

Record FileOption : Type := mkFileOption { fo_name : string; fo_kind : Kind; fo_value : PyValue }.
Record DescribedFile : Type := mkDescribed { described : ProtoFileElement; described_options : list FileOption }.

(** The options of a file in the order they are read, with the kinds they are given *)
Definition OPTION_FIELDS : list (string * Kind) :=
  [("java_package", STRING); ("java_outer_classname", STRING); ("optimize_for", ENUM); ("java_multiple_files", BOOLEAN);
   ("go_package", STRING); ("cc_generic_services", BOOLEAN); ("java_generic_services", BOOLEAN);
   ("py_generic_services", BOOLEAN); ("java_generate_equals_and_hash", BOOLEAN); ("deprecated", BOOLEAN);
   ("java_string_check_utf8", BOOLEAN); ("cc_enable_arenas", BOOLEAN); ("objc_class_prefix", STRING);
   ("csharp_namespace", STRING); ("swift_prefix", STRING); ("php_class_prefix", STRING); ("php_namespace", STRING);
   ("php_generic_services", BOOLEAN); ("php_metadata_namespace", STRING); ("ruby_package", STRING)]%string.

Definition TYPE_MAP : list (FieldType * string) :=
  [(TYPE_DOUBLE, "double"); (TYPE_FLOAT, "float"); (TYPE_INT32, "int32"); (TYPE_INT64, "int64"); (TYPE_UINT32, "uint32");
   (TYPE_UINT64, "uint64"); (TYPE_SINT32, "sint32"); (TYPE_SINT64, "sint64"); (TYPE_FIXED32, "fixed32");
   (TYPE_FIXED64, "fixed64"); (TYPE_SFIXED32, "sfixed32"); (TYPE_SFIXED64, "sfixed64"); (TYPE_BOOL, "bool");
   (TYPE_STRING, "string"); (TYPE_BYTES, "bytes")]%string.
Definition type_of_name (s : string) : option FieldType := fst <$> List.find (fun kv => String.eqb kv.2 s) TYPE_MAP.
Definition name_of_type (t : FieldType) : option string := snd <$> List.find (fun kv => bool_decide (kv.1 = t)) TYPE_MAP.

(** ** Reading *)

Definition label_of (l : DescriptorLabel) : Label :=
  match l with LABEL_OPTIONAL => OPTIONAL | LABEL_REQUIRED => REQUIRED | LABEL_REPEATED => REPEATED end.

Definition new_field (label : option Label) (ty name : string) (tag : Z) : FieldElement :=
  mkField DEFAULT_LOCATION label ty name None None tag EmptyString [].

Definition deserialize_field (field : FieldDescriptorProto) : result FieldElement :=
  let label := if default false (fd_proto3_optional field) || match fd_label field with LABEL_OPTIONAL => false | _ => true end
               then Some (label_of (fd_label field)) else None in
  ty ← (match fd_type_name field, fd_type field with
        | Some type_name, _ => Ok type_name
        | None, None => Raise InvalidSchema
        | None, Some t => match name_of_type t with Some s => Ok s | None => Raise NotImplementedError end
        end);
  Ok (new_field label ty (fd_name field) (fd_number field)).

Definition deprecated_option : OptionElement := mkOption "deprecated" BOOLEAN (VStr "true") false.

Definition deserialize_enum (e : EnumDescriptorProto) : TypeElement :=
  EnumElement DEFAULT_LOCATION (ed_name e) EmptyString []
    (map (fun c => mkConstant DEFAULT_LOCATION (ev_name c) (ev_number c) EmptyString
                     (if ev_deprecated c then [deprecated_option] else [])) (ed_values e)).

Definition deserialize_range (r : Z * Z) : RangeValue := if r.2 =? r.1 + 1 then Tag r.1 else KotlinRange r.1 (r.2 - 1).

Definition new_oneof (name : string) (fields : list FieldElement) : OneOfElement := mkOneOf name EmptyString fields [] [].

(** A field goes to its oneof, unless that is the one of a proto3 optional, which is none. *)
Definition place_field (st : list FieldElement * list (option OneOfElement)) (f : FieldDescriptorProto)
  : result (list FieldElement * list (option OneOfElement)) :=
  let '(fields, one_ofs) := st in
  sf ← deserialize_field f;
  match fd_oneof_index f with
  | None => Ok (fields ++ [sf], one_ofs)
  | Some i =>
      if default false (fd_proto3_optional f) then
        match one_ofs !! i with
        | None => Raise IndexError
        | Some _ => Ok (fields ++ [sf], <[i := None]> one_ofs)
        end
      else
        match one_ofs !! i with
        | None => Raise IndexError
        | Some None => Raise AttributeError
        | Some (Some o) => Ok (fields, <[i := Some (new_oneof (o_name o) (o_fields o ++ [sf]))]> one_ofs)
        end
  end.

Fixpoint deserialize_msg (d : DescriptorProto) : result TypeElement :=
  let '(mkDescriptor name field nested enums oneofs ranges names) := d in
  let reserved_values := map deserialize_range ranges ++ map Name names in
  let reserveds := match reserved_values with [] => [] | _ => [mkReserved DEFAULT_LOCATION EmptyString reserved_values] end in
  nested_types ← map_res deserialize_msg nested;
  '(fields, one_ofs) ← fold_res place_field field ([], map (fun n => Some (new_oneof n [])) oneofs);
  Ok (MessageElement DEFAULT_LOCATION name EmptyString (nested_types ++ map deserialize_enum enums) [] reserveds fields
        (omap id one_ofs) [] []).

Definition deserialize_options (options : dict string PyValue) : list FileOption :=
  omap (fun nk => v ← dget nk.1 options; Some (mkFileOption nk.1 nk.2 v)) OPTION_FIELDS.

(** [Syntax(proto.syntax)] *)
Definition deserialize_syntax (s : string) : result (option Syntax) :=
  if String.eqb s EmptyString then Ok None
  else if String.eqb s "proto2" then Ok (Some PROTO_2)
  else if String.eqb s "proto3" then Ok (Some PROTO_3)
  else Raise ValueError.

Definition deserialize_file (proto : FileDescriptorProto) : result DescribedFile :=
  let deps := imap (fun index dep => (existsb (Nat.eqb index) (fdp_public_dependency proto), dep)) (fdp_dependency proto) in
  let imports := omap (fun bd => if bd.1 : bool then None else Some bd.2) deps in
  let public_imports := omap (fun bd => if bd.1 : bool then Some bd.2 else None) deps in
  messages ← map_res deserialize_msg (fdp_messages proto);
  syntax ← deserialize_syntax (fdp_syntax proto);
  Ok (mkDescribed
        (mkFile (Some (fdp_package proto)) syntax imports public_imports (map deserialize_enum (fdp_enums proto) ++ messages)
           [] [] []) (deserialize_options (fdp_options proto))).

(** [base64.b64decode(schema_b64, validate=True)]: whole groups of characters of the alphabet, the last one
    padded where it is not full. *)
Definition in_alphabet (c : ascii) : bool := match b64_value c with Some _ => true | None => false end.
Fixpoint b64_strict (s : string) : bool :=
  match s with
  | EmptyString => true
  | String a (String b (String c (String d rest))) =>
      in_alphabet a && in_alphabet b &&
      match rest with
      | EmptyString => (in_alphabet c && (in_alphabet d || Ascii.eqb d "=")) || (Ascii.eqb c "=" && Ascii.eqb d "=")
      | _ => in_alphabet c && in_alphabet d && b64_strict rest
      end
  | _ => false
  end.
Definition b64decode_strict (s : string) : result bytes :=
  if negb (forallb (fun c => (N_of_ascii c <? 128)%N) (String.list_ascii_of_string s)) then Raise ValueError
  else if b64_strict s then b64_scan 0 0 0 s else Raise B64DecodeError.

Section Descriptor.
Context `{!DescriptorLib}.

Definition deserialize (schema_b64 : string) : result DescribedFile :=
  serialized_pb ← b64decode_strict schema_b64;
  proto ← ParseFromString serialized_pb;
  deserialize_file proto.

(** ** Writing *)

Definition serialize_field_label (label : Label) : result DescriptorLabel :=
  match label with
  | OPTIONAL => Ok LABEL_OPTIONAL
  | REQUIRED => Ok LABEL_REQUIRED
  | REPEATED => Ok LABEL_REPEATED
  | ONE_OF => Raise NotImplementedError
  end.

Definition serialize_field (field : FieldElement) : result FieldDescriptorProto :=
  label ← serialize_field_label (default OPTIONAL (f_label field));
  number ← set_int32 (f_tag field);
  Ok (mkFieldDescriptor (f_name field) number label (type_of_name (element_type field))
        (match type_of_name (element_type field) with Some _ => None | None => Some (element_type field) end) None
        (match f_label field with Some OPTIONAL => Some true | _ => None end)).

Definition is_deprecated (o : OptionElement) : bool :=
  String.eqb (option_name o) "deprecated" && match option_value o with VStr v => String.eqb v "true" | _ => false end.

Definition serialize_constant (c : EnumConstantElement) : result EnumValueDescriptorProto :=
  number ← set_int32 (c_tag c);
  Ok (mkEnumValue (c_name c) number (existsb is_deprecated (c_options c))).
Definition serialize_enumtype (name : string) (constants : list EnumConstantElement) : result EnumDescriptorProto :=
  values ← map_res serialize_constant constants; Ok (mkEnumDescriptor name values).

Definition serialize_range (v : RangeValue) : result (option (Z * Z)) :=
  match v with
  | Name _ => Ok None
  | Tag z => a ← set_int32 z; b ← set_int32 (z + 1); Ok (Some (a, b))
  | KotlinRange minimum maximum => a ← set_int32 minimum; b ← set_int32 (maximum + 1); Ok (Some (a, b))
  end.
Definition reserved_names (values : list RangeValue) : list string :=
  omap (fun v => match v with Name s => Some s | _ => None end) values.

(** The fields of the [i]-th oneof *)
Definition serialize_oneof (i : nat) (o : OneOfElement) : result (list FieldDescriptorProto) :=
  map_res (fun field =>
    sf ← serialize_field field;
    Ok (mkFieldDescriptor (fd_name sf) (fd_number sf) (fd_label sf) (fd_type sf) (fd_type_name sf) (Some i)
          (fd_proto3_optional sf))) (o_fields o).
Fixpoint serialize_oneofs (i : nat) (one_ofs : list OneOfElement) : result (list FieldDescriptorProto) :=
  match one_ofs with
  | [] => Ok []
  | o :: one_ofs => fs ← serialize_oneof i o; rest ← serialize_oneofs (S i) one_ofs; Ok (fs ++ rest)
  end.

(** A message or an enum *)
Fixpoint serialize_type (t : TypeElement) : result (DescriptorProto + EnumDescriptorProto) :=
  match t with
  | EnumElement _ name _ _ constants => e ← serialize_enumtype name constants; Ok (inr e)
  | MessageElement _ name _ nested_types _ reserveds fields one_ofs _ _ =>
      types ← map_res serialize_type nested_types;
      let values := concat (map r_values reserveds) in
      ranges ← map_res serialize_range values;
      fs ← map_res serialize_field fields;
      ofs ← serialize_oneofs 0 one_ofs;
      Ok (inl (mkDescriptor name (fs ++ ofs)
        (omap (fun x => match x with inl d => Some d | inr _ => None end) types)
        (omap (fun x => match x with inl _ => None | inr e => Some e end) types)
        (map o_name one_ofs) (omap id ranges) (reserved_names values)))
  end.

(** [result.<name> = opt.value]: an option that has no field is left out. *)
Definition set_option (options : dict string PyValue) (opt : FileOption) : result (dict string PyValue) :=
  match dget (fo_name opt) OPTION_FIELDS with
  | None => Ok options
  | Some STRING => s ← set_string (fo_value opt); Ok (dset (fo_name opt) (PStr s) options)
  | Some BOOLEAN => b ← set_bool (fo_value opt); Ok (dset (fo_name opt) (PBool b) options)
  | Some _ => z ← set_enum (fo_value opt); Ok (dset (fo_name opt) (PInt z) options)
  end.
Definition serialize_options (options : list FileOption) : result (dict string PyValue) := fold_res set_option options [].

Definition serialize_file (schema : DescribedFile) : result FileDescriptorProto :=
  let f := described schema in
  options ← serialize_options (described_options schema);
  types ← map_res serialize_type (file_types f);
  Ok (mkFileDescriptor (default EmptyString (file_package f))
        (match file_syntax f with Some s => syntax_str s | None => EmptyString end)
        (file_public_imports f ++ file_imports f) (seq 0 (length (file_public_imports f)))
        (omap (fun x => match x with inl d => Some d | inr _ => None end) types)
        (omap (fun x => match x with inl _ => None | inr e => Some e end) types) options).

Definition serialize (schema : DescribedFile) : result string :=
  fd ← serialize_file schema; Ok (b64encode (SerializeToString fd)).
End Descriptor.
