(* ===== verification/ProtoDescriptorSpec.v ===== *)
(** * What is left of a protobuf file that was written as a descriptor

    Written as a descriptor and read back, a file is itself without what the code does not write: services,
    extensions, groups, and the options of fields, messages and enums other than [deprecated] of a constant,
    all of which a [FileDescriptorProto] could carry; and without comments and locations, which are not part
    of one. Enums come before messages in a file and after them in a message. *)

From Stdlib Require Import Strings.Byte.
From S2P Require Import Prelude Json Typing Models Schemas Framing Serialization SerializationSpec Rest Protobuf ProtoReader ProtoElements ProtoDescriptor.
Open Scope Z_scope.

(** ** The file that is kept *)

Definition kept_field (f : FieldElement) : FieldElement := new_field (f_label f) (element_type f) (f_name f) (f_tag f).
Definition kept_constant (c : EnumConstantElement) : EnumConstantElement :=
  mkConstant DEFAULT_LOCATION (c_name c) (c_tag c) EmptyString (if existsb is_deprecated (c_options c) then [deprecated_option] else []).
Definition kept_range (v : RangeValue) : option RangeValue :=
  match v with
  | Name _ => None
  | Tag z => Some (Tag z)
  | KotlinRange a b => Some (if a =? b then Tag a else KotlinRange a b)
  end.
Definition kept_reserved (reserveds : list ReservedElement) : list ReservedElement :=
  let values := concat (map r_values reserveds) in
  match omap kept_range values ++ map Name (reserved_names values) with
  | [] => []
  | vs => [mkReserved DEFAULT_LOCATION EmptyString vs]
  end.
Definition kept_oneof (o : OneOfElement) : OneOfElement := new_oneof (o_name o) (map kept_field (o_fields o)).

Definition by_kind (message : bool) (l : list TypeElement) : list TypeElement :=
  List.filter (fun t => Bool.eqb (is_message_element t) message) l.

Fixpoint kept_type (t : TypeElement) : TypeElement :=
  match t with
  | EnumElement _ name _ _ constants => EnumElement DEFAULT_LOCATION name EmptyString [] (map kept_constant constants)
  | MessageElement _ name _ nested _ reserveds fields one_ofs _ _ =>
      let nested' := map kept_type nested in
      MessageElement DEFAULT_LOCATION name EmptyString (by_kind true nested' ++ by_kind false nested') []
        (kept_reserved reserveds) (map kept_field fields) (map kept_oneof one_ofs) [] []
  end.

(** The value an option is set to *)
Definition assigned `{!DescriptorLib} (kind : Kind) (v : PyValue) : result PyValue :=
  match kind with
  | STRING => s ← set_string v; Ok (PStr s)
  | BOOLEAN => b ← set_bool v; Ok (PBool b)
  | _ => z ← set_enum v; Ok (PInt z)
  end.

(** The last value of an option counts. *)
Definition kept_option `{!DescriptorLib} (options : list FileOption) (nk : string * Kind) : option FileOption :=
  o ← last (List.filter (fun o => String.eqb (fo_name o) nk.1) options);
  match assigned nk.2 (fo_value o) with Ok v => Some (mkFileOption nk.1 nk.2 v) | Raise _ => None end.

(** The file without its services, extensions and groups, and without the options of its fields, messages
    and enums: [_serialize_msgtype] and [serialize] leave them out, although a descriptor has places for
    them. *)
Definition kept_file `{!DescriptorLib} (schema : DescribedFile) : DescribedFile :=
  let f := described schema in
  let types := map kept_type (file_types f) in
  mkDescribed (mkFile (Some (default EmptyString (file_package f))) (file_syntax f) (file_imports f) (file_public_imports f)
                 (by_kind false types ++ by_kind true types) [] [] [])
    (omap (kept_option (described_options schema)) OPTION_FIELDS).

(** ** Fields and enums *)

Section TypeElement_ind'.
Context (Q : TypeElement -> Prop).
Context (He : forall loc n doc os cs, Q (EnumElement loc n doc os cs)).
Context (Hm : forall loc n doc nested os rs fs oos xs gs, Forall Q nested -> Q (MessageElement loc n doc nested os rs fs oos xs gs)).
Fixpoint element_ind' (t : TypeElement) : Q t :=
  match t with
  | EnumElement loc n doc os cs => He loc n doc os cs
  | MessageElement loc n doc nested os rs fs oos xs gs =>
      Hm loc n doc nested os rs fs oos xs gs
        ((fix go l : Forall Q l := match l with [] => List.Forall_nil _ | x :: l => List.Forall_cons _ _ _ (element_ind' x) (go l) end) nested)
  end.
End TypeElement_ind'.

Section Spec.
Context `{!DescriptorLib} `{!DescriptorLaws}.

Lemma type_map_inverse s t : type_of_name s = Some t -> name_of_type t = Some s.
Proof.
  unfold type_of_name. destruct (List.find _ TYPE_MAP) as [[t' s']|] eqn:E; [|done]. intros [= <-].
  apply find_some in E as [Hin Hs]. apply String.eqb_eq in Hs. simpl in Hs. subst s'.
  assert (Hall : forallb (fun kv => bool_decide (name_of_type kv.1 = Some kv.2)) TYPE_MAP = true) by (vm_compute; reflexivity).
  rewrite forallb_forall in Hall. specialize (Hall _ Hin). by apply bool_decide_eq_true in Hall.
Qed.

Lemma field_back f d i : serialize_field f = Ok d ->
  deserialize_field (mkFieldDescriptor (fd_name d) (fd_number d) (fd_label d) (fd_type d) (fd_type_name d) i (fd_proto3_optional d))
    = Ok (kept_field f) /\
  fd_oneof_index d = None /\
  fd_proto3_optional d = match f_label f with Some OPTIONAL => Some true | _ => None end.
Proof.
  unfold serialize_field. intros (label & Hl & (number & ->%set_int32_same & [= <-])%bind_Ok)%bind_Ok. simpl.
  split_and!; [|done|done]. unfold deserialize_field. simpl.
  destruct (type_of_name (element_type f)) as [t|] eqn:Et; [rewrite (type_map_inverse _ _ Et)|]; simpl.
  all: unfold kept_field; destruct (f_label f) as [[]|]; simpl in Hl; simplify_eq/=; done.
Qed.

Lemma enum_back name cs e loc doc os : serialize_enumtype name cs = Ok e ->
  deserialize_enum e = kept_type (EnumElement loc name doc os cs).
Proof.
  unfold serialize_enumtype. intros (values & Hv & [= <-])%bind_Ok. unfold deserialize_enum. simpl. f_equal.
  apply map_res_Forall2 in Hv. induction Hv as [|c v cs values Hc Hv IH]; simpl; [done|]. f_equal; [|done].
  apply bind_Ok in Hc as (number & ->%set_int32_same & [= <-]). done.
Qed.

Lemma reserved_back values ranges : map_res serialize_range values = Ok ranges ->
  map deserialize_range (omap id ranges) = omap kept_range values.
Proof.
  intros Hv. apply map_res_Forall2 in Hv. induction Hv as [|v r values ranges Hr Hv IH]; simpl; [done|].
  destruct v as [s|z|a b]; simpl in Hr.
  - injection Hr as <-. done.
  - apply bind_Ok in Hr as (x & ->%set_int32_same & (y & ->%set_int32_same & [= <-])%bind_Ok). simpl. f_equal; [|exact IH].
    unfold deserialize_range. simpl. by rewrite Z.eqb_refl.
  - apply bind_Ok in Hr as (x & ->%set_int32_same & (y & ->%set_int32_same & [= <-])%bind_Ok). simpl. f_equal; [|exact IH].
    unfold deserialize_range. simpl. destruct (Z.eqb_spec (b + 1) (a + 1)), (Z.eqb_spec a b); try lia; try done.
    replace (b + 1 - 1) with b by lia. done.
Qed.

(** ** The fields of a message *)

Lemma place_plain fs ds fs0 os : map_res serialize_field fs = Ok ds ->
  fold_res place_field ds (fs0, os) = Ok (fs0 ++ map kept_field fs, os).
Proof.
  intros Hd. apply map_res_Forall2 in Hd. revert fs0. induction Hd as [|f d fs ds Hf Hd IH]; intros fs0; simpl; [by rewrite app_nil_r|].
  destruct (field_back f d None Hf) as (Hb & Hi & _). destruct d; simpl in *; subst. rewrite Hb. simpl.
  rewrite IH. simpl. by rewrite <- app_assoc.
Qed.

Lemma fold_res_app {A B} (g : B -> A -> result B) l1 l2 b :
  fold_res g (l1 ++ l2) b = (b' ← fold_res g l1 b; fold_res g l2 b').
Proof. revert b. induction l1 as [|x l1 IH]; intros b; simpl; [done|]. destruct (g b x); simpl; [apply IH|done]. Qed.

(** The fields of a oneof have no label of their own. *)
Definition unlabelled (o : OneOfElement) : bool :=
  forallb (fun f => match f_label f with Some OPTIONAL => false | _ => true end) (o_fields o).

Lemma place_oneof i fs ds fs0 (os : list (option OneOfElement)) name fs1 :
  forallb (fun f => match f_label f with Some OPTIONAL => false | _ => true end) fs = true ->
  serialize_oneof i (mkOneOf name EmptyString fs [] []) = Ok ds -> os !! i = Some (Some (new_oneof name fs1)) ->
  fold_res place_field ds (fs0, os) = Ok (fs0, <[i := Some (new_oneof name (fs1 ++ map kept_field fs))]> os).
Proof.
  intros Hl Hd. unfold serialize_oneof in Hd. simpl in Hd. apply map_res_Forall2 in Hd. revert os fs1 Hl.
  induction Hd as [|f d fs ds Hf Hd IH]; intros os fs1 Hl Ho; simpl.
  { rewrite app_nil_r. by rewrite list_insert_id. }
  simpl in Hl. apply andb_prop in Hl as [Hl Hls]. apply bind_Ok in Hf as (d0 & Hd0 & [= <-]).
  destruct (field_back f d0 (Some i) Hd0) as (Hb & _ & Hp). rewrite Hb. simpl. rewrite Hp.
  replace (default false (match f_label f with Some OPTIONAL => Some true | _ => None end)) with false
    by (by destruct (f_label f) as [[]|]).
  rewrite Ho. simpl. rewrite (IH _ (fs1 ++ [kept_field f])); [|done|].
  - by rewrite list_insert_insert_eq, <- app_assoc.
  - apply list_lookup_insert_eq. by eapply lookup_lt_Some.
Qed.

Lemma place_oneofs one_ofs : forall i ds fs0 (done : list (option OneOfElement)),
  forallb unlabelled one_ofs = true -> serialize_oneofs i one_ofs = Ok ds -> length done = i ->
  fold_res place_field ds (fs0, done ++ map (fun n => Some (new_oneof n [])) (map o_name one_ofs)) =
    Ok (fs0, done ++ map (fun o => Some (kept_oneof o)) one_ofs).
Proof.
  induction one_ofs as [|o one_ofs IH]; intros i ds fs0 done Hl Hd Hlen; simpl in *; [by injection Hd as <-|].
  apply andb_prop in Hl as [Ho Hl]. apply bind_Ok in Hd as (fs & Hfs & (rest & Hrest & [= <-])%bind_Ok).
  rewrite fold_res_app.
  rewrite (place_oneof i (o_fields o) fs fs0 _ (o_name o) []); [|done|done|].
  - simpl. rewrite <- Hlen, insert_app_r_alt, Nat.sub_diag by lia. simpl.
    specialize (IH (S i) rest fs0 (done ++ [Some (kept_oneof o)]) Hl Hrest). rewrite <- !app_assoc in IH. simpl in IH.
    apply IH. rewrite length_app. simpl. lia.
  - rewrite lookup_app_r, Hlen, Nat.sub_diag by lia. done.
Qed.

(** ** Types *)

Fixpoint plain_type (t : TypeElement) : bool :=
  match t with
  | EnumElement _ _ _ _ _ => true
  | MessageElement _ _ _ nested _ _ _ one_ofs _ _ => forallb plain_type nested && forallb unlabelled one_ofs
  end.

Definition messages_of (l : list (DescriptorProto + EnumDescriptorProto)) : list DescriptorProto :=
  omap (fun x => match x with inl d => Some d | inr _ => None end) l.
Definition enums_of (l : list (DescriptorProto + EnumDescriptorProto)) : list EnumDescriptorProto :=
  omap (fun x => match x with inl _ => None | inr e => Some e end) l.

Definition back (t : TypeElement) (x : DescriptorProto + EnumDescriptorProto) : Prop :=
  match x with
  | inl d => is_message_element t = true /\ deserialize_msg d = Ok (kept_type t)
  | inr e => is_message_element t = false /\ deserialize_enum e = kept_type t
  end.

Lemma kept_is_message t : is_message_element (kept_type t) = is_message_element t.
Proof. by destruct t. Qed.

Lemma types_back ts xs : Forall2 back ts xs ->
  map_res deserialize_msg (messages_of xs) = Ok (by_kind true (map kept_type ts)) /\
  map deserialize_enum (enums_of xs) = by_kind false (map kept_type ts).
Proof.
  unfold by_kind. induction 1 as [|t x ts xs Hb _ [IHm IHe]]; simpl; [done|]. rewrite kept_is_message.
  destruct x as [d|e], Hb as [-> Hb]; simpl.
  - rewrite Hb. simpl. unfold messages_of, enums_of in *. rewrite IHm. simpl. done.
  - unfold messages_of, enums_of in *. rewrite IHm, Hb, IHe. done.
Qed.

Lemma type_back t : forall x, plain_type t = true -> serialize_type t = Ok x -> back t x.
Proof.
  induction t as [loc n doc os cs|loc n doc nested os rs fs oos xs gs IH] using element_ind'; intros x Hp Hx.
  - simpl in Hx. apply bind_Ok in Hx as (e & He & [= <-]). split; [done|]. by eapply enum_back.
  - simpl in Hp. apply andb_prop in Hp as [Hn Ho]. cbn [serialize_type] in Hx.
    apply bind_Ok in Hx as (types & Htypes & Hx). apply bind_Ok in Hx as (ranges & Hranges & Hx).
    apply bind_Ok in Hx as (ds & Hds & (ofs & Hofs & [= <-])%bind_Ok). split; [done|].
    assert (Forall2 back nested types) as Hback.
    { apply map_res_Forall2 in Htypes. revert IH Hn. clear -Htypes.
      induction Htypes as [|t x nested types Hx Ht IHl]; intros IH Hn; [constructor|].
      simpl in Hn. apply andb_prop in Hn as [Hn Hns]. apply Forall_cons in IH as [IH IHs].
      constructor; [by apply IH|by apply IHl]. }
    destruct (types_back _ _ Hback) as [Hm He]. cbn [deserialize_msg]. fold (messages_of types) (enums_of types).
    rewrite Hm. cbn [mbind result_bind]. rewrite fold_res_app, (place_plain fs ds) by done. cbn [mbind result_bind].
    rewrite (place_oneofs oos 0 ofs _ []) by done. cbn [mbind result_bind]. rewrite He, (reserved_back _ _ Hranges).
    cbn [kept_type]. unfold kept_reserved. simpl app. f_equal.
    assert (omap id (map (fun o => Some (kept_oneof o)) oos) = map kept_oneof oos) as ->;
      [|by destruct (omap kept_range (concat (map r_values rs)) ++ map Name (reserved_names (concat (map r_values rs))))].
    clear. induction oos as [|o oos IHo]; simpl; [done|]. by f_equal.
Qed.

Lemma types_serialized ts xs : forallb plain_type ts = true -> map_res serialize_type ts = Ok xs -> Forall2 back ts xs.
Proof.
  intros Hp Hx. apply map_res_Forall2 in Hx. induction Hx as [|t x ts xs Hx _ IH]; [constructor|].
  simpl in Hp. apply andb_prop in Hp as [Ht Hp]. constructor; [by apply type_back|by apply IH].
Qed.

(** ** Options *)

Lemma set_option_get acc o acc' name kind : set_option acc o = Ok acc' -> dget name OPTION_FIELDS = Some kind ->
  if String.eqb (fo_name o) name
  then exists v, assigned kind (fo_value o) = Ok v /\ dget name acc' = Some v
  else dget name acc' = dget name acc.
Proof.
  unfold set_option, assigned. intros Hs Hk. destruct (String.eqb_spec (fo_name o) name) as [<-|Hne].
  - rewrite Hk in Hs. destruct kind; apply bind_Ok in Hs as (v & Hv & [= <-]); rewrite Hv; simpl; eexists;
      (split; [done|]); apply dget_dset_eq.
  - destruct (dget (fo_name o) OPTION_FIELDS) as [k|]; [|by injection Hs as <-].
    destruct k; apply bind_Ok in Hs as (v & _ & [= <-]); by rewrite dget_dset_ne.
Qed.

Lemma set_options_get options acc acc' name kind :
  fold_res set_option options acc = Ok acc' -> dget name OPTION_FIELDS = Some kind ->
  dget name acc' =
    match last (List.filter (fun o => String.eqb (fo_name o) name) options) with
    | Some o => match assigned kind (fo_value o) with Ok v => Some v | Raise _ => None end
    | None => dget name acc
    end.
Proof.
  intros Hf Hk. revert acc Hf. induction options as [|o options IH]; intros acc; simpl; [by intros [= <-]|].
  intros (acc1 & H1' & Hf)%bind_Ok. rewrite (IH _ Hf). pose proof (set_option_get _ _ _ _ _ H1' Hk) as Hg.
  destruct (String.eqb (fo_name o) name).
  - destruct (List.filter _ options) as [|o' rest] eqn:E.
    + destruct Hg as (v & Hv & Hg). simpl. by rewrite Hv.
    + rewrite last_cons_cons. destruct (last (o' :: rest)) eqn:El; [done|]. by apply last_None in El.
  - destruct (last _); [done|exact Hg].
Qed.

Lemma options_back options acc : serialize_options options = Ok acc ->
  deserialize_options acc = omap (kept_option options) OPTION_FIELDS.
Proof.
  intros Ho. unfold deserialize_options.
  assert (forall l : list (string * Kind), (forall nk, nk ∈ l -> dget nk.1 OPTION_FIELDS = Some nk.2) ->
    omap (fun nk : string * Kind => v ← dget nk.1 acc; Some (mkFileOption nk.1 nk.2 v)) l =
    omap (kept_option options) (l : list (string * Kind))) as Hl.
  { induction l as [|[n k] l IH]; intros Hin; [done|]. simpl. pose proof (Hin (n, k) ltac:(by left)) as Hk. simpl in Hk.
    rewrite (set_options_get _ _ _ _ _ Ho Hk). simpl. unfold kept_option at 1. simpl.
    specialize (IH (fun nk Hnk => Hin nk (list_elem_of_further _ _ _ Hnk))).
    destruct (last _) as [o|]; simpl; [destruct (assigned k (fo_value o)); simpl|]; [f_equal|..]; exact IH. }
  apply Hl. intros [n k] Hin. apply In_dget; [|done]. unfold dwf. apply (bool_decide_unpack _). vm_compute. exact I.
Qed.

(** ** Imports, syntax and base64 *)

Lemma imports_back (public private : list string) :
  let deps := imap (fun index dep => (existsb (Nat.eqb index) (seq 0 (length public)), dep)) (public ++ private) in
  omap (fun bd : bool * string => if bd.1 then Some bd.2 else None) deps = public /\
  omap (fun bd : bool * string => if bd.1 then None else Some bd.2) deps = private.
Proof.
  cbv zeta. rewrite imap_app.
  assert (imap (fun index dep => (existsb (Nat.eqb index) (seq 0 (length public)), dep)) public = map (pair true) public) as ->.
  { rewrite <- imap_const. apply imap_ext. intros i x Hx. unfold const. f_equal. apply existsb_exists. exists i.
    split; [|apply Nat.eqb_refl]. apply in_seq. apply lookup_lt_Some in Hx. lia. }
  assert (imap (fun i => (fun index dep => (existsb (Nat.eqb index) (seq 0 (length public)), dep)) (length public + i)%nat) private
          = map (pair false) private) as Hp.
  { rewrite <- imap_const. apply imap_ext. intros i x _. unfold const. f_equal. destruct (existsb _ _) eqn:E; [|done].
    apply existsb_exists in E as (j & Hj & Hij). apply Nat.eqb_eq in Hij. apply in_seq in Hj. lia. }
  rewrite Hp, !omap_app. split.
  - assert (omap (fun bd : bool * string => if bd.1 then Some bd.2 else None) (map (pair true) public) = public) as ->
      by (clear; induction public as [|x l IH]; simpl; [done|by f_equal]).
    assert (omap (fun bd : bool * string => if bd.1 then Some bd.2 else None) (map (pair false) private) = []) as ->
      by (clear; induction private as [|x l IH]; simpl; done). by rewrite app_nil_r.
  - assert (omap (fun bd : bool * string => if bd.1 then None else Some bd.2) (map (pair true) public) = []) as ->
      by (clear; induction public as [|x l IH]; simpl; done).
    clear. induction private as [|x l IH]; simpl; [done|by f_equal].
Qed.

Lemma syntax_back s : deserialize_syntax (match s with Some s => syntax_str s | None => EmptyString end) = Ok s.
Proof. by destruct s as [[]|]. Qed.

Lemma in_alphabet_char n : 0 <= n < 64 -> in_alphabet (b64_char n) = true.
Proof. intros Hn. unfold in_alphabet. by destruct (b64_value_char n Hn) as (-> & _). Qed.

Lemma b64encode_strict : forall b, b64_strict (b64encode b) = true.
Proof.
  fix IH 1. intros [|a [|b [|c rest]]]; [done| | |].
  - pose proof (byte_val_range a) as Ha. destruct (b64_group (byte_val a) 0 0 Ha) as (_ & (H0' & H1' & _) & _); [lia..|].
    rewrite Z.shiftl_0_l, !Z.lor_0_r in *. cbn [b64encode b64_strict]. cbv zeta. by rewrite !in_alphabet_char.
  - pose proof (byte_val_range a) as Ha. pose proof (byte_val_range b) as Hb.
    destruct (b64_group (byte_val a) (byte_val b) 0 Ha Hb) as (_ & (H0' & H1' & H2' & _) & _); [lia|].
    rewrite !Z.lor_0_r in *. cbn [b64encode b64_strict]. cbv zeta. by rewrite !in_alphabet_char.
  - pose proof (byte_val_range a) as Ha. pose proof (byte_val_range b) as Hb. pose proof (byte_val_range c) as Hc.
    destruct (b64_group (byte_val a) (byte_val b) (byte_val c) Ha Hb Hc) as (_ & (H0' & H1' & H2' & H3') & _).
    cbn [b64encode b64_strict]. cbv zeta. rewrite !in_alphabet_char by done. rewrite (IH rest). by destruct (b64encode rest).
Qed.

Lemma file_back schema fd : forallb plain_type (file_types (described schema)) = true ->
  serialize_file schema = Ok fd -> deserialize_file fd = Ok (kept_file schema).
Proof.
  intros Hp. unfold serialize_file. intros (options & Ho & (types & Ht & [= <-])%bind_Ok)%bind_Ok.
  destruct (types_back _ _ (types_serialized _ _ Hp Ht)) as [Hm He]. unfold deserialize_file. simpl.
  fold (messages_of types) (enums_of types). rewrite Hm, syntax_back. simpl.
  destruct (imports_back (file_public_imports (described schema)) (file_imports (described schema))) as [Hpub Hpriv].
  cbv zeta in Hpub, Hpriv. rewrite Hpub, Hpriv, He, (options_back _ _ Ho). done.
Qed.
End Spec.

(** C37. A file whose oneof fields have no label, written as a descriptor and read back, is the file with
    what the code writes into descriptors: its package, syntax, imports, file options, and for each type its
    names, numbers, types, labels, reserved members, oneofs and deprecated constants. Services, extensions,
    groups and the other options are lost. *)
Theorem descriptor_roundtrip `{!DescriptorLib} `{!DescriptorLaws} schema text :
  forallb plain_type (file_types (described schema)) = true -> serialize schema = Ok text ->
  deserialize text = Ok (kept_file schema).
Proof.
  intros Hp. unfold serialize. intros (fd & Hfd & [= <-])%bind_Ok. unfold deserialize, b64decode_strict.
  rewrite b64encode_ascii, b64encode_strict, b64_scan_encode. simpl. rewrite parse_serialize. simpl. by apply file_back.
Qed.

(** *** A wire format for the witness: the bits of the number a descriptor encodes to *)

Definition all_field_types : list FieldType :=
  [TYPE_DOUBLE; TYPE_FLOAT; TYPE_INT64; TYPE_UINT64; TYPE_INT32; TYPE_FIXED64; TYPE_FIXED32; TYPE_BOOL; TYPE_STRING;
   TYPE_GROUP; TYPE_MESSAGE; TYPE_BYTES; TYPE_UINT32; TYPE_ENUM; TYPE_SFIXED32; TYPE_SFIXED64; TYPE_SINT32; TYPE_SINT64].
Definition field_type_nat (t : FieldType) : nat := default 0%nat (fst <$> list_find (eq t) all_field_types).
#[global] Instance FieldType_countable : Countable FieldType.
Proof. apply (inj_countable' field_type_nat (fun n => nth n all_field_types TYPE_DOUBLE)). by intros []. Defined.

Definition label_nat (l : DescriptorLabel) : nat :=
  match l with LABEL_OPTIONAL => 0 | LABEL_REQUIRED => 1 | LABEL_REPEATED => 2 end.
Definition nat_label (n : nat) : DescriptorLabel :=
  match n with 0 => LABEL_OPTIONAL | 1 => LABEL_REQUIRED | _ => LABEL_REPEATED end%nat.

Definition FieldTuple : Type :=
  (string * Z * nat * option FieldType * option string * option nat * option bool)%type.
Definition field_tuple (f : FieldDescriptorProto) : FieldTuple :=
  (fd_name f, fd_number f, label_nat (fd_label f), fd_type f, fd_type_name f, fd_oneof_index f, fd_proto3_optional f).
Definition tuple_field (t : FieldTuple) : FieldDescriptorProto :=
  let '(n, z, l, ty, tn, i, o) := t in mkFieldDescriptor n z (nat_label l) ty tn i o.
Lemma tuple_field_tuple f : tuple_field (field_tuple f) = f.
Proof. by destruct f as [? ? [] ? ? ? ?]. Qed.

Definition EnumTuple : Type := (string * list (string * Z * bool))%type.
Definition enum_tuple (e : EnumDescriptorProto) : EnumTuple :=
  (ed_name e, map (fun v => (ev_name v, ev_number v, ev_deprecated v)) (ed_values e)).
Definition tuple_enum (t : EnumTuple) : EnumDescriptorProto :=
  mkEnumDescriptor t.1 (map (fun v => mkEnumValue v.1.1 v.1.2 v.2) t.2).
Lemma tuple_enum_tuple e : tuple_enum (enum_tuple e) = e.
Proof.
  destruct e as [n vs]. unfold tuple_enum, enum_tuple. simpl. f_equal. rewrite map_map.
  induction vs as [|[] vs IH]; simpl; by f_equal.
Qed.

Definition Leaf : Type := (string * list FieldTuple * list EnumTuple * list string * list (Z * Z) * list string)%type.

Fixpoint message_tree (d : DescriptorProto) : gen_tree Leaf :=
  let '(mkDescriptor n fs nested es os rs ns) := d in
  GenNode 0 (GenLeaf (n, map field_tuple fs, map enum_tuple es, os, rs, ns) :: map message_tree nested).
Fixpoint tree_message (t : gen_tree Leaf) : DescriptorProto :=
  match t with
  | GenNode _ (GenLeaf (n, fs, es, os, rs, ns) :: nested) =>
      mkDescriptor n (map tuple_field fs) (map tree_message nested) (map tuple_enum es) os rs ns
  | _ => mkDescriptor EmptyString [] [] [] [] [] []
  end.

Lemma tree_message_tree : forall d, tree_message (message_tree d) = d.
Proof.
  fix IH 1. intros [n fs nested es os rs ns]. cbn [message_tree tree_message]. rewrite !map_map. f_equal.
  - clear. induction fs as [|f fs IHf]; cbn [map]; [done|]. by rewrite tuple_field_tuple, IHf.
  - induction nested as [|d nested IHn]; cbn [map]; [done|]. by rewrite IH, IHn.
  - clear. induction es as [|e es IHe]; cbn [map]; [done|]. by rewrite tuple_enum_tuple, IHe.
Qed.

Definition value_sum (v : PyValue) : string + (bool + Z) :=
  match v with PStr s => inl s | PBool b => inr (inl b) | PInt z => inr (inr z) end.
Definition sum_value (v : string + (bool + Z)) : PyValue :=
  match v with inl s => PStr s | inr (inl b) => PBool b | inr (inr z) => PInt z end.

Definition FileTuple : Type :=
  (string * string * list string * list nat * list (gen_tree Leaf) * list EnumTuple * list (string * (string + (bool + Z))))%type.
Definition file_tuple (d : FileDescriptorProto) : FileTuple :=
  (fdp_package d, fdp_syntax d, fdp_dependency d, fdp_public_dependency d, map message_tree (fdp_messages d),
   map enum_tuple (fdp_enums d), map (fun kv => (kv.1, value_sum kv.2)) (fdp_options d)).
Definition tuple_file (t : FileTuple) : FileDescriptorProto :=
  let '(p, s, deps, pubs, ms, es, os) := t in
  mkFileDescriptor p s deps pubs (map tree_message ms) (map tuple_enum es) (map (fun kv => (kv.1, sum_value kv.2)) os).
Lemma tuple_file_tuple d : tuple_file (file_tuple d) = d.
Proof.
  destruct d as [p s deps pubs ms es os]. unfold tuple_file, file_tuple. simpl. rewrite !map_map. f_equal.
  - induction ms as [|m ms IH]; cbn [map]; [done|]. by rewrite tree_message_tree, IH.
  - induction es as [|e es IH]; cbn [map]; [done|]. by rewrite tuple_enum_tuple, IH.
  - induction os as [|[k v] os IH]; cbn [map]; [done|]. rewrite IH. by destruct v.
Qed.

#[global] Instance sample_descriptors : DescriptorLib := {|
  set_string v := match v with PStr s => Ok s | _ => Raise TypeError end;
  set_bool v := match v with PBool b => Ok b | PInt z => Ok (negb (z =? 0)) | PStr _ => Raise TypeError end;
  set_enum v := match v with PInt z => Ok z | _ => Raise TypeError end;
  set_int32 z := if (-2147483648 <=? z) && (z <=? 2147483647) then Ok z else Raise ValueError;
  SerializeToString d := bits (encode (file_tuple d));
  ParseFromString b := match of_bits b ≫= decode with Some t => Ok (tuple_file t) | None => Raise DecodeError end;
|}.
#[global] Instance sample_descriptor_laws : DescriptorLaws.
Proof.
  split.
  - intros z z'. simpl. by destruct (_ && _); intros [= <-].
  - intros d. simpl. rewrite of_bits_bits. simpl. by rewrite countable.decode_encode, tuple_file_tuple.
Qed.

Definition sample_file : DescribedFile :=
  mkDescribed (mkFile (Some "p"%string) (Some PROTO_3) ["a.proto"%string] ["b.proto"%string]
    [MessageElement DEFAULT_LOCATION "M" "a message"
       [EnumElement DEFAULT_LOCATION "E" "" [] [mkConstant DEFAULT_LOCATION "ZERO" 0 "" [deprecated_option]]] []
       [mkReserved DEFAULT_LOCATION "" [Name "x"; Tag 4; KotlinRange 6 9]]
       [new_field (Some REPEATED) "int32" "n" 1] [new_oneof "o" [new_field None ".p.N" "b" 2]] [] []] [] [] [])
    [mkFileOption "java_package" STRING (PStr "q")].
Lemma descriptor_roundtrip_witness :
  match serialize sample_file with
  | Ok text => deserialize text = Ok (kept_file sample_file)
  | Raise _ => False
  end.
Proof.
  destruct (serialize sample_file) as [text|e] eqn:E.
  - apply (descriptor_roundtrip sample_file text eq_refl E).
  - unfold serialize in E. destruct (serialize_file sample_file) eqn:Ef; [discriminate E|vm_compute in Ef; discriminate Ef].
Defined.
