(* ===== verification/ProtobufText.v ===== *)
(** * Protobuf schemas from their texts

    How the parts of [core/protobuf] make a schema of a text: [ProtobufSchema.__init__] of
    [core/protobuf/schema.py], [parse_protobuf_schema_definition] of [core/schema_models.py], and the
    normal form asked of the Go library ([core/protobuf/protopace/protopace.py], [Dependency.to_proto] of
    [core/dependency.py]). [with_protobuf] is a [SchemaLib] whose protobuf texts are read this way: what
    Schemas takes as a parameter is there the composition of ProtoDescriptor, ProtoParser, ProtoNormalize,
    ProtoTypes and ProtoElements.

    The Go library and the protobuf runtime are parameters ([GoLib], [DescriptorLib]). A dependency holds the
    text its schema printed, so the schema object of a dependency is what that text reads as. *)

From stdpp Require Import pretty.
From S2P Require Import Prelude Json Typing Models Schemas Protobuf ProtoReader ProtoElements ProtoParser ProtoTypes ProtoNormalize ProtoDescriptor.
Open Scope Z_scope.

(** ** The Go library *)

(** [Proto]: a named text with the texts it imports *)
Inductive Proto : Type := mkProto (name : string) (schema : string) (dependencies : list Proto).
Definition proto_name (p : Proto) : string := let '(mkProto n _ _) := p in n.
Definition proto_schema (p : Proto) : string := let '(mkProto _ s _) := p in s.
Definition proto_dependencies (p : Proto) : list Proto := let '(mkProto _ _ ds) := p in ds.

(** [FormatResult]: two texts, either of which may be null *)
Record FormatResult : Type := mkFormatResult { res : option string; err : option string }.

Class GoLib : Type := {
  (** name, text, names and texts of the dependencies *)
  FormatSchema : string -> string -> list string -> list string -> FormatResult;
  (** the same of the new schema and of the one before it; a message if they are incompatible *)
  CheckCompatibility : string -> string -> list string -> list string ->
    string -> string -> list string -> list string -> option string;
}.

(** [dependencies.update]: the dependencies of a dependency, by name *)
Definition add_protos (acc : dict string Proto) (ps : list Proto) : dict string Proto :=
  fold_left (fun acc d => dset (proto_name d) d acc) ps acc.

Fixpoint all_dependencies (p : Proto) : list Proto :=
  let '(mkProto _ _ dependencies) := p in
  dvalues (fold_left (fun acc dep =>
      let acc := match proto_dependencies dep with
                 | [] => acc
                 | _ => add_protos acc (all_dependencies dep)
                 end in
      dset (proto_name dep) dep acc) dependencies []).

Definition format_proto `{!GoLib} (proto : Proto) : result string :=
  let r := FormatSchema (proto_name proto) (proto_schema proto)
             (map proto_name (all_dependencies proto)) (map proto_schema (all_dependencies proto)) in
  match truthy_str (err r) with
  | Some _ => Raise InvalidSchema
  | None => match res r with Some s => Ok s | None => Raise AttributeError end
  end.

(** The message of the [IncompatibleError], if one is raised *)
Definition check_compatibility `{!GoLib} (proto prev_proto : Proto) : option string :=
  CheckCompatibility (proto_name proto) (proto_schema proto)
    (map proto_name (all_dependencies proto)) (map proto_schema (all_dependencies proto))
    (proto_name prev_proto) (proto_schema prev_proto)
    (map proto_name (all_dependencies prev_proto)) (map proto_schema (all_dependencies prev_proto)).

(** [Dependency.to_proto] *)
Fixpoint to_proto (d : Dependency) : result Proto :=
  let '(mkDependency name _ _ (mkTyped schema_type schema_str _ dependencies)) := d in
  match schema_type with
  | PROTOBUF =>
      ps ← match dependencies with Some l => map_res (fun kd => to_proto kd.2) l | None => Ok [] end;
      Ok (mkProto name schema_str ps)
  | _ => Raise InvalidSchema
  end.

(** [dependencies.values() if dependencies else []] *)
Definition dependency_values (dependencies : option Dependencies) : list Dependency :=
  match dependencies with Some l => dvalues l | None => [] end.

Definition format_protobuf `{!GoLib} (schema : string) (dependencies : list Dependency) (name : string)
  : result string :=
  deps ← map_res to_proto dependencies;
  format_proto (mkProto name schema deps).

(** ** Reading a text *)

(** An option read from a descriptor, as the element the printer is given; [str] of a bool or an int *)
Definition value_str (v : PyValue) : string :=
  match v with PStr s => s | PBool b => if b then "True" else "False" | PInt z => pretty z end.
Definition option_of (o : FileOption) : OptionElement :=
  mkOption (fo_name o) (fo_kind o) (VStr (value_str (fo_value o))) false.
Definition described_element (d : DescribedFile) : ProtoFileElement :=
  let f := described d in
  mkFile (file_package f) (file_syntax f) (file_imports f) (file_public_imports f) (file_types f)
    (file_services f) (file_extends f) (map option_of (described_options d)).

Section ProtobufText.
Context `{!DescriptorLib}.

(** [ProtobufSchema.__init__]: a text that is not base64 is parsed. *)
Definition ProtobufSchema_init (schema : string) : result ProtoFileElement :=
  match deserialize schema with
  | Ok d => Ok (described_element d)
  | Raise B64DecodeError => parse (to_text schema)
  | Raise e => Raise e
  end.

(** [get_schema().schema] of a dependency; an Avro or JSON schema has none of the methods of a
    [ProtobufSchema]. *)
Fixpoint dependency_schema (d : Dependency) : result ProtobufSchema :=
  let '(mkDependency _ _ _ (mkTyped schema_type schema_str _ dependencies)) := d in
  match schema_type with
  | PROTOBUF =>
      file ← ProtobufSchema_init schema_str;
      deps ← match dependencies with
             | Some l => map_res (fun kd => s ← dependency_schema kd.2; Ok (kd.1, s)) l
             | None => Ok []
             end;
      Ok (mkSchema file deps)
  | _ => Raise AttributeError
  end.
Definition dependency_schemas (dependencies : option Dependencies) : result (list (string * ProtobufSchema)) :=
  match dependencies with
  | Some l => map_res (fun kd => s ← dependency_schema kd.2; Ok (kd.1, s)) l
  | None => Ok []
  end.

(** The text that is read: the one the Go library makes of it, if that is asked for and succeeds *)
Definition formatted_definition `{!GoLib} (schema_definition : string) (dependencies : option Dependencies)
  (use_protobuf_formatter : bool) : result string :=
  if use_protobuf_formatter then
    match format_protobuf schema_definition (dependency_values dependencies) "schema.proto" with
    | Raise InvalidSchema => Ok schema_definition
    | r => r
    end
  else Ok schema_definition.

(** The schema with its dependencies, normalised or not, and the check of the types it uses; the
    exception is a [ProtobufUnresolvedDependencyException]. *)
Definition normalized_schema (s : ProtobufSchema) (normalize : bool) : result ProtobufSchema :=
  if normalize then ProtoNormalize.normalize s else Ok s.
Definition verified_schema (s : ProtobufSchema) (validate_references : bool) : result ProtobufSchema :=
  if validate_references then if (verify_schema_dependencies s).1 then Ok s else Raise ProtobufException
  else Ok s.

(** Without either the dependencies are not looked at. *)
Definition read_definition (schema_definition : string) (dependencies : option Dependencies)
  (validate_references normalize : bool) : result ProtoFileElement :=
  file ← ProtobufSchema_init schema_definition;
  if normalize || validate_references then
    deps ← dependency_schemas dependencies;
    s ← normalized_schema (mkSchema file deps) normalize;
    s ← verified_schema s validate_references;
    Ok (schema_file s)
  else Ok file.

Definition parse_definition `{!GoLib} (schema_definition : string) (dependencies : option Dependencies)
  (validate_references normalize use_protobuf_formatter : bool) : result ProtoFileElement :=
  text ← formatted_definition schema_definition dependencies use_protobuf_formatter;
  read_definition text dependencies validate_references normalize.

(** [str] of a schema *)
Definition protobuf_str (f : ProtoFileElement) : result string := of_text <$> schema_to_schema f.

(** The libraries for Avro and JSON Schema of [base], with protobuf texts read as above *)
Definition with_protobuf `{!GoLib} (base : SchemaLib) : SchemaLib := {|
  sha1 := @sha1 base;
  json_dumps_sorted := @json_dumps_sorted base;
  normalize_json := @normalize_json base;
  avro_merge_schemas := @avro_merge_schemas base;
  parse_avro_schema_definition := @parse_avro_schema_definition base;
  parse_jsonschema_definition := @parse_jsonschema_definition base;
  parse_protobuf_schema_definition s references dependencies validate_references normalize use_protobuf_formatter :=
    file ← parse_definition s dependencies validate_references normalize use_protobuf_formatter;
    Ok (protobuf_str file);
|}.
End ProtobufText.
