(* ===== verification/ProtobufTextSpec.v ===== *)
(** * What reading a protobuf text raises and returns

    The laws Schemas asks of the protobuf parser hold of the composition in ProtobufText: reading and
    printing raise nothing but the exceptions of [SchemaLibErrors] ([with_protobuf_errors]). A schema the
    registry accepts uses declared types only ([accepted_protobuf_verified]), and one that is plain prints a
    text that reads back as itself ([plain_protobuf_reprints]), which is what the registration over the API
    and the reader need of it. The dependencies handed to the Go library are closed ([dependencies_closed]). *)

From Stdlib Require Import Strings.Byte.
From stdpp Require Import pretty.
From S2P Require Import Prelude Json Typing Models Schemas Rest Protobuf ProtoReader ProtoReaderSpec ProtoElements ProtoParser ProtoParserSpec ProtoLayout ProtoTokens ProtoPrint ProtoRead ProtoDeclare ProtoRoundTrip ProtoTypes ProtoTypesSpec ProtoNormalize ProtoNormalizeSpec ProtoDescriptor ProtobufText.
Open Scope Z_scope.

(** ** What printing raises *)

Lemma parse_error_text e : parse_error e -> text_failure e.
Proof. unfold text_failure, text_error. destruct e; try done; intros _; simpl; try tauto; do 2 right; right; set_solver. Qed.
Lemma text_raises {A} (r : result A) : raises_res parse_error r -> raises_res text_failure r.
Proof. apply raises_res_weaken, parse_error_text. Qed.

Lemma option_raises o : raises_res text_failure (option_to_schema o).
Proof. apply text_raises, option_to_schema_raises. Qed.
#[local] Hint Resolve option_raises : karapace.

(** Follows the bindings of a printer. *)
Ltac prints := repeat (apply raises_res_bind; [eauto with karapace|intros]); eauto with karapace.

Lemma indented_raises {A} (show : A -> result text) l : (forall x, raises_res text_failure (show x)) ->
  raises_res text_failure (indented show l).
Proof. intros H. unfold indented. prints. Qed.
#[local] Hint Resolve indented_raises : karapace.
Lemma section_raises {A} (show : A -> result text) l : (forall x, raises_res text_failure (show x)) ->
  raises_res text_failure (section show l).
Proof. intros H. destruct l; [done|]. cbn [section]. prints. Qed.
#[local] Hint Resolve section_raises : karapace.

Lemma declaration_raises o : raises_res text_failure (to_schema_declaration o).
Proof. unfold to_schema_declaration. prints. Qed.
Lemma append_options_raises l : raises_res text_failure (append_options l).
Proof. unfold append_options. prints. Qed.
#[local] Hint Resolve declaration_raises append_options_raises : karapace.
Lemma optional_options_raises l : raises_res text_failure (optional_options l).
Proof. destruct l; [done|]. cbn [optional_options]. prints. Qed.
Lemma element_string_raises o : raises_res text_failure (option_element_string o).
Proof.
  unfold option_element_string. apply raises_res_bind; [|done]. destruct (option_kind o); try apply option_raises.
  apply raises_res_bind; [apply text_raises, py_str_raises|done].
Qed.
#[local] Hint Resolve optional_options_raises element_string_raises : karapace.

(** The parts of a map type are shorter than the type, so the fuel of [get2] is enough. *)
Lemma lstrip_length s : (String.length (lstrip s) <= String.length s)%nat.
Proof. induction s as [|c s IH]; simpl; [done|]. destruct (_ : bool); simpl; lia. Qed.
Lemma string_reverse_length s : String.length (string_reverse s) = String.length s.
Proof.
  unfold string_reverse. rewrite <- (String.string_of_list_ascii_of_string s) at 2.
  generalize (String.list_ascii_of_string s). intros l.
  assert (Hl : forall l, String.length (String.string_of_list_ascii l) = length l)
    by (intros m; induction m as [|c m IH]; simpl; congruence).
  by rewrite !Hl, length_rev.
Qed.
Lemma strip_length s : (String.length (strip s) <= String.length s)%nat.
Proof.
  unfold strip. rewrite string_reverse_length. etrans; [apply lstrip_length|].
  rewrite string_reverse_length. apply lstrip_length.
Qed.
Lemma substring_length_le n : forall m s, (String.length (String.substring n m s) <= m)%nat.
Proof.
  induction n as [|n IH]; intros m s; destruct s as [|c s]; simpl; try (destruct m; simpl; lia); [|apply IH].
  destruct m as [|m]; simpl; [lia|]. apply le_n_S. clear. revert m; induction s as [|c s IH]; intros [|m]; simpl; try lia.
  apply le_n_S, IH.
Qed.
Lemma rfind_length c s i : rfind c s = Some i -> (i < String.length s)%nat.
Proof.
  revert i; induction s as [|d s IH]; intros i; simpl; [done|].
  destruct (rfind c s) as [j|]; [intros [= <-]; specialize (IH j eq_refl); lia|].
  destruct (Ascii.eqb c d); [intros [= <-]; lia|done].
Qed.
Lemma get2_fuel_raises fuel : forall name, (String.length name < fuel)%nat ->
  raises_res (fun e => e = IllegalArgumentException) (get2_fuel fuel name).
Proof.
  induction fuel as [|fuel IH]; intros name Hn; [lia|]. cbn [get2_fuel].
  destruct (is_scalar_name name); [done|]. destruct (_ || _); [by apply raises_res_raise|].
  destruct (_ && _); [|done]. destruct (rfind "," name) as [comma|] eqn:E; [|by apply raises_res_raise].
  apply rfind_length in E.
  assert (Hs : forall a b, (b < String.length name)%nat -> (String.length (strip (String.substring a b name)) < fuel)%nat).
  { intros a b Hb. pose proof (strip_length (String.substring a b name)). pose proof (substring_length_le a b name). lia. }
  apply raises_res_bind; [apply IH, Hs; lia|]. intros key. apply raises_res_bind; [apply IH, Hs; lia|]. intros value.
  unfold map_type_of. destruct (_ && _); [done|by apply raises_res_raise].
Qed.
Lemma get2_raises name : raises_res text_failure (get2 name).
Proof.
  eapply (raises_res_weaken (fun e => e = IllegalArgumentException)); [|apply get2_fuel_raises; lia].
  intros e ->. right. by left.
Qed.

Lemma field_raises f : raises_res text_failure (field_to_schema f).
Proof.
  unfold field_to_schema. apply raises_res_bind; [|intros; prints]. unfold options_with_special_values.
  apply raises_res_bind; [|done]. destruct (truthy_str _); [|done]. by apply raises_res_bind; [apply get2_raises|].
Qed.
#[local] Hint Resolve field_raises : karapace.
Lemma group_raises g : raises_res text_failure (group_to_schema g).
Proof. unfold group_to_schema. prints. Qed.
#[local] Hint Resolve group_raises : karapace.
Lemma one_of_raises o : raises_res text_failure (one_of_to_schema o).
Proof. unfold one_of_to_schema. prints. Qed.
Lemma constant_raises c : raises_res text_failure (constant_to_schema c).
Proof. unfold constant_to_schema. prints. Qed.
#[local] Hint Resolve one_of_raises constant_raises : karapace.
Lemma enum_raises n d os cs : raises_res text_failure (enum_to_schema n d os cs).
Proof. unfold enum_to_schema. prints. Qed.
Lemma extensions_raises x : raises_res text_failure (extensions_to_schema x).
Proof.
  unfold extensions_to_schema. apply raises_res_bind; [|done]. apply raises_res_map. intros []; simpl; try done.
  apply raises_res_raise. do 2 right. by left.
Qed.
Lemma extend_raises e : raises_res text_failure (extend_to_schema e).
Proof. unfold extend_to_schema. prints. Qed.
Lemma rpc_raises r : raises_res text_failure (rpc_to_schema r).
Proof. unfold rpc_to_schema. prints. Qed.
#[local] Hint Resolve enum_raises extensions_raises extend_raises rpc_raises : karapace.
Lemma service_raises s : raises_res text_failure (service_to_schema s).
Proof. unfold service_to_schema. prints. Qed.
Lemma reserved_raises r : raises_res text_failure (reserved_to_schema r).
Proof. done. Qed.
#[local] Hint Resolve service_raises reserved_raises : karapace.

Lemma type_raises (e : TypeElement) : raises_res text_failure (type_string e).
Proof.
  revert e. fix rec 1. intros [l n d nested os rs fs oofs xs gs|l n d os cs]; cbn [type_string]; [|apply enum_raises].
  do 6 (apply raises_res_bind; [eauto with karapace|intros]). apply raises_res_bind; [|done].
  induction nested as [|e nested IH]; [apply raises_res_ok|].
  apply raises_res_bind; [apply rec|]. intros. apply raises_res_bind; [exact IH|done].
Qed.
#[local] Hint Resolve type_raises : karapace.
Lemma schema_raises f : raises_res text_failure (schema_to_schema f).
Proof. unfold schema_to_schema. prints. Qed.

(** ** What reading raises *)

(** The runtime refuses bytes that are no descriptor. *)
Class DescriptorErrors `{!DescriptorLib} : Prop := {
  ParseFromString_raises b : raises_res (fun e => e = DecodeError) (ParseFromString b);
}.

(** Everything [parse] has to expect *)
Definition definition_error (e : exn) : Prop := e = InvalidSchema \/ text_failure e.
Lemma definition_text e : text_failure e -> definition_error e.
Proof. by right. Qed.
Lemma listed_error e : e ∈ [AttributeError; DecodeError; IndexError; NotImplementedError; OtherError] -> definition_error e.
Proof. intros He. do 3 right. by right. Qed.

Ltac reading_error :=
  intros ? [= <-]; first [by left | by right; left | by (do 2 right; left) | by (do 3 right; left) | apply listed_error; set_solver].

Lemma b64_scan_raises s : forall pos left pads, raises_res (fun e => e = B64DecodeError) (b64_scan pos left pads s).
Proof.
  induction s as [|c s IH]; intros pos left pads; cbn [b64_scan].
  - destruct (pos =? 0); [done|by apply raises_res_raise].
  - destruct (Ascii.eqb c "="); [destruct (_ && _); [done|apply IH]|].
    destruct (b64_value c); [|apply IH].
    repeat (case_match; first [apply IH | (apply raises_res_bind; [apply IH|done]) | idtac]).
Qed.
Lemma b64decode_strict_raises s : raises_res (fun e => e = ValueError \/ e = B64DecodeError) (b64decode_strict s).
Proof.
  unfold b64decode_strict. destruct (negb _); [apply raises_res_raise; by left|].
  destruct (b64_strict s); [|apply raises_res_raise; by right].
  eapply raises_res_weaken; [|apply b64_scan_raises]. auto.
Qed.

Lemma deserialize_field_raises f : raises_res definition_error (deserialize_field f).
Proof.
  unfold deserialize_field. apply raises_res_bind; [|done].
  destruct (fd_type_name f); [done|]. destruct (fd_type f) as [t|]; [|reading_error].
  destruct (name_of_type t); [done|reading_error].
Qed.
Lemma place_field_raises st f : raises_res definition_error (place_field st f).
Proof.
  destruct st as [fields one_ofs]. apply raises_res_bind; [apply deserialize_field_raises|]. intros sf.
  destruct (fd_oneof_index f) as [i|]; [|done]. destruct (default _ _).
  - destruct (one_ofs !! i); [done|reading_error].
  - destruct (one_ofs !! i) as [[o|]|]; [done|reading_error..].
Qed.
Lemma fold_res_raises {A B} P (f : B -> A -> result B) l : (forall acc x, raises_res P (f acc x)) ->
  forall acc, raises_res P (fold_res f l acc).
Proof. intros Hf. induction l as [|x l IH]; intros acc; [done|]. cbn [fold_res]. by apply raises_res_bind. Qed.
Lemma deserialize_msg_raises (d : DescriptorProto) : raises_res definition_error (deserialize_msg d).
Proof.
  revert d. fix rec 1. intros [name fields nested enums oneofs ranges names]. cbn [deserialize_msg].
  apply raises_res_bind.
  - induction nested as [|d nested IH]; [apply raises_res_ok|]. cbn [map_res].
    apply raises_res_bind; [apply rec|]. intros. apply raises_res_bind; [exact IH|done].
  - intros. apply raises_res_bind; [apply fold_res_raises, place_field_raises|by intros []].
Qed.
Lemma deserialize_file_raises p : raises_res definition_error (deserialize_file p).
Proof.
  unfold deserialize_file. apply raises_res_bind; [apply raises_res_map, deserialize_msg_raises|]. intros.
  apply raises_res_bind; [|done]. unfold deserialize_syntax. repeat case_match; try done. reading_error.
Qed.

Section reading.
Context `{!DescriptorLib} `{!DescriptorErrors}.

Lemma ProtobufSchema_init_raises s : raises_res definition_error (ProtobufSchema_init s).
Proof.
  intros e. unfold ProtobufSchema_init.
  assert (Hd : raises_res (fun e => e = B64DecodeError \/ definition_error e) (deserialize s)).
  { unfold deserialize. apply raises_res_bind.
    - eapply raises_res_weaken; [|apply b64decode_strict_raises]. intros e' [->| ->]; [right|by left].
      do 3 right. by left.
    - intros b. apply raises_res_bind.
      + eapply raises_res_weaken; [|apply ParseFromString_raises]. intros e' ->. right. apply listed_error. set_solver.
      + intros p. eapply raises_res_weaken; [|apply deserialize_file_raises]. auto. }
  destruct (deserialize s) as [d|e']; [done|]. specialize (Hd e' eq_refl).
  destruct (decide (e' = B64DecodeError)) as [->|Hne].
  - intros He. apply definition_text, parse_error_text. by apply (parse_raises (to_text s)).
  - destruct Hd as [->|Hd]; [done|]. intros He. destruct e'; try done; by injection He as <-.
Qed.

Lemma dependency_schema_raises (d : Dependency) : raises_res definition_error (dependency_schema d).
Proof.
  revert d. fix rec 1. intros [name subject version [t s refs deps]]. cbn [dependency_schema].
  destruct t; try (apply raises_res_raise, listed_error; set_solver).
  apply raises_res_bind; [apply ProtobufSchema_init_raises|]. intros file. apply raises_res_bind; [|done].
  destruct deps as [l|]; [|done]. induction l as [|[k d] l IH]; [apply raises_res_ok|]. cbn [map_res].
  apply raises_res_bind; [apply raises_res_bind; [apply rec|done]|]. intros. apply raises_res_bind; [exact IH|done].
Qed.
Lemma dependency_schemas_raises deps : raises_res definition_error (dependency_schemas deps).
Proof.
  destruct deps as [l|]; [|done]. apply raises_res_map. intros [k d].
  apply raises_res_bind; [apply dependency_schema_raises|done].
Qed.
End reading.

Lemma to_proto_raises (d : Dependency) : raises_res definition_error (to_proto d).
Proof.
  revert d. fix rec 1. intros [name subject version [t s refs deps]]. cbn [to_proto].
  destruct t; try (apply raises_res_raise; by left).
  apply raises_res_bind; [|done]. destruct deps as [l|]; [|done].
  induction l as [|[k d] l IH]; [apply raises_res_ok|]. cbn [map_res].
  apply raises_res_bind; [apply rec|]. intros. apply raises_res_bind; [exact IH|done].
Qed.

Section composition.
Context `{!DescriptorLib} `{!DescriptorErrors} `{!GoLib}.

Lemma formatted_definition_raises s deps f : raises_res definition_error (formatted_definition s deps f).
Proof.
  unfold formatted_definition. destruct f; [|done].
  assert (Hf : raises_res definition_error (format_protobuf s (dependency_values deps) "schema.proto")).
  { apply raises_res_bind; [apply raises_res_map, to_proto_raises|]. intros ps. unfold format_proto.
    destruct (truthy_str _); [by apply raises_res_raise; left|]. destruct (res _); [done|].
    apply raises_res_raise, listed_error. set_solver. }
  destruct (format_protobuf _ _ _) as [t|e]; [done|]. specialize (Hf e eq_refl).
  destruct e; try done; by intros e' [= <-].
Qed.
Lemma read_definition_raises s deps v n : raises_res definition_error (read_definition s deps v n).
Proof.
  apply raises_res_bind; [apply ProtobufSchema_init_raises|]. intros file. destruct (n || v); [|done].
  apply raises_res_bind; [apply dependency_schemas_raises|]. intros ds.
  apply raises_res_bind; [|intros s'; apply raises_res_bind; [|done]].
  - unfold normalized_schema. destruct n; [|done]. by destruct (normalize_total (mkSchema file ds)) as [s' ->].
  - unfold verified_schema. destruct v; [|done]. destruct (verify_schema_dependencies s').1; [done|].
    apply raises_res_raise. right. right. by left.
Qed.
Lemma parse_definition_raises s deps v n f : raises_res definition_error (parse_definition s deps v n f).
Proof. apply raises_res_bind; [apply formatted_definition_raises|intros; apply read_definition_raises]. Qed.
Lemma protobuf_str_raises file : raises_res text_failure (protobuf_str file).
Proof.
  pose proof (schema_raises file) as Hs. unfold protobuf_str. destruct (schema_to_schema file) as [t|e]; [done|].
  simpl. intros e' [= <-]. by apply Hs.
Qed.

(** The composition keeps the laws the registry and the reader rely on. *)
#[export] Instance with_protobuf_errors (base : SchemaLib) : @SchemaLibErrors base -> @SchemaLibErrors (with_protobuf base).
Proof.
  intros Hb. split; simpl.
  - apply (@json_dumps_sorted_raises base Hb).
  - apply (@normalize_json_raises base Hb).
  - apply (@avro_merge_raises base Hb).
  - apply (@parse_avro_raises base Hb).
  - apply (@parse_jsonschema_raises base Hb).
  - intros. apply raises_res_bind; [apply parse_definition_raises|done].
  - intros s r d v n f p Hp. apply bind_Ok in Hp as (file & _ & [= <-]). apply protobuf_str_raises.
Qed.
End composition.

(** ** Texts that are not base64 *)

Definition is_ascii (s : string) : bool := forallb (fun c => (N_of_ascii c <? 128)%N) (String.list_ascii_of_string s).

Lemma b64_strict_alphabet (s : string) : b64_strict s = true ->
  Forall (fun c => in_alphabet c || Ascii.eqb c "=" = true) (String.list_ascii_of_string s).
Proof.
  enough (Hn : forall n s, (String.length s <= n)%nat -> b64_strict s = true ->
    Forall (fun c => in_alphabet c || Ascii.eqb c "=" = true) (String.list_ascii_of_string s)) by by apply (Hn (String.length s)).
  clear s. induction n as [|n IH]; intros [|a [|b [|c [|d rest]]]] Hn; try done; try (simpl in Hn; lia); [intros; constructor..|].
  cbn [b64_strict].
  intros [[Ha Hb]%andb_true_iff H]%andb_true_iff. cbn [String.list_ascii_of_string].
  constructor; [by rewrite Ha|]. constructor; [by rewrite Hb|]. destruct rest as [|e rest].
  - apply orb_true_iff in H as [[Hc Hd]%andb_true_iff|[Hc Hd]%andb_true_iff].
    + constructor; [by rewrite Hc|]. constructor; [done|constructor].
    + constructor; [by rewrite Hc, orb_true_r|]. constructor; [by rewrite Hd, orb_true_r|constructor].
  - apply andb_true_iff in H as [[Hc Hd]%andb_true_iff Hr].
    constructor; [by rewrite Hc|]. constructor; [by rewrite Hd|]. apply IH; [simpl in *; lia|done].
Qed.

(** A text with a line feed in it *)
Lemma lines_not_base64 s : is_ascii s = true -> LF ∈ to_text s -> b64decode_strict s = Raise B64DecodeError.
Proof.
  intros Ha Hl. unfold b64decode_strict. fold (is_ascii s). rewrite Ha. cbn [negb].
  destruct (b64_strict s) eqn:E; [|done]. apply b64_strict_alphabet in E.
  by apply (proj1 (Forall_forall _ _) E) in Hl.
Qed.

Ltac last_line := rewrite ?elem_of_app; repeat first [by left | right]; set_solver.

Lemma printed_lines f t : schema_to_schema f = Ok t -> t ≠ [] -> LF ∈ t.
Proof.
  unfold schema_to_schema. intros H.
  apply bind_Ok in H as (os & _ & H). apply bind_Ok in H as (ms & _ & H). apply bind_Ok in H as (es & _ & H).
  apply bind_Ok in H as (xs & _ & H). apply bind_Ok in H as (ss & _ & H). injection H as <-. intros Hne.
  destruct (file_syntax f); [unfold syntax_text; set_solver|].
  destruct (truthy_str (file_package f)); [set_solver|].
  destruct (has_imports f); [set_solver|]. destruct (file_options f); [|set_solver].
  destruct (file_types f); [|set_solver]. destruct (file_extends f); [|set_solver].
  destruct (file_services f); [done|set_solver].
Qed.

(** ** What a parsed schema is *)

Section parsed.
Context `{!DescriptorLib} `{!DescriptorErrors} `{!GoLib}.

Lemma parse_definition_inv s deps n f file : parse_definition s deps true n f = Ok file ->
  exists text file0 ds final, formatted_definition s deps f = Ok text /\ ProtobufSchema_init text = Ok file0 /\
    dependency_schemas deps = Ok ds /\ normalized_schema (mkSchema file0 ds) n = Ok final /\
    forallb (usage_ok final) (used_types final) = true /\ file = schema_file final.
Proof.
  unfold parse_definition, read_definition. intros (text & Ht & Hb)%bind_Ok. apply bind_Ok in Hb as (file0 & Hf & Hb).
  rewrite orb_true_r in Hb. apply bind_Ok in Hb as (ds & Hd & Hb). apply bind_Ok in Hb as (final & Hn & Hb).
  apply bind_Ok in Hb as (final' & Hv & [= <-]). exists text, file0, ds, final.
  unfold verified_schema in Hv. rewrite verified_usages in Hv. destruct (forallb _ _) eqn:E; [|done].
  injection Hv as <-. by split_and!.
Qed.

Lemma parse_protobuf_inv base s a b refs deps n f sch : @Schemas.parse (with_protobuf base) PROTOBUF s a b refs deps n f = Ok sch ->
  exists file t, parse_definition s deps true n f = Ok file /\ protobuf_str file = Ok t /\ sch = mkTyped PROTOBUF t refs deps.
Proof.
  unfold Schemas.parse. cbn [parse_protobuf_schema_definition with_protobuf].
  destruct (parse_definition s deps true n f) as [file|e]; [|by cbn; case_match].
  unfold TypedSchema_init. cbn. destruct (protobuf_str file) as [t|] eqn:E; [|done]. intros [= <-]. eauto.
Qed.

(** The text of a plain schema reads as a file with the same text. *)
Lemma plain_text_reads file t : plain_file file -> protobuf_str file = Ok t -> t ≠ EmptyString -> is_ascii t = true ->
  exists file', ProtobufSchema_init t = Ok file' /\ protobuf_str file' = Ok t.
Proof.
  intros Hp Ht Hne Ha. destruct (plain_rereads file Hp) as (s & file' & Hs & Hparse & _ & Hs').
  unfold protobuf_str in *. rewrite Hs in Ht. injection Ht as <-.
  assert (Hto : to_text (of_text s) = s) by apply String.list_ascii_of_string_of_list_ascii.
  exists file'. rewrite Hs'. split; [|done]. unfold ProtobufSchema_init, deserialize.
  rewrite lines_not_base64; [cbn; by rewrite Hto|done|].
  rewrite Hto. eapply printed_lines; [exact Hs|]. by intros ->.
Qed.
End parsed.

(** ** What the handlers leave out *)

Section failures.
Context `{!DescriptorLib} `{!GoLib}.

Lemma parse_init_raises base s a b refs deps n e : ProtobufSchema_init s = Raise e ->
  protobuf_parse_errors e = false ->
  @Schemas.parse (with_protobuf base) PROTOBUF s a b refs deps n false = Raise e.
Proof.
  intros Hi He. unfold Schemas.parse. cbn [parse_protobuf_schema_definition with_protobuf].
  unfold parse_definition, formatted_definition, read_definition. cbn. rewrite Hi. cbn. by rewrite He.
Qed.

(** A text with a character that is not ASCII is a [ValueError] of the decoding, not of base64. *)
Lemma non_ascii_refused base s a b refs deps n : is_ascii s = false ->
  @Schemas.parse (with_protobuf base) PROTOBUF s a b refs deps n false = Raise ValueError.
Proof.
  intros Hs. apply parse_init_raises; [|done]. unfold ProtobufSchema_init, deserialize, b64decode_strict.
  fold (is_ascii s). by rewrite Hs.
Qed.

(** A text that decodes as base64 is taken for a descriptor, whatever else it may be. *)
Lemma base64_not_parsed base s a b refs deps n bytes : b64decode_strict s = Ok bytes ->
  ParseFromString bytes = Raise DecodeError ->
  @Schemas.parse (with_protobuf base) PROTOBUF s a b refs deps n false = Raise DecodeError.
Proof.
  intros Hs Hp. apply parse_init_raises; [|done]. unfold ProtobufSchema_init, deserialize. rewrite Hs. cbn. by rewrite Hp.
Qed.

(** A reference to a schema of another type *)
Lemma foreign_dependency base s a b refs name d deps file : ProtobufSchema_init s = Ok file ->
  schema_type (dep_schema d) ≠ PROTOBUF ->
  @Schemas.parse (with_protobuf base) PROTOBUF s a b refs (Some ((name, d) :: deps)) false false = Raise AttributeError.
Proof.
  intros Hi Ht. unfold Schemas.parse. cbn [parse_protobuf_schema_definition with_protobuf].
  unfold parse_definition, formatted_definition, read_definition. cbn. rewrite Hi.
  destruct d as [dn ds dv [t st r dd]]. cbn in Ht. by destruct t.
Qed.
End failures.

(** ** The dependencies of a text *)

(** What a text imports, at any depth *)
Inductive imports : Proto -> Proto -> Prop :=
  | imports_direct p q : q ∈ proto_dependencies p -> imports p q
  | imports_deep p d q : d ∈ proto_dependencies p -> imports d q -> imports p q.

Lemma dkeys_dset_elem {V} (k : string) (v : V) d k' : k' ∈ dkeys (dset k v d) <-> k' = k \/ k' ∈ dkeys d.
Proof.
  rewrite dkeys_dset. destruct (dget k d) eqn:E; [|set_solver].
  assert (k ∈ dkeys d) by (apply dget_Some_key; eauto). set_solver.
Qed.
Lemma dset_values {V} (k : string) (v w : V) d : w ∈ dvalues (dset k v d) -> w = v \/ w ∈ dvalues d.
Proof.
  induction d as [|[k' v'] d IH]; simpl; [set_solver|]. case_decide; simpl; [set_solver|].
  intros [->|Hw]%elem_of_cons; [right; by left|]. destruct (IH Hw); [by left|right; by right].
Qed.

Lemma add_protos_keys ps : forall acc k, k ∈ dkeys (add_protos acc ps) <-> k ∈ dkeys acc \/ k ∈ map proto_name ps.
Proof.
  unfold add_protos. induction ps as [|p ps IH]; intros acc k; simpl; [set_solver|].
  rewrite IH, dkeys_dset_elem. set_solver.
Qed.

(** A dictionary whose values are filed under their names *)
Definition by_name (acc : dict string Proto) : Prop := Forall (fun kp => kp.1 = proto_name kp.2) acc.
Lemma by_name_dset p acc : by_name acc -> by_name (dset (proto_name p) p acc).
Proof.
  intros Ha. unfold by_name in *. induction Ha as [|[k q] acc Hk Ha IH]; simpl; [by repeat constructor|].
  case_decide; simplify_eq/=; by constructor.
Qed.
Lemma by_name_add ps : forall acc, by_name acc -> by_name (add_protos acc ps).
Proof. unfold add_protos. induction ps as [|p ps IH]; intros acc Ha; [done|]. by apply IH, by_name_dset. Qed.
Lemma by_name_names acc : by_name acc -> map proto_name (dvalues acc) = dkeys acc.
Proof. induction 1 as [|[k q] acc Hk _ IH]; [done|]. simpl in *. by rewrite IH, Hk. Qed.


Definition add_dependency (acc : dict string Proto) (dep : Proto) : dict string Proto :=
  dset (proto_name dep) dep (add_protos acc (all_dependencies dep)).
Definition collect (deps : list Proto) (acc : dict string Proto) : dict string Proto := fold_left add_dependency deps acc.

Lemma all_dependencies_collect p : all_dependencies p = dvalues (collect (proto_dependencies p) []).
Proof.
  destruct p as [n s deps]. cbn [all_dependencies proto_dependencies]. unfold collect. f_equal.
  generalize (@nil (string * Proto)). induction deps as [|d deps IH]; intros acc; [done|]. cbn [fold_left].
  rewrite IH. f_equal. unfold add_dependency. by destruct d as [dn ds [|x l]].
Qed.

Lemma collect_spec (P : Proto -> Prop) deps : forall acc,
  by_name acc -> dwf acc -> Forall P (dvalues acc) ->
  (forall d, d ∈ deps -> P d /\ forall q, q ∈ all_dependencies d -> P q) ->
  by_name (collect deps acc) /\ dwf (collect deps acc) /\ Forall P (dvalues (collect deps acc)) /\
  forall k, k ∈ dkeys (collect deps acc) <->
    k ∈ dkeys acc \/ exists d, d ∈ deps /\ (k = proto_name d \/ k ∈ map proto_name (all_dependencies d)).
Proof.
  unfold collect. induction deps as [|d deps IH]; intros acc Hn Hw HP Hd; cbn [fold_left].
  - split_and!; [done..|]. intros k. split; [by left|]. intros [Hk|(d & Hd' & _)]; [done|by apply elem_of_nil in Hd'].
  - destruct (Hd d) as [HPd HPs]; [by left|]. unfold add_dependency at 2 4 6 8.
    assert (Hadd : forall ps acc, (forall q, q ∈ ps -> P q) -> dwf acc -> Forall P (dvalues acc) ->
      dwf (add_protos acc ps) /\ Forall P (dvalues (add_protos acc ps))).
    { unfold add_protos. induction ps as [|p ps IHp]; intros acc' Hps Hw' HP'; [done|]. cbn [fold_left].
      apply IHp; [intros; apply Hps; by right|by apply dwf_dset|]. apply Forall_forall. intros v Hv.
      apply dset_values in Hv as [->|Hv]; [apply Hps; by left|]. by apply (proj1 (Forall_forall _ _) HP'). }
    destruct (Hadd (all_dependencies d) acc) as [Hw1 HP1]; [done..|].
    destruct (IH (add_dependency acc d)) as (H1 & H2 & H3 & H4).
    + by apply by_name_dset, by_name_add.
    + by apply dwf_dset.
    + apply Forall_forall. intros v Hv. apply dset_values in Hv as [->|Hv]; [done|].
      by apply (proj1 (Forall_forall _ _) HP1).
    + intros e He. apply Hd. by right.
    + split_and!; [done..|]. intros k. rewrite H4. unfold add_dependency. rewrite dkeys_dset_elem, add_protos_keys.
      split.
      * intros [[->|[Hk|Hk]]|(e & He & Hk)]; [right; exists d; split; [by left|by left]|by left| |].
        -- right. exists d. split; [by left|by right].
        -- right. exists e. split; [by right|done].
      * intros [Hk|(e & [->|He]%elem_of_cons & Hk)]; [left; by right; left| |right; by exists e].
        left. destruct Hk as [->|Hk]; [by left|by right; right].
Qed.

Lemma Proto_rect_forall (P : Proto -> Prop) : (forall n s ds, (forall d, d ∈ ds -> P d) -> P (mkProto n s ds)) -> forall p, P p.
Proof.
  intros Hp. fix rec 1. intros [n s ds]. apply Hp. apply Forall_forall.
  induction ds as [|d ds IH]; constructor; [exact (rec d)|exact IH].
Qed.

(** What the Go library is given: every text that is imported, at any depth, by its name, each name once;
    of two texts of one name the one met last. *)
Theorem dependencies_closed p :
  NoDup (map proto_name (all_dependencies p)) /\ (forall q, q ∈ all_dependencies p -> imports p q) /\
  forall q, imports p q -> proto_name q ∈ map proto_name (all_dependencies p).
Proof.
  induction p as [n s ds IH] using Proto_rect_forall. set (p := mkProto n s ds).
  destruct (collect_spec (imports p) ds []) as (Hn & Hw & Hp & Hk); [constructor..| |].
  { intros d Hd. split; [by apply imports_direct|]. intros q Hq. apply (imports_deep p d); [done|]. by apply IH. }
  rewrite all_dependencies_collect. cbn [proto_dependencies p]. rewrite by_name_names by done. split_and!; [done| |].
  - intros q Hq. by apply (proj1 (Forall_forall _ _) Hp).
  - intros q Hq. apply Hk. right. inversion Hq as [p' q' Hd|p' d q' Hd Hi]; subst.
    + exists q. split; [done|by left].
    + exists d. split; [done|right]. by apply (IH d Hd).
Qed.

(** ** Properties *)

(** C10. A protobuf schema is registered only when the types it uses are there. With the protobuf texts read
    by the code of the repository, [parse] either raises [InvalidSchema] or an exception its handlers leave
    out, or returns the text printed for the schema that was read (from the text the formatter made, where
    it is used), normalised if that is asked for: every type this schema uses is a scalar, a known type
    whose file is imported, or declared in it or in a dependency, and so is every type that uses one. *)
Theorem accepted_protobuf_verified `{!DescriptorLib} `{!DescriptorErrors} `{!GoLib} base `{!@SchemaLibErrors base}
  s a b refs deps n f :
  match @Schemas.parse (with_protobuf base) PROTOBUF s a b refs deps n f with
  | Ok sch => exists text file ds final,
      formatted_definition s deps f = Ok text /\ ProtobufSchema_init text = Ok file /\
      dependency_schemas deps = Ok ds /\ normalized_schema (mkSchema file ds) n = Ok final /\
      forallb (usage_ok final) (used_types final) = true /\
      protobuf_str (schema_file final) = Ok (schema_str sch) /\
      schema_type sch = PROTOBUF /\ ts_references sch = refs /\ ts_dependencies sch = deps
  | Raise e => e = InvalidSchema \/ text_failure e
  end.
Proof.
  pose proof (@parse_cases (with_protobuf base) _ PROTOBUF s a b refs deps n f) as Hc.
  destruct (@Schemas.parse (with_protobuf base) PROTOBUF s a b refs deps n f) as [sch|e] eqn:E.
  - apply parse_protobuf_inv in E as (file & t & Hf & Ht & ->).
    apply parse_definition_inv in Hf as (text & file0 & ds & final & Ht1 & Ht2 & Ht3 & Ht4 & Ht5 & ->).
    by exists text, file0, ds, final.
  - destruct Hc as [->|[[? _]|[_ Hc]]]; [by left|done|by right].
Qed.

(** C9. What registration needs of a protobuf schema holds of the plain ones: when the file that was parsed
    is plain (names that are words, no comments, scalar options, distinct names) and its text ASCII and not
    empty, the stored text is read by the reader, with the same references, as a schema that prints it
    again. *)
Theorem plain_protobuf_reprints `{!DescriptorLib} `{!GoLib} base s a b refs deps n f sch :
  @Schemas.parse (with_protobuf base) PROTOBUF s a b refs deps n f = Ok sch ->
  (forall file, parse_definition s deps true n f = Ok file -> plain_file file) ->
  schema_str sch ≠ EmptyString -> is_ascii (schema_str sch) = true ->
  @reprints (with_protobuf base) sch.
Proof.
  intros (file & t & Hf & Ht & ->)%parse_protobuf_inv Hplain Hne Ha _. cbn in *.
  destruct (plain_text_reads file t (Hplain _ Hf) Ht Hne Ha) as (file' & Hi & Hs).
  unfold parse_definition, formatted_definition, read_definition. cbn. rewrite Hi. cbn. by rewrite Hs.
Qed.

(** *** Witnesses *)

(** A runtime that takes no bytes for a descriptor, and a formatter that changes nothing *)
#[local] Instance no_descriptors : DescriptorLib := {|
  set_string v := match v with PStr s => Ok s | _ => Raise TypeError end;
  set_bool v := match v with PBool b => Ok b | _ => Raise TypeError end;
  set_enum v := match v with PInt z => Ok z | _ => Raise TypeError end;
  set_int32 := Ok;
  SerializeToString _ := [];
  ParseFromString _ := Raise DecodeError;
|}.
#[local] Instance no_descriptors_errors : DescriptorErrors.
Proof. split. intros b e. by intros [= <-]. Qed.
#[local] Instance same_text : GoLib := {|
  FormatSchema _ s _ _ := mkFormatResult (Some s) None;
  CheckCompatibility _ _ _ _ _ _ _ _ := None;
|}.

Definition shop_file (l l1 l2 : Location) : ProtoFileElement :=
  mkFile (Some "shop"%string) (Some PROTO_3) [] []
    [MessageElement l "Item" "" [] [] []
       [mkField l1 None "string" "id" None None 1 "" []; mkField l2 None "Item" "parent" None None 2 "" []] [] [] []] [] [] [].
Lemma shop_file_plain l l1 l2 : plain_file (shop_file l l1 l2).
Proof.
  split; try done; try each_member done.
  - by intros p [= <-].
  - intros e ->%list_elem_of_singleton. apply plain_message. split_and!; try done; try each_member idtac.
    intros f Hf. apply elem_of_cons in Hf as [->|Hf].
    + exists (Named (to_text "string")). split; [repeat split; done|]. split; [by left|not_keyword].
    + apply list_elem_of_singleton in Hf as ->. exists (Named (to_text "Item")). split; [repeat split; done|]. split; [by left|not_keyword].
  - apply (bool_decide_unpack _). by vm_compute.
  - apply (bool_decide_unpack _). by vm_compute.
Qed.
Definition shop_text : string := match protobuf_str (shop_file DEFAULT_LOCATION DEFAULT_LOCATION DEFAULT_LOCATION) with Ok t => t | Raise _ => EmptyString end.

Lemma accepted_protobuf_verified_witness :
  match @Schemas.parse (with_protobuf trivial_lib) PROTOBUF shop_text true true None None true true with
  | Ok sch => exists text file ds final,
      formatted_definition shop_text None true = Ok text /\ ProtobufSchema_init text = Ok file /\
      dependency_schemas None = Ok ds /\ normalized_schema (mkSchema file ds) true = Ok final /\
      forallb (usage_ok final) (used_types final) = true /\
      protobuf_str (schema_file final) = Ok (schema_str sch) /\
      schema_type sch = PROTOBUF /\ ts_references sch = None /\ ts_dependencies sch = None
  | Raise e => e = InvalidSchema \/ text_failure e
  end.
Proof. apply (accepted_protobuf_verified trivial_lib shop_text true true None None true true). Defined.

Lemma plain_protobuf_reprints_witness :
  @reprints (with_protobuf trivial_lib) (mkTyped PROTOBUF shop_text None None).
Proof.
  apply (plain_protobuf_reprints trivial_lib shop_text true true None None false false).
  - vm_compute. reflexivity.
  - assert (E : parse_definition shop_text None true false false =
      Ok (shop_file (mkLocation 4 1) (mkLocation 5 3) (mkLocation 6 3))) by (vm_compute; reflexivity).
    rewrite E. intros file [= <-]. apply shop_file_plain.
  - vm_compute. discriminate.
  - vm_compute. reflexivity.
Defined.
