(* ===== verification/Config.v ===== *)
(** * Configuration

    [core/config.py]: the values that are derived from the settings, their defaults and validation, and the
    TLS contexts of the server and of the Kafka clients. [Settings] has the fields that are read here;
    pydantic reads the others. A TLS context is what is decided of it: the mode of verification, the
    files that are loaded. Whether a file exists is an argument, and loading one may fail. *)

From stdpp Require Import pretty.
From S2P Require Import Prelude Json Typing Framing Rest Controller.
Open Scope Z_scope.

Inductive ServerTLSClientAuth : Type := NONE_ | OPTIONAL_ | REQUIRED_.
Definition client_auth_of (s : string) : option ServerTLSClientAuth :=
  if String.eqb s "none" then Some NONE_
  else if String.eqb s "optional" then Some OPTIONAL_
  else if String.eqb s "required" then Some REQUIRED_
  else None.

Inductive VerifyMode : Type := CERT_NONE | CERT_OPTIONAL | CERT_REQUIRED.

Record Settings : Type := mkSettings {
  advertised_hostname : option string;
  advertised_port : option Z;
  advertised_protocol : string;
  host : string;
  port : Z;
  rest_base_uri : option string;
  karapace_rest : bool;
  producer_max_request_size : Z;
  http_request_max_size : option Z;
  master_election_strategy : string;
  name_strategy : string;
  cfg_rest_authorization : bool;
  cfg_sasl_bootstrap_uri : option string;
  cfg_security_protocol : string;
  ssl_check_hostname : bool;
  ssl_cafile : option string;
  ssl_certfile : option string;
  ssl_keyfile : option string;
  ssl_crlfile : option string;
  ssl_ciphers : option string;
  server_tls_certfile : option string;
  server_tls_keyfile : option string;
  server_tls_cafile : option string;
  server_tls_client_auth : string;
}.

(** [a or b] for texts and ports *)
Definition given (s : option string) : option string := match s with Some EmptyString => None | s => s end.
Definition given_port (p : option Z) : option Z := match p with Some 0 => None | p => p end.

Definition get_advertised_port (c : Settings) : Z := default (port c) (given_port (advertised_port c)).
Definition get_advertised_hostname (c : Settings) : string := default (host c) (given (advertised_hostname c)).

(** [str] of an integer *)
Definition py_str_Z (z : Z) : string := pretty z.
Definition get_address (c : Settings) : string := (host c ++ ":" ++ py_str_Z (port c))%string.
Definition get_rest_base_uri (c : Settings) : string :=
  default (advertised_protocol c ++ "://" ++ get_advertised_hostname c ++ ":" ++ py_str_Z (get_advertised_port c))%string
    (given (rest_base_uri c)).

(** [normalize_producer_acks] *)
Definition normalize_producer_acks (v : json) : json :=
  match v with JStr s => if String.eqb (lower s) "all" then JInt (-1) else v | _ => v end.

Definition DEFAULT_PRODUCER_MAX_REQUEST : Z := 1048576.
Definition DEFAULT_AIOHTTP_CLIENT_MAX_SIZE : Z := 1048576.

Definition get_max_request_size (c : Settings) : Z :=
  if karapace_rest c && (DEFAULT_PRODUCER_MAX_REQUEST <? producer_max_request_size c) && bool_decide (http_request_max_size c = None)
  then producer_max_request_size c + DEFAULT_AIOHTTP_CLIENT_MAX_SIZE
  else default DEFAULT_AIOHTTP_CLIENT_MAX_SIZE (http_request_max_size c).

(** [validate_config] *)
Definition validate_config (c : Settings) : result () :=
  if negb (existsb (String.eqb (lower (master_election_strategy c))) ["highest"; "lowest"]%string) then Raise InvalidConfiguration
  else if negb (existsb (String.eqb (name_strategy c)) ["topic_name"; "record_name"; "topic_record_name"]%string)
  then Raise InvalidConfiguration
  else if cfg_rest_authorization c && bool_decide (cfg_sasl_bootstrap_uri c = None) then Raise InvalidConfiguration
  else Ok ().

(** The fields that [set_config_defaults] sets *)
Definition with_defaults (p : option Z) (uri : option string) (size : option Z) (c : Settings) : Settings :=
  mkSettings (advertised_hostname c) p (advertised_protocol c) (host c) (port c) uri (karapace_rest c)
    (producer_max_request_size c) size (master_election_strategy c) (name_strategy c) (cfg_rest_authorization c)
    (cfg_sasl_bootstrap_uri c) (cfg_security_protocol c) (ssl_check_hostname c) (ssl_cafile c) (ssl_certfile c)
    (ssl_keyfile c) (ssl_crlfile c) (ssl_ciphers c) (server_tls_certfile c) (server_tls_keyfile c) (server_tls_cafile c)
    (server_tls_client_auth c).

(** [f"{x}"] of a text that may be [None] *)
Definition py_str_opt (s : option string) : string := default "None"%string s.

(** [set_config_defaults]; [update] is what the new values set. *)
Definition set_config_defaults (update : Settings -> Settings) (self : Settings) : result Settings :=
  let c := update self in
  let p := default (port c) (advertised_port c) in
  let uri := default (advertised_protocol c ++ "://" ++ py_str_opt (advertised_hostname c) ++ ":" ++ py_str_Z p)%string
               (rest_base_uri c) in
  let size := match http_request_max_size c with
              | Some s => s
              | None => if karapace_rest c && (DEFAULT_PRODUCER_MAX_REQUEST <? producer_max_request_size c)
                        then producer_max_request_size c + DEFAULT_AIOHTTP_CLIENT_MAX_SIZE
                        else DEFAULT_AIOHTTP_CLIENT_MAX_SIZE
              end in
  let c := with_defaults (Some p) (Some uri) (Some size) c in
  _ ← validate_config c;
  Ok c.

(** [parse_env_value] *)
Definition parse_env_value (value : string) : json :=
  match py_int value with
  | Some z => JInt z
  | None =>
      if String.eqb (lower value) "false" then JBool false
      else if String.eqb (lower value) "true" then JBool true
      else JStr value
  end.

(** ** TLS contexts *)

Definition get_client_auth_verify_mode (client_auth_mode : ServerTLSClientAuth) (has_cafile : bool) : result VerifyMode :=
  match client_auth_mode with
  | REQUIRED_ => if has_cafile then Ok CERT_REQUIRED else Raise InvalidConfiguration
  | OPTIONAL_ => Ok CERT_OPTIONAL
  | NONE_ => Ok CERT_NONE
  end.

(** What was decided of an [SSLContext]; all of them refuse SSL 2 and 3 and TLS 1.0 and 1.1. *)
Record SSLContext : Type := mkContext {
  verify_mode : VerifyMode;
  check_hostname : bool;
  verify_locations : list string;
  cert_chain : option (string * string);
  crl_check_leaf : bool;
  ciphers : option string;
}.

Definition is_given (s : option string) : bool := match given s with Some _ => true | None => false end.

Section Contexts.
(** Loading certificates, a chain and ciphers may fail. *)
Context (load_verify_locations : string -> result ()) (load_cert_chain : string -> string -> result ()).
Context (set_ciphers : string -> result ()) (exists_ : string -> bool).

Definition when_given (s : option string) (f : string -> result ()) : result () :=
  match given s with Some s => f s | None => Ok () end.

Definition create_client_ssl_context (c : Settings) : result (option SSLContext) :=
  if existsb (String.eqb (cfg_security_protocol c)) ["PLAINTEXT"; "SASL_PLAINTEXT"]%string then Ok None else
  _ ← when_given (ssl_cafile c) load_verify_locations;
  let chain := match given (ssl_certfile c), given (ssl_keyfile c) with Some cert, Some key => Some (cert, key) | _, _ => None end in
  _ ← match chain with Some (cert, key) => load_cert_chain cert key | None => Ok () end;
  _ ← when_given (ssl_crlfile c) load_verify_locations;
  _ ← when_given (ssl_ciphers c) set_ciphers;
  Ok (Some (mkContext (if is_given (ssl_cafile c) then CERT_REQUIRED else CERT_OPTIONAL) (ssl_check_hostname c)
              (option_list (given (ssl_cafile c)) ++ option_list (given (ssl_crlfile c))) chain
              (is_given (ssl_crlfile c)) (given (ssl_ciphers c)))).

Definition create_server_ssl_context (c : Settings) : result (option SSLContext) :=
  match server_tls_certfile c, server_tls_keyfile c with
  | None, None => Ok None
  | Some tls_certfile, Some tls_keyfile =>
      if negb (exists_ tls_certfile) || negb (exists_ tls_keyfile) then Raise InvalidConfiguration else
      _ ← load_cert_chain tls_certfile tls_keyfile;
      client_auth_mode ← match client_auth_of (server_tls_client_auth c) with Some m => Ok m | None => Raise InvalidConfiguration end;
      _ ← when_given (server_tls_cafile c) load_verify_locations;
      mode ← get_client_auth_verify_mode client_auth_mode (is_given (server_tls_cafile c));
      Ok (Some (mkContext mode false (option_list (given (server_tls_cafile c))) (Some (tls_certfile, tls_keyfile)) false None))
  | _, _ => Raise InvalidConfiguration
  end.

(** ** Lemmas *)

(** The size that the defaults fix is the one that is computed without them. *)
Lemma max_request_size_agrees update self c :
  set_config_defaults update self = Ok c ->
  http_request_max_size c = Some (get_max_request_size (update self)) /\ get_max_request_size c = get_max_request_size (update self).
Proof.
  unfold set_config_defaults. intros (u & _ & [= <-])%bind_Ok.
  assert (match http_request_max_size (update self) with
          | Some s => s
          | None => if karapace_rest (update self) && (DEFAULT_PRODUCER_MAX_REQUEST <? producer_max_request_size (update self))
                    then producer_max_request_size (update self) + DEFAULT_AIOHTTP_CLIENT_MAX_SIZE
                    else DEFAULT_AIOHTTP_CLIENT_MAX_SIZE
          end = get_max_request_size (update self)) as Hs.
  { unfold get_max_request_size. destruct (http_request_max_size (update self)) as [s|]; simpl.
    - by rewrite andb_false_r.
    - by rewrite andb_true_r. }
  cbn [with_defaults http_request_max_size]. rewrite Hs. split; [done|].
  unfold get_max_request_size at 1. simpl. by rewrite andb_false_r.
Qed.

(** Defaults are set once: a second time changes nothing. *)
Lemma config_defaults_idempotent update self c :
  set_config_defaults update self = Ok c -> set_config_defaults (fun c => c) c = Ok c.
Proof.
  unfold set_config_defaults. intros (u & Hv & [= <-])%bind_Ok. simpl.
  revert Hv. unfold validate_config. simpl. by repeat case_match.
Qed.

(** A server verifies its clients only against certificates it loaded, and a required client is verified. *)
Lemma server_context_spec c ctx :
  create_server_ssl_context c = Ok (Some ctx) ->
  (verify_mode ctx = CERT_REQUIRED <-> server_tls_client_auth c = "required"%string) /\
  (verify_mode ctx = CERT_REQUIRED -> verify_locations ctx ≠ []) /\ is_Some (cert_chain ctx).
Proof.
  unfold create_server_ssl_context. destruct (server_tls_certfile c) as [cert|], (server_tls_keyfile c) as [key|]; try done.
  destruct (_ || _); [done|]. intros (u & _ & (m & Hm & (v & _ & (mode & Hmode & [= <-])%bind_Ok)%bind_Ok)%bind_Ok)%bind_Ok. simpl.
  unfold client_auth_of in Hm. unfold is_given in Hmode.
  destruct (String.eqb_spec (server_tls_client_auth c) "none") as [->|]; [simplify_eq/=; split_and!; [done|done|eauto]|].
  destruct (String.eqb_spec (server_tls_client_auth c) "optional") as [->|]; [simplify_eq/=; split_and!; [done|done|eauto]|].
  destruct (String.eqb_spec (server_tls_client_auth c) "required") as [->|]; [|done]. simplify_eq/=.
  destruct (given (server_tls_cafile c)); simplify_eq/=. split_and!; [done|done|eauto].
Qed.
End Contexts.
