(* ===== verification/Anonymize.v ===== *)
(** * Anonymised Avro schemas

    [core/anonymize_schemas/anonymize_avro.py]: the names of a schema are replaced by their digests, its
    documentation is dropped, and the words of the Avro language stay. The SHA-1 digest is that of
    [SchemaLib]. *)

From S2P Require Import Prelude Json Typing Models Schemas Serialization.
Open Scope Z_scope.

Definition KEYWORDS : list string :=
  ["aliases"; "default"; "enum"; "fields"; "items"; "logicalType"; "name"; "namespace"; "precision"; "scale"; "size";
   "symbols"; "type"; "values"]%string.
Definition PRIMITIVE_TYPES : list string :=
  ["null"; "boolean"; "int"; "long"; "float"; "double"; "bytes"; "string"]%string.
Definition LOGICAL_TYPES : list string :=
  ["date"; "decimal"; "duration"; "local-timestamp-micros"; "local-timestamp-millis"; "time-micros"; "time-millis";
   "timestamp-micros"; "timestamp-millis"; "uuid"]%string.
Definition ALL_TYPES : list string :=
  PRIMITIVE_TYPES ++ LOGICAL_TYPES ++ ["array"; "enum"; "fixed"; "map"; "record"]%string.
Definition ORDER_VALID_VALUES : list string := ["ascending"; "descending"; "ignore"]%string.

Definition one_of (l : list string) (s : string) : bool := existsb (String.eqb s) l.

(** [[^.a-zA-Z0-9_]] *)
Definition invalid_character (c : ascii) : bool :=
  let n := N_of_ascii c in
  negb (Ascii.eqb c "." || ((97 <=? n) && (n <=? 122))%N || ((65 <=? n) && (n <=? 90))%N || ((48 <=? n) && (n <=? 57))%N
        || Ascii.eqb c "_").

(** [sorted(set(...))] of characters *)
Fixpoint insert_char (c : ascii) (l : list ascii) : list ascii :=
  match l with
  | [] => [c]
  | d :: l' => if Ascii.eqb c d then l else if (N_of_ascii c <? N_of_ascii d)%N then c :: l else d :: insert_char c l'
  end.
Definition invalid_chars (s : string) : list ascii :=
  fold_right insert_char [] (List.filter invalid_character (String.list_ascii_of_string s)).

Section Anonymize.
Context `{!SchemaLib}.

Definition anonymize_element (s : string) : string :=
  let digest := sha1 s in
  ("a" ++ String.substring 1 (String.length digest) digest ++ String.string_of_list_ascii (invalid_chars s))%string.

(** [re.compile("[^.]+").sub(anonymize_element, name)]; [element] is the one being read. *)
Fixpoint anonymize_from (element : string) (name : string) : string :=
  let done := match element with EmptyString => EmptyString | _ => anonymize_element element end in
  match name with
  | EmptyString => done
  | String c name' =>
      if Ascii.eqb c "." then (done ++ String c (anonymize_from EmptyString name'))%string
      else anonymize_from (element ++ String c EmptyString)%string name'
  end.
Definition anonymize_name (name : string) : string := anonymize_from EmptyString name.

(** Key and value of a member; a [doc] has none. *)
Definition anonymize_member (rec : json -> json) (key : string) (value : json) : option (string * json) :=
  if one_of KEYWORDS key then Some (key, rec value)
  else if String.eqb key "doc" then None
  else if String.eqb key "order" then
    Some (key, match value with JStr s => if one_of ORDER_VALID_VALUES s then value else rec value | _ => rec value end)
  else Some (anonymize_name key, rec value).

Definition anonymize_members (rec : json -> json) : list (string * json) -> dict string json -> dict string json :=
  fix members d output_schema :=
    match d with
    | [] => output_schema
    | (key, value) :: d =>
        members d (match anonymize_member rec key value with
                   | Some (k, v) => dset k v output_schema
                   | None => output_schema
                   end)
    end.

Fixpoint anonymize (input_schema : json) : json :=
  match input_schema with
  | JStr s => if String.eqb s EmptyString || one_of ALL_TYPES s then JStr s else JStr (anonymize_name s)
  | JList l => JList (map anonymize l)
  | JObj d =>
      JObj (anonymize_members anonymize d [])
  | _ => input_schema
  end.

(** ** What is left of a schema *)

(** A word of the language, or the digest of a name *)
Definition public (s : string) : Prop :=
  s = EmptyString \/ s ∈ ALL_TYPES \/ exists name, s = anonymize_name name.
Definition public_key (s : string) : Prop := s ∈ KEYWORDS \/ s = "order"%string \/ exists name, s = anonymize_name name.

Inductive anonymous : json -> Prop :=
  | anonymous_str s : public s -> anonymous (JStr s)
  | anonymous_order s : s ∈ ORDER_VALID_VALUES -> anonymous (JStr s)
  | anonymous_list l : Forall anonymous l -> anonymous (JList l)
  | anonymous_dict d : Forall (fun kv => public_key kv.1 /\ anonymous kv.2) d -> anonymous (JObj d)
  | anonymous_null : anonymous JNull
  | anonymous_bool b : anonymous (JBool b)
  | anonymous_int z : anonymous (JInt z)
  | anonymous_float q : anonymous (JFloat q).

Lemma one_of_In l s : one_of l s = true <-> s ∈ l.
Proof.
  unfold one_of. rewrite existsb_exists. split.
  - intros (x & Hx & E). apply String.eqb_eq in E as ->. by apply list_elem_of_In.
  - intros Hs. exists s. split; [by apply list_elem_of_In|apply String.eqb_refl].
Qed.

Lemma anonymize_member_anonymous key value k v :
  anonymous (anonymize value) -> anonymize_member anonymize key value = Some (k, v) -> public_key k /\ anonymous v.
Proof.
  intros Hv. unfold anonymize_member. destruct (one_of KEYWORDS key) eqn:Ek.
  { intros [= <- <-]. split; [left; by apply one_of_In|done]. }
  destruct (String.eqb_spec key "doc"); [done|]. destruct (String.eqb_spec key "order") as [->|].
  - assert (public_key "order"%string) as Hk by (right; by left).
    destruct value as [| | | |s| |]; try (intros [= <- <-]; by split).
    destruct (one_of ORDER_VALID_VALUES s) eqn:Eo; intros [= <- <-]; [|by split].
    split; [done|]. by apply anonymous_order, one_of_In.
  - intros [= <- <-]. split; [right; right; eauto|done].
Qed.

Lemma dset_Forall (Q : string * json -> Prop) k v (d : dict string json) :
  Forall Q d -> Q (k, v) -> Forall Q (dset k v d).
Proof.
  intros Hd Hq. induction Hd as [|[k' v'] d Hk Hd IH]; simpl; [by constructor|]. case_decide; subst; by constructor.
Qed.
End Anonymize.

(** No name, documentation or other text of the schema is left as it was. *)
Lemma anonymize_anonymous `{!SchemaLib} j : anonymous (anonymize j).
Proof.
  induction j as [|b|z|q|s|l IH|d IH] using json_ind'; try (constructor; fail).
  - cbn [anonymize]. destruct (String.eqb s EmptyString || one_of ALL_TYPES s) eqn:E; apply anonymous_str.
    + apply orb_true_iff in E as [->%String.eqb_eq|E]; [by left|right; left; by apply one_of_In].
    + right. right. eauto.
  - apply anonymous_list, Forall_map. apply List.Forall_forall. intros x Hx. rewrite List.Forall_forall in IH. by apply IH.
  - cbn [anonymize]. assert (Forall (fun kv => public_key kv.1 /\ anonymous kv.2) ([] : dict string json)) as Hacc by constructor.
    apply anonymous_dict. revert Hacc. generalize ([] : dict string json).
    induction d as [|[key value] d IHd]; intros acc Hacc; [exact Hacc|].
    apply List.Forall_cons_iff in IH as [Hv IH]. cbn [anonymize_members]. apply (IHd IH).
    destruct (anonymize_member anonymize key value) as [[k v]|] eqn:E; [|done].
    apply dset_Forall; [done|]. exact (anonymize_member_anonymous key value k v Hv E).
Qed.
