(* ===== verification/AvroModels.v ===== *)
(** * Dataclasses as Avro records

    [core/avro_dataclasses]: the Avro schema of a Python dataclass ([introspect.py], the types of
    [schema.py]), the data written for an instance and the instance built from data read
    ([models.py]). Annotations and values of Python are data here; [dataclasses.asdict],
    [enum.Enum] and [uuid.UUID] of the standard library are modelled as far as the code uses them.
    The Avro library, which turns a schema into an object and writes and reads data with it, is a
    class of operations. The caches of the functions of a type are transparent. *)

From Stdlib Require Import Strings.Byte.
From S2P Require Import Prelude ProtoReader ProtoElements Framing.
Open Scope Z_scope.

(** ** Values *)

(** The values fields hold. A datetime is an instant, in microseconds; an enum member has the name
    of its class and its value; a dataclass instance has its attributes in the order of the fields. *)
Inductive PyValue : Type :=
  | VNone
  | VBool (b : bool)
  | VInt (z : Z)
  | VStr (s : string)
  | VBytes (l : list byte)
  | VDatetime (microseconds : Z)
  | VUuid (int : Z)
  | VTuple (l : list PyValue)
  | VList (l : list PyValue)
  | VDict (d : list (string * PyValue))
  | VEnum (cls : string) (value : PyValue)
  | VRecord (cls : string) (attributes : list (string * PyValue)).

(** [==]: a bool is an int, dicts compare by content. *)
Fixpoint value_eqb (a b : PyValue) {struct a} : bool :=
  let eqs := fix eqs l l' := match l, l' with
    | [], [] => true | x :: l, y :: l' => value_eqb x y && eqs l l' | _, _ => false end in
  let eqd := fun (d' : list (string * PyValue)) => fix eqd d := match d with
    | [] => true
    | (k, x) :: d => match dget k d' with Some y => value_eqb x y | None => false end && eqd d end in
  match a, b with
  | VNone, VNone => true
  | VBool x, VBool y => Bool.eqb x y
  | VInt x, VInt y => x =? y
  | VBool x, VInt y => Z.b2z x =? y
  | VInt x, VBool y => x =? Z.b2z y
  | VStr x, VStr y => String.eqb x y
  | VBytes x, VBytes y => bool_decide (x = y)
  | VDatetime x, VDatetime y => x =? y
  | VUuid x, VUuid y => x =? y
  | VTuple l, VTuple l' => eqs l l'
  | VList l, VList l' => eqs l l'
  | VDict d, VDict d' => (length d =? length d')%nat && eqd d' d
  | VEnum c x, VEnum c' y => String.eqb c c' && value_eqb x y
  | VRecord c d, VRecord c' d' => String.eqb c c' && (length d =? length d')%nat && eqd d' d
  | _, _ => false
  end.

(** [tuple(value)] *)
Definition py_iter (value : PyValue) : result (list PyValue) :=
  match value with
  | VTuple l | VList l => Ok l
  | VDict d => Ok (map (fun kv => VStr kv.1) d)
  | VStr s => Ok (map (fun c => VStr (String c EmptyString)) (String.list_ascii_of_string s))
  | VBytes l => Ok (map (fun b => VInt (byte_val b)) l)
  | _ => Raise TypeError
  end.

(** *** uuid.UUID *)

(** [n] hexadecimal digits of a number *)
Fixpoint hex_text (n : nat) (z : Z) : text :=
  match n with O => [] | S n => hex_text n (z / 16) ++ [hex_char (Z.to_N (z mod 16))] end.
Definition uuid_hex (int : Z) : string := of_text (hex_text 32 int).

Fixpoint lstrip_braces (t : text) : text :=
  match t with
  | c :: t' => if is_char c "{" || is_char c "}" then lstrip_braces t' else t
  | [] => []
  end.
Definition strip_braces (s : string) : string :=
  of_text (rev (lstrip_braces (rev (lstrip_braces (to_text s))))).

(** [int(text, 16)]: blanks around it, a sign, a prefix and single underscores are let through. *)
Definition unsigned16 (t : text) : option Z :=
  match t with
  | c :: x :: _ => if is_char c "0" && (is_char x "x" || is_char x "X") then py_int16 t else hex_digits 0 false t
  | _ => hex_digits 0 false t
  end.
Definition int_of_hex (t : text) : option Z :=
  match strip_text t with
  | "+"%char :: t' => unsigned16 t'
  | "-"%char :: t' => Z.opp <$> unsigned16 t'
  | t' => unsigned16 t'
  end.

Definition uuid_of (value : PyValue) : result PyValue :=
  match value with
  | VStr s =>
      let hex := str_replace "-" "" (strip_braces (str_replace "uuid:" "" (str_replace "urn:" "" s))) in
      if negb (String.length hex =? 32)%nat then Raise ValueError
      else match int_of_hex (to_text hex) with
           | Some n => if (0 <=? n) && (n <? 2 ^ 128) then Ok (VUuid n) else Raise ValueError
           | None => Raise ValueError
           end
  | _ => Raise AttributeError
  end.

(** ** Annotations *)

(** A field of a dataclass: the entry [type] of its metadata, its default, and what its default
    factory returns. *)
Record FieldOf (T : Type) : Type := mkField {
  field_name : string;
  annotation : T;
  metadata_type : option string;
  field_default : option PyValue;
  field_default_factory : option PyValue;
}.
Arguments mkField {T}.
Arguments field_name {T}.
Arguments annotation {T}.
Arguments metadata_type {T}.
Arguments field_default {T}.
Arguments field_default_factory {T}.

(** The annotations the code tells apart; [AEllipsis] stands in the arguments of a tuple only, and
    [ABareSequence] is [tuple], [list] or [Sequence] without arguments. A dataclass has its fields,
    an enum the values of its members. *)
Inductive Annotation : Type :=
  | ABool | AStr | AInt | ABytes | ANone | ADatetime | AUuid
  | AUnion (units : list Annotation)
  | ATuple (args : list Annotation)
  | AList (args : list Annotation)
  | ASequence (args : list Annotation)
  | ABareSequence
  | AEllipsis
  | AEnum (name : string) (values : list PyValue)
  | AMapping (args : list Annotation)
  | ADataclass (name : string) (fields : list (FieldOf Annotation))
  | AOther.

Definition Field : Type := FieldOf Annotation.

Definition is_enum_annotation (t : Annotation) : bool := match t with AEnum _ _ => true | _ => false end.
Definition is_str (t : Annotation) : bool := match t with AStr => true | _ => false end.

(** ** schema.py *)

Inductive AvroType : Type :=
  | Primitive (name : string)
  | TypeObject (type logicalType : string)
  | UnionType (units : list AvroType)
  | ArrayType (name : string) (items : AvroType)
  | EnumType (name : string) (symbols : list PyValue) (dflt : option PyValue)
  | MapType (values : AvroType) (dflt : option PyValue)
  | RecordSchema (name : string) (fields : list (string * AvroType * option PyValue)).

(** ** introspect.py *)

(** [transform_default]: for the default of a field with this annotation. *)
Definition transform_default (type_ : Annotation) (dflt : PyValue) : result PyValue :=
  match dflt with
  | VEnum _ value =>
      if is_enum_annotation type_ then
        match value with VStr _ | VInt _ | VBool _ | VNone => Ok value | _ => Raise AssertionError end
      else Raise AssertionError
  | _ => if is_enum_annotation type_ then Raise AssertionError else Ok dflt
  end.

(** [default.value] *)
Definition member_value (dflt : PyValue) : result PyValue :=
  match dflt with VEnum _ value => Ok value | _ => Raise AttributeError end.

Definition int_type (field : Field) : result AvroType :=
  match metadata_type field with
  | None => Ok (Primitive "int")
  | Some t => if String.eqb t "int" || String.eqb t "long" then Ok (Primitive t) else Raise UnsupportedAnnotation
  end.

(** [field_schema], for the type of the field *)
Definition with_default (field : Field) (ty : AvroType) : result (string * AvroType * option PyValue) :=
  match field_default field with
  | Some d => v ← transform_default (annotation field) d; Ok (field_name field, ty, Some v)
  | None => Ok (field_name field, ty, None)
  end.

(** [_field_type] with [_field_type_array] and [record_schema], which call one another. The inner
    type of a sequence may be a dataclass, a field or a unit of a union may not. *)
Fixpoint field_type (field : Field) (type_ : Annotation) {struct type_} : result AvroType :=
  let array inner :=
    items ← match inner with
            | ADataclass name fs =>
                fields ← map_res (fun fd => ty ← field_type fd (annotation fd); with_default fd ty) fs;
                Ok (RecordSchema name fields)
            | _ => field_type field inner
            end;
    Ok (ArrayType ("one_of_" +:+ field_name field) items) in
  match type_ with
  | ABool => Ok (Primitive "boolean")
  | AStr => Ok (Primitive "string")
  | AInt => int_type field
  | ABytes => Ok (Primitive "bytes")
  | ANone => Ok (Primitive "null")
  | ADatetime => Ok (TypeObject "long" "timestamp-millis")
  | AUuid => Ok (TypeObject "string" "uuid")
  | AUnion units => UnionType <$> map_res (field_type field) units
  | ATuple [inner; AEllipsis] => array inner
  | ATuple _ => Raise UnsupportedAnnotation
  | AList [inner] | ASequence [inner] => array inner
  | AList _ | ASequence _ => Raise ValueError
  | ABareSequence => Raise UnderspecifiedAnnotation
  | AEnum name values =>
      match field_default field with
      | None => Ok (EnumType name values None)
      | Some d => v ← member_value d; Ok (EnumType name values (Some v))
      end
  | AMapping [AStr; v] =>
      values ← field_type field v; Ok (MapType values (field_default_factory field))
  | AMapping [_; _] => Raise UnsupportedAnnotation
  | AMapping _ => Raise UnderspecifiedAnnotation
  | ADataclass _ _ | AEllipsis | AOther => Raise NotImplementedError
  end.

Definition field_schema (field : Field) : result (string * AvroType * option PyValue) :=
  ty ← field_type field (annotation field); with_default field ty.

Definition record_schema (record_type : Annotation) : result AvroType :=
  match record_type with
  | ADataclass name fs => RecordSchema name <$> map_res field_schema fs
  | _ => Raise TypeError
  end.

(** ** models.py *)

Definition as_avro_value (value : PyValue) : PyValue :=
  match value with
  | VEnum _ v => v
  | VUuid int => VStr (uuid_hex int)
  | VTuple l => VList l
  | _ => value
  end.

(** [avro_dict_factory] *)
Definition avro_dict_factory (items : list (string * PyValue)) : PyValue :=
  VDict (map (fun kv => (kv.1, as_avro_value kv.2)) items).

(** [dataclasses.asdict] with that factory: tuples, lists and dicts are rebuilt around their
    elements, a dataclass goes through the factory, anything else is copied. *)
Fixpoint asdict (value : PyValue) : PyValue :=
  match value with
  | VTuple l => VTuple (map asdict l)
  | VList l => VList (map asdict l)
  | VDict d => VDict (map (fun kv => (kv.1, asdict kv.2)) d)
  | VRecord _ attributes => avro_dict_factory (map (fun kv => (kv.1, asdict kv.2)) attributes)
  | _ => value
  end.

Definition as_avro_dict (instance : PyValue) : PyValue := asdict instance.

Definition AvroParser : Type := PyValue -> result PyValue.

Definition from_avro_array (transformation : AvroParser) (values : PyValue) : result PyValue :=
  l ← py_iter values; VTuple <$> map_res transformation l.

Definition optional_parser (parser : option AvroParser) : option AvroParser :=
  match parser with
  | None => None
  | Some parse => Some (fun value => match value with VNone => Ok VNone | _ => parse value end)
  end.

(** [type_(value)] for an enum *)
Definition enum_of (name : string) (values : list PyValue) (value : PyValue) : result PyValue :=
  match List.find (value_eqb value) values with Some v => Ok (VEnum name v) | None => Raise ValueError end.

(** The constructor with keyword arguments: every keyword names a field, a field without keyword takes its default. *)
Definition construct (name : string) (fs : list Field) (kwargs : dict string PyValue) : result PyValue :=
  if forallb (fun k => existsb (fun f => String.eqb (field_name f) k) fs) (dkeys kwargs) then
    VRecord name <$> map_res (fun f =>
      match dget (field_name f) kwargs, field_default f, field_default_factory f with
      | Some v, _, _ | None, Some v, _ | None, None, Some v => Ok (field_name f, v)
      | None, None, None => Raise TypeError
      end) fs
  else Raise TypeError.

(** The values of the keywords of the constructor *)
Definition transform_items (cls_transformations : dict string (option AvroParser)) (items : dict string PyValue)
  : result (dict string PyValue) :=
  map_res (fun kv =>
    v ← match dget kv.1 cls_transformations with Some (Some transformation) => transformation kv.2 | _ => Ok kv.2 end;
    Ok (kv.1, v)) items.

(** [from_avro_value], with [parser_transformations] and [from_avro_dict], which it hands out for a
    dataclass *)
Fixpoint from_avro_value (type_ : Annotation) : result (option AvroParser) :=
  match type_ with
  | ADataclass name fs => Ok (Some (fun data =>
      match data with
      | VDict items =>
          cls_transformations ← map_res (fun f => p ← from_avro_value (annotation f); Ok (field_name f, p)) fs;
          kwargs ← transform_items cls_transformations items;
          construct name fs kwargs
      | _ => Raise TypeError
      end))
  | AEnum name values => Ok (Some (enum_of name values))
  | AUuid => Ok (Some uuid_of)
  | ATuple [inner; AEllipsis] =>
      inner_transformation ← from_avro_value inner;
      Ok (Some match inner_transformation with
               | None => fun v => VTuple <$> py_iter v
               | Some parse => from_avro_array parse
               end)
  | ATuple [_; _] => Raise AssertionError
  | ATuple _ => Raise ValueError
  | AUnion [ANone; b] => p ← from_avro_value b; Ok (optional_parser p)
  | AUnion [a; ANone] => p ← from_avro_value a; Ok (optional_parser p)
  | AUnion _ => Raise NotImplementedError
  | _ => Ok None
  end.

Definition parser_transformations (fs : list Field) : result (dict string (option AvroParser)) :=
  map_res (fun f => p ← from_avro_value (annotation f); Ok (field_name f, p)) fs.

Definition from_avro_dict (cls : Annotation) (data : PyValue) : result PyValue :=
  match cls, data with
  | ADataclass name fs, VDict items =>
      cls_transformations ← parser_transformations fs;
      kwargs ← transform_items cls_transformations items;
      construct name fs kwargs
  | _, _ => Raise TypeError
  end.

(** ** AvroModel *)

(** What the Avro library offers: [make_avsc_object], [DatumWriter.write] and [DatumReader.read]
    with a binary encoder and decoder. *)
Class AvroLib (schema bytes : Type) : Type := {
  make_avsc_object : AvroType -> result schema;
  datum_write : schema -> PyValue -> result bytes;
  datum_read : schema -> bytes -> result PyValue;
}.

Section AvroModel.
Context {schema bytes : Type} `{!AvroLib schema bytes}.

Definition record_avsc_object (record_type : Annotation) : result schema :=
  s ← record_schema record_type; make_avsc_object s.

(** [AvroModel.serialize], [cls] being the type of [self] *)
Definition serialize (cls : Annotation) (self : PyValue) : result bytes :=
  writer ← record_avsc_object cls; datum_write writer (as_avro_dict self).

(** [AvroModel.parse] *)
Definition parse (cls : Annotation) (buffer : bytes) : result PyValue :=
  reader ← record_avsc_object cls;
  decoded ← datum_read reader buffer;
  from_avro_dict cls decoded.
End AvroModel.
