(* ===== verification/AvroModelsSpec.v ===== *)
(** * Dataclasses as Avro records: what is written reads back

    The data [as_avro_dict] makes of an instance conforms to the schema [record_schema] makes of its
    class, and [from_avro_dict] makes the instance of it again, for the annotations that the code
    supports on both ways ([supported]); with an Avro library that reads back what conforms, an
    instance survives [serialize] and [parse]. *)

From S2P Require Import Prelude Typing ProtoReader ProtoElements AvroModels.
Open Scope Z_scope.

(** ** Induction on annotations *)

Section Annotation_ind'.
Variable P : Annotation -> Prop.
Hypothesis Hleaf : forall t, match t with
  | AUnion _ | ATuple _ | AList _ | ASequence _ | AMapping _ | ADataclass _ _ => True | _ => P t end.
Hypothesis Hunion : forall l, Forall P l -> P (AUnion l).
Hypothesis Htuple : forall l, Forall P l -> P (ATuple l).
Hypothesis Hlist : forall l, Forall P l -> P (AList l).
Hypothesis Hsequence : forall l, Forall P l -> P (ASequence l).
Hypothesis Hmapping : forall l, Forall P l -> P (AMapping l).
Hypothesis Hdataclass : forall n fs, Forall (fun f => P (annotation f)) fs -> P (ADataclass n fs).

Fixpoint Annotation_ind' (t : Annotation) : P t :=
  let all := fix all l : Forall P l := match l with
    | [] => List.Forall_nil _ | x :: l' => List.Forall_cons _ _ _ (Annotation_ind' x) (all l') end in
  match t with
  | AUnion l => Hunion l (all l)
  | ATuple l => Htuple l (all l)
  | AList l => Hlist l (all l)
  | ASequence l => Hsequence l (all l)
  | AMapping l => Hmapping l (all l)
  | ADataclass n fs => Hdataclass n fs ((fix go fs : Forall (fun f => P (annotation f)) fs :=
      match fs with
      | [] => List.Forall_nil _
      | mkField fn a mt fd df :: fs' => List.Forall_cons _ (mkField fn a mt fd df) _ (Annotation_ind' a) (go fs')
      end) fs)
  | t => Hleaf t
  end.
End Annotation_ind'.

(** ** Instances of an annotation *)

Definition in_width (w z : Z) : bool := (- 2 ^ (w - 1) <=? z) && (z <? 2 ^ (w - 1)).
Definition is_long (f : Field) : bool := bool_decide (metadata_type f = Some "long"%string).
Definition no_duplicates (l : list string) : bool := bool_decide (NoDup l).

(** The values of a field that Avro can represent: an [int] in 32 bits, or in 64 for a field of
    type [long]; an instant in whole milliseconds. *)
Fixpoint has_annotation (long : bool) (t : Annotation) (v : PyValue) {struct t} : bool :=
  match t, v with
  | ABool, VBool _ | AStr, VStr _ | ABytes, VBytes _ | ANone, VNone => true
  | AInt, VInt z => in_width (if long then 64 else 32) z
  | ADatetime, VDatetime us => us mod 1000 =? 0
  | AUuid, VUuid n => (0 <=? n) && (n <? 2 ^ 128)
  | AUnion units, v => existsb (fun t => has_annotation long t v) units
  | ATuple [t; AEllipsis], VTuple l => forallb (has_annotation long t) l
  | AList [t], VList l => forallb (has_annotation long t) l
  | AMapping [AStr; t], VDict d => no_duplicates (dkeys d) && forallb (fun kv => has_annotation long t kv.2) d
  | AEnum name values, VEnum c v => String.eqb c name && existsb (value_eqb v) values
  | ADataclass name fs, VRecord c attributes =>
      String.eqb c name &&
      (fix go fs attributes := match fs, attributes with
        | [], [] => true
        | f :: fs, kv :: attributes =>
            String.eqb kv.1 (field_name f) && has_annotation (is_long f) (annotation f) kv.2 && go fs attributes
        | _, _ => false
        end) fs attributes
  | _, _ => false
  end.

(** ** Supported annotations *)

(** Annotations whose values are written and read as they are *)
Fixpoint plain (t : Annotation) : bool :=
  match t with
  | ABool | AStr | AInt | ABytes | ANone | ADatetime => true
  | AList [a] => plain a
  | AMapping [AStr; a] => plain a
  | AUnion [ANone; a] | AUnion [a; ANone] => match a with AUnion _ | ANone => false | _ => plain a end
  | _ => false
  end.

Definition is_text (v : PyValue) : bool := match v with VStr _ => true | _ => false end.

(** Annotations of the fields of a dataclass that reads back: the elements of a tuple are plain or
    dataclasses, since only the value of a field itself is transformed. *)
Fixpoint supported (t : Annotation) : bool :=
  match t with
  | AEnum _ values => forallb is_text values
  | AUuid => true
  | ATuple [a; AEllipsis] => match a with ADataclass _ _ => supported a | _ => plain a end
  | AUnion [ANone; a] | AUnion [a; ANone] => match a with AUnion _ | ANone => false | _ => supported a end
  | ADataclass _ fs => no_duplicates (map field_name fs) && forallb (fun f => supported (annotation f)) fs
  | _ => plain t
  end.

(** ** Data that conforms to a schema

    The Avro specification: the data of a record has its fields, that of an enum is one of its
    symbols, an [int] has 32 bits and a [long] 64, a union has one of its branches, and a text is a [uuid]
    when [uuid.UUID] reads it, which is how the Avro library checks it. *)
Definition is_uuid_text (v : PyValue) : bool := match uuid_of v with Ok _ => true | Raise _ => false end.

Fixpoint conforms (s : AvroType) (d : PyValue) {struct s} : bool :=
  match s, d with
  | Primitive p, d =>
      match d with
      | VNone => String.eqb p "null"
      | VBool _ => String.eqb p "boolean"
      | VStr _ => String.eqb p "string"
      | VBytes _ => String.eqb p "bytes"
      | VInt z => String.eqb p "int" && in_width 32 z || String.eqb p "long" && in_width 64 z
      | _ => false
      end
  | TypeObject ty logical, d =>
      match d with
      | VDatetime us => String.eqb ty "long" && String.eqb logical "timestamp-millis" && (us mod 1000 =? 0)
      | VStr _ => String.eqb ty "string" && String.eqb logical "uuid" && is_uuid_text d
      | _ => false
      end
  | UnionType units, d => existsb (fun s => conforms s d) units
  | ArrayType _ items, VList l => forallb (conforms items) l
  | EnumType _ symbols _, VStr x => existsb (value_eqb (VStr x)) symbols
  | MapType values _, VDict d => no_duplicates (dkeys d) && forallb (fun kv => conforms values kv.2) d
  | RecordSchema _ fields, VDict d =>
      (fix go fields (d : list (string * PyValue)) := match fields, d with
        | [], [] => true
        | (n, s, _) :: fields, kv :: d => String.eqb kv.1 n && conforms s kv.2 && go fields d
        | _, _ => false
        end) fields d
  | _, _ => false
  end.

(** What the code relies on: the library writes what conforms to the schema it has accepted, and
    reads the same data back. *)
Class AvroLibLaws (schema bytes : Type) `{!AvroLib schema bytes} : Prop := {
  datum_roundtrip : forall s o d, make_avsc_object s = Ok o -> conforms s d = true ->
    exists b, datum_write o d = Ok b /\ datum_read o b = Ok d;
}.

(** ** Plain annotations *)

Lemma forallb_Forall_eq {A} (f : A -> bool) l : forallb f l = true <-> Forall (fun x => f x = true) l.
Proof. rewrite List.forallb_forall, List.Forall_forall. done. Qed.

Lemma map_fixed {A} (f : A -> A) l : Forall (fun x => f x = x) l -> map f l = l.
Proof. induction 1; simpl; congruence. Qed.

(** The shapes of the annotations with arguments that are plain or supported *)
Definition nullable (ok : Annotation -> bool) (units : list Annotation) : Prop :=
  exists a, (units = [ANone; a] \/ units = [a; ANone]) /\ ok a = true /\ a ≠ ANone /\ (forall l, a ≠ AUnion l).

(** Goes through the annotations of two arguments. *)
Ltac two_units a b Hp :=
  destruct a, b; simpl in Hp; try done;
  match goal with
  | |- nullable _ [ANone; ?x] => exists x; split; [by left|done]
  | |- nullable _ [?x; ANone] => exists x; split; [by right|done]
  end.

Lemma plain_union units : plain (AUnion units) = true -> nullable plain units.
Proof.
  destruct units as [|a [|b [|c units]]]; intros Hp; [done|by destruct a| |by destruct a, b].
  two_units a b Hp.
Qed.

Lemma supported_union units : supported (AUnion units) = true -> nullable supported units.
Proof.
  destruct units as [|a [|b [|c units]]]; intros Hp; [done|by destruct a| |by destruct a, b].
  two_units a b Hp.
Qed.

Lemma plain_list args : plain (AList args) = true -> exists a, args = [a] /\ plain a = true.
Proof. destruct args as [|a [|]]; naive_solver. Qed.

Lemma plain_mapping args : plain (AMapping args) = true -> exists a, args = [AStr; a] /\ plain a = true.
Proof. destruct args as [|a [|b [|]]]; intros Hp; [done|by destruct a| |by destruct a]. destruct a; naive_solver. Qed.

(** The elements of a tuple *)
Definition element (a : Annotation) : bool := match a with ADataclass _ _ => supported a | _ => plain a end.

Lemma supported_tuple args : supported (ATuple args) = true -> exists a, args = [a; AEllipsis] /\ element a = true.
Proof.
  destruct args as [|a [|b [|]]]; intros Hp; [done..| |by destruct b].
  destruct b; try done. by exists a.
Qed.

(** Induction with the cases of the annotations with arguments *)
Ltac annotation_induction t :=
  pattern t; apply Annotation_ind'; clear t;
  [intros []; try done|intros units IH|intros args IH|intros args IH|intros args IH|intros args IH
  |intros n fs IH].

Lemma nullable_member a u units : units = [ANone; a] \/ units = [a; ANone] -> u ∈ units -> u = ANone \/ u = a.
Proof. intros [-> | ->]; set_solver. Qed.

Lemma nullable_Forall ok (P : Annotation -> Prop) units : nullable ok units -> Forall P units ->
  exists a, (units = [ANone; a] \/ units = [a; ANone]) /\ ok a = true /\ a ≠ ANone /\ P a.
Proof. intros (a & Hu & Ha & Hn & _) HP. exists a. split_and!; try done. destruct Hu; subst; by inv HP; inv H2. Qed.

Lemma instance_nullable long units a v : units = [ANone; a] \/ units = [a; ANone] ->
  has_annotation long (AUnion units) v = true -> v = VNone \/ has_annotation long a v = true.
Proof.
  assert (Hn : has_annotation long ANone v = true -> v = VNone) by by destruct v.
  intros [-> | ->]; cbn [has_annotation existsb]; rewrite !orb_true_iff; naive_solver.
Qed.

(** A plain value is its own data. *)
Lemma plain_asdict t long v : plain t = true -> has_annotation long t v = true -> asdict v = v /\ as_avro_value v = v.
Proof.
  revert v. annotation_induction t; intros v Hp Hi; try done; try by destruct v.
  - eapply nullable_Forall in IH as (a & Hu & Ha & _ & IH); [|by apply plain_union].
    destruct (instance_nullable long units a v Hu Hi) as [->|Hi']; auto.
  - apply plain_list in Hp as (a & -> & Ha). inv IH. destruct v; try done. split; [|done].
    simpl in *. f_equal. apply map_fixed. apply forallb_Forall_eq in Hi. eapply Forall_impl; [exact Hi|]. naive_solver.
  - apply plain_mapping in Hp as (a & -> & Ha). inv IH. inv H2. destruct v; try done. split; [|done].
    simpl in *. apply andb_true_iff in Hi as [_ Hi]. f_equal. apply map_fixed. apply forallb_Forall_eq in Hi.
    eapply Forall_impl; [exact Hi|]. intros [k x] Hx. simpl in *. f_equal. by apply H3.
Qed.

Lemma from_avro_union p units a : units = [ANone; a] \/ units = [a; ANone] -> from_avro_value a = Ok p ->
  from_avro_value (AUnion units) = Ok (optional_parser p).
Proof.
  intros [-> | ->] Hp; transitivity (p ← from_avro_value a; Ok (optional_parser p));
    [destruct a; reflexivity|by rewrite Hp|destruct a; reflexivity|by rewrite Hp].
Qed.

(** Nothing transforms the data of a plain annotation. *)
Lemma plain_parser t : plain t = true -> from_avro_value t = Ok None.
Proof.
  annotation_induction t; intros Hp; try done.
  eapply nullable_Forall in IH as (a & Hu & Ha & _ & IH); [|by apply plain_union].
  by rewrite (from_avro_union None units a Hu (IH Ha)).
Qed.

(** ** The data of an instance reads back *)

(** The parser of an annotation makes [v] of the data [d]. *)
Definition parses (p : option AvroParser) (d v : PyValue) : Prop :=
  match p with None => d = v | Some f => f d = Ok v end.

(** Every instance of [t] is read back from the data of a field with that annotation. *)
Definition reads_back (t : Annotation) : Prop := exists p, from_avro_value t = Ok p /\
  forall long v, has_annotation long t v = true -> parses p (as_avro_value (asdict v)) v.

Lemma plain_reads_back t : plain t = true -> reads_back t.
Proof.
  intros Hp. exists None. split; [by apply plain_parser|]. intros long v Hi.
  destruct (plain_asdict t long v Hp Hi) as [-> ->]. done.
Qed.

Lemma find_enum values v : existsb (value_eqb v) values = true -> is_text v = true ->
  forallb is_text values = true -> List.find (value_eqb v) values = Some v.
Proof.
  intros He Hv Hvs. destruct v as [| | |s| | | | | | | |]; try done.
  induction values as [|x values IH]; simpl in *; [done|].
  apply andb_true_iff in Hvs as [Hx Hvs]. destruct x; try done. simpl in *.
  destruct (String.eqb s s0) eqn:E; [apply String.eqb_eq in E; by subst|auto].
Qed.

Lemma enum_member_text values v : existsb (value_eqb v) values = true -> forallb is_text values = true -> is_text v = true.
Proof.
  rewrite List.existsb_exists, List.forallb_forall. intros (x & Hx & He) Hvs. apply Hvs in Hx.
  destruct x; try done. by destruct v.
Qed.

(** *** uuid.UUID reads the digits of [hex] *)

Lemma hex_char_digit n : (n < 16)%N ->
  hex_digit (hex_char n) = Some (Z.of_N n) /\ is_char (hex_char n) "_" = false.
Proof.
  intros Hn. assert (Hall : forallb (fun n => bool_decide (hex_digit (hex_char n) = Some (Z.of_N n))
    && negb (is_char (hex_char n) "_")) (map N.of_nat (seq 0 16)) = true) by reflexivity.
  rewrite List.forallb_forall in Hall. specialize (Hall n).
  rewrite andb_true_iff, bool_decide_eq_true, negb_true_iff in Hall. apply Hall.
  apply List.in_map_iff. exists (N.to_nat n). split; [lia|]. apply List.in_seq. lia.
Qed.

Lemma hex_digits_app t acc prev c z : hex_digits acc prev t = Some z -> (c < 16)%N ->
  hex_digits acc prev (t ++ [hex_char c]) = Some (z * 16 + Z.of_N c).
Proof.
  intros Ht Hc. destruct (hex_char_digit c Hc) as [Hd _].
  revert acc prev Ht; induction t as [|x t IH]; intros acc prev Ht; simpl in *.
  - rewrite Hd. by destruct prev; simplify_eq.
  - destruct (hex_digit x); [auto|]. by destruct (_ && _); auto.
Qed.

Lemma hex_text_digits n z : (0 < n)%nat -> 0 <= z < 16 ^ Z.of_nat n -> hex_digits 0 false (hex_text n z) = Some z.
Proof.
  revert z; induction n as [|n IH]; intros z Hn Hz; [lia|].
  assert (Hm : 0 <= z mod 16 < 16) by (apply Z.mod_pos_bound; lia).
  assert (Hc : (Z.to_N (z mod 16) < 16)%N) by lia.
  simpl. destruct n as [|n].
  - simpl. destruct (hex_char_digit _ Hc) as [-> _]. f_equal.
    change (16 ^ Z.of_nat 1) with 16 in Hz. rewrite Z.mod_small in * by lia. lia.
  - rewrite (hex_digits_app _ _ _ _ (z / 16)); [|apply IH; [lia|]|done].
    + f_equal. rewrite Z2N.id by lia. pose proof (Z.div_mod z 16). lia.
    + rewrite Nat2Z.inj_succ, Z.pow_succ_r in Hz by lia. split; [apply Z.div_pos; lia|].
      apply Z.div_lt_upper_bound; lia.
Qed.

Lemma hex_text_length n z : length (hex_text n z) = n.
Proof. revert z; induction n as [|n IH]; intros z; simpl; [done|]. rewrite length_app, IH. simpl. lia. Qed.

(** Digits are none of the characters [uuid.UUID] leaves out or takes for something else. *)
Definition is_hex (c : ascii) : bool := in_range "0" "9" c || in_range "a" "f" c.

Lemma hex_char_is_hex n : (n < 16)%N -> is_hex (hex_char n) = true.
Proof.
  intros Hn. assert (Hall : forallb (fun n => is_hex (hex_char n)) (map N.of_nat (seq 0 16)) = true) by reflexivity.
  rewrite List.forallb_forall in Hall. apply Hall.
  apply List.in_map_iff. exists (N.to_nat n). split; [lia|]. apply List.in_seq. lia.
Qed.

Lemma hex_text_is_hex n z : Forall (fun c => is_hex c = true) (hex_text n z).
Proof.
  revert z; induction n as [|n IH]; intros z; simpl; [done|].
  apply Forall_app. split; [done|]. constructor; [|done]. apply hex_char_is_hex.
  assert (0 <= z mod 16 < 16) by (apply Z.mod_pos_bound; lia). lia.
Qed.

Lemma substring_Forall (P : ascii -> Prop) s i n : Forall P (String.list_ascii_of_string s) ->
  Forall P (String.list_ascii_of_string (String.substring i n s)).
Proof.
  revert i n; induction s as [|c s IH]; intros i n Hs; [by destruct i, n|].
  inv Hs. destruct i, n; simpl; auto.
Qed.

Lemma str_replace_absent old new s : Forall (fun c => is_hex c = true) (String.list_ascii_of_string s) ->
  existsb (fun c => negb (is_hex c)) (String.list_ascii_of_string old) = true -> str_replace old new s = s.
Proof.
  intros Hs Ho. unfold str_replace. destruct (String.length s) as [|n]; simpl; [done|].
  destruct (String.index 0 old s) as [i|] eqn:E; [|done]. exfalso.
  apply String.index_correct1 in E.
  assert (Hold : Forall (fun c => is_hex c = true) (String.list_ascii_of_string old))
    by (rewrite <- E; by apply substring_Forall).
  apply List.existsb_exists in Ho as (c0 & Hin & Hc). rewrite List.Forall_forall in Hold.
  apply Hold in Hin. by rewrite Hin in Hc.
Qed.

(** A property of every digit that is checked by evaluation *)
Lemma hex_class (f : ascii -> bool) c : is_hex c = true ->
  forallb (fun n => implb (is_hex (ascii_of_nat n)) (f (ascii_of_nat n))) (seq 0 256) = true -> f c = true.
Proof.
  intros Hc Hall. rewrite List.forallb_forall in Hall. specialize (Hall (nat_of_ascii c)).
  rewrite ascii_nat_embedding, Hc in Hall. apply Hall, List.in_seq. pose proof (nat_ascii_bounded c). lia.
Qed.

Lemma lstrip_braces_hex t : Forall (fun c => is_hex c = true) t -> lstrip_braces t = t.
Proof.
  destruct 1 as [|c t Hc _]; simpl; [done|].
  pose proof (hex_class (fun c => negb (is_char c "{" || is_char c "}")) c Hc eq_refl) as E.
  apply negb_true_iff in E. by rewrite E.
Qed.

Lemma lstrip_text_hex t : Forall (fun c => is_hex c = true) t -> lstrip_text t = t.
Proof.
  destruct 1 as [|c t Hc _]; simpl; [done|].
  pose proof (hex_class (fun c => negb (is_space c)) c Hc eq_refl) as E.
  apply negb_true_iff in E. by rewrite E.
Qed.

Lemma int_of_hex_digits t : Forall (fun c => is_hex c = true) t -> int_of_hex t = hex_digits 0 false t.
Proof.
  intros Ht. unfold int_of_hex, strip_text.
  rewrite lstrip_text_hex, lstrip_text_hex, rev_involutive by (try apply Forall_rev; by try rewrite lstrip_text_hex).
  assert (Hu : unsigned16 t = hex_digits 0 false t).
  { destruct Ht as [|c t Hc Ht]; [done|]. destruct Ht as [|x t Hx Ht]; [done|]. unfold unsigned16.
    pose proof (hex_class (fun c => negb (is_char c "x" || is_char c "X")) x Hx eq_refl) as E.
    apply negb_true_iff in E. by rewrite E, andb_false_r. }
  rewrite <- Hu. destruct Ht as [|c t Hc Ht]; [done|].
  pose proof (hex_class (fun c => negb (is_char c "+" || is_char c "-")) c Hc eq_refl) as E.
  clear -E. destruct c as [[] [] [] [] [] [] [] []]; done.
Qed.

Lemma uuid_of_hex n : 0 <= n < 2 ^ 128 -> uuid_of (VStr (uuid_hex n)) = Ok (VUuid n).
Proof.
  intros Hn. pose proof (hex_text_is_hex 32 n) as Hh. unfold uuid_of, uuid_hex, of_text.
  assert (Hd : hex_digits 0 false (hex_text 32 n) = Some n) by (apply hex_text_digits; [lia|done]).
  pose proof (hex_text_length 32 n) as Hlen. set (t := hex_text 32 n) in *. clearbody t.
  assert (Ht : String.list_ascii_of_string (String.string_of_list_ascii t) = t)
    by apply String.list_ascii_of_string_of_list_ascii.
  rewrite (str_replace_absent "urn:"), (str_replace_absent "uuid:") by (by rewrite ?Ht).
  assert (Hs : strip_braces (String.string_of_list_ascii t) = String.string_of_list_ascii t).
  { unfold strip_braces, to_text, of_text. rewrite Ht.
    rewrite (lstrip_braces_hex t), lstrip_braces_hex by (try apply Forall_rev; done).
    by rewrite rev_involutive. }
  rewrite Hs, (str_replace_absent "-") by (by rewrite ?Ht).
  assert (Hl : String.length (String.string_of_list_ascii t) = 32%nat).
  { rewrite <- Hlen. clear. induction t; simpl; congruence. }
  rewrite Hl. change (negb (32 =? 32)%nat) with false. cbv iota. unfold to_text.
  rewrite Ht, int_of_hex_digits, Hd by done.
  replace ((0 <=? n) && (n <? 2 ^ 128)) with true; [done|]. symmetry. lia.
Qed.

(** *** Dataclasses *)

Lemma map_res_of_Forall2 {A B} (f : A -> result B) l ys : Forall2 (fun x y => f x = Ok y) l ys -> map_res f l = Ok ys.
Proof. induction 1 as [|x y l ys Hx _ IH]; simpl; [done|]. by rewrite Hx; simpl; rewrite IH. Qed.

Lemma map_res_exists {A B} (f : A -> result B) l : Forall (fun x => exists y, f x = Ok y) l -> exists ys, map_res f l = Ok ys.
Proof. induction 1 as [|x l [y Hy] _ [ys IH]]; simpl; [by eexists|]. rewrite Hy; simpl; rewrite IH. by eexists. Qed.

Definition attribute_of (f : Field) (kv : string * PyValue) : Prop :=
  kv.1 = field_name f /\ has_annotation (is_long f) (annotation f) kv.2 = true.

Lemma instance_attributes long n fs v : has_annotation long (ADataclass n fs) v = true ->
  exists attributes, v = VRecord n attributes /\ Forall2 attribute_of fs attributes.
Proof.
  destruct v as [| | | | | | | | | | |c attributes]; try done. cbn [has_annotation].
  rewrite andb_true_iff, String.eqb_eq. intros [-> Hgo]. exists attributes. split; [done|].
  revert attributes Hgo; induction fs as [|f fs IH]; intros [|kv attributes] Hgo; try done.
  rewrite !andb_true_iff, String.eqb_eq in Hgo. destruct Hgo as [[Hk Hi] Hgo].
  constructor; [done|by apply IH].
Qed.

Lemma attribute_names fs attributes : Forall2 attribute_of fs attributes -> dkeys attributes = map field_name fs.
Proof. unfold dkeys. induction 1 as [|f kv fs attributes [Hk _] _ IH]; simpl; [done|]. by rewrite Hk, IH. Qed.

(** [Forall2_impl] with membership *)
Lemma Forall2_impl_in {A B} (P Q : A -> B -> Prop) l k :
  Forall2 P l k -> (forall x y, x ∈ l -> y ∈ k -> P x y -> Q x y) -> Forall2 Q l k.
Proof.
  induction 1 as [|x y l k Hxy _ IH]; intros H; constructor.
  - apply H; [constructor..|done].
  - apply IH. intros x' y' Hx Hy. apply H; by constructor.
Qed.

Lemma construct_attributes n fs attributes : NoDup (map field_name fs) -> Forall2 attribute_of fs attributes ->
  construct n fs attributes = Ok (VRecord n attributes).
Proof.
  intros Hnd Ha. assert (Hk := attribute_names _ _ Ha). unfold construct.
  replace (forallb _ _) with true.
  - rewrite (map_res_of_Forall2 _ fs attributes); [done|].
    eapply Forall2_impl_in; [exact Ha|]. intros f [k v] _ Hin [Hf _]. simpl in Hf. subst k.
    by rewrite (In_dget _ v) by (unfold dwf; by rewrite ?Hk).
  - symmetry. apply List.forallb_forall. intros k Hin. rewrite Hk in Hin.
    apply List.in_map_iff in Hin as (f & <- & Hf). apply List.existsb_exists. exists f. split; [done|]. apply String.eqb_refl.
Qed.

(** The parsers of the fields, by name *)
Lemma transformations_of fs : Forall (fun f => exists p, from_avro_value (annotation f) = Ok p) fs ->
  NoDup (map field_name fs) -> exists trans, parser_transformations fs = Ok trans /\
    forall f, f ∈ fs -> exists p, dget (field_name f) trans = Some p /\ from_avro_value (annotation f) = Ok p.
Proof.
  intros Hps Hnd. unfold parser_transformations.
  destruct (map_res_exists (fun f => p ← from_avro_value (annotation f); Ok (field_name f, p)) fs) as [trans Ht].
  { eapply Forall_impl; [exact Hps|]. intros f [p Hp]. exists (field_name f, p). by rewrite Hp. }
  exists trans. split; [done|]. apply map_res_Forall2 in Ht.
  assert (Hk : dkeys trans = map field_name fs).
  { clear Hnd Hps. unfold dkeys. induction Ht as [|f tp fs trans Hf _ IH]; simpl; [done|].
    apply bind_Ok in Hf as (p & _ & [= <-]). by rewrite IH. }
  intros f Hf. apply list_elem_of_lookup in Hf as [i Hi].
  destruct (Forall2_lookup_l _ _ _ _ _ Ht Hi) as ([k p] & Hip & Hp).
  apply bind_Ok in Hp as (p' & Hp & [= <- <-]). exists p'. split; [|done].
  apply In_dget; [unfold dwf; by rewrite Hk|]. by eapply list_elem_of_lookup_2.
Qed.

Lemma transform_items_back fs attributes trans : Forall2 attribute_of fs attributes ->
  Forall (fun f => reads_back (annotation f)) fs ->
  (forall f, f ∈ fs -> exists p, dget (field_name f) trans = Some p /\ from_avro_value (annotation f) = Ok p) ->
  transform_items trans (map (fun kv => (kv.1, as_avro_value (asdict kv.2))) attributes) = Ok attributes.
Proof.
  intros Ha Hr Ht. unfold transform_items. apply map_res_of_Forall2, Forall2_fmap_l, Forall_Forall2_diag.
  apply Forall_forall. intros [k v] Hin. apply list_elem_of_lookup in Hin as [i Hi].
  destruct (Forall2_lookup_r _ _ _ _ _ Ha Hi) as (f & Hf & Hk & Hinst). simpl in Hk, Hinst. subst k.
  apply list_elem_of_lookup_2 in Hf. simpl. destruct (Ht f Hf) as (p & -> & Hp).
  rewrite Forall_forall in Hr. destruct (Hr f Hf) as (p' & Hp' & Hback). rewrite Hp in Hp'. injection Hp' as <-.
  apply Hback in Hinst as Hv.
  by destruct p as [parse|]; simpl in *; rewrite Hv.
Qed.

Lemma reads_back_dataclass n fs : NoDup (map field_name fs) -> Forall (fun f => reads_back (annotation f)) fs ->
  reads_back (ADataclass n fs).
Proof.
  intros Hnd Hr. destruct (transformations_of fs) as (trans & Ht & Hget); [|done|].
  { eapply Forall_impl; [exact Hr|]. intros f (p & Hp & _). by exists p. }
  exists (Some (from_avro_dict (ADataclass n fs))). split; [reflexivity|].
  intros long v Hi. apply instance_attributes in Hi as (attributes & -> & Ha).
  cbn [asdict avro_dict_factory as_avro_value parses from_avro_dict]. rewrite map_map, Ht. cbn [mbind result_bind fst snd].
  rewrite (transform_items_back fs attributes trans) by done. by apply construct_attributes.
Qed.

Lemma instance_constructor long t v : has_annotation long t v = true ->
  match t, v with
  | ABool, VBool _ | AStr, VStr _ | AInt, VInt _ | ABytes, VBytes _ | ANone, VNone | ADatetime, VDatetime _
  | AUuid, VUuid _ | ATuple _, VTuple _ | AList _, VList _ | AMapping _, VDict _ | AEnum _ _, VEnum _ _
  | ADataclass _ _, VRecord _ _ | AUnion _, _ => True
  | _, _ => False
  end.
Proof.
  intros Hi. destruct t as [| | | | | | |units|args|args|args| | |n vs|args|n fs|], v; try done; simpl in Hi;
    destruct args as [|a1 [|a2 [|a3 args]]]; try done; first [by destruct a1|by destruct a2].
Qed.

(** A value that is not [None] has data that is not [None]. *)
Lemma data_not_none a long v : a ≠ ANone -> (forall l, a ≠ AUnion l) -> supported a = true -> has_annotation long a v = true ->
  as_avro_value (asdict v) ≠ VNone.
Proof.
  intros Hn Hu Hs Hi Hv. pose proof (instance_constructor _ _ _ Hi) as Hc.
  destruct a as [| | | | | | |units|args|args|args| | |n vs|args|n fs|]; try done; [..|by apply (Hu units)| | | | |];
    destruct v; try done.
  simpl in *. subst. apply andb_true_iff in Hi as [_ Hi]. by pose proof (enum_member_text _ _ Hi Hs).
Qed.

Lemma reads_back_union units : supported (AUnion units) = true -> Forall (fun a => supported a = true -> reads_back a) units ->
  reads_back (AUnion units).
Proof.
  intros Hs IH. destruct (supported_union _ Hs) as (a & Hu & Ha & Hn & Hl).
  assert (Hr : reads_back a).
  { rewrite Forall_forall in IH. apply IH; [|done]. destruct Hu; subst; set_solver. }
  destruct Hr as (p & Hp & Hv). exists (optional_parser p). split; [by apply (from_avro_union p units a)|].
  intros long v Hi. destruct (instance_nullable long units a v Hu Hi) as [->|Hi']; [by destruct p|].
  apply Hv in Hi' as Hd. pose proof (data_not_none a long v Hn Hl Ha Hi').
  destruct p as [parse|]; [|done]. simpl in *. by destruct (as_avro_value (asdict v)).
Qed.

(** An element of a tuple is read back from what [asdict] makes of it. *)
Lemma element_reads_back a : element a = true -> (supported a = true -> reads_back a) ->
  exists p, from_avro_value a = Ok p /\ forall long v, has_annotation long a v = true -> parses p (asdict v) v.
Proof.
  intros He Hr. destruct (plain a) eqn:Hp.
  - exists None. split; [by apply plain_parser|]. intros long v Hi. by apply (plain_asdict a long v).
  - destruct a; simpl in He; try (simpl in Hp; congruence). destruct (Hr He) as (p & Hf & Hv). exists p. split; [done|].
    intros long v Hi. pose proof (instance_constructor _ _ _ Hi). specialize (Hv long v Hi). by destruct v.
Qed.

Lemma reads_back_tuple args : supported (ATuple args) = true -> Forall (fun a => supported a = true -> reads_back a) args ->
  reads_back (ATuple args).
Proof.
  intros Hs IH. destruct (supported_tuple _ Hs) as (a & -> & He). inv IH.
  destruct (element_reads_back a He H1) as (p & Hp & Hv).
  eexists. split; [simpl; by rewrite Hp|]. intros long v Hi. destruct v as [| | | | | | |l| | | |]; try done.
  simpl in Hi. apply forallb_Forall_eq in Hi. cbn [asdict as_avro_value]. destruct p as [parse|]; simpl.
  - unfold from_avro_array. simpl. rewrite (map_res_of_Forall2 parse (map asdict l) l); [done|].
    apply Forall2_fmap_l, Forall_Forall2_diag. eapply Forall_impl; [exact Hi|]. intros v. apply Hv.
  - rewrite map_fixed; [done|]. eapply Forall_impl; [exact Hi|]. intros v. apply Hv.
Qed.

Lemma supported_reads_back t : supported t = true -> reads_back t.
Proof.
  annotation_induction t; intros Hs; try by apply plain_reads_back.
  - exists (Some uuid_of). split; [done|]. intros long v Hi. destruct v; try done.
    cbn [asdict as_avro_value parses]. apply uuid_of_hex. simpl in Hi. lia.
  - exists (Some (enum_of name values)). split; [done|]. intros long v Hi. destruct v; try done.
    simpl in *. apply andb_true_iff in Hi as [Hc Hi]. apply String.eqb_eq in Hc as ->.
    unfold enum_of. rewrite find_enum; [done..| |done]. by eapply enum_member_text.
  - by apply reads_back_union.
  - by apply reads_back_tuple.
  - simpl in Hs. apply andb_true_iff in Hs as [Hnd Hs]. apply bool_decide_eq_true in Hnd.
    apply reads_back_dataclass; [done|]. rewrite List.forallb_forall in Hs. rewrite Forall_forall in IH |- *.
    intros f Hf. apply IH; [done|]. apply Hs. by apply list_elem_of_In.
Qed.

(** ** The data of an instance conforms to the schema of its class *)

Definition is_dataclass (t : Annotation) : bool := match t with ADataclass _ _ => true | _ => false end.

(** The schema of the elements of a sequence *)
Definition items_of (f : Field) (a : Annotation) : result AvroType :=
  match a with ADataclass _ _ => record_schema a | _ => field_type f a end.

Lemma field_type_array f a args : args = AList [a] \/ args = ATuple [a; AEllipsis] ->
  field_type f args = items ← items_of f a; Ok (ArrayType ("one_of_" +:+ field_name f) items).
Proof.
  intros [-> | ->]; destruct a; try reflexivity; simpl; unfold record_schema, field_schema;
    by destruct (map_res _ _).
Qed.

Lemma unions_conform f units s d v : field_type f (AUnion units) = Ok s -> has_annotation (is_long f) (AUnion units) v = true ->
  (forall u s, u ∈ units -> field_type f u = Ok s -> has_annotation (is_long f) u v = true -> conforms s d = true) ->
  conforms s d = true.
Proof.
  cbn [field_type has_annotation]. intros Hs Hi Hc.
  destruct (map_res (field_type f) units) as [ss|] eqn:Hss; simplify_eq/=.
  apply map_res_Forall2 in Hss. apply List.existsb_exists in Hi as (u & Hin & Hi). apply list_elem_of_In in Hin.
  apply list_elem_of_lookup in Hin as [i Hu]. destruct (Forall2_lookup_l _ _ _ _ _ Hss Hu) as (s & Hsi & Hf).
  apply List.existsb_exists. exists s. split; [by eapply list_elem_of_In, list_elem_of_lookup_2|].
  eapply Hc; [by eapply list_elem_of_lookup_2|done..].
Qed.

Lemma plain_conforms t f s v : plain t = true -> field_type f t = Ok s -> has_annotation (is_long f) t v = true ->
  conforms s v = true.
Proof.
  revert s v. annotation_induction t; intros s v Hp Hs Hi; try done;
    try (pose proof (instance_constructor _ _ _ Hi); destruct v; done || by simplify_eq/=).
  - simpl in Hs. unfold int_type, is_long in *. destruct v; try done. simpl in Hi.
    destruct (metadata_type f) as [m|]; [|by simplify_eq/=; rewrite Hi].
    destruct (String.eqb m "int") eqn:E; [apply String.eqb_eq in E; subst m; simpl in *; simplify_eq/=; by rewrite Hi|].
    destruct (String.eqb m "long") eqn:E'; [|done]. apply String.eqb_eq in E'. subst m. simpl in *. simplify_eq/=.
    by rewrite Hi.
  - eapply (unions_conform f units); [done..|]. rewrite Forall_forall in IH. intros u s' Hu Hf Hv.
    apply (IH u Hu); [|done..]. destruct (plain_union _ Hp) as (a & Hua & Ha & _).
    apply (nullable_member a u) in Hua; [|done]. by destruct Hua; subst.
  - apply plain_list in Hp as (a & -> & Ha). inv IH. rewrite (field_type_array f a) in Hs by auto.
    apply bind_Ok in Hs as (items & Hitems & [= <-]). destruct v; try done. simpl in *.
    assert (Hf : field_type f a = Ok items) by by destruct a.
    rewrite List.forallb_forall in *. intros x Hx. eapply H1; eauto.
  - apply plain_mapping in Hp as (a & -> & Ha). inv IH. inv H2.
    simpl in Hs. apply bind_Ok in Hs as (values & Hvalues & [= <-]). destruct v; try done. simpl in *.
    apply andb_true_iff in Hi as [Hd Hi]. rewrite Hd. simpl. rewrite List.forallb_forall in *. intros kv Hkv. eapply H3; eauto.
Qed.

(** The data of a field with annotation [t] conforms to the schema of the field. *)
Definition data_conforms (t : Annotation) : Prop := forall f s v, field_type f t = Ok s ->
  has_annotation (is_long f) t v = true -> conforms s (as_avro_value (asdict v)) = true.

Lemma field_schema_type f n s d : field_schema f = Ok (n, s, d) -> n = field_name f /\ field_type f (annotation f) = Ok s.
Proof.
  unfold field_schema, with_default. intros (ty & Hty & Hd)%bind_Ok.
  destruct (field_default f); [apply bind_Ok in Hd as (? & _ & Hd)|]; by simplify_eq.
Qed.

Lemma record_conforms n fs s long v : Forall (fun f => data_conforms (annotation f)) fs ->
  record_schema (ADataclass n fs) = Ok s -> has_annotation long (ADataclass n fs) v = true -> conforms s (asdict v) = true.
Proof.
  intros Hc Hs Hi. apply instance_attributes in Hi as (attributes & -> & Ha).
  cbn [record_schema] in Hs. destruct (map_res field_schema fs) as [fields|] eqn:Hf; simplify_eq/=.
  rewrite map_map. apply map_res_Forall2 in Hf. revert fields Hf.
  induction Ha as [|f kv fs attributes [Hk Hinst] _ IH]; intros fields Hf; inv Hf; [done|]. inv Hc.
  destruct y as [[m ty] dflt]. apply field_schema_type in H1 as [-> Hty]. simpl.
  rewrite Hk, String.eqb_refl. simpl. rewrite (H2 f ty kv.2) by done. simpl. by apply IH.
Qed.

Lemma supported_conforms t : supported t = true -> data_conforms t /\
  (forall n fs s long v, t = ADataclass n fs -> record_schema t = Ok s -> has_annotation long t v = true ->
   conforms s (asdict v) = true).
Proof.
  assert (Hplain : forall t, plain t = true -> data_conforms t).
  { intros t' Hp f s v Hs Hi. destruct (plain_asdict t' _ v Hp Hi) as [-> ->]. by eapply plain_conforms. }
  annotation_induction t; intros Hs; (split; [|try done]); try by apply Hplain.
  - intros f s v Hf Hi. simplify_eq/=. destruct v; try done.
    cbn [asdict as_avro_value conforms]. unfold is_uuid_text. rewrite uuid_of_hex; [done|lia].
  - intros f s v Hf Hi. pose proof (instance_constructor _ _ _ Hi). destruct v as [| | | | | | | | | |c v|]; try done.
    simpl in Hs, Hi. apply andb_true_iff in Hi as [_ Hi].
    assert (Hsy : exists d, s = EnumType name values d).
    { simpl in Hf. destruct (field_default f) as [d|]; [apply bind_Ok in Hf as (x & _ & Hf)|]; simplify_eq; eauto. }
    destruct Hsy as [d ->]. pose proof (enum_member_text _ _ Hi Hs). by destruct v.
  - intros f s v Hf Hi. eapply (unions_conform f units); [done..|]. intros u s' Hu Hfu Hiu.
    destruct (supported_union _ Hs) as (a & Hua & Ha & _). destruct (nullable_member a u units Hua Hu) as [-> | ->].
    + by apply (Hplain ANone eq_refl f).
    + rewrite Forall_forall in IH. by apply (proj1 (IH a Hu Ha) f).
  - intros f s v Hf Hi. destruct (supported_tuple _ Hs) as (a & -> & He). inv IH.
    rewrite (field_type_array f a) in Hf by auto. apply bind_Ok in Hf as (items & Hitems & [= <-]).
    destruct v as [| | | | | | |l| | | |]; try done. cbn [has_annotation asdict as_avro_value conforms] in *.
    rewrite List.forallb_forall in Hi |- *. intros d Hd. apply List.in_map_iff in Hd as (x & <- & Hx). apply Hi in Hx.
    destruct (plain a) eqn:Hp.
    + destruct (plain_asdict a _ x Hp Hx) as [-> _]. eapply plain_conforms; [done| |done]. by destruct a.
    + destruct a; simpl in He; try (simpl in Hp; congruence). destruct (H1 He) as [_ Hrec]. by eapply Hrec.
  - intros f s v Hf. discriminate Hf.
  - simpl in Hs. apply andb_true_iff in Hs as [_ Hs]. intros n' fs' s long v [= <- <-] Hf Hi.
    eapply record_conforms; [|done..]. rewrite List.forallb_forall in Hs. rewrite Forall_forall in IH |- *.
    intros f Hin. apply IH; [done|]. apply Hs. by apply list_elem_of_In.
Qed.

(** C38. An instance of a dataclass whose annotations are supported survives a message: when the Avro
    library accepts the schema of the class, [serialize] writes the instance and [parse] makes the same
    instance of what was written. The fields have to be in the bounds of Avro: an [int] in 32 bits, or 64
    for a field of type [long], and an instant in whole milliseconds, since the schema of a [datetime] is
    [timestamp-millis] and what is below a millisecond is lost. *)
Theorem avro_model_roundtrip {schema bytes} `{!AvroLib schema bytes} `{!AvroLibLaws schema bytes} n fs instance reader :
  supported (ADataclass n fs) = true ->
  record_avsc_object (ADataclass n fs) = Ok reader ->
  has_annotation false (ADataclass n fs) instance = true ->
  exists b, serialize (ADataclass n fs) instance = Ok b /\ parse (ADataclass n fs) b = Ok instance.
Proof.
  intros Hs Hr Hi. pose proof Hr as Hr'. unfold record_avsc_object in Hr'. apply bind_Ok in Hr' as (s & Hrec & Hmake).
  pose proof (proj2 (supported_conforms _ Hs) n fs s false instance eq_refl Hrec Hi) as Hc.
  destruct (datum_roundtrip s reader _ Hmake Hc) as (b & Hw & Hread). exists b. unfold serialize, parse. rewrite Hr. simpl.
  split; [done|]. unfold as_avro_dict in *. rewrite Hread. simpl.
  destruct (supported_reads_back _ Hs) as (p & Hp & Hv). specialize (Hv false instance Hi).
  assert (Hd : p = Some (from_avro_dict (ADataclass n fs))) by (by injection Hp). subst p.
  pose proof (instance_constructor _ _ _ Hi). by destruct instance.
Qed.

(** An Avro library for the witness: data are their own encoding, and what does not conform to the
    schema is refused. *)
#[global] Instance plain_avro : AvroLib AvroType PyValue := {|
  make_avsc_object := Ok;
  datum_write s d := if conforms s d then Ok d else Raise AvroTypeException;
  datum_read s d := if conforms s d then Ok d else Raise SchemaResolutionException;
|}.

#[global] Instance plain_avro_laws : AvroLibLaws AvroType PyValue.
Proof. split. intros s o d [= ->] Hc. exists d. simpl. by rewrite Hc. Qed.

(** A class with an enum, a [long], an optional field, an array of records, an instant and an id *)
Definition nested_model : Annotation := ADataclass "NestedModel"
  [mkField "bool_field" ABool None None None; mkField "values" (ATuple [AInt; AEllipsis]) None None None].
Definition record_fields : list Field :=
  [mkField "symbol" (AEnum "Symbol" [VStr "a"; VStr "b"]) None None None;
   mkField "height" AInt (Some "long"%string) None None;
   mkField "name" (AUnion [AStr; ANone]) None (Some VNone) None;
   mkField "nested" (ATuple [nested_model; AEllipsis]) None None None;
   mkField "dt" ADatetime None None None;
   mkField "id" AUuid None None None].
Definition record_instance : PyValue := VRecord "RecordModel"
  [("symbol", VEnum "Symbol" (VStr "b")); ("height", VInt 123321098765); ("name", VNone);
   ("nested", VTuple [VRecord "NestedModel" [("bool_field", VBool true); ("values", VTuple [VInt 1; VInt (-2)])]]);
   ("dt", VDatetime 1700000000123000); ("id", VUuid 281474976710655)]%string.

Lemma avro_model_roundtrip_witness : exists b,
  serialize (ADataclass "RecordModel" record_fields) record_instance = Ok b /\
  parse (ADataclass "RecordModel" record_fields) b = Ok record_instance.
Proof.
  destruct (record_avsc_object (ADataclass "RecordModel" record_fields)) as [reader|] eqn:E; [|discriminate E].
  by apply (avro_model_roundtrip "RecordModel" record_fields record_instance reader); vm_compute.
Defined.
