(* ===== verification/ProtoMessages.v ===== *)
(** * Protobuf messages and dictionaries

    [core/protobuf/protobuf_to_dict.py]: a message of the protobuf runtime as a dictionary, and a
    message populated from one. The runtime is outside: descriptors and messages are types of which
    the code uses the operations of the class [ProtobufRuntime]. A submessage that [getattr] returns is
    a view of its parent; changing it is [put_message], which is told the submessage after the change.

    The recursions are as deep as the data; they take the recursion limit of the interpreter. *)

From stdpp Require Import pretty.
From Stdlib Require Import QArith Strings.Byte.
From S2P Require Import Prelude Typing ProtoReader ProtoElements Framing.
Open Scope Z_scope.

(** ** Data *)

(** The keys of the dictionaries: names of fields, keys of map fields, numbers of extensions *)
Inductive Key : Type := KStr (s : string) | KInt (z : Z) | KBool (b : bool).
#[global] Instance Key_eq_dec : EqDecision Key.
Proof. solve_decision. Defined.

Inductive PyData : Type :=
  | PNone
  | PBool (b : bool)
  | PInt (z : Z)
  | PFloat (q : Q)
  | PStr (s : string)
  | PBytes (l : list byte)
  | PDatetime (microseconds : Z)
  | PList (l : list PyData)
  | PDict (d : list (Key * PyData)).

(** [for item in value] *)
Definition py_iter (value : PyData) : result (list PyData) :=
  match value with
  | PList l => Ok l
  | PDict d => Ok (map (fun kv => match kv.1 with KStr s => PStr s | KInt z => PInt z | KBool b => PBool b end) d)
  | PStr s => Ok (map (fun c => PStr (String c EmptyString)) (to_text s))
  | PBytes l => Ok (map (fun b => PInt (byte_val b)) l)
  | _ => Raise TypeError
  end.

Definition is_none (value : PyData) : bool := match value with PNone => true | _ => false end.

(** [value.items()] *)
Definition py_items (value : PyData) : result (list (Key * PyData)) :=
  match value with PDict d => Ok d | _ => Raise AttributeError end.

Definition key_data (k : Key) : PyData := match k with KStr s => PStr s | KInt z => PInt z | KBool b => PBool b end.

(** ** The runtime *)

(** The types of [FieldDescriptor] *)
Inductive FieldType : Type :=
  | TYPE_DOUBLE | TYPE_FLOAT | TYPE_INT64 | TYPE_UINT64 | TYPE_INT32 | TYPE_FIXED64 | TYPE_FIXED32 | TYPE_BOOL
  | TYPE_STRING | TYPE_GROUP | TYPE_MESSAGE | TYPE_BYTES | TYPE_UINT32 | TYPE_ENUM | TYPE_SFIXED32
  | TYPE_SFIXED64 | TYPE_SINT32 | TYPE_SINT64.
#[global] Instance FieldType_eq_dec : EqDecision FieldType.
Proof. solve_decision. Defined.

(** What a field holds: a scalar or a message, several of them, or the entries of a map. *)
Inductive Element (Message : Type) : Type := Scalar (v : PyData) | Submessage (m : Message).
Arguments Scalar {Message} v.
Arguments Submessage {Message} m.
Inductive FieldValue (Message : Type) : Type :=
  | Single (e : Element Message)
  | Repeated (l : list (Element Message))
  | MapValue (entries : list (Key * Element Message)).
Arguments Single {Message} e.
Arguments Repeated {Message} l.
Arguments MapValue {Message} entries.

Class ProtobufRuntime (Descriptor FieldDescriptor Message : Type) : Type := {
  (* descriptors *)
  message_name : Descriptor -> string;
  (** [has_options and GetOptions().map_entry] *)
  map_entry : Descriptor -> bool;
  descriptor_fields : Descriptor -> list FieldDescriptor;
  fd_name : FieldDescriptor -> string;
  fd_number : FieldDescriptor -> Z;
  fd_type : FieldDescriptor -> FieldType;
  (** [label == LABEL_REPEATED] *)
  fd_repeated : FieldDescriptor -> bool;
  fd_message_type : FieldDescriptor -> option Descriptor;
  (** the values of [enum_type]: names and numbers *)
  fd_enum : FieldDescriptor -> list (string * Z);
  fd_default : FieldDescriptor -> PyData;
  (** the name of the oneof the field is a member of *)
  fd_containing_oneof : FieldDescriptor -> option string;
  fd_is_extension : FieldDescriptor -> bool;
  (** [GetOptions().ListFields()], by name *)
  fd_options : FieldDescriptor -> list (string * PyData);
  (* messages *)
  DESCRIPTOR : Message -> Descriptor;
  ListFields : Message -> list (FieldDescriptor * FieldValue Message);
  extension_by_number : Message -> Z -> option FieldDescriptor;
  ToDatetime : Message -> result Z;
  (** [getattr(pb, name)] and [pb.Extensions[field]] of a singular submessage, and its change *)
  get_message : Message -> FieldDescriptor -> Message;
  put_message : Message -> FieldDescriptor -> Message -> Message;
  (** [setattr], [pb.Extensions[field] = value], [append] *)
  set_field : Message -> FieldDescriptor -> PyData -> result Message;
  append_value : Message -> FieldDescriptor -> PyData -> result Message;
  (** [add()]: the new last element, and the message once it has changed *)
  new_element : Message -> FieldDescriptor -> Message;
  add_element : Message -> FieldDescriptor -> Message -> Message;
  (** [getattr(pb, name)[key]] of a map: a submessage and its change, or an assignment *)
  map_message : Message -> FieldDescriptor -> Key -> result Message;
  put_map_message : Message -> FieldDescriptor -> Key -> Message -> Message;
  set_map_value : Message -> FieldDescriptor -> Key -> PyData -> result Message;
  (** [CopyFrom] of a timestamp of a datetime *)
  copy_timestamp : Message -> FieldDescriptor -> Z -> result Message;
}.

(** [dateutil.parser.parse] *)
Class DateParser : Type := { date_parser : PyData -> result Z }.

Section Messages.
Context {Descriptor FieldDescriptor Message : Type} `{!ProtobufRuntime Descriptor FieldDescriptor Message}.

Definition field_by_name (d : Descriptor) (name : string) : option FieldDescriptor :=
  List.find (fun f => String.eqb (fd_name f) name) (descriptor_fields d).

(** A message is of C++ type message when it is a message or a group. *)
Definition cpp_message (f : FieldDescriptor) : bool :=
  bool_decide (fd_type f = TYPE_MESSAGE) || bool_decide (fd_type f = TYPE_GROUP).

(** [field.message_type and field.message_type.has_options and ...map_entry] *)
Definition map_entry_type (f : FieldDescriptor) : option Descriptor :=
  match fd_message_type f with Some d => if map_entry d then Some d else None | None => None end.
Definition _is_map_entry (f : FieldDescriptor) : bool :=
  bool_decide (fd_type f = TYPE_MESSAGE) && match map_entry_type f with Some _ => true | None => false end.

Definition in_oneof (f : FieldDescriptor) : bool := bool_decide (is_Some (fd_containing_oneof f)).

(** ** protobuf_to_dict *)

Definition Timestamp_type_name : string := "Timestamp".
Definition EXTENSION_CONTAINER : string := "___X".

(** [TYPE_CALLABLE_MAP]: the conversion of a value of the field, none for messages and groups. The
    values [ListFields] yields are of the type of the field; for others of the argument types the
    callables accept too, the conversion is left out. *)
Definition TYPE_CALLABLE_MAP (t : FieldType) : option (PyData -> result PyData) :=
  match t with
  | TYPE_DOUBLE | TYPE_FLOAT =>
      Some (fun v => match v with PFloat q => Ok (PFloat q) | PInt z => Ok (PFloat (inject_Z z)) | _ => Raise TypeError end)
  | TYPE_BOOL => Some (fun v => match v with PBool b => Ok (PBool b) | PInt z => Ok (PBool (negb (z =? 0))) | _ => Raise TypeError end)
  | TYPE_STRING => Some (fun v => match v with PStr s => Ok (PStr s) | _ => Raise TypeError end)
  | TYPE_BYTES => Some (fun v => match v with PBytes b => Ok (PBytes b) | _ => Raise TypeError end)
  | TYPE_GROUP | TYPE_MESSAGE => None
  | _ => Some (fun v => match v with PInt z => Ok (PInt z) | PBool b => Ok (PInt (Z.b2z b)) | _ => Raise TypeError end)
  end.

Definition upper_char (c : ascii) : ascii := if in_range "a" "z" c then ascii_of_N (N_of_ascii c - 32) else c.
Definition lower_string (s : string) : string := of_text (map lower_ascii (to_text s)).
Definition upper_string (s : string) : string := of_text (map upper_char (to_text s)).

(** [enum_label_name]: the label of a number *)
Definition enum_label_name (f : FieldDescriptor) (value : PyData) (lowercase_enum_lables : bool) : result PyData :=
  number ← match value with PInt z => Ok z | PBool b => Ok (Z.b2z b) | _ => Raise TypeError end;
  match List.find (fun e => e.2 =? number) (fd_enum f) with
  | Some e => Ok (PStr (if lowercase_enum_lables : bool then lower_string e.1 else e.1))
  | None => Raise KeyError
  end.

(** [_get_field_value_adaptor], for the conversion [rec] of submessages *)
Definition _get_field_value_adaptor (rec : Message -> result PyData) (use_enum_labels lowercase_enum_lables : bool)
  (field : FieldDescriptor) : result (Element Message -> result PyData) :=
  let of_message g := fun e : Element Message => match e with Submessage m => g m | Scalar _ => Raise AttributeError end in
  let of_scalar g := fun e : Element Message => match e with Scalar v => g v | Submessage _ => Raise TypeError end in
  let named_timestamp := match fd_message_type field with
    | Some d => String.eqb (message_name d) Timestamp_type_name | None => false end in
  if named_timestamp : bool then Ok (of_message (fun m => PDatetime <$> ToDatetime m))
  else if bool_decide (fd_type field = TYPE_MESSAGE) then Ok (of_message rec)
  else if use_enum_labels && bool_decide (fd_type field = TYPE_ENUM) then
    Ok (of_scalar (fun v => enum_label_name field v lowercase_enum_lables))
  else match TYPE_CALLABLE_MAP (fd_type field) with
       | Some g => Ok (of_scalar g)
       | None => Raise TypeError
       end.

(** The value of a field in the dictionary: the entries of a map, the items of a repeated field, or the
    value itself, converted *)
Definition field_data (adaptor : FieldDescriptor -> result (Element Message -> result PyData)) (field : FieldDescriptor)
  (value : FieldValue Message) : result PyData :=
  match map_entry_type field with
  | Some entry =>
      value_field ← match field_by_name entry "value" with Some f => Ok f | None => Raise KeyError end;
      type_callable ← adaptor value_field;
      entries ← match value with MapValue entries => Ok entries | _ => Raise AttributeError end;
      PDict <$> fold_res (fun d kv => v ← type_callable kv.2; Ok (dset kv.1 v d)) entries []
  | None =>
      type_callable ← adaptor field;
      if fd_repeated field then
        match value with Repeated l => PList <$> map_res type_callable l | _ => Raise TypeError end
      else match value with Single e => type_callable e | _ => Raise TypeError end
  end.

(** One round of the loop over [ListFields]: the dictionary and the extensions so far *)
Definition add_field (adaptor : FieldDescriptor -> result (Element Message -> result PyData))
  (acc : dict Key PyData * dict Key PyData) (fv : FieldDescriptor * FieldValue Message)
  : result (dict Key PyData * dict Key PyData) :=
  let (field, value) := fv in
  v ← field_data adaptor field value;
  Ok (if match map_entry_type field with Some _ => false | None => fd_is_extension field end
      then (acc.1, dset (KStr (pretty (fd_number field))) v acc.2)
      else (dset (KStr (fd_name field)) v acc.1, acc.2)).

(** One round of the loop that adds the defaults *)
Definition add_default (use_enum_labels lowercase_enum_lables : bool) (result_dict : dict Key PyData)
  (field : FieldDescriptor) : result (dict Key PyData) :=
  let key := KStr (fd_name field) in
  if negb (fd_repeated field) && cpp_message field then Ok result_dict
  else if in_oneof field then Ok result_dict
  else if din key result_dict then Ok result_dict
  else if _is_map_entry field then Ok (dset key (PDict []) result_dict)
  else if fd_repeated field then Ok (dset key (PList []) result_dict)
  else if bool_decide (fd_type field = TYPE_ENUM) && use_enum_labels then
    label ← enum_label_name field (fd_default field) lowercase_enum_lables; Ok (dset key label result_dict)
  else Ok (dset key (fd_default field) result_dict).

Fixpoint protobuf_to_dict (recursion_limit : nat) (use_enum_labels including_default_value_fields lowercase_enum_lables : bool)
  (pb : Message) : result PyData :=
  match recursion_limit with
  | O => Raise RecursionError
  | S limit =>
      let rec := protobuf_to_dict limit use_enum_labels including_default_value_fields lowercase_enum_lables in
      acc ← fold_res (add_field (_get_field_value_adaptor rec use_enum_labels lowercase_enum_lables)) (ListFields pb) ([], []);
      result_dict ← (if including_default_value_fields then
        fold_res (add_default use_enum_labels lowercase_enum_lables) (descriptor_fields (DESCRIPTOR pb)) acc.1
        else Ok acc.1);
      Ok (PDict (match acc.2 with
                 | [] => result_dict
                 | extensions => dset (KStr EXTENSION_CONTAINER) (PDict extensions) result_dict
                 end))
  end.

(** ** dict_to_protobuf *)

(** [int(ext_num)] *)
Definition extension_number (k : Key) : result Z :=
  match k with
  | KInt z => Ok z
  | KBool b => Ok (Z.b2z b)
  | KStr s => match py_int s with Some z => Ok z | None => Raise ValueError end
  end.

(** [_get_field_mapping], without the values of [getattr], which are looked up where they are used:
    the fields named by the keys, then the extensions *)
Definition named_field (strict : bool) (pb : Message) (kv : Key * PyData) : result (list (FieldDescriptor * PyData)) :=
  if bool_decide (kv.1 = KStr EXTENSION_CONTAINER) then Ok []
  else match (match kv.1 with KStr name => field_by_name (DESCRIPTOR pb) name | _ => None end) with
       | Some f => Ok [(f, kv.2)]
       | None => if strict then Raise KeyError else Ok []
       end.

Definition numbered_field (strict : bool) (pb : Message) (kv : Key * PyData) : result (list (FieldDescriptor * PyData)) :=
  number ← extension_number kv.1;
  match extension_by_number pb number with
  | Some f => Ok [(f, kv.2)]
  | None => if strict then Raise KeyError else Ok []
  end.

Definition _get_field_mapping (pb : Message) (dict_value : PyData) (strict : bool) : result (list (FieldDescriptor * PyData)) :=
  d ← py_items dict_value;
  named ← map_res (named_field strict pb) d;
  extensions ← py_items (default (PDict []) (dget (KStr EXTENSION_CONTAINER) d));
  numbered ← map_res (numbered_field strict pb) extensions;
  Ok (mjoin named ++ mjoin numbered).

(** [_string_to_enum] *)
Definition enum_number (field : FieldDescriptor) (label : string) : option PyData :=
  match List.find (fun e => String.eqb e.1 label) (fd_enum field) with Some e => Some (PInt e.2) | None => None end.
Definition _string_to_enum (field : FieldDescriptor) (label : string) (strict : bool) : result PyData :=
  match enum_number field label with
  | Some n => Ok n
  | None =>
      if strict then Raise KeyError
      else match enum_number field (upper_string label) with Some n => Ok n | None => Raise KeyError end
  end.

Definition enum_value (field : FieldDescriptor) (value : PyData) (strict : bool) : result PyData :=
  match value with
  | PStr label => if bool_decide (fd_type field = TYPE_ENUM) then _string_to_enum field label strict else Ok value
  | _ => Ok value
  end.

Section Populate.
Context `{!DateParser}.
(** The parameters of [dict_to_protobuf] *)
Context (type_callable_map : dict FieldType (PyData -> result PyData)) (strict ignore_none : bool)
  (use_date_parser_for_fields : list string).

Definition convert (t : FieldType) (v : PyData) : result PyData :=
  match dget t type_callable_map with Some g => g v | None => Ok v end.

(** [try ... except Exception: raise RuntimeError] *)
Definition try_assign (r : result Message) : result Message := reraise (fun _ => true) RuntimeError r.

Definition map_key (v : PyData) : result Key :=
  match v with PStr s => Ok (KStr s) | PInt z => Ok (KInt z) | PBool b => Ok (KBool b) | _ => Raise TypeError end.

(** One entry of a map field *)
Definition map_entry_step (rec : Message -> PyData -> result Message) (field key_field value_field : FieldDescriptor)
  (pb : Message) (kv : Key * PyData) : result Message :=
  if cpp_message value_field then
    entry ← map_message pb field kv.1;
    m ← rec entry kv.2;
    Ok (put_map_message pb field kv.1 m)
  else if ignore_none && is_none kv.2 then Ok pb
  else try_assign (
    k ← convert (fd_type key_field) (key_data kv.1);
    key ← map_key k;
    value ← convert (fd_type value_field) kv.2;
    set_map_value pb field key value).

(** One item of a repeated field *)
Definition item_step (rec : Message -> PyData -> result Message) (field : FieldDescriptor) (pb : Message) (item : PyData)
  : result Message :=
  if bool_decide (fd_type field = TYPE_MESSAGE) then
    m ← rec (new_element pb field) item; Ok (add_element pb field m)
  else v ← enum_value field item strict; append_value pb field v.

(** One round of the loop over the mapping *)
Definition field_step (rec : Message -> PyData -> result Message) (pb : Message) (fv : FieldDescriptor * PyData)
  : result Message :=
  let (field, input_value) := fv in
  if ignore_none && is_none input_value then Ok pb
  else if fd_repeated field then
    match map_entry_type field with
    | Some entry =>
        match field_by_name entry "key", field_by_name entry "value" with
        | Some key_field, Some value_field =>
            entries ← py_items input_value; fold_res (map_entry_step rec field key_field value_field) entries pb
        | _, _ => Raise KeyError
        end
    | None => items ← py_iter input_value; fold_res (item_step rec field) items pb
    end
  else match input_value with
       | PDatetime t => copy_timestamp pb field t
       | _ =>
           if bool_decide (fd_name field ∈ use_date_parser_for_fields) then
             t ← date_parser input_value; copy_timestamp pb field t
           else if bool_decide (fd_type field = TYPE_MESSAGE) then
             m ← rec (get_message pb field) input_value; Ok (put_message pb field m)
           else
             v ← convert (fd_type field) input_value;
             if fd_is_extension field then set_field pb field v
             else v' ← enum_value field v strict; try_assign (set_field pb field v')
       end.

Fixpoint _dict_to_protobuf (recursion_limit : nat) (pb : Message) (value : PyData) : result Message :=
  match recursion_limit with
  | O => Raise RecursionError
  | S limit =>
      fields ← _get_field_mapping pb value strict;
      fold_res (field_step (_dict_to_protobuf limit)) fields pb
  end.
End Populate.

(** [dict_to_protobuf], for an instance, with its default arguments *)
Definition dict_to_protobuf `{!DateParser} (recursion_limit : nat) (instance : Message) (values : PyData) : result Message :=
  _dict_to_protobuf [] true false [] recursion_limit instance values.

(** ** Required fields *)

Definition data_truthy (v : PyData) : bool :=
  match v with
  | PNone => false | PBool b => b | PInt z => negb (z =? 0) | PFloat q => negb (Qeq_bool q 0)
  | PStr s => negb (String.eqb s "") | PBytes l => negb (bool_decide (l = [])) | PDatetime _ => true
  | PList l => match l with [] => false | _ => true end
  | PDict d => match d with [] => false | _ => true end
  end.

(** [get_field_names_and_options] *)
Definition get_field_names_and_options (pb : Message) : list (FieldDescriptor * string * list (string * PyData)) :=
  map (fun f => (f, fd_name f, fd_options f)) (descriptor_fields (DESCRIPTOR pb)).

Definition validate_dict_for_required_pb_fields (pb : Message) (dic : dict Key PyData) : result () :=
  let missing_fields := List.filter (fun fno : FieldDescriptor * string * list (string * PyData) =>
    negb (data_truthy (default (PBool false) (dget "is_optional"%string fno.2))) && negb (din (KStr fno.1.2) dic))
    (get_field_names_and_options pb) in
  match missing_fields with [] => Ok () | _ => Raise FieldsMissing end.
End Messages.
