(* ===== verification/ProtoMessagesSpec.v ===== *)
(** * Protobuf messages: what a datum becomes

    [protobuf_dict_fields]: the dictionary of a message has the value of every field that is set and the
    default of every other one that has one. [typed]: the data that a type of message can hold. [reads]: what
    a datum of a type is read back as, once a message has been populated with it: the same values under the
    same keys, enums by their labels, with the defaults of the fields it leaves out.
    [populated_reads]: the two conversions compose to it, for every runtime with the [MessageLaws]. *)

From stdpp Require Import pretty.
From Stdlib Require Import QArith Strings.Byte.
From S2P Require Import Prelude Typing ProtoReader ProtoElements Framing ProtoMessages.
Open Scope Z_scope.

Section Fields.
Context {Descriptor FieldDescriptor Message : Type} `{!ProtobufRuntime Descriptor FieldDescriptor Message}.

(** ** The fields of a dictionary *)

(** What [ListFields] and a descriptor promise, for a message without extensions: the fields that are
    set, each once, are fields of the type, whose names are distinct. *)
Definition well_listed (pb : Message) : Prop :=
  NoDup (map fd_name (descriptor_fields (DESCRIPTOR pb))) /\
  NoDup (map (fun fv => fd_name fv.1) (ListFields pb)) /\
  Forall (fun fv => fv.1 ∈ descriptor_fields (DESCRIPTOR pb) /\ fd_is_extension fv.1 = false) (ListFields pb).

(** The entry of a field that is not set: none for a submessage and a member of a oneof, an empty
    container for a repeated field, else the default, an enum by its label. *)
Definition default_data (labels lowercase : bool) (f : FieldDescriptor) : option (result PyData) :=
  if negb (fd_repeated f) && cpp_message f || in_oneof f then None
  else Some (if _is_map_entry f then Ok (PDict [])
             else if fd_repeated f then Ok (PList [])
             else if bool_decide (fd_type f = TYPE_ENUM) && labels then enum_label_name f (fd_default f) lowercase
             else Ok (fd_default f)).

Abbreviation name_key f := (KStr (fd_name f)) (only parsing).

Lemma add_fields adaptor l acc r :
  Forall (fun fv => fd_is_extension fv.1 = false) l -> NoDup (map (fun fv => fd_name fv.1) l) ->
  fold_res (add_field adaptor) l acc = Ok r ->
  r.2 = acc.2 /\
  (forall f v, (f, v) ∈ l -> exists x, field_data adaptor f v = Ok x /\ dget (name_key f) r.1 = Some x) /\
  (forall k, (forall fv, fv ∈ l -> k ≠ name_key fv.1) -> dget k r.1 = dget k acc.1).
Proof.
  revert acc; induction l as [|[f v] l IH]; intros acc He Hnd Hr; simpl in *.
  - injection Hr as <-. split_and!; [done| |done]. by intros f v ?%elem_of_nil.
  - apply Forall_cons in He as [Hf He]. apply NoDup_cons in Hnd as [Hni Hnd].
    apply bind_Ok in Hr as (acc' & Ha & Hr). apply bind_Ok in Ha as (x & Hx & [= <-]). simpl in Hf.
    assert (Hif : match map_entry_type f with Some _ => false | None => fd_is_extension f end = false)
      by (rewrite Hf; by destruct (map_entry_type f)).
    rewrite Hif in Hr. destruct (IH _ He Hnd Hr) as (Hext & Hin & Hout). simpl in Hext, Hout. split_and!; [done|..].
    + intros f' v' [[= -> ->]|Hf']%elem_of_cons; [|by apply Hin]. exists x. split; [done|].
      rewrite Hout; [apply dget_dset_eq|]. intros fv Hfv [= Heq]. apply Hni. apply list_elem_of_fmap. by exists fv.
    + intros k Hk. rewrite Hout by (intros fv Hfv; apply Hk; by constructor).
      apply dget_dset_ne. intros <-. by apply (Hk (f, v) ltac:(by constructor)).
Qed.

Lemma add_default_step labels lowercase acc f acc' : add_default labels lowercase acc f = Ok acc' ->
  (dget (name_key f) acc = None -> match default_data labels lowercase f with
     | None => acc' = acc | Some x => exists y, x = Ok y /\ acc' = dset (name_key f) y acc end) /\
  (forall k x, dget k acc = Some x -> dget k acc' = Some x) /\
  (forall k, k ≠ name_key f -> dget k acc' = dget k acc).
Proof.
  intros Ha. assert (Hcase : acc' = acc /\ (dget (name_key f) acc = None -> default_data labels lowercase f = None) \/
    exists y, default_data labels lowercase f = Some (Ok y) /\ acc' = dset (name_key f) y acc /\ dget (name_key f) acc = None).
  { unfold add_default, default_data, din in *. destruct (_ && cpp_message f); simpl; [left; by simplify_eq|].
    destruct (in_oneof f); [left; by simplify_eq|].
    destruct (dget (name_key f) acc); [left; by simplify_eq|]. right.
    destruct (_is_map_entry f); [simplify_eq; eauto|]. destruct (fd_repeated f); [simplify_eq; eauto|].
    destruct (_ && labels); [|simplify_eq; eauto]. apply bind_Ok in Ha as (label & -> & [= <-]). eauto. }
  destruct Hcase as [[-> Hnone]|(y & Hd & -> & Hacc)].
  - split_and!; [|done..]. intros Hacc. by rewrite Hnone.
  - rewrite Hd. split_and!; [eauto| |].
    + intros k x Hk. rewrite dget_dset_ne; [done|]. congruence.
    + intros k Hk. by apply dget_dset_ne.
Qed.

Lemma add_defaults labels lowercase l acc r : NoDup (map fd_name l) ->
  fold_res (add_default labels lowercase) l acc = Ok r ->
  (forall k x, dget k acc = Some x -> dget k r = Some x) /\
  (forall k, (forall f, f ∈ l -> k ≠ name_key f) -> dget k r = dget k acc) /\
  (forall f, f ∈ l -> dget (name_key f) acc = None ->
     match default_data labels lowercase f with
     | None => dget (name_key f) r = None
     | Some x => exists y, x = Ok y /\ dget (name_key f) r = Some y
     end).
Proof.
  revert acc; induction l as [|f l IH]; intros acc Hnd Hr; simpl in *.
  - injection Hr as <-. split_and!; [done..|]. by intros f ?%elem_of_nil.
  - apply NoDup_cons in Hnd as [Hni Hnd]. apply bind_Ok in Hr as (acc' & Ha & Hr).
    destruct (IH _ Hnd Hr) as (Hkeep & Hout & Hin). destruct (add_default_step _ _ _ _ _ Ha) as (Hnew & Hkeep' & Hout').
    split_and!.
    + intros k x Hk. by apply Hkeep, Hkeep'.
    + intros k Hk. rewrite Hout by (intros f' Hf'; apply Hk; by constructor). apply Hout'. apply Hk. by constructor.
    + intros f' [->|Hf']%elem_of_cons Hnone.
      * specialize (Hnew Hnone). assert (Hr' : dget (name_key f) r = dget (name_key f) acc').
        { apply Hout. intros f' Hf' [= Heq]. apply Hni. rewrite Heq. by apply list_elem_of_fmap_2. }
        rewrite Hr'. destruct (default_data labels lowercase f) as [x|]; [|by subst].
        destruct Hnew as (y & -> & ->). exists y. split; [done|apply dget_dset_eq].
      * apply Hin; [done|]. rewrite Hout'; [done|]. intros [= Heq]. apply Hni. rewrite <- Heq. by apply list_elem_of_fmap_2.
Qed.

Lemma same_name_field pb f f' : well_listed pb -> f ∈ descriptor_fields (DESCRIPTOR pb) ->
  f' ∈ descriptor_fields (DESCRIPTOR pb) -> fd_name f = fd_name f' -> f = f'.
Proof.
  intros (Hnd & _) Hf Hf' Hn. apply list_elem_of_lookup in Hf as [i Hi]. apply list_elem_of_lookup in Hf' as [j Hj].
  assert (Hij : i = j); [|subst; congruence].
  eapply (NoDup_lookup _ i j (fd_name f) Hnd); rewrite list_lookup_fmap; [by rewrite Hi|by rewrite Hj; simpl; rewrite Hn].
Qed.

(** The dictionary of a message without extensions has exactly one entry for every field that is
    set, with its converted value, and, the defaults being included, one for every other field of the
    type that is neither a singular submessage nor a member of a oneof: an empty dictionary or list for
    a map or repeated field, the label of the default for an enum, the default otherwise. It has no
    other entry. *)
Theorem protobuf_dict_fields limit labels lowercase pb d :
  let adaptor := _get_field_value_adaptor (protobuf_to_dict limit labels true lowercase) labels lowercase in
  well_listed pb -> protobuf_to_dict (S limit) labels true lowercase pb = Ok (PDict d) ->
  (forall f v, (f, v) ∈ ListFields pb -> exists x, field_data adaptor f v = Ok x /\ dget (name_key f) d = Some x) /\
  (forall f, f ∈ descriptor_fields (DESCRIPTOR pb) -> (forall v, (f, v) ∉ ListFields pb) ->
     match default_data labels lowercase f with
     | None => dget (name_key f) d = None
     | Some x => exists y, x = Ok y /\ dget (name_key f) d = Some y
     end) /\
  (forall k, k ∈ dkeys d -> exists f, f ∈ descriptor_fields (DESCRIPTOR pb) /\ k = name_key f).
Proof.
  intros adaptor Hwl Hd. pose proof Hwl as (Hnd & Hnames & Hlisted). simpl in Hd.
  apply bind_Ok in Hd as (acc & Hacc & Hd). apply bind_Ok in Hd as (r & Hr & Hd).
  apply add_fields in Hacc as (Hext & Hin & Hout);
    [|eapply Forall_impl; [exact Hlisted|]; by intros fv []|done].
  destruct acc as [set_fields extensions]. simpl in Hext, Hin, Hout, Hr, Hd. subst extensions. injection Hd as ->. destruct (add_defaults _ _ _ _ _ Hnd Hr) as (Hkeep & Hother & Hdef).
  rewrite Forall_forall in Hlisted. split_and!.
  - intros f v Hf. destruct (Hin f v Hf) as (x & Hx & Hget). exists x. split; [done|by apply Hkeep].
  - intros f Hf Hunset. apply Hdef; [done|]. rewrite Hout; [done|]. intros [f' v] Hf' [= Heq]. simpl in Heq.
    destruct (Hlisted _ Hf') as [Hf'' _]. simpl in Hf''. rewrite (same_name_field pb f f' Hwl Hf Hf'' Heq) in Hunset.
    by apply (Hunset v).
  - intros k [x Hk]%dget_Some_key.
    destruct (decide (k ∈ map (fun f => KStr (fd_name f)) (descriptor_fields (DESCRIPTOR pb)))) as [Hk'|Hk'].
    { apply list_elem_of_fmap in Hk' as (f & -> & Hf). by exists f. }
    exfalso. assert (Hne : forall f, f ∈ descriptor_fields (DESCRIPTOR pb) -> k ≠ name_key f).
    { intros f Hf ->. apply Hk'. apply list_elem_of_fmap. by exists f. }
    rewrite Hother in Hk by done. rewrite Hout in Hk; [done|].
    intros fv Hfv. destruct (Hlisted _ Hfv) as [Hf _]. by apply Hne.
Qed.

End Fields.

(** ** Data of a type *)

Section Typed.
Context {Descriptor FieldDescriptor Message : Type} `{!ProtobufRuntime Descriptor FieldDescriptor Message}.
Implicit Types (f : FieldDescriptor) (D : Descriptor).

(** The values that a scalar field holds as they are; of the numbers of a [float] the whole ones of 24 bits
    are taken. *)
Definition scalar_typed (t : FieldType) (v : PyData) : bool :=
  match t, v with
  | TYPE_DOUBLE, PFloat _ | TYPE_BOOL, PBool _ | TYPE_STRING, PStr _ | TYPE_BYTES, PBytes _ => true
  | TYPE_FLOAT, PFloat q => (Zpos (Qden q) =? 1) && (Z.abs (Qnum q) <=? 2 ^ 24)
  | (TYPE_INT64 | TYPE_UINT64 | TYPE_INT32 | TYPE_FIXED64 | TYPE_FIXED32 | TYPE_UINT32 | TYPE_SFIXED32
    | TYPE_SFIXED64 | TYPE_SINT32 | TYPE_SINT64), PInt _ => true
  | _, _ => false
  end.

Definition is_timestamp f : bool :=
  match fd_message_type f with Some D => String.eqb (message_name D) Timestamp_type_name | None => false end.

(** A value of a field, an item of a repeated field or a value of a map, whose enums have no labels *)
Definition typed_element (rec : Descriptor -> PyData -> bool) (labels : bool) f (v : PyData) : bool :=
  match fd_type f with
  | TYPE_MESSAGE => negb (is_timestamp f) && match fd_message_type f with Some D => rec D v | None => false end
  | TYPE_ENUM =>
      match v with
      | PStr l => labels && existsb (fun e => String.eqb e.1 l) (fd_enum f)
      | PInt z => existsb (fun e => e.2 =? z) (fd_enum f)
      | _ => false
      end
  | t => scalar_typed t v
  end.

Definition typed_key (t : FieldType) (k : Key) : bool := scalar_typed t (key_data k).

Definition typed_field (rec : Descriptor -> PyData -> bool) f (v : PyData) : bool :=
  negb (fd_is_extension f) &&
  match fd_repeated f, map_entry_type f, v with
  | true, None, PList l => negb (in_oneof f) && forallb (typed_element rec true f) l
  | true, Some entry, PDict d =>
      negb (in_oneof f) && bool_decide (fd_type f = TYPE_MESSAGE) && bool_decide (NoDup (dkeys d)) &&
      match field_by_name entry "key", field_by_name entry "value" with
      | Some key, Some value =>
          forallb (fun kv => typed_key (fd_type key) kv.1 && typed_element rec false value kv.2) d
      | _, _ => false
      end
  | false, None, PDatetime _ => bool_decide (fd_type f = TYPE_MESSAGE) && is_timestamp f
  | false, None, v => typed_element rec true f v
  | _, _, _ => false
  end.

(** The oneofs that the keys of a datum set *)
Definition oneofs_of D (d : dict Key PyData) : list string :=
  omap (fun kv => match kv.1 with KStr name => field_by_name D name ≫= fd_containing_oneof | _ => None end) d.

(** The data of a message: each key is the name of a field and has a value of its type, and of the members of
    a oneof there is one at most. A [datetime] is the value of a singular timestamp. *)
Fixpoint typed D (v : PyData) {struct v} : bool :=
  match v with
  | PDict d =>
      bool_decide (NoDup (dkeys d)) && bool_decide (NoDup (oneofs_of D d)) &&
      forallb (fun kv =>
        match kv.1 with
        | KStr name =>
            negb (String.eqb name EXTENSION_CONTAINER) &&
            match field_by_name D name with Some f => typed_field typed f kv.2 | None => false end
        | _ => false
        end) d
  | _ => false
  end.

(** ** What a datum is read back as *)

(** What a field that is not set is read as: nothing for a member of a oneof and a submessage, an empty
    container for a repeated field, else its default, by the label for an enum *)
Definition reads_default f (o : option PyData) : Prop :=
  if in_oneof f || negb (fd_repeated f) && cpp_message f then o = None
  else if fd_repeated f then o = Some (if _is_map_entry f then PDict [] else PList [])
  else if bool_decide (fd_type f = TYPE_ENUM)
  then exists l z, fd_default f = PInt z /\ (l, z) ∈ fd_enum f /\ o = Some (PStr l)
  else o = Some (fd_default f).

Inductive reads : Descriptor -> PyData -> PyData -> Prop :=
  | reads_message D d r :
      (forall f, f ∈ descriptor_fields D -> reads_field f (dget (KStr (fd_name f)) d) (dget (KStr (fd_name f)) r)) ->
      (forall k, k ∈ dkeys r -> exists f, f ∈ descriptor_fields D /\ k = KStr (fd_name f)) ->
      reads D (PDict d) (PDict r)
with reads_field : FieldDescriptor -> option PyData -> option PyData -> Prop :=
  | reads_unset f o : reads_default f o -> reads_field f None o
  | reads_map f entry value d r :
      fd_repeated f = true -> map_entry_type f = Some entry -> field_by_name entry "value" = Some value ->
      (forall k, k ∈ dkeys r <-> k ∈ dkeys d) ->
      (forall k v w, dget k d = Some v -> dget k r = Some w -> reads_element value v w) ->
      reads_field f (Some (PDict d)) (Some (PDict r))
  | reads_repeated f l r :
      fd_repeated f = true -> map_entry_type f = None -> Forall2 (reads_element f) l r ->
      reads_field f (Some (PList l)) (Some (PList r))
  | reads_singular f v w : fd_repeated f = false -> reads_element f v w -> reads_field f (Some v) (Some w)
  (** A submessage that reads as an empty one need not be there. *)
  | reads_blank f D v w :
      fd_repeated f = false -> fd_type f = TYPE_MESSAGE -> fd_message_type f = Some D ->
      reads D v w -> reads D (PDict []) w -> reads_field f (Some v) None
with reads_element : FieldDescriptor -> PyData -> PyData -> Prop :=
  | reads_submessage f D v w :
      fd_type f = TYPE_MESSAGE -> is_timestamp f = false -> fd_message_type f = Some D -> reads D v w -> reads_element f v w
  | reads_timestamp f t : is_timestamp f = true -> reads_element f (PDatetime t) (PDatetime t)
  | reads_label f l l' z :
      fd_type f = TYPE_ENUM -> (l, z) ∈ fd_enum f -> (l', z) ∈ fd_enum f -> reads_element f (PStr l) (PStr l')
  | reads_number f l z : fd_type f = TYPE_ENUM -> (l, z) ∈ fd_enum f -> reads_element f (PInt z) (PStr l)
  | reads_scalar f v : scalar_typed (fd_type f) v = true -> reads_element f v v.
End Typed.

(** ** What the runtime promises *)

Section Laws.
Context {Descriptor FieldDescriptor Message : Type} `{!ProtobufRuntime Descriptor FieldDescriptor Message}.
Context (new_message : Descriptor -> Message).
Implicit Types (f g : FieldDescriptor) (D : Descriptor) (m c : Message).

(** What a message holds for a field, when the field is set *)
Definition content m f : option (FieldValue Message) :=
  snd <$> List.find (fun fv => String.eqb (fd_name fv.1) (fd_name f)) (ListFields m).

Definition same_oneof f g : Prop := is_Some (fd_containing_oneof f) /\ fd_containing_oneof f = fd_containing_oneof g.

(** [m'] is [m] with the content [x] for a field; the other members of its oneof may have been cleared. *)
Definition changes m f (x : option (FieldValue Message)) m' : Prop :=
  DESCRIPTOR m' = DESCRIPTOR m /\ well_listed m' /\ content m' f = x /\
  forall g, g ∈ descriptor_fields (DESCRIPTOR m) -> fd_name g ≠ fd_name f ->
    content m' g = content m g \/ (same_oneof f g /\ content m' g = None).

(** The items of a repeated field and the entries of a map; without any the field is not set. *)
Definition items m f (l : list (Element Message)) : Prop := content m f = (match l with [] => None | _ => Some (Repeated l) end).
Definition entries m f (d : list (Key * Element Message)) : Prop :=
  NoDup (dkeys d) /\ content m f = (match d with [] => None | _ => Some (MapValue d) end).

(** A value the runtime stores as it is *)
Definition storable f (v : PyData) : Prop :=
  if bool_decide (fd_type f = TYPE_ENUM) then exists l z, v = PInt z /\ (l, z) ∈ fd_enum f
  else scalar_typed (fd_type f) v = true.

Record field_of m f : Prop := mkFieldOf {
  of_listed : well_listed m;
  of_type : f ∈ descriptor_fields (DESCRIPTOR m);
}.

(** The documented behaviour of messages. A scalar without a oneof that is given its default may stay unset;
    a submessage in which nothing has been set may stay absent. *)
Class MessageLaws : Prop := {
  fields_named D : NoDup (map fd_name (descriptor_fields D));
  message_types f : cpp_message f = false -> fd_message_type f = None;
  enum_default f : fd_type f = TYPE_ENUM -> storable f (fd_default f);
  new_message_of D : DESCRIPTOR (new_message D) = D;
  new_message_empty D : ListFields (new_message D) = [];
  set_scalar m f v m' : set_field m f v = Ok m' -> field_of m f -> storable f v ->
    changes m f (Some (Single (Scalar v))) m' \/ in_oneof f = false /\ v = fd_default f /\ changes m f None m';
  get_unset m f D : field_of m f -> content m f = None -> fd_message_type f = Some D -> get_message m f = new_message D;
  put_submessage m f c : field_of m f -> changes m f (Some (Single (Submessage c))) (put_message m f c) \/
    ListFields c = [] /\ changes m f None (put_message m f c);
  set_timestamp m f t m' : copy_timestamp m f t = Ok m' -> field_of m f ->
    exists c, ToDatetime c = Ok t /\ changes m f (Some (Single (Submessage c))) m';
  append_scalar m f l v m' : append_value m f v = Ok m' -> field_of m f -> items m f l -> storable f v ->
    changes m f (Some (Repeated (l ++ [Scalar v]))) m';
  new_item m f D : fd_message_type f = Some D -> new_element m f = new_message D;
  add_item m f l c : field_of m f -> items m f l -> changes m f (Some (Repeated (l ++ [Submessage c]))) (add_element m f c);
  new_map_item m f d entry value D k c : map_message m f k = Ok c -> field_of m f -> entries m f d -> k ∉ dkeys d ->
    map_entry_type f = Some entry -> field_by_name entry "value" = Some value -> fd_message_type value = Some D ->
    c = new_message D;
  put_map_item m f d k c : field_of m f -> entries m f d -> k ∉ dkeys d ->
    exists d', d' ≡ₚ (k, Submessage c) :: d /\ changes m f (Some (MapValue d')) (put_map_message m f k c);
  set_map_item m f d entry value k v m' : set_map_value m f k v = Ok m' -> field_of m f -> entries m f d -> k ∉ dkeys d ->
    map_entry_type f = Some entry -> field_by_name entry "value" = Some value -> storable value v ->
    exists d', d' ≡ₚ (k, Scalar v) :: d /\ changes m f (Some (MapValue d')) m';
}.

(** ** Contents *)

Lemma changes_same m f : field_of m f -> changes m f (content m f) m.
Proof. intros [Hw _]. split_and!; try done. auto. Qed.

Lemma changes_trans m f x m' y m'' : changes m f x m' -> changes m' f y m'' -> changes m f y m''.
Proof.
  intros (Hd & _ & _ & Ho) (Hd' & Hw & Hc & Ho'). split_and!; [congruence|done..|].
  intros g Hg Hn. destruct (Ho' g) as [He|]; [congruence|done| |by right]. rewrite He. by apply Ho.
Qed.

Lemma changes_field_of m f x m' g : changes m f x m' -> field_of m g -> field_of m' g.
Proof. intros (Hd & Hw & _) [_ Hg]. split; [done|]. by rewrite Hd. Qed.

Lemma content_listed m f v : field_of m f -> content m f = Some v -> (f, v) ∈ ListFields m.
Proof.
  intros [Hw Hf] Hc. unfold content in Hc. destruct (List.find _ _) as [[g v']|] eqn:E; [|done]. injection Hc as ->.
  apply List.find_some in E as [Hin Hn%String.eqb_eq]. apply list_elem_of_In in Hin. simpl in Hn.
  pose proof Hw as (_ & _ & Hl). rewrite Forall_forall in Hl. destruct (Hl _ Hin) as [Hg _].
  by rewrite (same_name_field m f g Hw Hf Hg).
Qed.

Lemma listed_content m f v : well_listed m -> (f, v) ∈ ListFields m -> content m f = Some v.
Proof.
  intros (_ & Hnd & _) Hin. unfold content. revert Hnd Hin. generalize (ListFields m). induction l as [|[g w] l IH]; simpl; [by rewrite elem_of_nil|].
  intros [Hni Hnd]%NoDup_cons [[= -> ->]|Hin]%elem_of_cons; [by rewrite String.eqb_refl|].
  destruct (String.eqb (fd_name g) (fd_name f)) eqn:E; [|auto]. apply String.eqb_eq in E. exfalso. apply Hni.
  rewrite E. apply list_elem_of_fmap. by exists (f, v).
Qed.

Lemma unlisted_content m f : field_of m f -> content m f = None -> forall v, (f, v) ∉ ListFields m.
Proof. intros [Hw _] Hc v Hin. rewrite (listed_content m f v Hw Hin) in Hc. done. Qed.

Section Populated.
Context `{!MessageLaws} `{!DateParser}.

Lemma new_field_of D f : f ∈ descriptor_fields D -> field_of (new_message D) f.
Proof.
  intros Hf. split; [|by rewrite new_message_of]. unfold well_listed. rewrite new_message_of, new_message_empty.
  split_and!; [apply fields_named|constructor..].
Qed.

Lemma new_content D f : content (new_message D) f = None.
Proof. unfold content. by rewrite new_message_empty. Qed.

(** ** Reading a message *)

Definition message_dict (n : nat) : Message -> result PyData := protobuf_to_dict n true true false.
Definition adaptor (n : nat) : FieldDescriptor -> result (Element Message -> result PyData) :=
  _get_field_value_adaptor (message_dict n) true false.

(** An element of a field is read as what [v] is to be read as. *)
Definition elem n f (e : Element Message) (v : PyData) : Prop :=
  exists conv w, adaptor n f = Ok conv /\ conv e = Ok w /\ reads_element f v w.

(** The content of a field is read as what the value [ov] of a datum, if any, is to be read as. *)
Definition slot n f (x : option (FieldValue Message)) (ov : option PyData) : Prop :=
  match x with
  | Some fv => exists w, field_data (adaptor n) f fv = Ok w /\ reads_field f ov (Some w)
  | None => forall o, reads_default f o -> reads_field f ov o
  end.

Lemma enum_label_found f z : (exists l, (l, z) ∈ fd_enum f) ->
  exists l, enum_label_name f (PInt z) false = Ok (PStr l) /\ (l, z) ∈ fd_enum f.
Proof.
  intros [l Hl]. unfold enum_label_name. simpl. destruct (List.find _ _) as [[l' z']|] eqn:E.
  - apply List.find_some in E as [Hin Hz%Z.eqb_eq]. simpl in Hz. subst z'. exists l'. split; [done|by apply list_elem_of_In].
  - apply List.find_none with (x := (l, z)) in E; [|by apply list_elem_of_In]. simpl in E. lia.
Qed.

Lemma storable_enum f v : fd_type f = TYPE_ENUM -> storable f v -> exists z, v = PInt z /\ exists l, (l, z) ∈ fd_enum f.
Proof. intros Ht. unfold storable. rewrite Ht. simpl. naive_solver. Qed.

(** The default of a field is read as it should be. *)
Lemma default_data_reads f : match default_data true false f with
  | None => reads_default f None
  | Some x => exists y, x = Ok y /\ reads_default f (Some y)
  end.
Proof.
  unfold default_data, reads_default. rewrite (orb_comm (in_oneof f)). destruct (_ || _) eqn:Hs; [done|].
  apply orb_false_iff in Hs as [Hs _]. destruct (fd_repeated f) eqn:Hr; [by destruct (_is_map_entry f); eexists|].
  simpl in Hs. assert (Hm : _is_map_entry f = false).
  { unfold cpp_message in Hs. apply orb_false_iff in Hs as [Hs _]. unfold _is_map_entry. by rewrite Hs. }
  rewrite Hm. destruct (bool_decide (fd_type f = TYPE_ENUM)) eqn:Ht; simpl; [|by eexists].
  apply bool_decide_eq_true in Ht. destruct (storable_enum f _ Ht (enum_default f Ht)) as (z & Hz & Hl).
  rewrite Hz. destruct (enum_label_found f z Hl) as (l & -> & Hin). eauto 10.
Qed.

Lemma add_fields_total n l acc : Forall (fun fv => exists w, field_data (adaptor n) fv.1 fv.2 = Ok w) l ->
  exists r, fold_res (add_field (adaptor n)) l acc = Ok r.
Proof.
  intros Hl. revert acc. induction Hl as [|[f v] l (w & Hw) _ IH]; intros acc; simpl in *; [by eexists|]. rewrite Hw. apply IH.
Qed.

Lemma add_defaults_total l acc : exists r, fold_res (add_default true false) l acc = Ok r.
Proof.
  revert acc. induction l as [|f l IH]; intros acc; simpl; [by eexists|].
  assert (Ha : exists acc', add_default true false acc f = Ok acc').
  { pose proof (default_data_reads f) as Hd. unfold default_data in Hd. unfold add_default.
    destruct (_ && cpp_message f); [by eexists|]. simpl in Hd. destruct (in_oneof f); [by eexists|].
    destruct (din _ acc); [by eexists|]. destruct (_is_map_entry f); [by eexists|].
    destruct (fd_repeated f); [by eexists|]. destruct (_ && true); [|by eexists].
    destruct Hd as (y & -> & _). by eexists. }
  destruct Ha as [acc' ->]. apply IH.
Qed.

(** A message whose contents are read as the values of a datum is read as the datum. *)
Lemma message_dict_reads n m d : well_listed m ->
  (forall f, f ∈ descriptor_fields (DESCRIPTOR m) -> slot n f (content m f) (dget (KStr (fd_name f)) d)) ->
  exists r, message_dict (S n) m = Ok r /\ reads (DESCRIPTOR m) (PDict d) r.
Proof.
  intros Hw Hs. pose proof Hw as (_ & _ & Hl).
  assert (Hr : exists r, message_dict (S n) m = Ok (PDict r)).
  { unfold message_dict. cbn [protobuf_to_dict].
    destruct (add_fields_total n (ListFields m) ([], [])) as [acc Hacc].
    { rewrite Forall_forall in Hl |- *. intros [f v] Hin. destruct (Hl _ Hin) as [Hf _]. specialize (Hs f Hf).
      rewrite (listed_content m f v Hw Hin) in Hs. destruct Hs as (w & Hwd & _). by exists w. }
    unfold adaptor, message_dict in Hacc. rewrite Hacc. cbn [mbind result_bind].
    destruct acc as [set_fields extensions]. cbn [fst snd].
    destruct (add_defaults_total (descriptor_fields (DESCRIPTOR m)) set_fields) as [r ->]. by eexists. }
  destruct Hr as [r Hr]. exists (PDict r). split; [done|].
  destruct (protobuf_dict_fields n true false m r Hw Hr) as (Hset & Hunset & Hkeys). constructor; [|done].
  intros f Hf. specialize (Hs f Hf). destruct (content m f) as [v|] eqn:Hc.
  - destruct Hs as (w & Hwd & Hrd). destruct (Hset f v) as (w' & Hw' & Hget).
    { apply content_listed; [by split|done]. }
    rewrite Hget. unfold adaptor, message_dict in Hwd. rewrite Hwd in Hw'. by injection Hw' as <-.
  - specialize (Hunset f Hf (unlisted_content m f (mkFieldOf m f Hw Hf) Hc)).
    pose proof (default_data_reads f) as Hd. destruct (default_data true false f) as [x|].
    + destruct Hd as (y & -> & Hd). destruct Hunset as (y' & [= <-] & ->). by apply Hs.
    + rewrite Hunset. by apply Hs.
Qed.

(** *** Elements *)

Lemma scalar_not_message f v : scalar_typed (fd_type f) v = true -> cpp_message f = false /\ fd_type f ≠ TYPE_ENUM.
Proof. unfold cpp_message. destruct (fd_type f); simpl; try done; destruct v; done. Qed.

Lemma adaptor_scalar n f v : scalar_typed (fd_type f) v = true -> elem n f (Scalar v) v.
Proof.
  intros Hv. destruct (scalar_not_message f v Hv) as [Hm He]. unfold elem, adaptor, _get_field_value_adaptor.
  rewrite (message_types f Hm). unfold cpp_message in Hm. apply orb_false_iff in Hm as [-> _].
  rewrite (bool_decide_eq_false_2 _ He). simpl.
  destruct (TYPE_CALLABLE_MAP (fd_type f)) as [g|] eqn:Eg; [|by destruct (fd_type f)].
  eexists _, v. split; [reflexivity|]. split; [|by constructor].
  destruct (fd_type f), v; simpl in *; try done; by injection Eg as <-.
Qed.

Lemma adaptor_enum n f z : fd_type f = TYPE_ENUM -> (exists l, (l, z) ∈ fd_enum f) -> exists l conv,
  adaptor n f = Ok conv /\ conv (Scalar (PInt z)) = Ok (PStr l) /\ (l, z) ∈ fd_enum f.
Proof.
  intros Ht Hl. assert (Hm : cpp_message f = false) by (unfold cpp_message; by rewrite Ht).
  unfold adaptor, _get_field_value_adaptor. rewrite (message_types f Hm), Ht. simpl.
  destruct (enum_label_found f z Hl) as (l & Hf & Hin). eauto.
Qed.

Lemma adaptor_submessage n f D c v w : fd_type f = TYPE_MESSAGE -> is_timestamp f = false -> fd_message_type f = Some D ->
  message_dict n c = Ok w -> reads D v w -> elem n f (Submessage c) v.
Proof.
  intros Ht Hts HD Hc Hr. unfold elem, adaptor, _get_field_value_adaptor. unfold is_timestamp in Hts.
  rewrite HD in Hts |- *. rewrite Hts, Ht. simpl. eexists _, w. split; [reflexivity|]. split; [done|].
  eapply reads_submessage; [done| |done..]. unfold is_timestamp. by rewrite HD.
Qed.

(** What is stored for a value of a field that is no message, and its label *)
Lemma enum_value_stored f v v' rec : typed_element rec true f v = true -> fd_type f ≠ TYPE_MESSAGE ->
  enum_value f v true = Ok v' -> storable f v' /\ forall n, elem n f (Scalar v') v.
Proof.
  intros Hv Hm He. unfold typed_element in Hv. destruct (fd_type f) eqn:Ht; try done;
    try (assert (v' = v) as -> by (unfold enum_value in He; rewrite Ht in He; destruct v; by injection He);
         split; [unfold storable; by rewrite Ht|intros n; apply adaptor_scalar; by rewrite Ht]).
  unfold enum_value in He. rewrite Ht in He. destruct v; try done.
  - injection He as <-. apply List.existsb_exists in Hv as ([l z'] & Hin & Hz%Z.eqb_eq). simpl in Hz. subst z'.
    assert (Hex : exists l, (l, z) ∈ fd_enum f) by (exists l; by apply list_elem_of_In). split.
    + unfold storable. rewrite Ht. simpl. naive_solver.
    + intros n. destruct (adaptor_enum n f z Ht Hex) as (l' & g & Hg & Hgz & Hl'). exists g, (PStr l'). split_and!; try done.
      by constructor.
  - simpl in He. unfold _string_to_enum, enum_number in He. destruct (List.find _ _) as [[l z]|] eqn:E; [|done]. injection He as <-.
    apply List.find_some in E as [Hin Hl%String.eqb_eq]. simpl in Hl. subst l. apply list_elem_of_In in Hin. split.
    + unfold storable. rewrite Ht. simpl. eauto.
    + intros n. destruct (adaptor_enum n f z Ht) as (l' & g & Hg & Hgz & Hl'); [by eexists|]. exists g, (PStr l').
      split_and!; try done. by eapply reads_label.
Qed.

(** What the default of a field, when it is what is stored, is read as *)
Lemma enum_value_reads f v v' rec : typed_element rec true f v = true -> fd_type f ≠ TYPE_MESSAGE ->
  enum_value f v true = Ok v' ->
  if bool_decide (fd_type f = TYPE_ENUM)
  then forall l z, v' = PInt z -> (l, z) ∈ fd_enum f -> reads_element f v (PStr l)
  else v' = v /\ scalar_typed (fd_type f) v = true.
Proof.
  intros Hv Hm He. unfold typed_element in Hv. unfold enum_value in He.
  destruct (fd_type f) eqn:Ht; try done; simpl in *; try (by destruct v; simplify_eq/=; rewrite ?Ht).
  intros l z -> Hin. destruct v; try done; [injection He as ->; by constructor|].
  unfold _string_to_enum, enum_number in He. destruct (List.find _ _) as [[l0 z0]|] eqn:E; [|done]. injection He as ->.
  apply List.find_some in E as [Hin0 Hl%String.eqb_eq]. simpl in Hl. subst l0. apply list_elem_of_In in Hin0.
  by eapply reads_label.
Qed.

(** ** Populating a message *)

Lemma dset_new {K V} `{EqDecision K} (k : K) (v : V) (d : dict K V) : k ∉ dkeys d -> dset k v d = d ++ [(k, v)].
Proof.
  induction d as [|[k' v'] d IH]; intros Hk; simpl in *; [done|]. apply not_elem_of_cons in Hk as [Hne Hk].
  rewrite decide_False by congruence. by rewrite IH.
Qed.

(** The entries of a map, converted one by one *)
Lemma map_data (conv : Element Message -> result PyData) (d : list (Key * Element Message)) acc :
  NoDup (dkeys acc ++ dkeys d) -> Forall (fun ke => exists w, conv ke.2 = Ok w) d ->
  exists r, fold_res (fun d kv => v ← conv kv.2; Ok (dset kv.1 v d)) d acc = Ok (acc ++ r) /\
    Forall2 (fun ke kw => ke.1 = kw.1 /\ conv ke.2 = Ok kw.2) d r.
Proof.
  revert acc. induction d as [|[k e] d IH]; intros acc Hnd Hc; simpl.
  - exists []. by rewrite app_nil_r.
  - apply Forall_cons in Hc as [(w & Hw) Hc]. simpl in Hw. rewrite Hw. simpl in *.
    rewrite dset_new by (intros Hin; apply NoDup_app in Hnd as (_ & Hd & _); apply (Hd k Hin); by left).
    destruct (IH (acc ++ [(k, w)])) as (r & Hr & HF); [|done|].
    { unfold dkeys in *. rewrite map_app. simpl. by rewrite <- app_assoc. }
    exists ((k, w) :: r). rewrite Hr. split; [by rewrite <- app_assoc|]. by constructor.
Qed.

Section Step.
Context (n : nat).
Let populate : Message -> PyData -> result Message := _dict_to_protobuf [] true false [] n.

(** The recursive calls populate messages that are read as their data. *)
Hypothesis IH : forall D v c, typed D v = true -> populate (new_message D) v = Ok c ->
  DESCRIPTOR c = D /\ exists w, message_dict n c = Ok w /\ reads D v w.

Lemma item_step_changes m f l v m' : field_of m f -> items m f l ->
  typed_element typed true f v = true -> item_step true populate f m v = Ok m' ->
  exists e, changes m f (Some (Repeated (l ++ [e]))) m' /\ elem n f e v.
Proof.
  intros Hf Hl Hv Hs. unfold item_step in Hs. destruct (decide (fd_type f = TYPE_MESSAGE)) as [Ht|Ht].
  - rewrite bool_decide_eq_true_2 in Hs by done. unfold typed_element in Hv. rewrite Ht in Hv.
    apply andb_prop in Hv as [Hts%negb_true_iff Hv]. destruct (fd_message_type f) as [D|] eqn:HD; [|done].
    rewrite (new_item m f D HD) in Hs. apply bind_Ok in Hs as (c & Hc & [= <-]).
    destruct (IH D v c Hv Hc) as (_ & w & Hw & Hr). exists (Submessage c). split; [by apply add_item|].
    by eapply adaptor_submessage.
  - rewrite bool_decide_eq_false_2 in Hs by done. apply bind_Ok in Hs as (v' & Hv' & Hs).
    destruct (enum_value_stored f v v' typed Hv Ht Hv') as [Hst He]. exists (Scalar v'). split; [|apply He].
    by eapply append_scalar.
Qed.

Lemma items_fold f vs m m' l : fold_res (item_step true populate f) vs m = Ok m' -> field_of m f -> items m f l ->
  Forall (fun v => typed_element typed true f v = true) vs ->
  exists l', Forall2 (elem n f) l' vs /\ items m' f (l ++ l') /\ changes m f (content m' f) m'.
Proof.
  revert m l. induction vs as [|v vs IHvs]; intros m l Hs Hf Hl Hv; simpl in Hs.
  - injection Hs as <-. exists []. rewrite app_nil_r. split_and!; [constructor|done|by apply changes_same].
  - apply Forall_cons in Hv as [Hv Hvs]. apply bind_Ok in Hs as (m1 & H1 & H2).
    destruct (item_step_changes m f l v m1 Hf Hl Hv H1) as (e & Hch & He).
    destruct (IHvs m1 (l ++ [e]) H2) as (l' & HF & Hl' & Hch'); [by eapply changes_field_of| |done|].
    { destruct Hch as (_ & _ & Hc & _). unfold items. rewrite Hc. by destruct l. }
    exists (e :: l'). rewrite <- app_assoc in Hl'. split_and!; [by constructor|done|by eapply changes_trans].
Qed.

Lemma entry_step_changes m f d entry key value kv m' : field_of m f -> entries m f d -> kv.1 ∉ dkeys d ->
  map_entry_type f = Some entry -> field_by_name entry "value" = Some value ->
  typed_key (fd_type key) kv.1 = true -> typed_element typed false value kv.2 = true ->
  map_entry_step [] false populate f key value m kv = Ok m' ->
  exists e d', d' ≡ₚ (kv.1, e) :: d /\ changes m f (Some (MapValue d')) m' /\ elem n value e kv.2.
Proof.
  intros Hf Hd Hk Hentry Hvalue Htk Hv Hs. unfold map_entry_step in Hs. unfold typed_element in Hv.
  destruct (decide (fd_type value = TYPE_MESSAGE)) as [Ht|Ht].
  - unfold cpp_message in Hs. rewrite Ht in Hs, Hv. simpl in Hs. apply andb_prop in Hv as [Hts%negb_true_iff Hv].
    destruct (fd_message_type value) as [D|] eqn:HD; [|done]. apply bind_Ok in Hs as (c0 & Hc0 & Hs).
    apply bind_Ok in Hs as (c & Hc & [= <-]).
    rewrite (new_map_item m f d entry value D kv.1 c0 Hc0 Hf Hd Hk Hentry Hvalue HD) in Hc.
    destruct (IH D kv.2 c Hv Hc) as (_ & w & Hw & Hr). destruct (put_map_item m f d kv.1 c Hf Hd Hk) as (d' & Hp & Hch).
    exists (Submessage c), d'. split_and!; [done..|]. by eapply adaptor_submessage.
  - assert (Hm : cpp_message value = false).
    { unfold cpp_message. rewrite (bool_decide_eq_false_2 _ Ht). by destruct (fd_type value). }
    rewrite Hm in Hs. simpl in Hs. unfold try_assign, reraise, convert in Hs. simpl in Hs.
    assert (Hmk : map_key (key_data kv.1) = Ok kv.1) by by destruct kv.1.
    rewrite Hmk in Hs. simpl in Hs. destruct (set_map_value m f kv.1 kv.2) as [m1|] eqn:Hset; [|done]. injection Hs as ->.
    assert (Hst : storable value kv.2 /\ elem n value (Scalar kv.2) kv.2).
    { destruct (decide (fd_type value = TYPE_ENUM)) as [He|He].
      - rewrite He in Hv. destruct kv.2 as [| |z| | | | | |]; try done. apply List.existsb_exists in Hv as ([l z'] & Hin & Hz%Z.eqb_eq).
        simpl in Hz. subst z'. assert (Hex : exists l, (l, z) ∈ fd_enum value) by (exists l; by apply list_elem_of_In).
        split; [unfold storable; rewrite He; simpl; naive_solver|].
        destruct (adaptor_enum n value z He Hex) as (l' & conv & Hg & Hgz & Hl'). exists conv, (PStr l'). split_and!; [done..|by constructor].
      - assert (Hsc : scalar_typed (fd_type value) kv.2 = true) by by destruct (fd_type value).
        split; [unfold storable; by rewrite bool_decide_eq_false_2|by apply adaptor_scalar]. }
    destruct Hst as [Hst Hel]. destruct (set_map_item m f d entry value kv.1 kv.2 m' Hset Hf Hd Hk Hentry Hvalue Hst) as (d' & Hp & Hch).
    by exists (Scalar kv.2), d'.
Qed.

Lemma entries_fold f entry key value kvs m m' d : fold_res (map_entry_step [] false populate f key value) kvs m = Ok m' ->
  field_of m f -> entries m f d -> map_entry_type f = Some entry -> field_by_name entry "value" = Some value ->
  NoDup (dkeys d ++ dkeys kvs) ->
  Forall (fun kv => typed_key (fd_type key) kv.1 = true /\ typed_element typed false value kv.2 = true) kvs ->
  exists es d', Forall2 (fun ke kv => ke.1 = kv.1 /\ elem n value ke.2 kv.2) es kvs /\ d' ≡ₚ es ++ d /\
    entries m' f d' /\ changes m f (content m' f) m'.
Proof.
  intros Hs Hf Hd Hentry Hvalue. revert m d Hs Hf Hd. induction kvs as [|kv kvs IHk]; intros m d Hs Hf Hd Hnd Hv; simpl in Hs.
  - injection Hs as <-. exists [], d. split_and!; [constructor|done|done|by apply changes_same].
  - apply Forall_cons in Hv as [[Hk Hv] Hvs]. apply bind_Ok in Hs as (m1 & H1 & H2). simpl in Hnd.
    assert (Hfresh : kv.1 ∉ dkeys d).
    { intros Hin. apply NoDup_app in Hnd as (_ & Hdis & _). apply (Hdis _ Hin). by left. }
    destruct (entry_step_changes m f d entry key value kv m1 Hf Hd Hfresh Hentry Hvalue Hk Hv H1) as (e & d1 & Hp & Hch & He).
    assert (Hkeys : dkeys d1 ≡ₚ kv.1 :: dkeys d) by (unfold dkeys; by rewrite Hp).
    assert (Hnd1 : NoDup (dkeys d1 ++ dkeys kvs)) by (rewrite Hkeys; by rewrite <- Permutation_middle in Hnd).
    destruct (IHk m1 d1 H2) as (es & d' & HF & Hp' & Hd' & Hch'); [by eapply changes_field_of| |done|done|].
    { destruct Hch as (_ & _ & Hc & _). split; [by apply NoDup_app in Hnd1 as [? _]|]. rewrite Hc. destruct d1; [|done].
      by apply Permutation_nil in Hp. }
    exists ((kv.1, e) :: es), d'. split_and!; [by constructor| |done|by eapply changes_trans].
    rewrite Hp', Hp. simpl. by rewrite Permutation_middle.
Qed.

(** *** The content of a field *)

Lemma default_container f o : fd_repeated f = true -> in_oneof f = false -> reads_default f o ->
  o = Some (if _is_map_entry f then PDict [] else PList []).
Proof. unfold reads_default. by intros -> ->. Qed.

Lemma slot_items f l vs x : fd_repeated f = true -> map_entry_type f = None -> in_oneof f = false ->
  Forall2 (elem n f) l vs -> x = (match l with [] => None | _ => Some (Repeated l) end) -> slot n f x (Some (PList vs)).
Proof.
  intros Hr Hm Ho HF ->. destruct l as [|e l].
  - inv HF. intros o Hd. rewrite (default_container f o Hr Ho Hd). unfold _is_map_entry. rewrite Hm, andb_false_r.
    by apply reads_repeated.
  - assert (Hws : exists conv ws, adaptor n f = Ok conv /\ map_res conv (e :: l) = Ok ws /\ Forall2 (reads_element f) vs ws).
    { assert (exists conv, adaptor n f = Ok conv) as [conv Hconv]
        by (inversion HF as [|? ? ? ? (conv & ? & Hconv & _)]; by exists conv). exists conv.
      assert (exists ws, map_res conv (e :: l) = Ok ws /\ Forall2 (reads_element f) vs ws) as (ws & ? & ?); [|by exists ws].
      clear -HF Hconv. induction HF as [|e' v l' vs' (conv' & w & Hc & Hw & Hrd) _ IHF]; [by exists []|].
      rewrite Hconv in Hc. injection Hc as <-. destruct IHF as (ws & Hws & HF). exists (w :: ws). simpl. rewrite Hw, Hws.
      split; [done|by constructor]. }
    destruct Hws as (conv & ws & Hconv & Hws & HF'). exists (PList ws). unfold field_data. rewrite Hm, Hconv, Hr.
    cbn [mbind result_bind]. rewrite Hws. split; [done|by apply reads_repeated].
Qed.

Lemma slot_entries f entry value es d' kvs x : fd_repeated f = true -> map_entry_type f = Some entry -> in_oneof f = false ->
  fd_type f = TYPE_MESSAGE -> field_by_name entry "value" = Some value -> NoDup (dkeys kvs) -> NoDup (dkeys d') ->
  Forall2 (fun ke kv => ke.1 = kv.1 /\ elem n value ke.2 kv.2) es kvs -> d' ≡ₚ es ->
  x = (match d' with [] => None | _ => Some (MapValue d') end) -> slot n f x (Some (PDict kvs)).
Proof.
  intros Hr Hm Ho Ht Hvalue Hnd Hnd' HF Hp ->. destruct d' as [|e0 d'].
  - apply Permutation_nil_l in Hp. subst es. inv HF. intros o Hd. rewrite (default_container f o Hr Ho Hd).
    unfold _is_map_entry. rewrite Hm, Ht. simpl. by eapply reads_map.
  - assert (He : forall ke, ke ∈ e0 :: d' -> exists v, (ke.1, v) ∈ kvs /\ elem n value ke.2 v).
    { intros ke Hin. rewrite Hp in Hin. apply list_elem_of_lookup in Hin as [i Hi].
      destruct (Forall2_lookup_l _ _ _ _ _ HF Hi) as ([k v] & Hkv & Hk & Hel). simpl in *. exists v. rewrite Hk.
      split; [by eapply list_elem_of_lookup_2|done]. }
    destruct (He e0) as (v0 & _ & conv & w0 & Hconv & _); [by left|].
    destruct (map_data conv (e0 :: d') []) as (r & Hfold & HFr); [done| |].
    { apply Forall_forall. intros ke Hin. destruct (He ke Hin) as (v & _ & conv' & w & Hc & Hw & _).
      rewrite Hconv in Hc. injection Hc as <-. by exists w. }
    assert (Hkeys : dkeys r = dkeys (e0 :: d')).
    { clear -HFr. unfold dkeys. induction HFr as [|ke kw l l' [Hk _] _ IHF]; [done|]. simpl. by rewrite Hk, IHF. }
    assert (Hkeys' : dkeys es = dkeys kvs).
    { clear -HF. unfold dkeys. induction HF as [|ke kw l l' [Hk _] _ IHF]; [done|]. simpl. by rewrite Hk, IHF. }
    exists (PDict r). unfold field_data. rewrite Hm, Hvalue. cbn [mbind result_bind]. rewrite Hconv. cbn [mbind result_bind].
    rewrite Hfold. split; [done|]. eapply reads_map; [done..| |].
    + intros k. rewrite Hkeys, <- Hkeys'. unfold dkeys. by rewrite Hp.
    + intros k v w Hv Hw. apply dget_In in Hw. apply list_elem_of_lookup in Hw as [i Hi].
      destruct (Forall2_lookup_r _ _ _ _ _ HFr Hi) as ([k' e] & Hke & Hk & Hcv). simpl in *. subst k'.
      destruct (He (k, e)) as (v' & Hv' & conv' & w' & Hc & Hw' & Hrd); [by eapply list_elem_of_lookup_2|]. simpl in *.
      rewrite Hconv in Hc. injection Hc as <-. rewrite Hcv in Hw'. injection Hw' as <-.
      apply (In_dget k v' kvs Hnd) in Hv'. rewrite Hv in Hv'. by injection Hv' as ->.
Qed.

(** *** Singular fields *)

(** A value that is no [datetime] *)
Lemma singular_step m f v : fd_repeated f = false -> (forall t, v ≠ PDatetime t) ->
  field_step [] true false [] populate m (f, v) =
  if bool_decide (fd_type f = TYPE_MESSAGE) then c ← populate (get_message m f) v; Ok (put_message m f c)
  else if fd_is_extension f then set_field m f v else v' ← enum_value f v true; try_assign (set_field m f v').
Proof.
  intros Hr Ht. unfold field_step. cbn [andb]. rewrite Hr. unfold convert.
  destruct v; try (by edestruct Ht); rewrite (bool_decide_eq_false_2 (fd_name f ∈ [])) by apply not_elem_of_nil; done.
Qed.

Lemma singular_changes m f v m' : field_of m f -> content m f = None -> fd_repeated f = false -> map_entry_type f = None ->
  fd_is_extension f = false -> (forall t, v ≠ PDatetime t) -> typed_element typed true f v = true ->
  field_step [] true false [] populate m (f, v) = Ok m' -> exists x, changes m f x m' /\ slot n f x (Some v).
Proof.
  intros Hf Hc Hr Hm Hx Hnt Hv. rewrite singular_step by done. rewrite Hx.
  assert (Hslot : forall e, elem n f e v -> slot n f (Some (Single e)) (Some v)).
  { intros e (conv & w & Hconv & Hw & Hrd). exists w. unfold field_data. rewrite Hm, Hconv, Hr. split; [done|by apply reads_singular]. }
  destruct (decide (fd_type f = TYPE_MESSAGE)) as [Ht|Ht].
  - rewrite bool_decide_eq_true_2 by done. intros (c & Hpop & [= <-])%bind_Ok.
    unfold typed_element in Hv. rewrite Ht in Hv. apply andb_prop in Hv as [Hts%negb_true_iff Hv].
    destruct (fd_message_type f) as [D|] eqn:HD; [|done]. rewrite (get_unset m f D Hf Hc HD) in Hpop.
    destruct (IH D v c Hv Hpop) as (HDc & w & Hw & Hrd).
    destruct (put_submessage m f c Hf) as [Hch|[Hempty Hch]]; (eexists; split; [exact Hch|]).
    + apply Hslot. by eapply adaptor_submessage.
    + intros o Hd. assert (o = None) as ->.
      { unfold reads_default, cpp_message in Hd. rewrite Hr, Ht, orb_true_r in Hd. exact Hd. }
      destruct n as [|n']; [done|]. eapply reads_blank; [done..|exact Hrd|].
      destruct (message_dict_reads n' c []) as (w' & Hw' & Hrd').
      * unfold well_listed. rewrite Hempty. split_and!; [apply fields_named|constructor..].
      * intros g Hg. unfold content. rewrite Hempty. intros o. apply reads_unset.
      * rewrite Hw in Hw'. injection Hw' as <-. by rewrite HDc in Hrd'.
  - rewrite bool_decide_eq_false_2 by done. intros (v' & He & Hs)%bind_Ok.
    unfold try_assign, reraise in Hs. destruct (set_field m f v') as [m1|] eqn:Hset; [|done]. injection Hs as ->.
    destruct (enum_value_stored f v v' typed Hv Ht He) as [Hst Hel].
    destruct (set_scalar m f v' m' Hset Hf Hst) as [Hch|(Ho & Hdef & Hch)]; (eexists; split; [exact Hch|]); [by apply Hslot|].
    intros o Hd. destruct (Hel n) as (conv & w & Hconv & Hw & Hrd).
    assert (Hcpp : cpp_message f = false).
    { unfold typed_element in Hv. unfold cpp_message. rewrite (bool_decide_eq_false_2 _ Ht). by destruct (fd_type f). }
    unfold reads_default in Hd. rewrite Ho, Hr, Hcpp in Hd. simpl in Hd.
    pose proof (enum_value_reads f v v' typed Hv Ht He) as Hreads.
    destruct (bool_decide (fd_type f = TYPE_ENUM)).
    + destruct Hd as (l & z & Hz & Hin & ->). apply reads_singular; [done|]. apply (Hreads l z); [by rewrite Hdef|done].
    + destruct Hreads as [-> Hsc]. rewrite Hd, <- Hdef. apply reads_singular; [done|]. by apply reads_scalar.
Qed.

Lemma timestamp_changes m f t m' : field_of m f -> fd_repeated f = false -> map_entry_type f = None ->
  is_timestamp f = true -> field_step [] true false [] populate m (f, PDatetime t) = Ok m' ->
  exists x, changes m f x m' /\ slot n f x (Some (PDatetime t)).
Proof.
  intros Hf Hr Hm Hts. unfold field_step. cbn [andb is_none]. rewrite Hr. intros Hs.
  destruct (set_timestamp m f t m' Hs Hf) as (c & Hc & Hch). exists (Some (Single (Submessage c))). split; [done|].
  exists (PDatetime t). unfold field_data, adaptor, _get_field_value_adaptor. rewrite Hm, Hr.
  unfold is_timestamp in Hts. destruct (fd_message_type f) as [D|] eqn:HD; [|done]. rewrite Hts. simpl. rewrite Hc. split; [done|].
  apply reads_singular, reads_timestamp; [done|]. unfold is_timestamp. by rewrite HD.
Qed.

(** One field of the datum, which is not set before *)
Lemma field_step_changes m f v m' : field_of m f -> content m f = None -> typed_field typed f v = true ->
  field_step [] true false [] populate m (f, v) = Ok m' -> exists x, changes m f x m' /\ slot n f x (Some v).
Proof.
  intros Hf Hc Hv Hs. unfold typed_field in Hv. apply andb_prop in Hv as [Hx%negb_true_iff Hv].
  destruct (fd_repeated f) eqn:Hr, (map_entry_type f) as [entry|] eqn:Hm; try done.
  - destruct v as [| | | | | | | |kvs]; try done. rewrite !andb_true_iff in Hv.
    destruct Hv as (((Ho%negb_true_iff & Ht%bool_decide_eq_true) & Hnd%bool_decide_eq_true) & Hv).
    unfold field_step in Hs. rewrite Hr, Hm in Hs. cbn [andb] in Hs.
    destruct (field_by_name entry "key") as [key|]; [|done]. destruct (field_by_name entry "value") as [value|] eqn:Hvalue; [|done].
    destruct (entries_fold f entry key value kvs m m' [] Hs Hf) as (es & d' & HF & Hp & [Hnd' Hd'] & Hch);
      [by split; [constructor|]|done..| |].
    { apply Forall_forall. intros kv Hin. rewrite List.forallb_forall in Hv. apply andb_prop, Hv. by apply list_elem_of_In. }
    exists (content m' f). split; [done|]. rewrite app_nil_r in Hp. by eapply slot_entries.
  - destruct v as [| | | | | | |vs|]; try done. apply andb_prop in Hv as [Ho%negb_true_iff Hv].
    unfold field_step in Hs. rewrite Hr, Hm in Hs. cbn [andb] in Hs.
    destruct (items_fold f vs m m' [] Hs Hf Hc) as (l' & HF & Hl' & Hch).
    { apply Forall_forall. intros v Hin. rewrite List.forallb_forall in Hv. apply Hv. by apply list_elem_of_In. }
    exists (content m' f). split; [done|]. by eapply slot_items.
  - assert (Hdt : (exists t, v = PDatetime t) \/ forall t, v ≠ PDatetime t) by (destruct v; eauto).
    destruct Hdt as [[t ->]|Hnt].
    + apply andb_prop in Hv as [_ Hts]. by apply timestamp_changes.
    + apply singular_changes; try done. by destruct v; try (by edestruct Hnt).
Qed.

(** *** All fields of a datum *)

Definition named (fs : list (FieldDescriptor * PyData)) : list string := map (fun fv => fd_name fv.1) fs.

Lemma same_oneof_fresh f g (fs : list (FieldDescriptor * PyData)) v : NoDup (omap (fun fv => fd_containing_oneof fv.1) ((f, v) :: fs)) ->
  forall w, (g, w) ∈ fs -> ~ same_oneof g f.
Proof.
  simpl. intros Hnd w Hin [[o Ho] He]. rewrite He in Ho. rewrite Ho in Hnd. apply NoDup_cons in Hnd as [Hni _].
  apply Hni, list_elem_of_omap. exists (g, w). split; [done|]. simpl. by rewrite He.
Qed.

Lemma fields_fold fs m m' : fold_res (field_step [] true false [] populate) fs m = Ok m' -> well_listed m ->
  NoDup (named fs) -> NoDup (omap (fun fv => fd_containing_oneof fv.1) fs) ->
  Forall (fun fv => fv.1 ∈ descriptor_fields (DESCRIPTOR m) /\ typed_field typed fv.1 fv.2 = true /\ content m fv.1 = None) fs ->
  DESCRIPTOR m' = DESCRIPTOR m /\ well_listed m' /\
  (forall f v, (f, v) ∈ fs -> slot n f (content m' f) (Some v)) /\
  (forall g, g ∈ descriptor_fields (DESCRIPTOR m) -> fd_name g ∉ named fs ->
     content m' g = content m g \/ (content m' g = None /\ exists f v, (f, v) ∈ fs /\ same_oneof f g)).
Proof.
  revert m. induction fs as [|[f v] fs IHfs]; intros m Hs Hw Hnd Hone Hfs; simpl in Hs.
  { injection Hs as <-. split_and!; [done..| |auto]. by intros f v ?%elem_of_nil. }
  apply Forall_cons in Hfs as [(Hin & Hty & Hc) Hfs]. simpl in Hin, Hty, Hc.
  apply bind_Ok in Hs as (m1 & H1 & H2). simpl in Hnd. apply NoDup_cons in Hnd as [Hni Hnd].
  pose proof (same_oneof_fresh f) as Hfresh.
  destruct (field_step_changes m f v m1 (mkFieldOf m f Hw Hin) Hc Hty H1) as (x & (HD & Hw1 & Hx & Hother) & Hslot).
  assert (Hrest : NoDup (omap (fun fv => fd_containing_oneof fv.1) fs)).
  { simpl in Hone. destruct (fd_containing_oneof f); [by apply NoDup_cons in Hone as [_ Hone]|done]. }
  destruct (IHfs m1 H2 Hw1 Hnd Hrest) as (HD' & Hw' & Hset & Hkeep).
  { rewrite Forall_forall in Hfs |- *. intros [g w] Hg. destruct (Hfs _ Hg) as (Hgin & Hgt & Hgc). simpl in *.
    rewrite HD. split_and!; [done..|]. destruct (Hother g Hgin) as [->|[_ ?]]; [|done..].
    intros He. apply Hni. rewrite <- He. apply list_elem_of_fmap. by exists (g, w). }
  split_and!; [congruence|done|..].
  - intros g w [[= -> ->]|Hg]%elem_of_cons; [|by apply Hset].
    destruct (Hkeep f) as [->|(_ & g & u & Hg & Hsame)]; [by rewrite HD|done|by rewrite Hx|].
    by destruct (Hfresh g fs v Hone u Hg).
  - intros g Hg Hgn. apply not_elem_of_cons in Hgn as [Hne Hgn]. simpl in Hne.
    destruct (Hkeep g) as [Hk|(Hnone & f' & v' & Hf' & Hsame)]; [by rewrite HD|done| |].
    + rewrite Hk. destruct (Hother g Hg Hne) as [?|[Hsame Hnone]]; [by left|]. right. split; [done|]. exists f, v. split; [by left|done].
    + right. split; [done|]. exists f', v'. split; [by right|done].
Qed.

(** The mapping of a datum of the type of a message *)
Lemma mapping_of m d : typed (DESCRIPTOR m) (PDict d) = true -> exists fs,
  _get_field_mapping m (PDict d) true = Ok fs /\
  Forall2 (fun fv kv => kv = (KStr (fd_name fv.1), fv.2) /\ fv.1 ∈ descriptor_fields (DESCRIPTOR m) /\
    typed_field typed fv.1 fv.2 = true) fs d /\
  oneofs_of (DESCRIPTOR m) d = omap (fun fv => fd_containing_oneof fv.1) fs.
Proof.
  cbn [typed]. rewrite !andb_true_iff. intros [_ Ht].
  assert (Hex : dget (KStr EXTENSION_CONTAINER) d = None).
  { apply dget_None. intros Hin. unfold dkeys in Hin. apply list_elem_of_fmap in Hin as (kv & Hk & Hin).
    rewrite List.forallb_forall in Ht. specialize (Ht kv). rewrite <- Hk, String.eqb_refl in Ht.
    apply list_elem_of_In in Hin. specialize (Ht Hin). done. }
  unfold _get_field_mapping. cbn [py_items mbind result_bind]. rewrite Hex. cbn [default from_option py_items mbind result_bind map_res id].
  assert (Hfs : exists fs, map_res (named_field true m) d = Ok (map (fun fv => [fv]) fs) /\
    Forall2 (fun fv kv => kv = (KStr (fd_name fv.1), fv.2) /\ fv.1 ∈ descriptor_fields (DESCRIPTOR m) /\
      typed_field typed fv.1 fv.2 = true) fs d /\
    oneofs_of (DESCRIPTOR m) d = omap (fun fv => fd_containing_oneof fv.1) fs).
  { clear Hex. induction d as [|[k v] d IHd]; [by exists []|]. cbn [forallb] in Ht. apply andb_prop in Ht as [Hk Ht].
    destruct (IHd Ht) as (fs & Hfs & HF & Ho). destruct k as [name| |]; try done. cbn [fst snd] in Hk.
    apply andb_prop in Hk as [Hext%negb_true_iff Hf]. destruct (field_by_name (DESCRIPTOR m) name) as [f|] eqn:Ef; [|done].
    assert (Hname : f ∈ descriptor_fields (DESCRIPTOR m) /\ fd_name f = name).
    { unfold field_by_name in Ef. apply List.find_some in Ef as [Hin Hn%String.eqb_eq]. split; [by apply list_elem_of_In|done]. }
    destruct Hname as [Hin <-]. exists ((f, v) :: fs). split_and!.
    - assert (Hnf : named_field true m (KStr (fd_name f), v) = Ok [(f, v)]).
      { unfold named_field. cbn [fst snd]. rewrite bool_decide_eq_false_2; [by rewrite Ef|].
        intros [= He]. rewrite He, String.eqb_refl in Hext. done. }
      cbn [map_res map]. rewrite Hnf. cbn [mbind result_bind]. by rewrite Hfs.
    - by constructor.
    - transitivity (match fd_containing_oneof f with Some o => o :: oneofs_of (DESCRIPTOR m) d | None => oneofs_of (DESCRIPTOR m) d end);
        [unfold oneofs_of; simpl; by rewrite Ef|]. rewrite Ho. done. }
  destruct Hfs as (fs & -> & HF & Ho). exists fs. split_and!; [|done..]. cbn [mbind result_bind]. f_equal.
  rewrite app_nil_r. clear. induction fs as [|fv fs IHfs]; [done|]. simpl. by rewrite IHfs.
Qed.
End Step.

(** A datum that populates a new message of its type is what the message is read back as. *)
Lemma populated_reads n : forall D v c, typed D v = true -> _dict_to_protobuf [] true false [] n (new_message D) v = Ok c ->
  DESCRIPTOR c = D /\ exists w, message_dict n c = Ok w /\ reads D v w.
Proof.
  induction n as [|n IH]; intros D v m Ht Hp; [done|]. destruct v as [| | | | | | | |d]; try done.
  cbn [_dict_to_protobuf] in Hp. destruct (mapping_of (new_message D) d) as (fs & Hfs & HF & Ho); [by rewrite new_message_of|].
  rewrite Hfs in Hp. cbn [mbind result_bind] in Hp. rewrite new_message_of in HF, Ho.
  cbn [typed] in Ht. rewrite !andb_true_iff, !bool_decide_eq_true in Ht. destruct Ht as [[Hnd Hone] _].
  assert (Hkeys : dkeys d = map KStr (named fs)).
  { clear -HF. unfold dkeys, named. induction HF as [|fv kv fs d [-> _] _ IHF]; [done|]. simpl. by rewrite IHF. }
  destruct (fields_fold n IH fs (new_message D) m Hp) as (HD & Hw & Hset & Hkeep).
  - unfold well_listed. rewrite new_message_of, new_message_empty. split_and!; [apply fields_named|constructor..].
  - rewrite Hkeys in Hnd. by apply NoDup_fmap_1 in Hnd.
  - by rewrite <- Ho.
  - apply Forall_forall. intros fv Hin. apply list_elem_of_lookup in Hin as [i Hi].
    destruct (Forall2_lookup_l _ _ _ _ _ HF Hi) as (kv & _ & _ & Hf & Hty). rewrite new_message_of, new_content. done.
  - rewrite new_message_of in HD, Hkeep. split; [done|]. rewrite <- HD. apply message_dict_reads; [done|]. rewrite HD. intros f Hf.
    destruct (dget (KStr (fd_name f)) d) as [v|] eqn:Hget.
    + apply dget_In in Hget. apply list_elem_of_lookup in Hget as [i Hi].
      destruct (Forall2_lookup_r _ _ _ _ _ HF Hi) as ([f' v'] & Hfv & [= Hn ->] & Hf' & _). simpl in *.
      assert (f = f') as ->.
      { rewrite <- HD in Hf, Hf'. by apply (same_name_field m). }
      apply Hset. by eapply list_elem_of_lookup_2.
    + assert (Hc : content m f = None).
      { destruct (Hkeep f Hf) as [->|[? _]]; [|by rewrite new_content|done]. apply dget_None in Hget. rewrite Hkeys in Hget.
        intros Hin. apply Hget. by apply list_elem_of_fmap_2. }
      rewrite Hc. intros o. apply reads_unset.
Qed.
End Populated.
End Laws.

(** ** A small runtime

    A message has the slots that are set; its type is one of four: a message with an enum, a repeated number,
    a map, a submessage and a timestamp, the submessage, the entry of the map, and the timestamp. *)

Inductive ToyDescriptor : Type := TMain | TInner | TEntry | TStamp.
Inductive ToyField : Type := FColor | FNums | FCounts | FInner | FWhen | FX | FKey | FValue.
#[global] Instance ToyField_eq_dec : EqDecision ToyField.
Proof. solve_decision. Defined.
Inductive ToyMessage : Type := Toy (d : ToyDescriptor) (slots : list (ToyField * FieldValue ToyMessage)).

Definition toy_type (m : ToyMessage) : ToyDescriptor := let '(Toy d _) := m in d.
Definition toy_slots (m : ToyMessage) : dict ToyField (FieldValue ToyMessage) := let '(Toy _ s) := m in s.
Definition toy_new (d : ToyDescriptor) : ToyMessage := Toy d [].
Definition toy_put (m : ToyMessage) (f : ToyField) (x : FieldValue ToyMessage) : ToyMessage := Toy (toy_type m) (dset f x (toy_slots m)).

Definition toy_fields (d : ToyDescriptor) : list ToyField :=
  match d with TMain => [FColor; FNums; FCounts; FInner; FWhen] | TInner => [FX] | TEntry => [FKey; FValue] | TStamp => [] end.
Definition toy_message_type (f : ToyField) : option ToyDescriptor :=
  match f with FCounts => Some TEntry | FInner => Some TInner | FWhen => Some TStamp | _ => None end.
Definition toy_field_type (f : ToyField) : FieldType :=
  match f with FColor => TYPE_ENUM | FCounts | FInner | FWhen => TYPE_MESSAGE | _ => TYPE_INT32 end.
Definition toy_items (m : ToyMessage) (f : ToyField) : list (Element ToyMessage) :=
  match dget f (toy_slots m) with Some (Repeated l) => l | _ => [] end.
Definition toy_entries (m : ToyMessage) (f : ToyField) : dict Key (Element ToyMessage) :=
  match dget f (toy_slots m) with Some (MapValue d) => d | _ => [] end.
Definition toy_submessage (f : ToyField) : ToyMessage := toy_new (default TInner (toy_message_type f)).
Definition toy_scalar (v : PyData) : result PyData :=
  match v with PInt _ => Ok v | _ => Raise TypeError end.

#[global] Instance toy_runtime : ProtobufRuntime ToyDescriptor ToyField ToyMessage := {|
  message_name d := match d with TMain => "M" | TInner => "Inner" | TEntry => "CountsEntry" | TStamp => "Timestamp" end%string;
  map_entry d := match d with TEntry => true | _ => false end;
  descriptor_fields := toy_fields;
  fd_name f := match f with
    | FColor => "color" | FNums => "nums" | FCounts => "counts" | FInner => "inner" | FWhen => "when"
    | FX => "x" | FKey => "key" | FValue => "value" end%string;
  fd_number _ := 1;
  fd_type := toy_field_type;
  fd_repeated f := match f with FNums | FCounts => true | _ => false end;
  fd_message_type := toy_message_type;
  fd_enum f := match f with FColor => [("NONE", 0); ("RED", 1)]%string | _ => [] end;
  fd_default _ := PInt 0;
  fd_containing_oneof _ := None;
  fd_is_extension _ := false;
  fd_options _ := [];
  DESCRIPTOR := toy_type;
  ListFields m := omap (fun f => v ← dget f (toy_slots m); Some (f, v)) (toy_fields (toy_type m));
  extension_by_number _ _ := None;
  ToDatetime m := match m with Toy TStamp [(_, Single (Scalar (PInt t)))] => Ok t | _ => Raise TypeError end;
  get_message m f := match dget f (toy_slots m) with Some (Single (Submessage c)) => c | _ => toy_submessage f end;
  put_message m f c := toy_put m f (Single (Submessage c));
  set_field m f v := v ← toy_scalar v; Ok (toy_put m f (Single (Scalar v)));
  append_value m f v := v ← toy_scalar v; Ok (toy_put m f (Repeated (toy_items m f ++ [Scalar v])));
  new_element m f := toy_submessage f;
  add_element m f c := toy_put m f (Repeated (toy_items m f ++ [Submessage c]));
  map_message m f k := Raise TypeError;
  put_map_message m f k c := toy_put m f (MapValue (dset k (Submessage c) (toy_entries m f)));
  set_map_value m f k v := v ← toy_scalar v; Ok (toy_put m f (MapValue (dset k (Scalar v) (toy_entries m f))));
  copy_timestamp m f t := Ok (toy_put m f (Single (Submessage (Toy TStamp [(FX, Single (Scalar (PInt t)))]))));
|}.

Lemma toy_names (f g : ToyField) : fd_name f = fd_name g -> f = g.
Proof. by destruct f, g. Qed.

Lemma toy_unset f slots l : dget f slots = None ->
  List.find (fun fv : ToyField * FieldValue ToyMessage => String.eqb (fd_name fv.1) (fd_name f))
    (omap (fun f => v ← dget f slots; Some (f, v)) l) = None.
Proof.
  intros E. destruct (List.find _ _) as [[h w]|] eqn:Ef; [|done].
  apply List.find_some in Ef as [Hin%list_elem_of_In Hn%String.eqb_eq]. apply list_elem_of_omap in Hin as (g & _ & Hx).
  destruct (dget g slots) eqn:E'; simplify_eq/=. apply toy_names in Hn. congruence.
Qed.

Lemma toy_content m f : f ∈ toy_fields (toy_type m) -> content m f = dget f (toy_slots m).
Proof.
  unfold content. cbn [ListFields toy_runtime]. generalize (toy_slots m), (toy_fields (toy_type m)).
  intros slots l. induction l as [|g l IHl]; [by rewrite elem_of_nil|]. intros Hf.
  assert (Hskip : f ≠ g -> f ∈ l) by (intros ?; by apply elem_of_cons in Hf as [?|?]).
  cbn [omap list_omap]. destruct (decide (f = g)) as [<-|Hne].
  - destruct (dget f slots) as [v|] eqn:E; cbn [mbind option_bind List.find fst]; [by rewrite String.eqb_refl|].
    by rewrite toy_unset.
  - destruct (dget g slots) as [v|]; cbn [mbind option_bind List.find fst]; [|by apply IHl, Hskip].
    destruct (String.eqb_spec (fd_name g) (fd_name f)) as [Hn|_]; [by apply toy_names in Hn; subst|]. by apply IHl, Hskip.
Qed.

Lemma toy_listed (m : ToyMessage) : well_listed m.
Proof.
  destruct m as [d s]. unfold well_listed. cbn [ListFields DESCRIPTOR descriptor_fields toy_runtime toy_type toy_slots].
  assert (Hnd : NoDup (toy_fields d)) by (destruct d; by apply (bool_decide_unpack _)).
  split; [destruct d; by apply (bool_decide_unpack _)|]. split.
  - revert Hnd. generalize (toy_fields d). induction l as [|f l IHl]; intros Hnd; [constructor|].
    apply NoDup_cons in Hnd as [Hni Hnd]. cbn [omap list_omap].
    destruct (dget f s) as [v|]; cbn [mbind option_bind map fst]; [|by apply IHl]. apply NoDup_cons. split; [|by apply IHl].
    intros Hin. apply list_elem_of_fmap in Hin as ([g w] & Heq & Hin). apply toy_names in Heq.
    apply list_elem_of_omap in Hin as (g' & Hg & Hx). destruct (dget g' s); by simplify_eq/=.
  - apply Forall_forall. intros [g w] Hin. apply list_elem_of_omap in Hin as (g' & Hg & Hx). by destruct (dget g' s); simplify_eq/=.
Qed.

Lemma toy_put_changes m f x : field_of m f -> changes m f (Some x) (toy_put m f x).
Proof.
  intros [_ Hf]. split_and!; [done|apply toy_listed|..].
  - rewrite toy_content by done. apply dget_dset_eq.
  - intros g Hg Hne. left. rewrite !toy_content by done. apply dget_dset_ne. by intros ->.
Qed.

Lemma toy_items_of m f l : field_of m f -> items m f l -> toy_items m f = l.
Proof. intros [_ Hf] Hl. unfold items in Hl. rewrite toy_content in Hl by done. unfold toy_items. rewrite Hl. by destruct l. Qed.

Lemma toy_entries_of m f d : field_of m f -> entries m f d -> toy_entries m f = d.
Proof. intros [_ Hf] [_ Hd]. rewrite toy_content in Hd by done. unfold toy_entries. rewrite Hd. by destruct d. Qed.

#[global] Instance toy_message_laws : MessageLaws toy_new.
Proof.
  split.
  - intros []; by apply (bool_decide_unpack _).
  - by intros [].
  - intros [] Ht; try done. by exists "NONE"%string, 0; split; [|left].
  - done.
  - by intros [].
  - intros m f v m' Hs Hf _. left. simpl in Hs. apply bind_Ok in Hs as (v' & Hv & [= <-]).
    assert (v' = v) as -> by (unfold toy_scalar in Hv; repeat case_match; by simplify_eq). by apply toy_put_changes.
  - intros m f D [_ Hf] Hc HD. rewrite toy_content in Hc by done. simpl. rewrite Hc. unfold toy_submessage.
    simpl in HD. by rewrite HD.
  - intros m f c Hf. left. by apply toy_put_changes.
  - intros m f t m' [= <-] Hf. eexists. split; [|by apply toy_put_changes]. done.
  - intros m f l v m' Hs Hf Hl _. simpl in Hs. apply bind_Ok in Hs as (v' & Hv & [= <-]).
    assert (v' = v) as -> by (unfold toy_scalar in Hv; repeat case_match; by simplify_eq).
    rewrite (toy_items_of m f l Hf Hl). by apply toy_put_changes.
  - intros m f D HD. simpl in *. unfold toy_submessage. by rewrite HD.
  - intros m f l c Hf Hl. simpl. rewrite (toy_items_of m f l Hf Hl). by apply toy_put_changes.
  - done.
  - intros m f d k c Hf Hd Hk. eexists. split; [|by apply toy_put_changes]. rewrite (toy_entries_of m f d Hf Hd).
    rewrite dset_new by done. by rewrite Permutation_app_comm.
  - intros m f d entry value k v m' Hs Hf Hd Hk _ _ _. simpl in Hs. apply bind_Ok in Hs as (v' & Hv & [= <-]).
    assert (v' = v) as -> by (unfold toy_scalar in Hv; repeat case_match; by simplify_eq).
    eexists. split; [|by apply toy_put_changes]. rewrite (toy_entries_of m f d Hf Hd).
    rewrite dset_new by done. by rewrite Permutation_app_comm.
Qed.

