(* ===== verification/ProtoIO.v ===== *)
(** * Protobuf data

    [core/protobuf/io.py]: the class of a message, generated by [protoc] into a directory named after
    the schema, and the datum reader and writer, which run in a child process with it. The generated
    code and the file system are outside: the files a process sees are a dictionary from paths to
    texts, [protoc] and the loading of a module are operations of the class [Codegen], the messages are
    those of [ProtobufRuntime]. A child shares the files with its parent and nothing else, so
    [sys.path], which the child changes, is the same for every child.

    [find_message_name], the indexes and the choice of the message by the writer are in Framing. *)

From stdpp Require Import pretty.
From Stdlib Require Import Strings.Byte.
From S2P Require Import Prelude Typing Models Protobuf ProtoReader ProtoElements Framing ProtoMessages.
Open Scope Z_scope.

(** A parsed schema with its dependencies: for an import, the version and name of the [Dependency] and
    its schema *)
Inductive IoSchema : Type :=
  mkIoSchema (proto_file_element : ProtoFileElement) (dependencies : list (string * (Version * string * IoSchema))).
Definition io_file (s : IoSchema) : ProtoFileElement := let '(mkIoSchema f _) := s in f.
Definition io_dependencies (s : IoSchema) : list (string * (Version * string * IoSchema)) := let '(mkIoSchema _ d) := s in d.

(** [str(schema)] *)
Definition schema_string (s : IoSchema) : result string := of_text <$> schema_to_schema (io_file s).

Class Codegen (Module_ : Type) : Type := {
  md5_hex : string -> string;
  (** [subprocess.run(["protoc", "--python_out=./", files...], cwd=work_dir)]: the files afterwards *)
  protoc : string -> list string -> dict string string -> result (dict string string);
  (** [spec_from_file_location], [module_from_spec] and [exec_module] of a path, its directory being
      on [sys.path] *)
  exec_module : dict string string -> string -> string -> result Module_;
}.

Section ProtoIO.
Context {Descriptor FieldDescriptor Message Module_ : Type} `{!ProtobufRuntime Descriptor FieldDescriptor Message}
  `{!Codegen Module_} `{!DateParser}.
(** The attributes of a module, which are the classes of its messages, and a class called *)
Context (module_attribute : Module_ -> string -> option Descriptor) (new_message : Descriptor -> Message)
  (SerializeToString : Message -> result (list byte)) (ParseFromString : Message -> list byte -> result Message).
(** [protobuf_runtime_directory] and the recursion limit of the interpreter *)
Context (directory : string) (recursion_limit : nat).

Definition calculate_class_name (name : string) : string := "c_" +:+ md5_hex name.

Definition match_schemas (writer_schema reader_schema : IoSchema) : result bool :=
  w ← schema_string writer_schema; r ← schema_string reader_schema; Ok (String.eqb w r).

(** An entry of the dictionary of dependencies *)
Record DependencyFile : Type := mkDependencyFile { dep_file_schema : string; unique_class_name : string }.

(** [_crawl_dependencies]: what a dependency needs comes before it. *)
Fixpoint _crawl_dependencies (schema : IoSchema) : result (list (string * DependencyFile)) :=
  let '(mkIoSchema _ dependencies) := schema in
  (fix crawl l := match l with
    | [] => Ok []
    | (name, (version, dep_name, dependency)) :: l =>
        inner ← _crawl_dependencies dependency;
        text ← schema_string dependency;
        rest ← crawl l;
        Ok (inner ++ (name, mkDependencyFile text (calculate_class_name (pretty version +:+ "_" +:+ dep_name))) :: rest)
    end) dependencies.

Definition crawl_dependencies (schema : IoSchema) : result (dict string DependencyFile) :=
  l ← _crawl_dependencies schema; Ok (fold_left (fun d kv => dset kv.1 kv.2 d) l []).

Definition quoted_import (s : string) : string := String QUOTE (s +:+ String QUOTE EmptyString).
Definition proto_file_name (d : DependencyFile) : string := unique_class_name d +:+ ".proto".

Definition replace_imports (text : string) (deps_list : dict string DependencyFile) : string :=
  fold_left (fun text kd => str_replace (quoted_import kd.1) (quoted_import (proto_file_name kd.2)) text) deps_list text.

(** [open(path, "w").write(text)] *)
Definition write_file (path text : string) : M (dict string string) () := modify (dset path text).

(** The name of the directory and module of a schema *)
Definition schema_proto_name (schema : IoSchema) (deps_list : dict string DependencyFile) : result string :=
  text ← schema_string schema;
  Ok (calculate_class_name (fold_left (fun acc d => acc +:+ unique_class_name d) (dvalues deps_list) "" +:+ text)).

(** What is written and run when the class is not there yet *)
Definition generate_class (schema : IoSchema) (deps_list : dict string DependencyFile) (proto_name class_path : string)
  : M (dict string string) () :=
  let work_dir := (directory +:+ "/" +:+ proto_name)%string in
  text ← lift (schema_string schema);
  _ ← write_file (work_dir +:+ "/" +:+ proto_name +:+ ".proto") (replace_imports text deps_list);
  _ ← for_each (dvalues deps_list) (fun d =>
        write_file (work_dir +:+ "/" +:+ proto_file_name d) (replace_imports (dep_file_schema d) deps_list));
  files ← gets (fun files => files);
  if din class_path files then mret ()
  else
    files' ← lift (protoc work_dir ((proto_name +:+ ".proto") :: map proto_file_name (dvalues deps_list)) files);
    modify (fun _ => files').

Definition get_protobuf_class_instance (schema : IoSchema) (class_name : string) : M (dict string string) Message :=
  deps_list ← lift (crawl_dependencies schema);
  proto_name ← lift (schema_proto_name schema deps_list);
  let work_dir := (directory +:+ "/" +:+ proto_name)%string in
  let class_path := (work_dir +:+ "/" +:+ proto_name +:+ "_pb2.py")%string in
  files ← gets (fun files => files);
  _ ← (if din class_path files then mret () else generate_class schema deps_list proto_name class_path);
  files ← gets (fun files => files);
  tmp_module ← lift (exec_module files work_dir class_path);
  class_to_call ← lift (match module_attribute tmp_module class_name with Some d => Ok d | None => Raise AttributeError end);
  mret (new_message class_to_call).

(** ** Reading *)

Definition read_data (writer_schema reader_schema : IoSchema) (bio : list byte) : M (dict string string) Message :=
  matched ← lift (match_schemas writer_schema reader_schema);
  if negb matched then raise ProtobufSchemaResolutionException
  else
    let (rest, indexes) := read_indexes bio in
    indexes ← lift indexes;
    name ← lift (find_message_name (file_types (io_file writer_schema)) indexes);
    class_instance ← get_protobuf_class_instance writer_schema name;
    lift (ParseFromString class_instance rest).

(** [reader_process]: what the child puts on the queue *)
Definition reader_process (writer_schema reader_schema : IoSchema) (bio : list byte) : M (dict string string) (result PyData) :=
  catch (m ← read_data writer_schema reader_schema bio;
         mret (protobuf_to_dict recursion_limit true true false m))
    (fun e => mret (Raise e)).

(** [read_in_forked_multiprocess_process]: nothing on the queue in time is [queue.Empty], which
    leaves after the child has ended; anything but a dictionary is raised. *)
Definition read_in_forked_multiprocess_process (in_time : bool) (writer_schema reader_schema : IoSchema) (bio : list byte)
  : M (dict string string) PyData :=
  result ← reader_process writer_schema reader_schema bio;
  if negb in_time then raise QueueEmpty
  else match result with
       | Ok (PDict d) => mret (PDict d)
       | Ok _ => raise IllegalArgumentException
       | Raise e => raise e
       end.

(** [ProtobufDatumReader.read] *)
Definition datum_reader_read (in_time : bool) (writer_schema : IoSchema) (reader_schema : option IoSchema) (bio : list byte)
  : M (dict string string) PyData :=
  read_in_forked_multiprocess_process in_time writer_schema (default writer_schema reader_schema) bio.

(** ** Writing *)

(** Exceptions that are no [Exception] *)
Definition is_base_only (e : exn) : bool := match e with CancelledError => true | _ => false end.

(** [writer_process]: what the child puts on the queue *)
Definition writer_process (writer_schema : IoSchema) (message_name : string) (datum : PyData)
  : M (dict string string) (result (list byte)) :=
  catch (class_instance ← get_protobuf_class_instance writer_schema message_name;
         m ← lift (dict_to_protobuf recursion_limit class_instance datum);
         b ← lift (SerializeToString m);
         mret (Ok b))
    (fun e => mret (Raise (if is_base_only e then e else ProtobufTypeException))).

Definition write_in_forked_multiprocess_process (in_time : bool) (writer_schema : IoSchema) (message_name : string)
  (datum : PyData) : M (dict string string) (list byte) :=
  result ← writer_process writer_schema message_name datum;
  if negb in_time then raise QueueEmpty
  else lift result.

(** [ProtobufDatumWriter]: its constructor, [write_index] and [write] into an empty buffer *)
Definition datum_writer_write (in_time : bool) (writer_schema : IoSchema) (datum : PyData) : M (dict string string) (list byte) :=
  '(name, index) ← lift (ProtobufDatumWriter (file_types (io_file writer_schema)));
  let (header, written) := write_index index [] in
  _ ← lift written;
  b ← write_in_forked_multiprocess_process in_time writer_schema name datum;
  mret (header ++ b).
End ProtoIO.
