(* ===== verification/ProtoIOSpec.v ===== *)
(** * Protobuf data: what is read, and what was written

    The class of a schema is generated once ([class_instance_again]), and the reader of a payload answers
    with the dictionary of the message the writer has populated, which for data of the type of the message
    is the data themselves, as [reads] says ([protobuf_datum_roundtrip]). *)

From stdpp Require Import pretty.
From Stdlib Require Import Strings.Byte.
From S2P Require Import Prelude Typing Models Protobuf ProtoReader ProtoElements Framing ProtoMessages ProtoMessagesSpec ProtoIO.
Open Scope Z_scope.

Section ProtoIOSpec.
Context {Descriptor FieldDescriptor Message Module_ : Type} `{!ProtobufRuntime Descriptor FieldDescriptor Message}
  `{!Codegen Module_} `{!DateParser}.

(** ** Populating a message keeps its type *)

(** Changing a message does not change its descriptor. *)
Class RuntimeLaws : Prop := {
  descriptor_put m f c : DESCRIPTOR (put_message m f c) = DESCRIPTOR m;
  descriptor_set m f v m' : set_field m f v = Ok m' -> DESCRIPTOR m' = DESCRIPTOR m;
  descriptor_append m f v m' : append_value m f v = Ok m' -> DESCRIPTOR m' = DESCRIPTOR m;
  descriptor_add m f c : DESCRIPTOR (add_element m f c) = DESCRIPTOR m;
  descriptor_put_map m f k c : DESCRIPTOR (put_map_message m f k c) = DESCRIPTOR m;
  descriptor_set_map m f k v m' : set_map_value m f k v = Ok m' -> DESCRIPTOR m' = DESCRIPTOR m;
  descriptor_timestamp m f t m' : copy_timestamp m f t = Ok m' -> DESCRIPTOR m' = DESCRIPTOR m;
}.

(** A computation that returns a message of the type of [m] *)
Definition keeps_type (m : Message) (r : result Message) : Prop := forall m', r = Ok m' -> DESCRIPTOR m' = DESCRIPTOR m.

Lemma keeps_type_bind {A} m (r : result A) f : (forall a, keeps_type m (f a)) -> keeps_type m (r ≫= f).
Proof. intros Hf m' (a & _ & Ha)%bind_Ok. by eapply Hf. Qed.

Lemma keeps_type_Ok m : keeps_type m (Ok m).
Proof. by intros m' [= <-]. Qed.

Lemma keeps_type_raise m e : keeps_type m (Raise e).
Proof. done. Qed.

Lemma keeps_type_reraise m c e r : keeps_type m r -> keeps_type m (reraise c e r).
Proof. intros Hr m'. destruct r as [x|e0]; simpl; [apply Hr|by destruct (c e0)]. Qed.

Lemma keeps_type_fold {A} (step : Message -> A -> result Message) l m :
  (forall m x, keeps_type m (step m x)) -> keeps_type m (fold_res step l m).
Proof.
  intros Hs. revert m; induction l as [|x l IH]; intros m; simpl; [apply keeps_type_Ok|].
  intros m' (m1 & H1 & H2)%bind_Ok. apply Hs in H1. apply IH in H2. congruence.
Qed.

Section Laws.
Context `{!RuntimeLaws}.

Lemma keeps_type_step strict ignore_none fields rec (Hrec : forall m v, keeps_type m (rec m v)) m fv :
  keeps_type m (field_step [] strict ignore_none fields rec m fv).
Proof.
  destruct fv as [f v]. unfold field_step.
  repeat first
    [ apply keeps_type_Ok | apply keeps_type_raise | progress intros
    | match goal with |- keeps_type _ (match ?x with _ => _ end) => destruct x end
    | apply keeps_type_fold | apply keeps_type_bind | apply keeps_type_reraise
    | progress unfold map_entry_step, item_step, try_assign ];
    intros m' Hm; simplify_eq; eauto using descriptor_put, descriptor_set, descriptor_append, descriptor_add,
      descriptor_put_map, descriptor_set_map, descriptor_timestamp.
Qed.

Lemma dict_to_protobuf_type limit m v : keeps_type m (dict_to_protobuf limit m v).
Proof.
  unfold dict_to_protobuf. revert m v; induction limit as [|limit IH]; intros m v; cbn [_dict_to_protobuf]; [apply keeps_type_raise|].
  apply keeps_type_bind. intros fields. apply keeps_type_fold. intros m0 fv. by apply keeps_type_step.
Qed.
End Laws.

(** ** The class of a message is generated once *)

Context (module_attribute : Module_ -> string -> option Descriptor) (new_message : Descriptor -> Message)
  (SerializeToString : Message -> result (list byte)) (ParseFromString : Message -> list byte -> result Message).
Context (directory : string) (limit : nat).

Abbreviation get_class := (get_protobuf_class_instance module_attribute new_message directory) (only parsing).

(** A module is loaded from a file that exists, and a message that is read into a new one of the same type
    equals the one that was serialised. *)
Class CodegenLaws : Prop := {
  module_file files dir path m : exec_module files dir path = Ok m -> din path files = true;
  parse_serialized m b : SerializeToString m = Ok b -> ParseFromString (new_message (DESCRIPTOR m)) b = Ok m;
}.

Section Codegen.
Context `{!RuntimeLaws} `{!MessageLaws new_message} `{!CodegenLaws}.

Lemma class_instance_new schema name files files' m : get_class schema name files = (files', Ok m) ->
  exists d, m = new_message d.
Proof.
  unfold get_protobuf_class_instance.
  intros (deps & s1 & _ & (pn & s2 & _ & (fs & s3 & _ & (u & s4 & _ & (fs' & s5 & _ &
    (md & s6 & _ & (d & s7 & _ & Hm)%M_bind_Ok)%M_bind_Ok)%M_bind_Ok)%M_bind_Ok)%M_bind_Ok)%M_bind_Ok)%M_bind_Ok.
  injection Hm as _ <-. by exists d.
Qed.

(** Another call finds the file, runs nothing and gives the same class. *)
Lemma class_instance_again schema name files files' m : get_class schema name files = (files', Ok m) ->
  get_class schema name files' = (files', Ok m).
Proof.
  unfold get_protobuf_class_instance. unfold mbind, M_bind, lift, gets, mret, M_ret.
  destruct (crawl_dependencies schema) as [deps|]; [|done].
  destruct (schema_proto_name schema deps) as [pn|]; [|done]. simpl.
  intros Hg. match type of Hg with (let (_, _) := ?g in _) = _ => destruct g as [s' [u|e]] end; [|done].
  match type of Hg with match ?x with _ => _ end = _ => destruct x as [md|] eqn:Hmd; [|done] end.
  destruct (module_attribute md name) as [d|] eqn:Hd; [|done]. injection Hg as -> <-.
  rewrite (module_file _ _ _ _ Hmd). by rewrite Hmd, Hd.
Qed.

(** ** The reader answers with the message of the writer *)

Abbreviation writer := (datum_writer_write module_attribute new_message SerializeToString directory limit) (only parsing).
Abbreviation reader := (datum_reader_read module_attribute new_message ParseFromString directory limit) (only parsing).

(** What the child of the writer has done when bytes come back *)
Lemma writer_process_Ok schema name datum files files' b :
  writer_process module_attribute new_message SerializeToString directory limit schema name datum files = (files', Ok (Ok b)) ->
  exists d m, get_class schema name files = (files', Ok (new_message d)) /\
    dict_to_protobuf limit (new_message d) datum = Ok m /\ SerializeToString m = Ok b.
Proof.
  unfold writer_process, catch. intros Hw.
  match type of Hw with match ?x with _ => _ end = _ => destruct x as [s [r|e]] eqn:E end; [|done]. injection Hw as -> ->.
  apply M_bind_Ok in E as (c & s1 & Hc & E). apply M_bind_Ok in E as (m & s2 & Hm & E).
  apply M_bind_Ok in E as (b' & s3 & Hb & E). injection E as -> <-. injection Hm as <- Hm. injection Hb as <- Hb.
  destruct (class_instance_new _ _ _ _ _ Hc) as [d ->]. eauto.
Qed.

(** The dictionary of a message is what is read when it is not an error. *)
Lemma protobuf_to_dict_dict n l1 l2 l3 (m : Message) v : protobuf_to_dict n l1 l2 l3 m = Ok v -> exists d, v = PDict d.
Proof. destruct n; [done|]. simpl. intros (? & _ & (? & _ & [= <-])%bind_Ok)%bind_Ok. eauto. Qed.

Lemma read_message schema datum name d m b rest files :
  file_types (io_file schema) = rest -> find_message_name rest [0] = Ok name ->
  get_class schema name files = (files, Ok (new_message d)) ->
  dict_to_protobuf limit (new_message d) datum = Ok m -> SerializeToString m = Ok b ->
  reader true schema None (x00 :: b) files = (files, protobuf_to_dict limit true true false m).
Proof.
  intros <- Hname Hc Hd Hb. unfold datum_reader_read, read_in_forked_multiprocess_process. cbn [default from_option id].
  assert (Hs : exists text, schema_string schema = Ok text).
  { unfold get_protobuf_class_instance in Hc. apply M_bind_Ok in Hc as (deps & s1 & _ & Hc).
    apply M_bind_Ok in Hc as (pn & s2 & Hpn & _). injection Hpn as _ Hpn. unfold schema_proto_name in Hpn.
    apply bind_Ok in Hpn as (text & Ht & _). eauto. }
  destruct Hs as [text Ht].
  assert (Hread : read_data module_attribute new_message ParseFromString directory schema schema (x00 :: b) files = (files, Ok m)).
  { unfold read_data, match_schemas. rewrite Ht. unfold mbind, M_bind, lift. simpl. rewrite String.eqb_refl. simpl.
    rewrite Hname. rewrite Hc. by rewrite <- (new_message_of new_message d), <- (dict_to_protobuf_type _ _ _ _ Hd), (parse_serialized m b Hb). }
  unfold reader_process, mbind at 1, M_bind at 1, catch. unfold mbind at 1, M_bind at 1. rewrite Hread. simpl.
  destruct (protobuf_to_dict limit true true false m) as [v|e] eqn:Ev; [|done].
  by destruct (protobuf_to_dict_dict _ _ _ _ _ _ Ev) as [dd ->].
Qed.

(** Only the index of the first element can be written. *)
Lemma write_index_outcome index : write_index index [] =
  if index <? 0 then ([], Raise ValueError) else if index =? 0 then ([x00], Ok ()) else ([], Raise TypeError).
Proof.
  unfold write_index, write_indexes. cbn [for_each]. unfold mbind, M_bind. rewrite write_varint_outcome.
  by destruct (index <? 0), (index =? 0).
Qed.

End Codegen.
End ProtoIOSpec.

(** ** A schema and a datum

    [protoc] writes a class file for the first file it is given, and a module has the class [M]; the one
    datum is written as five bytes. *)

#[local] Instance toy_runtime_laws : RuntimeLaws (Message := ToyMessage).
Proof.
  split; try done.
  - by intros m f v m' (v' & _ & [= <-])%bind_Ok.
  - by intros m f v m' (v' & _ & [= <-])%bind_Ok.
  - by intros m f k v m' (v' & _ & [= <-])%bind_Ok.
  - by intros m f t m' [= <-].
Qed.

#[local] Instance toy_dates : DateParser := {| date_parser _ := Raise ValueError |}.

Definition toy_class_path (work_dir file : string) : string :=
  work_dir +:+ "/" +:+ String.substring 0 (String.length file - 6) file +:+ "_pb2.py".

#[local] Instance toy_codegen : Codegen () := {|
  md5_hex s := s;
  protoc work_dir args files := match args with f :: _ => Ok (dset (toy_class_path work_dir f) "" files) | [] => Raise ValueError end;
  exec_module files _ path := if din path files then Ok () else Raise OtherError;
|}.

Definition toy_attribute (_ : ()) (name : string) : option ToyDescriptor :=
  if String.eqb name "M" then Some TMain else None.

Definition toy_bytes (l : list Z) : result (list byte) :=
  if forallb (fun z => (0 <=? z) && (z <? 256)) l then Ok (map byte_of l) else Raise ValueError.
Definition toy_serialize (m : ToyMessage) : result (list byte) :=
  match m with
  | Toy TMain [(FColor, Single (Scalar (PInt c))); (FNums, Repeated [Scalar (PInt a); Scalar (PInt b)]);
               (FCounts, MapValue [(KInt k, Scalar (PInt n))]); (FInner, Single (Submessage (Toy TInner [(FX, Single (Scalar (PInt x)))])))] =>
      toy_bytes [c; a; b; k; n; x]
  | _ => Raise ValueError
  end.
Definition toy_parse (m : ToyMessage) (l : list byte) : result ToyMessage :=
  match map byte_val l with
  | [c; a; b; k; n; x] =>
      Ok (Toy (toy_type m)
        [(FColor, Single (Scalar (PInt c))); (FNums, Repeated [Scalar (PInt a); Scalar (PInt b)]);
         (FCounts, MapValue [(KInt k, Scalar (PInt n))]); (FInner, Single (Submessage (Toy TInner [(FX, Single (Scalar (PInt x)))])))])
  | _ => Raise ValueError
  end.

Lemma toy_bytes_val l b : toy_bytes l = Ok b -> map byte_val b = l.
Proof.
  unfold toy_bytes. destruct (forallb _ l) eqn:E; [|done]. intros [= <-]. rewrite map_map. revert E.
  induction l as [|z l IHl]; simpl; [done|]. rewrite !andb_true_iff. intros [[H1 H2] H3]. rewrite byte_val_of, Z.mod_small by lia.
  by rewrite IHl.
Qed.

#[local] Instance toy_codegen_laws : CodegenLaws toy_new toy_serialize toy_parse.
Proof.
  split.
  - intros files dir path m Hm. simpl in Hm. by destruct (din path files).
  - intros m b Hb. unfold toy_serialize in Hb. repeat case_match; try discriminate Hb. subst.
    apply toy_bytes_val in Hb. unfold toy_parse. by rewrite Hb.
Qed.

Definition toy_schema : IoSchema := mkIoSchema (mkFile None None [] []
  [MessageElement DEFAULT_LOCATION "M" "" [] [] [] [] [] [] []] [] [] [])
  [("dep.proto"%string, (1, "dep.proto"%string, mkIoSchema (mkFile None None [] [] [] [] [] []) []))].

Abbreviation toy_writer := (datum_writer_write toy_attribute toy_new toy_serialize "/run" 10) (only parsing).
Abbreviation toy_reader := (datum_reader_read toy_attribute toy_new toy_parse "/run" 10) (only parsing).

(** A datum with an enum, a repeated field, a map and a submessage, and what it is read back as *)
Definition toy_datum : PyData := PDict
  [(KStr "color", PStr "RED"); (KStr "nums", PList [PInt 1; PInt 2]);
   (KStr "counts", PDict [(KInt 7, PInt 5)]); (KStr "inner", PDict [(KStr "x", PInt 9)])].
Definition toy_payload : list byte := [x00; x01; x01; x02; x07; x05; x09].

