(* ===== verification/CoordinatorTasks.v ===== *)
(** * The tasks of the coordinator

    The part of [core/coordinator/schema_coordinator.py] that keeps the membership alive: the
    coordination routine, the heartbeat task, metadata updates, errors pushed to the user, start and
    close; and the loop, status and configuration of [master_coordinator.py]. The operations of the
    group protocol are those of Coordinator.

    A task of asyncio runs between two awaits; here the rounds of the coordination routine and of the
    heartbeat task are atomic steps, and the steps of a trace interleave them. What the broker and the
    clock answer during a round is an argument of the round. A task is absent, running, or done. Times are
    milliseconds. *)

From stdpp Require Import pretty.
From S2P Require Import Prelude Json Typing Models Registry Coordinator.
Open Scope Z_scope.

(** ** State *)

Inductive Task (A : Type) : Type := NoTask | Running (variables : A) | Done (outcome : result ()).
Arguments NoTask {A}.
Arguments Running {A} variables.
Arguments Done {A} outcome.

(** The variables of [_heartbeat_routine] *)
Record HeartbeatState : Type := mkHeartbeat { last_ok_heartbeat : Z; sleep_time : Z }.

(** A [SchemaCoordinator] with its tasks: [_closing] is none before [start] and says whether it is
    done; [_error_consumed_fut] likewise. *)
Record Tasks (bytes : Type) : Type := mkTasks {
  coord : Coordinator;
  closing : option bool;
  coordination_task : Task ();
  heartbeat_task : Task HeartbeatState;
  pending_exception : option exn;
  error_consumed : option bool;
  metadata_snapshot : list (string * bytes);
}.
Arguments mkTasks {bytes}.
Arguments coord {bytes}.
Arguments closing {bytes}.
Arguments coordination_task {bytes}.
Arguments heartbeat_task {bytes}.
Arguments pending_exception {bytes}.
Arguments error_consumed {bytes}.
Arguments metadata_snapshot {bytes}.

(** What the broker answers to the assignments a member sends *)
Abbreviation SyncReply bytes := (list (string * bytes) -> option (SyncGroupResponse (bytes := bytes))) (only parsing).

(** What [coordinator_lookup] and, when it finds one, [ready] answer *)
Inductive Lookup : Type := Found (node : Z) (ready : bool) | LookupUnauthorized | LookupFailed (retriable : bool).

Section Tasks.
Context {bytes : Type} `{!JsonCodec bytes}.
(** [__version__], [election_strategy], the identity of the member, and the settings in milliseconds *)
Context (karapace_version election_strategy : string) (identity : MemberIdentity)
  (waiting_time heartbeat_interval retry_backoff session_timeout : Z).

Definition new_tasks (reader_ready : bool) : Tasks bytes :=
  mkTasks (new_coordinator reader_ready) None NoTask NoTask None None [].

Definition set_coord (c : Coordinator) (s : Tasks bytes) : Tasks bytes :=
  mkTasks c (closing s) (coordination_task s) (heartbeat_task s) (pending_exception s) (error_consumed s) (metadata_snapshot s).
Definition set_heartbeat (t : Task HeartbeatState) (s : Tasks bytes) : Tasks bytes :=
  mkTasks (coord s) (closing s) (coordination_task s) t (pending_exception s) (error_consumed s) (metadata_snapshot s).
Definition set_routine (t : Task ()) (s : Tasks bytes) : Tasks bytes :=
  mkTasks (coord s) (closing s) t (heartbeat_task s) (pending_exception s) (error_consumed s) (metadata_snapshot s).
Definition set_closing (b : option bool) (s : Tasks bytes) : Tasks bytes :=
  mkTasks (coord s) b (coordination_task s) (heartbeat_task s) (pending_exception s) (error_consumed s) (metadata_snapshot s).
Definition set_error (e : option exn) (consumed : option bool) (s : Tasks bytes) : Tasks bytes :=
  mkTasks (coord s) (closing s) (coordination_task s) (heartbeat_task s) e consumed (metadata_snapshot s).
Definition set_snapshot (l : list (string * bytes)) (s : Tasks bytes) : Tasks bytes :=
  mkTasks (coord s) (closing s) (coordination_task s) (heartbeat_task s) (pending_exception s) (error_consumed s) l.

(** An operation on the coordinator *)
Definition on_coord {A} (m : M Coordinator A) : M (Tasks bytes) A :=
  fun s => let (c, r) := m (coord s) in (set_coord c s, r).

(** ** Metadata and errors *)

(** [get_metadata_snapshot] *)
Definition get_metadata_snapshot : list (string * bytes) :=
  [("v0"%string, json_encode (get_member_configuration karapace_version identity))].

(** [_handle_metadata_update] and [_on_metadata_change] *)
Definition handle_metadata_update : M (Tasks bytes) () :=
  snapshot ← gets metadata_snapshot;
  if bool_decide (snapshot = get_metadata_snapshot) then mret ()
  else
    _ ← modify (set_snapshot get_metadata_snapshot);
    on_coord request_rejoin.

(** [_push_error_to_user]. The wait for the error to be consumed is a coroutine that it returns and
    that nobody awaits. *)
Definition push_error_to_user (exc : exn) : M (Tasks bytes) () := modify (set_error (Some exc) (Some false)).

(** [check_errors] *)
Definition check_errors : M (Tasks bytes) () :=
  task ← gets coordination_task;
  _ ← match task with
      | NoTask => raise AssertionError
      | Running _ => mret ()
      | Done r => lift r
      end;
  pending ← gets pending_exception;
  _ ← modify (set_error None None);
  match pending with Some exc => raise exc | None => mret () end.

(** ** The heartbeat task *)

Definition start_heartbeat_task (now : Z) : M (Tasks bytes) () :=
  task ← gets heartbeat_task;
  match task with NoTask => modify (set_heartbeat (Running (mkHeartbeat now heartbeat_interval))) | _ => mret () end.

(** A running task is cancelled, which ends its loop. *)
Definition stop_heartbeat_task : M (Tasks bytes) () := modify (set_heartbeat NoTask).

(** The loop of [ensure_coordinator_known]; where the answers end, the coordinator is closing. *)
Fixpoint lookup_coordinator (answers : list Lookup) : M Coordinator () :=
  match answers with
  | [] => mret ()
  | Found node true :: _ => modify (set_coordinator_id (Some node))
  | Found _ false :: answers => lookup_coordinator answers
  | LookupUnauthorized :: _ => raise GroupAuthorizationFailedError
  | LookupFailed true :: answers => lookup_coordinator answers
  | LookupFailed false :: _ => raise KafkaError
  end.

Definition coordinator_known (answers : list Lookup) : M Coordinator () :=
  c ← gets (fun c => c);
  match coordinator_id c with Some _ => mret () | None => lookup_coordinator answers end.

(** One round of [_heartbeat_routine]: the readings of the clock before and after the heartbeat and at the
    check of the session. The loop ends, with [None], when the member is not known to the group. *)
Definition heartbeat_round (answers : list Lookup) (reply : option ErrorType) (t0 t1 t2 : Z) (h : HeartbeatState)
  : M Coordinator (option HeartbeatState) :=
  c ← gets (fun c => c);
  if String.eqb (member_id c) "" then mret None
  else
    _ ← coordinator_known answers;
    success ← do_heartbeat reply;
    let h' := if success : bool then mkHeartbeat t1 (Z.max 0 (heartbeat_interval - t1 + t0))
              else mkHeartbeat (last_ok_heartbeat h) retry_backoff in
    _ ← (if session_timeout <? t2 - last_ok_heartbeat h' then coordinator_dead else mret ());
    mret (Some h').

(** The task takes a round: an exception ends it, and so does the end of its loop. *)
Definition heartbeat_step (answers : list Lookup) (reply : option ErrorType) (t0 t1 t2 : Z) : M (Tasks bytes) () :=
  task ← gets heartbeat_task;
  match task with
  | Running h =>
      outcome ← catch (h' ← on_coord (heartbeat_round answers reply t0 t1 t2 h);
                       mret (match h' with Some h' => Running h' | None => Done (Ok ()) end))
                  (fun e => mret (Done (Raise e)));
      modify (set_heartbeat outcome)
  | _ => mret ()
  end.

(** ** The coordination routine *)

Definition ensure_active_group (replies : list (option (JoinGroupResponse (bytes := bytes)))) (sync : SyncReply bytes) (now : Z)
  : M (Tasks bytes) bool :=
  _ ← stop_heartbeat_task;
  success ← on_coord (do_rejoin_group karapace_version election_strategy waiting_time replies sync now);
  if success : bool then _ ← start_heartbeat_task now; mret true else mret false.

(** What ends the wait of a round: the background tasks are looked at. *)
Definition check_background_tasks : M (Tasks bytes) () :=
  task ← gets heartbeat_task;
  match task with Done (Raise e) => push_error_to_user e | _ => mret () end.

(** The guarded part of a round: whether it comes to the wait *)
Definition ensure_membership (answers : list Lookup) (replies : list (option (JoinGroupResponse (bytes := bytes))))
  (sync : SyncReply bytes) (now : Z) : M (Tasks bytes) bool :=
  _ ← on_coord (coordinator_known answers);
  rejoin ← on_coord need_rejoin;
  if rejoin : bool then
    _ ← on_coord (record_leadership waiting_time now);
    ensure_active_group replies sync now
  else mret true.

(** One round of [__coordination_routine], which [_coordination_routine] makes a [KafkaError] of when
    another exception ends it *)
Definition routine_round (answers : list Lookup) (replies : list (option (JoinGroupResponse (bytes := bytes))))
  (sync : SyncReply bytes) (now : Z) : M (Tasks bytes) () :=
  task ← gets coordination_task;
  closed ← gets closing;
  match task with
  | Running _ =>
      if bool_decide (closed = Some true) then modify (set_routine (Done (Ok ())))
      else
        catch
          (waits ← catch (ensure_membership answers replies sync now)
             (fun e => if is_kafka_error e then _ ← push_error_to_user e; mret false else raise e);
           if waits : bool then check_background_tasks else mret ())
          (fun e => modify (set_routine (Done (Raise (if bool_decide (e = CancelledError) then e else KafkaError)))))
  | _ => mret ()
  end.

(** ** Start and close *)

Definition start : M (Tasks bytes) () :=
  _ ← on_coord (modify (set_rejoin false));
  _ ← modify (set_closing (Some false));
  _ ← modify (set_routine (Running ()));
  handle_metadata_update.

(** [close], with what the routine does until it is done *)
Definition close_tasks (finish : M (Tasks bytes) ()) (reply : option ErrorType) (now : Z) : M (Tasks bytes) () :=
  closed ← gets closing;
  match closed with
  | None | Some true => mret ()
  | Some false =>
      _ ← modify (set_closing (Some true));
      task ← gets coordination_task;
      _ ← match task with
          | NoTask => raise AssertionError
          | Running _ => _ ← finish; task ← gets coordination_task; match task with Done r => lift r | _ => mret () end
          | Done _ => mret ()
          end;
      _ ← stop_heartbeat_task;
      on_coord (maybe_leave_group waiting_time reply now)
  end.

(** ** master_coordinator.py *)

Record SchemaCoordinatorStatus : Type := mkStatus {
  is_primary : bool; is_primary_eligible : bool; status_primary_url : option string; is_running : bool; group_generation_id : Z;
}.

(** [get_coordinator_status]; it asserts that the coordinator exists. *)
Definition get_coordinator_status (now : Z) (sc : option Coordinator) : option Coordinator * result SchemaCoordinatorStatus :=
  match sc with
  | None => (None, Raise AssertionError)
  | Some c =>
      let g := generation c in
      match are_we_master waiting_time now c with
      | (c', Ok b) => (Some c', Ok (mkStatus b (master_eligibility identity) (master_url c') true g))
      | (c', Raise e) => (Some c', Raise e)
      end
  end.

(** [_async_loop] up to where the coordinator runs: [bootstrap] is called until it connects, and the
    metadata is asked for until it has brokers. The answers are those of the client in order: where they
    end, it still waits. *)
Fixpoint bootstrapped (answers : list bool) : option (list bool) :=
  match answers with
  | [] => None
  | true :: rest => Some rest
  | false :: answers => bootstrapped answers
  end.

Definition async_loop (bootstrap_answers broker_answers : list bool) (reader_ready : bool) : option (Tasks bytes) :=
  match bootstrapped bootstrap_answers, bootstrapped broker_answers with
  | Some _, Some _ => Some (start (new_tasks reader_ready)).1
  | _, _ => None
  end.

(** A [MasterCoordinator]: its schema coordinator once the loop has made it, whether its thread made the loop, and the
    event that asks it to close *)
Record MasterCoordinator : Type := mkMaster { schema_coordinator : option (Tasks bytes); loop_made : bool; close_asked : bool }.

Definition new_master : MasterCoordinator := mkMaster None false false.

(** [start]: a thread is started at most once. *)
Definition master_start : M MasterCoordinator () :=
  m ← gets (fun m => m);
  if loop_made m then raise RuntimeError else modify (fun m => mkMaster (schema_coordinator m) true (close_asked m)).

(** [_async_loop] *)
Definition master_loop (bootstrap_answers broker_answers : list bool) (reader_ready : bool) : M MasterCoordinator () :=
  match async_loop bootstrap_answers broker_answers reader_ready with
  | Some s => modify (fun m => mkMaster (Some s) (loop_made m) (close_asked m))
  | None => mret ()
  end.

(** [close] *)
Definition master_close : M MasterCoordinator () :=
  m ← gets (fun m => m);
  if loop_made m then modify (fun m => mkMaster (schema_coordinator m) (loop_made m) true) else raise ValueError.

(** [_async_loop] after the close event: the schema coordinator is closed. *)
Definition master_shutdown (finish : M (Tasks bytes) ()) (reply : option ErrorType) (now : Z) : M MasterCoordinator () :=
  m ← gets (fun m => m);
  if close_asked m then
    match schema_coordinator m with
    | Some s =>
        let (s', r) := close_tasks finish reply now s in
        _ ← modify (fun m => mkMaster (Some s') (loop_made m) (close_asked m));
        lift r
    | None => mret ()
    end
  else mret ().
End Tasks.
