(* ===== verification/CoordinatorTasksSpec.v ===== *)
(** * Properties of the coordinator's tasks

    What holds of the membership whatever the rounds of the tasks do and however they interleave: a
    member without a coordinator is not the primary and rejoins, a member that need not rejoin has a
    heartbeat task, and a session without heartbeats ends. A heartbeat task that failed is the exception: no
    step replaces it. *)

From stdpp Require Import pretty.
From S2P Require Import Prelude Json Typing Models Registry Coordinator CoordinatorSpec CoordinatorTasks.
Open Scope Z_scope.

(** ** Traces *)

Section tasks.
Context {bytes : Type} `{!JsonCodec bytes}.
Context (karapace_version election_strategy : string) (identity : MemberIdentity)
  (waiting_time heartbeat_interval retry_backoff session_timeout : Z).

(** What happens to a started coordinator until it is closed *)
Inductive TaskEvent : Type :=
  | RoutineRound (answers : list Lookup) (replies : list (option (JoinGroupResponse (bytes := bytes))))
      (sync : SyncReply bytes) (now : Z)
  | HeartbeatRound (answers : list Lookup) (reply : option ErrorType) (t0 t1 t2 : Z)
  | MetadataUpdate
  | Asked (now : Z)         (* [are_we_master], of the application *)
  | ReaderReady (b : bool). (* of the schema reader *)

Definition perform (e : TaskEvent) : M (Tasks bytes) () :=
  match e with
  | RoutineRound answers replies sync now =>
      routine_round karapace_version election_strategy waiting_time heartbeat_interval answers replies sync now
  | HeartbeatRound answers reply t0 t1 t2 =>
      heartbeat_step heartbeat_interval retry_backoff session_timeout answers reply t0 t1 t2
  | MetadataUpdate => handle_metadata_update karapace_version identity
  | Asked now => on_coord (_ ← are_we_master waiting_time now; mret ())
  | ReaderReady b => on_coord (modify (set_reader b))
  end.

Definition run_tasks (trace : list TaskEvent) (s : Tasks bytes) : Tasks bytes :=
  fold_left (fun s e => (perform e s).1) trace s.

(** The clock of a heartbeat does not run backwards. *)
Definition on_time (e : TaskEvent) : Prop :=
  match e with HeartbeatRound _ _ t0 t1 t2 => t0 <= t1 <= t2 | _ => True end.

(** ** The coordinator *)

(** A member without a coordinator does not take itself for the primary, and rejoins. *)
Definition settled (c : Coordinator) : Prop :=
  coordinator_id c = None -> are_we_master_flag c ≠ Some true /\ rejoin_needed c = true.

Definition keeps {S} (P : S -> Prop) (s s' : S) : Prop := P s -> P s'.
#[local] Instance keeps_preorder {S} (P : S -> Prop) : PreOrder (keeps P).
Proof. unfold keeps. split; red; auto. Qed.

Ltac settle := intros c; unfold keeps, settled; simpl; naive_solver.

Lemma settled_coordinator_dead : steps (keeps settled) coordinator_dead.
Proof. intros c. unfold coordinator_dead, mbind, M_bind, gets. destruct (coordinator_id c) eqn:E; [|done]. by unfold keeps, settled. Qed.
Lemma settled_reset_generation : steps (keeps settled) reset_generation.
Proof. settle. Qed.
Lemma settled_request_rejoin : steps (keeps settled) request_rejoin.
Proof. settle. Qed.
Lemma settled_set_member g m : steps (keeps settled) (modify (set_member g m)).
Proof. settle. Qed.
#[local] Hint Resolve settled_coordinator_dead settled_reset_generation settled_request_rejoin settled_set_member : karapace.

Lemma settled_try_send {A} (reply : option A) : steps (keeps settled) (try_send reply).
Proof. unfold try_send, send_req. apply steps_catch; [typeclasses eauto|monad_steps|]. intros e. monad_steps. Qed.
#[local] Hint Resolve settled_try_send : karapace.

Lemma settled_do_heartbeat reply : steps (keeps settled) (do_heartbeat reply).
Proof. unfold do_heartbeat. monad_steps. Qed.

Lemma settled_perform_assignment members :
  steps (keeps settled) (perform_assignment (bytes := bytes) karapace_version election_strategy members).
Proof.
  unfold perform_assignment. apply steps_bind; [typeclasses eauto| |by intros; apply steps_lift; typeclasses eauto].
  settle.
Qed.

Lemma settled_lookup answers : steps (keeps settled) (lookup_coordinator answers).
Proof. induction answers as [|[node []| |[]] answers IH]; simpl; monad_steps. settle. Qed.

Lemma settled_coordinator_known answers : steps (keeps settled) (coordinator_known answers).
Proof. unfold coordinator_known. pose proof (settled_lookup answers). monad_steps. Qed.

Lemma settled_send_join_requests replies : steps (keeps settled) (send_join_requests (bytes := bytes) replies).
Proof.
  induction replies as [|reply replies IH]; simpl; apply steps_bind; try typeclasses eauto; auto with karapace;
    intros response; monad_steps.
Qed.

Lemma settled_sync (reply : option (SyncGroupResponse (bytes := bytes))) :
  steps (keeps settled) (send_sync_group_request reply).
Proof.
  intros c. unfold send_sync_group_request, try_send, send_req, coordinator_dead, reset_generation, request_rejoin, catch,
    mbind, M_bind, gets, modify, mret, M_ret, raise, keeps, settled.
  simpl. destruct (coordinator_id c) eqn:Ec; simpl; [|naive_solver].
  destruct reply as [[e data]|]; simpl; [|rewrite Ec; naive_solver].
  destruct e; simpl; rewrite ?Ec; naive_solver.
Qed.

Lemma settled_join replies sync :
  steps (keeps settled) (perform_group_join (bytes := bytes) karapace_version election_strategy replies sync).
Proof.
  unfold perform_group_join. apply steps_bind; [typeclasses eauto|apply settled_send_join_requests|]. intros [resp|]; [|monad_steps].
  destruct (join_error resp); try by monad_steps.
  apply steps_bind; [typeclasses eauto|apply settled_set_member|]. intros _. destruct (String.eqb _ _); [|apply settled_sync].
  unfold on_join_leader. apply steps_bind; [typeclasses eauto| |intros; apply settled_sync].
  apply steps_catch; [typeclasses eauto|apply settled_perform_assignment|]. intros e. monad_steps.
Qed.

(** Asking and applying an assignment leave the coordinator and the need to rejoin alone. *)
Definition same_need (c c' : Coordinator) : Prop :=
  coordinator_id c' = coordinator_id c /\ rejoin_needed c' = rejoin_needed c.
Definition same_role (c c' : Coordinator) : Prop :=
  same_need c c' /\ are_we_master_flag c' = are_we_master_flag c.
#[local] Instance same_need_preorder : PreOrder same_need.
Proof. unfold same_need. split; red; intuition congruence. Qed.
#[local] Instance same_role_preorder : PreOrder same_role.
Proof. unfold same_role. split; [by split|]. intros x y z [] []. split; [by etrans|congruence]. Qed.

Lemma are_we_master_role now : steps same_role (are_we_master waiting_time now).
Proof. unfold are_we_master. monad_steps; by intros c. Qed.
#[local] Hint Resolve are_we_master_role : karapace.

Lemma record_leadership_role now : steps same_role (record_leadership waiting_time now).
Proof. unfold record_leadership. monad_steps. by intros c. Qed.

Lemma on_join_complete_need now id (metadata : bytes) : steps same_need (on_join_complete waiting_time now id metadata).
Proof. unfold on_join_complete. monad_steps; by intros c. Qed.

Lemma settled_role c c' : same_role c c' -> settled c -> settled c'.
Proof. unfold same_role, same_need, settled. intros [[-> ->] ->]. done. Qed.

(** ** The membership *)

(** The decoder fails with an error of JSON or of UTF-8, not with one of Kafka. *)
Context (decode_error : forall (data : bytes) e, json_decode data = Raise e -> is_kafka_error e = false).
Context (interval_nonneg : 0 <= heartbeat_interval) (backoff_nonneg : 0 <= retry_backoff).

Lemma dindex_error {A} k (d : dict string A) e : dindex k d = Raise e -> is_kafka_error e = false.
Proof. unfold dindex. destruct (dget k d); [done|]. by intros [= <-]. Qed.

Lemma read_identity_error j e : read_identity j = Raise e -> is_kafka_error e = false.
Proof.
  intros H. destruct j as [| | | | | |d]; try (by injection H as <-).
  revert H. unfold read_identity, read_str, read_int, mbind, result_bind.
  destruct (dindex "master_eligibility" d) eqn:E1; [|intros [= <-]; by eauto using dindex_error].
  destruct (dindex "scheme" d) as [j1|] eqn:E2; [|intros [= <-]; by eauto using dindex_error].
  destruct j1; try (by intros [= <-]).
  destruct (dindex "host" d) as [j2|] eqn:E3; [|intros [= <-]; by eauto using dindex_error].
  destruct j2; try (by intros [= <-]).
  destruct (dindex "port" d) as [j3|] eqn:E4; [|intros [= <-]; by eauto using dindex_error].
  destruct j3; try (by intros [= <-]); case_match; naive_solver.
Qed.

Lemma on_join_complete_error now id (metadata : bytes) :
  raises (fun e => is_kafka_error e = false) (on_join_complete waiting_time now id metadata).
Proof.
  intros c e. unfold on_join_complete, mbind, M_bind, lift, gets, modify, mret, M_ret.
  destruct (json_decode metadata) as [j|e1] eqn:Ej; [|intros [= <-]; by eauto].
  destruct j as [| | | | | |d]; try (by intros [= <-]). cbv [result_bind].
  destruct (dindex "master_identity"%string d) as [i|e1] eqn:Ei; [|intros [= <-]; by eauto using dindex_error].
  simpl. destruct (read_identity i) as [identity'|e1] eqn:Er; [|intros [= <-]; by eauto using read_identity_error].
  destruct (dindex "master"%string d) as [master|e1] eqn:Em; [|intros [= <-]; by eauto using dindex_error].
  destruct (_ && _); [|by destruct (negb _)]. by destruct (match last_time_leader _ with Some _ => _ | None => _ end).
Qed.

Lemma rejoin_outcome replies sync now c :
  let '(c', r) := do_rejoin_group (bytes := bytes) karapace_version election_strategy waiting_time replies sync now c in
  keeps settled c c' /\
  match r with Ok true => True | Ok false => still_rejoining c c' | Raise e => still_rejoining c c' \/ is_kafka_error e = false end.
Proof.
  pose proof (attempt_join karapace_version election_strategy replies sync c) as Hj.
  pose proof (settled_join replies sync c) as Hs. unfold do_rejoin_group, mbind, M_bind.
  destruct (perform_group_join _ _ replies sync c) as [c1 [[data|]|e]]; simpl in *;
    [|split; [done|by apply Hj]|split; [done|left; by apply Hj]].
  destruct Hj as (_ & _ & Hr & _). specialize (Hr data eq_refl).
  pose proof (on_join_complete_need now (member_id c1) data c1) as Hn.
  pose proof (on_join_complete_error now (member_id c1) data c1) as He.
  destruct (on_join_complete _ _ _ _ c1) as [c2 [[]|e]]; simpl in *; (split; [|by auto]);
    intros Hc; destruct Hn as [Hi _]; intros E; rewrite Hi in E; destruct (Hs Hc E); congruence.
Qed.

(** The membership of a started coordinator *)
Record membership (s : Tasks bytes) : Prop := {
  member_settled : settled (coord s);
  member_heartbeat : coordination_task s = Running () -> rejoin_needed (coord s) = false -> heartbeat_task s ≠ NoTask;
  member_sleep : forall h, heartbeat_task s = Running h -> 0 <= sleep_time h <= Z.max heartbeat_interval retry_backoff;
}.

Lemma coordinator_known_need answers c : rejoin_needed (coordinator_known answers c).1 = rejoin_needed c.
Proof.
  unfold coordinator_known, mbind, M_bind, gets. destruct (coordinator_id c); [done|].
  revert c. induction answers as [|[node []| |[]] answers IH]; simpl; intros c; try done; apply IH.
Qed.

Lemma metadata_update_outcome (s : Tasks bytes) :
  (handle_metadata_update karapace_version identity s).1 =
  if bool_decide (metadata_snapshot s = get_metadata_snapshot karapace_version identity) then s
  else set_coord (set_rejoin true (coord s)) (set_snapshot (get_metadata_snapshot karapace_version identity) s).
Proof. unfold handle_metadata_update, mbind, M_bind, gets, mret, M_ret. by destruct (bool_decide _). Qed.

Definition started (reader_ready : bool) : Tasks bytes :=
  (start karapace_version identity (new_tasks reader_ready)).1.

Lemma started_is reader_ready : started reader_ready =
  mkTasks (set_rejoin true (new_coordinator reader_ready)) (Some false) (Running ()) NoTask None None
    (get_metadata_snapshot karapace_version identity).
Proof.
  unfold started, start. do 3 (erewrite M_bind_run; [|reflexivity]).
  rewrite metadata_update_outcome. by rewrite bool_decide_eq_false_2.
Qed.

Lemma membership_start reader_ready : membership (started reader_ready).
Proof. rewrite started_is. by split. Qed.

Lemma membership_ensure answers replies sync now s : membership s -> 
  let '(s', r) := ensure_membership karapace_version election_strategy waiting_time heartbeat_interval answers replies sync now s in
  coordination_task s' = coordination_task s /\ closing s' = closing s /\
  settled (coord s') /\
  (forall h, heartbeat_task s' = Running h -> 0 <= sleep_time h <= Z.max heartbeat_interval retry_backoff) /\
  (coordination_task s = Running () -> 
   (rejoin_needed (coord s') = false -> heartbeat_task s' ≠ NoTask) \/ exists e, r = Raise e /\ is_kafka_error e = false).
Proof.
  intros [H1 H2 H3]. unfold ensure_membership, ensure_active_group, on_coord.
  pose proof (settled_coordinator_known answers (coord s) H1) as Hs. pose proof (coordinator_known_need answers (coord s)) as Hn.
  cbv [mbind M_bind]. destruct (coordinator_known answers (coord s)) as [c1 [[]|e]]; simpl in Hs, Hn.
  2: { simpl. split_and!; [done..|]. intros Ht. left. rewrite Hn. auto. }
  simpl. destruct (rejoin_needed c1) eqn:Er.
  2: { simpl. split_and!; [done..|]. intros Ht. left. rewrite Hn in Er. auto. }
  pose proof (record_leadership_role now c1) as [[Hid Hrj] Hfl].
  assert (Hs2 : settled (record_leadership waiting_time now c1).1) by (by apply (settled_role c1)).
  simpl. destruct (record_leadership waiting_time now c1) as [c2 [[]|e]]; simpl in *.
  2: { split_and!; [done..|]. intros _. left. congruence. }
  pose proof (rejoin_outcome replies sync now c2) as Ho.
  destruct (do_rejoin_group _ _ _ replies sync now c2) as [c3 [[]|e]]; simpl in *; destruct Ho as [Hk Ho].
  - split_and!; [done..|by apply Hk| |by left]. intros h [= <-]. simpl. lia.
  - split_and!; [done..|by apply Hk|done|]. left. unfold still_rejoining in Ho. intros. exfalso. rewrite Hrj, Er in Ho. rewrite Ho in *; done.
  - split_and!; [done..|by apply Hk|done|]. intros _. destruct Ho as [Ho|]; [left|right; eauto].
    unfold still_rejoining in Ho. rewrite Hrj, Er in Ho. intros. rewrite Ho in *; done.
Qed.

(** What a round of the heartbeat task leaves *)
Definition heartbeat_outcome (id : string) (t1 t2 : Z) (h : HeartbeatState) (outcome : Coordinator * result (option HeartbeatState)) : Prop :=
  let '(c', r) := outcome in
  match r with
  | Ok (Some h') =>
      (t2 - last_ok_heartbeat h' <= session_timeout \/ (are_we_master_flag c' ≠ Some true /\ rejoin_needed c' = true)) /\
      (last_ok_heartbeat h' = t1 \/ last_ok_heartbeat h' = last_ok_heartbeat h) /\
      0 <= sleep_time h' <= Z.max heartbeat_interval retry_backoff
  | Ok None => id = ""%string
  | Raise e => is_kafka_error e = true
  end.

Lemma coordinator_known_raises answers : raises (fun e => is_kafka_error e = true) (coordinator_known answers).
Proof.
  assert (Hl : raises (fun e => is_kafka_error e = true) (lookup_coordinator answers)).
  { induction answers as [|[node []| |[]] answers IH]; simpl; monad_steps. }
  unfold coordinator_known. monad_steps.
Qed.

Lemma try_send_raises {A} (reply : option A) : raises (fun e => is_kafka_error e = true) (try_send reply).
Proof.
  intros c e. unfold try_send, send_req, coordinator_dead, catch, mbind, M_bind, gets, modify, mret, M_ret, raise. simpl.
  destruct (coordinator_id c) eqn:Ec, reply; simpl; rewrite ?Ec; done.
Qed.

Lemma do_heartbeat_raises reply : raises (fun e => is_kafka_error e = true) (do_heartbeat reply).
Proof.
  unfold do_heartbeat. apply raises_bind; [apply try_send_raises|]. intros [[]|]; monad_steps.
Qed.

Lemma dead_role c : settled c ->
  are_we_master_flag (coordinator_dead c).1 ≠ Some true /\ rejoin_needed (coordinator_dead c).1 = true.
Proof.
  unfold coordinator_dead, mbind, M_bind, gets, settled. destruct (coordinator_id c) eqn:E; simpl; [done|]. auto.
Qed.

Lemma heartbeat_round_outcome answers reply t0 t1 t2 h c : t0 <= t1 <= t2 -> settled c ->
  let outcome := heartbeat_round heartbeat_interval retry_backoff session_timeout answers reply t0 t1 t2 h c in
  settled outcome.1 /\ still_rejoining c outcome.1 /\ heartbeat_outcome (member_id c) t1 t2 h outcome.
Proof.
  intros Ht Hc. unfold heartbeat_round. cbv [mbind M_bind gets mret M_ret].
  destruct (String.eqb (member_id c) "") eqn:Em; [apply String.eqb_eq in Em; by split_and!|].
  pose proof (settled_coordinator_known answers c Hc) as Hs1. pose proof (coordinator_known_need answers c) as Hn1.
  pose proof (coordinator_known_raises answers c) as Hr1.
  destruct (coordinator_known answers c) as [c1 [[]|e]]; simpl in *.
  2: { split_and!; [done|unfold still_rejoining; congruence|by apply Hr1]. }
  pose proof (settled_do_heartbeat reply c1 Hs1) as Hs2. pose proof (frame_do_heartbeat reply c1) as (_ & _ & Hn2).
  pose proof (do_heartbeat_raises reply c1) as Hr2.
  destruct (do_heartbeat reply c1) as [c2 [b|e]]; simpl in *.
  2: { split_and!; [done|unfold still_rejoining in *; intros; apply Hn2; congruence|by apply Hr2]. }
  set (h' := if b then _ else _).
  assert (Hh : (last_ok_heartbeat h' = t1 \/ last_ok_heartbeat h' = last_ok_heartbeat h) /\
    0 <= sleep_time h' <= Z.max heartbeat_interval retry_backoff) by (destruct b; simpl; lia).
  clearbody h'. destruct (Z.ltb_spec session_timeout (t2 - last_ok_heartbeat h')).
  - pose proof (settled_coordinator_dead c2 Hs2) as Hs3. pose proof (dead_role c2 Hs2) as Hd.
    assert ((coordinator_dead c2).2 = Ok ()) as Hok
      by (unfold coordinator_dead, mbind, M_bind, gets; by destruct (coordinator_id c2)).
    destruct (coordinator_dead c2) as [c3 r]; simpl in *; subst r. simpl.
    split_and!; [done|by intros _; apply Hd|by right|apply Hh|apply Hh..].
  - simpl. split_and!; [done|unfold still_rejoining in *; intros; apply Hn2; congruence|left; lia|apply Hh|apply Hh..].
Qed.

Lemma membership_heartbeat answers reply t0 t1 t2 s : t0 <= t1 <= t2 -> membership s ->
  membership (heartbeat_step heartbeat_interval retry_backoff session_timeout answers reply t0 t1 t2 s).1.
Proof.
  intros Ht Hm. destruct (Hm) as [H1 H2 H3]. unfold heartbeat_step, catch, on_coord. cbv [mbind M_bind gets mret M_ret modify].
  destruct (heartbeat_task s) as [|h|r] eqn:Eh; [done| |done].
  pose proof (heartbeat_round_outcome answers reply t0 t1 t2 h (coord s) Ht H1) as (Hs & Hn & Ho).
  destruct (heartbeat_round _ _ _ answers reply t0 t1 t2 h (coord s)) as [c' [[h'|]|e]]; simpl in *;
    (split; simpl; [done|by intros|]); [|done..].
  intros h2 [= <-]. apply Ho.
Qed.

Lemma membership_routine answers replies sync now s : membership s ->
  membership (routine_round karapace_version election_strategy waiting_time heartbeat_interval answers replies sync now s).1.
Proof.
  intros Hm. unfold routine_round. cbv [mbind M_bind gets mret M_ret].
  destruct (coordination_task s) as [|[]|r] eqn:Et; [done| |done].
  destruct (bool_decide _); [destruct Hm; by split|].
  pose proof (membership_ensure answers replies sync now s Hm) as He. unfold catch. cbv [mbind M_bind].
  destruct (ensure_membership _ _ _ _ answers replies sync now s) as [s1 r].
  destruct He as (Ht & _ & Hs & Hh & Hr). rewrite Et in Ht. specialize (Hr Et). destruct r as [waits|e].
  - destruct Hr as [Hr|(e & [=] & _)]. destruct waits; [|by split].
    unfold check_background_tasks, push_error_to_user, mbind, M_bind, gets, modify.
    destruct (heartbeat_task s1) as [|h|[[]|e]] eqn:Eh; (split; simpl; try rewrite Eh; auto).
  - destruct (is_kafka_error e) eqn:Ee.
    + destruct Hr as [Hr|(e' & [= <-] & ?)]; [|congruence]. by split.
    + by split.
Qed.

Lemma membership_step e s : on_time e -> membership s -> membership (perform e s).1.
Proof.
  intros He Hm. destruct e as [answers replies sync now|answers reply t0 t1 t2| |now|b]; simpl.
  - by apply membership_routine.
  - by apply membership_heartbeat.
  - rewrite metadata_update_outcome. destruct (bool_decide _); [done|]. destruct Hm as [H1 H2 H3].
    split; simpl; [|done..]. intros Hc. split; [|done]. by apply H1.
  - pose proof (are_we_master_role now (coord s)) as Hr. unfold on_coord, mbind, M_bind.
    destruct (are_we_master waiting_time now (coord s)) as [c' r]. simpl in Hr. destruct Hm as [H1 H2 H3].
    pose proof (settled_role _ _ Hr H1) as Hs. destruct Hr as [[_ Hrj] _]. by destruct r; split; simpl; rewrite ?Hrj.
  - destruct Hm as [H1 H2 H3]. by split.
Qed.

Lemma membership_run trace s : Forall on_time trace -> membership s -> membership (run_tasks trace s).
Proof.
  intros Ht. unfold run_tasks. revert s. induction Ht as [|e trace He _ IH]; intros s Hs; simpl; [done|].
  by apply IH, membership_step.
Qed.

(** C26. The membership of the coordinator. Whatever rounds the coordination routine and the heartbeat task
    take from [start] on, in any order and with any answers of the broker, a member whose coordinator is not
    known does not take itself for the primary and rejoins; as long as the routine itself runs, a member that
    need not rejoin has been given a heartbeat task, which may have ended since; and a running heartbeat task
    sleeps at most the longer of the heartbeat interval and the backoff. An exception ends the routine: after
    an assignment that names no primary the member need not rejoin and has no heartbeat task. *)
Theorem coordinator_membership reader_ready trace : Forall on_time trace ->
  membership (run_tasks trace (started reader_ready)).
Proof.
  intros Ht. apply membership_run, membership_start. done.
Qed.


(** ** A heartbeat task that failed *)

(** The coordinator is open and its metadata is current. *)
Definition open (s : Tasks bytes) : Prop :=
  closing s = Some false /\ metadata_snapshot s = get_metadata_snapshot karapace_version identity.
Definition same_open (s s' : Tasks bytes) : Prop :=
  closing s' = closing s /\ metadata_snapshot s' = metadata_snapshot s.
#[local] Instance same_open_preorder : PreOrder same_open.
Proof. unfold same_open. split; red; intuition congruence. Qed.

Lemma same_open_on_coord {A} (m : M Coordinator A) : steps same_open (on_coord m).
Proof. intros s. unfold on_coord. by destruct (m (coord s)). Qed.
#[local] Hint Resolve same_open_on_coord : karapace.

Lemma same_open_ensure answers replies sync now :
  steps same_open (ensure_membership karapace_version election_strategy waiting_time heartbeat_interval answers replies sync now).
Proof.
  unfold ensure_membership, ensure_active_group, stop_heartbeat_task, start_heartbeat_task. monad_steps; by intros s.
Qed.
#[local] Hint Resolve same_open_ensure : karapace.

Lemma same_open_perform e : e ≠ MetadataUpdate -> steps same_open (perform e).
Proof.
  intros He. destruct e as [answers replies sync now|answers reply t0 t1 t2| |now|b]; simpl; [| |done|apply same_open_on_coord..].
  - unfold routine_round, check_background_tasks, push_error_to_user.
    monad_steps; repeat (apply steps_catch; [typeclasses eauto| |intros]; monad_steps); by intros s.
  - unfold heartbeat_step. monad_steps; repeat (apply steps_catch; [typeclasses eauto| |intros]; monad_steps); by intros s.
Qed.


Lemma open_run trace s : open s -> open (run_tasks trace s).
Proof.
  unfold run_tasks. revert s. induction trace as [|e trace IH]; intros s Hs; simpl; [done|]. apply IH. clear IH.
  assert (Hd : e = MetadataUpdate \/ e ≠ MetadataUpdate) by (destruct e; auto). destruct Hs as [H1 H2], Hd as [->|He].
  - simpl. rewrite metadata_update_outcome. by destruct (bool_decide _).
  - destruct (same_open_perform e He s) as [E1 E2]. split; congruence.
Qed.

(** What the member knows of its group, its role in it and the primary it tells the others. *)
Definition standing (c : Coordinator) : option Z * bool * option bool * option string * Z * string :=
  (coordinator_id c, rejoin_needed c, are_we_master_flag c, master_url c, generation c, member_id c).
Definition same_standing (c c' : Coordinator) : Prop := standing c' = standing c.
#[local] Instance same_standing_preorder : PreOrder same_standing.
Proof. unfold same_standing. split; red; congruence. Qed.

Lemma are_we_master_standing now : steps same_standing (are_we_master waiting_time now).
Proof. unfold are_we_master. monad_steps; by intros c. Qed.

(** The heartbeat task ended with an exception while the member need not rejoin. *)
Record failed (e : exn) (s : Tasks bytes) : Prop := {
  failed_open : open s;
  failed_running : coordination_task s = Running ();
  failed_settled : rejoin_needed (coord s) = false /\ is_Some (coordinator_id (coord s));
  failed_task : heartbeat_task s = Done (Raise e);
}.

Lemma failed_round answers replies sync now e s : failed e s ->
  routine_round karapace_version election_strategy waiting_time heartbeat_interval answers replies sync now s =
  (set_error (Some e) (Some false) (set_coord (coord s) s), Ok ()).
Proof.
  intros [[Ho _] Hr [Hn [i Hi]] Ht]. unfold routine_round, ensure_membership, coordinator_known, need_rejoin, on_coord, catch.
  cbv [mbind M_bind gets mret M_ret]. rewrite Hr. rewrite bool_decide_eq_false_2 by (rewrite Ho; done).
  rewrite Hi. simpl. rewrite Hn. unfold check_background_tasks, mbind, M_bind, gets. simpl. by rewrite Ht.
Qed.

Lemma failed_step ev e s : failed e s -> failed e (perform ev s).1 /\ same_standing (coord s) (coord (perform ev s).1).
Proof.
  intros Hf. pose proof Hf as [[Ho Hs] Hr [Hn Hi] Ht].
  destruct ev as [answers replies sync now|answers reply t0 t1 t2| |now|b]; simpl.
  - rewrite (failed_round _ _ _ _ e) by done. by split.
  - unfold heartbeat_step, mbind, M_bind, gets. rewrite Ht. by split.
  - rewrite metadata_update_outcome, bool_decide_eq_true_2 by done. by split.
  - pose proof (are_we_master_standing now (coord s)) as Hst. unfold on_coord, mbind, M_bind.
    destruct (are_we_master waiting_time now (coord s)) as [c' r]. simpl in Hst. pose proof Hst as [= E1 E2 _ _ _ _].
    destruct r; (split; [split; simpl; [done..|by rewrite E1, E2|done]|done]).
  - by split; [split|].
Qed.

(** C28. A heartbeat task that has ended with an exception while the routine runs and the member need not rejoin is
    not replaced: the routine finds it done at each round and pushes its exception, which nothing consumes, and
    as long as the coordinator is not closed the member keeps its generation and its role. A primary that the
    group has given up remains one. (Where the member must rejoin when the task fails, the next round replaces
    the task.) *)
Theorem failed_heartbeat_is_final reader_ready before trace e : Forall on_time before ->
  let s := run_tasks before (started reader_ready) in
  coordination_task s = Running () -> rejoin_needed (coord s) = false -> heartbeat_task s = Done (Raise e) ->
  let s' := run_tasks trace s in
  heartbeat_task s' = Done (Raise e) /\ coordination_task s' = Running () /\ same_standing (coord s) (coord s').
Proof.
  intros Hb s Hr Hn Ht. assert (Hf : failed e s).
  { split; [|done| |done].
    - apply open_run. by rewrite started_is.
    - split; [done|]. destruct (coordinator_id (coord s)) eqn:Ec; [done|].
      destruct (membership_run before _ Hb (membership_start reader_ready)) as [Hs _ _].
      destruct (Hs Ec) as [_ Hs']. unfold s in Hn. congruence. }
  clearbody s. clear Hr Hn Ht. unfold run_tasks. revert s Hf. induction trace as [|ev trace IH]; intros s Hf; simpl.
  - split_and!; [apply Hf..|done].
  - destruct (failed_step ev e s Hf) as [Hf' Hs]. destruct (IH _ Hf') as (H1 & H2 & H3). split_and!; [done..|by etrans].
Qed.
End tasks.

(** ** Runs *)

Definition demo_identity : MemberIdentity := mkIdentity "a" 8081 "http" true.
Definition demo_assignment : option json :=
  Some (JObj [("master", JStr "a"); ("master_identity", get_member_configuration "1" demo_identity)]%string).
(** The member joins and is elected; the broker refuses its second heartbeat with an error that the code does not
    know. *)
Definition demo_trace : list (TaskEvent (bytes := option json)) :=
  [RoutineRound [LookupFailed true; Found 0 true] [Some (mkJoin NoError "a" 1 "b" [])]
     (fun _ => Some (mkSync NoError demo_assignment)) 1000;
   HeartbeatRound [] (Some NoError) 4000 4010 4020;
   Asked 7000; ReaderReady true].
Definition demo_refused : TaskEvent (bytes := option json) := HeartbeatRound [] (Some OtherErrorType) 7000 7010 7020.
Definition demo_run (trace : list (TaskEvent (bytes := option json))) : Tasks (option json) :=
  run_tasks "1" "lowest" demo_identity 5000 3000 100 10000 trace (started "1" demo_identity true).

Lemma demo_on_time : Forall on_time (demo_trace ++ [demo_refused]).
Proof. repeat constructor; simpl; lia. Qed.

Lemma demo_decode_error (data : option json) e : json_decode data = Raise e -> is_kafka_error e = false.
Proof. destruct data; simpl; [done|]. by intros [= <-]. Qed.

Lemma coordinator_membership_witness :
  membership 3000 100 (demo_run demo_trace) /\ are_we_master_flag (coord (demo_run demo_trace)) = Some true.
Proof.
  split; [|vm_compute; reflexivity].
  apply (coordinator_membership "1" "lowest" demo_identity 5000 3000 100 10000 demo_decode_error); [lia..|].
  repeat constructor; simpl; lia.
Defined.


Lemma failed_heartbeat_is_final_witness :
  let s := demo_run (demo_trace ++ [demo_refused]) in
  let s' := run_tasks "1" "lowest" demo_identity 5000 3000 100 10000 demo_trace s in
  are_we_master_flag (coord s) = Some true /\
  heartbeat_task s' = Done (Raise KafkaError) /\ coordination_task s' = Running () /\ same_standing (coord s) (coord s').
Proof.
  split; [vm_compute; reflexivity|].
  apply (failed_heartbeat_is_final "1" "lowest" demo_identity 5000 3000 100 10000 demo_decode_error ltac:(lia) ltac:(lia)
    true (demo_trace ++ [demo_refused]) demo_trace KafkaError demo_on_time); vm_compute; reflexivity.
Defined.
