(* ===== verification/RegistryClient.v ===== *)
(** * The HTTP client of the registry

    [core/client.py]: the requests that each method of [Client] makes, and [urllib.parse.urljoin] and
    [quote_plus], which make their URLs. The session of aiohttp is a parameter: what it answers to a
    request, and whether a body is JSON. The client is the state; its session is made at the first request.

    The paths under which the routers of [api/routers] serve the calls of Api are given as they are
    declared, for the correspondence of the two sides. *)

From stdpp Require Import pretty.
From S2P Require Import Prelude Json Typing Models Schemas Auth Serialization Controller Api.
Open Scope Z_scope.

(** ** URLs *)

(** [quote_plus] *)
Definition quote_plus_char (c : ascii) : string :=
  if Ascii.eqb c " " then "+" else if Ascii.eqb c "/" then percent 47 else quote_char c.
Fixpoint quote_plus (s : string) : string :=
  match s with EmptyString => EmptyString | String c s' => quote_plus_char c +:+ quote_plus s' end%string.

(** The base of the URLs as [urlparse] splits it: [http] or [https], the host and port, and the path; [None] for the
    empty text. *)
Record ServerUri : Type := mkUri { uri_scheme : string; uri_netloc : string; uri_path : string }.

(** The path and the query, with its question mark, of a reference that has no scheme and no host *)
Fixpoint split_query (s : string) : string * string :=
  match s with
  | EmptyString => (EmptyString, EmptyString)
  | String c s' => if Ascii.eqb c "?" then (EmptyString, s) else let (p, q) := split_query s' in (String c p, q)
  end.

(** [del base_parts[-1]] of a last part that is not empty *)
Definition base_parts (base : string) : list string :=
  let parts := split_char "/" base in
  if String.eqb (List.last parts EmptyString) EmptyString then parts else removelast parts.

(** [segments[1:-1] = filter(None, segments[1:-1])] *)
Definition drop_empty_middle (segments : list string) : list string :=
  match segments with
  | [] => []
  | first :: rest =>
      match rest with
      | [] => [first]
      | _ => first :: List.filter (fun s => negb (String.eqb s EmptyString)) (removelast rest) ++ [List.last rest EmptyString]
      end
  end.

Definition resolve_segment (resolved : list string) (segment : string) : list string :=
  if String.eqb segment ".." then removelast resolved
  else if String.eqb segment "." then resolved
  else resolved ++ [segment].

Definition resolve_path (segments : list string) : list string :=
  let resolved := fold_left resolve_segment segments [] in
  let l := List.last segments EmptyString in
  if String.eqb l "." || String.eqb l ".." then resolved ++ [EmptyString] else resolved.

(** [urljoin], for such a reference *)
Definition urljoin (base : option ServerUri) (url : string) : string :=
  match base with
  | None => url
  | Some b =>
      let (path, query) := split_query url in
      if String.eqb path EmptyString then
        uri_scheme b +:+ "://" +:+ uri_netloc b +:+ uri_path b +:+ query
      else
        let segments := if String.prefix "/" path then split_char "/" path
                        else drop_empty_middle (base_parts (uri_path b) ++ split_char "/" path) in
        let resolved := join_with "/" (resolve_path segments) in
        uri_scheme b +:+ "://" +:+ uri_netloc b +:+
          (if String.eqb resolved EmptyString then "/" else resolved) +:+ query
  end%string.

(** ** The client *)

Inductive Method : Type := GET | DELETE | POST | PUT.

Definition Headers : Type := dict string string.
Inductive Body : Type := NoBody | JsonBody (j : json) | DataBody (j : json).

Record ClientRequest (auth : Type) : Type := mkClientRequest {
  request_method : Method;
  request_url : string;
  request_body : Body;
  request_headers : Headers;
  request_auth : option auth;
  request_params : option (list (string * string));
}.
Arguments mkClientRequest {auth}.
Arguments request_method {auth}.
Arguments request_url {auth}.
Arguments request_body {auth}.
Arguments request_headers {auth}.
Arguments request_auth {auth}.
Arguments request_params {auth}.

(** The answer of the server: its body as [json()] and [json(content_type=None)] read it, and as a text *)
Record ClientResponse : Type := mkClientResponse {
  response_status : Z;
  response_json : result json;
  response_json_any : result json;
  response_text : result string;
}.

Section Client.
Context {session auth : Type}.
(** [client_factory], with the credentials of the session; its [close]; and what it answers to a request *)
Context (client_factory : option auth -> result session) (close_session : session -> result ())
  (send : session -> ClientRequest auth -> result ClientResponse).

Record Client : Type := mkClient { server_uri : option ServerUri; session_auth : option auth; client_session : option session }.

Definition new_client (uri : option ServerUri) (a : option auth) : Client := mkClient uri a None.

Definition path_for (path : string) : M Client string := gets (fun c => urljoin (server_uri c) path).

(** [close]: a failure is logged, and the session stays. *)
Definition close_client : M Client () :=
  c ← gets client_session;
  match c with None => mret () | Some s => catch (lift (close_session s)) (fun _ => mret ()) end.

Definition get_client : M Client session :=
  c ← gets (fun c => c);
  match client_session c with
  | Some s => mret s
  | None =>
      s ← lift (client_factory (session_auth c));
      _ ← modify (fun c => mkClient (server_uri c) (session_auth c) (Some s));
      mret s
  end.

(** The end of each method: the client, its answer to the request, and the result *)
Definition exchange (read : ClientResponse -> result json) (request : ClientRequest auth) : M Client Result :=
  s ← get_client;
  res ← lift (send s request);
  j ← lift (read res);
  mret (mkResult (response_status res) j).

(** [if not headers] *)
Definition headers_or (dflt : Headers) (headers : option Headers) : Headers :=
  match headers with None | Some [] => dflt | Some h => h end.

Definition JSON_HEADERS : Headers := [("Content-Type", "application/vnd.schemaregistry.v1+json")]%string.

Definition read_get (json_response : bool) (res : ClientResponse) : result json :=
  if json_response then response_json_any res else t ← response_text res; Ok (JStr t).
Definition read_unless_empty (res : ClientResponse) : result json :=
  if Z.eqb (response_status res) 204 then Ok (JObj []) else response_json res.

Definition client_get (path : string) (json : option json) (headers : option Headers) (a : option auth)
  (params : option (list (string * string))) (json_response : bool) : M Client Result :=
  url ← path_for path;
  exchange (read_get json_response)
    (mkClientRequest GET url (match json with Some j => JsonBody j | None => NoBody end) (headers_or [] headers) a params).

Definition client_delete (path : string) (headers : option Headers) (a : option auth)
  (params : option (list (string * string))) : M Client Result :=
  url ← path_for path;
  exchange read_unless_empty (mkClientRequest DELETE url NoBody (headers_or [] headers) a params).

Definition client_post (path : string) (j : json) (headers : option Headers) (a : option auth)
  (params : option (list (string * string))) : M Client Result :=
  url ← path_for path;
  exchange read_unless_empty (mkClientRequest POST url (JsonBody j) (headers_or JSON_HEADERS headers) a params).

Definition client_put (path : string) (j : json) (headers : option Headers) (a : option auth) : M Client Result :=
  url ← path_for path;
  exchange response_json (mkClientRequest PUT url (JsonBody j) (headers_or JSON_HEADERS headers) a None).

Definition put_with_data (path : string) (data : json) (headers : Headers) (a : option auth) : M Client Result :=
  url ← path_for path;
  exchange response_json (mkClientRequest PUT url (DataBody data) headers a None).

(** *** One method per resource *)

Inductive VersionArg : Type := VersionNumber (v : Z) | LatestVersion.
Definition version_text (v : VersionArg) : string := match v with VersionNumber v => pretty v | LatestVersion => "latest" end.
Definition lower_bool (b : bool) : string := if b then "true" else "false".

Definition params_t : Type := option (list (string * string)).

Local Open Scope string_scope.

Definition post_compatibility_subject_version (subject : Subject) (version : VersionArg) (j : json) : M Client Result :=
  client_post ("compatibility/subjects/" +:+ quote_plus subject +:+ "/versions/" +:+ version_text version) j None None None.

Definition get_config : M Client Result := client_get "/config" None None None None true.
Definition put_config (j : json) : M Client Result := client_put "/config" j None None.
Definition get_config_subject (subject : Subject) (defaultToGlobal : option bool) : M Client Result :=
  let path := "/config/" +:+ quote_plus subject in
  let path := match defaultToGlobal with Some b => path +:+ "?defaultToGlobal=" +:+ lower_bool b | None => path end in
  client_get path None None None None true.
Definition put_config_subject (subject : Subject) (j : json) : M Client Result :=
  client_put ("config/" +:+ quote_plus subject) j None None.
Definition delete_config_subject (subject : Subject) : M Client Result :=
  client_delete ("config/" +:+ quote_plus subject) None None None.

Definition get_mode : M Client Result := client_get "/mode" None None None None true.
Definition get_mode_subject (subject : Subject) : M Client Result :=
  client_get ("/mode/" +:+ quote_plus subject) None None None None true.

Definition client_get_schemas : M Client Result := client_get "/schemas" None None None None true.
Definition get_types : M Client Result := client_get "/schemas/types" None None None None true.
Definition get_schema_by_id (schema_id : Z) (params : params_t) : M Client Result :=
  client_get ("/schemas/ids/" +:+ pretty schema_id) None None None params true.
Definition get_schema_by_id_versions (schema_id : Z) (params : params_t) : M Client Result :=
  client_get ("/schemas/ids/" +:+ pretty schema_id +:+ "/versions") None None None params true.

Definition get_subjects (params : params_t) : M Client Result := client_get "/subjects" None None None params true.
Definition get_subjects_versions (subject : Subject) : M Client Result :=
  client_get ("subjects/" +:+ quote_plus subject +:+ "/versions") None None None None true.
Definition post_subjects (subject : Subject) (j : json) (params : params_t) : M Client Result :=
  client_post ("/subjects/" +:+ quote_plus subject) j None None params.
Definition post_subjects_versions (subject : Subject) (j : json) (params : params_t) : M Client Result :=
  client_post ("/subjects/" +:+ quote_plus subject +:+ "/versions") j None None params.
Definition get_subjects_subject_version (subject : Subject) (version : VersionArg) (params : params_t) : M Client Result :=
  client_get ("/subjects/" +:+ quote_plus subject +:+ "/versions/" +:+ version_text version) None None None params true.
Definition get_subjects_subject_version_schema (subject : Subject) (version : VersionArg) : M Client Result :=
  client_get ("subjects/" +:+ quote_plus subject +:+ "/versions/" +:+ version_text version +:+ "/schema") None None None None true.
Definition get_subjects_subject_version_referenced_by (subject : Subject) (version : VersionArg) : M Client Result :=
  client_get ("subjects/" +:+ quote_plus subject +:+ "/versions/" +:+ version_text version +:+ "/referencedby")
    None None None None true.
Definition delete_subjects (subject : Subject) (params : params_t) : M Client Result :=
  client_delete ("/subjects/" +:+ quote_plus subject) None None params.
Definition delete_subjects_version (subject : Subject) (version : VersionArg) (permanent : option bool) : M Client Result :=
  let path := "subjects/" +:+ quote_plus subject +:+ "/versions/" +:+ version_text version in
  let path := match permanent with Some b => path +:+ "?permanent=" +:+ lower_bool b | None => path end in
  client_delete path None None None.

(** The requests that [SchemaRegistryClient] makes through a client *)
Definition registry_http (c : Client) : RegistryHttp := {|
  http_get path params := (client_get path None None None (match params with [] => None | _ => Some params end) true c).2;
  http_post path j := (client_post path j None None None c).2;
|}.
End Client.
Arguments Client : clear implicits.

(** ** The routes

    The prefix of each router, and the method and path of each of its handlers *)

Local Open Scope string_scope.

Definition subjects_router (call : Call) : option (Method * string) :=
  match call with
  | GetSubjects _ => Some (GET, "")
  | PostSubject _ _ _ _ => Some (POST, "/{subject}")
  | DeleteSubject _ _ => Some (DELETE, "/{subject}")
  | PostVersion _ _ _ => Some (POST, "/{subject}/versions")
  | GetVersions _ _ => Some (GET, "/{subject}/versions")
  | GetVersion _ _ _ => Some (GET, "/{subject}/versions/{version}")
  | DeleteVersion _ _ _ => Some (DELETE, "/{subject}/versions/{version}")
  | GetVersionSchema _ _ => Some (GET, "/{subject}/versions/{version}/schema")
  | GetReferencedBy _ _ => Some (GET, "/{subject}/versions/{version}/referencedby")
  | _ => None
  end.

Definition config_router (call : Call) : option (Method * string) :=
  match call with
  | GetConfig => Some (GET, "")
  | PutConfig _ => Some (PUT, "")
  | GetSubjectConfig _ _ => Some (GET, "/{subject}")
  | PutSubjectConfig _ _ => Some (PUT, "/{subject}")
  | DeleteSubjectConfig _ => Some (DELETE, "/{subject}")
  | _ => None
  end.

Definition mode_router (call : Call) : option (Method * string) :=
  match call with
  | GetMode => Some (GET, "")
  | GetSubjectMode _ => Some (GET, "/{subject}")
  | _ => None
  end.

Definition compatibility_router (call : Call) : option (Method * string) :=
  match call with PostCompatibility _ _ _ => Some (POST, "/subjects/{subject}/versions/{version}") | _ => None end.

Definition schemas_router (call : Call) : option (Method * string) :=
  match call with
  | GetSchemas _ _ => Some (GET, "")
  | GetSchema _ _ _ _ => Some (GET, "/ids/{schema_id}")
  | GetSchemaVersions _ _ => Some (GET, "/ids/{schema_id}/versions")
  | GetTypes => Some (GET, "/types")
  | _ => None
  end.

Definition routers : list (string * (Call -> option (Method * string))) :=
  [("/compatibility", compatibility_router); ("/config", config_router); ("/mode", mode_router);
   ("/schemas", schemas_router); ("/subjects", subjects_router)].

Definition route_of (call : Call) : option (Method * string) :=
  list_find (fun r => is_true (bool_decide (is_Some (r.2 call)))) routers ≫= fun found =>
  let r := found.2 in m ← r.2 call; Some (m.1, r.1 +:+ m.2).

(** The parts of the path that are parameters of the handler *)
Definition path_arguments (call : Call) : list (string * string) :=
  match call with
  | PostSubject s _ _ _ | DeleteSubject s _ | PostVersion s _ _ | GetVersions s _ | GetSubjectConfig s _
  | PutSubjectConfig s _ | DeleteSubjectConfig s | GetSubjectMode s => [("subject", s)]
  | GetVersion s v _ | DeleteVersion s v _ | GetVersionSchema s v | GetReferencedBy s v
  | PostCompatibility s v _ => [("subject", s); ("version", v)]
  | GetSchema i _ _ _ | GetSchemaVersions i _ => [("schema_id", i)]
  | _ => []
  end.
