(* ===== verification/RegistryClientSpec.v ===== *)
(** * Properties of the registry's client

    The requests of the client's methods have the paths of the routes that serve them, and the handlers find the
    subject in them that the method was called with. *)

From stdpp Require Import pretty.
From S2P Require Import Prelude Json Typing Models Schemas Auth Serialization Controller Api ProtoReader ProtoElements ProtoLayout ProtoTokens RegistryClient.
Open Scope Z_scope.

(** ** Paths *)

(** Every character of a text *)
Fixpoint chars_all (p : ascii -> bool) (s : string) : bool :=
  match s with EmptyString => true | String c s' => p c && chars_all p s' end.
Definition no_slash (c : ascii) : bool := negb (Ascii.eqb c "/").
Definition plain_char (c : ascii) : bool := no_slash c && negb (Ascii.eqb c "?").

Lemma string_app_cons c (a b : string) : (String c a +:+ b = String c (a +:+ b))%string.
Proof. reflexivity. Qed.
Lemma string_app_empty (b : string) : ("" +:+ b = b)%string.
Proof. reflexivity. Qed.

Lemma chars_all_app p a b : chars_all p (a +:+ b) = chars_all p a && chars_all p b.
Proof. induction a as [|c a IH]; [done|]. rewrite string_app_cons. simpl. by rewrite IH, andb_assoc. Qed.

(** A segment of a path that stands for itself *)
Definition segment (s : string) : Prop :=
  chars_all plain_char s = true /\ s ≠ ""%string /\ s ≠ "."%string /\ s ≠ ".."%string.

Lemma split_char_plain s : chars_all plain_char s = true -> split_char "/" s = [s].
Proof.
  induction s as [|c s IH]; simpl; [done|]. intros [Hc Hs]%andb_true_iff. unfold plain_char, no_slash in Hc.
  destruct (Ascii.eqb c "/"); [done|]. by rewrite IH.
Qed.

Lemma split_char_cons s t : chars_all plain_char s = true -> split_char "/" (s +:+ "/" +:+ t) = s :: split_char "/" t.
Proof.
  induction s as [|c s IH]; [done|]. rewrite string_app_cons. simpl. intros [Hc Hs]%andb_true_iff.
  unfold plain_char, no_slash in Hc. destruct (Ascii.eqb c "/"); [done|]. by rewrite IH.
Qed.

Lemma split_join segs : segs ≠ [] -> Forall (fun s => chars_all plain_char s = true) segs ->
  split_char "/" (join_with "/" segs) = segs.
Proof.
  intros Hne H. induction H as [|s segs Hs Hsegs IH]; [done|]. destruct segs as [|s' segs].
  - by apply split_char_plain.
  - change (join_with "/" (s :: s' :: segs)) with (s +:+ "/" +:+ join_with "/" (s' :: segs))%string.
    rewrite split_char_cons by done. by rewrite IH.
Qed.

Lemma resolve_plain segs : Forall (fun s => s ≠ "." /\ s ≠ "..")%string segs -> resolve_path segs = segs.
Proof.
  intros H. unfold resolve_path.
  assert (Hf : forall l acc, Forall (fun s => s ≠ "." /\ s ≠ "..")%string l -> fold_left resolve_segment l acc = acc ++ l).
  { induction l as [|s l IH]; intros acc Hl; simpl; [by rewrite app_nil_r|]. inversion Hl as [|? ? [H1 H2] Hl']; subst.
    unfold resolve_segment at 2. apply String.eqb_neq in H1, H2. rewrite H1, H2, IH by done. by rewrite <- app_assoc. }
  rewrite Hf by done. simpl. destruct segs as [|s segs] using rev_ind; [done|]. rewrite List.last_last.
  apply Forall_app in H as [_ H]. inversion H as [|? ? [H1 H2] _]; subst. apply String.eqb_neq in H1, H2. by rewrite H1, H2.
Qed.

Lemma split_query_plain p q : chars_all (fun c => negb (Ascii.eqb c "?")) p = true ->
  (q = "" \/ exists q', q = String "?" q')%string -> split_query (p +:+ q) = (p, q).
Proof.
  intros Hp Hq. induction p as [|c p IH].
  - by destruct Hq as [->|[q' ->]].
  - rewrite string_app_cons. simpl in *. apply andb_true_iff in Hp as [Hc Hp]. destruct (Ascii.eqb c "?"); [done|]. by rewrite IH.
Qed.

Lemma chars_all_impl (p q : ascii -> bool) s : (forall c, p c = true -> q c = true) -> chars_all p s = true -> chars_all q s = true.
Proof. intros H. induction s as [|c s IH]; simpl; [done|]. intros [? ?]%andb_true_iff. apply andb_true_iff. auto. Qed.

Lemma join_no_query segs : Forall segment segs -> chars_all (fun c => negb (Ascii.eqb c "?")) (join_with "/" segs) = true.
Proof.
  induction 1 as [|s segs [Hs _] _ IH]; [done|]. assert (Hs' : chars_all (fun c => negb (Ascii.eqb c "?")) s = true).
  { eapply chars_all_impl; [|exact Hs]. intros c. unfold plain_char. by intros [_ ?]%andb_true_iff. }
  destruct segs as [|s' segs]; [done|].
  change (join_with "/" (s :: s' :: segs)) with (s +:+ "/" +:+ join_with "/" (s' :: segs))%string.
  rewrite chars_all_app, Hs'. by rewrite chars_all_app, IH.
Qed.

Definition is_query (q : string) : Prop := (q = "" \/ exists q', q = String "?" q' /\ chars_all no_slash q' = true)%string.

Lemma is_query_shape q : is_query q -> (q = "" \/ exists q', q = String "?" q')%string.
Proof. intros [->|(q' & -> & _)]; eauto. Qed.

(** The root of the server's URLs *)
Definition origin (b : ServerUri) : string := (uri_scheme b +:+ "://" +:+ uri_netloc b)%string.
Definition at_root (b : ServerUri) : Prop := (uri_path b = "" \/ uri_path b = "/")%string.

Lemma join_nonempty segs : segs ≠ [] -> Forall segment segs ->
  exists c t, join_with "/" segs = String c t /\ c ≠ "/"%char.
Proof.
  intros Hne H. inversion H as [|s l [Hs (Hn & _)] _]; subst; [done|]. destruct s as [|c s]; [done|].
  simpl in Hs. apply andb_true_iff in Hs as [Hc _]. exists c.
  assert (c ≠ "/"%char) by (intros ->; done). destruct l as [|s' l]; [by exists s|].
  exists (s +:+ "/" +:+ join_with "/" (s' :: l))%string. split; [|done].
  change (join_with "/" (String c s :: s' :: l)) with (String c s +:+ "/" +:+ join_with "/" (s' :: l))%string. done.
Qed.

Lemma segments_plain segs : Forall segment segs -> Forall (fun s => chars_all plain_char s = true) segs.
Proof. intros H. eapply Forall_impl; [exact H|]. intros s. by intros [? _]. Qed.
Lemma segments_resolve segs : Forall segment segs -> resolve_path segs = segs.
Proof. intros H. apply resolve_plain. eapply Forall_impl; [exact H|]. intros s (_ & _ & ? & ?). done. Qed.

Lemma drop_empty_segments pre segs : segs ≠ [] -> Forall segment segs -> Forall (eq EmptyString) pre ->
  drop_empty_middle (EmptyString :: pre ++ segs) = EmptyString :: segs.
Proof.
  intros Hne H Hpre. unfold drop_empty_middle. destruct segs as [|s segs _] using rev_ind; [done|].
  rewrite app_assoc, removelast_last, List.last_last. apply Forall_app in H as [H _].
  assert (Hf : List.filter (fun s => negb (String.eqb s EmptyString)) (pre ++ segs) = segs).
  { induction Hpre as [|x pre <- _ IH]; [|done]. simpl. clear Hne. induction H as [|x l (_ & Hx & _) _ IH]; [done|].
    simpl. apply String.eqb_neq in Hx. rewrite Hx. simpl. by f_equal. }
  rewrite Hf. by destruct (pre ++ segs).
Qed.

(** A path of segments, absolute or not, is joined at the root. *)
Lemma urljoin_segments b (absolute : bool) segs q : at_root b -> segs ≠ [] -> Forall segment segs -> is_query q ->
  urljoin (Some b) ((if absolute then "/" else "") +:+ join_with "/" segs +:+ q) =
  (origin b +:+ ("/" +:+ join_with "/" segs) +:+ q)%string.
Proof.
  intros Hb Hne Hsegs Hq. unfold urljoin. rewrite <- string_app_assoc.
  pose proof (join_no_query segs Hsegs) as Hnq. destruct (join_nonempty segs Hne Hsegs) as (c & t & Hj & Hc).
  assert (Hseg : resolve_path (EmptyString :: segs) = EmptyString :: segs).
  { apply resolve_plain. constructor; [done|]. eapply Forall_impl; [exact Hsegs|]. intros s (_ & _ & ? & ?). done. }
  assert (Hjoin : join_with "/" (EmptyString :: segs) = ("/" +:+ join_with "/" segs)%string) by (by destruct segs).
  rewrite split_query_plain; [|rewrite chars_all_app, Hnq; by destruct absolute|by apply is_query_shape].
  assert (Habs : split_char "/" ("/" +:+ join_with "/" segs) = EmptyString :: segs).
  { change ("/" +:+ join_with "/" segs)%string with (EmptyString +:+ "/" +:+ join_with "/" segs)%string.
    rewrite split_char_cons by done. by rewrite split_join by (auto using segments_plain). }
  destruct absolute.
  - assert (Hp : String.prefix "/" ("/" +:+ join_with "/" segs) = true) by (by rewrite Hj). rewrite Hp, Habs, Hseg, Hjoin.
    unfold origin. by rewrite !string_app_assoc.
  - rewrite string_app_empty. assert (Hp : String.prefix "/" (join_with "/" segs) = false).
    { rewrite Hj. change (String.prefix "/" (String c t)) with (if ascii_dec "/" c then String.prefix "" t else false).
      destruct (ascii_dec "/" c); [congruence|done]. }
    rewrite Hp, split_join by (auto using segments_plain). rewrite Hj. simpl (String.eqb (String c t) ""). rewrite <- Hj.
    replace (base_parts (uri_path b) ++ segs) with (EmptyString :: (if String.eqb (uri_path b) "/" then [EmptyString] else []) ++ segs)
      by (by destruct Hb as [-> | ->]).
    rewrite drop_empty_segments; [|done|done|by destruct (String.eqb _ _); repeat constructor].
    rewrite Hseg, Hjoin. unfold origin. by rewrite !string_app_assoc.
Qed.

(** *** What the server makes of the path *)

Lemma string_last s : s ≠ EmptyString -> exists a c, s = (a +:+ String c "")%string.
Proof.
  induction s as [|c s IH]; [done|]. intros _. destruct s as [|d s]; [by exists EmptyString, c|].
  destruct IH as (a & e & E); [done|]. exists (String c a), e. by rewrite string_app_cons, <- E.
Qed.

Lemma length_snoc a c : String.length (a +:+ String c "")%string = S (String.length a).
Proof. induction a as [|x a IH]; [done|]. rewrite string_app_cons. simpl. by rewrite IH. Qed.

Lemma substring_last a c : String.substring (String.length a) 1 (a +:+ String c "")%string = String c "".
Proof. induction a as [|x a IH]; [done|]. rewrite string_app_cons. simpl. done. Qed.

Lemma drop_last_slash_no a b : b ≠ EmptyString -> chars_all no_slash b = true -> drop_last_slash (a +:+ b) = (a +:+ b)%string.
Proof.
  intros Hb Hs. destruct (string_last b Hb) as (b' & c & ->). rewrite chars_all_app in Hs.
  apply andb_true_iff in Hs as [_ Hs]. simpl in Hs. rewrite <- string_app_assoc. unfold drop_last_slash.
  rewrite length_snoc. replace (S (String.length (a +:+ b')%string) - 1)%nat with (String.length (a +:+ b')%string) by lia.
  rewrite substring_last. unfold no_slash in Hs. simpl (String.eqb (String c "") "/").
  destruct (Ascii.eqb c "/"); [done|]. by rewrite andb_false_r.
Qed.

Lemma drop_query_plain p q : chars_all (fun c => negb (Ascii.eqb c "?")) p = true -> is_query q ->
  chars_all (fun c => negb (Ascii.eqb c (ascii_of_nat 10))) q = true -> drop_query false (p +:+ q) = p.
Proof.
  intros Hp Hq Hn. induction p as [|c p IH].
  - destruct Hq as [->|(q' & -> & _)]; [done|]. rewrite string_app_empty. simpl in *.
    induction q' as [|d q' IH]; [done|]. simpl in *. destruct (Ascii.eqb d (ascii_of_nat 10)); [done|]. by apply IH.
  - rewrite string_app_cons. simpl in *. destruct (Ascii.eqb c "?"); [done|]. f_equal. by apply IH.
Qed.

(** The segments but the last, each with its slash *)
Fixpoint init_segments (segs : list string) : string :=
  match segs with [] | [_] => "" | s :: l => s +:+ "/" +:+ init_segments l end%string.

Lemma join_last segs : segs ≠ [] -> join_with "/" segs = (init_segments segs +:+ List.last segs EmptyString)%string.
Proof.
  induction segs as [|s segs IH]; [done|]. intros _. destruct segs as [|s' segs]; [done|].
  change (join_with "/" (s :: s' :: segs)) with (s +:+ "/" +:+ join_with "/" (s' :: segs))%string.
  rewrite IH by done. change (init_segments (s :: s' :: segs)) with (s +:+ "/" +:+ init_segments (s' :: segs))%string.
  by rewrite !string_app_assoc.
Qed.

Lemma route_path_segments segs q : segs ≠ [] -> Forall segment segs -> is_query q ->
  chars_all (fun c => negb (Ascii.eqb c (ascii_of_nat 10))) q = true ->
  route_path (Some (("/" +:+ join_with "/" segs) +:+ q)%string) = Ok ("/" +:+ join_with "/" segs)%string.
Proof.
  intros Hne Hsegs Hq Hn. unfold route_path. f_equal.
  assert (Hl : segment (List.last segs EmptyString)).
  { destruct segs as [|s segs _] using rev_ind; [done|]. rewrite List.last_last. apply Forall_app in Hsegs as [_ Hx].
    by inversion Hx. }
  assert (Hno : chars_all no_slash (List.last segs EmptyString +:+ q)%string = true).
  { rewrite chars_all_app. apply andb_true_iff. split.
    - eapply chars_all_impl; [|apply Hl]. intros c. unfold plain_char. by intros [? _]%andb_true_iff.
    - by destruct Hq as [->|(q' & -> & ?)]. }
  assert (E : (("/" +:+ join_with "/" segs) +:+ q = ("/" +:+ init_segments segs) +:+ (List.last segs "" +:+ q))%string)
    by (rewrite join_last by done; by rewrite !string_app_assoc).
  rewrite E, drop_last_slash_no; [rewrite <- E| |done].
  - apply drop_query_plain; [|done..]. rewrite chars_all_app. simpl. by apply join_no_query.
  - destruct Hl as (_ & Hl & _). by destruct (List.last segs EmptyString).
Qed.

(** ** Quoting *)

Lemma quote_plus_char_facts c :
  chars_all plain_char (quote_plus_char c) = true /\ (exists d t, quote_plus_char c = String d t /\ (d = "."%char -> t = ""%string /\ c = "."%char)).
Proof. destruct c as [[] [] [] [] [] [] [] []]; (split; [reflexivity|]; eexists _, _; split; [vm_compute; reflexivity|]; (discriminate || (intros _; split; reflexivity))). Qed.

Lemma quote_plus_plain s : chars_all plain_char (quote_plus s) = true.
Proof. induction s as [|c s IH]; [done|]. simpl. rewrite chars_all_app, IH. by destruct (quote_plus_char_facts c) as [-> _]. Qed.

Lemma quote_plus_empty s : quote_plus s = EmptyString -> s = EmptyString.
Proof. destruct s as [|c s]; [done|]. simpl. by destruct (quote_plus_char_facts c) as [_ (d & t & -> & _)]. Qed.

Lemma quote_plus_dot s t : quote_plus s = String "." t -> exists s', s = String "." s' /\ quote_plus s' = t.
Proof.
  destruct s as [|c s]; [done|]. simpl. destruct (quote_plus_char_facts c) as [_ (d & r & -> & Hd)].
  rewrite string_app_cons. intros [= -> Ht]. destruct (Hd eq_refl) as [-> ->]. exists s. by split.
Qed.

(** A subject that the URL does not resolve away *)
Definition proper (s : Subject) : Prop := (s ≠ "" /\ s ≠ "." /\ s ≠ "..")%string.

Lemma quote_plus_segment s : proper s -> segment (quote_plus s).
Proof.
  intros (H0 & H1 & H2). split; [apply quote_plus_plain|]. split_and!.
  - intros E. by apply quote_plus_empty in E.
  - intros E. apply quote_plus_dot in E as (s' & -> & E%quote_plus_empty). by subst.
  - intros E. apply quote_plus_dot in E as (s' & -> & E). apply quote_plus_dot in E as (s'' & -> & E%quote_plus_empty). by subst.
Qed.

Lemma chars_all_text p s : chars_all p s = forallb p (to_text s).
Proof. induction s as [|c s IH]; [done|]. simpl. by rewrite IH. Qed.

Lemma word_char_plain c : is_word_char c = true -> plain_char c = true.
Proof. by destruct c as [[] [] [] [] [] [] [] []]. Qed.

Lemma pretty_segment (z : Z) : segment (pretty z).
Proof.
  destruct (show_Z_spec z) as (Hw & _ & Hi). unfold is_word, show_Z in Hw. apply andb_true_iff in Hw as [Hn Hw]. split_and!.
  - eapply chars_all_impl; [apply word_char_plain|]. by rewrite chars_all_text.
  - intros E. by rewrite E in Hn.
  - intros E. by rewrite E in Hi.
  - intros E. by rewrite E in Hi.
Qed.

Lemma version_segment v : segment (version_text v).
Proof. destruct v; [apply pretty_segment|]. by split_and!. Qed.

(** ** The methods of the client *)

Inductive ClientCall : Type :=
  | CPostCompatibility (subject : Subject) (version : VersionArg) (body : json)
  | CGetConfig
  | CPutConfig (body : json)
  | CGetConfigSubject (subject : Subject) (defaultToGlobal : option bool)
  | CPutConfigSubject (subject : Subject) (body : json)
  | CDeleteConfigSubject (subject : Subject)
  | CGetMode
  | CGetModeSubject (subject : Subject)
  | CGetSchemas
  | CGetTypes
  | CGetSchemaById (schema_id : Z) (params : params_t)
  | CGetSchemaByIdVersions (schema_id : Z) (params : params_t)
  | CGetSubjects (params : params_t)
  | CGetSubjectsVersions (subject : Subject)
  | CPostSubjects (subject : Subject) (body : json) (params : params_t)
  | CPostSubjectsVersions (subject : Subject) (body : json) (params : params_t)
  | CGetVersion (subject : Subject) (version : VersionArg) (params : params_t)
  | CGetVersionSchema (subject : Subject) (version : VersionArg)
  | CGetReferencedBy (subject : Subject) (version : VersionArg)
  | CDeleteSubjects (subject : Subject) (params : params_t)
  | CDeleteVersion (subject : Subject) (version : VersionArg) (permanent : option bool).

Definition called_subject (call : ClientCall) : option Subject :=
  match call with
  | CPostCompatibility s _ _ | CGetConfigSubject s _ | CPutConfigSubject s _ | CDeleteConfigSubject s
  | CGetModeSubject s | CGetSubjectsVersions s | CPostSubjects s _ _ | CPostSubjectsVersions s _ _ | CGetVersion s _ _
  | CGetVersionSchema s _ | CGetReferencedBy s _ | CDeleteSubjects s _ | CDeleteVersion s _ _ => Some s
  | _ => None
  end.

(** The call of the API that a method is meant for, with the path arguments that its URL shall have; [r] and [flag] stand
    for what the server reads from the body and the query. *)
Definition api_call (r : SchemaRequest) (level : string) (flag : bool) (call : ClientCall) : Call :=
  match call with
  | CPostCompatibility s v _ => PostCompatibility (quote_plus s) (version_text v) r
  | CGetConfig => GetConfig
  | CPutConfig _ => PutConfig level
  | CGetConfigSubject s _ => GetSubjectConfig (quote_plus s) flag
  | CPutConfigSubject s _ => PutSubjectConfig (quote_plus s) level
  | CDeleteConfigSubject s => DeleteSubjectConfig (quote_plus s)
  | CGetMode => GetMode
  | CGetModeSubject s => GetSubjectMode (quote_plus s)
  | CGetSchemas => GetSchemas flag flag
  | CGetTypes => GetTypes
  | CGetSchemaById i _ => GetSchema (pretty i) flag flag level
  | CGetSchemaByIdVersions i _ => GetSchemaVersions (pretty i) flag
  | CGetSubjects _ => GetSubjects flag
  | CGetSubjectsVersions s => GetVersions (quote_plus s) flag
  | CPostSubjects s _ _ => PostSubject (quote_plus s) r flag flag
  | CPostSubjectsVersions s _ _ => PostVersion (quote_plus s) r flag
  | CGetVersion s v _ => GetVersion (quote_plus s) (version_text v) flag
  | CGetVersionSchema s v => GetVersionSchema (quote_plus s) (version_text v)
  | CGetReferencedBy s v => GetReferencedBy (quote_plus s) (version_text v)
  | CDeleteSubjects s _ => DeleteSubject (quote_plus s) flag
  | CDeleteVersion s v _ => DeleteVersion (quote_plus s) (version_text v) flag
  end.

(** A path of the routers with its parameters filled in *)
Fixpoint fill (args : list (string * string)) (name : option string) (template : string) : string :=
  match template with
  | EmptyString => EmptyString
  | String c t =>
      match name with
      | None => if Ascii.eqb c "{" then fill args (Some EmptyString) t else String c (fill args None t)
      | Some n =>
          if Ascii.eqb c "}" then default EmptyString (dget n args) +:+ fill args None t
          else fill args (Some (n +:+ String c EmptyString)) t
      end
  end%string.

Section methods.
Context {session auth : Type}.
Context (client_factory : option auth -> result session) (send : session -> ClientRequest auth -> result ClientResponse).

Definition perform_call (call : ClientCall) : M (Client session auth) Result :=
  match call with
  | CPostCompatibility s v j => post_compatibility_subject_version client_factory send s v j
  | CGetConfig => get_config client_factory send
  | CPutConfig j => put_config client_factory send j
  | CGetConfigSubject s b => get_config_subject client_factory send s b
  | CPutConfigSubject s j => put_config_subject client_factory send s j
  | CDeleteConfigSubject s => delete_config_subject client_factory send s
  | CGetMode => get_mode client_factory send
  | CGetModeSubject s => get_mode_subject client_factory send s
  | CGetSchemas => client_get_schemas client_factory send
  | CGetTypes => get_types client_factory send
  | CGetSchemaById i p => get_schema_by_id client_factory send i p
  | CGetSchemaByIdVersions i p => get_schema_by_id_versions client_factory send i p
  | CGetSubjects p => get_subjects client_factory send p
  | CGetSubjectsVersions s => get_subjects_versions client_factory send s
  | CPostSubjects s j p => post_subjects client_factory send s j p
  | CPostSubjectsVersions s j p => post_subjects_versions client_factory send s j p
  | CGetVersion s v p => get_subjects_subject_version client_factory send s v p
  | CGetVersionSchema s v => get_subjects_subject_version_schema client_factory send s v
  | CGetReferencedBy s v => get_subjects_subject_version_referenced_by client_factory send s v
  | CDeleteSubjects s p => delete_subjects client_factory send s p
  | CDeleteVersion s v b => delete_subjects_version client_factory send s v b
  end.

(** A method sends one request, whose URL is the joined path. *)
Definition requests (m : Method) (url : string) (run : M (Client session auth) Result) : Prop :=
  exists read body headers a params, forall c : Client session auth,
    run c = exchange client_factory send read (mkClientRequest m (urljoin (server_uri c) url) body headers a params) c.

Definition query_of (name : string) (b : option bool) : string :=
  match b with None => "" | Some b => "?" +:+ name +:+ "=" +:+ lower_bool b end%string.

(** The URL of a method: whether its path is absolute, its segments and its query *)
Definition call_url (call : ClientCall) : bool * list string * string :=
  match call with
  | CPostCompatibility s v _ => (false, ["compatibility"; "subjects"; quote_plus s; "versions"; version_text v], "")
  | CGetConfig | CPutConfig _ => (true, ["config"], "")
  | CGetConfigSubject s b => (true, ["config"; quote_plus s], query_of "defaultToGlobal" b)
  | CPutConfigSubject s _ | CDeleteConfigSubject s => (false, ["config"; quote_plus s], "")
  | CGetMode => (true, ["mode"], "")
  | CGetModeSubject s => (true, ["mode"; quote_plus s], "")
  | CGetSchemas => (true, ["schemas"], "")
  | CGetTypes => (true, ["schemas"; "types"], "")
  | CGetSchemaById i _ => (true, ["schemas"; "ids"; pretty i], "")
  | CGetSchemaByIdVersions i _ => (true, ["schemas"; "ids"; pretty i; "versions"], "")
  | CGetSubjects _ => (true, ["subjects"], "")
  | CGetSubjectsVersions s => (false, ["subjects"; quote_plus s; "versions"], "")
  | CPostSubjects s _ _ | CDeleteSubjects s _ => (true, ["subjects"; quote_plus s], "")
  | CPostSubjectsVersions s _ _ => (true, ["subjects"; quote_plus s; "versions"], "")
  | CGetVersion s v _ => (true, ["subjects"; quote_plus s; "versions"; version_text v], "")
  | CGetVersionSchema s v => (false, ["subjects"; quote_plus s; "versions"; version_text v; "schema"], "")
  | CGetReferencedBy s v => (false, ["subjects"; quote_plus s; "versions"; version_text v; "referencedby"], "")
  | CDeleteVersion s v b => (false, ["subjects"; quote_plus s; "versions"; version_text v], query_of "permanent" b)
  end%string.

Definition call_path (call : ClientCall) : string := ("/" +:+ join_with "/" (call_url call).1.2)%string.
Definition call_query (call : ClientCall) : string := (call_url call).2.

Lemma call_segments call : (forall s, called_subject call = Some s -> proper s) -> Forall segment (call_url call).1.2.
Proof.
  intros H. destruct call; simpl; repeat (apply Forall_cons; split);
    try (by apply Forall_nil); try (by split_and!); try apply version_segment; try apply pretty_segment;
    apply quote_plus_segment, H; reflexivity.
Qed.

Lemma call_query_ok call : is_query (call_query call) /\
  chars_all (fun c => negb (Ascii.eqb c (ascii_of_nat 10))) (call_query call) = true.
Proof.
  assert (Hq : forall name b, chars_all no_slash name = true -> chars_all (fun c => negb (Ascii.eqb c (ascii_of_nat 10))) name = true ->
    is_query (query_of name b) /\ chars_all (fun c => negb (Ascii.eqb c (ascii_of_nat 10))) (query_of name b) = true).
  { intros name [b|] H1 H2; [|split; [by left|done]]. unfold query_of. split.
    - right. eexists. split; [reflexivity|]. rewrite chars_all_app, H1. by destruct b.
    - rewrite !chars_all_app, H2. by destruct b. }
  destruct call; try (split; [by left|reflexivity]); by apply Hq.
Qed.

Lemma perform_requests r level flag call m template : route_of (api_call r level flag call) = Some (m, template) ->
  requests m
    ((if (call_url call).1.1 then "/" else "") +:+ join_with "/" (call_url call).1.2 +:+ call_query call) (perform_call call).
Proof.
  intros Hm.
  assert (Hr : exists url, requests m url (perform_call call) /\
    url = ((if (call_url call).1.1 then "/" else "") +:+ join_with "/" (call_url call).1.2 +:+ call_query call)%string).
  { destruct call; vm_compute in Hm; injection Hm as <- <-;
      (eexists; split; [do 5 eexists; intros c; reflexivity|]); unfold call_query; simpl;
      rewrite ?string_app_nil; try reflexivity.
    - destruct defaultToGlobal; [|by rewrite string_app_nil]. rewrite !string_app_assoc. reflexivity.
    - destruct permanent; [|by rewrite string_app_nil]. rewrite !string_app_assoc. reflexivity. }
  destruct Hr as (url & Hr & <-). exact Hr.
Qed.

(** The path of a method is the path of its route with the arguments filled in. *)
Lemma call_route r level flag call : exists m template,
  route_of (api_call r level flag call) = Some (m, template) /\
  call_path call = fill (path_arguments (api_call r level flag call)) None template.
Proof.
  destruct call; (eexists _, _; split; [reflexivity|]); unfold call_path; simpl; unfold dget; simpl;
    rewrite ?string_app_nil; reflexivity.
Qed.

Lemma call_arguments r level flag call : (forall s, called_subject call = Some s -> proper s) ->
  Forall (fun a => segment a.2) (path_arguments (api_call r level flag call)).
Proof.
  intros H. destruct call; simpl; repeat (apply Forall_cons; split);
    try (by apply Forall_nil); try apply version_segment; try apply pretty_segment;
    apply quote_plus_segment, H; reflexivity.
Qed.

(** ** The two sides *)

Context `{!WebLib}.
(** Unquoting undoes quoting. *)
Context (unquote_quote : forall s, unquote_plus (quote_plus s) = s).

(** C40. The client and the routers agree, for a server whose URL has no path of its own and a subject that is neither
    empty nor a dot segment. Each method of the client then makes one request, with the HTTP method of the route of the
    call it is meant for; what the server matches is the path of that route, filled with arguments that are not empty
    and contain no slash, whatever other characters the subject has, and the subject the handler works on is the one
    the method was called with. For the URLs and subjects that are left out this fails ([server_path_lost],
    [dot_subject_resolved]). *)
Theorem client_reaches_route r level flag call (c : Client session auth) b :
  server_uri c = Some b -> at_root b -> (forall s, called_subject call = Some s -> proper s) ->
  exists read body headers a params m template path query,
    perform_call call c =
      exchange client_factory send read (mkClientRequest m (origin b +:+ path +:+ query)%string body headers a params) c /\
    route_of (api_call r level flag call) = Some (m, template) /\
    route_path (Some (path +:+ query)%string) = Ok (fill (path_arguments (api_call r level flag call)) None template) /\
    Forall (fun a => a.2 ≠ ""%string /\ chars_all no_slash a.2 = true) (path_arguments (api_call r level flag call)) /\
    option_map unquote_plus (path_subject (api_call r level flag call)) = called_subject call.
Proof.
  intros Hc Hb Hs. destruct (call_route r level flag call) as (m & template & Hm & Hp).
  destruct (perform_requests r level flag call m template Hm) as (read & body & headers & a & params & Hr).
  destruct (call_query_ok call) as [Hq Hn]. pose proof (call_segments call Hs) as Hseg.
  assert (Hne : (call_url call).1.2 ≠ []) by (by destruct call).
  exists read, body, headers, a, params, m, template, (call_path call), (call_query call). split_and!.
  - rewrite Hr, Hc. by rewrite urljoin_segments.
  - done.
  - rewrite <- Hp. by apply route_path_segments.
  - eapply Forall_impl; [by apply call_arguments|]. intros x (Hx & H0 & _). split; [done|].
    eapply chars_all_impl; [|exact Hx]. intros ch. unfold plain_char. by intros [? _]%andb_true_iff.
  - destruct call; simpl; rewrite ?unquote_quote; reflexivity.
Qed.
End methods.

(** ** Quoting undone, and URLs that go elsewhere *)

Definition hex_value (c : ascii) : N := let n := N_of_ascii c in if (n <? 58)%N then n - 48 else n - 55.

(** The texts that [quote_plus] makes, read back *)
Fixpoint unquote_text (s : string) : string :=
  match s with
  | String "%" (String a (String b t)) =>
      let n := (16 * hex_value a + hex_value b)%N in
      if (n <? 128)%N then String (ascii_of_N n) (unquote_text t)
      else match t with
           | String _ (String d (String e t)) =>
               String (ascii_of_N ((n - 192) * 64 + (16 * hex_value d + hex_value e - 128))) (unquote_text t)
           | _ => EmptyString
           end
  | String c t => String (if Ascii.eqb c "+" then " "%char else c) (unquote_text t)
  | EmptyString => EmptyString
  end.

Lemma unquote_text_quote s : unquote_text (quote_plus s) = s.
Proof.
  induction s as [|c s IH]; [done|]. transitivity (String c (unquote_text (quote_plus s))); [|by rewrite IH].
  simpl quote_plus. destruct c as [[] [] [] [] [] [] [] []]; reflexivity.
Qed.

Definition text_web : WebLib := {|
  unquote_plus := unquote_text; get_best_match _ _ := None; jwt_decode _ _ _ := Raise ValueError;
  parse_raw_master_available _ := Raise ValueError;
|}.

Definition demo_uri : ServerUri := mkUri "http" "registry:8081" "".
Definition demo_answer (s : unit) (r : ClientRequest unit) : result ClientResponse :=
  Ok (mkClientResponse 200 (Ok (JInt 1)) (Ok (JInt 1)) (Ok "1"%string)).

(** The deletion of a version of the subject [a/b c] *)
Lemma client_reaches_route_witness :
  let call := CDeleteVersion "a/b c" (VersionNumber 2) (Some true) in
  call_path call = "/subjects/a%2Fb+c/versions/2"%string /\
  exists read body headers a params m template path query,
    perform_call (session := unit) (auth := unit) (fun _ => Ok tt) demo_answer call (new_client (Some demo_uri) None) =
      exchange (fun _ => Ok tt) demo_answer read
        (mkClientRequest m (origin demo_uri +:+ path +:+ query)%string body headers a params) (new_client (Some demo_uri) None) /\
    route_of (api_call (mkSchemaRequest "" AVRO None) "" true call) = Some (m, template) /\
    route_path (Some (path +:+ query)%string) =
      Ok (fill (path_arguments (api_call (mkSchemaRequest "" AVRO None) "" true call)) None template) /\
    Forall (fun a => a.2 ≠ ""%string /\ chars_all no_slash a.2 = true)
      (path_arguments (api_call (mkSchemaRequest "" AVRO None) "" true call)) /\
    option_map (@unquote_plus text_web) (path_subject (api_call (mkSchemaRequest "" AVRO None) "" true call)) =
      called_subject call.
Proof.
  split; [vm_compute; reflexivity|].
  apply (client_reaches_route (H := text_web) (fun _ => Ok tt) demo_answer unquote_text_quote (mkSchemaRequest "" AVRO None) "" true
    (CDeleteVersion "a/b c" (VersionNumber 2) (Some true)) (new_client (Some demo_uri) None) demo_uri).
  - reflexivity.
  - left; reflexivity.
  - intros s [= <-]. split_and!; discriminate.
Defined.

(** The subject that is a dot segment: its versions are asked for at the root. *)
Lemma dot_subject_resolved : urljoin (Some demo_uri) (("/subjects/" +:+ quote_plus ".." +:+ "/versions")%string) =
  "http://registry:8081/versions"%string.
Proof. reflexivity. Qed.

(** A path of the server's URL is kept for the relative paths and lost for the absolute ones. *)
Lemma server_path_lost :
  urljoin (Some (mkUri "http" "host" "/registry/")) "config/s" = "http://host/registry/config/s"%string /\
  urljoin (Some (mkUri "http" "host" "/registry/")) "/config/s" = "http://host/config/s"%string.
Proof. split; reflexivity. Qed.
