(* ===== verification/KafkaSetup.v ===== *)
(** * Settings of the Kafka clients and the start of the schema reader

    [_get_config_from_params] and the construction of the clients ([core/kafka/common.py],
    [core/kafka/consumer.py], [core/kafka/producer.py]), the settings that [core/kafka_utils.py], the schema reader and
    the coordinator pass, and [KafkaSchemaReader.run]: creating the clients and the topic, subscribing, and the loop of
    Reader. What the constructors and the brokers answer is an argument; the answers of a loop that has not ended
    leave it without an outcome. *)

From S2P Require Import Prelude Json Typing Models Schemas Database KafkaClient KafkaAdmin KeyFormat OffsetWatcher Reader.
Open Scope Z_scope.

(** ** Settings *)

Inductive Setting : Type := StrSetting (s : string) | IntSetting (z : Z) | BoolSetting (b : bool) | ErrorCallback | TokenCallback.

(** The parameters of a client: [None] is a value; a token provider is one of them. *)
Definition ClientParams : Type := dict string (option Setting).

(** The fields of [Config] that the clients are made of *)
Record KafkaSettings : Type := mkKafkaSettings {
  bootstrap_uri : string;
  client_id : string;
  security_protocol : string;
  cfg_ssl_cafile : option string;
  cfg_ssl_certfile : option string;
  cfg_ssl_keyfile : option string;
  cfg_sasl_mechanism : option string;
  cfg_sasl_plain_username : option string;
  cfg_sasl_plain_password : option string;
  session_timeout_ms : Z;
  metadata_max_age_ms : Z;
  token_provider : bool;
  topic_name : string;
  replication_factor : Z;
}.

(** The option of the confluent client for each parameter, in the order of the code; the error callback stands between. *)
Definition PARAM_OPTIONS : list (string * string) :=
  [("acks", "acks"); ("client.id", "client_id"); ("connections.max.idle.ms", "connections_max_idle_ms");
   ("compression.type", "compression_type"); ("linger.ms", "linger_ms"); ("message.max.bytes", "message_max_bytes");
   ("metadata.max.age.ms", "metadata_max_age_ms"); ("retries", "retries"); ("sasl.mechanism", "sasl_mechanism");
   ("sasl.password", "sasl_plain_password"); ("sasl.username", "sasl_plain_username");
   ("security.protocol", "security_protocol"); ("socket.timeout.ms", "socket_timeout_ms");
   ("ssl.ca.location", "ssl_cafile"); ("ssl.certificate.location", "ssl_certfile"); ("ssl.crl.location", "ssl_crlfile");
   ("ssl.key.location", "ssl_keyfile"); ("topic.metadata.refresh.interval.ms", "topic_metadata_refresh_interval_ms")]%string.
Definition CONSUMER_OPTIONS : list (string * string) :=
  [("auto.offset.reset", "auto_offset_reset"); ("enable.auto.commit", "enable_auto_commit");
   ("fetch.min.bytes", "fetch_min_bytes"); ("fetch.message.max.bytes", "fetch_message_max_bytes");
   ("fetch.wait.max.ms", "fetch_max_wait_ms"); ("group.id", "group_id"); ("session.timeout.ms", "session_timeout_ms")]%string.

(** [params.get(name)] for each option *)
Definition options_of (params : ClientParams) (table : list (string * string)) : list (string * option Setting) :=
  map (fun o => (o.1, default None (dget o.2 params))) table.

(** [_get_config_from_params]: the options that are not [None]; a token provider that is [None] has no
    [token_with_expiry]. *)
Definition get_config_from_params (bootstrap_servers : list string + string) (params : ClientParams)
  : result (dict string Setting) :=
  let servers := match bootstrap_servers with inl l => join_with "," l | inr s => s end in
  let config := ("bootstrap.servers"%string, Some (StrSetting servers)) :: options_of params PARAM_OPTIONS
    ++ ("error_cb"%string, Some ErrorCallback) :: options_of params CONSUMER_OPTIONS in
  let config := omap (fun kv => v ← kv.2; Some (kv.1, v)) config in
  match dget "sasl_oauth_token_provider"%string params with
  | None => Ok config
  | Some None => Raise AttributeError
  | Some (Some _) => Ok (dset "oauth_cb"%string TokenCallback config)
  end.

(** The group of [KafkaConsumer.__init__]: [hex] is the token of the [secrets] module. *)
Definition group_params (hex : string) (params : ClientParams) : ClientParams :=
  if din "group_id"%string params then params
  else dset "group_id"%string (Some (StrSetting ("karapace-autogenerated-" +:+ hex)%string)) params.

Definition str_setting (s : option string) : option Setting := StrSetting <$> s.

Definition security_params (c : KafkaSettings) : ClientParams :=
  [("security_protocol", Some (StrSetting (security_protocol c)));
   ("ssl_cafile", str_setting (cfg_ssl_cafile c)); ("ssl_certfile", str_setting (cfg_ssl_certfile c));
   ("ssl_keyfile", str_setting (cfg_ssl_keyfile c)); ("sasl_mechanism", str_setting (cfg_sasl_mechanism c));
   ("sasl_plain_username", str_setting (cfg_sasl_plain_username c));
   ("sasl_plain_password", str_setting (cfg_sasl_plain_password c))]%string.

(** [if token_provider is not None] *)
Definition with_token (c : KafkaSettings) (params : ClientParams) : ClientParams :=
  if token_provider c then params ++ [("sasl_oauth_token_provider"%string, Some TokenCallback)] else params.

(** [_create_consumer_from_config] of the schema reader *)
Definition reader_consumer_params (c : KafkaSettings) : ClientParams :=
  with_token c
    ([("enable_auto_commit", Some (BoolSetting false)); ("client_id", Some (StrSetting (client_id c)));
      ("fetch_max_wait_ms", Some (IntSetting 50))]%string ++ security_params c ++
     [("auto_offset_reset", Some (StrSetting "earliest")); ("session_timeout_ms", Some (IntSetting (session_timeout_ms c)));
      ("metadata_max_age_ms", Some (IntSetting (metadata_max_age_ms c)))]%string).

(** [_create_admin_client_from_config], and [kafka_admin_from_config] *)
Definition admin_params (c : KafkaSettings) : ClientParams :=
  with_token c (("client_id"%string, Some (StrSetting (client_id c))) :: security_params c).

(** [kafka_consumer_from_config], whose topic is subscribed to at once *)
Definition consumer_from_config_params (c : KafkaSettings) : ClientParams :=
  with_token c
    ([("enable_auto_commit", Some (BoolSetting false)); ("client_id", Some (StrSetting (client_id c)))]%string
     ++ security_params c ++
     [("auto_offset_reset", Some (StrSetting "earliest")); ("session_timeout_ms", Some (IntSetting (session_timeout_ms c)));
      ("metadata_max_age_ms", Some (IntSetting (metadata_max_age_ms c)))]%string).

(** [kafka_producer_from_config] *)
Definition producer_from_config_params (c : KafkaSettings) : ClientParams :=
  with_token c
    (("client_id"%string, Some (StrSetting (client_id c))) :: security_params c ++
     [("retries", Some (IntSetting 0)); ("session_timeout_ms", Some (IntSetting (session_timeout_ms c)))]%string).

(** ** Construction *)

Section Construction.
Context `{!ForCode} {C : Type} `{!ConfluentConsumer C}.
(** The constructor of the client, and what [list_topics] does in [_verify_connection] *)
Context (construct : dict string Setting -> result C) (attempts : nat -> option (list KafkaErrorCode)).

(** [_KafkaConfigMixin.__init__] *)
Definition init_client (bootstrap_servers : list string + string) (verify : bool) (params : ClientParams) : result C :=
  config ← get_config_from_params bootstrap_servers params;
  client ← construct config;
  _ ← (if verify then verify_connection attempts else Ok ());
  Ok client.

(** [KafkaConsumer.__init__] *)
Definition KafkaConsumer_init (hex : string) (bootstrap_servers : list string + string) (topic : option string)
  (verify : bool) (params : ClientParams) : result (KafkaConsumer C) :=
  client ← init_client bootstrap_servers verify (group_params hex params);
  let consumer := mkConsumer client [] in
  match topic with
  | None => Ok consumer
  | Some topic => let (consumer, r) := subscribe [JStr topic] [] consumer in _ ← r; Ok consumer
  end.

(** [partitions_for_topic]: the metadata of one topic *)
Definition partitions_for_topic (list_topics : string -> dict string (dict Z PartitionMetadata) + client_error) (topic : string)
  : result (dict Z PartitionMetadata) := partitions_for list_topics topic.

(** [AsyncKafkaConsumer.start] *)
Definition start_consumer (hex : string) (bootstrap_servers : list string + string) (topic : option string)
  (params : ClientParams) : M (AsyncKafkaConsumer (C := C)) () := fun c =>
  match KafkaConsumer_init hex bootstrap_servers topic true params with
  | Ok k => (Some k, Ok ())
  | Raise e => (c, Raise e)
  end.
End Construction.

(** ** [KafkaSchemaReader.run] *)

Section Run.
Context {DB : Type} `{!KarapaceDatabase DB} {bytes : Type} `{!JsonCodec bytes} `{!SchemaLib} (recursion_limit : nat).
Context `{!ForCode} {C : Type} `{!ConfluentConsumer C} {admin : Type}.
(** [poll] of the client, with its callbacks *)
Context (client_poll : C -> C * list rebalance * (() + client_error)).
Context (schemas_topic : string).
Abbreviation State := (ReaderState DB).

Definition stop_reader (st : State) : State :=
  set_errors (consecutive_unexpected_errors st) (consecutive_unexpected_errors_start st) true st.

(** [close] *)
Definition close_reader : State -> State := stop_reader.

(** The loop around a constructor. An answer says whether the reader was closed before the attempt, and what
    the constructor gave; a retried one is waited for. *)
Fixpoint create_client {A} (answers : list (bool * result A)) (st : State) : option (State * result (option A)) :=
  match answers with
  | [] => None
  | (closed, answer) :: answers =>
      let st := if closed : bool then close_reader st else st in
      if stopped st then Some (st, Ok None)
      else match answer with
           | Ok client => Some (st, Ok (Some client))
           | Raise KafkaConfigurationError => Some (stop_reader st, Raise KafkaConfigurationError)
           | Raise _ => create_client answers st
           end
  end.

(** The loop that creates the topic: whether it exists *)
Fixpoint create_topic (answers : list (bool * result NewTopic)) (st : State) : option (State * bool) :=
  match answers with
  | [] => None
  | (closed, answer) :: answers =>
      let st := if closed : bool then close_reader st else st in
      if stopped st then Some (st, false)
      else match answer with
           | Ok _ | Raise TopicAlreadyExistsError => Some (st, true)
           | Raise _ => create_topic answers st
           end
  end.

(** [consumer.poll] *)
Definition poll_consumer : M (KafkaConsumer C) () := fun k =>
  let '(c, events, r) := client_poll (kc_client k) in
  (mkConsumer c (fold_left (fun s e => on_rebalance e s) events (kc_subscription k)),
   match r with inl _ => Ok () | inr e => Raise (untranslated e) end).

(** The wait for partitions: whether some were assigned *)
Fixpoint await_assignment (tries : nat) : M (KafkaConsumer C) bool :=
  match tries with
  | O => mret false
  | S tries =>
      assignment ← kc_assignment;
      match assignment with
      | [] => _ ← poll_consumer; await_assignment tries
      | _ => mret true
      end
  end.

Definition subscribe_reader : M (KafkaConsumer C) bool :=
  _ ← subscribe [JStr schemas_topic] []; await_assignment 10.

(** What [run] does before its loop, and the consumer it made, if it made one, with which the loop is entered
    when nothing was raised *)
Definition set_up (admins : list (bool * result admin)) (consumers : list (bool * result (KafkaConsumer C)))
  (topics : list (bool * result NewTopic)) (st : State) : option (State * option (KafkaConsumer C) * result ()) :=
  match create_client admins st with
  | None => None
  | Some (st, Raise e) => Some (st, None, Raise e)
  | Some (st, Ok None) => Some (st, None, Raise AssertionError)
  | Some (st, Ok (Some _)) =>
      match create_client consumers st with
      | None => None
      | Some (st, Raise e) => Some (st, None, Raise e)
      | Some (st, Ok None) => Some (st, None, Raise AssertionError)
      | Some (st, Ok (Some consumer)) =>
          match create_topic topics st with
          | None => None
          | Some (st, false) => Some (st, Some consumer, Ok ())
          | Some (st, true) =>
              let (consumer, r) := subscribe_reader consumer in
              Some (st, Some consumer, _ ← r; Ok ())
          end
      end
  end.

(** A round of the loop: the offsets, messages and leadership that Reader's [run_round] takes, and the clock *)
Record Round : Type := mkRound {
  round_begin : result (Z * Z);
  round_poll : result (list (Message bytes));
  round_end : result (Z * Z);
  round_primary : option bool;
  round_now : Z;
}.

Fixpoint run_rounds (rounds : list Round) (st : State) : option State :=
  if stopped st then Some st
  else match rounds with
       | [] => None
       | r :: rounds => run_rounds rounds (run_round recursion_limit (round_begin r) (round_poll r) (round_end r) (round_primary r) (round_now r) st)
       end.

(** [run]; the consumer is closed on the way out, and what its [close] raises replaces the exception. *)
Definition run (admins : list (bool * result admin)) (consumers : list (bool * result (KafkaConsumer C)))
  (topics : list (bool * result NewTopic)) (rounds : list Round) (st : State) : option (State * result ()) :=
  let leave consumer r :=
    match consumer with
    | None => r
    | Some k => match (kc_close k).2 with Ok _ => r | Raise e => Raise e end
    end in
  match set_up admins consumers topics st with
  | None => None
  | Some (st, consumer, Raise e) => Some (st, leave consumer (Raise e))
  | Some (st, consumer, Ok _) =>
      match run_rounds rounds st with
      | None => None
      | Some st => Some (st, leave consumer (Ok ()))
      end
  end.
End Run.

(** ** [KafkaErrorHandler] *)

Inductive KafkaErrorLocation : Type := SCHEMA_COORDINATOR | SCHEMA_READER.

(** An error of the coordinator is raised unless retriable errors are silenced, whatever error it is. *)
Definition handle_schema_coordinator_error (retriable_errors_silenced : bool) (error : exn) : result () :=
  if retriable_errors_silenced then Ok () else Raise error.

Definition handle_error {DB} (retriable_errors_silenced : bool) (location : KafkaErrorLocation) (error : exn)
  : M (ReaderState DB) () :=
  match location with
  | SCHEMA_COORDINATOR => lift (handle_schema_coordinator_error retriable_errors_silenced error)
  | SCHEMA_READER => handle_schema_reader_error error
  end.
