(* ===== verification/KafkaSetupSpec.v ===== *)
(** * Properties of the clients' settings and of the start of the reader

    Settings that are [None] reach no client and a consumer always has a group; the reader comes to its loop once
    the brokers answer, subscribed to the schemas topic, and leaves it only when it was stopped. *)

From S2P Require Import Prelude Json Typing Models Schemas Database KafkaClient KafkaAdmin KeyFormat OffsetWatcher Reader KafkaSetup.
Open Scope Z_scope.

(** ** Settings *)

Lemma options_keys params table : map fst (options_of params table) = map fst table.
Proof. induction table as [|o table IH]; simpl; congruence. Qed.

Lemma options_member params table option name : (option, name) ∈ table ->
  (option, default None (dget name params)) ∈ options_of params table.
Proof. intros H. unfold options_of. apply list_elem_of_fmap. by exists (option, name). Qed.

(** Dropping what is [None] *)
Lemma dget_given (d : dict string (option Setting)) k v : dwf d -> (k, v) ∈ d ->
  dget k (omap (fun kv => v ← kv.2; Some (kv.1, v)) d) = v.
Proof.
  intros Hwf. induction d as [|[k' v'] d IH]; [by intros ?%elem_of_nil|]. unfold dwf in Hwf. simpl in Hwf.
  apply NoDup_cons in Hwf as [Hk Hwf]. intros [[= -> ->]|Hin]%elem_of_cons.
  - cbn. destruct v' as [s|]; simpl; [by rewrite decide_True|]. apply dget_None. intros Hk'. apply Hk. clear -Hk'.
    induction d as [|[k [s|]] d IH]; cbn in *; [done| |by right; apply IH].
    apply elem_of_cons in Hk' as [->|]; [left|right; auto].
  - assert (k' ≠ k). { intros ->. apply Hk. apply list_elem_of_fmap. by exists (k, v). }
    cbn. destruct v' as [s|]; simpl; [rewrite decide_False by done|]; by apply IH.
Qed.

(** Each option of the client is the parameter of the caller, and an option that was not given, or is [None], is not
    passed. *)
Theorem settings_passed servers params config option name :
  get_config_from_params servers params = Ok config -> (option, name) ∈ PARAM_OPTIONS ++ CONSUMER_OPTIONS ->
  dget option config = default None (dget name params).
Proof.
  intros H Hin. unfold get_config_from_params in H.
  set (all := ("bootstrap.servers"%string, _) :: _) in H.
  assert (Hwf : dwf all).
  { unfold dwf, dkeys, all. cbn [map fst]. rewrite map_app. cbn [map fst]. rewrite !options_keys.
    apply (bool_decide_eq_true_1 (NoDup _)). vm_compute. reflexivity. }
  assert (Ha : (option, default None (dget name params)) ∈ all).
  { unfold all. right. apply elem_of_app in Hin as [Hin|Hin]; apply elem_of_app.
    - left. by apply options_member.
    - right. right. by apply options_member. }
  assert (Ho : option ≠ "oauth_cb"%string).
  { intros ->. apply (bool_decide_eq_false_1 ("oauth_cb"%string ∈ map fst (PARAM_OPTIONS ++ CONSUMER_OPTIONS)));
      [vm_compute; reflexivity|]. apply list_elem_of_fmap. by exists ("oauth_cb"%string, name). }
  clearbody all. rewrite <- (dget_given all option _ Hwf Ha).
  destruct (dget "sasl_oauth_token_provider"%string params) as [[t|]|]; [|discriminate|by injection H as <-].
  injection H as <-. apply dget_dset_ne. congruence.
Qed.

(** A consumer always has a group: the given one, or one of its own. *)
Lemma consumer_group hex servers params config : get_config_from_params servers (group_params hex params) = Ok config ->
  dget "group.id"%string config =
  match dget "group_id"%string params with Some g => g | None => Some (StrSetting ("karapace-autogenerated-" +:+ hex)%string) end.
Proof.
  intros H. rewrite (settings_passed _ _ _ "group.id" "group_id" H).
  - unfold group_params, din. destruct (dget "group_id"%string params) eqn:E; [by rewrite E|by rewrite dget_dset_eq].
  - apply (bool_decide_eq_true_1 (_ ∈ _)). vm_compute. reflexivity.
Qed.

(** ** The start of the reader *)

Section run.
Context {DB : Type} `{!KarapaceDatabase DB} {bytes : Type} `{!JsonCodec bytes} `{!SchemaLib} (recursion_limit : nat).
Context `{!ForCode} {C : Type} `{!ConfluentConsumer C} {admin : Type}.
Context (client_poll : C -> C * list rebalance * (() + client_error)) (schemas_topic : string).

(** Answers that are waited for: nobody closes the reader, and the error is retried. *)
Definition retried {A} (final : exn -> Prop) (answers : list (bool * result A)) : Prop :=
  Forall (fun a => a.1 = false /\ exists e, a.2 = Raise e /\ ~ final e) answers.

Lemma create_client_retries {A} (before : list (bool * result A)) rest (st : ReaderState DB) :
  stopped st = false -> retried (fun e => e = KafkaConfigurationError) before ->
  create_client (before ++ rest) st = create_client rest st.
Proof.
  intros Hs Hb. induction Hb as [|[closed answer] before [Hc (e & He & Hf)] _ IH]; [done|]. simpl in *. subst closed answer.
  rewrite Hs, <- IH. by destruct e.
Qed.

Lemma create_topic_retries (before : list (bool * result NewTopic)) rest (st : ReaderState DB) :
  stopped st = false -> retried (fun e => e = TopicAlreadyExistsError) before ->
  create_topic (before ++ rest) st = create_topic rest st.
Proof.
  intros Hs Hb. induction Hb as [|[closed answer] before [Hc (e & He & Hf)] _ IH]; [done|]. simpl in *. subst closed answer.
  rewrite Hs, <- IH. by destruct e.
Qed.

(** The reader starts. Once the brokers let the clients be made and the topic is created or exists, after
    any number of failures that are not about the configuration, [run] enters its loop with the consumer
    subscribed to the schemas topic, and what it returns is what the loop leaves. *)
Theorem reader_starts admins a admins' consumers k consumers' topics t topics' rounds (st : ReaderState DB) k' assigned :
  stopped st = false ->
  retried (fun e => e = KafkaConfigurationError) admins -> retried (fun e => e = KafkaConfigurationError) consumers ->
  retried (fun e => e = TopicAlreadyExistsError) topics -> ((exists n, t = Ok n) \/ t = Raise TopicAlreadyExistsError) ->
  subscribe_reader client_poll schemas_topic k = (k', Ok assigned) ->
  run (bytes := bytes) (admin := admin) recursion_limit client_poll schemas_topic (admins ++ (false, Ok a) :: admins')
    (consumers ++ (false, Ok k) :: consumers') (topics ++ (false, t) :: topics') rounds st =
  match run_rounds recursion_limit rounds st with
  | None => None
  | Some st' => Some (st', match (kc_close k').2 with Ok _ => Ok () | Raise e => Raise e end)
  end.
Proof.
  intros Hs Ha Hk Ht Hok Hsub. unfold run, set_up. rewrite create_client_retries by done. simpl. rewrite Hs.
  rewrite create_client_retries by done. simpl. rewrite Hs. rewrite create_topic_retries by done. simpl. rewrite Hs.
  destruct Hok as [[n ->]| ->]; rewrite Hsub; simpl; by destruct (run_rounds recursion_limit rounds st).
Qed.

Lemma run_rounds_stopped rounds (st st' : ReaderState DB) : run_rounds (bytes := bytes) recursion_limit rounds st = Some st' ->
  stopped st' = true.
Proof.
  revert st. induction rounds as [|r rounds IH]; intros st; simpl; destruct (stopped st) eqn:E; try done; [by intros [= <-]..|apply IH].
Qed.

(** [run] returns without an exception only when the reader was stopped. *)
Theorem run_returns_stopped admins consumers topics rounds (st st' : ReaderState DB) :
  run (bytes := bytes) (admin := admin) recursion_limit client_poll schemas_topic admins consumers topics rounds st = Some (st', Ok ()) ->
  stopped st' = true.
Proof.
  unfold run. destruct (set_up _ _ admins consumers topics st) as [[[st1 k] [[]|e]]|]; [| |done].
  - destruct (run_rounds recursion_limit rounds st1) as [st2|] eqn:E; [|done]. intros [= <- _]. by eapply run_rounds_stopped.
  - destruct k as [k|]; [|done]. by destruct ((kc_close k).2).
Qed.
End run.
