(* ===== verification/Monitoring.v ===== *)
(** * Paths of metrics, request metrics and the health check

    [core/instrumentation/path_normalization.py]: the expressions of [PathPattern] as functions on texts; the counters
    of [api/telemetry/metrics.py] and [core/instrumentation/prometheus.py] with the middlewares that move them; and
    [api/routers/health.py]. Durations, spans and the export of metrics are left out. *)

From S2P Require Import Prelude Json Typing Models Schemas Database KeyFormat OffsetWatcher Reader Coordinator CoordinatorTasks ProtoReader.
Open Scope Z_scope.

(** ** [path_normalization.py] *)

Definition is_hex_digit (c : ascii) : bool :=
  let n := N_of_ascii c in ((48 <=? n) && (n <=? 57) || (65 <=? n) && (n <=? 70) || (97 <=? n) && (n <=? 102))%N.
Definition is_decimal (c : ascii) : bool := let n := N_of_ascii c in ((48 <=? n) && (n <=? 57))%N.
Definition not_slash (c : ascii) : bool := negb (Ascii.eqb c "/").

(** What is left of a text after a literal, or after [n] characters of a class *)
Fixpoint after_literal (literal s : text) : option text :=
  match literal with
  | [] => Some s
  | a :: literal => match s with c :: s => if Ascii.eqb c a then after_literal literal s else None | [] => None end
  end.
Fixpoint after_class (p : ascii -> bool) (n : nat) (s : text) : option text :=
  match n with
  | O => Some s
  | S n => match s with c :: s => if p c then after_class p n s else None | [] => None end
  end.
(** The longest run of a class, and the rest *)
Fixpoint span_class (p : ascii -> bool) (s : text) : text * text :=
  match s with
  | c :: s' => if p c then let (run, rest) := span_class p s' in (c :: run, rest) else ([], s)
  | [] => ([], [])
  end.

(** Hexadecimal groups of 8, 4, 4, 4 and 12, with hyphens *)
Fixpoint after_groups (groups : list nat) (s : text) : option text :=
  match groups with
  | [] => Some s
  | [n] => after_class is_hex_digit n s
  | n :: groups => s ← after_class is_hex_digit n s; s ← after_literal ["-"%char] s; after_groups groups s
  end.
Definition after_uuid (s : text) : option text := after_groups [8; 4; 4; 4; 12]%nat s.

(** [re.sub]: the leftmost matches, one after the other; [match_] gives what replaces a match at the beginning of a
    text, and the rest. Matches are not empty, so the length of the text is fuel enough. *)
Fixpoint re_sub (match_ : text -> option (text * text)) (fuel : nat) (s : text) : text :=
  match fuel, s with
  | O, _ | _, [] => s
  | S fuel, c :: s' =>
      match match_ s with
      | Some (replaced, rest) => replaced ++ re_sub match_ fuel rest
      | None => c :: re_sub match_ fuel s'
      end
  end.

Definition match_uuid (s : text) : option (text * text) := rest ← after_uuid s; Some (to_text "{uuid}", rest).

(** [(literal)(class+)] replaced by the literal and a placeholder *)
Definition match_after (literal : string) (p : ascii -> bool) (placeholder : string) (s : text) : option (text * text) :=
  rest ← after_literal (to_text literal) s;
  match span_class p rest with
  | ([], _) => None
  | (_, rest) => Some (to_text literal ++ to_text placeholder, rest)
  end.

(** The members of [PathPattern] in their order *)
Definition PathPattern : list (text -> option (text * text)) :=
  [match_uuid;
   match_after "/topics/" not_slash "{topic}";
   match_after "/schemas/ids/" is_decimal "{id}";
   match_after "/subjects/" not_slash "{subject}";
   match_after "/versions/" is_decimal "{version}";
   match_after "/config/" not_slash "{subject}";
   match_after "/mode/" not_slash "{subject}"]%string.

Definition normalize_text (path : text) : text := fold_left (fun path m => re_sub m (length path) path) PathPattern path.
Definition normalize_path (path : string) : string := of_text (normalize_text (to_text path)).

(** ** Metrics of requests *)

(** A label is the method and the normalised path; with the status for the totals. The resource that the attributes of
    the API also have is a function of the path. *)
Definition MetricLabel : Type := string * string.
Record Metrics : Type := mkMetrics { in_progress : dict MetricLabel Z; total : dict (MetricLabel * Z) Z }.

Definition add_to {K} `{!EqDecision K} (k : K) (n : Z) (d : dict K Z) : dict K Z := dset k (default 0 (dget k d) + n) d.
Definition add_in_progress (l : MetricLabel) (n : Z) : M Metrics () :=
  modify (fun m => mkMetrics (add_to l n (in_progress m)) (total m)).
Definition add_total (l : MetricLabel) (status : Z) : M Metrics () :=
  modify (fun m => mkMetrics (in_progress m) (add_to (l, status) 1 (total m))).

(** [HTTPRequestMetrics] *)
Definition start_request (method path : string) : M Metrics MetricLabel :=
  let attributes := (method, normalize_path path) in
  _ ← add_in_progress attributes 1; mret attributes.
Definition finish_request (attributes : MetricLabel) (response : option Z) : M Metrics () :=
  _ ← add_total attributes (default 0 response); add_in_progress attributes (-1).
Definition record_request_exception (attributes : MetricLabel) (exc : exn) : M Metrics () :=
  add_total attributes (match exc with HTTPException status _ => status | _ => 0 end).

(** [telemetry_middleware]; the handler gives the status of its response. *)
Definition telemetry_middleware (method path : string) (call_next : result Z) : M Metrics Z :=
  attributes ← start_request method path;
  match call_next with
  | Ok status => _ ← finish_request attributes (Some status); mret status
  | Raise exc =>
      _ ← record_request_exception attributes exc;
      _ ← finish_request attributes None;
      raise exc
  end.

(** [http_request_metrics_middleware] of the REST proxy *)
Definition http_request_metrics_middleware (method path : string) (handler : result Z) : M Metrics Z :=
  let label := (method, normalize_path path) in
  _ ← add_in_progress label 1;
  match handler with
  | Ok status => _ ← add_total label status; _ ← add_in_progress label (-1); mret status
  | Raise exc => _ ← add_in_progress label (-1); raise exc
  end.

(** ** The health check *)

Record HealthStatus : Type := mkHealth {
  schema_registry_ready : bool;
  schema_registry_startup_time : Z;
  schema_registry_reader_current_offset : Z;
  schema_registry_reader_highest_offset : Z;
  schema_registry_is_primary : bool;
  schema_registry_is_primary_eligible : bool;
  schema_registry_primary_url : option string;
  schema_registry_coordinator_running : bool;
  schema_registry_coordinator_generation_id : Z;
}.

(** [health], given the two clocks of the reader and whether its topic is described; asking the coordinator
    may end the wait of a primary. *)
Definition health {DB} (identity : MemberIdentity) (waiting_time : Z) (reader : ReaderState DB) (last_check start_time now now_seconds : Z)
  (topic_described : bool) (sc : option Coordinator) : option Coordinator * result HealthStatus :=
  let starttime := if ready reader then last_check - start_time else 0 in
  match get_coordinator_status identity waiting_time now sc with
  | (sc', Raise e) => (sc', Raise e)
  | (sc', Ok cs) =>
      let status := mkHealth (ready reader) starttime (offset reader) (highest_offset reader) (is_primary cs)
        (is_primary_eligible cs) (status_primary_url cs) (is_running cs) (group_generation_id cs) in
      (sc', if is_healthy reader now_seconds topic_described then Ok status else Raise (HTTPException 503 None))
  end.
