(* ===== verification/MonitoringSpec.v ===== *)
(** * Properties of the paths of metrics and of the counters

    The normalised paths of the routes form a finite set whatever the subjects are, and a request leaves the gauge of
    requests in progress as it was. *)

From S2P Require Import Prelude Json Typing Models Schemas Auth Serialization Controller Api ProtoReader ProtoElements ProtoTokens RegistryClient RegistryClientSpec Monitoring.
Open Scope Z_scope.

(** ** Substitution *)

Definition consumes (m : text -> option (text * text)) : Prop :=
  forall s replaced rest, m s = Some (replaced, rest) -> (length rest < length s)%nat.
Definition at_slash (m : text -> option (text * text)) : Prop := forall c s, not_slash c = true -> m (c :: s) = None.

Definition sub (m : text -> option (text * text)) (s : text) : text := re_sub m (length s) s.

Lemma re_sub_fuel m fuel s : consumes m -> (length s <= fuel)%nat -> re_sub m fuel s = sub m s.
Proof.
  intros Hm. unfold sub. remember (length s) as n eqn:Hn. assert (Hle : (length s <= n)%nat) by lia. clear Hn.
  revert fuel s Hle. induction n as [|n IH]; intros fuel s Hle Hf.
  - destruct s; [|simpl in Hle; lia]. by destruct fuel.
  - destruct fuel as [|fuel]; [by destruct s; [|simpl in *; lia]|]. destruct s as [|c s]; [done|]. simpl in Hle, Hf. simpl.
    destruct (m (c :: s)) as [[r rest]|] eqn:E.
    + apply Hm in E. simpl in E. f_equal. rewrite (IH fuel) by lia. done.
    + f_equal. rewrite (IH fuel) by lia. done.
Qed.

Lemma sub_cons m c s : consumes m ->
  sub m (c :: s) = match m (c :: s) with Some (replaced, rest) => replaced ++ sub m rest | None => c :: sub m s end.
Proof.
  intros Hm. unfold sub at 1. simpl. destruct (m (c :: s)) as [[r rest]|] eqn:E; [|done].
  apply Hm in E. simpl in E. by rewrite re_sub_fuel by (done || lia).
Qed.

Lemma sub_skip m a s : consumes m -> at_slash m -> forallb not_slash a = true -> sub m (a ++ s) = a ++ sub m s.
Proof.
  intros Hm Hs. induction a as [|c a IH]; [done|]. simpl. intros [Hc Ha]%andb_true_iff.
  rewrite sub_cons, Hs by done. by rewrite IH.
Qed.

(** ** Paths as segments *)

Definition path_text (segs : list text) : text := concat (map (cons "/"%char) segs).
Definition plain_segments (segs : list text) : Prop := Forall (fun s => forallb not_slash s = true) segs.

Lemma path_text_app a b : path_text (a ++ b) = path_text a ++ path_text b.
Proof. unfold path_text. by rewrite map_app, concat_app. Qed.

(** A rest of a path: what follows a segment *)
Definition follows (t : text) : Prop := t = [] \/ exists t', t = "/"%char :: t'.
Lemma path_follows segs : follows (path_text segs).
Proof. destruct segs as [|a l]; [by left|right]. by eexists. Qed.

Lemma after_literal_app a b s : after_literal (a ++ b) s = after_literal a s ≫= after_literal b.
Proof. revert s. induction a as [|c a IH]; intros s; [done|]. simpl. destruct s as [|d s]; [done|]. by destruct (Ascii.eqb d c). Qed.

(** A literal word with its slash, against a segment *)
Lemma after_word w a t : forallb not_slash w = true -> forallb not_slash a = true -> follows t ->
  after_literal (w ++ ["/"%char]) (a ++ t) =
  if bool_decide (a = w) then match t with _ :: t' => Some t' | [] => None end else None.
Proof.
  revert a. induction w as [|d w IH]; intros a Hw Ha Ht.
  - destruct a as [|c a]; simpl.
    + by destruct Ht as [->|[t' ->]].
    + simpl in Ha. apply andb_true_iff in Ha as [Hc _]. unfold not_slash in Hc. by destruct (Ascii.eqb c "/").
  - simpl in Hw. apply andb_true_iff in Hw as [Hd Hw]. destruct a as [|c a]; simpl.
    + destruct Ht as [->|[t' ->]]; [done|]. unfold not_slash in Hd. rewrite Ascii.eqb_sym. by destruct (Ascii.eqb d "/").
    + simpl in Ha. apply andb_true_iff in Ha as [Hc Ha]. destruct (Ascii.eqb_spec c d) as [->|Hne].
      * rewrite IH by done. destruct (decide (a = w)) as [->|Hn]; [by rewrite !bool_decide_eq_true_2|].
        rewrite !bool_decide_eq_false_2; [done| |done]. by intros [=].
      * rewrite bool_decide_eq_false_2; [done|]. by intros [=].
Qed.

Lemma span_app p a t : p "/"%char = false -> follows t ->
  span_class p (a ++ t) = ((span_class p a).1, (span_class p a).2 ++ t).
Proof.
  intros Hp Ht. induction a as [|c a IH]; simpl.
  - destruct Ht as [->|[t' ->]]; [done|]. simpl. by rewrite Hp.
  - destruct (p c); [|done]. rewrite IH. by destruct (span_class p a).
Qed.

Lemma span_parts p a : a = (span_class p a).1 ++ (span_class p a).2.
Proof. induction a as [|c a IH]; simpl; [done|]. destruct (p c); [|done]. destruct (span_class p a). simpl in *. by f_equal. Qed.

(** *** Patterns that follow a literal *)

Definition literal_of (ws : list text) : text := path_text ws ++ ["/"%char].

Fixpoint text_eqb (a b : text) : bool :=
  match a, b with [], [] => true | c :: a, d :: b => Ascii.eqb c d && text_eqb a b | _, _ => false end.

Lemma text_eqb_spec a b : text_eqb a b = bool_decide (a = b).
Proof.
  revert b. induction a as [|c a IH]; intros [|d b]; [reflexivity..|]. simpl text_eqb.
  rewrite IH. destruct (Ascii.eqb_spec c d) as [->|Hne]; simpl.
  - destruct (decide (a = b)) as [->|Hne]; [by rewrite !bool_decide_eq_true_2|].
    rewrite !bool_decide_eq_false_2; [done|by intros [=]|done].
  - rewrite bool_decide_eq_false_2; [done|by intros [=]].
Qed.

Fixpoint strip_words (ws segs : list text) : option (list text) :=
  match ws, segs with
  | [], _ => Some segs
  | w :: ws, a :: segs => if text_eqb a w then strip_words ws segs else None
  | _ :: _, [] => None
  end.

Definition seg_match (ws : list text) (p : ascii -> bool) (placeholder : text) (segs : list text)
  : option (list text * list text) :=
  match strip_words ws segs with
  | Some (b :: l) =>
      match span_class p b with ([], _) => None | (_, q) => Some (ws ++ [placeholder ++ q], l) end
  | _ => None
  end.

Fixpoint seg_sub (fuel : nat) (ws : list text) (p : ascii -> bool) (placeholder : text) (segs : list text) : list text :=
  match fuel, segs with
  | O, _ | _, [] => segs
  | S fuel, a :: l =>
      match seg_match ws p placeholder segs with
      | Some (replaced, rest) => replaced ++ seg_sub fuel ws p placeholder rest
      | None => a :: seg_sub fuel ws p placeholder l
      end
  end.

Lemma after_words ws segs : plain_segments ws -> plain_segments segs ->
  after_literal (literal_of ws) (path_text segs) =
  match strip_words ws segs with Some (b :: l) => Some (b ++ path_text l) | _ => None end.
Proof.
  intros Hws. revert segs. induction Hws as [|w ws Hw Hws IH]; intros segs Hsegs.
  - by destruct segs as [|b l].
  - destruct segs as [|a l]; [done|]. inversion Hsegs as [|? ? Ha Hl]; subst. specialize (IH l Hl).
    assert (Hlit : exists r, literal_of ws = "/"%char :: r) by (destruct ws; by eexists). destruct Hlit as [r Hr].
    assert (E : literal_of (w :: ws) = "/"%char :: ((w ++ ["/"%char]) ++ r)).
    { unfold literal_of in *. change (path_text (w :: ws)) with ("/"%char :: w ++ path_text ws). simpl. f_equal.
      rewrite <- !app_assoc. by rewrite Hr. }
    rewrite E. change (path_text (a :: l)) with ("/"%char :: a ++ path_text l). simpl.
    rewrite after_literal_app, after_word by (done || apply path_follows). rewrite text_eqb_spec.
    destruct (bool_decide (a = w)); [|done]. rewrite Hr in IH.
    destruct (path_follows l) as [El|[t' El]]; rewrite El in *; simpl in *; exact IH.
Qed.

Lemma strip_words_plain ws segs rest : strip_words ws segs = Some rest -> plain_segments segs -> plain_segments rest.
Proof.
  revert segs. induction ws as [|w ws IH]; intros segs; simpl; [by intros [= ->]|]. destruct segs as [|a l]; [done|].
  destruct (text_eqb a w); [|done]. intros E Hs. inversion Hs; subst. by eapply IH.
Qed.

Lemma strip_words_length ws segs rest : strip_words ws segs = Some rest -> (length rest <= length segs)%nat.
Proof.
  revert segs. induction ws as [|w ws IH]; intros segs; simpl; [by intros [= ->]|]. destruct segs as [|a l]; [done|].
  destruct (text_eqb a w); [|done]. intros E%IH. simpl. lia.
Qed.

Section pattern.
Context (literal placeholder : string) (p : ascii -> bool) (ws : list text).
Context (literal_is : to_text literal = literal_of ws) (words_plain : plain_segments ws).
Context (class_plain : p "/"%char = false).
Abbreviation m := (match_after literal p placeholder).

Lemma after_literal_length a s rest : after_literal a s = Some rest -> length s = (length a + length rest)%nat.
Proof.
  revert s. induction a as [|c a IH]; intros s; simpl; [by intros [= ->]|]. destruct s as [|d s]; [done|].
  destruct (Ascii.eqb d c); [|done]. intros H%IH. simpl. lia.
Qed.

Lemma literal_head : exists r, to_text literal = "/"%char :: r.
Proof. rewrite literal_is. destruct ws; by eexists. Qed.

Lemma match_after_consumes : consumes m.
Proof.
  intros s r rest. unfold match_after. destruct (after_literal (to_text literal) s) as [t|] eqn:E; [|done]. simpl.
  apply after_literal_length in E. pose proof (span_parts p t) as Hp. destruct (span_class p t) as [[|c run] q]; [done|].
  intros [= _ <-]. simpl in Hp. rewrite Hp in E. simpl in E. rewrite length_app in E. lia.
Qed.

Lemma match_after_at_slash : at_slash m.
Proof.
  intros c s Hc. unfold match_after. destruct literal_head as [r ->]. simpl. unfold not_slash in Hc.
  by destruct (Ascii.eqb c "/").
Qed.

Lemma match_after_path segs : plain_segments segs ->
  m (path_text segs) =
  match strip_words ws segs with
  | Some (b :: l) =>
      match span_class p b with
      | ([], _) => None
      | (_, q) => Some (to_text literal ++ to_text placeholder, q ++ path_text l)
      end
  | _ => None
  end.
Proof.
  intros Hs. unfold match_after. rewrite literal_is, after_words by done.
  destruct (strip_words ws segs) as [[|b l]|]; try done. simpl. rewrite span_app by (done || apply path_follows).
  by destruct (span_class p b) as [[|c run] q].
Qed.

(** On paths the substitution works segment by segment. *)
Lemma sub_path fuel segs : plain_segments segs -> (length segs <= fuel)%nat ->
  sub m (path_text segs) = path_text (seg_sub fuel ws p (to_text placeholder) segs).
Proof.
  revert segs. induction fuel as [|fuel IH]; intros segs Hs Hf.
  - destruct segs; [done|simpl in Hf; lia].
  - destruct segs as [|a l]; [done|]. simpl seg_sub.
    change (path_text (a :: l)) with ("/"%char :: a ++ path_text l).
    rewrite sub_cons by apply match_after_consumes.
    change ("/"%char :: a ++ path_text l) with (path_text (a :: l)). rewrite match_after_path by done.
    assert (Hl : plain_segments l /\ forallb not_slash a = true) by (by inversion Hs). destruct Hl as [Hl Ha].
    assert (Hskip : "/"%char :: sub m (a ++ path_text l) = path_text (a :: seg_sub fuel ws p (to_text placeholder) l)).
    { rewrite sub_skip by (done || apply match_after_consumes || apply match_after_at_slash).
      simpl in Hf. by rewrite IH by (done || lia). }
    unfold seg_match. destruct (strip_words ws (a :: l)) as [[|b r]|] eqn:E; try exact Hskip.
    pose proof (strip_words_plain _ _ _ E Hs) as Hbr. pose proof (strip_words_length _ _ _ E) as Hlen. simpl in Hlen, Hf.
    pose proof (span_parts p b) as Hb. inversion Hbr as [|? ? Hpb Hpr]; subst x l0.
    destruct (span_class p b) as [[|c run] q]; [exact Hskip|]. simpl in Hb.
    assert (Hq : forallb not_slash q = true).
    { rewrite Hb in Hpb. change (forallb not_slash ((c :: run) ++ q) = true) in Hpb. rewrite forallb_app in Hpb.
      by apply andb_true_iff in Hpb as [_ ?]. }
    rewrite sub_skip by (done || apply match_after_consumes || apply match_after_at_slash).
    rewrite IH by (done || lia). rewrite path_text_app, path_text_app, literal_is. unfold literal_of.
    change (path_text [to_text placeholder ++ q]) with (("/"%char :: to_text placeholder ++ q) ++ []).
    rewrite app_nil_r, <- !app_assoc. simpl. by rewrite <- ?app_assoc.
Qed.
End pattern.

(** *** UUIDs *)

Lemma after_class_app p n a t : p "/"%char = false -> follows t ->
  after_class p n (a ++ t) = (fun r => r ++ t) <$> after_class p n a.
Proof.
  intros Hp Ht. revert a. induction n as [|n IH]; intros a; [done|]. destruct a as [|c a]; simpl.
  - destruct Ht as [->|[t' ->]]; [done|]. by rewrite Hp.
  - by destruct (p c).
Qed.

Lemma after_hyphen_app a t : follows t -> after_literal ["-"%char] (a ++ t) = (fun r => r ++ t) <$> after_literal ["-"%char] a.
Proof. intros Ht. destruct a as [|c a]; simpl; [by destruct Ht as [->|[t' ->]]|]. by destruct (Ascii.eqb c "-"). Qed.

Lemma after_groups_app gs a t : gs ≠ [] -> follows t -> after_groups gs (a ++ t) = (fun r => r ++ t) <$> after_groups gs a.
Proof.
  intros Hgs Ht. revert a. induction gs as [|n gs IH]; intros a; [done|]. destruct gs as [|n' gs].
  - by apply after_class_app.
  - change (after_groups (n :: n' :: gs)) with
      (fun s => s ← after_class is_hex_digit n s; s ← after_literal ["-"%char] s; after_groups (n' :: gs) s). cbv beta.
    rewrite after_class_app by done. destruct (after_class is_hex_digit n a) as [r|]; [|done].
    cbn [fmap option_fmap option_map mbind option_bind]. rewrite after_hyphen_app by done.
    destruct (after_literal ["-"%char] r) as [r'|]; [|done]. cbn [fmap option_fmap option_map mbind option_bind]. by apply IH.
Qed.

Lemma match_uuid_app a t : follows t -> match_uuid (a ++ t) = (fun x => (x.1, x.2 ++ t)) <$> match_uuid a.
Proof. intros Ht. unfold match_uuid, after_uuid. rewrite after_groups_app by done. by destruct (after_groups _ a). Qed.

Lemma match_uuid_slash s : match_uuid ("/"%char :: s) = None.
Proof. reflexivity. Qed.

Lemma after_class_suffix p n s r : after_class p n s = Some r -> exists run, s = run ++ r /\ forallb p run = true.
Proof.
  revert s. induction n as [|n IH]; intros s; simpl; [intros [= ->]; by exists []|]. destruct s as [|c s]; [done|].
  destruct (p c) eqn:E; [|done]. intros (run & -> & Hr)%IH. exists (c :: run). split; [done|]. simpl. by rewrite E.
Qed.

Lemma forallb_weaken {A} (p q : A -> bool) l : (forall x, p x = true -> q x = true) -> forallb p l = true -> forallb q l = true.
Proof. intros H. induction l as [|x l IH]; [done|]. simpl. intros [? ?]%andb_true_iff. apply andb_true_iff. auto. Qed.

Lemma after_groups_suffix gs s r : after_groups gs s = Some r -> exists run, s = run ++ r /\ forallb not_slash run = true.
Proof.
  assert (Hhex : forall run, forallb is_hex_digit run = true -> forallb not_slash run = true).
  { intros run. apply forallb_weaken. intros c. by destruct c as [[] [] [] [] [] [] [] []]. }
  revert s. induction gs as [|n gs IH]; intros s; [intros [= ->]; by exists []|]. destruct gs as [|n' gs].
  { intros (run & -> & H)%after_class_suffix. exists run. auto. }
  change (after_groups (n :: n' :: gs) s) with
    (s ← after_class is_hex_digit n s; s ← after_literal ["-"%char] s; after_groups (n' :: gs) s).
  destruct (after_class is_hex_digit n s) as [s1|] eqn:E1; [|done]. cbn [mbind option_bind].
  destruct s1 as [|c s2]; [done|]. simpl after_literal. destruct (Ascii.eqb_spec c "-") as [->|]; [|done]. cbn [mbind option_bind].
  intros (run2 & -> & H2)%IH. apply after_class_suffix in E1 as (run1 & -> & H1).
  exists (run1 ++ "-"%char :: run2). split; [by rewrite <- app_assoc|]. rewrite forallb_app. simpl. by rewrite H2, Hhex.
Qed.

(** A UUID is a hyphen away from nothing. *)
Lemma match_uuid_shape s x rest : match_uuid s = Some (x, rest) ->
  x = to_text "{uuid}" /\ exists run, s = run ++ rest /\ "-"%char ∈ run /\ forallb not_slash run = true.
Proof.
  unfold match_uuid, after_uuid. change (after_groups [8; 4; 4; 4; 12]%nat s) with
    (s ← after_class is_hex_digit 8 s; s ← after_literal ["-"%char] s; after_groups [4; 4; 4; 12]%nat s).
  destruct (after_class is_hex_digit 8 s) as [s1|] eqn:E1; [|done]. cbn [mbind option_bind].
  destruct s1 as [|c s2]; [done|]. simpl after_literal. destruct (Ascii.eqb_spec c "-") as [->|]; [|done]. cbn [mbind option_bind].
  destruct (after_groups [4; 4; 4; 12]%nat s2) as [r|] eqn:E2; [|done]. intros [= <- <-]. split; [done|].
  apply after_groups_suffix in E2 as (run2 & -> & H2). apply after_class_suffix in E1 as (run1 & -> & H1).
  exists (run1 ++ "-"%char :: run2). split_and!.
  - by rewrite <- app_assoc.
  - apply elem_of_app. right. left.
  - rewrite forallb_app. simpl. rewrite H2, andb_true_r. revert H1. apply forallb_weaken. intros c.
    by destruct c as [[] [] [] [] [] [] [] []].
Qed.

Lemma match_uuid_consumes : consumes match_uuid.
Proof.
  intros s x rest (_ & run & -> & Hin & _)%match_uuid_shape. rewrite length_app.
  destruct run; [by apply elem_of_nil in Hin|simpl; lia].
Qed.

Definition sub_uuid : text -> text := sub match_uuid.

Lemma sub_uuid_app a t : follows t -> sub_uuid (a ++ t) = sub_uuid a ++ sub_uuid t.
Proof.
  intros Ht. remember (length a) as n eqn:Hn. assert (Hle : (length a <= n)%nat) by lia. clear Hn. revert a Hle.
  induction n as [|n IH]; intros a Hle; (destruct a as [|c a]; [done|]); [simpl in Hle; lia|]. simpl in Hle.
  unfold sub_uuid in *. rewrite (sub_cons _ c a) by apply match_uuid_consumes. change ((c :: a) ++ t) with (c :: a ++ t).
  rewrite sub_cons by apply match_uuid_consumes. change (c :: a ++ t) with ((c :: a) ++ t). rewrite match_uuid_app by done.
  destruct (match_uuid (c :: a)) as [[x rest]|] eqn:E; simpl.
  - apply match_uuid_consumes in E. simpl in E. rewrite IH by lia. by rewrite app_assoc.
  - by rewrite IH by lia.
Qed.

Lemma sub_uuid_path segs : sub_uuid (path_text segs) = path_text (map sub_uuid segs).
Proof.
  induction segs as [|a l IH]; [done|]. change (path_text (a :: l)) with ("/"%char :: (a ++ path_text l)).
  unfold sub_uuid at 1. rewrite sub_cons by apply match_uuid_consumes. rewrite match_uuid_slash.
  change (sub match_uuid) with sub_uuid. rewrite sub_uuid_app by apply path_follows. rewrite IH. done.
Qed.

Lemma sub_uuid_facts a : forallb not_slash a = true ->
  forallb not_slash (sub_uuid a) = true /\ (a = [] <-> sub_uuid a = []) /\ (sub_uuid a = a \/ ("-"%char ∈ a /\ "{"%char ∈ sub_uuid a)).
Proof.
  remember (length a) as n eqn:Hn. assert (Hle : (length a <= n)%nat) by lia. clear Hn. revert a Hle.
  induction n as [|n IH]; intros a Hle; (destruct a as [|c a]; [by intros; split_and!; [done|done|left]|]); [simpl in Hle; lia|].
  simpl in Hle. unfold sub_uuid in *. rewrite sub_cons by apply match_uuid_consumes. intros Ha.
  destruct (match_uuid (c :: a)) as [[x rest]|] eqn:E.
  - apply match_uuid_shape in E as (-> & run & Hr & Hin & Hs). rewrite Hr in Ha. rewrite forallb_app in Ha.
    apply andb_true_iff in Ha as [_ Ha]. assert (Hlen : (length rest <= n)%nat).
    { apply (f_equal length) in Hr. rewrite length_app in Hr. simpl in Hr. destruct run; [by apply elem_of_nil in Hin|]. simpl in Hr. lia. }
    destruct (IH rest Hlen Ha) as (H1 & _ & _). split_and!.
    + by rewrite forallb_app, H1.
    + done.
    + right. split; [rewrite Hr; apply elem_of_app; by left|left].
  - simpl in Ha. apply andb_true_iff in Ha as [Hc Ha]. destruct (IH a ltac:(lia) Ha) as (H1 & _ & H3). split_and!.
    + simpl. by rewrite Hc.
    + done.
    + destruct H3 as [->|[H3 H4]]; [by left|right]. split; by right.
Qed.

(** ** Normalised paths *)

Definition words (l : list string) : list text := map to_text l.
Definition step (ws : list string) (p : ascii -> bool) (placeholder : string) (segs : list text) : list text :=
  seg_sub (length segs) (words ws) p (to_text placeholder) segs.

Definition normalize_segments (segs : list text) : list text :=
  step ["mode"] not_slash "{subject}" (step ["config"] not_slash "{subject}" (step ["versions"] is_decimal "{version}"
    (step ["subjects"] not_slash "{subject}" (step ["schemas"; "ids"] is_decimal "{id}"
      (step ["topics"] not_slash "{topic}" (map sub_uuid segs))))))%string.

Lemma seg_sub_plain fuel ws p placeholder segs : plain_segments ws -> forallb not_slash placeholder = true ->
  plain_segments segs -> plain_segments (seg_sub fuel ws p placeholder segs).
Proof.
  intros Hws Hph. revert segs. induction fuel as [|fuel IH]; intros segs Hs; [done|]. destruct segs as [|a l]; [done|]. simpl.
  assert (Hal : forallb not_slash a = true /\ plain_segments l) by (by inversion Hs). destruct Hal as [Ha Hl].
  assert (Hskip : plain_segments (a :: seg_sub fuel ws p placeholder l)) by (constructor; [done|by apply IH]).
  unfold seg_match. destruct (strip_words ws (a :: l)) as [[|b r]|] eqn:E; try exact Hskip.
  pose proof (strip_words_plain _ _ _ E Hs) as Hbr. pose proof (span_parts p b) as Hb.
  assert (Hbr' : forallb not_slash b = true /\ plain_segments r) by (by inversion Hbr). destruct Hbr' as [Hpb Hr].
  destruct (span_class p b) as [[|c run] q]; [exact Hskip|]. cbn [fst snd] in Hb. rewrite Hb in Hpb. rewrite forallb_app in Hpb.
  apply andb_true_iff in Hpb as [_ Hq]. apply Forall_app. split; [|by apply IH]. apply Forall_app. split; [done|].
  constructor; [|done]. by rewrite forallb_app, Hph, Hq.
Qed.

Lemma sub_step literal ws p placeholder segs : to_text literal = literal_of (words ws) -> plain_segments (words ws) ->
  p "/"%char = false -> forallb not_slash (to_text placeholder) = true -> plain_segments segs ->
  sub (match_after literal p placeholder) (path_text segs) = path_text (step ws p placeholder segs) /\
  plain_segments (step ws p placeholder segs).
Proof. intros H1 H2 H3 H4 H5. split; [by apply sub_path|by apply seg_sub_plain]. Qed.

Lemma normalize_text_path segs : plain_segments segs -> normalize_text (path_text segs) = path_text (normalize_segments segs).
Proof.
  intros Hs. unfold normalize_text, normalize_segments. cbn [fold_left PathPattern].
  change (re_sub match_uuid (length (path_text segs)) (path_text segs)) with (sub_uuid (path_text segs)). rewrite sub_uuid_path.
  assert (Hu : plain_segments (map sub_uuid segs)).
  { induction Hs as [|a l Ha Hl IH]; simpl; constructor; [by apply sub_uuid_facts|done]. }
  generalize dependent (map sub_uuid segs). intros segs0 H0.
  pose proof (sub_step "/topics/" ["topics"] not_slash "{topic}" segs0 eq_refl ltac:(repeat constructor) eq_refl eq_refl H0) as [E1 H1].
  pose proof (sub_step "/schemas/ids/" ["schemas"; "ids"] is_decimal "{id}" _ eq_refl ltac:(repeat constructor) eq_refl eq_refl H1) as [E2 H2].
  pose proof (sub_step "/subjects/" ["subjects"] not_slash "{subject}" _ eq_refl ltac:(repeat constructor) eq_refl eq_refl H2) as [E3 H3].
  pose proof (sub_step "/versions/" ["versions"] is_decimal "{version}" _ eq_refl ltac:(repeat constructor) eq_refl eq_refl H3) as [E4 H4].
  pose proof (sub_step "/config/" ["config"] not_slash "{subject}" _ eq_refl ltac:(repeat constructor) eq_refl eq_refl H4) as [E5 H5].
  pose proof (sub_step "/mode/" ["mode"] not_slash "{subject}" _ eq_refl ltac:(repeat constructor) eq_refl eq_refl H5) as [E6 _].
  unfold sub in *. by rewrite E1, E2, E3, E4, E5, E6.
Qed.

Lemma span_all p a : a ≠ [] -> forallb p a = true -> exists c r, span_class p a = (c :: r, []).
Proof.
  intros Hne H. assert (E : span_class p a = (a, [])).
  { clear Hne. induction a as [|c a IH]; [done|]. simpl in *. apply andb_true_iff in H as [-> Ha]. by rewrite IH. }
  destruct a as [|c r]; [done|]. by exists c, r.
Qed.

(** The arguments whose labels are bounded: a subject without slashes that is not [topics], an id, and the number of
    a version or [latest] *)
Definition decimal (s : string) : Prop := s ≠ ""%string /\ forallb is_decimal (to_text s) = true.
Definition labelled (a : string * string) : Prop :=
  if String.eqb a.1 "subject" then a.2 ≠ ""%string /\ a.2 ≠ "topics"%string /\ forallb not_slash (to_text a.2) = true
  else decimal a.2 \/ (a.1 = "version" /\ a.2 = "latest")%string.

Definition metric_paths : list string :=
  ["/subjects"; "/subjects/{subject}"; "/subjects/{subject}/versions"; "/subjects/{subject}/versions/{version}";
   "/subjects/{subject}/versions/latest"; "/subjects/{subject}/versions/{version}/schema";
   "/subjects/{subject}/versions/latest/schema"; "/subjects/{subject}/versions/{version}/referencedby";
   "/subjects/{subject}/versions/latest/referencedby"; "/config"; "/config/{subject}"; "/mode"; "/mode/{subject}";
   "/compatibility/subjects/{subject}/versions/{version}"; "/compatibility/subjects/{subject}/versions/latest";
   "/schemas"; "/schemas/ids/{id}"; "/schemas/ids/{id}/versions"; "/schemas/types"]%string.

(** The passes after the UUIDs *)
Definition passes (segs : list text) : list text :=
  step ["mode"] not_slash "{subject}" (step ["config"] not_slash "{subject}" (step ["versions"] is_decimal "{version}"
    (step ["subjects"] not_slash "{subject}" (step ["schemas"; "ids"] is_decimal "{id}"
      (step ["topics"] not_slash "{topic}" segs)))))%string.

Section shapes.
Context (s v : text) (c d : ascii) (r ds : text).
Context (subject_span : span_class not_slash s = (c :: r, [])) (not_topics : text_eqb s (to_text "topics") = false).
Context (version_span : span_class is_decimal v = (d :: ds, [])).
Context (version_no_word : forall w, forallb is_decimal w = false -> text_eqb v w = false).

(** Evaluates the innermost pass: words are compared by computation, the subject by cases. *)
Ltac compare :=
  repeat (match goal with
    | |- context [text_eqb ?a ?b] =>
        first [ rewrite not_topics
              | rewrite (version_no_word b) by reflexivity
              | let x := eval vm_compute in (text_eqb a b) in
                lazymatch x with true => idtac | false => idtac end; change (text_eqb a b) with x
              | destruct (text_eqb a b) ]
    | |- context [span_class ?p ?a] =>
        first [ rewrite subject_span | rewrite version_span
              | let x := eval vm_compute in (span_class p a) in
                lazymatch x with (_, _) => idtac end; change (span_class p a) with x ]
    end; cbv beta iota).
Ltac pass :=
  match goal with
  | |- context [seg_sub ?n ?ws ?p ?ph ?l] =>
      lazymatch l with context [seg_sub] => fail | _ => idtac end;
      let E := fresh "E" in
      eassert (E : seg_sub n ws p ph l = _) by (cbv -[span_class text_eqb not_slash is_decimal]; compare; reflexivity); rewrite E; clear E
  end.
Ltac crunch := cbv -[text_eqb] in not_topics; unfold passes, step; repeat pass; reflexivity.

Lemma shape_config : passes [to_text "config"; s] = words ["config"; "{subject}"]%string.
Proof. crunch. Qed.
Lemma shape_mode : passes [to_text "mode"; s] = words ["mode"; "{subject}"]%string.
Proof. crunch. Qed.
Lemma shape_subject : passes [to_text "subjects"; s] = words ["subjects"; "{subject}"]%string.
Proof. crunch. Qed.
Lemma shape_versions : passes [to_text "subjects"; s; to_text "versions"] = words ["subjects"; "{subject}"; "versions"]%string.
Proof. crunch. Qed.
Lemma shape_version : passes [to_text "subjects"; s; to_text "versions"; v] = words ["subjects"; "{subject}"; "versions"; "{version}"]%string.
Proof. crunch. Qed.
Lemma shape_latest : passes [to_text "subjects"; s; to_text "versions"; to_text "latest"] =
  words ["subjects"; "{subject}"; "versions"; "latest"]%string.
Proof. crunch. Qed.
Lemma shape_version_schema : passes [to_text "subjects"; s; to_text "versions"; v; to_text "schema"] =
  words ["subjects"; "{subject}"; "versions"; "{version}"; "schema"]%string.
Proof. crunch. Qed.
Lemma shape_latest_schema : passes [to_text "subjects"; s; to_text "versions"; to_text "latest"; to_text "schema"] =
  words ["subjects"; "{subject}"; "versions"; "latest"; "schema"]%string.
Proof. crunch. Qed.
Lemma shape_version_referencedby : passes [to_text "subjects"; s; to_text "versions"; v; to_text "referencedby"] =
  words ["subjects"; "{subject}"; "versions"; "{version}"; "referencedby"]%string.
Proof. crunch. Qed.
Lemma shape_latest_referencedby : passes [to_text "subjects"; s; to_text "versions"; to_text "latest"; to_text "referencedby"] =
  words ["subjects"; "{subject}"; "versions"; "latest"; "referencedby"]%string.
Proof. crunch. Qed.
Lemma shape_compatibility : passes [to_text "compatibility"; to_text "subjects"; s; to_text "versions"; v] =
  words ["compatibility"; "subjects"; "{subject}"; "versions"; "{version}"]%string.
Proof. crunch. Qed.
Lemma shape_compatibility_latest : passes [to_text "compatibility"; to_text "subjects"; s; to_text "versions"; to_text "latest"] =
  words ["compatibility"; "subjects"; "{subject}"; "versions"; "latest"]%string.
Proof. crunch. Qed.
Lemma shape_schema_id : passes [to_text "schemas"; to_text "ids"; v] = words ["schemas"; "ids"; "{id}"]%string.
Proof. crunch. Qed.
Lemma shape_schema_id_versions : passes [to_text "schemas"; to_text "ids"; v; to_text "versions"] =
  words ["schemas"; "ids"; "{id}"; "versions"]%string.
Proof. crunch. Qed.
End shapes.

Lemma sub_uuid_id a : forallb (fun c => not_slash c && negb (Ascii.eqb c "-")) a = true -> sub_uuid a = a.
Proof.
  intros H. destruct (sub_uuid_facts a) as (_ & _ & [|[Hin _]]); [|done|].
  - revert H. apply forallb_weaken. by intros c [? _]%andb_true_iff.
  - exfalso. rewrite forallb_forall in H. apply list_elem_of_In in Hin. specialize (H _ Hin).
    by apply andb_true_iff in H as [_ H].
Qed.

Definition argument (name : string) (call : Call) : text := to_text (default EmptyString (dget name (path_arguments call))).

(** The segments of a route's path *)
Definition route_segments (call : Call) : list text :=
  let s := argument "subject" call in
  let v := argument "version" call in
  match call with
  | GetSubjects _ => words ["subjects"]
  | PostSubject _ _ _ _ | DeleteSubject _ _ => [to_text "subjects"; s]
  | PostVersion _ _ _ | GetVersions _ _ => [to_text "subjects"; s; to_text "versions"]
  | GetVersion _ _ _ | DeleteVersion _ _ _ => [to_text "subjects"; s; to_text "versions"; v]
  | GetVersionSchema _ _ => [to_text "subjects"; s; to_text "versions"; v; to_text "schema"]
  | GetReferencedBy _ _ => [to_text "subjects"; s; to_text "versions"; v; to_text "referencedby"]
  | GetConfig | PutConfig _ => words ["config"]
  | GetSubjectConfig _ _ | PutSubjectConfig _ _ | DeleteSubjectConfig _ => [to_text "config"; s]
  | GetMode => words ["mode"]
  | GetSubjectMode _ => [to_text "mode"; s]
  | PostCompatibility _ _ _ => [to_text "compatibility"; to_text "subjects"; s; to_text "versions"; v]
  | GetSchemas _ _ => words ["schemas"]
  | GetSchema _ _ _ _ => [to_text "schemas"; to_text "ids"; argument "schema_id" call]
  | GetSchemaVersions _ _ => [to_text "schemas"; to_text "ids"; argument "schema_id" call; to_text "versions"]
  | GetTypes => words ["schemas"; "types"]
  end%string.

Lemma route_path_text call m template : route_of call = Some (m, template) ->
  to_text (fill (path_arguments call) None template) = path_text (route_segments call).
Proof.
  intros Hm. destruct call; vm_compute in Hm; injection Hm as <- <-; unfold route_segments, argument, path_text; simpl;
    unfold dget; simpl; rewrite ?to_text_app; simpl; rewrite ?to_text_app; simpl; rewrite ?app_nil_r; reflexivity.
Qed.

Lemma subject_facts s : labelled ("subject", s)%string -> exists c r,
  span_class not_slash (sub_uuid (to_text s)) = (c :: r, []) /\ text_eqb (sub_uuid (to_text s)) (to_text "topics") = false.
Proof.
  intros (Hne & Ht & Hs). destruct (sub_uuid_facts (to_text s) Hs) as (H1 & H2 & H3).
  destruct (span_all not_slash (sub_uuid (to_text s))) as (c & r & E); [|done|].
  - intros E%H2. by destruct s.
  - exists c, r. split; [done|]. rewrite text_eqb_spec. apply bool_decide_eq_false_2. intros E'.
    destruct H3 as [H3|[_ H3]].
    + apply Ht. rewrite <- (of_to_text s), <- H3, E'. reflexivity.
    + rewrite E' in H3. apply (bool_decide_eq_true_2 ("{"%char ∈ to_text "topics")) in H3. vm_compute in H3. discriminate.
Qed.

Lemma decimal_facts v : decimal v -> sub_uuid (to_text v) = to_text v /\ exists d ds,
  span_class is_decimal (to_text v) = (d :: ds, []) /\ forall w, forallb is_decimal w = false -> text_eqb (to_text v) w = false.
Proof.
  intros [Hne Hv]. split.
  - apply sub_uuid_id. revert Hv. apply forallb_weaken. intros c. by destruct c as [[] [] [] [] [] [] [] []].
  - destruct (span_all is_decimal (to_text v)) as (d & ds & E); [by destruct v|done|]. exists d, ds. split; [done|].
    intros w Hw. rewrite text_eqb_spec. apply bool_decide_eq_false_2. intros <-. congruence.
Qed.

Lemma labelled_plain name a : labelled (name, a) -> forallb not_slash (to_text a) = true.
Proof.
  unfold labelled. cbn [fst snd]. destruct (String.eqb name "subject"); [by intros (_ & _ & ?)|].
  intros [[_ H]|[_ ->]]; [|done]. revert H. apply forallb_weaken. intros c. by destruct c as [[] [] [] [] [] [] [] []].
Qed.

Lemma bounded segs out : plain_segments segs -> passes (map sub_uuid segs) = words out ->
  bool_decide (of_text (path_text (words out)) ∈ metric_paths) = true ->
  of_text (normalize_text (path_text segs)) ∈ metric_paths.
Proof.
  intros Hp Ho Hb. rewrite normalize_text_path by done. change (normalize_segments segs) with (passes (map sub_uuid segs)).
  rewrite Ho. by apply bool_decide_eq_true_1 in Hb.
Qed.

Ltac fixed_words :=
  repeat match goal with |- context [sub_uuid (to_text (String ?c ?r))] => rewrite (sub_uuid_id (to_text (String c r))) by reflexivity end.
Ltac plain := repeat (apply Forall_cons; split; [first [reflexivity | by eapply labelled_plain]|]); apply Forall_nil; exact I.
Ltac shape lemma := eapply bounded; [plain|cbn [map]; fixed_words; eapply lemma; eassumption|vm_compute; reflexivity].

Section labelled_shapes.
Context (s v i : string) (Hs : labelled ("subject", s)%string) (Hv : labelled ("version", v)%string)
  (Hi : labelled ("schema_id", i)%string).
Abbreviation bounded_path l := (of_text (normalize_text (path_text l)) ∈ metric_paths).

Lemma bounded_config : bounded_path [to_text "config"; to_text s].
Proof. destruct (subject_facts s Hs) as (c & r & H1 & H2). shape shape_config. Qed.
Lemma bounded_mode : bounded_path [to_text "mode"; to_text s].
Proof. destruct (subject_facts s Hs) as (c & r & H1 & H2). shape shape_mode. Qed.
Lemma bounded_subject : bounded_path [to_text "subjects"; to_text s].
Proof. destruct (subject_facts s Hs) as (c & r & H1 & H2). shape shape_subject. Qed.
Lemma bounded_versions : bounded_path [to_text "subjects"; to_text s; to_text "versions"].
Proof. destruct (subject_facts s Hs) as (c & r & H1 & H2). shape shape_versions. Qed.

Ltac version_shape by_number by_latest :=
  destruct (subject_facts s Hs) as (c & r & H1 & H2); pose proof (labelled_plain _ _ Hs) as Hps; pose proof (labelled_plain _ _ Hv) as Hpv;
  destruct Hv as [Hd|[_ E]];
  [ destruct (decimal_facts v Hd) as (Hu & d & ds & H3 & H4);
    eapply bounded; [repeat constructor; assumption|cbn [map]; fixed_words; rewrite Hu; eapply by_number; eassumption|vm_compute; reflexivity]
  | cbn [snd] in E; subst v;
    eapply bounded; [repeat constructor; assumption|cbn [map]; fixed_words; eapply by_latest; eassumption|vm_compute; reflexivity] ].

Lemma bounded_version : bounded_path [to_text "subjects"; to_text s; to_text "versions"; to_text v].
Proof. version_shape shape_version shape_latest. Qed.
Lemma bounded_schema : bounded_path [to_text "subjects"; to_text s; to_text "versions"; to_text v; to_text "schema"].
Proof. version_shape shape_version_schema shape_latest_schema. Qed.
Lemma bounded_referencedby : bounded_path [to_text "subjects"; to_text s; to_text "versions"; to_text v; to_text "referencedby"].
Proof. version_shape shape_version_referencedby shape_latest_referencedby. Qed.
Lemma bounded_compatibility :
  bounded_path [to_text "compatibility"; to_text "subjects"; to_text s; to_text "versions"; to_text v].
Proof. version_shape shape_compatibility shape_compatibility_latest. Qed.

Lemma bounded_schema_id : bounded_path [to_text "schemas"; to_text "ids"; to_text i].
Proof.
  destruct Hi as [Hd|[E _]]; [|discriminate]. destruct (decimal_facts i Hd) as (Hu & d & ds & H3 & H4).
  pose proof (labelled_plain _ _ Hi) as Hpi.
  eapply bounded; [repeat constructor; assumption|cbn [map]; fixed_words; rewrite Hu; eapply shape_schema_id; eassumption|vm_compute; reflexivity].
Qed.
Lemma bounded_schema_id_versions : bounded_path [to_text "schemas"; to_text "ids"; to_text i; to_text "versions"].
Proof.
  destruct Hi as [Hd|[E _]]; [|discriminate]. destruct (decimal_facts i Hd) as (Hu & d & ds & H3 & H4).
  pose proof (labelled_plain _ _ Hi) as Hpi.
  eapply bounded; [repeat constructor; assumption|cbn [map]; fixed_words; rewrite Hu; eapply shape_schema_id_versions; eassumption|vm_compute; reflexivity].
Qed.
End labelled_shapes.

(** The paths under which requests are counted are bounded. Whatever the subject of a request is, as long as it
    has no slash and is not [topics], and whatever schema id or version number the path names, the normalised path
    is one of a fixed list: the number of time series does not grow with the data. *)
Theorem metric_paths_bounded call m template : route_of call = Some (m, template) ->
  Forall labelled (path_arguments call) ->
  normalize_path (fill (path_arguments call) None template) ∈ metric_paths.
Proof.
  intros Hm Hl. unfold normalize_path. rewrite (route_path_text call m template Hm). clear Hm.
  assert (Hfixed : forall l, bool_decide (of_text (normalize_text (path_text (words l))) ∈ metric_paths) = true ->
    of_text (normalize_text (path_text (words l))) ∈ metric_paths) by (intros l; apply bool_decide_eq_true_1).
  destruct call; cbn [path_arguments] in Hl; rewrite ?Forall_cons in Hl; destruct_and? Hl;
    lazymatch goal with
    | |- context [GetSubjects] => apply (Hfixed ["subjects"]%string); vm_compute; reflexivity
    | |- context [GetConfig] => apply (Hfixed ["config"]%string); vm_compute; reflexivity
    | |- context [PutConfig] => apply (Hfixed ["config"]%string); vm_compute; reflexivity
    | |- context [GetMode] => apply (Hfixed ["mode"]%string); vm_compute; reflexivity
    | |- context [GetSchemas] => apply (Hfixed ["schemas"]%string); vm_compute; reflexivity
    | |- context [GetTypes] => apply (Hfixed ["schemas"; "types"]%string); vm_compute; reflexivity
    | |- context [GetSchema ?i] => by apply (bounded_schema_id i)
    | |- context [GetSchemaVersions ?i] => by apply (bounded_schema_id_versions i)
    | |- context [PostCompatibility ?s ?v] => by apply (bounded_compatibility s v)
    | |- context [GetVersion ?s ?v] => by apply (bounded_version s v)
    | |- context [DeleteVersion ?s ?v] => by apply (bounded_version s v)
    | |- context [GetVersionSchema ?s ?v] => by apply (bounded_schema s v)
    | |- context [GetReferencedBy ?s ?v] => by apply (bounded_referencedby s v)
    | |- context [PostVersion ?s] => by apply (bounded_versions s)
    | |- context [GetVersions ?s] => by apply (bounded_versions s)
    | |- context [PostSubject ?s] => by apply (bounded_subject s)
    | |- context [DeleteSubject ?s] => by apply (bounded_subject s)
    | |- context [GetSubjectMode ?s] => by apply (bounded_mode s)
    | |- context [GetSubjectConfig ?s] => by apply (bounded_config s)
    | |- context [PutSubjectConfig ?s] => by apply (bounded_config s)
    | |- context [DeleteSubjectConfig ?s] => by apply (bounded_config s)
    end.
Qed.

Lemma metric_paths_bounded_witness :
  let call := GetVersion "orders 1b4e28ba-2fa1-11d2-883f-0016d3cca427" "17" false in
  normalize_path (fill (path_arguments call) None "/subjects/{subject}/versions/{version}") =
    "/subjects/{subject}/versions/{version}"%string /\
  normalize_path (fill (path_arguments call) None "/subjects/{subject}/versions/{version}") ∈ metric_paths.
Proof.
  split; [vm_compute; reflexivity|].
  apply (metric_paths_bounded (GetVersion "orders 1b4e28ba-2fa1-11d2-883f-0016d3cca427" "17" false) GET); [reflexivity|].
  constructor; [|constructor; [|constructor]].
  - split; [discriminate|]. split; [discriminate|reflexivity].
  - left. split; [discriminate|reflexivity].
Defined.

(** The path of a subject with a slash, and the version of the subject [topics], stay in the label. *)
Lemma metric_path_with_slash : normalize_path "/subjects/a/b" = "/subjects/{subject}/b"%string /\
  normalize_path "/subjects/topics/versions/17" = "/subjects/{subject}/{topic}/17"%string.
Proof. split; vm_compute; reflexivity. Qed.

(** ** Counters *)

Definition value {K} `{!EqDecision K} (k : K) (d : dict K Z) : Z := default 0 (dget k d).

Lemma value_add {K} `{!EqDecision K} (k k' : K) n d : value k' (add_to k n d) = value k' d + (if decide (k = k') then n else 0).
Proof.
  unfold value, add_to. destruct (decide (k = k')) as [->|Hne]; [by rewrite dget_dset_eq|]. rewrite dget_dset_ne by done. lia.
Qed.

(** Whatever the handler does, the gauge of the requests in progress is what it was, and the outcome is the handler's. *)
Theorem in_progress_balanced method path outcome m l :
  value l (in_progress (telemetry_middleware method path outcome m).1) = value l (in_progress m) /\
  (telemetry_middleware method path outcome m).2 = outcome /\
  value l (in_progress (http_request_metrics_middleware method path outcome m).1) = value l (in_progress m) /\
  (http_request_metrics_middleware method path outcome m).2 = outcome.
Proof.
  destruct outcome as [status|e]; (split_and!; [|done| |done]); simpl; rewrite !value_add; case_decide; lia.
Qed.

(** A request that ends with an exception is counted twice by the middleware of the API, and not at all by that of the proxy. *)
Lemma exception_counted_twice method path m :
  let l := (method, normalize_path path) in
  value (l, 0) (total (telemetry_middleware method path (Raise RuntimeError) m).1) = value (l, 0) (total m) + 2 /\
  total (http_request_metrics_middleware method path (Raise RuntimeError) m).1 = total m.
Proof. split; [|done]. simpl. rewrite !value_add, decide_True by done. lia. Qed.
