(* ===== verification/Statistics.v ===== *)
(** * Statistics

    What is reported: the datagrams of [statsd.py], and the counters and gauges of [core/stats.py].

    A datagram is a line [metric,tag=value,...:value|type]. The UDP socket is the list of what was handed to
    it, and whether it takes a datagram is an argument; an exception of the sending is logged and dropped.
    Texts of numbers and of times are arguments where Python formats them. The Sentry client is the list of
    the tags it was given. *)

From Stdlib Require Import QArith_base.
From stdpp Require Import pretty.
From S2P Require Import Prelude Typing.
Open Scope Z_scope.

(** ** statsd.py *)

(** A tag value: a time is given by the [isoformat] of its UTC form, a duration by its seconds, anything
    else by its [str] *)
Inductive TagValue : Type :=
  | TagNone
  | TagStr (s : string)
  | TagDatetime (isoformat : string)
  | TagTimedelta (seconds : Q)
  | TagOther (str : string).

Definition text_contains (c : Ascii.ascii) (s : string) : bool :=
  existsb (Ascii.eqb c) (String.list_ascii_of_string s).

Definition tag_text (v : TagValue) : string :=
  match v with
  | TagNone => ""
  | TagStr s => s
  | TagDatetime iso => str_replace ":" "" (str_replace "-" "" (String.substring 0 19 iso)) +:+ "Z"
  | TagTimedelta seconds => pretty (int_of_Q seconds) +:+ "s"
  | TagOther s => s
  end%string.
Definition tag_value (v : TagValue) : string :=
  let s := tag_text v in
  if text_contains " " s || text_contains ":" s || text_contains "|" s || text_contains "=" s then "INVALID"%string else s.

(** [sorted(send_tags.items())] *)
Fixpoint insert_tag (kv : string * TagValue) (l : dict string TagValue) : dict string TagValue :=
  match l with
  | [] => [kv]
  | kv' :: l' => if String.leb kv.1 kv'.1 then kv :: kv' :: l' else kv' :: insert_tag kv l'
  end.
Definition sorted_tags (tags : dict string TagValue) : dict string TagValue := fold_right insert_tag [] tags.

Definition dict_update {V} (d e : dict string V) : dict string V := fold_left (fun d kv => dset kv.1 kv.2 d) e d.

(** Every tag is inserted behind the metric, so that the last of the order comes first. *)
Definition datagram (client_tags : dict string TagValue) (metric metric_type value : string)
  (tags : dict string TagValue) : string :=
  fold_right (fun p s => p +:+ s)%string EmptyString
    ([metric] ++ map (fun kv => "," +:+ kv.1 +:+ "=" +:+ tag_value kv.2)%string (rev (sorted_tags (dict_update client_tags tags))) ++
     [":"; value; "|"; metric_type]%string).

Record StatsClient : Type := mkStatsClient {
  statsd_host : option string;
  statsd_port : option Z;
  stats_tags : dict string TagValue;
  sent : list string;
  (** the error, where, and tags of every exception reported to Sentry *)
  sentry : list (exn * string * dict string TagValue);
}.
Definition with_sent (s : list string) (c : StatsClient) : StatsClient :=
  mkStatsClient (statsd_host c) (statsd_port c) (stats_tags c) s (sentry c).
Definition with_sentry (s : list (exn * string * dict string TagValue)) (c : StatsClient) : StatsClient :=
  mkStatsClient (statsd_host c) (statsd_port c) (stats_tags c) (sent c) s.

Definition disabled (c : StatsClient) : bool :=
  match statsd_host c, statsd_port c with Some _, Some _ => false | _, _ => true end.

(** [_send]; [sendto] says what the socket does with the datagram. *)
Definition send (sendto : string -> result ()) (metric metric_type value : string) (tags : option (dict string TagValue))
  (c : StatsClient) : StatsClient :=
  if disabled c then c
  else
    let d := datagram (stats_tags c) metric metric_type value (default [] tags) in
    match sendto d with
    | Ok _ => with_sent (sent c ++ [d]) c
    | Raise _ => c
    end.

Definition gauge sendto (metric value : string) tags c : StatsClient := send sendto metric "g" value tags c.
Definition increase sendto (metric : string) (inc_value : Z) tags c : StatsClient := send sendto metric "c" (pretty inc_value) tags c.
Definition timing sendto (metric value : string) tags c : StatsClient := send sendto metric "ms" value tags c.

(** [timing_manager] around a body: nothing is sent when the body raises. *)
Definition timing_manager {A} sendto (metric elapsed : string) tags (body : result A) (c : StatsClient) : StatsClient :=
  match body with Ok _ => timing sendto metric elapsed tags c | Raise _ => c end.

(** [unexpected_exception]; [name] is the name of the class of the exception. *)
Definition unexpected_exception sendto (ex : exn) (name where_ : string) (tags : option (dict string TagValue)) (c : StatsClient)
  : StatsClient :=
  let all_tags := dict_update [("exception", TagStr name); ("where", TagStr where_)]%string (default [] tags) in
  let c := increase sendto "exception" 1 (Some all_tags) c in
  with_sentry (sentry c ++ [(ex, where_, dset "where"%string (TagStr where_) (default [] tags))]) c.

(** ** core/stats.py *)

Notation Labels := (dict string string) (only parsing).

Record CoreStats : Type := mkCoreStats {
  core_tags : Labels;
  records_counter : dict Labels Z;
  schemas_gauge : dict Labels Z;
  subjects_gauge : dict Labels Z;
  versions_gauge : dict Labels Z;
  exceptions_total : dict Labels Z;
  core_sentry : list (exn * string * Labels);
}.
Definition CoreStats_init (tags : Labels) : CoreStats := mkCoreStats tags [] [] [] [] [] [].

(** [Counter.add] *)
Definition counter_add (amount : Z) (attributes : Labels) (c : dict Labels Z) : dict Labels Z :=
  dset attributes (default 0 (dget attributes c) + amount) c.

Definition schema_records_processed (with_canonical_key with_deprecated_key : Z) (s : CoreStats) : CoreStats :=
  let keymode (m : string) := dict_update [("keymode", m)]%string (core_tags s) in
  mkCoreStats (core_tags s)
    (counter_add with_deprecated_key (keymode "DEPRECATED_KARAPACE")
       (counter_add with_canonical_key (keymode "CANONICAL") (records_counter s)))
    (schemas_gauge s) (subjects_gauge s) (versions_gauge s) (exceptions_total s) (core_sentry s).
Definition set_schemas_num_total (value : Z) (s : CoreStats) : CoreStats :=
  mkCoreStats (core_tags s) (records_counter s) (dset (core_tags s) value (schemas_gauge s)) (subjects_gauge s)
    (versions_gauge s) (exceptions_total s) (core_sentry s).
Definition set_subjects_num_total (value : Z) (s : CoreStats) : CoreStats :=
  mkCoreStats (core_tags s) (records_counter s) (schemas_gauge s) (dset (core_tags s) value (subjects_gauge s))
    (versions_gauge s) (exceptions_total s) (core_sentry s).
Definition set_schema_versions_num_total (live_versions soft_deleted_versions : Z) (s : CoreStats) : CoreStats :=
  let state (v : string) := (("state", v) :: core_tags s)%string in
  mkCoreStats (core_tags s) (records_counter s) (schemas_gauge s) (subjects_gauge s)
    (dset (state "soft_deleted") soft_deleted_versions (dset (state "live") live_versions (versions_gauge s)))
    (exceptions_total s) (core_sentry s).
Definition core_unexpected_exception (ex : exn) (name where_ : string) (tags : option Labels) (s : CoreStats) : CoreStats :=
  let all_tags := dict_update (dict_update [("exception", name); ("where", where_)]%string (core_tags s)) (default [] tags) in
  mkCoreStats (core_tags s) (records_counter s) (schemas_gauge s) (subjects_gauge s) (versions_gauge s)
    (counter_add 1 all_tags (exceptions_total s))
    (core_sentry s ++ [(ex, where_, dset "where"%string where_ (default [] tags))]).

(** ** Reading a datagram *)

(** The text before and after the first [c] *)
Fixpoint split_first (c : Ascii.ascii) (s : string) : option (string * string) :=
  match s with
  | EmptyString => None
  | String a s' => if Ascii.eqb c a then Some (EmptyString, s') else '(x, y) ← split_first c s'; Some (String a x, y)
  end.
Fixpoint split_all (fuel : nat) (c : Ascii.ascii) (s : string) : list string :=
  match fuel, split_first c s with
  | S fuel, Some (a, b) => a :: split_all fuel c b
  | _, _ => [s]
  end.

(** A line of the protocol: the metric, the tags, the value and the type *)
Definition read_datagram (s : string) : option (string * list (string * string) * string * string) :=
  '(head, rest) ← split_first ":" s;
  '(value, metric_type) ← split_first "|" rest;
  match split_all (String.length head) "," head with
  | [] => None
  | metric :: tags => tags ← mapM (split_first "=") tags; Some (metric, tags, value, metric_type)
  end.

(** ** Lemmas *)

Lemma contains_app c a b : text_contains c (a +:+ b)%string = text_contains c a || text_contains c b.
Proof. unfold text_contains. induction a as [|x a IH]; [done|]. simpl in *. by rewrite IH, orb_assoc. Qed.

Lemma split_first_app c a b : text_contains c a = false -> split_first c (a +:+ String c b)%string = Some (a, b).
Proof.
  induction a as [|x a IH]; intros Ha.
  - change (split_first c (String c b) = Some (EmptyString, b)). simpl. by rewrite Ascii.eqb_refl.
  - change (split_first c (String x (a +:+ String c b)%string) = Some (String x a, b)).
    apply orb_false_iff in Ha as [Hx Ha]. simpl. by rewrite Hx, IH.
Qed.
Lemma split_first_none c a : text_contains c a = false -> split_first c a = None.
Proof. induction a as [|x a IH]; intros Ha; [done|]. apply orb_false_iff in Ha as [Hx Ha]. simpl. by rewrite Hx, IH. Qed.

Definition tag_part (kv : string * string) : string := ("," +:+ kv.1 +:+ "=" +:+ kv.2)%string.
Definition joined (l : list string) : string := fold_right (fun p s => p +:+ s)%string EmptyString l.

Lemma split_all_parts metric parts fuel : text_contains "," metric = false ->
  Forall (fun kv => text_contains "," kv.1 = false /\ text_contains "," kv.2 = false) parts ->
  (length parts <= fuel)%nat ->
  split_all fuel "," (metric +:+ joined (map tag_part parts))%string =
  metric :: map (fun kv => (kv.1 +:+ "=" +:+ kv.2)%string) parts.
Proof.
  intros Hm Hp. revert metric fuel Hm; induction Hp as [|[k v] parts [Hk Hv] _ IH]; intros metric fuel Hm Hf.
  - change (joined (map tag_part [])) with EmptyString.
    rewrite string_app_nil.
    destruct fuel; simpl; [done|]. by rewrite split_first_none.
  - destruct fuel as [|fuel]; [simpl in Hf; lia|].
    change (joined (map tag_part ((k, v) :: parts))) with (tag_part (k, v) +:+ joined (map tag_part parts))%string.
    assert (E : (tag_part (k, v) +:+ joined (map tag_part parts))%string =
      String "," ((k +:+ "=" +:+ v) +:+ joined (map tag_part parts))%string) by reflexivity.
    rewrite E. cbn [split_all]. rewrite split_first_app by done.
    rewrite IH; [done| |simpl in Hf; lia]. simpl in Hk, Hv. by rewrite !contains_app, Hk, Hv.
Qed.

Lemma insert_tag_perm kv l : insert_tag kv l ≡ₚ kv :: l.
Proof.
  induction l as [|kv' l IH]; simpl; [done|]. destruct (String.leb _ _); [done|]. rewrite IH. apply Permutation_swap.
Qed.
Lemma sorted_tags_perm l : sorted_tags l ≡ₚ l.
Proof. induction l as [|kv l IH]; simpl; [done|]. by rewrite insert_tag_perm, IH. Qed.

(** The characters that end a value are replaced together with the value. *)
Lemma tag_value_clean v : text_contains ":" (tag_value v) = false /\ text_contains "|" (tag_value v) = false /\ text_contains "=" (tag_value v) = false.
Proof.
  unfold tag_value. destruct (_ || _) eqn:E; [by vm_compute|].
  apply orb_false_iff in E as [[[_ E1]%orb_false_iff E2]%orb_false_iff E3]. done.
Qed.

Lemma joined_clean c (l : list string) : Forall (fun s => text_contains c s = false) l -> text_contains c (joined l) = false.
Proof. induction 1 as [|s l Hs _ IH]; [done|]. change (joined (s :: l)) with (s +:+ joined l)%string. by rewrite contains_app, Hs. Qed.
Lemma joined_length (f : string * string -> string) l : (forall x, (1 <= String.length (f x))%nat) -> (length l <= String.length (joined (map f l)))%nat.
Proof.
  intros Hf. induction l as [|x l IH]; [done|]. change (joined (map f (x :: l))) with (f x +:+ joined (map f l))%string.
  rewrite string_length_app. specialize (Hf x). simpl. lia.
Qed.
Lemma joined_app l1 l2 : joined (l1 ++ l2) = (joined l1 +:+ joined l2)%string.
Proof.
  induction l1 as [|s l1 IH]; [done|]. change (s +:+ joined (l1 ++ l2) = (s +:+ joined l1) +:+ joined l2)%string.
  by rewrite IH, string_app_assoc.
Qed.

Lemma read_parts (parts : list (string * string)) : Forall (fun kv => text_contains "=" kv.1 = false) parts ->
  mapM (split_first "=") (map (fun kv => (kv.1 +:+ "=" +:+ kv.2)%string) parts) = Some parts.
Proof.
  induction 1 as [|[k v] l Hk _ IH]; [done|]. simpl in *.
  change (k +:+ "=" +:+ v)%string with (k +:+ String "=" v)%string. rewrite split_first_app by done.
  simpl. rewrite IH. done.
Qed.

(** ** Properties *)

Definition clean_name (s : string) : Prop :=
  text_contains "," s = false /\ text_contains ":" s = false /\ text_contains "=" s = false.

(** What is sent can be read: when the metric and the names of the tags are free of the characters of the
    format, and no value of a tag has a comma, the datagram reads back as the metric, the value, the type and
    the tags of the client and of the call, these by descending name, with the values that hold another
    character of the format replaced by INVALID. *)
Theorem datagram_reads client_tags metric metric_type value tags :
  clean_name metric -> text_contains "|" value = false ->
  Forall (fun kv => clean_name kv.1 /\ text_contains "," (tag_value kv.2) = false) (dict_update client_tags tags) ->
  read_datagram (datagram client_tags metric metric_type value tags) =
  Some (metric, map (fun kv => (kv.1, tag_value kv.2)) (rev (sorted_tags (dict_update client_tags tags))), value, metric_type).
Proof.
  intros (Hm1 & Hm2 & _) Hv Ht. set (parts := map (fun kv => (kv.1, tag_value kv.2)) (rev (sorted_tags _))).
  assert (Hp : Forall (fun kv => clean_name kv.1 /\ text_contains "," kv.2 = false /\ text_contains ":" kv.2 = false) parts).
  { apply Forall_forall. intros kv Hkv. apply list_elem_of_fmap in Hkv as ([k v] & -> & Hin).
    apply list_elem_of_In, in_rev, list_elem_of_In in Hin. rewrite sorted_tags_perm in Hin.
    apply (proj1 (Forall_forall _ _) Ht) in Hin as [Hn Hc]. split_and!; [done|done|]. apply tag_value_clean. }
  assert (E : datagram client_tags metric metric_type value tags =
    ((metric +:+ joined (map tag_part parts)) +:+ String ":" (value +:+ String "|" metric_type))%string).
  { unfold datagram. fold (joined ([metric] ++ map (fun kv => "," +:+ kv.1 +:+ "=" +:+ tag_value kv.2)%string
      (rev (sorted_tags (dict_update client_tags tags))) ++ [":"; value; "|"; metric_type]%string)).
    rewrite !joined_app. change (joined [metric]) with (metric +:+ "")%string. rewrite string_app_nil, string_app_assoc.
    unfold parts. rewrite map_map. f_equal. change (joined [":"; value; "|"; metric_type]%string) with
      (String ":" (value +:+ String "|" (metric_type +:+ "")))%string. by rewrite string_app_nil. }
  rewrite E. unfold read_datagram.
  assert (Hhead : text_contains ":" (metric +:+ joined (map tag_part parts))%string = false).
  { rewrite contains_app, Hm2. apply joined_clean, Forall_fmap. eapply Forall_impl; [exact Hp|]. intros [k v] ((_ & Hk & _) & _ & Hv').
    unfold tag_part, compose. simpl in *. by rewrite !contains_app, Hk, Hv'. }
  rewrite split_first_app by done. cbn [mbind option_bind]. rewrite split_first_app by done. cbn [mbind option_bind].
  rewrite split_all_parts; [|done| |].
  - rewrite (read_parts parts); [done|]. eapply Forall_impl; [exact Hp|]. by intros [k v] ((_ & _ & Hk) & _).
  - eapply Forall_impl; [exact Hp|]. by intros [k v] ((Hk & _) & Hc & _).
  - rewrite string_length_app. pose proof (joined_length tag_part parts). etrans; [apply H|lia].
    intros [k v]. unfold tag_part. rewrite string_length_app. simpl. lia.
Qed.

Lemma datagram_reads_witness :
  read_datagram (datagram [("app", TagStr "Karapace")]%string "request" "ms" "0.25"
    [("path", TagStr "/topics/x"); ("code", TagOther "200"); ("at", TagStr "10:30")]%string) =
  Some ("request", [("path", "/topics/x"); ("code", "200"); ("at", "INVALID"); ("app", "Karapace")], "0.25", "ms")%string.
Proof.
  apply (datagram_reads [("app", TagStr "Karapace")]%string "request" "ms" "0.25"
    [("path", TagStr "/topics/x"); ("code", TagOther "200"); ("at", TagStr "10:30")]%string);
    [by vm_compute|reflexivity|repeat constructor].
Defined.

(** A comma in a value is not among the characters that are refused, and makes the datagram unreadable. *)
Lemma comma_in_tag : read_datagram (datagram [] "m" "c" "1" [("path", TagStr "a,b")]%string) = None.
Proof. reflexivity. Qed.

(** Sending changes nothing but the datagrams sent, of which it adds one at most, and none when no host or
    port is set or when the socket refuses it. *)
Lemma send_spec sendto metric ty value tags c :
  let c' := send sendto metric ty value tags c in
  sentry c' = sentry c /\ stats_tags c' = stats_tags c /\
  (c' = c \/ (disabled c = false /\ sent c' = sent c ++ [datagram (stats_tags c) metric ty value (default [] tags)])).
Proof. unfold send. destruct (disabled c); [by split_and!; [..|left]|]. destruct (sendto _); split_and!; auto. Qed.

(** The counters only grow, by what is added. *)
Lemma counter_add_spec amount l l' c :
  default 0 (dget l' (counter_add amount l c)) = default 0 (dget l' c) + (if bool_decide (l' = l) then amount else 0).
Proof.
  unfold counter_add. case_bool_decide as E; [subst; by rewrite dget_dset_eq|].
  rewrite dget_dset_ne by done. lia.
Qed.
